(* ===== verification/_CoqProject ===== *)
-Q . S2P
Prelude.v
Error.v
Endian.v
Crc32c.v
Fields.v
Superblock.v
Extent.v
Sample.v
Ag.v
Agfl.v
FreeSpace.v
Inode.v
Dir.v
DirShort.v
Bmbt.v
AgBtree.v
AllocBtree.v
InodeBtree.v
Refcount.v
Rmap.v
Overlay.v
BufWrite.v
DirBlock.v
DirLookup.v
Attr.v
AttrWrite.v
AttrImage.v
Acl.v
LogRecover.v
InodeLog.v
GroupWrite.v
Relay.v
GroupItems.v
GroupOpen.v
Log.v
LogWrite.v
LogWalk.v
LogAppend.v
Replay.v
Commit.v
Quota.v
