(* ===== verification/Prelude.v ===== *)
(** * rust-fs-xfs: a verification development of the XFS driver

    The crate under [src/src] mounts an XFS volume, reads it, and writes it the
    way the kernel does: an operation edits copies of metadata blocks in memory,
    turns the edits into log items, writes the items into the volume's log as
    one checkpoint, keeps the new blocks in an overlay over the device, and
    pushes the overlay home later.  After a crash the log is replayed.

    ** How the parts fit

    - Parsing: [Superblock], [Ag] (AGF, AGI), [Agfl], [Extent] decode what is on
      disk, refusing what is corrupt.
    - A group's space: [FreeSpace] and [AllocBtree] (free runs and their two
      trees), [Refcount], [Rmap], [Agfl] (the queue of blocks the trees grow
      from), over [AgBtree] (walking and laying out any of the trees) and
      [Relay] (laying a changed tree out again over the blocks it has).
    - An operation on a group: [GroupWrite] (taking, giving back), [GroupItems]
      (opening a group, and the items of what was done to it), [GroupOpen].
    - The log: [BufWrite] (a block's edits as a log item), [LogWrite] (items as
      records), [Log] (where the ring's newest record and its head are),
      [LogWalk] (reading the records back), [LogRecover] (operations into items,
      items into blocks), [InodeLog] (the two encodings of an inode, its item
      and the item of a new chunk), [LogAppend] (the writer, the search and the
      reader on one device), [Replay] (recovery's two passes).
    - Inodes: [Inode] (the core, its times), [InodeBtree] (which inodes of a
      chunk there are and which are free), [Bmbt] (the tree of a file's extents,
      and its root as the log has it).
    - Directories: [Dir] (what a reader makes of each form), [DirShort] (a
      directory inside its inode, encoded and edited), [DirBlock] (one built of
      blocks), [DirLookup] ([Filesystem]'s lookups and listings).
    - Extended attributes: [Attr] (reading every form of the fork), [AttrWrite]
      (the fork laid out from the list of attributes), [AttrImage] (the blocks
      of the layout, and what the reader makes of them), [Acl] (POSIX ACLs and
      the mode they stand for).
    - Quota: [Quota] (the changes of a transaction added up, the records of the
      dquots adjusted, logged and replayed, and read).
    - The mount: [Overlay] (what is logged and not yet home), [Commit]
      ([Filesystem]'s log state: committing, wrapping the ring, pushing).

    ** Files and the code they model

    - [Prelude]: machine integers at their width, bytes, slices, the binary
      search of the standard library, hint databases [ranges] and [len].
    - [Error]: [error.rs]; the result monad, with panics as values.
    - [Endian]: [endian.rs].  [Crc32c]: the interface to the [crc32c] crate.
    - [Superblock], [Sample]: [superblock.rs] and a concrete volume.
    - [Extent]: [extent.rs].  [Ag]: [ag.rs].  [Agfl]: [agfl.rs].
    - [FreeSpace], [AllocBtree]: [alloc_btree.rs].
    - [AgBtree], [Relay]: [ag_btree.rs].  [Refcount]: [refcount.rs].
      [Rmap]: [rmap.rs].
    - [Overlay]: [overlay.rs].  [BufWrite]: [buf_write.rs] and the item
      constants of [format/log_items.rs].
    - [Inode]: [inode.rs].  [InodeBtree]: [inode_btree.rs].
      [Bmbt]: [bmbt.rs], and the recovered roots of [bmbt_write.rs].
    - [Dir]: [dir.rs], [format/dir.rs] and the name hash of [format/attr.rs].
      [DirShort]: the short form of [dir_write.rs].  [DirBlock]: [dir_block.rs]
      and [dir_leaf.rs].  [DirLookup]: the directory part of [fs.rs].
    - [Attr]: [attr.rs], [format/attr.rs] and [format/acl.rs].  [AttrWrite]: the
      layouts of [attr_write.rs].  [AttrImage]: no code of its own.  [Acl]:
      [acl.rs], each operation to the write it ends in.
    - [Quota]: [quota.rs], [quota/record.rs] and where [fs.rs] finds an inode.
    - [Fields]: no code of its own; a block built field by field.
    - [LogRecover], [LogWalk], [Replay]: [log_recover.rs].  [Log]: [log.rs].
      [LogWrite]: [log_write.rs].  [InodeLog]: the inode items of
      [log_write.rs] and [log_recover.rs], and their formats.
    - [GroupWrite], [GroupItems], [GroupOpen]: [group_write.rs].
    - [Commit]: [fs.rs] (the log state of [Filesystem]).
    - [LogAppend]: no code of its own; the theorems that join the log's parts.

    ** What the theorems show

    - Log and crash safety: what a mount commits is what recovery replays
      ([commit_record_recovers], [append_recovers], [walk_replays]); reading
      any ring ends ([walk_total]); the newest record and the head are found
      ([newest_record_exact], [head_exact]); replaying an item gives the block
      the mount kept ([replay_matches_image]); cancelled blocks are left alone;
      a checkpoint is divided without loss.
      An inode logged whole is the inode recovered ([logged_inode_recovers]),
      whatever forks its item carries ([inode_item_replays]).
    - Inodes: a chunk refines the set of its free inodes, a create takes the
      lowest one, records and times survive their encoding; a file's tree is
      read whole or refused ([bmbt_walk_exact]) and its root survives the log.
    - Directories: no block makes a reader panic ([dir_block_readers_sound]) and
      no volume makes a lookup run for ever ([dir_lookup_total]); what is built
      is what is read ([dir_block_built_read], [short_form_written_read]), an
      edit is that edit of the list, and a lookup through the index finds
      exactly the entry of that name ([dir_lookup_exact]).
    - Attributes: a fork laid out is read back as the attributes given
      ([attr_fork_rebuilt_read], [short_fork_written_read]), its index in hash
      order and no hash in two leaves ([attr_layout_sound]); no volume makes a
      listing panic or run for ever ([attr_reads_total]).  An ACL set is the ACL
      read and the mode it implies ([set_acl_exact], [acl_mode_in_step]).
    - Quota: a record adjusted has the new counts and nothing else changed
      ([adjust_record_exact]), what the reader makes of it
      ([adjusted_record_read]); an item replayed is what the mount kept
      ([quota_item_replays]), at the record's own block in the first group only
      ([quota_item_misplaced]).
    - Group btrees: what is laid out is what is walked back, for a new tree
      ([walk_build_roundtrip]), a changed one ([relay_replays]) and a whole
      group replayed from its log items ([into_items_replays]); walking any
      tree ends, and every block it reports was checked.
    - Space: free runs refine a set of blocks, the free list refines a queue,
      reference counts and reverse mappings refine functions of the block;
      takes are exact, aligned and disjoint from what a crash could revive.
    - Codecs: extents, log headers and inodes, both ways.
    - Errors: what each parser refuses, the absence of panics, and the panics
      that are reachable ([append_pad_panics], [agfl_put_panics],
      [odd_inode_panics], [bare_acl_panics]).

    ** Conventions

    A Rust integer of width [w] is a [Z] with the wrapping written out
    ([wadd], [wsub], [wmul]; release builds do not trap).  [Result] is [res];
    indexing out of range, [expect] and [assert!] are [Panic], and every
    theorem says when one can occur.  A loop without a structural measure has
    fuel, [Panic] when it runs out, and a theorem that the fuel given suffices:
    [walk_blocks] visits at most the group's blocks, the ring's walk at most
    one record per block and one more, the binary searches halve their range;
    a data block's entries are at least eight bytes each, a lookup goes down at
    most [MAX_SUPPORTED_NODE_LEVEL] levels and along no more leaves than the
    fork maps blocks, and an attribute listing along one leaf more than the fork
    has blocks.
    Formatted messages keep their template and arguments.  The [crc32c] crate
    and the [fs_core] device traits are classes with laws and concrete
    instances; so is the host's byte order, which the code reads with
    [from_ne_bytes].

    ** Not modelled

    The node form of directories as it is written ([dir_node.rs], [dir_edit.rs]),
    the transaction that replaces an attribute fork, the writing of block-map
    trees, the operations on files that assemble checkpoints from the parts
    above, [mkfs], [check], the C interface and the command line.  Mutexes are not modelled: a method that
    holds one does so for the whole step modelled.  Log records whose headers
    span more than one basic block are read ([LogWalk]) but never written, as
    in the code.

    ** This file

    Shared vocabulary of the development: machine integers, bytes, slices,
    the standard-library binary search and the proof automation. *)

From Stdlib Require Import ZArith Lia Strings.Byte Bool Sorted.
From stdpp Require Import base list numbers.

#[global] Open Scope Z_scope.

(** ** Machine integers

    A Rust [uN] is a [Z]; the width is an argument of the operation.  The
    crate ships with overflow checks off, so a plain [+], [-], [*] or [<<]
    is the wrapping one. *)

Definition in_u (w z : Z) : Prop := 0 <= z < 2 ^ w.
Definition wrap (w z : Z) : Z := z mod 2 ^ w.
Definition wadd (w a b : Z) : Z := wrap w (a + b).
Definition wsub (w a b : Z) : Z := wrap w (a - b).
Definition wmul (w a b : Z) : Z := wrap w (a * b).
(** A release build masks the shift amount to the width. *)
Definition wshl (w a n : Z) : Z := wrap w (Z.shiftl a (n mod w)).
Definition wshr (w a n : Z) : Z := Z.shiftr a (n mod w).
Definition unot (w a : Z) : Z := 2 ^ w - 1 - a.
Definition umax (w : Z) : Z := 2 ^ w - 1.

Definition checked_add (w a b : Z) : option Z :=
  if a + b <? 2 ^ w then Some (a + b) else None.
Definition checked_sub (a b : Z) : option Z :=
  if b <=? a then Some (a - b) else None.
Definition checked_mul (w a b : Z) : option Z :=
  if a * b <? 2 ^ w then Some (a * b) else None.
Definition checked_shl (w a n : Z) : option Z :=
  if n <? w then Some (wrap w (Z.shiftl a n)) else None.
Definition saturating_add (w a b : Z) : Z := Z.min (a + b) (umax w).
Definition saturating_mul (w a b : Z) : Z := Z.min (a * b) (umax w).
Definition saturating_sub (a b : Z) : Z := Z.max (a - b) 0.

Definition is_power_of_two (z : Z) : bool := (0 <? z) && (Z.land z (z - 1) =? 0).
Definition leading_zeros (w z : Z) : Z := if z =? 0 then w else w - 1 - Z.log2 z.
(** A cast of an [i64] held as its two's complement pattern. *)
Definition as_i64 (z : Z) : Z := if z <? 2 ^ 63 then z else z - 2 ^ 64.
Definition i64_as_u64 (z : Z) : Z := z mod 2 ^ 64.

(** [usize] is [nat]: lengths and indices of slices that exist in memory. *)
Definition div_ceil (a b : nat) : nat := ((a + b - 1) / b)%nat.
Definition sat_sub_nat (a b : nat) : nat := (a - b)%nat.

Lemma pow2_pos (w : Z) : 0 <= w -> 0 < 2 ^ w.
Proof. intros; apply Z.pow_pos_nonneg; lia. Qed.

Lemma wrap_small (w z : Z) : in_u w z -> wrap w z = z.
Proof. apply Z.mod_small. Qed.

Lemma wrap_range (w z : Z) : 0 <= w -> in_u w (wrap w z).
Proof. intros; apply Z.mod_pos_bound, pow2_pos; lia. Qed.

Lemma wadd_small (w a b : Z) : 0 <= a + b < 2 ^ w -> wadd w a b = a + b.
Proof. apply wrap_small. Qed.

Lemma wsub_small (w a b : Z) : 0 <= a - b < 2 ^ w -> wsub w a b = a - b.
Proof. apply wrap_small. Qed.

Lemma wmul_small (w a b : Z) : 0 <= a * b < 2 ^ w -> wmul w a b = a * b.
Proof. apply wrap_small. Qed.

Lemma wshl_small (w a n : Z) :
  0 <= n < w -> 0 <= a * 2 ^ n < 2 ^ w -> wshl w a n = a * 2 ^ n.
Proof.
  intros Hn Hr. unfold wshl. rewrite (Z.mod_small n) by lia.
  rewrite Z.shiftl_mul_pow2 by lia. by apply wrap_small.
Qed.

Lemma wshr_div (w a n : Z) : 0 <= n < w -> wshr w a n = a / 2 ^ n.
Proof.
  intros Hn. unfold wshr. rewrite (Z.mod_small n) by lia.
  apply Z.shiftr_div_pow2; lia.
Qed.

Lemma land_mask (a n : Z) : 0 <= n -> Z.land a (2 ^ n - 1) = a mod 2 ^ n.
Proof.
  intros Hn. rewrite <- Z.land_ones by done. f_equal.
  rewrite Z.ones_equiv. lia.
Qed.

Lemma in_u_mono (w w' z : Z) : w <= w' -> in_u w z -> in_u w' z.
Proof.
  intros Hw [H0 H1]. split; [done|].
  eapply Z.lt_le_trans; [done|]. by apply Z.pow_le_mono_r.
Qed.

Lemma land_range_r (a m : Z) : 0 <= m -> 0 <= Z.land a m <= m.
Proof.
  intros Hm. split; [apply Z.land_nonneg; by right|].
  apply Z.ldiff_le; [done|]. apply Z.bits_inj'; intros i Hi.
  rewrite Z.ldiff_spec, Z.land_spec, Z.bits_0.
  by destruct (Z.testbit a i), (Z.testbit m i).
Qed.

(** An OR of two words that share no bit is their sum. *)
Lemma lor_range (w a b : Z) : 0 < w -> in_u w a -> in_u w b -> in_u w (Z.lor a b).
Proof.
  unfold in_u. intros Hw [Ha1 Ha2] [Hb1 Hb2]. split; [by apply Z.lor_nonneg|].
  destruct (Z.eq_dec (Z.lor a b) 0) as [->|H]; [lia|]. pose proof (proj2 (Z.lor_nonneg a b) (conj Ha1 Hb1)).
  apply Z.log2_lt_pow2; [lia|]. rewrite Z.log2_lor by done. apply Z.max_lub_lt.
  - destruct (Z.eq_dec a 0) as [->|]; [cbn; lia|]. apply Z.log2_lt_pow2; lia.
  - destruct (Z.eq_dec b 0) as [->|]; [cbn; lia|]. apply Z.log2_lt_pow2; lia.
Qed.

Lemma lor_disjoint_add (a b n : Z) :
  0 <= n -> 0 <= b < 2 ^ n -> Z.lor (a * 2 ^ n) b = a * 2 ^ n + b.
Proof.
  intros Hn Hb. symmetry.
  rewrite <- Z.lxor_lor; [rewrite Z.add_nocarry_lxor; [done|]|];
    rewrite <- Z.shiftl_mul_pow2 by done;
    apply Z.bits_inj'; intros i Hi;
    rewrite Z.land_spec, Z.bits_0;
    (destruct (decide (i < n)) as [Hlt|Hge];
     [rewrite Z.shiftl_spec_low by lia; done|
      rewrite andb_comm; rewrite <- (Z.mod_small b (2 ^ n)) by done;
      rewrite Z.mod_pow2_bits_high by lia; done]).
Qed.

(** Quotient and remainder determine the number. *)
Lemma mul_add_inj A a1 b1 a2 b2 :
  0 <= b1 < A -> 0 <= b2 < A -> a1 * A + b1 = a2 * A + b2 -> a1 = a2 /\ b1 = b2.
Proof.
  intros H1 H2 H. assert (a1 = a2) as ->; [|lia].
  rewrite <- (Z.add_0_r a1), <- (Z.add_0_r a2).
  rewrite <- (Z.div_small b1 A), <- (Z.div_small b2 A) at 1 by done.
  rewrite <- !Z.div_add_l by lia. by rewrite H.
Qed.

(** ** Bytes

    A Rust [u8] is a [Byte.byte], so a buffer needs no well-formedness
    side condition. *)

Abbreviation u8 := Byte.byte (only parsing).
Abbreviation bytes := (list Byte.byte) (only parsing).

Definition b2z (b : u8) : Z := Z.of_N (Byte.to_N b).
Definition z2b (z : Z) : u8 :=
  match Byte.of_N (Z.to_N (z mod 256)) with Some b => b | None => x00 end.

Lemma b2z_range (b : u8) : 0 <= b2z b < 256.
Proof. unfold b2z. pose proof (Byte.to_N_bounded b). lia. Qed.

Lemma b2z_z2b (z : Z) : b2z (z2b z) = z mod 256.
Proof.
  unfold b2z, z2b. pose proof (Z.mod_pos_bound z 256 ltac:(lia)) as Hr.
  destruct (Byte.of_N (Z.to_N (z mod 256))) as [b|] eqn:E.
  - apply Byte.to_of_N in E. rewrite E. lia.
  - apply Byte.of_N_None_iff in E. lia.
Qed.

Lemma z2b_b2z (b : u8) : z2b (b2z b) = b.
Proof.
  unfold z2b. rewrite Z.mod_small by apply b2z_range.
  unfold b2z. rewrite N2Z.id, Byte.of_to_N. done.
Qed.

#[global] Instance byte_eq_dec : EqDecision u8 := Byte.byte_eq_dec.

(** [uN::from_be_bytes] and [to_be_bytes], and the little-endian pair the
    checksum fields use. *)
Fixpoint from_be_bytes (l : bytes) : Z :=
  match l with
  | [] => 0
  | b :: t => b2z b * 256 ^ Z.of_nat (length t) + from_be_bytes t
  end.

Fixpoint to_be_bytes (n : nat) (z : Z) : bytes :=
  match n with
  | O => []
  | S m => z2b (z / 256 ^ Z.of_nat m) :: to_be_bytes m z
  end.

Definition from_le_bytes (l : bytes) : Z := from_be_bytes (rev l).
Definition to_le_bytes (n : nat) (z : Z) : bytes := rev (to_be_bytes n z).

Lemma pow256_pos (n : nat) : 0 < 256 ^ Z.of_nat n.
Proof. apply Z.pow_pos_nonneg; lia. Qed.

Lemma pow256_S (n : nat) : 256 ^ Z.of_nat (S n) = 256 * 256 ^ Z.of_nat n.
Proof. rewrite Nat2Z.inj_succ, Z.pow_succ_r by lia. done. Qed.

Lemma length_to_be_bytes n z : length (to_be_bytes n z) = n.
Proof. induction n; simpl; congruence. Qed.

Lemma length_to_le_bytes n z : length (to_le_bytes n z) = n.
Proof. unfold to_le_bytes. by rewrite length_rev, length_to_be_bytes. Qed.

Lemma from_be_bytes_range l : 0 <= from_be_bytes l < 256 ^ Z.of_nat (length l).
Proof.
  induction l as [|b t IH]; [simpl; lia|].
  cbn [from_be_bytes length]. rewrite pow256_S.
  pose proof (b2z_range b). pose proof (pow256_pos (length t)). nia.
Qed.

Lemma from_to_be_bytes n z : from_be_bytes (to_be_bytes n z) = z mod 256 ^ Z.of_nat n.
Proof.
  induction n as [|n IH]; [simpl; by rewrite Z.mod_1_r|].
  cbn [to_be_bytes from_be_bytes]. rewrite length_to_be_bytes, IH, b2z_z2b, pow256_S.
  pose proof (pow256_pos n).
  rewrite (Z.mul_comm 256), Z.rem_mul_r by lia. lia.
Qed.

Lemma from_to_be_bytes_small n z :
  0 <= z < 256 ^ Z.of_nat n -> from_be_bytes (to_be_bytes n z) = z.
Proof. intros. rewrite from_to_be_bytes. by apply Z.mod_small. Qed.

Lemma to_be_bytes_add n z k : to_be_bytes n (k * 256 ^ Z.of_nat n + z) = to_be_bytes n z.
Proof.
  revert k; induction n as [|n IH]; intros k; [done|].
  cbn [to_be_bytes]. rewrite pow256_S. pose proof (pow256_pos n).
  replace (k * (256 * 256 ^ Z.of_nat n) + z)
    with ((k * 256) * 256 ^ Z.of_nat n + z) by lia.
  rewrite IH. f_equal.
  rewrite Z.div_add_l by lia. unfold z2b. do 2 f_equal.
  rewrite Z.add_comm, Z.mod_add; [done|lia].
Qed.

Lemma to_from_be_bytes l : to_be_bytes (length l) (from_be_bytes l) = l.
Proof.
  induction l as [|b t IH]; [done|].
  cbn [length to_be_bytes from_be_bytes]. pose proof (from_be_bytes_range t).
  rewrite to_be_bytes_add, IH, Z.div_add_l, (Z.div_small (from_be_bytes t)) by lia.
  by rewrite Z.add_0_r, z2b_b2z.
Qed.

Lemma to_from_be_bytes' n l : length l = n -> to_be_bytes n (from_be_bytes l) = l.
Proof. intros <-. apply to_from_be_bytes. Qed.

Lemma from_be_bytes_app a b : from_be_bytes (a ++ b) = from_be_bytes a * 256 ^ Z.of_nat (length b) + from_be_bytes b.
Proof.
  induction a as [|x a IH]; cbn [app from_be_bytes]; [lia|]. rewrite IH, length_app, Nat2Z.inj_add, Z.pow_add_r by lia. lia.
Qed.

Lemma from_to_le_bytes_small n z :
  0 <= z < 256 ^ Z.of_nat n -> from_le_bytes (to_le_bytes n z) = z.
Proof.
  intros. unfold from_le_bytes, to_le_bytes. rewrite rev_involutive.
  by apply from_to_be_bytes_small.
Qed.

Lemma from_le_bytes_range l : 0 <= from_le_bytes l < 256 ^ Z.of_nat (length l).
Proof. unfold from_le_bytes. rewrite <- (length_rev l). apply from_be_bytes_range. Qed.

(** ** Slices *)

Definition slice {A} (off n : nat) (l : list A) : list A := take n (drop off l).
(** [buf[at..at + bs.len()].copy_from_slice(bs)], where it does not panic. *)
Definition splice {A} (pos : nat) (bs l : list A) : list A :=
  take pos l ++ bs ++ drop (pos + length bs) l.

Section slices.
Context {A : Type}.
Implicit Types (l bs : list A) (off pos n : nat).

Lemma length_slice off n l : (off + n <= length l)%nat -> length (slice off n l) = n.
Proof. intros. unfold slice. rewrite length_take, length_drop. lia. Qed.

Lemma length_splice pos bs l :
  (pos + length bs <= length l)%nat -> length (splice pos bs l) = length l.
Proof.
  intros. unfold splice. rewrite !length_app, length_take, length_drop. lia.
Qed.

Lemma lookup_splice_in pos bs l i :
  (pos + length bs <= length l)%nat -> (pos <= i < pos + length bs)%nat ->
  splice pos bs l !! i = bs !! (i - pos)%nat.
Proof.
  intros Hl Hi. unfold splice.
  rewrite lookup_app_r by (rewrite length_take; lia).
  rewrite length_take, Nat.min_l by lia.
  rewrite lookup_app_l by lia. done.
Qed.

Lemma lookup_splice_out pos bs l i :
  (pos + length bs <= length l)%nat -> (i < pos \/ pos + length bs <= i)%nat ->
  splice pos bs l !! i = l !! i.
Proof.
  intros Hl [Hi|Hi]; unfold splice.
  - rewrite lookup_app_l by (rewrite length_take; lia). by rewrite lookup_take_lt.
  - rewrite lookup_app_r by (rewrite length_take; lia).
    rewrite length_take, Nat.min_l by lia.
    rewrite lookup_app_r by lia. rewrite lookup_drop. f_equal. lia.
Qed.

Lemma lookup_slice off n l i :
  slice off n l !! i = if decide (i < n)%nat then l !! (off + i)%nat else None.
Proof.
  unfold slice. case_decide.
  - rewrite lookup_take_lt by done. by rewrite lookup_drop.
  - rewrite lookup_take_ge; [done|lia].
Qed.

Lemma slice_splice_same pos bs l n :
  (pos + length bs <= length l)%nat -> n = length bs ->
  slice pos n (splice pos bs l) = bs.
Proof.
  intros Hl ->. apply list_eq; intros i. rewrite lookup_slice. case_decide.
  - rewrite lookup_splice_in by lia. f_equal. lia.
  - symmetry. apply lookup_ge_None. lia.
Qed.

Lemma slice_splice_within pos bs l off n :
  (pos + length bs <= length l)%nat -> (pos <= off)%nat ->
  (off + n <= pos + length bs)%nat ->
  slice off n (splice pos bs l) = slice (off - pos) n bs.
Proof.
  intros. apply list_eq; intros i. rewrite !lookup_slice. case_decide; [|done].
  rewrite lookup_splice_in by lia. f_equal. lia.
Qed.

Lemma slice_splice_disjoint pos bs l off n :
  (pos + length bs <= length l)%nat ->
  (off + n <= pos \/ pos + length bs <= off)%nat ->
  slice off n (splice pos bs l) = slice off n l.
Proof.
  intros Hl Ho. apply list_eq; intros i. rewrite !lookup_slice. case_decide; [|done].
  rewrite lookup_splice_out by lia. done.
Qed.

Lemma take_splice_before pos bs l n :
  (pos + length bs <= length l)%nat -> (n <= pos)%nat ->
  take n (splice pos bs l) = take n l.
Proof. intros. by apply (slice_splice_disjoint pos bs l 0 n); [|left; lia]. Qed.

Lemma drop_splice_after pos bs l n :
  (pos + length bs <= length l)%nat -> (pos + length bs <= n)%nat ->
  drop n (splice pos bs l) = drop n l.
Proof.
  intros. apply list_eq; intros i. rewrite !lookup_drop.
  apply lookup_splice_out; lia.
Qed.

Lemma splice_splice_adjacent pos pos' a b l :
  pos' = (pos + length a)%nat -> (pos + length a + length b <= length l)%nat ->
  splice pos' b (splice pos a l) = splice pos (a ++ b) l.
Proof.
  intros -> Hl. apply list_eq; intros i.
  destruct (decide (pos <= i < pos + length a)%nat);
    [|destruct (decide (pos + length a <= i < pos + length a + length b)%nat)].
  - rewrite lookup_splice_out, lookup_splice_in, lookup_splice_in
      by (rewrite ?length_splice, ?length_app; lia).
    rewrite lookup_app_l by lia. done.
  - rewrite lookup_splice_in, lookup_splice_in
      by (rewrite ?length_splice, ?length_app; lia).
    rewrite lookup_app_r by lia. f_equal. lia.
  - rewrite !lookup_splice_out by (rewrite ?length_splice, ?length_app; lia). done.
Qed.

Lemma slice_slice off n off' n' l :
  (off' + n' <= n)%nat -> slice off' n' (slice off n l) = slice (off + off') n' l.
Proof.
  intros. apply list_eq; intros i. rewrite !lookup_slice.
  repeat case_decide; try done; try lia. f_equal. lia.
Qed.

Lemma slice_app_split off n m l :
  slice off (n + m) l = slice off n l ++ slice (off + n) m l.
Proof. unfold slice. by rewrite <- take_take_drop, drop_drop. Qed.
Lemma splice_self pos n l : (pos + n <= length l)%nat -> splice pos (slice pos n l) l = l.
Proof.
  intros H. unfold splice. rewrite length_slice by done. unfold slice. rewrite <- drop_drop, take_drop. apply take_drop.
Qed.

Lemma splice_nil pos l : splice pos [] l = l.
Proof. unfold splice. cbn [length app]. by rewrite Nat.add_0_r, take_drop. Qed.

Lemma splice_comm p q a b l :
  (p + length a <= q)%nat -> (q + length b <= length l)%nat -> splice p a (splice q b l) = splice q b (splice p a l).
Proof.
  intros Hpq Hq. apply list_eq; intros i.
  destruct (decide (p <= i < p + length a)%nat); [|destruct (decide (q <= i < q + length b)%nat)].
  - rewrite lookup_splice_in, lookup_splice_out, lookup_splice_in by (rewrite ?length_splice; lia). done.
  - rewrite lookup_splice_out, !lookup_splice_in by (rewrite ?length_splice; lia). done.
  - rewrite !lookup_splice_out by (rewrite ?length_splice; lia). done.
Qed.
End slices.

(** Arithmetic on the lengths of slices and of what they are spliced into. *)
Ltac size_lia :=
  rewrite ?length_replicate, ?length_to_be_bytes, ?length_to_le_bytes;
  first [lia|rewrite length_splice; size_lia|rewrite length_slice; size_lia].

(** ** [slice::partition_point]

    The binary search of the standard library.  On a slice the predicate
    partitions it returns the length of the prefix that satisfies it. *)
Section partition_point.
Context {A : Type} (p : A -> bool).

Fixpoint partition_point_loop (fuel left right : nat) (l : list A) : nat :=
  match fuel with
  | O => left
  | S fuel =>
      if (left <? right)%nat then
        let mid := (left + (right - left) / 2)%nat in
        match l !! mid with
        | Some x =>
            if p x then partition_point_loop fuel (S mid) right l
            else partition_point_loop fuel left mid l
        | None => left
        end
      else left
  end.

(** The interval halves at every step, so its length is fuel enough. *)
Definition partition_point (l : list A) : nat :=
  partition_point_loop (length l) 0 (length l) l.

Definition partitioned (l : list A) : Prop :=
  forall i j x y, (i <= j)%nat -> l !! i = Some x -> l !! j = Some y ->
    p y = true -> p x = true.

Lemma partition_point_loop_spec fuel left right l :
  partitioned l ->
  (right - left <= fuel)%nat -> (left <= right <= length l)%nat ->
  (forall i x, (i < left)%nat -> l !! i = Some x -> p x = true) ->
  (forall i x, (right <= i)%nat -> l !! i = Some x -> p x = false) ->
  let k := partition_point_loop fuel left right l in
  (left <= k <= right)%nat /\
  (forall i x, (i < k)%nat -> l !! i = Some x -> p x = true) /\
  (forall i x, (k <= i)%nat -> l !! i = Some x -> p x = false).
Proof.
  intros Hp. revert left right.
  induction fuel as [|fuel IH]; intros left right Hf Hlr Hl Hr; cbn [partition_point_loop].
  { assert (left = right) as -> by lia. auto with lia. }
  destruct (Nat.ltb_spec left right) as [Hlt|Hge]; cycle 1.
  { assert (left = right) as -> by lia. auto with lia. }
  set (mid := (left + (right - left) / 2)%nat).
  assert (Hm : (left <= mid < right)%nat).
  { subst mid. pose proof (Nat.div_lt (right - left) 2). lia. }
  destruct (lookup_lt_is_Some_2 l mid) as [x Hx]; [lia|]. rewrite Hx.
  destruct (p x) eqn:Hpx.
  - destruct (IH (S mid) right) as (? & ? & ?); try lia; try done.
    { intros i y Hi Hy. apply (Hp i mid y x); [lia|done|done|done]. }
    auto with lia.
  - destruct (IH left mid) as (? & ? & ?); try lia; try done.
    { intros i y Hi Hy. destruct (p y) eqn:Hpy; [|done].
      rewrite (Hp mid i x y) in Hpx; [done|lia|done|done|done]. }
    auto with lia.
Qed.

Lemma partition_point_spec l :
  partitioned l ->
  (partition_point l <= length l)%nat /\
  (forall i x, (i < partition_point l)%nat -> l !! i = Some x -> p x = true) /\
  (forall i x, (partition_point l <= i)%nat -> l !! i = Some x -> p x = false).
Proof.
  intros Hp. pose proof (partition_point_loop_spec (length l) 0 (length l) l Hp) as H.
  destruct H as (? & ? & ?); [lia|lia|lia| |].
  { intros i x Hi Hx. apply lookup_lt_Some in Hx. lia. }
  unfold partition_point. split_and!; [lia|done|done].
Qed.

Lemma partition_point_split l :
  partitioned l ->
  exists l1 l2, l = l1 ++ l2 /\ partition_point l = length l1 /\
    Forall (fun x => p x = true) l1 /\ Forall (fun x => p x = false) l2.
Proof.
  intros Hp. destruct (partition_point_spec l Hp) as (Hle & H1 & H2).
  set (k := partition_point l) in *. exists (take k l), (drop k l).
  split_and!; [by rewrite take_drop|rewrite length_take; lia| |];
    apply Forall_lookup; intros i x.
  - intros [Hx Hi]%lookup_take_Some. by apply (H1 i).
  - rewrite lookup_drop. intros Hx. apply (H2 (k + i)%nat); [lia|done].
Qed.
End partition_point.

(** ** [Vec] updates at the boundary of two pieces *)
Section vec.
Context {A : Type}.
Implicit Types (l : list A) (x y : A).

(** [Vec::insert] at a position inside the list. *)
Definition vec_insert (pos : nat) x l : list A := take pos l ++ x :: drop pos l.

(** [at.checked_sub(1).and_then(|i| l.get(i))] *)
Definition get_before l (pos : nat) : option A :=
  match pos with O => None | S i => l !! i end.

Lemma get_before_app l1 l2 : get_before (l1 ++ l2) (length l1) = list.last l1.
Proof.
  destruct l1 as [|x l1 _] using rev_ind; [done|].
  rewrite length_app, Nat.add_1_r, last_snoc. cbn [get_before].
  rewrite <- app_assoc. cbn. apply list_lookup_middle. done.
Qed.

Lemma lookup_app_head l1 l2 : (l1 ++ l2) !! length l1 = head l2.
Proof. rewrite lookup_app_r, Nat.sub_diag by done. by destruct l2. Qed.

Lemma insert_middle l1 x y l2 : <[length l1 := y]> (l1 ++ x :: l2) = l1 ++ y :: l2.
Proof. rewrite <- (Nat.add_0_r (length l1)). by rewrite insert_app_r. Qed.

Lemma vec_insert_middle l1 x l2 : vec_insert (length l1) x (l1 ++ l2) = l1 ++ x :: l2.
Proof. unfold vec_insert. by rewrite take_app_length, drop_app_length. Qed.

Lemma vec_insert_end l x : vec_insert (length l) x l = l ++ [x].
Proof. unfold vec_insert. by rewrite take_ge, drop_ge by done. Qed.

Lemma vec_insert_after l1 x y l2 :
  vec_insert (length l1 + 1) y (l1 ++ x :: l2) = l1 ++ x :: y :: l2.
Proof.
  pose proof (vec_insert_middle (l1 ++ [x]) y l2) as H.
  rewrite <- !app_assoc in H. by rewrite length_app in H.
Qed.

Lemma delete_middle' l1 x l2 n : n = length l1 -> delete n (l1 ++ x :: l2) = l1 ++ l2.
Proof. intros ->. apply delete_middle. Qed.
End vec.

(** ** [slice::sort_by_key]

    A stable sort: insertion before the first element that is not smaller,
    from the last element to the first. *)
Section sort_by.
Context {A : Type} (leb : A -> A -> bool).

Fixpoint insert_by (x : A) (l : list A) : list A :=
  match l with
  | [] => [x]
  | y :: l => if leb x y then x :: y :: l else y :: insert_by x l
  end.
Definition sort_by (l : list A) : list A := fold_right insert_by [] l.

Lemma insert_by_Permutation x l : insert_by x l ≡ₚ x :: l.
Proof.
  induction l as [|y l IH]; cbn; [done|]. case_match; [done|].
  rewrite IH. apply Permutation_swap.
Qed.

Lemma sort_by_Permutation l : sort_by l ≡ₚ l.
Proof. induction l as [|x l IH]; cbn; [done|]. by rewrite insert_by_Permutation, IH. Qed.

(** Sorting what is in order already changes nothing. *)
Lemma sort_by_id l : Sorted (fun x y => leb x y = true) l -> sort_by l = l.
Proof.
  induction 1 as [|x l Hl IH Hx]; cbn; [done|]. fold (sort_by l). rewrite IH.
  destruct Hx as [|y l Hxy]; cbn; [done|]. by rewrite Hxy.
Qed.

Lemma sort_by_Sorted l :
  (forall x y, leb x y = false -> leb y x = true) ->
  Sorted (fun x y => leb x y = true) (sort_by l).
Proof.
  intros Ht. induction l as [|x l IH]; cbn; [constructor|]. fold (sort_by l).
  induction IH as [|y l' Hl IH' Hy]; cbn; [by repeat constructor|].
  destruct (leb x y) eqn:E; [by repeat constructor|].
  constructor; [done|]. destruct Hy as [|z l' Hyz]; cbn; [constructor; by apply Ht|].
  destruct (leb x z); constructor; [by apply Ht|done].
Qed.
End sort_by.

Definition is_some_and {A} (o : option A) (f : A -> bool) : bool :=
  match o with Some a => f a | None => false end.

(** Linear arithmetic with division and remainder by constants. *)
Ltac zdiv := Z.to_euclidean_division_equations; lia.

Lemma div_ceil_bounds a b : (0 < b)%nat -> (a <= div_ceil a b * b < a + b)%nat.
Proof.
  intros H. unfold div_ceil. pose proof (Nat.div_mod_eq (a + b - 1) b).
  pose proof (Nat.mod_upper_bound (a + b - 1) b ltac:(lia)). lia.
Qed.

(** ** Notations and hints

    Arithmetic at a width, in a scope of its own. *)
Declare Scope width_scope.
Delimit Scope width_scope with W.
Notation "a ⊞{ w } b" := (wadd w a b) (at level 50, left associativity, format "a  ⊞{ w }  b") : width_scope.
Notation "a ⊟{ w } b" := (wsub w a b) (at level 50, left associativity, format "a  ⊟{ w }  b") : width_scope.
Notation "a ⊠{ w } b" := (wmul w a b) (at level 40, left associativity, format "a  ⊠{ w }  b") : width_scope.

(** Ranges, for [auto]; lengths, for [autorewrite]. *)
Create HintDb ranges.
#[export] Hint Resolve b2z_range pow2_pos wrap_range from_be_bytes_range from_le_bytes_range : ranges.
Create HintDb len.
#[export] Hint Rewrite @length_to_be_bytes @length_to_le_bytes @length_app @length_replicate @length_take
  @length_drop @length_fmap @length_seq : len.
#[export] Hint Rewrite @length_splice @length_slice using (autorewrite with len in *; cbn [length] in *; lia) : len.
