(* ===== verification/Error.v ===== *)
(** * The driver's error type and the result monad ([src/src/error.rs])

    A Rust function that returns [Result<T>] and may also panic is a term of
    type [res T]: [Ok], [Err] with the crate's [Error], or [Panic] for an
    out-of-range index, a failed [assert!] or an [expect].  Panics are values
    here so that their absence is a theorem. *)

From Stdlib Require Import ZArith Lia Strings.String.
From stdpp Require Import base list strings.
From S2P Require Import Prelude.

(** A formatted message: the format string and what is interpolated in it. *)
Inductive arg :=
  | AZ (z : Z)
  | AS (s : string).
Record message := fmt { template : string; args : list arg }.

(** The text of a message up to its first interpolation decides
    [starts_with] for a prefix no longer than that text. *)
Definition starts_with (prefix : string) (m : message) : bool :=
  String.prefix prefix (template m).

Inductive Error :=
  | Io (m : message)
  | NotXfs (magic : Z)
  | BadSuperblock (m : message)
  | ChecksumMismatch (what : string) (block : Z)
  | BlockIdentityMismatch (what : string) (expected found : Z)
  | UnsupportedFeature (m : message)
  | NoSpace (m : message)
  | CorruptLog (m : message)
  | DirtyLog
  | NotFound
  | AlreadyExists
  | NotADirectory
  | DirectoryNotEmpty
  | NotAFile
  | ReadOnly
  | RealtimeDeviceAbsent (ino : Z)
  | Internal (m : message)
  | InvalidGeometry (m : message).

Inductive res (A : Type) :=
  | Ok (a : A)
  | Err (e : Error)
  | Panic.
Arguments Ok {A} a.
Arguments Err {A} e.
Arguments Panic {A}.

#[global] Instance res_ret : MRet res := fun A a => Ok a.
#[global] Instance res_bind : MBind res := fun A B f m =>
  match m with
  | Ok a => f a
  | Err e => Err e
  | Panic => Panic
  end.
#[global] Instance res_fmap : FMap res := fun A B f m =>
  match m with
  | Ok a => Ok (f a)
  | Err e => Err e
  | Panic => Panic
  end.

(** [if c { return Err(e); }] *)
Definition fail_if (c : bool) (e : Error) : res unit := if c then Err e else Ok tt.
(** [assert!(c)] *)
Definition assert (c : bool) : res unit := if c then Ok tt else Panic.
(** [opt.ok_or(e)?] *)
Definition ok_or {A} (o : option A) (e : Error) : res A :=
  match o with Some a => Ok a | None => Err e end.
(** [opt.expect(..)], and an index [l[i]]. *)
Definition expect {A} (o : option A) : res A :=
  match o with Some a => Ok a | None => Panic end.

(** [&buf[off..off + n]] *)
Definition get_slice {A} (off n : nat) (l : list A) : res (list A) :=
  if (off + n <=? length l)%nat then Ok (slice off n l) else Panic.
(** [buf[pos..pos + bs.len()].copy_from_slice(bs)] *)
Definition copy_at {A} (pos : nat) (bs l : list A) : res (list A) :=
  if (pos + length bs <=? length l)%nat then Ok (splice pos bs l) else Panic.

(** A loop that stops at the first error. *)
Fixpoint res_map {A B} (f : A -> res B) (l : list A) : res (list B) :=
  match l with
  | [] => Ok []
  | x :: l => y ← f x; ys ← res_map f l; Ok (y :: ys)
  end.

Fixpoint res_fold {A S} (f : S -> A -> res S) (s : S) (l : list A) : res S :=
  match l with
  | [] => Ok s
  | x :: l => s' ← f s x; res_fold f s' l
  end.

Section res.
Context {A B : Type}.

Lemma bind_Ok (m : res A) (f : A -> res B) b :
  m ≫= f = Ok b <-> exists a, m = Ok a /\ f a = Ok b.
Proof. destruct m; simpl; naive_solver. Qed.

Lemma bind_Err (m : res A) (f : A -> res B) e :
  m ≫= f = Err e <-> m = Err e \/ exists a, m = Ok a /\ f a = Err e.
Proof. destruct m; simpl; naive_solver. Qed.

Lemma bind_not_Panic (m : res A) (f : A -> res B) :
  m <> Panic -> (forall a, m = Ok a -> f a <> Panic) -> m ≫= f <> Panic.
Proof. destruct m; simpl; naive_solver. Qed.

Lemma fmap_Ok (m : res A) (f : A -> B) b :
  f <$> m = Ok b <-> exists a, m = Ok a /\ b = f a.
Proof. destruct m; simpl; naive_solver. Qed.
End res.

Lemma fail_if_Ok c e u : fail_if c e = Ok u <-> c = false.
Proof. destruct c, u; simpl; naive_solver. Qed.

(** A guard followed by the rest of the function. *)
Lemma res_fold_app {A S} (f : S -> A -> res S) l1 l2 : forall s,
  res_fold f s (l1 ++ l2) = (s' ← res_fold f s l1; res_fold f s' l2).
Proof. induction l1 as [|x l1 IH]; intros s; cbn; [done|]. by destruct (f s x); cbn. Qed.

Lemma guard_Ok {A} c e (k : res A) a : (fail_if c e;; k) = Ok a <-> c = false /\ k = Ok a.
Proof. destruct c; simpl; naive_solver. Qed.

Lemma fail_if_Err c e e' : fail_if c e = Err e' <-> c = true /\ e = e'.
Proof. destruct c; simpl; naive_solver. Qed.

Lemma fail_if_not_Panic c e : fail_if c e <> Panic.
Proof. by destruct c. Qed.

Lemma assert_Ok c u : assert c = Ok u <-> c = true.
Proof. destruct c, u; simpl; naive_solver. Qed.

Lemma ok_or_Ok {A} (o : option A) e a : ok_or o e = Ok a <-> o = Some a.
Proof. destruct o; simpl; naive_solver. Qed.

Lemma expect_Ok {A} (o : option A) a : expect o = Ok a <-> o = Some a.
Proof. destruct o; simpl; naive_solver. Qed.

Lemma get_slice_Ok {A} off n (l : list A) :
  (off + n <= length l)%nat -> get_slice off n l = Ok (slice off n l).
Proof. intros. unfold get_slice. by rewrite (proj2 (Nat.leb_le _ _)). Qed.

Lemma get_slice_inv {A} off n (l s : list A) :
  get_slice off n l = Ok s <-> (off + n <= length l)%nat /\ s = slice off n l.
Proof. unfold get_slice. destruct (Nat.leb_spec (off + n) (length l)); naive_solver lia. Qed.

Lemma copy_at_Ok {A} pos (bs l : list A) :
  (pos + length bs <= length l)%nat -> copy_at pos bs l = Ok (splice pos bs l).
Proof. intros. unfold copy_at. by rewrite (proj2 (Nat.leb_le _ _)). Qed.

(** Writing on where the last write ended. *)
Lemma copy_at_after {A} pos pos' (a b l : list A) :
  pos' = (pos + length a)%nat -> (pos' + length b <= length l)%nat ->
  copy_at pos' b (splice pos a l) = Ok (splice pos (a ++ b) l).
Proof.
  intros -> H. rewrite copy_at_Ok by (rewrite length_splice; lia). f_equal.
  apply splice_splice_adjacent; lia.
Qed.

Lemma copy_at_inv {A} pos (bs l s : list A) :
  copy_at pos bs l = Ok s <->
  (pos + length bs <= length l)%nat /\ s = splice pos bs l.
Proof.
  unfold copy_at. destruct (Nat.leb_spec (pos + length bs) (length l)); naive_solver lia.
Qed.

Lemma res_map_Ok {A B} (f : A -> res B) l ys :
  res_map f l = Ok ys <-> Forall2 (fun x y => f x = Ok y) l ys.
Proof.
  revert ys; induction l as [|x l IH]; intros ys; simpl.
  - split; [intros [= <-]; constructor|inversion 1; done].
  - rewrite bind_Ok. setoid_rewrite bind_Ok. split.
    + intros (y & Hy & ys' & Hys & [= <-]). constructor; [done|]. by apply IH.
    + inversion 1; subst. naive_solver.
Qed.

Lemma copy_at_length {A} pos (bs l s : list A) : copy_at pos bs l = Ok s -> length s = length l.
Proof. intros [? ->]%copy_at_inv. by apply length_splice. Qed.

Lemma res_map_not_Panic {A B} (f : A -> res B) l : (forall x, f x <> Panic) -> res_map f l <> Panic.
Proof.
  intros Hf. induction l as [|x l IH]; cbn; [done|]. apply bind_not_Panic; [done|]. intros y _. by apply bind_not_Panic.
Qed.

(** Take a successful monadic computation apart. *)
Ltac res_inv1 :=
  match goal with
  | H : mbind _ _ = Ok _ |- _ => apply bind_Ok in H; destruct H as (? & ? & H)
  | H : fail_if _ _ = Ok _ |- _ => apply fail_if_Ok in H
  | H : assert _ = Ok _ |- _ => apply assert_Ok in H
  | H : ok_or _ _ = Ok _ |- _ => apply ok_or_Ok in H
  | H : expect _ = Ok _ |- _ => apply expect_Ok in H
  | H : get_slice _ _ _ = Ok _ |- _ => apply get_slice_inv in H; destruct H
  | H : copy_at _ _ _ = Ok _ |- _ => apply copy_at_inv in H; destruct H
  | H : Ok _ = Ok _ |- _ => injection H; clear H; intros; subst
  | H : Err _ = Ok _ |- _ => discriminate H
  | H : Panic = Ok _ |- _ => discriminate H
  end.
Ltac res_inv := repeat res_inv1.

(** Boolean tests of the code as propositions. *)
Ltac bool_prop :=
  repeat match goal with
  | H : _ && _ = true |- _ => apply andb_true_iff in H; destruct H
  | H : _ || _ = false |- _ => apply orb_false_iff in H; destruct H
  | H : negb _ = true |- _ => apply negb_true_iff in H
  | H : negb _ = false |- _ => apply negb_false_iff in H
  | H : (_ <? _) = true |- _ => apply Z.ltb_lt in H
  | H : (_ <? _) = false |- _ => apply Z.ltb_ge in H
  | H : (_ <=? _) = true |- _ => apply Z.leb_le in H
  | H : (_ <=? _) = false |- _ => apply Z.leb_gt in H
  | H : (_ =? _) = true |- _ => apply Z.eqb_eq in H
  | H : (_ =? _) = false |- _ => apply Z.eqb_neq in H
  | H : (_ <? _)%nat = true |- _ => apply Nat.ltb_lt in H
  | H : (_ <? _)%nat = false |- _ => apply Nat.ltb_ge in H
  | H : (_ <=? _)%nat = true |- _ => apply Nat.leb_le in H
  | H : (_ <=? _)%nat = false |- _ => apply Nat.leb_gt in H
  | H : (_ =? _)%nat = true |- _ => apply Nat.eqb_eq in H
  | H : (_ =? _)%nat = false |- _ => apply Nat.eqb_neq in H
  end.

(** An encoder made of copies in place keeps the length of its buffer. *)
Ltac keeps_length :=
  intros;
  repeat match goal with
  | H : mbind _ _ = Ok _ |- _ => apply bind_Ok in H; destruct H as (? & ? & H)
  | H : copy_at _ _ _ = Ok _ |- _ => apply copy_at_length in H
  | H : Ok _ = Ok _ |- _ => injection H; clear H; intros; subst
  end; congruence.
