(* ===== verification/Endian.v ===== *)
(** * On-disk integer decoding ([src/src/endian.rs])

    Every reader panics when the field runs past the buffer, as the Rust
    slices do; [rd] is the value it returns otherwise. *)

From Stdlib Require Import ZArith Lia.
From stdpp Require Import base list.
From S2P Require Import Prelude Error.

Definition be16 (b : bytes) (off : nat) : res Z := from_be_bytes <$> get_slice off 2 b.
Definition be32 (b : bytes) (off : nat) : res Z := from_be_bytes <$> get_slice off 4 b.
Definition be64 (b : bytes) (off : nat) : res Z := from_be_bytes <$> get_slice off 8 b.
(** Checksum fields alone are little-endian. *)
Definition le32 (b : bytes) (off : nat) : res Z := from_le_bytes <$> get_slice off 4 b.
Definition uuid_at (b : bytes) (off : nat) : res bytes := get_slice off 16 b.
(** [buf[off]] *)
Definition byte_at (b : bytes) (off : nat) : res Z := b2z <$> expect (b !! off).

Definition rd (n off : nat) (b : bytes) : Z := from_be_bytes (slice off n b).
Definition rd_le (n off : nat) (b : bytes) : Z := from_le_bytes (slice off n b).

Lemma be16_Ok b off : (off + 2 <= length b)%nat -> be16 b off = Ok (rd 2 off b).
Proof. intros. unfold be16. by rewrite get_slice_Ok. Qed.
Lemma be32_Ok b off : (off + 4 <= length b)%nat -> be32 b off = Ok (rd 4 off b).
Proof. intros. unfold be32. by rewrite get_slice_Ok. Qed.
Lemma be64_Ok b off : (off + 8 <= length b)%nat -> be64 b off = Ok (rd 8 off b).
Proof. intros. unfold be64. by rewrite get_slice_Ok. Qed.
Lemma le32_Ok b off : (off + 4 <= length b)%nat -> le32 b off = Ok (rd_le 4 off b).
Proof. intros. unfold le32. by rewrite get_slice_Ok. Qed.
Lemma uuid_at_Ok b off : (off + 16 <= length b)%nat -> uuid_at b off = Ok (slice off 16 b).
Proof. apply get_slice_Ok. Qed.

Lemma slice_1 (b : bytes) off x : b !! off = Some x -> slice off 1 b = [x].
Proof. intros. unfold slice. by erewrite drop_S, firstn_cons, take_0. Qed.

Lemma byte_at_Ok b off : (off + 1 <= length b)%nat -> byte_at b off = Ok (rd 1 off b).
Proof.
  intros H. destruct (lookup_lt_is_Some_2 b off) as [x Hx]; [lia|].
  unfold byte_at, rd. rewrite Hx, (slice_1 b off x Hx). cbn. do 2 f_equal. lia.
Qed.

(** The readers never fail on their own account: past the end they panic. *)
Lemma be_inv n b off v :
  from_be_bytes <$> get_slice off n b = Ok v <-> (off + n <= length b)%nat /\ v = rd n off b.
Proof. rewrite fmap_Ok. setoid_rewrite get_slice_inv. unfold rd. naive_solver. Qed.

Lemma rd_range n off b :
  (off + n <= length b)%nat -> 0 <= rd n off b < 256 ^ Z.of_nat n.
Proof.
  intros. unfold rd. rewrite <- (length_slice off n b) at 3 by done.
  apply from_be_bytes_range.
Qed.

Lemma rd_range_any n off b : 0 <= rd n off b < 256 ^ Z.of_nat n.
Proof.
  unfold rd. pose proof (from_be_bytes_range (slice off n b)) as [H0 H1].
  split; [done|]. eapply Z.lt_le_trans; [done|].
  apply Z.pow_le_mono_r; [lia|]. unfold slice. rewrite length_take. lia.
Qed.

Lemma rd_le_range n off b : 0 <= rd_le n off b < 256 ^ Z.of_nat n.
Proof.
  unfold rd_le. pose proof (from_le_bytes_range (slice off n b)) as [H0 H1].
  split; [done|]. eapply Z.lt_le_trans; [done|].
  apply Z.pow_le_mono_r; [lia|]. unfold slice. rewrite length_take. lia.
Qed.

(** Reading back what was written, and what was not. *)
Lemma rd_splice_same n pos v b :
  (pos + n <= length b)%nat -> 0 <= v < 256 ^ Z.of_nat n ->
  rd n pos (splice pos (to_be_bytes n v) b) = v.
Proof.
  intros Hl Hv. unfold rd.
  rewrite slice_splice_same by (rewrite ?length_to_be_bytes; lia).
  by apply from_to_be_bytes_small.
Qed.

Lemma rd_splice_disjoint n off pos bs b :
  (pos + length bs <= length b)%nat ->
  (off + n <= pos \/ pos + length bs <= off)%nat ->
  rd n off (splice pos bs b) = rd n off b.
Proof. intros. unfold rd. by rewrite slice_splice_disjoint. Qed.

Lemma rd_le_splice_same n pos v b :
  (pos + n <= length b)%nat -> 0 <= v < 256 ^ Z.of_nat n ->
  rd_le n pos (splice pos (to_le_bytes n v) b) = v.
Proof.
  intros Hl Hv. unfold rd_le.
  rewrite slice_splice_same by (rewrite ?length_to_le_bytes; lia).
  by apply from_to_le_bytes_small.
Qed.

(** ** Fields written one after another *)

(** [header[at..at + n].copy_from_slice(..)], one after another. *)
Definition put_all (fields : list (nat * bytes)) (b : bytes) : res bytes :=
  res_fold (fun b f => copy_at f.1 f.2 b) b fields.

Definition disjoint_fields (f g : nat * nat) : Prop := (f.1 + f.2 <= g.1 \/ g.1 + g.2 <= f.1)%nat.
Definition extent_of (f : nat * bytes) : nat * nat := (f.1, length f.2).

Lemma put_all_spec fields : forall b,
  Forall (fun f => (f.1 + f.2 <= length b)%nat) (extent_of <$> fields) ->
  ForallOrdPairs disjoint_fields (extent_of <$> fields) ->
  exists b', put_all fields b = Ok b' /\ length b' = length b /\
    (forall f, f ∈ fields -> slice f.1 (length f.2) b' = f.2) /\
    (forall off n, Forall (fun g => disjoint_fields (off, n) g) (extent_of <$> fields) -> slice off n b' = slice off n b).
Proof.
  induction fields as [|f fields IH]; intros b Hin Hd.
  { exists b. split_and!; try done. intros f Hf. by apply elem_of_nil in Hf. }
  cbn [fmap list_fmap extent_of] in *. apply Forall_cons in Hin as [Hf Hin]. change ((f.1 + length f.2 <= length b)%nat) in Hf.
  inversion Hd as [|? ? Hfd Hd']; subst.
  assert (Hl : length (splice f.1 f.2 b) = length b) by (apply length_splice; lia).
  destruct (IH (splice f.1 f.2 b)) as (b' & E & El & Hs & Ho); [by rewrite Hl|done|].
  exists b'. unfold put_all in *. cbn [res_fold]. rewrite copy_at_Ok by lia. cbn [mbind res_bind].
  split; [done|]. split; [congruence|]. split.
  - intros g [->|Hg]%elem_of_cons; [|by apply Hs]. rewrite Ho by done. by apply slice_splice_same.
  - intros off n [Hn Hns]%Forall_cons. rewrite Ho by done. apply slice_splice_disjoint; [lia|].
    unfold disjoint_fields, extent_of in Hn. cbn [fst snd] in Hn. lia.
Qed.

(** The buffer whose fields are all inside its checked length. *)
#[export] Hint Rewrite be16_Ok be32_Ok be64_Ok le32_Ok uuid_at_Ok byte_at_Ok
  using (cbn; lia) : endian.

(** Invert a successful read. *)
Ltac rd_inv1 :=
  match goal with
  | H : be16 _ _ = Ok _ |- _ => apply be_inv in H; destruct H as [? ->]
  | H : be32 _ _ = Ok _ |- _ => apply be_inv in H; destruct H as [? ->]
  | H : be64 _ _ = Ok _ |- _ => apply be_inv in H; destruct H as [? ->]
  | H : uuid_at _ _ = Ok _ |- _ => apply get_slice_inv in H; destruct H as [? ->]
  end.
