(* ===== verification/Crc32c.v ===== *)
(** * The interface to the [crc32c] crate

    The checksum itself is third-party code, so its two entry points are
    operations of a class and what the driver relies on is a second class of
    laws: the checksum is a [u32], and appending continues it.  [Castagnoli]
    is the documented CRC-32C and shows that the laws can hold. *)

From Stdlib Require Import ZArith Lia.
From stdpp Require Import base list.
From S2P Require Import Prelude Error.

Class Crc32c := {
  crc32c : bytes -> Z;
  crc32c_append : Z -> bytes -> Z;
}.

Class Crc32cLaws `{Crc32c} : Prop := {
  crc32c_range b : in_u 32 (crc32c b);
  crc32c_append_range c b : in_u 32 c -> in_u 32 (crc32c_append c b);
  crc32c_append_app b1 b2 : crc32c_append (crc32c b1) b2 = crc32c (b1 ++ b2);
}.

Module Castagnoli.
Definition poly : Z := 0x82F63B78.
Definition ones32 : Z := 0xFFFFFFFF.
Definition bit (c : Z) : Z := if Z.odd c then Z.lxor (c / 2) poly else c / 2.
Definition step (c : Z) (b : u8) : Z :=
  bit (bit (bit (bit (bit (bit (bit (bit (Z.lxor c (b2z b))))))))).
Definition raw (c : Z) (b : bytes) : Z := fold_left step b c.
Definition append (c : Z) (b : bytes) : Z := Z.lxor (raw (Z.lxor c ones32) b) ones32.

#[global] Instance castagnoli : Crc32c :=
  {| crc32c := append 0; crc32c_append := append |}.

Lemma lxor_range n a b : 0 <= n -> in_u n a -> in_u n b -> in_u n (Z.lxor a b).
Proof.
  intros Hn Ha Hb. assert (Z.lxor a b = Z.lxor a b mod 2 ^ n) as ->.
  { apply Z.bits_inj'; intros i Hi. destruct (decide (i < n)).
    - by rewrite Z.mod_pow2_bits_low by lia.
    - rewrite Z.mod_pow2_bits_high, Z.lxor_spec by lia.
      rewrite <- (Z.mod_small a (2 ^ n)), <- (Z.mod_small b (2 ^ n)) by done.
      by rewrite !Z.mod_pow2_bits_high by lia. }
  apply wrap_range. done.
Qed.

Lemma bit_range c : in_u 32 c -> in_u 32 (bit c).
Proof.
  intros [H0 H1]. unfold bit. case_match; [apply lxor_range; [done| |done]|];
    unfold in_u; zdiv.
Qed.

Lemma step_range c b : in_u 32 c -> in_u 32 (step c b).
Proof.
  intros. unfold step. do 8 apply bit_range. apply lxor_range; [done|done|].
  pose proof (b2z_range b). unfold in_u. lia.
Qed.

Lemma raw_range c b : in_u 32 c -> in_u 32 (raw c b).
Proof. revert c; induction b; intros c Hc; [done|]. cbn. by apply IHb, step_range. Qed.

Lemma append_range c b : in_u 32 c -> in_u 32 (append c b).
Proof.
  intros. unfold append. apply lxor_range; [done| |done].
  by apply raw_range, lxor_range.
Qed.

#[global] Instance castagnoli_laws : Crc32cLaws.
Proof.
  split; cbn.
  - intros b. by apply append_range.
  - intros c b. apply append_range.
  - intros b1 b2. unfold append, raw at 1 3. rewrite fold_left_app.
    rewrite Z.lxor_assoc, Z.lxor_nilpotent, Z.lxor_0_r. done.
Qed.

(** The published check value of CRC-32C. *)
Example check_value :
  crc32c (z2b <$> [49; 50; 51; 52; 53; 54; 55; 56; 57]) = 0xE3069283.
Proof. vm_compute. reflexivity. Qed.
End Castagnoli.

Section zeroed.
Context `{Crc : Crc32c}.

(** [superblock::crc32c_with_zeroed_crc] *)
Definition crc32c_with_zeroed_crc (buf : bytes) (crc_off : nat) : res Z :=
  head ← get_slice 0 crc_off buf;
  let c := crc32c head in
  let c := crc32c_append c [Byte.x00; Byte.x00; Byte.x00; Byte.x00] in
  assert (crc_off + 4 <=? length buf)%nat;;
  Ok (crc32c_append c (drop (crc_off + 4) buf)).

Definition zeroed_crc (buf : bytes) (off : nat) : Z :=
  crc32c_append (crc32c_append (crc32c (take off buf))
    [Byte.x00; Byte.x00; Byte.x00; Byte.x00]) (drop (off + 4) buf).

Lemma crc32c_with_zeroed_crc_Ok buf off :
  (off + 4 <= length buf)%nat -> crc32c_with_zeroed_crc buf off = Ok (zeroed_crc buf off).
Proof.
  intros. unfold crc32c_with_zeroed_crc. rewrite get_slice_Ok by lia. cbn [mbind res_bind].
  rewrite (proj2 (Nat.leb_le _ _)) by lia. done.
Qed.

(** The field the checksum lives in does not enter it. *)
Lemma zeroed_crc_splice buf off bs :
  length bs = 4%nat -> (off + 4 <= length buf)%nat ->
  zeroed_crc (splice off bs buf) off = zeroed_crc buf off.
Proof.
  intros Hb Hl. unfold zeroed_crc.
  rewrite take_splice_before, drop_splice_after by lia. done.
Qed.

Lemma zeroed_crc_range `{!Crc32cLaws} buf off : in_u 32 (zeroed_crc buf off).
Proof. apply crc32c_append_range, crc32c_append_range, crc32c_range. Qed.

(** The checksum is that of the buffer with the field zeroed. *)
Lemma zeroed_crc_spec `{!Crc32cLaws} buf off :
  (off + 4 <= length buf)%nat ->
  zeroed_crc buf off =
  crc32c (splice off [Byte.x00; Byte.x00; Byte.x00; Byte.x00] buf).
Proof. intros. unfold zeroed_crc. rewrite !crc32c_append_app, <- app_assoc. done. Qed.
End zeroed.
