(* ===== verification/Fields.v ===== *)
(** * Fields of a block, written and read

    What a copy into a buffer changes, one field at a time, and what a field
    written is read as: the steps shared by the proofs about blocks that are
    filled in place. *)

From Stdlib Require Import ZArith Lia Strings.Byte.
From stdpp Require Import base list.
From S2P Require Import Prelude Error Endian Crc32c.

(** One copy into a buffer: what it changes, and nothing else. *)
Definition copied_into (pos n : nat) (bs buf buf' : bytes) : Prop :=
  length buf' = length buf /\ slice pos n buf' = bs /\ forall off m, (off + m <= pos \/ pos + n <= off)%nat -> slice off m buf' = slice off m buf.
Lemma copy_at_copied pos n bs buf : length bs = n -> (pos + n <= length buf)%nat -> exists buf', copy_at pos bs buf = Ok buf' /\ copied_into pos n bs buf buf'.
Proof.
  intros <- Hl. exists (splice pos bs buf). split; [by apply copy_at_Ok|]. split; [by apply length_splice|]. split; [by apply slice_splice_same|].
  intros off m Ho. by apply slice_splice_disjoint.
Qed.
(** The next copy of a sequence, its facts named. *)
Ltac copied pos n b Hl Hs Hf :=
  match goal with |- context [copy_at pos ?bs ?buf] =>
    let H := fresh in destruct (copy_at_copied pos n bs buf) as (b & H & Hl & Hs & Hf);
      [by rewrite ?length_to_be_bytes, ?length_to_le_bytes|try lia|rewrite H; clear H; cbn [mbind res_bind]]
  end.

Lemma rd_of_slice n off buf z : slice off n buf = to_be_bytes n z -> 0 <= z < 256 ^ Z.of_nat n -> rd n off buf = z.
Proof. intros Hs Hz. unfold rd. rewrite Hs. by apply from_to_be_bytes_small. Qed.

Lemma rd_slice n off buf buf' : slice off n buf' = slice off n buf -> rd n off buf' = rd n off buf.
Proof. unfold rd. by intros ->. Qed.

(** A buffer with its own checksum in it. *)
Definition stamped_at `{Crc : Crc32c} (at_ : nat) (buf : bytes) : bytes := splice at_ (to_le_bytes 4 (zeroed_crc buf at_)) buf.

Section stamped.
Context `{Crc : Crc32c} {Laws : Crc32cLaws} (at_ : nat) (buf : bytes) (Hl : (at_ + 4 <= length buf)%nat).

Lemma length_stamped_at : length (stamped_at at_ buf) = length buf.
Proof using Hl. unfold stamped_at. rewrite length_splice; [done|]. by rewrite length_to_le_bytes. Qed.

Lemma stamped_at_frame off m : (off + m <= at_ \/ at_ + 4 <= off)%nat -> slice off m (stamped_at at_ buf) = slice off m buf.
Proof using Hl. intros Ho. unfold stamped_at. apply slice_splice_disjoint; rewrite length_to_le_bytes; lia. Qed.

Lemma stamped_at_sum : rd_le 4 at_ (stamped_at at_ buf) = zeroed_crc (stamped_at at_ buf) at_.
Proof using Laws Hl.
  unfold stamped_at. rewrite zeroed_crc_splice by (by rewrite ?length_to_le_bytes). apply rd_le_splice_same; [lia|]. apply zeroed_crc_range.
Qed.
End stamped.
