(* ===== verification/Extent.v ===== *)
(** * Data fork extent records ([src/src/extent.rs])

    The packed 128-bit record, its decoder and encoder, the extent list of a
    fork and the binary search over it. *)

From Stdlib Require Import ZArith Lia Strings.String.
From stdpp Require Import base list strings.
From S2P Require Import Prelude Error Endian.

Definition EXTENT_RECORD_SIZE : nat := 16.
Definition STARTOFF_BITS : Z := 54.
Definition BLOCKCOUNT_BITS : Z := 21.
Definition STARTBLOCK_BITS_IN_LOW_HALF : Z := 43.
Definition STARTBLOCK_BITS_IN_HIGH_HALF : Z := 9.
Definition STARTOFF_MAX : Z := Z.shiftl 1 STARTOFF_BITS - 1.
Definition BLOCKCOUNT_MAX : Z := Z.shiftl 1 BLOCKCOUNT_BITS - 1.
Definition STARTBLOCK_MAX : Z :=
  Z.shiftl 1 (STARTBLOCK_BITS_IN_LOW_HALF + STARTBLOCK_BITS_IN_HIGH_HALF) - 1.

Record Extent := mkExtent {
  startoff : Z;
  startblock : Z;
  blockcount : Z;
  unwritten : bool;
}.

#[global] Instance extent_eq_dec : EqDecision Extent.
Proof. solve_decision. Defined.

Definition parse (buf : bytes) : res Extent :=
  fail_if (length buf <? EXTENT_RECORD_SIZE)%nat
    (BadSuperblock (fmt "extent record needs {} bytes, got {}"
      [AZ (Z.of_nat EXTENT_RECORD_SIZE); AZ (Z.of_nat (length buf))]));;
  high ← be64 buf 0;
  low ← be64 buf 8;
  let unwritten := negb (wshr 64 high 63 =? 0) in
  let startoff := Z.land (wshr 64 high STARTBLOCK_BITS_IN_HIGH_HALF) STARTOFF_MAX in
  let startblock :=
    Z.lor (wshl 64 (Z.land high (Z.shiftl 1 STARTBLOCK_BITS_IN_HIGH_HALF - 1))
                STARTBLOCK_BITS_IN_LOW_HALF)
          (wshr 64 low BLOCKCOUNT_BITS) in
  let blockcount := Z.land low BLOCKCOUNT_MAX in
  fail_if (blockcount =? 0)
    (BadSuperblock (fmt "extent record has a block count of zero" []));;
  Ok (mkExtent startoff startblock blockcount unwritten).

Definition to_bytes (e : Extent) : res bytes :=
  fail_if (STARTOFF_MAX <? startoff e)
    (BadSuperblock (fmt "startoff {} exceeds the {}-bit field"
      [AZ (startoff e); AZ STARTOFF_BITS]));;
  fail_if (STARTBLOCK_MAX <? startblock e)
    (BadSuperblock (fmt "startblock {} exceeds its field width" [AZ (startblock e)]));;
  fail_if ((blockcount e =? 0) || (BLOCKCOUNT_MAX <? blockcount e))
    (BadSuperblock (fmt "blockcount {} is zero or exceeds the {}-bit field"
      [AZ (blockcount e); AZ BLOCKCOUNT_BITS]));;
  let high :=
    Z.lor (Z.lor (wshl 64 (Z.b2z (unwritten e)) 63)
                 (wshl 64 (startoff e) STARTBLOCK_BITS_IN_HIGH_HALF))
          (wshr 64 (startblock e) STARTBLOCK_BITS_IN_LOW_HALF) in
  let low := Z.lor (wshl 64 (startblock e) BLOCKCOUNT_BITS) (blockcount e) in
  Ok (to_be_bytes 8 high ++ to_be_bytes 8 low).

Definition is_unwritten (e : Extent) : bool := unwritten e.
Definition end_offset (e : Extent) : Z := wadd 64 (startoff e) (blockcount e).
Definition contains (e : Extent) (off : Z) : bool :=
  (startoff e <=? off) && (off <? end_offset e).
Definition map (e : Extent) (off : Z) : option Z :=
  if contains e off then Some (wadd 64 (startblock e) (wsub 64 off (startoff e))) else None.

(** The loop of [parse_list]: [i] counts up, [n] records are left. *)
Fixpoint parse_list_loop (buf : bytes) (n i : nat) (previous_end : Z) : res (list Extent) :=
  match n with
  | O => Ok []
  | S n =>
      e ← parse (drop (i * EXTENT_RECORD_SIZE) buf);
      fail_if (startoff e <? previous_end)
        (BadSuperblock (fmt
          "extent {} starts at file block {} but the previous extent ran to {}"
          [AZ (Z.of_nat i); AZ (startoff e); AZ previous_end]));;
      out ← parse_list_loop buf n (S i) (end_offset e);
      Ok (e :: out)
  end.

Definition parse_list (buf : bytes) (count : Z) : res (list Extent) :=
  needed ← ok_or (checked_mul 64 count (Z.of_nat EXTENT_RECORD_SIZE))
    (BadSuperblock (fmt "extent count overflows" []));
  fail_if (Z.of_nat (length buf) <? needed)
    (BadSuperblock (fmt "fork holds {} bytes, too few for {} extents"
      [AZ (Z.of_nat (length buf)); AZ count]));;
  parse_list_loop buf (Z.to_nat count) 0 0.

Definition lookup (extents : list Extent) (off : Z) : option Extent :=
  let idx := partition_point (fun e => end_offset e <=? off) extents in
  match extents !! idx with
  | Some e => if contains e off then Some e else None
  | None => None
  end.

(** ** What a record can hold *)

Definition extent_ok (e : Extent) : Prop :=
  0 <= startoff e < 2 ^ 54 /\ 0 <= startblock e < 2 ^ 52 /\ 0 < blockcount e < 2 ^ 21.

(** The list of a fork: records in field range, ascending, not overlapping. *)
Inductive sorted_from : Z -> list Extent -> Prop :=
  | sorted_nil p : sorted_from p []
  | sorted_cons p e l :
      extent_ok e -> p <= startoff e -> sorted_from (startoff e + blockcount e) l ->
      sorted_from p (e :: l).
#[local] Hint Constructors sorted_from : core.

(** The fields as arithmetic on the two halves. *)
Lemma parse_spec buf e :
  parse buf = Ok e <->
  (16 <= length buf)%nat /\ rd 8 8 buf mod 2 ^ 21 <> 0 /\
  e = {| startoff := rd 8 0 buf / 2 ^ 9 mod 2 ^ 54;
         startblock := (rd 8 0 buf mod 2 ^ 9) * 2 ^ 43 + rd 8 8 buf / 2 ^ 21;
         blockcount := rd 8 8 buf mod 2 ^ 21;
         unwritten := negb (rd 8 0 buf / 2 ^ 63 =? 0) |}.
Proof.
  unfold parse, EXTENT_RECORD_SIZE.
  destruct (Nat.ltb_spec (length buf) 16) as [Hs|Hl].
  { cbn. split; [done|intros [? _]; lia]. }
  cbn [fail_if mbind res_bind]. rewrite !be64_Ok by lia. cbn [mbind res_bind].
  pose proof (rd_range_any 8 0 buf) as Hh. pose proof (rd_range_any 8 8 buf) as Hlo.
  set (h := rd 8 0 buf) in *. set (lo := rd 8 8 buf) in *.
  change (256 ^ Z.of_nat 8) with (2 ^ 64) in *.
  change BLOCKCOUNT_MAX with (2 ^ 21 - 1). change STARTOFF_MAX with (2 ^ 54 - 1).
  change (Z.shiftl 1 STARTBLOCK_BITS_IN_HIGH_HALF - 1) with (2 ^ 9 - 1).
  unfold STARTBLOCK_BITS_IN_HIGH_HALF, STARTBLOCK_BITS_IN_LOW_HALF, BLOCKCOUNT_BITS.
  rewrite !land_mask, !wshr_div by lia.
  rewrite wshl_small by zdiv.
  rewrite lor_disjoint_add by zdiv.
  destruct (Z.eqb_spec (lo mod 2 ^ 21) 0); cbn; naive_solver.
Qed.

Lemma parse_ok buf e : parse buf = Ok e -> extent_ok e.
Proof.
  intros (_ & Hz & ->)%parse_spec. unfold extent_ok; simpl.
  pose proof (rd_range_any 8 0 buf). pose proof (rd_range_any 8 8 buf).
  change (256 ^ Z.of_nat 8) with (2 ^ 64) in *. split_and!; zdiv.
Qed.

Lemma parse_total buf : parse buf <> Panic.
Proof.
  unfold parse, EXTENT_RECORD_SIZE. destruct (Nat.ltb_spec (length buf) 16); [done|].
  cbn [fail_if mbind res_bind]. rewrite !be64_Ok by lia.
  cbn [mbind res_bind]. unfold fail_if. by case_match.
Qed.

Lemma to_bytes_spec e :
  extent_ok e ->
  to_bytes e = Ok (to_be_bytes 8 (Z.b2z (unwritten e) * 2 ^ 63 + startoff e * 2 ^ 9 +
                                  startblock e / 2 ^ 43) ++
                   to_be_bytes 8 (startblock e mod 2 ^ 43 * 2 ^ 21 + blockcount e)).
Proof.
  intros (Ho & Hb & Hc). unfold to_bytes.
  change STARTOFF_MAX with (2 ^ 54 - 1). change STARTBLOCK_MAX with (2 ^ 52 - 1).
  change BLOCKCOUNT_MAX with (2 ^ 21 - 1).
  rewrite (proj2 (Z.ltb_ge _ _)), (proj2 (Z.ltb_ge _ _)) by lia.
  rewrite (proj2 (Z.eqb_neq _ _)), (proj2 (Z.ltb_ge _ _)) by lia. cbn -[to_be_bytes Z.pow].
  unfold STARTBLOCK_BITS_IN_HIGH_HALF, STARTBLOCK_BITS_IN_LOW_HALF, BLOCKCOUNT_BITS.
  rewrite wshr_div by lia. rewrite (wshl_small 64 (startoff e)) by lia.
  rewrite (wshl_small 64 (Z.b2z _)) by (destruct (unwritten e); simpl Z.b2z; lia).
  do 2 f_equal.
  - f_equal. rewrite lor_disjoint_add by lia.
    replace (Z.b2z (unwritten e) * 2 ^ 63 + startoff e * 2 ^ 9)
      with ((Z.b2z (unwritten e) * 2 ^ 54 + startoff e) * 2 ^ 9) by lia.
    rewrite lor_disjoint_add by zdiv. lia.
  - f_equal. unfold wshl, wrap. rewrite (Z.mod_small 21) by lia.
    rewrite Z.shiftl_mul_pow2 by lia.
    replace (2 ^ 64) with (2 ^ 43 * 2 ^ 21) by lia.
    rewrite Z.mul_mod_distr_r by lia. by rewrite lor_disjoint_add by lia.
Qed.

Lemma slice_app_l {A} (l1 l2 : list A) n : n = length l1 -> slice 0 n (l1 ++ l2) = l1.
Proof. intros ->. unfold slice. by rewrite drop_0, take_app_length. Qed.

Lemma slice_app_r {A} (l1 l2 : list A) k n :
  k = length l1 -> n = length l2 -> slice k n (l1 ++ l2) = l2.
Proof. intros -> ->. unfold slice. by rewrite drop_app_length, firstn_all. Qed.

(** A record survives the trip to its packed form and back. *)
Lemma parse_to_bytes e :
  extent_ok e -> exists b, to_bytes e = Ok b /\ length b = 16%nat /\ parse b = Ok e.
Proof.
  intros He. pose proof He as (Ho & Hb & Hc).
  eexists. split; [by apply to_bytes_spec|].
  split; [by rewrite length_app, !length_to_be_bytes|].
  apply parse_spec. unfold rd.
  rewrite length_app, !length_to_be_bytes.
  rewrite slice_app_l, slice_app_r by by rewrite length_to_be_bytes.
  assert (0 <= Z.b2z (unwritten e) <= 1) by (destruct (unwritten e); simpl; lia).
  rewrite !from_to_be_bytes_small by (change (256 ^ Z.of_nat 8) with (2 ^ 64); zdiv).
  split; [lia|]. split; [zdiv|].
  destruct e as [o b c u]; cbn [startoff startblock blockcount unwritten] in *.
  f_equal; [zdiv..|].
  destruct u; cbn [Z.b2z] in *; symmetry.
  - apply negb_true_iff, Z.eqb_neq. zdiv.
  - apply negb_false_iff, Z.eqb_eq. zdiv.
Qed.

(** The packed form is canonical: encoding what was decoded gives the same
    sixteen bytes. *)
Lemma to_bytes_parse buf e : parse buf = Ok e -> to_bytes e = Ok (take 16 buf).
Proof.
  intros Hp. pose proof (parse_ok _ _ Hp) as He.
  apply parse_spec in Hp as (Hl & Hz & ->).
  rewrite to_bytes_spec by done. cbn [startoff startblock blockcount unwritten].
  pose proof (rd_range_any 8 0 buf) as Hh. pose proof (rd_range_any 8 8 buf) as Hlo.
  change (256 ^ Z.of_nat 8) with (2 ^ 64) in *.
  f_equal. change (take 16 buf) with (slice 0 (8 + 8) buf). rewrite slice_app_split.
  rewrite <- (to_from_be_bytes' 8 (slice 0 8 buf)) by (apply length_slice; lia).
  rewrite <- (to_from_be_bytes' 8 (slice (0 + 8) 8 buf)) by (apply length_slice; lia).
  fold (rd 8 0 buf) (rd 8 (0 + 8) buf). cbn [Nat.add].
  f_equal; f_equal; [|zdiv].
  destruct (Z.eqb_spec (rd 8 0 buf / 2 ^ 63) 0); cbn [negb Z.b2z]; zdiv.
Qed.

(** ** The extent list of a fork *)

Lemma end_offset_ok e : extent_ok e -> end_offset e = startoff e + blockcount e.
Proof. intros (? & ? & ?). apply wadd_small. lia. Qed.

Lemma parse_list_loop_sound buf n i p l :
  parse_list_loop buf n i p = Ok l ->
  sorted_from p l /\ length l = n /\
  forall j e, l !! j = Some e -> parse (drop ((i + j) * 16) buf) = Ok e.
Proof.
  revert i p l; induction n as [|n IH]; intros i p l H; cbn [parse_list_loop] in H.
  { res_inv. by split_and!. }
  res_inv. bool_prop. unfold EXTENT_RECORD_SIZE in *.
  match goal with H : parse _ = Ok ?e, H' : parse_list_loop _ _ _ _ = Ok ?t |- _ =>
    rename H into He, H' into Ht, e into x, t into out end.
  pose proof (parse_ok _ _ He) as Hok. rewrite end_offset_ok in Ht by done.
  apply IH in Ht as (Hs & Hlen & Hat). split_and!; [by constructor|by cbn; f_equal|].
  intros [|j] e; cbn; [intros [= <-]; by rewrite Nat.add_0_r|].
  intros Hj%Hat. by replace (i + S j)%nat with (S i + j)%nat by lia.
Qed.

(** A list that decodes is [count] records, each the decoding of its own
    sixteen bytes, ascending and without overlap. *)
Theorem parse_list_sound buf count l :
  parse_list buf count = Ok l ->
  sorted_from 0 l /\ length l = Z.to_nat count /\
  forall i e, l !! i = Some e -> parse (drop (i * 16) buf) = Ok e.
Proof. unfold parse_list. intros H. res_inv. by eapply parse_list_loop_sound in H. Qed.

Lemma parse_app b1 b2 e : parse b1 = Ok e -> parse (b1 ++ b2) = Ok e.
Proof.
  intros (Hl & Hz & ->)%parse_spec. apply parse_spec.
  assert (Hs : forall off, (off + 8 <= 16)%nat -> rd 8 off (b1 ++ b2) = rd 8 off b1).
  { intros off Ho. unfold rd, slice. rewrite drop_app_le by lia.
    by rewrite take_app_le by (rewrite length_drop; lia). }
  rewrite !Hs by lia. by rewrite length_app; split_and!; [lia|..].
Qed.

Lemma parse_list_loop_encoded l bs :
  res_map to_bytes l = Ok bs ->
  forall p pre rest, sorted_from p l ->
  parse_list_loop (pre ++ concat bs ++ rest) (length l) (length pre / 16) p = Ok l \/
  (length pre mod 16 <> 0)%nat.
Proof.
  rewrite res_map_Ok. induction 1 as [|e b l bs Hb Hbs IH]; intros p pre rest Hs; [by left|].
  destruct (decide (length pre mod 16 = 0)%nat) as [Hpre|]; [left|by right].
  inversion Hs as [|? ? ? He Hp Hs']; subst.
  destruct (parse_to_bytes e He) as (b' & Hb' & Hlen & Hparse).
  rewrite Hb in Hb'; injection Hb' as <-.
  cbn [length parse_list_loop]. unfold EXTENT_RECORD_SIZE.
  pose proof (Nat.div_mod_eq (length pre) 16).
  assert (Hn : (length pre / 16 * 16 = length pre)%nat) by lia.
  rewrite Hn, drop_app_length. cbn [concat]. rewrite <- (app_assoc b).
  rewrite (parse_app _ _ _ Hparse). cbn [mbind res_bind].
  rewrite (proj2 (Z.ltb_ge _ _)) by done. cbn [fail_if mbind res_bind].
  rewrite end_offset_ok by done.
  destruct (IH (startoff e + blockcount e) (pre ++ b) rest Hs') as [Hrec|Hbad].
  - rewrite length_app, Hlen in Hrec.
    replace ((length pre + 16) / 16)%nat with (S (length pre / 16)) in Hrec
      by (replace (length pre + 16)%nat with (length pre + 1 * 16)%nat by lia;
          rewrite Nat.div_add by lia; lia).
    rewrite <- app_assoc in Hrec. by rewrite Hrec.
  - rewrite length_app, Hlen in Hbad. exfalso. apply Hbad.
    replace (length pre + 16)%nat with (length pre + 1 * 16)%nat by lia.
    by rewrite Nat.Div0.mod_add.
Qed.

(** Writing a well-formed list record by record, whatever follows it in
    the fork, and decoding it by count gives the list back. *)
Theorem parse_list_encoded l rest :
  sorted_from 0 l -> Z.of_nat (length l) * 16 < 2 ^ 64 ->
  exists bs, res_map to_bytes l = Ok bs /\
             parse_list (concat bs ++ rest) (Z.of_nat (length l)) = Ok l.
Proof.
  intros Hs Hl.
  assert (exists bs, res_map to_bytes l = Ok bs /\ length (concat bs) = (16 * length l)%nat)
    as (bs & Hbs & Hlen).
  { clear Hl. induction Hs as [|p e l He Hp Hs (bs & Hbs & Hlen)]; [by exists []|].
    destruct (parse_to_bytes e He) as (b & Hb & Hbl & _).
    exists (b :: bs). cbn [res_map]. rewrite Hb, Hbs. split; [done|].
    cbn [concat length]. rewrite length_app. lia. }
  exists bs. split; [done|]. unfold parse_list, checked_mul, EXTENT_RECORD_SIZE.
  rewrite (proj2 (Z.ltb_lt _ _)) by lia. cbn [ok_or mbind res_bind].
  rewrite (proj2 (Z.ltb_ge _ _)) by (rewrite length_app; lia). cbn [fail_if mbind res_bind].
  rewrite Nat2Z.id.
  by destruct (parse_list_loop_encoded l bs Hbs 0 [] rest Hs) as [H|H].
Qed.

(** ** The search *)

Definition covers (e : Extent) (off : Z) : Prop :=
  startoff e <= off < startoff e + blockcount e.

Lemma contains_covers e off : extent_ok e -> contains e off = true <-> covers e off.
Proof.
  intros He. unfold contains, covers. rewrite end_offset_ok by done.
  rewrite andb_true_iff, Z.leb_le, Z.ltb_lt. done.
Qed.

Lemma sorted_from_ok p l : sorted_from p l -> Forall extent_ok l.
Proof. induction 1; by constructor. Qed.

Lemma sorted_from_ge p l e : sorted_from p l -> e ∈ l -> p <= startoff e.
Proof.
  induction 1 as [|p x l Hx Hp Hs IH]; [by intros ?%elem_of_nil|].
  intros [->|He]%elem_of_cons; [done|]. apply IH in He.
  destruct Hx as (? & ? & ?). lia.
Qed.

Lemma sorted_from_lt p l i j x y :
  sorted_from p l -> (i < j)%nat -> l !! i = Some x -> l !! j = Some y ->
  startoff x + blockcount x <= startoff y.
Proof.
  intros Hs; revert i j; induction Hs as [|p e l He Hp Hs IH]; intros i j Hij Hx Hy; [done|].
  destruct i as [|i], j as [|j]; cbn in *; try lia.
  - injection Hx as <-. eapply sorted_from_ge; [done|]. by eapply list_elem_of_lookup_2.
  - eapply (IH i j); [lia|done|done].
Qed.

Lemma lookup_partitioned p l off :
  sorted_from p l -> partitioned (fun e => end_offset e <=? off) l.
Proof.
  intros Hs i j x y Hij Hx Hy. pose proof (sorted_from_ok _ _ Hs) as Hok.
  rewrite Forall_lookup in Hok.
  rewrite !end_offset_ok, !Z.leb_le by eauto. intros Hle.
  destruct (decide (i = j)) as [->|]; [naive_solver|].
  assert (startoff x + blockcount x <= startoff y).
  { apply (sorted_from_lt p l i j); [done|lia|done|done]. }
  destruct (Hok j y Hy) as (? & ? & ?). lia.
Qed.

(** The binary search finds exactly the extent that covers the file
    block: what it returns is in the list and covers the block, and it
    answers [None] only for a hole. *)
Theorem lookup_spec p l off :
  sorted_from p l ->
  match lookup l off with
  | Some e => e ∈ l /\ covers e off /\ map e off = Some (startblock e + (off - startoff e))
  | None => forall e, e ∈ l -> ~ covers e off
  end.
Proof.
  intros Hs. pose proof (sorted_from_ok _ _ Hs) as Hok. rewrite Forall_forall in Hok.
  unfold lookup.
  destruct (partition_point_spec _ l (lookup_partitioned p l off Hs)) as (Hk & Hlo & Hhi).
  set (k := partition_point _ l) in *.
  assert (Hout : forall i e, l !! i = Some e -> covers e off ->
            i = k).
  { intros i e Hi Hc. pose proof (Hok e (list_elem_of_lookup_2 _ _ _ Hi)) as He.
    destruct (Nat.lt_trichotomy i k) as [Hlt|[->|Hgt]]; [|done|].
    - pose proof (Hlo i e Hlt Hi) as Hb. cbn in Hb.
      rewrite end_offset_ok, Z.leb_le in Hb by done. unfold covers in Hc. lia.
    - destruct (lookup_lt_is_Some_2 l k) as [x Hx]; [apply lookup_lt_Some in Hi; lia|].
      pose proof (Hhi k x (le_n _) Hx) as Hb. cbn in Hb.
      rewrite end_offset_ok, Z.leb_gt in Hb
        by (apply Hok; by eapply list_elem_of_lookup_2).
      pose proof (sorted_from_lt p l k i x e Hs Hgt Hx Hi). unfold covers in Hc. lia. }
  destruct (l !! k) as [e|] eqn:Hke.
  - pose proof (Hok e (list_elem_of_lookup_2 _ _ _ Hke)) as He.
    destruct (contains e off) eqn:Hc.
    + pose proof Hc as Hcov. apply contains_covers in Hcov; [|done].
      split_and!; [by eapply list_elem_of_lookup_2|done|]. unfold map. rewrite Hc.
      destruct He as (? & ? & ?). unfold covers in Hcov.
      rewrite wsub_small, wadd_small by (rewrite ?wsub_small by lia; lia). done.
    + intros x [i Hi]%list_elem_of_lookup Hcov. pose proof (Hout i x Hi Hcov) as ->.
      rewrite Hke in Hi; injection Hi as <-.
      apply contains_covers in Hcov; [congruence|done].
  - intros x [i Hi]%list_elem_of_lookup Hcov. rewrite (Hout i x Hi Hcov) in Hi. congruence.
Qed.

(** The record codec loses nothing either way: every extent in field range
    is encoded in sixteen bytes that parse back to it, and encoding what a
    parse accepted gives back the sixteen bytes it read. *)
Theorem extent_codec_roundtrip :
  (forall e, extent_ok e -> exists b, to_bytes e = Ok b /\ length b = 16%nat /\ parse b = Ok e) /\
  (forall buf e, parse buf = Ok e -> extent_ok e /\ to_bytes e = Ok (take 16 buf)).
Proof.
  split; [apply parse_to_bytes|]. intros buf e H. split; [by eapply parse_ok|by apply to_bytes_parse].
Qed.

(** ** A fork of three extents *)

Definition sample_extents : list Extent :=
  [mkExtent 0 100 8 false; mkExtent 8 5000 4 true; mkExtent 40 200 1 false].
Definition sample_fork : bytes :=
  match res_map to_bytes sample_extents with Ok bs => concat bs | _ => [] end.

Lemma sample_extents_sorted : sorted_from 0 sample_extents.
Proof. repeat constructor; cbn; lia. Qed.

Lemma parse_list_sound_witness :
  exists l, parse_list sample_fork 3 = Ok l /\ sorted_from 0 l /\ length l = 3%nat.
Proof.
  destruct (parse_list sample_fork 3) as [l| |] eqn:E; [|vm_compute in E; congruence..].
  exists l. split; [reflexivity|]. destruct (parse_list_sound sample_fork 3 l E) as (H1 & H2 & _).
  split; [exact H1|exact H2].
Defined.

Lemma parse_list_encoded_witness :
  exists bs, res_map to_bytes sample_extents = Ok bs /\ parse_list (concat bs ++ []) 3 = Ok sample_extents.
Proof. apply (parse_list_encoded sample_extents []); [apply sample_extents_sorted|cbn; lia]. Defined.

Lemma lookup_spec_witness :
  match lookup sample_extents 9 with Some e => covers e 9 | None => False end.
Proof.
  pose proof (lookup_spec 0 sample_extents 9 sample_extents_sorted) as H.
  destruct (lookup sample_extents 9) as [e|] eqn:E; [apply H|vm_compute in E; congruence].
Defined.
