(* ===== verification/Sample.v ===== *)
(** * A small v5 volume

    One concrete superblock sector, with the checksum it should carry, and the
    record the parser makes of it: two groups of 2048 blocks of 512 bytes.  The
    witnesses of the other files are evaluated on it. *)

From Stdlib Require Import ZArith Lia.
From stdpp Require Import base list.
From S2P Require Import Prelude Error Endian Crc32c Superblock.

(** Offset, width and value of each field that is not zero. *)
Record field := F { f_off : nat; f_width : nat; f_value : Z }.
Definition sample_fields : list field :=
  [ F offsets.MAGIC 4 XFS_SB_MAGIC; F offsets.BLOCKSIZE 4 512;
    F offsets.DBLOCKS 8 4096; F offsets.UUID 8 0x0123456789abcdef;
    F offsets.LOGSTART 8 (2048 + 16); F offsets.ROOTINO 8 128;
    F offsets.AGBLOCKS 4 2048; F offsets.AGCOUNT 4 2; F offsets.LOGBLOCKS 4 64;
    F offsets.VERSIONNUM 2 0xb4a5; F offsets.SECTSIZE 2 512;
    F offsets.INODESIZE 2 256; F offsets.INOPBLOCK 2 2; F offsets.FNAME 4 0x64617461;
    F offsets.BLOCKLOG 1 9; F offsets.SECTLOG 1 9; F offsets.INODELOG 1 8;
    F offsets.INOPBLOG 1 1; F offsets.AGBLKLOG 1 11;
    F offsets.FEATURES2 4 0x18a; F offsets.BAD_FEATURES2 4 0x18a;
    F offsets.FEATURES_RO_COMPAT 4 0xf; F offsets.FEATURES_INCOMPAT 4 0x3 ].

Definition put_field (b : bytes) (f : field) : bytes :=
  splice (f_off f) (to_be_bytes (f_width f) (f_value f)) b.

Definition sample_unsummed : bytes :=
  fold_left put_field sample_fields (replicate 512 Byte.x00).

Definition sample_buf : bytes :=
  Eval vm_compute in
    splice offsets.CRC (to_le_bytes 4 (zeroed_crc sample_unsummed offsets.CRC))
      sample_unsummed.

Definition sample_sb : Superblock :=
  Eval vm_compute in
    match parse sample_buf with
    | Ok sb => sb
    | _ => mkSuperblock 0 0 0 [] 0 0 0 0 0 0 0 0 0 0 0 0 0 0 0 0 0 0 0 0 0 0 0 0 0 0 0
             [] [] 0 0 0 0 0 0 0 0 0 0 0 0 0 0 0 0 0 0 0 0
    end.

Lemma sample_parse : parse sample_buf = Ok sample_sb.
Proof. vm_compute. reflexivity. Qed.

Lemma sample_typed : sb_typed sample_sb.
Proof. by destruct (parse_Ok_inv _ _ sample_parse) as (? & ? & _ & _ & _ & ? & _). Qed.

Lemma sample_geometry : sb_geometry sample_sb.
Proof.
  destruct (parse_Ok_inv _ _ sample_parse) as (? & ? & _ & _ & _ & ? & ?).
  by apply validate_spec.
Qed.

(** ** The theorems about superblocks, on it *)

Lemma parse_sound_witness : sb_geometry sample_sb /\ rd 4 offsets.MAGIC sample_buf = XFS_SB_MAGIC.
Proof. destruct (parse_sound sample_buf sample_sb sample_parse) as (_ & ? & ? & _). done. Defined.

Lemma validate_exact_witness : validate sample_sb = Ok tt.
Proof. apply (validate_exact sample_sb sample_typed), sample_geometry. Defined.

Lemma extent_in_bounds_exact_witness :
  exists agno agbno, 2048 + 100 = agno * 2 ^ sb_agblklog sample_sb + agbno /\ ag_extent sample_sb agno agbno 8.
Proof.
  apply (extent_in_bounds_exact sample_sb (2048 + 100) 8 sample_typed sample_geometry);
    [unfold in_u; lia|unfold in_u; lia|reflexivity].
Defined.

Lemma fsblock_offset_in_bounds_witness :
  fsblock_offset sample_sb (2048 + 100 + 3) = fsblock_offset sample_sb (2048 + 100) + 3 * 512.
Proof.
  destruct (fsblock_offset_in_bounds sample_sb (2048 + 100) 8 3 sample_typed sample_geometry) as [H _];
    [cbn; lia|unfold in_u; lia|unfold in_u; lia|reflexivity|lia|exact H].
Defined.

Lemma fsblock_offset_inj_witness : fsblock_offset sample_sb 5 = 5 * 512 /\ 5 = 4 + 1.
Proof.
  split; [reflexivity|].
  apply (fsblock_offset_inj sample_sb 5 (4 + 1) sample_typed sample_geometry);
    [cbn; lia|unfold in_u; lia|unfold in_u; lia|reflexivity|reflexivity|reflexivity].
Defined.

Lemma split_join_ino_witness : split_ino sample_sb (join_ino sample_sb 1 77) = (1, 38, 1).
Proof.
  destruct (split_join_ino sample_sb 1 77 sample_typed sample_geometry) as [H _];
    [cbn; lia|cbn; lia|cbn; lia|exact H].
Defined.
