(* ===== verification/Ag.v ===== *)
(** * Allocation group headers: the AGF and the AGI ([src/src/ag.rs])

    Parsers of the two headers with the identity checks a v5 header carries:
    a checksum over the whole sector, the filesystem's UUID and the group the
    header says it describes. *)

From Stdlib Require Import ZArith Lia Strings.String.
From stdpp Require Import base list strings.
From S2P Require Import Prelude Error Endian Crc32c Superblock Sample.

Definition XFS_AGF_MAGIC : Z := 0x58414746.
Definition XFS_AGI_MAGIC : Z := 0x58414749.
Definition XFS_AGFL_MAGIC : Z := 0x5841464c.
Definition XFS_AGF_SIZE : nat := 224.
Definition XFS_AGI_SIZE : nat := 344.
Definition XFS_AGI_UNLINKED_BUCKETS : nat := 64.

Module common.
Definition MAGIC : nat := 0.
Definition VERSIONNUM : nat := 4.
Definition SEQNO : nat := 8.
Definition LENGTH : nat := 12.
End common.

Module agf.
Definition ROOTS : nat := 16.
Definition LEVELS : nat := 28.
Definition FLFIRST : nat := 40.
Definition FLLAST : nat := 44.
Definition FLCOUNT : nat := 48.
Definition FREEBLKS : nat := 52.
Definition LONGEST : nat := 56.
Definition BTREEBLKS : nat := 60.
Definition UUID : nat := 64.
Definition RMAP_BLOCKS : nat := 80.
Definition REFCOUNT_BLOCKS : nat := 84.
Definition REFCOUNT_ROOT : nat := 88.
Definition REFCOUNT_LEVEL : nat := 92.
Definition LSN : nat := 208.
Definition CRC : nat := 216.
End agf.

Module agi.
Definition COUNT : nat := 16.
Definition ROOT : nat := 20.
Definition LEVEL : nat := 24.
Definition FREECOUNT : nat := 28.
Definition NEWINO : nat := 32.
Definition DIRINO : nat := 36.
Definition UNLINKED : nat := 40.
Definition UUID : nat := 296.
Definition CRC : nat := 312.
Definition LSN : nat := 320.
Definition FREE_ROOT : nat := 328.
Definition FREE_LEVEL : nat := 332.
End agi.

(** Index of each free-space tree in [agf_roots] and [agf_levels]. *)
Module agf_btree.
Definition BNO : nat := 0.
Definition CNT : nat := 1.
Definition RMAP : nat := 2.
End agf_btree.

Definition AGF_CRC_OFFSET : nat := agf.CRC.
Definition AGI_CRC_OFFSET : nat := agi.CRC.

Definition check_identity (what : string) (buf : bytes) (sb : Superblock)
    (uuid_off seqno_off : nat) (expected_ag : Z) : res unit :=
  uuid ← uuid_at buf uuid_off;
  fail_if (negb (bool_decide (uuid = sb_meta_uuid sb)))
    (BlockIdentityMismatch what expected_ag (umax 64));;
  seqno ← be32 buf seqno_off;
  fail_if (negb (seqno =? expected_ag)) (BlockIdentityMismatch what expected_ag seqno).

Record Agf := mkAgf {
  agf_seqno : Z;
  agf_length : Z;
  agf_roots : list Z;
  agf_levels : list Z;
  agf_flfirst : Z;
  agf_fllast : Z;
  agf_flcount : Z;
  agf_freeblks : Z;
  agf_longest : Z;
  agf_btreeblks : Z;
  agf_rmap_blocks : Z;
  agf_refcount_root : Z;
  agf_refcount_level : Z;
}.

Record Agi := mkAgi {
  agi_seqno : Z;
  agi_length : Z;
  agi_count : Z;
  agi_root : Z;
  agi_level : Z;
  agi_freecount : Z;
  agi_newino : Z;
  agi_free_root : Z;
  agi_free_level : Z;
  agi_unlinked : list Z;
}.

Section headers.
Context `{Crc : Crc32c}.

Definition verify_crc (what : string) (buf : bytes) (size crc_off : nat) (ag : Z) : res unit :=
  stored ← le32 buf crc_off;
  sector ← get_slice 0 size buf;
  computed ← crc32c_with_zeroed_crc sector crc_off;
  fail_if (negb (stored =? computed)) (ChecksumMismatch what ag).

Definition Agf_parse (buf : bytes) (sb : Superblock) (expected_ag : Z) : res Agf :=
  fail_if (length buf <? XFS_AGF_SIZE)%nat
    (bad "AGF needs {} bytes, got {}" [AZ (Z.of_nat XFS_AGF_SIZE); AZ (Z.of_nat (length buf))]);;
  magic ← be32 buf common.MAGIC;
  fail_if (negb (magic =? XFS_AGF_MAGIC))
    (bad "AGF for ag {} has magic {}, expected {}" [AZ expected_ag; AZ magic; AZ XFS_AGF_MAGIC]);;
  (if is_v5 sb then
     verify_crc "AGF" buf (Z.to_nat (sb_sectsize sb)) AGF_CRC_OFFSET expected_ag;;
     check_identity "AGF" buf sb agf.UUID common.SEQNO expected_ag
   else Ok tt);;
  seqno ← be32 buf common.SEQNO;
  len ← be32 buf common.LENGTH;
  root0 ← be32 buf agf.ROOTS;
  root1 ← be32 buf (agf.ROOTS + 4);
  root2 ← be32 buf (agf.ROOTS + 8);
  level0 ← be32 buf agf.LEVELS;
  level1 ← be32 buf (agf.LEVELS + 4);
  level2 ← be32 buf (agf.LEVELS + 8);
  flfirst ← be32 buf agf.FLFIRST;
  fllast ← be32 buf agf.FLLAST;
  flcount ← be32 buf agf.FLCOUNT;
  freeblks ← be32 buf agf.FREEBLKS;
  longest ← be32 buf agf.LONGEST;
  btreeblks ← be32 buf agf.BTREEBLKS;
  rmap_blocks ← be32 buf agf.RMAP_BLOCKS;
  refcount_root ← be32 buf agf.REFCOUNT_ROOT;
  refcount_level ← be32 buf agf.REFCOUNT_LEVEL;
  let agf := {|
    agf_seqno := seqno; agf_length := len;
    agf_roots := [root0; root1; root2]; agf_levels := [level0; level1; level2];
    agf_flfirst := flfirst; agf_fllast := fllast; agf_flcount := flcount;
    agf_freeblks := freeblks; agf_longest := longest; agf_btreeblks := btreeblks;
    agf_rmap_blocks := rmap_blocks; agf_refcount_root := refcount_root;
    agf_refcount_level := refcount_level |} in
  fail_if (sb_agblocks sb <? agf_length agf)
    (bad "AGF ag {} length {} exceeds sb_agblocks {}"
      [AZ expected_ag; AZ (agf_length agf); AZ (sb_agblocks sb)]);;
  fail_if (agf_length agf <? agf_freeblks agf)
    (bad "AGF ag {} freeblks {} exceeds its own length {}"
      [AZ expected_ag; AZ (agf_freeblks agf); AZ (agf_length agf)]);;
  fail_if (agf_length agf <? agf_longest agf)
    (bad "AGF ag {} longest extent {} exceeds its own length {}"
      [AZ expected_ag; AZ (agf_longest agf); AZ (agf_length agf)]);;
  Ok agf.

Definition Agi_parse (buf : bytes) (sb : Superblock) (expected_ag : Z) : res Agi :=
  fail_if (length buf <? XFS_AGI_SIZE)%nat
    (bad "AGI needs {} bytes, got {}" [AZ (Z.of_nat XFS_AGI_SIZE); AZ (Z.of_nat (length buf))]);;
  magic ← be32 buf common.MAGIC;
  fail_if (negb (magic =? XFS_AGI_MAGIC))
    (bad "AGI for ag {} has magic {}, expected {}" [AZ expected_ag; AZ magic; AZ XFS_AGI_MAGIC]);;
  (if is_v5 sb then
     verify_crc "AGI" buf (Z.to_nat (sb_sectsize sb)) AGI_CRC_OFFSET expected_ag;;
     check_identity "AGI" buf sb agi.UUID common.SEQNO expected_ag
   else Ok tt);;
  unlinked ← res_map (fun i => be32 buf (agi.UNLINKED + i * 4))
                     (seq 0 XFS_AGI_UNLINKED_BUCKETS);
  seqno ← be32 buf common.SEQNO;
  len ← be32 buf common.LENGTH;
  count ← be32 buf agi.COUNT;
  root ← be32 buf agi.ROOT;
  level ← be32 buf agi.LEVEL;
  freecount ← be32 buf agi.FREECOUNT;
  newino ← be32 buf agi.NEWINO;
  free_root ← be32 buf agi.FREE_ROOT;
  free_level ← be32 buf agi.FREE_LEVEL;
  let agi := {|
    agi_seqno := seqno; agi_length := len; agi_count := count; agi_root := root;
    agi_level := level; agi_freecount := freecount; agi_newino := newino;
    agi_free_root := free_root; agi_free_level := free_level; agi_unlinked := unlinked |} in
  fail_if (agi_count agi <? agi_freecount agi)
    (bad "AGI ag {} freecount {} exceeds count {}"
      [AZ expected_ag; AZ (agi_freecount agi); AZ (agi_count agi)]);;
  fail_if (agi_level agi =? 0)
    (bad "AGI ag {} inode btree has level 0" [AZ expected_ag]);;
  Ok agi.
End headers.

(** [self.levels[agf_btree::RMAP] > 0] *)
Definition has_rmap (a : Agf) : bool := 0 <? nth agf_btree.RMAP (agf_levels a) 0.
(** [NULLAGINO] marks an empty bucket. *)
Definition has_unlinked_inodes (a : Agi) : bool :=
  existsb (fun b => negb (b =? umax 32)) (agi_unlinked a).

Definition agf_lsn (buf : bytes) : res Z := be64 buf agf.LSN.
Definition agi_lsn (buf : bytes) : res Z := be64 buf agi.LSN.

(** ** What an accepted header says *)

Section facts.
Context `{Crc : Crc32c} (sb : Superblock) (Hty : sb_typed sb) (Hgeo : sb_geometry sb).

(** A v5 header is the one asked for. *)
Record identified (buf : bytes) (crc_off uuid_off : nat) (ag : Z) : Prop := {
  id_crc : rd_le 4 crc_off buf =
           zeroed_crc (take (Z.to_nat (sb_sectsize sb)) buf) crc_off;
  id_uuid : slice uuid_off 16 buf = sb_meta_uuid sb;
  id_ag : rd 4 common.SEQNO buf = ag;
}.

Lemma sectsize_ge : 512 <= sb_sectsize sb.
Proof.
  destruct Hgeo as [_ [? ->]]. change 512 with (2 ^ 9). apply Z.pow_le_mono_r; lia.
Qed.

Lemma v5_checks_spec what buf crc_off uuid_off ag :
  (Z.to_nat (sb_sectsize sb) <= length buf)%nat -> (crc_off + 4 <= 512)%nat ->
  (uuid_off + 16 <= 512)%nat ->
  let m := (verify_crc what buf (Z.to_nat (sb_sectsize sb)) crc_off ag;;
            check_identity what buf sb uuid_off common.SEQNO ag) in
  m <> Panic /\ (m = Ok tt <-> identified buf crc_off uuid_off ag).
Proof.
  intros Hl Hc Hu. pose proof sectsize_ge. cbv zeta.
  unfold verify_crc, check_identity. rewrite le32_Ok, get_slice_Ok by lia.
  cbn [mbind res_bind]. change (slice 0 ?n buf) with (take n buf).
  rewrite crc32c_with_zeroed_crc_Ok by (rewrite length_take; lia).
  rewrite uuid_at_Ok, be32_Ok by (cbn; lia). cbn [mbind res_bind].
  destruct (Z.eqb_spec (rd_le 4 crc_off buf)
    (zeroed_crc (take (Z.to_nat (sb_sectsize sb)) buf) crc_off)) as [E|E];
    cbn [negb fail_if mbind res_bind]; [|split; [done|split; [done|by intros []]]].
  case_bool_decide as Hid; cbn [negb fail_if mbind res_bind];
    [|split; [done|split; [done|by intros []]]].
  unfold fail_if. destruct (Z.eqb_spec (rd 4 common.SEQNO buf) ag); cbn [negb];
    (split; [done|split; [done|by intros []]]).
Qed.

Lemma Agf_parse_spec buf ag :
  (Z.to_nat (sb_sectsize sb) <= length buf)%nat ->
  Agf_parse buf sb ag <> Panic /\
  forall a, Agf_parse buf sb ag = Ok a ->
    agf_freeblks a <= agf_length a /\ agf_longest a <= agf_length a /\
    agf_length a <= sb_agblocks sb /\
    length (agf_roots a) = 3%nat /\ length (agf_levels a) = 3%nat /\
    (is_v5 sb = true -> agf_seqno a = ag /\ identified buf AGF_CRC_OFFSET agf.UUID ag).
Proof.
  intros Hl. pose proof sectsize_ge.
  pose proof (v5_checks_spec "AGF" buf AGF_CRC_OFFSET agf.UUID ag Hl
                ltac:(cbn; lia) ltac:(cbn; lia)) as [Hnp Hid].
  unfold Agf_parse, XFS_AGF_SIZE. rewrite (proj2 (Nat.ltb_ge _ _)) by lia.
  cbn [fail_if mbind res_bind]. rewrite !be32_Ok by (cbn; lia). cbn [mbind res_bind].
  destruct (_ =? XFS_AGF_MAGIC); cbn [negb fail_if mbind res_bind]; [|done].
  split.
  - apply bind_not_Panic; [by case_match|]. intros _ _.
    repeat (apply bind_not_Panic; [apply fail_if_not_Panic|intros _ _]). done.
  - intros a Ha. apply bind_Ok in Ha as ([] & Hv & Ha).
    rewrite !guard_Ok in Ha. destruct Ha as (L1 & L2 & L3 & [= <-]).
    apply Z.ltb_ge in L1, L2, L3. split_and!; try done.
    intros Hv5. rewrite Hv5 in Hv. apply Hid in Hv as Hi. split; [apply Hi|done].
Qed.

(** An accepted AGF is the AGF of the group it was read for, and its
    counts lie inside the group; the parser cannot panic on a whole
    sector. *)
Theorem Agf_parse_sound buf ag :
  (Z.to_nat (sb_sectsize sb) <= length buf)%nat ->
  Agf_parse buf sb ag <> Panic /\
  forall a, Agf_parse buf sb ag = Ok a ->
    agf_freeblks a <= agf_length a /\ agf_longest a <= agf_length a /\
    agf_length a <= sb_agblocks sb /\
    length (agf_roots a) = 3%nat /\ length (agf_levels a) = 3%nat /\
    (is_v5 sb = true -> agf_seqno a = ag /\ identified buf AGF_CRC_OFFSET agf.UUID ag).
Proof. apply Agf_parse_spec. Qed.

(** Likewise for the AGI. *)
Theorem Agi_parse_sound buf ag :
  (Z.to_nat (sb_sectsize sb) <= length buf)%nat ->
  Agi_parse buf sb ag <> Panic /\
  forall a, Agi_parse buf sb ag = Ok a ->
    agi_freecount a <= agi_count a /\ 0 < agi_level a /\
    length (agi_unlinked a) = XFS_AGI_UNLINKED_BUCKETS /\
    (is_v5 sb = true -> agi_seqno a = ag /\ identified buf AGI_CRC_OFFSET agi.UUID ag).
Proof.
  intros Hl. pose proof sectsize_ge.
  pose proof (v5_checks_spec "AGI" buf AGI_CRC_OFFSET agi.UUID ag Hl
                ltac:(cbn; lia) ltac:(cbn; lia)) as [Hnp Hid].
  unfold Agi_parse, XFS_AGI_SIZE. rewrite (proj2 (Nat.ltb_ge _ _)) by lia.
  cbn [fail_if mbind res_bind].
  assert (Hu : exists u, res_map (fun i => be32 buf (agi.UNLINKED + i * 4))
            (seq 0 XFS_AGI_UNLINKED_BUCKETS) = Ok u /\ length u = 64%nat).
  { exists ((fun i => rd 4 (agi.UNLINKED + i * 4) buf) <$> seq 0 XFS_AGI_UNLINKED_BUCKETS).
    split; [|done]. apply res_map_Ok, Forall2_fmap_r, Forall2_same_length_lookup_2; [done|].
    intros i x y Hx Hy. rewrite Hx in Hy; injection Hy as <-.
    apply lookup_seq in Hx as [-> Hi]. unfold XFS_AGI_UNLINKED_BUCKETS in Hi.
    apply be32_Ok. unfold agi.UNLINKED. lia. }
  destruct Hu as (u & -> & Hu).
  rewrite !be32_Ok by (cbn; lia). cbn [mbind res_bind].
  destruct (_ =? XFS_AGI_MAGIC); cbn [negb fail_if mbind res_bind]; [|done].
  split.
  - apply bind_not_Panic; [by case_match|]. intros _ _.
    repeat (apply bind_not_Panic; [apply fail_if_not_Panic|intros _ _]). done.
  - intros a Ha. apply bind_Ok in Ha as ([] & Hv & Ha).
    rewrite !guard_Ok in Ha. destruct Ha as (L1 & L2 & [= <-]).
    apply Z.ltb_ge in L1. apply Z.eqb_neq in L2.
    pose proof (rd_u32 agi.LEVEL buf) as [? _]. cbn [agi_level] in L2.
    split_and!; [done|cbn [agi_level]; lia|done|].
    intros Hv5. rewrite Hv5 in Hv. apply Hid in Hv as Hi. split; [apply Hi|done].
Qed.
End facts.

(** ** The headers of group 1 of the sample volume *)

Definition summed (off : nat) (b : bytes) : bytes := splice off (to_le_bytes 4 (zeroed_crc b off)) b.
Definition sample_agf_sector : bytes :=
  summed agf.CRC (splice agf.UUID (sb_meta_uuid sample_sb)
    (fold_left put_field
       [F common.MAGIC 4 XFS_AGF_MAGIC; F common.VERSIONNUM 4 1; F common.SEQNO 4 1;
        F common.LENGTH 4 2048; F agf.ROOTS 4 1; F (agf.ROOTS + 4) 4 2; F agf.LEVELS 4 1;
        F (agf.LEVELS + 4) 4 1; F agf.FREEBLKS 4 100; F agf.LONGEST 4 60]
       (replicate 512 Byte.x00))).
Definition sample_agi_sector : bytes :=
  summed agi.CRC (splice agi.UUID (sb_meta_uuid sample_sb)
    (fold_left put_field
       [F common.MAGIC 4 XFS_AGI_MAGIC; F common.VERSIONNUM 4 1; F common.SEQNO 4 1;
        F common.LENGTH 4 2048; F agi.COUNT 4 64; F agi.ROOT 4 3; F agi.LEVEL 4 1;
        F agi.FREECOUNT 4 10]
       (replicate 512 Byte.x00))).

Lemma Agf_parse_sound_witness :
  exists a, Agf_parse sample_agf_sector sample_sb 1 = Ok a /\ agf_longest a <= 2048 /\ agf_seqno a = 1.
Proof.
  destruct (Agf_parse_sound sample_sb sample_geometry sample_agf_sector 1) as [_ H].
  - apply Nat.leb_le. vm_compute. reflexivity.
  - destruct (Agf_parse sample_agf_sector sample_sb 1) as [a| |] eqn:E; [|vm_compute in E; congruence..].
    clear E. exists a. split; [reflexivity|]. destruct (H a eq_refl) as (H1 & H2 & H3 & _ & _ & Hv).
    destruct (Hv eq_refl) as [Hs _]. change (sb_agblocks sample_sb) with 2048 in H3. lia.
Defined.

Lemma Agi_parse_sound_witness :
  exists a, Agi_parse sample_agi_sector sample_sb 1 = Ok a /\ agi_freecount a <= agi_count a /\ agi_seqno a = 1.
Proof.
  destruct (Agi_parse_sound sample_sb sample_geometry sample_agi_sector 1) as [_ H].
  - apply Nat.leb_le. vm_compute. reflexivity.
  - destruct (Agi_parse sample_agi_sector sample_sb 1) as [a| |] eqn:E; [|vm_compute in E; congruence..].
    clear E. exists a. split; [reflexivity|]. destruct (H a eq_refl) as (H1 & _ & _ & Hv).
    destruct (Hv eq_refl) as [Hs _]. split; [exact H1|exact Hs].
Defined.
