(* ===== verification/Agfl.v ===== *)
(** * The allocation group free list ([src/src/agfl.rs])

    A ring of block numbers in the group's fourth sector.  [entries_of] is the
    queue the ring stands for: [put] appends to it and [take] removes its
    head. *)

From Stdlib Require Import ZArith Lia Strings.String.
From stdpp Require Import base list strings.
From S2P Require Import Prelude Error Endian Crc32c Superblock Sample Ag.

Module offsets.
Definition MAGIC : nat := 0.
Definition SEQNO : nat := 4.
Definition UUID : nat := 8.
Definition LSN : nat := 24.
Definition CRC : nat := 32.
End offsets.

Definition V5_HEADER_LEN : nat := 36.
Definition ENTRY_LEN : nat := 4.
Definition NULLAGBLOCK : Z := umax 32.

Definition header_len (sb : Superblock) : nat := if is_v5 sb then V5_HEADER_LEN else 0.

Definition capacity (sb : Superblock) : nat :=
  ((Z.to_nat (sb_sectsize sb) - header_len sb) / ENTRY_LEN)%nat.

Definition last_header_block (sb : Superblock) : Z :=
  wrap 32 (3 * sb_sectsize sb / sb_blocksize sb).

Record Agfl := mkAgfl {
  fl_raw : bytes;
  fl_first : Z;
  fl_last : Z;
  fl_count : Z;
  fl_capacity : nat;
  fl_length : Z;
}.

(** [u32::swap_bytes] *)
Definition swap_bytes (z : Z) : Z := from_le_bytes (to_be_bytes 4 z).

Definition entry_at (sb : Superblock) (index : Z) : nat :=
  (header_len sb + Z.to_nat index * ENTRY_LEN)%nat.

Section agfl.
Context `{Crc : Crc32c}.

Definition parse (buf : bytes) (sb : Superblock) (a : Agf) (agno : Z) : res Agfl :=
  let capacity := capacity sb in
  fail_if (length buf <? Z.to_nat (sb_sectsize sb))%nat
    (bad "AG {}: the free list is {} bytes, shorter than a {}-byte sector"
      [AZ agno; AZ (Z.of_nat (length buf)); AZ (sb_sectsize sb)]);;
  (if is_v5 sb then
     magic ← be32 buf offsets.MAGIC;
     fail_if (negb (magic =? XFS_AGFL_MAGIC))
       (bad "AG {}: the free list has magic {}, expected {}"
         [AZ agno; AZ magic; AZ XFS_AGFL_MAGIC]);;
     stored ← be32 buf offsets.CRC;
     computed ← crc32c_with_zeroed_crc buf offsets.CRC;
     fail_if (negb (swap_bytes stored =? computed)) (ChecksumMismatch "AGFL" agno);;
     uuid ← uuid_at buf offsets.UUID;
     fail_if (negb (bool_decide (uuid = sb_meta_uuid sb)))
       (BlockIdentityMismatch "AGFL" agno (umax 64));;
     seqno ← be32 buf offsets.SEQNO;
     fail_if (negb (seqno =? agno)) (BlockIdentityMismatch "AGFL" agno seqno)
   else Ok tt);;
  let cap := Z.of_nat capacity in
  fail_if (negb (agf_flcount a =? 0) && ((cap <=? agf_flfirst a) || (cap <=? agf_fllast a)))
    (bad "AG {}: the free list runs between entries {} and {}, outside the {} entries the sector holds"
      [AZ agno; AZ (agf_flfirst a); AZ (agf_fllast a); AZ cap]);;
  let span := if agf_flcount a =? 0 then 0
              else wadd 32 (wsub 32 (wadd 32 (agf_fllast a) cap) (agf_flfirst a) mod cap) 1 in
  fail_if ((cap <? agf_flcount a) || negb (span =? agf_flcount a))
    (bad "AG {}: the free list says {} blocks between entries {} and {}, which spans {} of {}"
      [AZ agno; AZ (agf_flcount a); AZ (agf_flfirst a); AZ (agf_fllast a); AZ span; AZ cap]);;
  raw ← get_slice 0 (Z.to_nat (sb_sectsize sb)) buf;
  Ok {| fl_raw := raw; fl_first := agf_flfirst a; fl_last := agf_fllast a;
        fl_count := agf_flcount a; fl_capacity := capacity; fl_length := agf_length a |}.

Definition entries (fl : Agfl) (sb : Superblock) : res (list Z) :=
  res_map (fun i =>
      let index := wadd 32 (fl_first fl) i mod Z.of_nat (fl_capacity fl) in
      from_be_bytes <$> get_slice (entry_at sb index) 4 (fl_raw fl))
    (seqZ 0 (fl_count fl)).

(** [take] and [put] change the list only when they succeed; the list is
    returned with the result so that the error paths say so too. *)
Definition take (fl : Agfl) (sb : Superblock) (agno : Z) : Agfl * res Z :=
  if fl_count fl =? 0 then
    (fl, Err (UnsupportedFeature (fmt "allocation group {}'s free list is empty, and refilling it is not implemented; the tree cannot grow here" [AZ agno])))
  else
  match be32 (fl_raw fl) (entry_at sb (fl_first fl)) with
  | Ok block =>
      if (block =? NULLAGBLOCK) || (block <=? last_header_block sb) || (fl_length fl <=? block)
      then (fl, Err (bad "AG {}: free-list entry {} names block {}, which is not a block of a {}-block group past its headers"
                       [AZ agno; AZ (fl_first fl); AZ block; AZ (fl_length fl)]))
      else
        ({| fl_raw := fl_raw fl;
            fl_first := wadd 32 (fl_first fl) 1 mod Z.of_nat (fl_capacity fl);
            fl_last := fl_last fl; fl_count := wsub 32 (fl_count fl) 1;
            fl_capacity := fl_capacity fl; fl_length := fl_length fl |}, Ok block)
  | Err e => (fl, Err e)
  | Panic => (fl, Panic)
  end.

Definition put (fl : Agfl) (sb : Superblock) (agno block : Z) : Agfl * res unit :=
  if Z.of_nat (fl_capacity fl) <=? fl_count fl then
    (fl, Err (UnsupportedFeature (fmt "allocation group {}'s free list is full at {} blocks, and returning one to free space instead is not implemented"
                [AZ agno; AZ (Z.of_nat (fl_capacity fl))])))
  else
  let index := if fl_count fl =? 0 then fl_first fl
               else wadd 32 (fl_last fl) 1 mod Z.of_nat (fl_capacity fl) in
  match copy_at (entry_at sb index) (to_be_bytes 4 block) (fl_raw fl) with
  | Ok raw =>
      ({| fl_raw := raw;
          fl_first := if fl_count fl =? 0 then index else fl_first fl;
          fl_last := index; fl_count := wadd 32 (fl_count fl) 1;
          fl_capacity := fl_capacity fl; fl_length := fl_length fl |}, Ok tt)
  | Err e => (fl, Err e)
  | Panic => (fl, Panic)
  end.

Definition after (fl : Agfl) (sb : Superblock) : res bytes :=
  if is_v5 sb then
    crc ← crc32c_with_zeroed_crc (fl_raw fl) offsets.CRC;
    copy_at offsets.CRC (to_le_bytes 4 crc) (fl_raw fl)
  else Ok (fl_raw fl).
End agfl.

(** ** The queue the ring stands for *)

Definition ring_entry (sb : Superblock) (fl : Agfl) (i : Z) : Z :=
  rd 4 (entry_at sb ((fl_first fl + i) mod Z.of_nat (fl_capacity fl))) (fl_raw fl).
Definition entries_of (sb : Superblock) (fl : Agfl) : list Z :=
  ring_entry sb fl <$> seqZ 0 (fl_count fl).

(** The ring is inside its sector and its indices agree with its count. *)
Record fl_ok (sb : Superblock) (fl : Agfl) : Prop := {
  ok_raw : length (fl_raw fl) = Z.to_nat (sb_sectsize sb);
  ok_cap : fl_capacity fl = capacity sb;
  ok_first : 0 <= fl_first fl < Z.of_nat (capacity sb);
  ok_count : 0 <= fl_count fl <= Z.of_nat (capacity sb);
  ok_last : 0 < fl_count fl ->
    fl_last fl = (fl_first fl + fl_count fl - 1) mod Z.of_nat (capacity sb);
}.

(** A block of a group of [len] blocks, past the headers: what [take] hands
    out. *)
Definition takeable (sb : Superblock) (len block : Z) : Prop :=
  last_header_block sb < block < len /\ block <> NULLAGBLOCK.

Ltac fl_cbn := cbn [fl_raw fl_first fl_last fl_count fl_capacity fl_length].

Section queue.
Context (sb : Superblock) (Hty : sb_typed sb) (Hgeo : sb_geometry sb).

Lemma capacity_bounds :
  (0 < capacity sb)%nat /\ Z.of_nat (capacity sb) < 2 ^ 16 /\
  (header_len sb + capacity sb * 4 <= Z.to_nat (sb_sectsize sb))%nat /\
  (header_len sb <= 36)%nat.
Proof.
  pose proof (sectsize_ge sb Hgeo). pose proof (ty_sectsize _ Hty) as Hs. unfold in_u in Hs.
  unfold capacity, header_len, ENTRY_LEN, V5_HEADER_LEN.
  assert (forall n k, (k <= 36)%nat -> (512 <= n)%nat ->
    (0 < (n - k) / 4 /\ k + (n - k) / 4 * 4 <= n /\ (n - k) / 4 < n)%nat) as Hd.
  { intros n k Hk Hn. pose proof (Nat.div_mod_eq (n - k) 4).
    pose proof (Nat.mod_upper_bound (n - k) 4). lia. }
  destruct (is_v5 sb);
    [destruct (Hd (Z.to_nat (sb_sectsize sb)) 36%nat) as (? & ? & ?); lia|
     destruct (Hd (Z.to_nat (sb_sectsize sb)) 0%nat) as (? & ? & ?); lia].
Qed.

Lemma ring_inj c f i j :
  0 < c -> 0 <= i < c -> 0 <= j < c -> (f + i) mod c = (f + j) mod c -> i = j.
Proof.
  intros Hc Hi Hj H.
  assert (((f + i) - (f + j)) mod c = 0) as Hm.
  { rewrite Zminus_mod, H, Z.sub_diag. by apply Z.mod_0_l; lia. }
  replace (f + i - (f + j)) with (i - j) in Hm by lia.
  apply Z.mod_divide in Hm as [k Hk]; [|lia]. assert (k = 0) by nia. lia.
Qed.

Lemma entry_at_fits fl i :
  fl_ok sb fl -> 0 <= i < Z.of_nat (capacity sb) ->
  (entry_at sb i + 4 <= length (fl_raw fl))%nat.
Proof.
  intros [Hr _ _ _ _] Hi. destruct capacity_bounds as (? & ? & ? & ?).
  unfold entry_at, ENTRY_LEN. rewrite Hr. nia.
Qed.

Lemma ring_index f i : 0 <= (f + i) mod Z.of_nat (capacity sb) < Z.of_nat (capacity sb).
Proof. apply Z.mod_pos_bound. destruct capacity_bounds. lia. Qed.

Lemma entries_spec fl : fl_ok sb fl -> entries fl sb = Ok (entries_of sb fl).
Proof.
  intros Hok. pose proof Hok as [_ Hc Hf Hn _]. destruct capacity_bounds as (? & ? & ? & ?).
  unfold entries, entries_of. apply res_map_Ok, Forall2_fmap_r, Forall_Forall2_diag.
  apply Forall_forall. intros i Hi%elem_of_seqZ. cbv zeta.
  rewrite wadd_small, get_slice_Ok; [done| |lia].
  rewrite Hc. apply entry_at_fits; [done|apply ring_index].
Qed.

Lemma take_queue fl agno :
  fl_ok sb fl ->
  match entries_of sb fl with
  | [] => exists e, take fl sb agno = (fl, Err e)
  | b :: rest =>
      (takeable sb (fl_length fl) b /\
       exists fl', take fl sb agno = (fl', Ok b) /\ fl_ok sb fl' /\
                   entries_of sb fl' = rest /\ fl_length fl' = fl_length fl) \/
      (~ takeable sb (fl_length fl) b /\ exists e, take fl sb agno = (fl, Err e))
  end.
Proof.
  intros Hok. pose proof Hok as [Hr Hc Hf Hn Hl].
  destruct capacity_bounds as (Hc0 & Hc1 & _ & _).
  unfold entries_of, take.
  destruct (Z.eqb_spec (fl_count fl) 0) as [->|Hne]; [by eexists|].
  rewrite seqZ_cons by lia. cbn [fmap list_fmap].
  assert (Hfirst : (fl_first fl + 0) mod Z.of_nat (fl_capacity fl) = fl_first fl).
  { rewrite Hc, Z.add_0_r. apply Z.mod_small. lia. }
  assert (H0 : ring_entry sb fl 0 = rd 4 (entry_at sb (fl_first fl)) (fl_raw fl))
    by (unfold ring_entry; by rewrite Hfirst).
  rewrite H0, be32_Ok by (apply entry_at_fits; [done|lia]).
  set (b := rd 4 _ _).
  destruct ((b =? NULLAGBLOCK) || (b <=? last_header_block sb) || (fl_length fl <=? b)) eqn:E.
  - right. split; [|by eexists]. unfold takeable. intros [? ?].
    rewrite !orb_true_iff, Z.eqb_eq, !Z.leb_le in E. lia.
  - left. bool_prop. split; [unfold takeable; lia|].
    eexists. split; [done|]. rewrite wsub_small, wadd_small by lia.
    split; [constructor; fl_cbn; rewrite ?Hc; try done; try lia|split; [|done]].
    + apply Z.mod_pos_bound. lia.
    + intros ?. rewrite Hl by lia.
      replace ((fl_first fl + 1) mod Z.of_nat (capacity sb) + (fl_count fl - 1) - 1)
        with ((fl_first fl + 1) mod Z.of_nat (capacity sb) + (fl_count fl - 2)) by lia.
      rewrite Zplus_mod_idemp_l. f_equal. lia.
    + cbn [fl_count]. replace (Z.pred (fl_count fl)) with (fl_count fl - 1) by lia.
      change (Z.succ 0) with (1 + 0).
      rewrite <- (fmap_add_seqZ 1 0 (fl_count fl - 1)), <- list_fmap_compose.
      apply list_fmap_ext. intros i x Hx. unfold ring_entry. fl_cbn.
      rewrite Hc, Zplus_mod_idemp_l. cbn [compose]. do 3 f_equal. lia.
Qed.

Lemma put_queue fl agno b :
  fl_ok sb fl -> in_u 32 b ->
  (fl_count fl = Z.of_nat (capacity sb) /\ exists e, put fl sb agno b = (fl, Err e)) \/
  (fl_count fl < Z.of_nat (capacity sb) /\
   exists fl', put fl sb agno b = (fl', Ok tt) /\ fl_ok sb fl' /\
               entries_of sb fl' = entries_of sb fl ++ [b] /\ fl_length fl' = fl_length fl).
Proof.
  intros Hok Hb. pose proof Hok as [Hr Hc Hf Hn Hl].
  destruct capacity_bounds as (Hc0 & Hc1 & Hfit & _).
  unfold put. rewrite Hc.
  destruct (Z.leb_spec (Z.of_nat (capacity sb)) (fl_count fl)) as [Hfull|Hroom];
    [left; split; [lia|by eexists]|right; split; [done|]].
  set (c := Z.of_nat (capacity sb)) in *.
  set (idx := if fl_count fl =? 0 then fl_first fl else wadd 32 (fl_last fl) 1 mod c).
  assert (Hidx : idx = (fl_first fl + fl_count fl) mod c).
  { subst idx. destruct (Z.eqb_spec (fl_count fl) 0) as [->|].
    - rewrite Z.add_0_r, Z.mod_small by lia. done.
    - rewrite Hl, wadd_small by
        (try lia; pose proof (Z.mod_pos_bound (fl_first fl + fl_count fl - 1) c); lia).
      rewrite Zplus_mod_idemp_l. f_equal. lia. }
  assert (Hir : 0 <= idx < c) by (rewrite Hidx; apply ring_index).
  assert (Hat : (entry_at sb idx + length (to_be_bytes 4 b) <= length (fl_raw fl))%nat).
  { rewrite length_to_be_bytes. by apply entry_at_fits. }
  rewrite copy_at_Ok by done. eexists. split; [done|].
  assert (Hfst : (if fl_count fl =? 0 then idx else fl_first fl) = fl_first fl).
  { subst idx. by case_match. }
  rewrite Hfst, wadd_small by lia.
  split; [constructor; fl_cbn; rewrite ?length_splice; try done; try lia|split; [|done]].
  - intros _. rewrite Hidx. f_equal. lia.
  - unfold entries_of. cbn [fl_count]. rewrite (seqZ_app 0 (fl_count fl) 1) by lia.
    rewrite fmap_app. f_equal.
    + apply list_fmap_ext. intros k i Hi. apply list_elem_of_lookup_2, elem_of_seqZ in Hi.
      unfold ring_entry. fl_cbn. rewrite Hc. fold c. apply rd_splice_disjoint; [done|].
      rewrite length_to_be_bytes.
      pose proof (ring_index (fl_first fl) i) as Hri. fold c in Hri.
      assert ((fl_first fl + i) mod c <> idx) as Hne.
      { rewrite Hidx. intros H. apply ring_inj in H; lia. }
      unfold entry_at, ENTRY_LEN. lia.
    + rewrite seqZ_cons, seqZ_nil by lia. cbn [fmap list_fmap]. f_equal.
      unfold ring_entry. fl_cbn. rewrite Z.add_0_l. fold c. rewrite <- Hidx.
      apply rd_splice_same; [by apply entry_at_fits|done].
Qed.
End queue.

(** ** The abstract free list: a bounded queue *)

Inductive fl_op := OpTake | OpPut (block : Z).
Inductive fl_result := Took (block : Z) | Stored | Refused | Crashed.

Module Queue.
(** A queue of at most [cap] blocks of a group of [len] blocks. *)
Definition step (sb : Superblock) (len cap : Z) (q : list Z) (op : fl_op)
    : list Z * fl_result :=
  match op, q with
  | OpTake, [] => (q, Refused)
  | OpTake, b :: rest =>
      if (b =? NULLAGBLOCK) || (b <=? last_header_block sb) || (len <=? b)
      then (q, Refused) else (rest, Took b)
  | OpPut b, _ =>
      if Z.of_nat (length q) <? cap then (q ++ [b], Stored) else (q, Refused)
  end.

Fixpoint run (sb : Superblock) (len cap : Z) (q : list Z) (ops : list fl_op)
    : list Z * list fl_result :=
  match ops with
  | [] => (q, [])
  | op :: ops =>
      let '(q, r) := step sb len cap q op in
      let '(q, rs) := run sb len cap q ops in (q, r :: rs)
  end.
End Queue.

Definition fl_step (sb : Superblock) (agno : Z) (fl : Agfl) (op : fl_op) : Agfl * fl_result :=
  match op with
  | OpTake =>
      match take fl sb agno with
      | (fl, Ok b) => (fl, Took b)
      | (fl, Err _) => (fl, Refused)
      | (fl, Panic) => (fl, Crashed)
      end
  | OpPut b =>
      match put fl sb agno b with
      | (fl, Ok _) => (fl, Stored)
      | (fl, Err _) => (fl, Refused)
      | (fl, Panic) => (fl, Crashed)
      end
  end.

Fixpoint fl_run (sb : Superblock) (agno : Z) (fl : Agfl) (ops : list fl_op)
    : Agfl * list fl_result :=
  match ops with
  | [] => (fl, [])
  | op :: ops =>
      let '(fl, r) := fl_step sb agno fl op in
      let '(fl, rs) := fl_run sb agno fl ops in (fl, r :: rs)
  end.

Definition op_ok (op : fl_op) : Prop :=
  match op with OpTake => True | OpPut b => in_u 32 b end.

Lemma takeable_test sb len b :
  (b =? NULLAGBLOCK) || (b <=? last_header_block sb) || (len <=? b) = false <->
  takeable sb len b.
Proof.
  unfold takeable. rewrite !orb_false_iff, Z.eqb_neq, !Z.leb_gt. naive_solver lia.
Qed.

Lemma length_entries_of sb fl : fl_ok sb fl -> Z.of_nat (length (entries_of sb fl)) = fl_count fl.
Proof. intros []. unfold entries_of. rewrite length_fmap, length_seqZ. lia. Qed.

Lemma fl_step_refines sb agno fl op :
  sb_typed sb -> sb_geometry sb -> fl_ok sb fl -> op_ok op ->
  let '(fl', r) := fl_step sb agno fl op in
  fl_ok sb fl' /\ fl_length fl' = fl_length fl /\
  Queue.step sb (fl_length fl) (Z.of_nat (capacity sb)) (entries_of sb fl) op =
    (entries_of sb fl', r).
Proof.
  intros Hty Hgeo Hok Hop. destruct op as [|b]; cbn [fl_step Queue.step].
  - pose proof (take_queue sb Hty Hgeo fl agno Hok) as H.
    destruct (entries_of sb fl) as [|b rest] eqn:E.
    + destruct H as [e ->]. by rewrite E.
    + destruct H as [[Ht (fl' & -> & Hok' & He & Hlen)]|[Hnt [e ->]]].
      * rewrite (proj2 (takeable_test sb _ b) Ht), He. done.
      * destruct (_ || _) eqn:Et; [by rewrite E|]. by apply takeable_test in Et.
  - pose proof (length_entries_of sb fl Hok) as Hlen.
    destruct (put_queue sb Hty Hgeo fl agno b Hok Hop)
      as [[Hfull [e ->]]|[Hroom (fl' & -> & Hok' & He & Hl')]].
    + rewrite (proj2 (Z.ltb_ge _ _)) by lia. done.
    + rewrite (proj2 (Z.ltb_lt _ _)) by lia. by rewrite He.
Qed.

Lemma fl_run_refines sb agno fl ops :
  sb_typed sb -> sb_geometry sb -> fl_ok sb fl -> Forall op_ok ops ->
  let '(fl', rs) := fl_run sb agno fl ops in
  fl_ok sb fl' /\ Crashed ∉ rs /\ entries fl' sb = Ok (entries_of sb fl') /\
  Queue.run sb (fl_length fl) (Z.of_nat (capacity sb)) (entries_of sb fl) ops =
    (entries_of sb fl', rs).
Proof.
  intros Hty Hgeo Hok Hops. revert fl Hok.
  induction Hops as [|op ops Hop Hops IH]; intros fl Hok; cbn [fl_run Queue.run].
  { split_and!; [done|by intros ?%elem_of_nil|by apply entries_spec|done]. }
  pose proof (fl_step_refines sb agno fl op Hty Hgeo Hok Hop) as Hs.
  destruct (fl_step sb agno fl op) as [fl1 r]. destruct Hs as (Hok1 & Hlen & Hs).
  rewrite Hs. specialize (IH fl1 Hok1). rewrite Hlen in IH.
  destruct (fl_run sb agno fl1 ops) as [fl2 rs]. destruct IH as (Hok2 & Hnc & He & Hr).
  rewrite Hr. split_and!; try done. intros [<-|]%elem_of_cons; [|done].
  revert Hs. unfold Queue.step. repeat case_match; congruence.
Qed.

(** ** Reading the list, and writing it back *)

Section sector.
Context `{Crc : Crc32c} (sb : Superblock) (Hty : sb_typed sb) (Hgeo : sb_geometry sb).

(** What the AGF must say for [parse] to accept its list. *)
Definition agf_describes (a : Agf) : Prop :=
  in_u 32 (agf_flfirst a) /\ in_u 32 (agf_fllast a) /\ in_u 32 (agf_flcount a).

Lemma span_spec cap first last count :
  0 < cap < 2 ^ 16 -> 0 <= first < cap -> 0 <= last < cap -> 0 < count <= cap ->
  wadd 32 (wsub 32 (wadd 32 last cap) first mod cap) 1 = count <->
  last = (first + count - 1) mod cap.
Proof.
  intros Hc Hf Hl Hn. rewrite (wadd_small 32 last), wsub_small by lia.
  pose proof (Z.mod_pos_bound (last + cap - first) cap ltac:(lia)).
  rewrite wadd_small by lia. split; intros H'.
  - rewrite <- (Z.mod_small last cap) by done.
    replace (first + count - 1) with (first + (count - 1)) by lia.
    replace (count - 1) with ((last + cap - first) mod cap) by lia.
    rewrite Zplus_mod_idemp_r. replace (first + (last + cap - first)) with (last + 1 * cap)
      by lia. by rewrite Z.mod_add by lia.
  - rewrite H'. replace ((first + count - 1) mod cap + cap - first)
      with ((first + count - 1) mod cap + (cap - first)) by lia.
    rewrite Zplus_mod_idemp_l.
    replace (first + count - 1 + (cap - first)) with ((count - 1) + 1 * cap) by lia.
    rewrite Z.mod_add, Z.mod_small by lia. lia.
Qed.

(** What [parse] accepts is a ring whose indices, count and sector agree,
    provided an empty list's [agf_flfirst] is an index of the ring. *)
Lemma parse_fl_ok buf a agno fl :
  agf_describes a -> parse buf sb a agno = Ok fl ->
  0 < agf_flcount a \/ agf_flfirst a < Z.of_nat (capacity sb) ->
  fl_ok sb fl /\ fl_raw fl = list.take (Z.to_nat (sb_sectsize sb)) buf /\
  fl_count fl = agf_flcount a /\ fl_length fl = agf_length a.
Proof.
  intros (Hf & Hl & Hc) Hp Hemp. unfold in_u in *.
  destruct (capacity_bounds sb Hty Hgeo) as (Hc0 & Hc1 & _ & _).
  unfold parse in Hp. rewrite guard_Ok in Hp. destruct Hp as [Hlen Hp].
  apply bind_Ok in Hp as (_ & _ & Hp). rewrite !guard_Ok in Hp.
  destruct Hp as (Hidx & Hspan & Hp). res_inv. cbn [fl_raw fl_count fl_length].
  apply Nat.ltb_ge in Hlen. apply orb_false_iff in Hspan as [Hle Hspan].
  apply Z.ltb_ge in Hle. apply negb_false_iff, Z.eqb_eq in Hspan.
  split_and!; try done. constructor; fl_cbn.
  - apply length_slice. lia.
  - done.
  - destruct (Z.eqb_spec (agf_flcount a) 0) as [H0|]; [lia|].
    cbn [negb andb] in Hidx. apply orb_false_iff in Hidx as [?%Z.leb_gt _]. lia.
  - lia.
  - intros Hpos. destruct (Z.eqb_spec (agf_flcount a) 0) as [H0|]; [lia|].
    cbn [negb andb] in Hidx. apply orb_false_iff in Hidx as [?%Z.leb_gt ?%Z.leb_gt].
    apply span_spec in Hspan; lia.
Qed.

Lemma parse_fl_count buf a agno fl :
  agf_describes a -> parse buf sb a agno = Ok fl -> fl_count fl = agf_flcount a /\ fl_length fl = agf_length a.
Proof.
  intros _ Hp. unfold parse in Hp. rewrite guard_Ok in Hp. destruct Hp as [_ Hp].
  apply bind_Ok in Hp as (_ & _ & Hp). rewrite !guard_Ok in Hp. destruct Hp as (_ & _ & Hp). res_inv. done.
Qed.
End sector.

Ltac off_lia :=
  unfold offsets.MAGIC, offsets.SEQNO, offsets.UUID, offsets.LSN, offsets.CRC,
    V5_HEADER_LEN, ENTRY_LEN in *; lia.

Section rewrite.
Context `{Crc : Crc32c} (sb : Superblock) (Hty : sb_typed sb) (Hgeo : sb_geometry sb).

(** The header of a v5 list names this filesystem and this group. *)
Record fl_identified (agno : Z) (raw : bytes) : Prop := {
  fid_magic : rd 4 offsets.MAGIC raw = XFS_AGFL_MAGIC;
  fid_uuid : slice offsets.UUID 16 raw = sb_meta_uuid sb;
  fid_seqno : rd 4 offsets.SEQNO raw = agno;
}.

Lemma swap_bytes_rd off b :
  (off + 4 <= length b)%nat -> swap_bytes (rd 4 off b) = rd_le 4 off b.
Proof.
  intros H. unfold swap_bytes, rd, rd_le. rewrite to_from_be_bytes' by by apply length_slice.
  done.
Qed.

Lemma put_keeps_header fl agno b fl' r :
  fl_ok sb fl -> is_v5 sb = true -> put fl sb agno b = (fl', r) ->
  list.take 32 (fl_raw fl') = list.take 32 (fl_raw fl).
Proof.
  intros Hok Hv5. unfold put. 
  repeat case_match; intros [= <- <-]; try done; fl_cbn;
    (match goal with H : copy_at _ _ _ = Ok _ |- _ => apply copy_at_inv in H as [? ->] end;
     apply take_splice_before; [done|]; unfold entry_at, header_len, V5_HEADER_LEN;
     rewrite Hv5; lia).
Qed.

Lemma fl_run_keeps_header agno ops fl :
  fl_ok sb fl -> is_v5 sb = true -> Forall op_ok ops ->
  list.take 32 (fl_raw (fl_run sb agno fl ops).1) = list.take 32 (fl_raw fl).
Proof.
  intros Hok Hv5 Hops. revert fl Hok.
  induction Hops as [|op ops Hop Hops IH]; intros fl Hok; [done|]. cbn [fl_run].
  pose proof (fl_step_refines sb agno fl op Hty Hgeo Hok Hop) as Hs.
  assert (Hh : list.take 32 (fl_raw (fl_step sb agno fl op).1) = list.take 32 (fl_raw fl)).
  { destruct op as [|b]; cbn [fl_step].
    - unfold take. repeat case_match; simplify_eq; done.
    - destruct (put fl sb agno b) as [fl' r] eqn:Hp.
      rewrite <- (put_keeps_header fl agno b fl' r) by done. by repeat case_match. }
  destruct (fl_step sb agno fl op) as [fl1 r]. destruct Hs as (Hok1 & _ & _).
  specialize (IH fl1 Hok1). destruct (fl_run sb agno fl1 ops) as [fl2 rs]. cbn in *. congruence.
Qed.

Lemma take_rd n off k (b b' : bytes) :
  list.take k b = list.take k b' -> (off + n <= k)%nat -> slice off n b = slice off n b'.
Proof.
  intros H Hk. unfold slice. rewrite !take_drop_commute.
  assert (list.take (off + n) b = list.take (off + n) b') as ->; [|done].
  rewrite <- (Nat.min_l (off + n) k), <- !take_take by done. by rewrite H.
Qed.

(** The header that describes a list as it stands. *)
Definition agf_of (fl : Agfl) : Agf :=
  mkAgf 0 (fl_length fl) [] [] (fl_first fl) (fl_last fl) (fl_count fl) 0 0 0 0 0 0.

Lemma after_parse fl agno `{!Crc32cLaws} :
  fl_ok sb fl -> is_v5 sb = true -> fl_identified agno (fl_raw fl) ->
  exists out fl', after fl sb = Ok out /\ parse out sb (agf_of fl) agno = Ok fl' /\
    fl_ok sb fl' /\ entries_of sb fl' = entries_of sb fl /\ fl_length fl' = fl_length fl.
Proof.
  intros Hok Hv5 [Hm Hu Hs]. pose proof Hok as [Hr Hc Hf Hn Hl].
  destruct (capacity_bounds sb Hty Hgeo) as (Hc0 & Hc1 & _ & _).
  pose proof (sectsize_ge sb Hgeo) as Hsec. set (raw := fl_raw fl) in *.
  set (crc := zeroed_crc raw offsets.CRC).
  pose proof (zeroed_crc_range raw offsets.CRC) as Hcrc. fold crc in Hcrc.
  assert (Hfit : (offsets.CRC + length (to_le_bytes 4 crc) <= length raw)%nat).
  { rewrite length_to_le_bytes, Hr. unfold offsets.CRC. lia. }
  set (out := splice offsets.CRC (to_le_bytes 4 crc) raw).
  assert (Hol : length out = Z.to_nat (sb_sectsize sb)) by by (unfold out; rewrite length_splice).
  assert (Hid : fl_identified agno out).
  { split; unfold out; rewrite ?rd_splice_disjoint, ?slice_splice_disjoint;
      try done; left; off_lia. }
  exists out, {| fl_raw := out; fl_first := fl_first fl; fl_last := fl_last fl;
    fl_count := fl_count fl; fl_capacity := capacity sb; fl_length := fl_length fl |}.
  split; [|split; [|split; [by constructor|split; [|done]]]].
  - unfold after. rewrite Hv5. fold raw.
    rewrite crc32c_with_zeroed_crc_Ok by (rewrite Hr; off_lia).
    cbn [mbind res_bind]. by rewrite copy_at_Ok.
  - unfold parse. rewrite (proj2 (Nat.ltb_ge _ _)) by lia. cbn [fail_if mbind res_bind].
    rewrite Hv5, !be32_Ok, uuid_at_Ok by (rewrite Hol; off_lia).
    rewrite crc32c_with_zeroed_crc_Ok by (rewrite Hol; off_lia).
    cbn [mbind res_bind]. rewrite swap_bytes_rd by (rewrite Hol; off_lia).
    destruct Hid as [-> -> ->].
    assert (rd_le 4 offsets.CRC out = crc) as ->
      by (apply rd_le_splice_same; [rewrite Hr; off_lia|done]).
    assert (zeroed_crc out offsets.CRC = crc) as ->
      by (apply zeroed_crc_splice; [apply length_to_le_bytes|rewrite Hr; off_lia]).
    cbn [mbind res_bind]. rewrite !Z.eqb_refl, bool_decide_eq_true_2 by done.
    cbn [negb fail_if mbind res_bind agf_flcount agf_of agf_flfirst agf_fllast agf_length].
    assert (H1 : negb (fl_count fl =? 0) &&
      ((Z.of_nat (capacity sb) <=? fl_first fl) || (Z.of_nat (capacity sb) <=? fl_last fl))
      = false).
    { destruct (Z.eqb_spec (fl_count fl) 0); [done|]. cbn [negb andb].
      rewrite (proj2 (Z.leb_gt _ _)), (proj2 (Z.leb_gt _ _)); [done| |lia].
      rewrite Hl by lia. apply Z.mod_pos_bound. lia. }
    rewrite H1. cbn [fail_if mbind res_bind].
    rewrite (proj2 (Z.ltb_ge _ _)) by lia.
    assert (H2 : (if fl_count fl =? 0 then 0 else
      wadd 32 (wsub 32 (wadd 32 (fl_last fl) (Z.of_nat (capacity sb))) (fl_first fl)
               mod Z.of_nat (capacity sb)) 1) = fl_count fl).
    { destruct (Z.eqb_spec (fl_count fl) 0); [done|].
      pose proof (Z.mod_pos_bound (fl_first fl + fl_count fl - 1) (Z.of_nat (capacity sb))).
      apply span_spec; lia. }
    rewrite H2, Z.eqb_refl. cbn [orb negb fail_if mbind res_bind].
    rewrite get_slice_Ok by lia. cbn [mbind res_bind].
    unfold slice. rewrite drop_0, firstn_all2 by lia. done.
  - unfold entries_of. fl_cbn. apply list_fmap_ext. intros k i _.
    unfold ring_entry. fl_cbn. rewrite Hc. apply rd_splice_disjoint; [done|].
    rewrite length_to_le_bytes. right. unfold entry_at, header_len. rewrite Hv5. off_lia.
Qed.
End rewrite.


Lemma parse_identified `{Crc : Crc32c} sb buf a agno fl :
  sb_geometry sb -> is_v5 sb = true -> parse buf sb a agno = Ok fl ->
  fl_identified sb agno (fl_raw fl).
Proof.
  intros Hgeo Hv5 Hp. pose proof (sectsize_ge sb Hgeo).
  unfold parse in Hp. rewrite guard_Ok in Hp. destruct Hp as [Hlen Hp].
  apply Nat.ltb_ge in Hlen. apply bind_Ok in Hp as ([] & Hh & Hp).
  rewrite Hv5, !be32_Ok, uuid_at_Ok, crc32c_with_zeroed_crc_Ok in Hh by off_lia.
  cbn [mbind res_bind] in Hh. rewrite !guard_Ok in Hh. destruct Hh as (Hm & _ & Hu & Hs).
  rewrite !guard_Ok in Hp. destruct Hp as (_ & _ & Hp). res_inv. cbn [fl_raw].
  bool_prop. apply bool_decide_eq_true in Hu.
  split; unfold rd; rewrite slice_slice by off_lia; done.
Qed.

(** C19: the ring is a bounded FIFO queue: any sequence of [take] and [put]
    returns what the queue returns, never panics, and leaves the ring
    standing for the queue it should, which [entries] reads. *)
Theorem agfl_refines_queue sb agno fl ops :
  sb_typed sb -> sb_geometry sb -> fl_ok sb fl -> Forall op_ok ops ->
  let '(fl', rs) := fl_run sb agno fl ops in
  fl_ok sb fl' /\ Crashed ∉ rs /\ entries fl' sb = Ok (entries_of sb fl') /\
  Queue.run sb (fl_length fl) (Z.of_nat (capacity sb)) (entries_of sb fl) ops =
    (entries_of sb fl', rs).
Proof. apply fl_run_refines. Qed.

(** A v5 list that was read, edited by any sequence of takes and puts and
    written back is read again, under a header that carries its new indices,
    as the queue those operations leave: the sector passes every check of
    [parse], its checksum included. *)
Theorem agfl_write_back `{Crc : Crc32c, !Crc32cLaws} sb buf a agno fl ops :
  sb_typed sb -> sb_geometry sb -> is_v5 sb = true -> agf_describes a ->
  parse buf sb a agno = Ok fl -> agf_flfirst a < Z.of_nat (capacity sb) ->
  Forall op_ok ops ->
  let fl' := (fl_run sb agno fl ops).1 in
  exists out fl'', after fl' sb = Ok out /\ parse out sb (agf_of fl') agno = Ok fl'' /\
    entries_of sb fl'' =
      (Queue.run sb (fl_length fl) (Z.of_nat (capacity sb)) (entries_of sb fl) ops).1.
Proof.
  intros Hty Hgeo Hv5 Ha Hp Hf Hops.
  destruct (parse_fl_ok sb Hty Hgeo buf a agno fl Ha Hp (or_intror Hf)) as (Hok & _).
  pose proof (parse_identified sb buf a agno fl Hgeo Hv5 Hp) as Hid.
  pose proof (fl_run_keeps_header sb Hty Hgeo agno ops fl Hok Hv5 Hops) as Hh.
  pose proof (fl_run_refines sb agno fl ops Hty Hgeo Hok Hops) as Hrun.
  destruct (fl_run sb agno fl ops) as [fl' rs]. destruct Hrun as (Hok' & _ & _ & ->).
  cbn [fst] in *.
  assert (fl_identified sb agno (fl_raw fl')) as Hid'.
  { destruct Hid as [Hm Hu Hs]. split; unfold rd in *;
      rewrite (take_rd _ _ 32 (fl_raw fl') (fl_raw fl) Hh) by off_lia; done. }
  destruct (after_parse sb Hty Hgeo fl' agno Hok' Hv5 Hid')
    as (out & fl'' & ? & ? & _ & ? & _). by exists out, fl''.
Qed.

(** An empty list is accepted whatever its [agf_flfirst] says, and storing
    a block in one whose index is outside the ring panics: the store goes
    past the end of the sector. *)
Theorem agfl_put_panics `{Crc : Crc32c} sb buf a agno fl b :
  sb_typed sb -> sb_geometry sb -> agf_describes a -> agf_flcount a = 0 ->
  sb_sectsize sb <= agf_flfirst a -> parse buf sb a agno = Ok fl ->
  put fl sb agno b = (fl, Panic).
Proof.
  intros Hty Hgeo Ha H0 Hf Hp. pose proof (capacity_bounds sb Hty Hgeo) as (Hc & _).
  pose proof (sectsize_ge sb Hgeo).
  unfold parse in Hp. rewrite guard_Ok in Hp. destruct Hp as [Hlen Hp].
  apply Nat.ltb_ge in Hlen. apply bind_Ok in Hp as (_ & _ & Hp).
  rewrite !guard_Ok in Hp. destruct Hp as (_ & _ & Hp). res_inv.
  unfold put. fl_cbn. rewrite H0, (proj2 (Z.leb_gt _ _)) by lia. cbn [Z.eqb].
  unfold copy_at. rewrite (proj2 (Nat.leb_gt _ _)); [done|].
  rewrite length_slice, length_to_be_bytes by lia. unfold entry_at, ENTRY_LEN. lia.
Qed.

(** ** Concrete lists *)

Definition sample_raw : bytes :=
  to_be_bytes 4 XFS_AGFL_MAGIC ++ to_be_bytes 4 1 ++ sb_meta_uuid sample_sb ++
  replicate 12 Byte.x00 ++ to_be_bytes 4 100 ++ to_be_bytes 4 101 ++ to_be_bytes 4 102 ++
  replicate 464 Byte.xff.
Definition sample_fl : Agfl := mkAgfl sample_raw 0 2 3 119 2048.
Definition sample_agf (first last count : Z) : Agf :=
  mkAgf 1 2048 [] [] first last count 0 0 0 0 0 0.
Definition sample_sector : bytes :=
  match after sample_fl sample_sb with Ok b => b | _ => [] end.
Definition sample_ops : list fl_op := [OpTake; OpPut 103; OpTake; OpTake; OpTake; OpTake].

Lemma sample_ops_ok : Forall op_ok sample_ops.
Proof. repeat constructor; cbn; done. Qed.

Lemma sample_fl_ok : fl_ok sample_sb sample_fl.
Proof. split; try done; vm_compute; split; intros; congruence. Qed.

Lemma agfl_refines_queue_witness :
  fl_run sample_sb 1 sample_fl sample_ops =
    (mkAgfl (fl_raw (fl_run sample_sb 1 sample_fl sample_ops).1) 4 3 0 119 2048,
     [Took 100; Stored; Took 101; Took 102; Took 103; Refused]) /\
  Queue.run sample_sb 2048 119 [100; 101; 102] sample_ops =
    ([], [Took 100; Stored; Took 101; Took 102; Took 103; Refused]).
Proof.
  pose proof (agfl_refines_queue sample_sb 1 sample_fl sample_ops sample_typed
    sample_geometry sample_fl_ok sample_ops_ok) as H.
  split; [vm_compute; reflexivity|].
  vm_compute in H. destruct H as (_ & _ & _ & H). vm_compute. exact H.
Defined.

Lemma agfl_write_back_witness :
  exists out fl'', after (fl_run sample_sb 1 sample_fl [OpTake; OpPut 103]).1 sample_sb = Ok out /\
    parse out sample_sb (sample_agf 1 3 3) 1 = Ok fl'' /\
    entries_of sample_sb fl'' = [101; 102; 103].
Proof.
  destruct (parse sample_sector sample_sb (sample_agf 0 2 3) 1) as [fl| |] eqn:E;
    [|vm_compute in E; congruence|vm_compute in E; congruence].
  destruct (agfl_write_back sample_sb sample_sector (sample_agf 0 2 3) 1 fl
    [OpTake; OpPut 103] sample_typed sample_geometry eq_refl) as (out & fl'' & H1 & H2 & H3).
  - repeat split; vm_compute; congruence.
  - exact E.
  - reflexivity.
  - repeat constructor; cbn; done.
  - vm_compute in E. injection E as <-. exists out, fl''.
    split; [|split]; [|exact H2|exact H3].
    revert H1. vm_compute. exact (fun x => x).
Defined.

Lemma agfl_put_panics_witness :
  exists fl, parse sample_sector sample_sb (sample_agf 512 0 0) 1 = Ok fl /\
    put fl sample_sb 1 7 = (fl, Panic).
Proof.
  destruct (parse sample_sector sample_sb (sample_agf 512 0 0) 1) as [fl| |] eqn:E;
    [|vm_compute in E; congruence|vm_compute in E; congruence].
  exists fl. split; [reflexivity|].
  apply (agfl_put_panics sample_sb sample_sector (sample_agf 512 0 0) 1 fl 7
    sample_typed sample_geometry); [|reflexivity| |exact E]; clear E.
  - repeat split; vm_compute; congruence.
  - vm_compute. congruence.
Defined.
