(* ===== verification/FreeSpace.v ===== *)
(** * A group's free space ([src/src/alloc_btree.rs], the records)

    The run list the allocator edits in memory between reading a group's
    free-space trees and laying them out again: [free_extent] puts a run back,
    merging it with what it adjoins, and [alloc_extent] takes one out.  The
    list stands for a set of blocks ([is_free]); the theorems say what each
    operation does to that set, that the list stays ordered and merged, and
    that the two operations are inverse to each other. *)

From Stdlib Require Import ZArith Lia Strings.String.
From stdpp Require Import base list strings sets gmap.
From S2P Require Import Prelude Error Endian Superblock Sample.

Record FreeExtent := mkFree {
  startblock : Z;
  blockcount : Z;
}.
#[global] Instance FreeExtent_eq_dec : EqDecision FreeExtent.
Proof. solve_decision. Defined.

(** [FreeExtent::end], widened to 64 bits, where two [u32]s cannot overflow. *)
Definition fe_end (e : FreeExtent) : Z := startblock e + blockcount e.

Definition decode_free_extent (buf : bytes) (pos : nat) : res FreeExtent :=
  s ← be32 buf pos;
  c ← be32 buf (pos + 4);
  Ok (mkFree s c).

Definition encode_free_extent (buf : bytes) (pos : nat) (record : FreeExtent) : res bytes :=
  buf ← copy_at pos (to_be_bytes 4 (startblock record)) buf;
  copy_at (pos + 4) (to_be_bytes 4 (blockcount record)) buf.

(** ** Checking the records a tree held *)

Definition corrupt (template : string) (args : list arg) : Error :=
  CorruptLog (fmt template args).

Definition run_complaint (length headers previous_end : Z) (r : FreeExtent) : option string :=
  if blockcount r =? 0 then Some "is empty"%string
  else if startblock r <=? headers then Some "starts on the group's headers"%string
  else if length <? startblock r + blockcount r
    then Some "runs past the end of the group"%string
  else if startblock r <? previous_end
    then Some "starts before the run before it ends"%string
  else None.

Fixpoint check_runs_loop (agno length headers previous_end : Z) (i : Z)
    (records : list FreeExtent) : res unit :=
  match records with
  | [] => Ok tt
  | r :: records =>
      match run_complaint length headers previous_end r with
      | Some why =>
          Err (bad "AG {}: free-space record {} ({} blocks at {}) {}, so it does not describe free space in a group of {} blocks"
                [AZ agno; AZ i; AZ (blockcount r); AZ (startblock r); AS why; AZ length])
      | None => check_runs_loop agno length headers (startblock r + blockcount r) (i + 1) records
      end
  end.

Definition check_runs (agno length headers : Z) (records : list FreeExtent) : res unit :=
  check_runs_loop agno length headers 0 0 records.

Definition check_records (sb : Superblock) (agno length : Z) (records : list FreeExtent)
    : res unit :=
  check_runs agno length (3 * sb_sectsize sb / sb_blocksize sb) records.

(** ** Block addresses in basic blocks *)

Definition BBSIZE : Z := 512.

Definition blkno_of_linear_block (sb : Superblock) (linear : Z) : Z :=
  wmul 64 linear (sb_blocksize sb) / BBSIZE.
Definition expected_blkno (sb : Superblock) (agno agblock : Z) : Z :=
  blkno_of_linear_block sb (wadd 64 (wmul 64 agno (sb_agblocks sb)) agblock).
Definition blkno_of_fsbno (sb : Superblock) (fsbno : Z) : Z :=
  fsblock_offset sb fsbno / BBSIZE.

(** ** Freeing and allocating

    Both edit the list in place; they return it with their result, so that
    what an error leaves behind is stated too. *)

Inductive Freed := Inserted | MergedWithFollowing | MergedWithPreceding | JoinedTwo.
Inductive Allocated := ConsumedWhole | TookFront | TookBack | SplitInTwo.

Definition overlaps_error (e other : FreeExtent) : Error :=
  corrupt "freeing {}+{} overlaps free space at {}+{}"
    [AZ (startblock e); AZ (blockcount e); AZ (startblock other); AZ (blockcount other)].

Definition free_extent (free : list FreeExtent) (extent : FreeExtent)
    : list FreeExtent * res Freed :=
  if blockcount extent =? 0 then
    (free, Err (corrupt "an extent of no blocks cannot be freed" [])) else
  let pos := partition_point (fun e => startblock e <? startblock extent) free in
  let before := get_before free pos in
  let after := free !! pos in
  if is_some_and before (fun b => startblock extent <? fe_end b) then
    (free, Err (overlaps_error extent (default extent before)))
  else if is_some_and after (fun a => startblock a <? fe_end extent) then
    (free, Err (overlaps_error extent (default extent after)))
  else
  let touches_preceding := is_some_and before (fun e => fe_end e =? startblock extent) in
  let touches_following := is_some_and after (fun e => fe_end extent =? startblock e) in
  match touches_preceding, before, touches_following, after with
  | true, Some p, true, Some f =>
      (<[(pos - 1)%nat :=
         mkFree (startblock p)
           (wadd 32 (blockcount p) (wadd 32 (blockcount extent) (blockcount f)))]>
         (delete pos free), Ok JoinedTwo)
  | true, Some p, _, _ =>
      (<[(pos - 1)%nat := mkFree (startblock p) (wadd 32 (blockcount p) (blockcount extent))]>
         free, Ok MergedWithPreceding)
  | _, _, true, Some f =>
      (<[pos := mkFree (startblock extent) (wadd 32 (blockcount f) (blockcount extent))]> free,
       Ok MergedWithFollowing)
  | _, _, _, _ => (vec_insert pos extent free, Ok Inserted)
  end.

Definition longest (free : list FreeExtent) : Z :=
  fold_right Z.max 0 (blockcount <$> free).

Definition total_free (free : list FreeExtent) : Z :=
  fold_left (wadd 64) (blockcount <$> free) 0.

Definition alloc_extent (free : list FreeExtent) (extent : FreeExtent)
    : list FreeExtent * res Allocated :=
  if blockcount extent =? 0 then
    (free, Err (corrupt "an extent of no blocks cannot be allocated" [])) else
  match partition_point (fun e => startblock e <=? startblock extent) free with
  | O =>
      (free, Err (corrupt "allocating {}+{} but no free run starts at or before it"
                    [AZ (startblock extent); AZ (blockcount extent)]))
  | S pos =>
    match free !! pos with
    | None => (free, Panic)
    | Some run =>
      if fe_end run <? fe_end extent then
        (free, Err (corrupt "allocating {}+{} runs past the free space at {}+{}, so part of it is not free"
                      [AZ (startblock extent); AZ (blockcount extent);
                       AZ (startblock run); AZ (blockcount run)]))
      else
      match startblock extent =? startblock run, fe_end extent =? fe_end run with
      | true, true => (delete pos free, Ok ConsumedWhole)
      | true, false =>
          (<[pos := mkFree (wadd 32 (startblock run) (blockcount extent))
                      (wsub 32 (blockcount run) (blockcount extent))]> free, Ok TookFront)
      | false, true =>
          (<[pos := mkFree (startblock run) (wsub 32 (blockcount run) (blockcount extent))]>
             free, Ok TookBack)
      | false, false =>
          let tail := mkFree (wrap 32 (fe_end extent)) (wrap 32 (fe_end run - fe_end extent)) in
          (vec_insert (pos + 1) tail
             (<[pos := mkFree (startblock run) (wsub 32 (startblock extent) (startblock run))]>
                free), Ok SplitInTwo)
      end
    end
  end.

(** ** Ordered run lists

    [runs g lo hi l]: the records of [l] are non-empty, lie in [lo, hi) and
    come in order, each ending at least [g] blocks before the next.  [g = 0]
    is what the tree's order asks for and [g = 1] says that adjoining runs
    have been merged. *)
Fixpoint runs (g lo hi : Z) (l : list FreeExtent) : Prop :=
  match l with
  | [] => lo <= hi + g
  | e :: l => lo <= startblock e /\ 0 < blockcount e /\ runs g (fe_end e + g) hi l
  end.

(** The set of blocks a list stands for. *)
Definition in_extent (e : FreeExtent) (b : Z) : Prop := startblock e <= b < fe_end e.
Definition is_free (l : list FreeExtent) (b : Z) : Prop := exists e, e ∈ l /\ in_extent e b.

Definition total (l : list FreeExtent) : Z := fold_right Z.add 0 (blockcount <$> l).

Lemma is_free_nil b : is_free [] b <-> False.
Proof. unfold is_free. set_solver. Qed.
Lemma is_free_cons e l b : is_free (e :: l) b <-> in_extent e b \/ is_free l b.
Proof. unfold is_free. set_solver. Qed.
Lemma is_free_app l1 l2 b : is_free (l1 ++ l2) b <-> is_free l1 b \/ is_free l2 b.
Proof. unfold is_free. set_solver. Qed.

Lemma total_app l1 l2 : total (l1 ++ l2) = total l1 + total l2.
Proof. unfold total. induction l1; cbn; [done|]. cbn in *. lia. Qed.
Lemma total_cons e l : total (e :: l) = blockcount e + total l.
Proof. done. Qed.

Lemma runs_lo g lo lo' hi l : lo <= lo' -> runs g lo' hi l -> runs g lo hi l.
Proof. destruct l; cbn [runs]; naive_solver lia. Qed.

Lemma runs_hi g lo hi hi' l : hi <= hi' -> runs g lo hi l -> runs g lo hi' l.
Proof. revert lo; induction l; intros lo; cbn [runs]; [lia|naive_solver]. Qed.

Lemma runs_app g lo hi l1 l2 :
  runs g lo hi (l1 ++ l2) <-> exists mid, runs g lo mid l1 /\ runs g (mid + g) hi l2.
Proof.
  revert lo; induction l1 as [|e l1 IH]; intros lo; cbn [runs app].
  - split; [exists (lo - g); split; [lia|]; by rewrite Z.sub_add|].
    intros (mid & Hm & H). eapply runs_lo; [|done]. lia.
  - rewrite IH. naive_solver.
Qed.

Section runs.
Context (g : Z) (Hg : 0 <= g).

Lemma runs_bound lo hi l : runs g lo hi l -> lo <= hi + g.
Proof.
  revert lo; induction l as [|e l IH]; intros lo; cbn [runs]; [done|].
  intros (? & ? & H%IH). unfold fe_end in *. lia.
Qed.

Lemma runs_elem lo hi l e :
  runs g lo hi l -> e ∈ l -> lo <= startblock e /\ 0 < blockcount e /\ fe_end e <= hi.
Proof.
  intros H [l1 [l2 ->]]%list_elem_of_split. rewrite runs_app in H.
  destruct H as (mid & H1%runs_bound & ? & ? & H2%runs_bound). lia.
Qed.

Lemma runs_free lo hi l b : runs g lo hi l -> is_free l b -> lo <= b < hi.
Proof.
  intros H (e & He & Hb). destruct (runs_elem _ _ _ _ H He). unfold in_extent in Hb. lia.
Qed.

Lemma runs_total lo hi l : runs g lo hi l -> 0 <= total l <= hi + g - lo.
Proof.
  revert lo; induction l as [|e l IH]; intros lo; [cbn; lia|].
  rewrite total_cons. intros (? & ? & H%IH). unfold fe_end in *. lia.
Qed.

Lemma runs_starts lo hi l i j x y :
  runs g lo hi l -> (i <= j)%nat -> l !! i = Some x -> l !! j = Some y ->
  startblock x <= startblock y.
Proof.
  revert lo i j; induction l as [|e l IH]; intros lo i j H Hij Hx Hy; [done|].
  destruct H as (? & ? & H). destruct i as [|i], j as [|j]; simplify_eq/=; try lia.
  - apply list_elem_of_lookup_2, (runs_elem _ _ _ _ H) in Hy. unfold fe_end in *. lia.
  - eapply IH; [done| |done|done]. lia.
Qed.

Lemma runs_partitioned lo hi l (p : FreeExtent -> bool) :
  runs g lo hi l ->
  (forall x y, startblock x <= startblock y -> p y = true -> p x = true) ->
  partitioned p l.
Proof. intros H Hp i j x y Hij Hx Hy. apply Hp. by eapply runs_starts. Qed.
End runs.

Lemma total_free_spec g lo hi l :
  0 <= g <= 1 -> 0 <= lo -> hi <= 2 ^ 32 -> runs g lo hi l -> total_free l = total l.
Proof.
  intros Hg Hlo Hhi H. unfold total_free.
  assert (forall acc lo, 0 <= acc <= lo -> runs g lo hi l ->
    fold_left (wadd 64) (blockcount <$> l) acc = acc + total l) as Hgen.
  { clear lo H Hlo. induction l as [|e l IH]; intros acc lo Hacc H; [cbn; lia|].
    rewrite total_cons. cbn [fmap list_fmap fold_left]. destruct H as (H1 & H2 & H).
    pose proof (runs_bound g ltac:(lia) _ _ _ H). unfold fe_end in *.
    rewrite wadd_small by lia. rewrite (IH _ (startblock e + blockcount e + g)) by (try done; lia). lia. }
  rewrite (Hgen 0 lo); [lia|lia|done].
Qed.

(** Two merged lists that stand for the same blocks are the same list. *)
Lemma runs_ext lo lo' hi hi' l l' :
  runs 1 lo hi l -> runs 1 lo' hi' l' -> (forall b, is_free l b <-> is_free l' b) -> l = l'.
Proof.
  revert lo lo' l'; induction l as [|e l IH]; intros lo lo' [|e' l'] H H' Heq.
  - done.
  - destruct H' as (_ & Hc & _). destruct (proj2 (Heq (startblock e'))) as (? & ?%elem_of_nil & _); [|done].
    rewrite is_free_cons. left. unfold in_extent, fe_end. lia.
  - destruct H as (_ & Hc & _). destruct (proj1 (Heq (startblock e))) as (? & ?%elem_of_nil & _); [|done].
    rewrite is_free_cons. left. unfold in_extent, fe_end. lia.
  - destruct H as (Hl & Hc & H), H' as (Hl' & Hc' & H').
    setoid_rewrite is_free_cons in Heq. unfold in_extent, fe_end in *.
    pose proof (fun b => runs_free 1 ltac:(lia) _ _ _ b H) as Hin.
    pose proof (fun b => runs_free 1 ltac:(lia) _ _ _ b H') as Hin'.
    assert (startblock e = startblock e') as Hs.
    { destruct (proj1 (Heq (startblock e))) as [|Hf%Hin']; [lia| |];
        destruct (proj2 (Heq (startblock e'))) as [|Hf'%Hin]; lia. }
    assert (blockcount e = blockcount e') as Hcc.
    { destruct (decide (blockcount e < blockcount e')) as [Hlt|].
      - destruct (proj2 (Heq (startblock e + blockcount e))) as [|Hf%Hin]; lia.
      - destruct (decide (blockcount e' < blockcount e)); [|lia].
        destruct (proj1 (Heq (startblock e' + blockcount e'))) as [|Hf%Hin']; lia. }
    destruct e as [s c], e' as [s' c']; cbn in *; subst s' c'. f_equal.
    eapply IH; [done|done|]. intros b. specialize (Heq b). specialize (Hin b). specialize (Hin' b).
    split; intros Hf; [destruct (proj1 Heq (or_intror Hf)) as [|]|
                       destruct (proj2 Heq (or_intror Hf)) as [|]]; try done;
      [apply Hin in Hf|apply Hin' in Hf]; lia.
Qed.

(** ** What freeing does to the list *)

(** The four ways a run [x] joins a list, and the record it ends up in. *)
Inductive joins (x : FreeExtent) : list FreeExtent -> list FreeExtent -> Freed -> Prop :=
  | joins_none pre post :
      joins x (pre ++ post) (pre ++ x :: post) Inserted
  | joins_following pre f post :
      fe_end x = startblock f ->
      joins x (pre ++ f :: post)
        (pre ++ mkFree (startblock x) (blockcount f + blockcount x) :: post) MergedWithFollowing
  | joins_preceding pre p post :
      fe_end p = startblock x ->
      joins x (pre ++ p :: post)
        (pre ++ mkFree (startblock p) (blockcount p + blockcount x) :: post) MergedWithPreceding
  | joins_both pre p f post :
      fe_end p = startblock x -> fe_end x = startblock f ->
      joins x (pre ++ p :: f :: post)
        (pre ++ mkFree (startblock p) (blockcount p + (blockcount x + blockcount f)) :: post)
        JoinedTwo.

Ltac runs_cbn := cbn [app runs startblock blockcount] in *; unfold fe_end in *;
  cbn [startblock blockcount] in *.

Lemma joins_is_free x l l' k b :
  joins x l l' k -> (forall e, e ∈ l -> 0 < blockcount e) -> 0 < blockcount x ->
  is_free l' b <-> is_free l b \/ in_extent x b.
Proof.
  intros [pre post|pre f post H|pre p post H|pre p f post H1 H2] Hc Hx;
    rewrite !is_free_app, ?is_free_cons; unfold in_extent; runs_cbn.
  - naive_solver.
  - specialize (Hc f ltac:(set_solver)). naive_solver lia.
  - specialize (Hc p ltac:(set_solver)). naive_solver lia.
  - pose proof (Hc p ltac:(set_solver)). specialize (Hc f ltac:(set_solver)). naive_solver lia.
Qed.

Lemma joins_total x l l' k : joins x l l' k -> total l' = total l + blockcount x.
Proof. intros []; rewrite !total_app, ?total_cons; cbn [blockcount]; lia. Qed.

Definition freed_grows (k : Freed) : Z :=
  match k with Inserted => 1 | JoinedTwo => -1 | _ => 0 end.

Lemma joins_length x l l' k :
  joins x l l' k -> Z.of_nat (length l') = Z.of_nat (length l) + freed_grows k.
Proof. intros []; rewrite !length_app; cbn [length freed_grows]; lia. Qed.

Section edits.
Context (g lo hi : Z) (Hg : 0 <= g <= 1) (Hlo : 0 <= lo) (Hhi : hi < 2 ^ 32).

(** Where the run goes: everything before it starts lower. *)
Lemma free_position l x :
  runs g lo hi l ->
  exists l1 l2, l = l1 ++ l2 /\
    partition_point (fun e => startblock e <? startblock x) l = length l1 /\
    Forall (fun e => startblock e < startblock x) l1 /\
    Forall (fun e => startblock x <= startblock e) l2.
Proof.
  intros H. destruct (partition_point_split (fun e => startblock e <? startblock x) l)
    as (l1 & l2 & ? & ? & H1 & H2).
  { eapply runs_partitioned; [|done|intros ? ?; rewrite !Z.ltb_lt; lia]. lia. }
  exists l1, l2. split_and!; try done; eapply Forall_impl; try done; cbn; intros;
    bool_prop; lia.
Qed.

Lemma last_inv (l : list FreeExtent) p : list.last l = Some p -> exists l', l = l' ++ [p].
Proof. intros [l' ->]%last_Some. eauto. Qed.

(** A run that fits between two neighbours is stored, merged with the ones it
    touches. *)
Lemma free_extent_between l1 l2 x :
  runs g lo hi (l1 ++ l2) -> 0 < blockcount x -> lo <= startblock x -> fe_end x <= hi ->
  partition_point (fun e => startblock e <? startblock x) (l1 ++ l2) = length l1 ->
  (forall p, list.last l1 = Some p -> fe_end p <= startblock x) ->
  (forall f, head l2 = Some f -> fe_end x <= startblock f) ->
  exists l' k, free_extent (l1 ++ l2) x = (l', Ok k) /\ joins x (l1 ++ l2) l' k /\
    runs g lo hi l'.
Proof.
  intros H Hx Hxl Hxh Hpos Hb Ha. unfold free_extent.
  rewrite (proj2 (Z.eqb_neq _ _)), Hpos, get_before_app, lookup_app_head by lia.
  destruct (list.last l1) as [p|] eqn:Hl; cbn [is_some_and];
    [rewrite (proj2 (Z.ltb_ge _ _)) by auto|];
    (destruct l2 as [|f l2]; cbn [head is_some_and];
      [|rewrite (proj2 (Z.ltb_ge _ _)) by auto]).
  - destruct (last_inv _ _ Hl) as [l0 ->]. specialize (Hb p eq_refl).
    rewrite app_nil_r, runs_app in H. destruct H as (m & R0 & R1).
    pose proof (runs_bound g ltac:(lia) _ _ _ R0). runs_cbn.
    rewrite !app_nil_r. destruct (Z.eqb_spec (startblock p + blockcount p) (startblock x)).
    + do 2 eexists. split; [done|]. rewrite wadd_small, length_app, Nat.add_sub by lia.
      rewrite insert_middle. split; [by constructor|].
      apply runs_app. exists m. runs_cbn. split_and!; try done; lia.
    + do 2 eexists. split; [done|]. 
      rewrite vec_insert_end. split; [rewrite <- (app_nil_r (l0 ++ [p])) at 1; by constructor|].
      rewrite <- app_assoc. cbn [app].
      apply runs_app. exists m. runs_cbn. split_and!; try done; lia.
  - destruct (last_inv _ _ Hl) as [l0 ->]. specialize (Hb p eq_refl). specialize (Ha f eq_refl).
    rewrite <- app_assoc in *. cbn [app] in *. apply runs_app in H as (m & R0 & R1).
    pose proof (runs_bound g ltac:(lia) _ _ _ R0). runs_cbn.
    destruct R1 as (? & ? & ? & ? & R2).
    pose proof (runs_bound g ltac:(lia) _ _ _ R2). rewrite length_app, Nat.add_sub.
    destruct (Z.eqb_spec (startblock p + blockcount p) (startblock x)),
             (Z.eqb_spec (startblock x + blockcount x) (startblock f)).
    + do 2 eexists. split; [done|]. rewrite !wadd_small by (rewrite ?wadd_small; lia).
      rewrite (cons_middle p l0 (f :: l2)), app_assoc, delete_middle' by by rewrite length_app.
      rewrite <- !app_assoc. cbn [app]. rewrite insert_middle. split; [by constructor|].
      apply runs_app. exists m. runs_cbn. split_and!; try done; try lia.
      eapply runs_lo; [|done]. lia.
    + do 2 eexists. split; [done|]. rewrite !wadd_small by lia. rewrite insert_middle.
      split; [by constructor|].
      apply runs_app. exists m. runs_cbn. split_and!; try done; lia.
    + do 2 eexists. split; [done|]. rewrite !wadd_small by lia.
      rewrite (cons_middle p l0 (f :: l2)), app_assoc, 
        <- (length_app l0 [p]), insert_middle.
      split; [by constructor|]. rewrite <- app_assoc.
      apply runs_app. exists m. runs_cbn. split_and!; try done; try lia.
      eapply runs_lo; [|done]. lia.
    + do 2 eexists. split; [done|].
      rewrite (cons_middle p l0 (f :: l2)), app_assoc, 
        <- (length_app l0 [p]), vec_insert_middle.
      split; [by constructor|]. rewrite <- app_assoc.
      apply runs_app. exists m. runs_cbn. split_and!; try done; lia.
  - apply last_None in Hl as ->. cbn [app length] in *. do 2 eexists. split; [done|].
    split; [apply (joins_none x [] [])|]. unfold vec_insert. cbn [take drop]. runs_cbn. lia.
  - apply last_None in Hl as ->. cbn [app length] in *. specialize (Ha f eq_refl). runs_cbn.
    destruct H as (? & ? & R2). pose proof (runs_bound g ltac:(lia) _ _ _ R2).
    destruct (Z.eqb_spec (startblock x + blockcount x) (startblock f)).
    + do 2 eexists. split; [done|]. rewrite wadd_small by lia.
      split; [by apply (joins_following x [])|]. cbn [insert list_insert]. runs_cbn.
      split_and!; try done; try lia. eapply runs_lo; [|done]. lia.
    + do 2 eexists. split; [done|]. split; [by apply (joins_none x [])|].
      unfold vec_insert. cbn [take drop app]. runs_cbn. split_and!; try done; lia.
Qed.

Lemma free_extent_cases l x :
  runs g lo hi l -> 0 < blockcount x -> lo <= startblock x -> fe_end x <= hi ->
  (exists e b, free_extent l x = (l, Err (CorruptLog e)) /\ is_free l b /\ in_extent x b) \/
  (exists l' k, free_extent l x = (l', Ok k) /\ joins x l l' k /\ runs g lo hi l' /\
     forall b, in_extent x b -> ~ is_free l b).
Proof.
  intros H Hx Hxl Hxh. destruct (free_position l x H) as (l1 & l2 & -> & Hpos & H1 & H2).
  destruct (is_some_and (list.last l1) (fun p => startblock x <? fe_end p)) eqn:Eb.
  { destruct (list.last l1) as [p|] eqn:Hl; [|done]. cbn in Eb. bool_prop.
    left. eexists _, (startblock x). split.
    { unfold free_extent. rewrite (proj2 (Z.eqb_neq _ _)), Hpos, get_before_app, Hl by lia.
      cbn [is_some_and].
      by rewrite (proj2 (Z.ltb_lt (startblock x) (fe_end p))) by lia. }
    destruct (last_inv _ _ Hl) as [l0 ->]. rewrite !is_free_app, is_free_cons.
    rewrite Forall_app, Forall_singleton in H1. destruct H1 as [_ H1].
    unfold in_extent, fe_end in *.
    split; [|lia]. left; right; left. lia. }
  destruct (is_some_and (head l2) (fun f => startblock f <? fe_end x)) eqn:Ea.
  { destruct l2 as [|f l2]; [done|]. cbn in Ea. bool_prop.
    left. eexists _, (startblock f). split.
    { unfold free_extent.
      rewrite (proj2 (Z.eqb_neq _ _)), Hpos, get_before_app, lookup_app_head, Eb by lia.
      cbn [is_some_and head].
      by rewrite (proj2 (Z.ltb_lt (startblock f) (fe_end x))) by lia. }
    destruct (runs_elem g ltac:(lia) _ _ _ f H ltac:(set_solver)) as (? & ? & ?).
    rewrite is_free_app, is_free_cons. rewrite Forall_cons in H2. unfold in_extent, fe_end in *.
    split; [|lia]. right; left. lia. }
  right.
  assert (Hb : forall p, list.last l1 = Some p -> fe_end p <= startblock x).
  { intros p Hp. rewrite Hp in Eb. cbn in Eb. by bool_prop. }
  assert (Ha : forall f, head l2 = Some f -> fe_end x <= startblock f).
  { intros f Hf. rewrite Hf in Ea. cbn in Ea. by bool_prop. }
  destruct (free_extent_between l1 l2 x) as (l' & k & ? & ? & ?); try done.
  exists l', k. split_and!; try done. intros b Hbx [Hf|Hf]%is_free_app.
  - destruct (list.last l1) as [p|] eqn:Hl.
    + destruct (last_inv _ _ Hl) as [l0 ->]. specialize (Hb p eq_refl).
      apply runs_app in H as (m & R & _). apply runs_app in R as (m' & R0 & R1). runs_cbn.
      rewrite is_free_app, is_free_cons, is_free_nil in Hf.
      destruct Hf as [Hf%(runs_free g ltac:(lia) _ _ _ _ R0)|[Hf|[]]];
        unfold in_extent, fe_end in *; lia.
    + apply last_None in Hl as ->. by apply is_free_nil in Hf.
  - destruct l2 as [|f l2]; [by apply is_free_nil in Hf|]. specialize (Ha f eq_refl).
    apply runs_app in H as (m & _ & R). runs_cbn. destruct R as (? & ? & R).
    apply is_free_cons in Hf as [Hf|Hf%(runs_free g ltac:(lia) _ _ _ _ R)];
      unfold in_extent, fe_end in *; lia.
Qed.
End edits.

(** ** What allocating does to the list *)

(** Each way of taking a run out undoes one way of putting it back. *)
Definition undone_by (k : Allocated) : Freed :=
  match k with
  | ConsumedWhole => Inserted
  | TookFront => MergedWithFollowing
  | TookBack => MergedWithPreceding
  | SplitInTwo => JoinedTwo
  end.

Definition covers (e x : FreeExtent) : Prop :=
  startblock e <= startblock x /\ fe_end x <= fe_end e.

Section allocs.
Context (g lo hi : Z) (Hg : 0 <= g <= 1) (Hlo : 0 <= lo) (Hhi : hi < 2 ^ 32).

Lemma alloc_position l x :
  runs g lo hi l ->
  exists l1 l2, l = l1 ++ l2 /\
    partition_point (fun e => startblock e <=? startblock x) l = length l1 /\
    Forall (fun e => startblock e <= startblock x) l1 /\
    Forall (fun e => startblock x < startblock e) l2.
Proof.
  intros H. destruct (partition_point_split (fun e => startblock e <=? startblock x) l)
    as (l1 & l2 & ? & ? & H1 & H2).
  { eapply runs_partitioned; [|done|intros ? ?; rewrite !Z.leb_le; lia]. lia. }
  exists l1, l2. split_and!; try done; eapply Forall_impl; try done; cbn; intros;
    bool_prop; lia.
Qed.

(** A run inside the record [r] is carved out of it. *)
Lemma alloc_extent_inside pre r post x :
  runs g lo hi (pre ++ r :: post) -> 0 < blockcount x -> covers r x ->
  partition_point (fun e => startblock e <=? startblock x) (pre ++ r :: post) = S (length pre) ->
  exists l' k, alloc_extent (pre ++ r :: post) x = (l', Ok k) /\
    joins x l' (pre ++ r :: post) (undone_by k) /\ runs g lo hi l' /\
    forall b, in_extent x b -> ~ is_free l' b.
Proof.
  intros H Hx [Hs He] Hpos. unfold alloc_extent.
  rewrite (proj2 (Z.eqb_neq _ _)), Hpos, list_lookup_middle, (proj2 (Z.ltb_ge _ _)) by (try lia; done).
  apply runs_app in H as (m & R0 & R1). pose proof (runs_bound g ltac:(lia) _ _ _ R0).
  destruct r as [s c]. runs_cbn. destruct R1 as (? & ? & R2).
  pose proof (runs_bound g ltac:(lia) _ _ _ R2).
  pose proof (fun b => runs_free g ltac:(lia) _ _ _ b R0) as F0.
  pose proof (fun b => runs_free g ltac:(lia) _ _ _ b R2) as F2.
  destruct (Z.eqb_spec (startblock x) s) as [Ef|Ef],
    (Z.eqb_spec (startblock x + blockcount x) (s + c)) as [Eb|Eb]; do 2 eexists;
    (split; [done|]); cbn [undone_by].
  - rewrite delete_middle. destruct x as [s' c']; cbn in *; assert (c' = c) as -> by lia; subst s'.
    split; [constructor|]. split; [|intros b Hb Hf].
    + apply runs_app. exists m. split; [done|]. eapply runs_lo; [|done]. lia.
    + apply is_free_app in Hf as [Hf%F0|Hf%F2]; unfold in_extent, fe_end in *; cbn in *; lia.
  - rewrite insert_middle, wadd_small, wsub_small by lia.
    split; [|split; [|intros b Hb Hf]].
    + replace (mkFree s c) with
        (mkFree (startblock x) (blockcount (mkFree (s + blockcount x) (c - blockcount x)) + blockcount x))
        by (cbn; f_equal; lia).
      constructor. unfold fe_end; cbn; lia.
    + apply runs_app. exists m. runs_cbn. split_and!; try done; try lia.
      eapply runs_lo; [|done]. lia.
    + apply is_free_app in Hf as [Hf%F0|[Hf|Hf%F2]%is_free_cons];
        unfold in_extent, fe_end in *; cbn in *; lia.
  - rewrite insert_middle, wsub_small by lia.
    split; [|split; [|intros b Hb Hf]].
    + replace (mkFree s c) with
        (mkFree (startblock (mkFree s (c - blockcount x)))
           (blockcount (mkFree s (c - blockcount x)) + blockcount x)) by (cbn; f_equal; lia).
      constructor. unfold fe_end; cbn; lia.
    + apply runs_app. exists m. runs_cbn. split_and!; try done; try lia.
      eapply runs_lo; [|done]. lia.
    + apply is_free_app in Hf as [Hf%F0|[Hf|Hf%F2]%is_free_cons];
        unfold in_extent, fe_end in *; cbn in *; lia.
  - rewrite insert_middle, wsub_small, !wrap_small by (unfold in_u; lia).
    rewrite vec_insert_after.
    split; [|split; [|intros b Hb Hf]].
    + set (p := mkFree s (startblock x - s)).
      set (f := mkFree (startblock x + blockcount x) (s + c - (startblock x + blockcount x))).
      replace (mkFree s c) with
        (mkFree (startblock p) (blockcount p + (blockcount x + blockcount f)))
        by (cbn; f_equal; lia).
      constructor; unfold fe_end; cbn; lia.
    + apply runs_app. exists m. runs_cbn. split_and!; try done; try lia.
      eapply runs_lo; [|done]. lia.
    + apply is_free_app in Hf as [Hf%F0|[Hf|[Hf|Hf%F2]%is_free_cons]%is_free_cons];
        unfold in_extent, fe_end in *; cbn in *; lia.
Qed.

Lemma alloc_extent_cases l x :
  runs g lo hi l -> 0 < blockcount x ->
  (exists m, alloc_extent l x = (l, Err (CorruptLog m)) /\ forall e, e ∈ l -> ~ covers e x) \/
  (exists l' k, alloc_extent l x = (l', Ok k) /\ joins x l' l (undone_by k) /\
     runs g lo hi l' /\ (exists e, e ∈ l /\ covers e x) /\
     forall b, in_extent x b -> ~ is_free l' b).
Proof.
  intros H Hx. destruct (alloc_position l x H) as (l1 & l2 & -> & Hpos & H1 & H2).
  rewrite Forall_forall in H2.
  destruct l1 as [|r pre _] using rev_ind.
  { left. eexists. split.
    - unfold alloc_extent. rewrite (proj2 (Z.eqb_neq _ _)), Hpos by lia. done.
    - intros e He [? ?]. specialize (H2 e He). cbn in H2. lia. }
  rewrite <- app_assoc in *. cbn [app] in *. rewrite length_app, Nat.add_1_r in Hpos.
  rewrite Forall_app, Forall_singleton in H1. destruct H1 as [_ Hr].
  destruct (decide (fe_end x <= fe_end r)) as [Hin|Hout].
  - right. destruct (alloc_extent_inside pre r l2 x H Hx (conj Hr Hin) Hpos)
      as (l' & k & ? & ? & ? & ?). exists l', k. split_and!; try done.
    exists r. split; [set_solver|done].
  - left. eexists. split.
    { unfold alloc_extent.
      rewrite (proj2 (Z.eqb_neq _ _)), Hpos, list_lookup_middle, (proj2 (Z.ltb_lt _ _)) by
        (try lia; done). done. }
    apply runs_app in H as (m & R0 & R1). runs_cbn. destruct R1 as (? & ? & R2).
    intros e [He|[->|He]%elem_of_cons]%elem_of_app [Hs He'].
    + apply (runs_elem g ltac:(lia) _ _ _ _ R0) in He. unfold fe_end in *. lia.
    + unfold fe_end in *. lia.
    + specialize (H2 e He). cbn in H2. lia.
Qed.
End allocs.

(** In a merged list a run whose blocks are all free lies in one record. *)
Lemma merged_covers lo hi l x :
  runs 1 lo hi l -> 0 < blockcount x ->
  (exists e, e ∈ l /\ covers e x) <-> (forall b, in_extent x b -> is_free l b).
Proof.
  intros H Hx. split.
  - intros (e & He & Hc) b Hb. exists e. split; [done|].
    unfold covers, in_extent, fe_end in *. lia.
  - intros Hall. destruct (Hall (startblock x)) as (e & He & Hs);
      [unfold in_extent, fe_end; lia|].
    exists e. split; [done|]. unfold covers, in_extent in *. split; [lia|].
    destruct (decide (fe_end x <= fe_end e)); [done|exfalso].
    destruct (Hall (fe_end e)) as (e' & He' & Hs'); [lia|]. clear Hall.
    apply list_elem_of_split in He as (l1 & l2 & ->).
    apply runs_app in H as (m & R0 & R1). cbn [runs] in R1. destruct R1 as (? & ? & R2).
    apply elem_of_app in He' as [He'|[->|He']%elem_of_cons].
    + apply (runs_elem 1 ltac:(lia) _ _ _ _ R0) in He'. unfold in_extent, fe_end in *. lia.
    + unfold in_extent in *. lia.
    + apply (runs_elem 1 ltac:(lia) _ _ _ _ R2) in He'. unfold in_extent, fe_end in *. lia.
Qed.

Lemma runs_counts g lo hi l e : 0 <= g -> runs g lo hi l -> e ∈ l -> 0 < blockcount e.
Proof. intros Hg H He. by destruct (runs_elem g Hg lo hi l e H He) as (_ & ? & _). Qed.

(** ** The free space as a set of blocks *)

Definition blocks_of (e : FreeExtent) : gset Z :=
  list_to_set (seqZ (startblock e) (blockcount e)).
Definition free_set (l : list FreeExtent) : gset Z := ⋃ (blocks_of <$> l).

Lemma elem_of_blocks_of e b : b ∈ blocks_of e <-> in_extent e b.
Proof. unfold blocks_of. rewrite elem_of_list_to_set. apply elem_of_seqZ. Qed.

Lemma elem_of_free_set l b : b ∈ free_set l <-> is_free l b.
Proof.
  unfold free_set. rewrite elem_of_union_list. setoid_rewrite list_elem_of_fmap.
  unfold is_free. setoid_rewrite <- elem_of_blocks_of. naive_solver.
Qed.

Inductive space_op := OpFree (e : FreeExtent) | OpAlloc (e : FreeExtent).

Module FreeSet.
(** What a group's free space promises: blocks that are not free can be freed,
    blocks that are free can be allocated, and nothing else happens. *)
Definition step (s : gset Z) (op : space_op) : gset Z * bool :=
  match op with
  | OpFree e => if decide (blocks_of e ## s) then (s ∪ blocks_of e, true) else (s, false)
  | OpAlloc e => if decide (blocks_of e ⊆ s) then (s ∖ blocks_of e, true) else (s, false)
  end.

Fixpoint run (s : gset Z) (ops : list space_op) : gset Z * list bool :=
  match ops with
  | [] => (s, [])
  | op :: ops => let '(s, r) := step s op in let '(s, rs) := run s ops in (s, r :: rs)
  end.
End FreeSet.

Definition succeeded {A} (r : res A) : bool := match r with Ok _ => true | _ => false end.

Definition space_step (l : list FreeExtent) (op : space_op) : list FreeExtent * bool :=
  match op with
  | OpFree e => let '(l, r) := free_extent l e in (l, succeeded r)
  | OpAlloc e => let '(l, r) := alloc_extent l e in (l, succeeded r)
  end.

Fixpoint space_run (l : list FreeExtent) (ops : list space_op) : list FreeExtent * list bool :=
  match ops with
  | [] => (l, [])
  | op :: ops => let '(l, r) := space_step l op in let '(l, rs) := space_run l ops in (l, r :: rs)
  end.

(** An operation names a run of blocks of the group. *)
Definition op_in (lo hi : Z) (op : space_op) : Prop :=
  match op with OpFree e | OpAlloc e =>
    0 < blockcount e /\ lo <= startblock e /\ fe_end e <= hi end.

Lemma space_step_refines lo hi l op :
  0 <= lo -> hi < 2 ^ 32 -> runs 1 lo hi l -> op_in lo hi op ->
  let '(l', r) := space_step l op in
  runs 1 lo hi l' /\ FreeSet.step (free_set l) op = (free_set l', r).
Proof.
  intros Hlo Hhi H Hop. destruct op as [x|x], Hop as (Hx & Hl & Hh); cbn [space_step FreeSet.step].
  - destruct (free_extent_cases 1 lo hi ltac:(lia) Hlo Hhi l x H Hx Hl Hh)
      as [(e & b & -> & Hf & Hb)|(l' & k & -> & Hj & Hr & Hdis)].
    + split; [done|]. rewrite decide_False; [done|].
      intros Hd. apply (Hd b); [by apply elem_of_blocks_of|by apply elem_of_free_set].
    + split; [done|]. rewrite decide_True.
      * f_equal. apply leibniz_equiv, set_equiv. intros b.
        rewrite elem_of_union, !elem_of_free_set, elem_of_blocks_of.
        symmetry. eapply joins_is_free; [done| |done].
        intros e. by apply (runs_counts 1 lo hi).
      * intros b ?%elem_of_blocks_of ?%elem_of_free_set. by eapply Hdis.
  - destruct (alloc_extent_cases 1 lo hi ltac:(lia) Hlo Hhi l x H Hx)
      as [(m & -> & Hno)|(l' & k & -> & Hj & Hr & Hc & Hdis)].
    + split; [done|]. rewrite decide_False; [done|]. intros Hsub.
      destruct (proj2 (merged_covers lo hi l x H Hx)) as (e & He & Hce); [|by apply (Hno e)].
      intros b Hb. by apply elem_of_free_set, Hsub, elem_of_blocks_of.
    + split; [done|]. rewrite decide_True.
      * f_equal. apply leibniz_equiv, set_equiv. intros b.
        rewrite elem_of_difference, !elem_of_free_set, elem_of_blocks_of.
        rewrite (joins_is_free x l' l _ b Hj) by
          (try done; intros e; by apply (runs_counts 1 lo hi)).
        split; [naive_solver|]. intros Hf. split; [by left|]. intros Hb. by apply (Hdis b).
      * intros b Hb%elem_of_blocks_of. apply elem_of_free_set.
        by apply (proj1 (merged_covers lo hi l x H Hx)).
Qed.

(** C13: a group's run list implements a set of free blocks: any sequence of
    frees and allocations of runs inside the group succeeds and fails where
    the set says it should, leaves the list standing for the set it should,
    and keeps it ordered, merged and inside the group. *)
Theorem free_space_refines_set lo hi l ops :
  0 <= lo -> hi < 2 ^ 32 -> runs 1 lo hi l -> Forall (op_in lo hi) ops ->
  let '(l', rs) := space_run l ops in
  runs 1 lo hi l' /\ FreeSet.run (free_set l) ops = (free_set l', rs).
Proof.
  intros Hlo Hhi H Hops. revert l H.
  induction Hops as [|op ops Hop Hops IH]; intros l H; cbn [space_run FreeSet.run]; [done|].
  pose proof (space_step_refines lo hi l op Hlo Hhi H Hop) as Hs.
  destruct (space_step l op) as [l1 r]. destruct Hs as [H1 ->]. specialize (IH l1 H1).
  destruct (space_run l1 ops) as [l2 rs]. destruct IH as [H2 ->]. done.
Qed.

(** What freeing a run does to an ordered list (merged or not): it is
    refused, with the list untouched, exactly when one of its blocks is
    already free; otherwise its blocks are added, the group's total grows by
    its length, the outcome tells how the number of records changed, and the
    list keeps the order and the merging it had. *)
Theorem free_extent_exact g lo hi l x :
  0 <= g <= 1 -> 0 <= lo -> hi < 2 ^ 32 -> runs g lo hi l ->
  0 < blockcount x -> lo <= startblock x -> fe_end x <= hi ->
  match free_extent l x with
  | (l', Ok k) =>
      (forall b, in_extent x b -> ~ is_free l b) /\
      (forall b, is_free l' b <-> is_free l b \/ in_extent x b) /\
      total_free l' = total_free l + blockcount x /\
      Z.of_nat (length l') = Z.of_nat (length l) + freed_grows k /\ runs g lo hi l'
  | (l', Err e) => l' = l /\ (exists m, e = CorruptLog m) /\ exists b, is_free l b /\ in_extent x b
  | (_, Panic) => False
  end.
Proof.
  intros Hg Hlo Hhi H Hx Hl Hh.
  destruct (free_extent_cases g lo hi Hg Hlo Hhi l x H Hx Hl Hh)
    as [(e & b & -> & Hf & Hb)|(l' & k & -> & Hj & Hr & Hdis)]; [naive_solver|].
  rewrite !(total_free_spec g lo hi) by (try done; lia).
  split_and!; try done.
  - intros b. eapply joins_is_free; [done| |done]. intros e. apply (runs_counts g lo hi); [lia|done].
  - by eapply joins_total.
  - by eapply joins_length.
Qed.

(** What allocating a run does: it is refused, with the list untouched,
    exactly when no single record covers it; otherwise its blocks, and no
    others, leave the free space, the total shrinks by its length and the
    list keeps the order and the merging it had. *)
Theorem alloc_extent_exact g lo hi l x :
  0 <= g <= 1 -> 0 <= lo -> hi < 2 ^ 32 -> runs g lo hi l -> 0 < blockcount x ->
  match alloc_extent l x with
  | (l', Ok k) =>
      (exists e, e ∈ l /\ covers e x) /\
      (forall b, is_free l' b <-> is_free l b /\ ~ in_extent x b) /\
      total_free l' = total_free l - blockcount x /\
      Z.of_nat (length l') = Z.of_nat (length l) - freed_grows (undone_by k) /\ runs g lo hi l'
  | (l', Err e) =>
      l' = l /\ (exists m, e = CorruptLog m) /\ forall e, e ∈ l -> ~ covers e x
  | (_, Panic) => False
  end.
Proof.
  intros Hg Hlo Hhi H Hx.
  destruct (alloc_extent_cases g lo hi Hg Hlo Hhi l x H Hx)
    as [(m & -> & Hno)|(l' & k & -> & Hj & Hr & Hc & Hdis)]; [naive_solver|].
  rewrite !(total_free_spec g lo hi) by (try done; lia).
  pose proof (joins_total _ _ _ _ Hj). pose proof (joins_length _ _ _ _ Hj).
  split_and!; try done; try lia. intros b. rewrite (joins_is_free x l' l _ b Hj).
  - split; [|naive_solver]. intros Hf. split; [by left|]. intros Hb. by apply (Hdis b).
  - intros e. apply (runs_counts g lo hi); [lia|done].
  - done.
Qed.

(** On a merged list [alloc_extent] and [free_extent] undo each other
    record for record: freeing what was just allocated, and allocating what
    was just freed, gives the list back. *)
Theorem alloc_free_inverse lo hi l x l' :
  0 <= lo -> hi < 2 ^ 32 -> runs 1 lo hi l -> 0 < blockcount x ->
  lo <= startblock x -> fe_end x <= hi ->
  (forall k, alloc_extent l x = (l', Ok k) -> exists k', free_extent l' x = (l, Ok k')) /\
  (forall k, free_extent l x = (l', Ok k) -> exists k', alloc_extent l' x = (l, Ok k')).
Proof.
  intros Hlo Hhi H Hx Hl Hh. split; intros k Hop.
  - destruct (alloc_extent_cases 1 lo hi ltac:(lia) Hlo Hhi l x H Hx)
      as [(m & E & _)|(l1 & k1 & E & Hj & Hr & _ & Hdis)]; rewrite E in Hop; simplify_eq.
    destruct (free_extent_cases 1 lo hi ltac:(lia) Hlo Hhi l' x Hr Hx Hl Hh)
      as [(e & b & _ & Hf & Hb)|(l2 & k2 & -> & Hj2 & Hr2 & _)]; [by destruct (Hdis b)|].
    exists k2. do 2 f_equal. apply (runs_ext lo lo hi hi); try done. intros b.
    rewrite (joins_is_free x l' l2 k2 b), (joins_is_free x l' l (undone_by k) b);
      try done; intros e; by apply (runs_counts 1 lo hi).
  - destruct (free_extent_cases 1 lo hi ltac:(lia) Hlo Hhi l x H Hx Hl Hh)
      as [(e & b & E & _)|(l1 & k1 & E & Hj & Hr & Hdis)]; rewrite E in Hop; simplify_eq.
    assert (Hiff : forall b, is_free l' b <-> is_free l b \/ in_extent x b).
    { intros b. eapply joins_is_free; try done. intros e. by apply (runs_counts 1 lo hi). }
    destruct (alloc_extent_cases 1 lo hi ltac:(lia) Hlo Hhi l' x Hr Hx)
      as [(m & _ & Hno)|(l2 & k2 & -> & Hj2 & Hr2 & _ & Hdis2)].
    { destruct (proj2 (merged_covers lo hi l' x Hr Hx)) as (e & He & Hce); [|by destruct (Hno e)].
      intros b Hb. apply Hiff. by right. }
    exists k2. do 2 f_equal. apply (runs_ext lo lo hi hi); try done. intros b.
    pose proof (joins_is_free x l2 l' _ b Hj2) as Hiff2.
    specialize (Hiff b). specialize (Hdis b). specialize (Hdis2 b).
    rewrite Hiff in Hiff2 by (try done; intros e; by apply (runs_counts 1 lo hi)).
    assert ((forall e, e ∈ l2 -> 0 < blockcount e)) as Hp
      by (intros e; by apply (runs_counts 1 lo hi)).
    specialize (Hiff2 Hp Hx). tauto.
Qed.

(** ** Reading the records *)

Definition fe_typed (e : FreeExtent) : Prop := in_u 32 (startblock e) /\ in_u 32 (blockcount e).

Lemma check_runs_loop_spec agno length headers prev i l :
  0 <= headers -> Forall fe_typed l -> (l = [] -> prev <= length) -> headers < prev ->
  check_runs_loop agno length headers prev i l = Ok tt <-> runs 0 prev length l.
Proof.
  intros Hh Hl. revert prev i. induction Hl as [|r l [Hs Hc] Hl IH]; intros prev i Hn Hp.
  { cbn. specialize (Hn eq_refl). split; [lia|done]. }
  cbn [check_runs_loop runs]. unfold run_complaint, fe_end, in_u in *.
  destruct (Z.eqb_spec (blockcount r) 0); [naive_solver lia|].
  destruct (Z.leb_spec (startblock r) headers); [naive_solver lia|].
  destruct (Z.ltb_spec length (startblock r + blockcount r)).
  { split; [done|]. intros (_ & _ & Hb%(runs_bound 0 ltac:(lia))). lia. }
  destruct (Z.ltb_spec (startblock r) prev); [naive_solver lia|].
  rewrite IH, Z.add_0_r by lia. naive_solver lia.
Qed.

Lemma check_records_spec sb agno length l :
  0 <= 3 * sb_sectsize sb / sb_blocksize sb < length -> Forall fe_typed l ->
  check_records sb agno length l = Ok tt <->
  runs 0 (3 * sb_sectsize sb / sb_blocksize sb + 1) length l.
Proof.
  intros Hh Hl. set (h := 3 * sb_sectsize sb / sb_blocksize sb) in *.
  unfold check_records, check_runs. fold h.
  destruct l as [|r l]; [cbn; split; [lia|done]|].
  rewrite <- (check_runs_loop_spec agno length h (h + 1) 0) by (try done; lia).
  cbn [check_runs_loop]. unfold run_complaint.
  destruct (Z.eqb_spec (blockcount r) 0); [done|].
  destruct (Z.leb_spec (startblock r) h); [done|].
  rewrite !(proj2 (Z.ltb_ge (startblock r) _)) by lia. done.
Qed.

(** The records [check_records] lets through are exactly the ordered,
    non-empty, non-overlapping runs of blocks of the group past its headers,
    the lists the allocator's theorems start from. *)
Theorem check_records_exact sb agno length l :
  0 <= 3 * sb_sectsize sb / sb_blocksize sb < length -> Forall fe_typed l ->
  check_records sb agno length l = Ok tt <->
  runs 0 (3 * sb_sectsize sb / sb_blocksize sb + 1) length l.
Proof. apply check_records_spec. Qed.

Lemma encode_free_extent_Ok buf pos r :
  (pos + 8 <= length buf)%nat ->
  encode_free_extent buf pos r =
    Ok (splice pos (to_be_bytes 4 (startblock r) ++ to_be_bytes 4 (blockcount r)) buf).
Proof.
  intros H. unfold encode_free_extent.
  rewrite copy_at_Ok by (rewrite length_to_be_bytes; lia). cbn [mbind res_bind].
  rewrite copy_at_Ok by (rewrite length_splice; rewrite !length_to_be_bytes; lia).
  f_equal. apply splice_splice_adjacent; rewrite !length_to_be_bytes; lia.
Qed.

Lemma decode_free_extent_Ok buf pos :
  (pos + 8 <= length buf)%nat ->
  decode_free_extent buf pos = Ok (mkFree (rd 4 pos buf) (rd 4 (pos + 4) buf)).
Proof. intros. unfold decode_free_extent. rewrite !be32_Ok by lia. done. Qed.

(** ** Block addresses *)

(** The address a tree block states for itself, worked out from its group
    and its number in it, is the address its packed pointer unpacks to. *)
Theorem expected_blkno_packed sb agno agbno :
  sb_typed sb -> sb_geometry sb -> sb_dblocks sb * sb_blocksize sb < 2 ^ 64 ->
  ag_extent sb agno agbno 1 ->
  blkno_of_fsbno sb (agno * 2 ^ sb_agblklog sb + agbno) = expected_blkno sb agno agbno.
Proof.
  intros Hty Hgeo Hd He. unfold blkno_of_fsbno, expected_blkno, blkno_of_linear_block.
  rewrite fsblock_offset_packed by done. f_equal.
  pose proof (ag_extent_fits sb Hgeo agno agbno 1 He) as (Hb & Hbl & Hdb).
  destruct He as ([? ?] & _), Hty, Hgeo as [[? Hbs]]. unfold in_u in *.
  pose proof (pow2_pos (sb_blocklog sb) ltac:(lia)).
  assert (0 <= agno * sb_agblocks sb < 2 ^ 64) by nia.
  rewrite (wmul_small 64 agno), wadd_small, wmul_small by nia. done.
Qed.

(** ** A group with two free runs *)

Definition sample_free : list FreeExtent := [mkFree 10 6; mkFree 100 8].

Lemma sample_runs : runs 1 4 2048 sample_free.
Proof. cbn. unfold fe_end. cbn. lia. Qed.

Lemma free_space_refines_set_witness :
  let ops := [OpAlloc (mkFree 102 2); OpFree (mkFree 16 84); OpFree (mkFree 101 3);
              OpFree (mkFree 102 2); OpAlloc (mkFree 9 2)] in
  space_run sample_free ops = ([mkFree 10 98], [true; true; false; true; false]) /\
  FreeSet.run (free_set sample_free) ops =
    (free_set [mkFree 10 98], [true; true; false; true; false]).
Proof.
  intros ops.
  assert (Forall (op_in 4 2048) ops) as Hops
    by (repeat constructor; unfold fe_end; cbn; lia).
  pose proof (free_space_refines_set 4 2048 sample_free ops ltac:(lia) ltac:(lia)
    sample_runs Hops) as H.
  assert (space_run sample_free ops = ([mkFree 10 98], [true; true; false; true; false])) as E
    by (vm_compute; reflexivity).
  rewrite E in H. split; [exact E|apply H].
Defined.

Lemma free_extent_exact_witness :
  free_extent sample_free (mkFree 16 84) = ([mkFree 10 98], Ok JoinedTwo) /\
  total_free [mkFree 10 98] = total_free sample_free + 84.
Proof.
  pose proof (free_extent_exact 1 4 2048 sample_free (mkFree 16 84) ltac:(lia) ltac:(lia)
    ltac:(lia) sample_runs ltac:(reflexivity) ltac:(cbn; lia) ltac:(unfold fe_end; cbn; lia)) as H.
  assert (free_extent sample_free (mkFree 16 84) = ([mkFree 10 98], Ok JoinedTwo)) as E
    by reflexivity.
  rewrite E in H. split; [exact E|apply H].
Defined.

Lemma alloc_extent_exact_witness :
  alloc_extent sample_free (mkFree 102 2) =
    ([mkFree 10 6; mkFree 100 2; mkFree 104 4], Ok SplitInTwo) /\
  runs 1 4 2048 [mkFree 10 6; mkFree 100 2; mkFree 104 4].
Proof.
  pose proof (alloc_extent_exact 1 4 2048 sample_free (mkFree 102 2) ltac:(lia) ltac:(lia)
    ltac:(lia) sample_runs ltac:(reflexivity)) as H.
  split; [reflexivity|apply H].
Defined.

Lemma alloc_free_inverse_witness :
  exists k, free_extent [mkFree 10 6; mkFree 100 2; mkFree 104 4] (mkFree 102 2) =
    (sample_free, Ok k).
Proof.
  apply (proj1 (alloc_free_inverse 4 2048 sample_free (mkFree 102 2)
    [mkFree 10 6; mkFree 100 2; mkFree 104 4] ltac:(lia) ltac:(lia) sample_runs
    ltac:(reflexivity) ltac:(cbn; lia) ltac:(unfold fe_end; cbn; lia)) SplitInTwo).
  reflexivity.
Defined.

Lemma check_records_exact_witness :
  check_records sample_sb 0 2048 sample_free = Ok tt /\
  runs 0 (3 * sb_sectsize sample_sb / sb_blocksize sample_sb + 1) 2048 sample_free.
Proof.
  assert (check_records sample_sb 0 2048 sample_free = Ok tt) as E by reflexivity.
  split; [exact E|].
  apply (check_records_exact sample_sb 0 2048 sample_free); [vm_compute; split; congruence| |exact E].
  repeat constructor; cbn; lia.
Defined.

Lemma expected_blkno_packed_witness :
  blkno_of_fsbno sample_sb (1 * 2 ^ 11 + 7) = 2055 /\ expected_blkno sample_sb 1 7 = 2055.
Proof.
  pose proof (expected_blkno_packed sample_sb 1 7 sample_typed sample_geometry) as H.
  change (1 * 2 ^ 11) with (1 * 2 ^ sb_agblklog sample_sb).
  split; [rewrite H; [reflexivity|reflexivity|]|reflexivity].
  repeat split; vm_compute; congruence.
Defined.
