(* ===== verification/Inode.v ===== *)
(** * The inode core ([src/src/inode.rs])

    An inode is a fixed-size record whose core ends where its forks begin.  The
    theorems: what the parser accepts satisfies the checks that catch a misread
    core, its fork ranges lie inside the record, side by side, and it cannot
    panic; a v3 core is the inode it was read for, by its checksum, its number
    and its filesystem; times are written back where they were read, in either
    encoding, up to the year where the nanosecond count passes a signed word. *)

From Stdlib Require Import ZArith Lia Strings.String Strings.Byte Bool.
From stdpp Require Import base list strings.
From S2P Require Import Prelude Error Endian Crc32c Superblock Sample.

Module di.
Definition MAGIC : nat := 0.
Definition MODE : nat := 2.
Definition VERSION : nat := 4.
Definition FORMAT : nat := 5.
Definition UID : nat := 8.
Definition GID : nat := 12.
Definition NLINK : nat := 16.
Definition BIG_NEXTENTS : nat := 24.
Definition ATIME : nat := 32.
Definition MTIME : nat := 40.
Definition CTIME : nat := 48.
Definition SIZE : nat := 56.
Definition NBLOCKS : nat := 64.
Definition EXTSIZE : nat := 72.
Definition NEXTENTS : nat := 76.
Definition ANEXTENTS : nat := 80.
Definition FORKOFF : nat := 82.
Definition AFORMAT : nat := 83.
Definition FLAGS : nat := 90.
Definition GEN : nat := 92.
Definition NEXT_UNLINKED : nat := 96.
Definition CRC : nat := 100.
Definition CHANGECOUNT : nat := 104.
Definition LSN : nat := 112.
Definition FLAGS2 : nat := 120.
Definition COWEXTSIZE : nat := 128.
Definition CRTIME : nat := 144.
Definition INO : nat := 152.
Definition UUID : nat := 160.
End di.
(** Field positions as numbers. *)
Ltac di_lia := cbv [di.MAGIC di.MODE di.VERSION di.FORMAT di.UID di.GID di.NLINK di.BIG_NEXTENTS di.ATIME di.MTIME di.CTIME di.SIZE di.NBLOCKS di.EXTSIZE di.NEXTENTS di.ANEXTENTS di.FORKOFF di.AFORMAT di.FLAGS di.GEN di.NEXT_UNLINKED di.CRC di.CHANGECOUNT di.LSN di.FLAGS2 di.COWEXTSIZE di.CRTIME di.INO di.UUID] in *; lia.

Definition XFS_DINODE_MAGIC : Z := 0x494e.
Definition XFS_DINODE_V3_SIZE : nat := 176.
Definition XFS_DINODE_V2_SIZE : nat := 100.
Definition DI_CRC_OFFSET : nat := di.CRC.

Definition flags_REALTIME : Z := 1.
Definition flags2_REFLINK : Z := 2.
Definition flags2_BIGTIME : Z := 8.
(** [format::log_items::log_dinode::flags2] *)
Definition DI_FLAGS2_NREXT64 : Z := 16.

Module Format.
Inductive Format := Dev | Local | Extents | Btree | Uuid | Rmap.
#[global] Instance Format_eq_dec : EqDecision Format.
Proof. solve_decision. Defined.
End Format.
Notation Format := Format.Format.

Definition from_raw (v : Z) : res Format :=
  if v =? 0 then Ok Format.Dev
  else if v =? 1 then Ok Format.Local
  else if v =? 2 then Ok Format.Extents
  else if v =? 3 then Ok Format.Btree
  else if v =? 4 then Ok Format.Uuid
  else if v =? 5 then Ok Format.Rmap
  else Err (bad "inode fork format {} is not a defined value" [AZ v]).

Module FileType.
Inductive FileType := Regular | Directory | Symlink | CharDevice | BlockDevice | Fifo | Socket.
#[global] Instance FileType_eq_dec : EqDecision FileType.
Proof. solve_decision. Defined.
End FileType.
Notation FileType := FileType.FileType.

(** [sec] is an [i64], [nsec] a [u32]. *)
Record Timestamp := mkTime { sec : Z; nsec : Z }.

Definition BIGTIME_EPOCH_OFFSET_SECS : Z := -2147483648.
Definition NSEC_PER_SEC : Z := 1000000000.

(** [z as i32], and the saturating arithmetic of [i64]. *)
Definition as_i32 (z : Z) : Z := if z <? 2 ^ 31 then z else z - 2 ^ 32.
Definition sat_i64 (z : Z) : Z := Z.max (- 2 ^ 63) (Z.min z (2 ^ 63 - 1)).

Definition Timestamp_parse (buf : bytes) (off : nat) (bigtime : bool) : res Timestamp :=
  if bigtime then
    ns ← be64 buf off;
    Ok (mkTime (BIGTIME_EPOCH_OFFSET_SECS + ns / NSEC_PER_SEC) (ns mod NSEC_PER_SEC))
  else
    s ← be32 buf off;
    n ← be32 buf (off + 4);
    Ok (mkTime (as_i32 s) n).

Definition encode (t : Timestamp) (buf : bytes) (off : nat) (bigtime : bool) : res bytes :=
  if bigtime then
    let from_epoch := sat_i64 (sec t - BIGTIME_EPOCH_OFFSET_SECS) in
    let ns := Z.max (sat_i64 (sat_i64 (from_epoch * NSEC_PER_SEC) + nsec t)) 0 in
    copy_at off (to_be_bytes 8 ns) buf
  else
    let s := Z.max (- 2 ^ 31) (Z.min (sec t) (2 ^ 31 - 1)) in
    buf ← copy_at off (to_be_bytes 4 (s mod 2 ^ 32)) buf;
    copy_at (off + 4) (to_be_bytes 4 (nsec t)) buf.

Inductive Changed := Status | Contents.

Definition stamp_change (core : bytes) (when_ : Timestamp) (changed : Changed) : res bytes :=
  version ← byte_at core di.VERSION;
  bigtime ← (if 3 <=? version then
               f ← be64 core di.FLAGS2; Ok (negb (Z.land f flags2_BIGTIME =? 0))
             else Ok false);
  core ← encode when_ core di.CTIME bigtime;
  match changed with
  | Contents => encode when_ core di.MTIME bigtime
  | Status => Ok core
  end.

Record Inode := mkInode {
  i_ino : Z; i_mode : Z; i_version : Z; i_format : Format; i_aformat : Format; i_uid : Z; i_gid : Z; i_nlink : Z;
  i_size : Z; i_nblocks : Z; i_nextents : Z; i_anextents : Z; i_forkoff : Z; i_flags : Z; i_flags2 : Z; i_gen : Z;
  i_next_unlinked : Z; i_atime : Timestamp; i_mtime : Timestamp; i_ctime : Timestamp; i_crtime : Timestamp;
}.

Definition has_large_extent_counts (core : bytes) : bool :=
  match core !! di.VERSION with
  | Some version =>
      (3 <=? b2z version) && (di.FLAGS2 + 8 <=? length core)%nat &&
      match be64 core di.FLAGS2 with Ok f => negb (Z.land f DI_FLAGS2_NREXT64 =? 0) | _ => false end
  | None => false
  end.

Definition set_attr_extent_count (core : bytes) (count : Z) : res bytes :=
  if has_large_extent_counts core then copy_at di.NEXTENTS (to_be_bytes 4 count) core
  else copy_at di.ANEXTENTS (to_be_bytes 2 count) core.

Definition core_size (version : Z) : nat := if version =? 3 then XFS_DINODE_V3_SIZE else XFS_DINODE_V2_SIZE.

Section parse.
Context `{Crc : Crc32c}.

Definition verify_v3_integrity (buf : bytes) (sb : Superblock) (ino : Z) (what : string) : res unit :=
  stored ← le32 buf DI_CRC_OFFSET;
  record ← get_slice 0 (Z.to_nat (sb_inodesize sb)) buf;
  computed ← crc32c_with_zeroed_crc record DI_CRC_OFFSET;
  fail_if (negb (stored =? computed)) (ChecksumMismatch what ino);;
  self_ino ← be64 buf di.INO;
  fail_if (negb (self_ino =? ino)) (BlockIdentityMismatch what ino self_ino);;
  uuid ← uuid_at buf di.UUID;
  fail_if (negb (bool_decide (uuid = sb_meta_uuid sb))) (BlockIdentityMismatch what ino (umax 64)).

Definition Inode_validate (i : Inode) (sb : Superblock) : res unit :=
  let isize := sb_inodesize sb in
  (if negb (i_forkoff i =? 0) then
     let attr_start := Z.of_nat (core_size (i_version i)) + i_forkoff i * 8 in
     fail_if (isize <? attr_start)
       (bad "inode {}: attribute fork starts at {}, past the {}-byte inode" [AZ (i_ino i); AZ attr_start; AZ isize])
   else Ok tt);;
  fail_if (bool_decide (i_format i = Format.Local) && (isize <? i_size i))
    (bad "inode {}: local-format fork claims {} bytes, larger than the {}-byte inode" [AZ (i_ino i); AZ (i_size i); AZ isize]);;
  fail_if (bool_decide (i_format i = Format.Dev) &&
           (negb (i_nextents i =? 0) || (negb (i_nblocks i =? 0) && (i_forkoff i =? 0))))
    (bad "inode {}: device inode has {} blocks and {} extents" [AZ (i_ino i); AZ (i_nblocks i); AZ (i_nextents i)]).

(** The fields, once the record is trusted. *)
Definition Inode_fields (buf : bytes) (ino version : Z) : res Inode :=
  let is_v3 := version =? 3 in
  flags2 ← (if is_v3 then be64 buf di.FLAGS2 else Ok 0);
  let bigtime := negb (Z.land flags2 flags2_BIGTIME =? 0) in
  '(nextents, anextents) ←
    (if has_large_extent_counts buf then
       n ← be64 buf di.BIG_NEXTENTS; a ← be32 buf di.NEXTENTS; Ok (n, a)
     else n ← be32 buf di.NEXTENTS; a ← be16 buf di.ANEXTENTS; Ok (n, a));
  mode ← be16 buf di.MODE;
  format_raw ← byte_at buf di.FORMAT;
  format ← from_raw format_raw;
  aformat_raw ← byte_at buf di.AFORMAT;
  aformat ← from_raw aformat_raw;
  uid ← be32 buf di.UID;
  gid ← be32 buf di.GID;
  nlink ← be32 buf di.NLINK;
  size ← be64 buf di.SIZE;
  nblocks ← be64 buf di.NBLOCKS;
  forkoff ← byte_at buf di.FORKOFF;
  flags ← be16 buf di.FLAGS;
  gen ← be32 buf di.GEN;
  next_unlinked ← be32 buf di.NEXT_UNLINKED;
  atime ← Timestamp_parse buf di.ATIME bigtime;
  mtime ← Timestamp_parse buf di.MTIME bigtime;
  ctime ← Timestamp_parse buf di.CTIME bigtime;
  crtime ← (if is_v3 then Timestamp_parse buf di.CRTIME bigtime else Ok (mkTime 0 0));
  Ok (mkInode ino mode version format aformat uid gid nlink size nblocks nextents anextents forkoff flags flags2 gen
        next_unlinked atime mtime ctime crtime).

Definition Inode_parse (buf : bytes) (sb : Superblock) (ino : Z) : res Inode :=
  let isize := Z.to_nat (sb_inodesize sb) in
  fail_if (length buf <? isize)%nat
    (bad "inode {}: need {} bytes, got {}" [AZ ino; AZ (Z.of_nat isize); AZ (Z.of_nat (length buf))]);;
  magic ← be16 buf di.MAGIC;
  fail_if (negb (magic =? XFS_DINODE_MAGIC))
    (bad "inode {}: magic {}, expected {}" [AZ ino; AZ magic; AZ XFS_DINODE_MAGIC]);;
  version ← byte_at buf di.VERSION;
  fail_if (negb ((1 <=? version) && (version <=? 3))) (bad "inode {}: version {} is not 1, 2 or 3" [AZ ino; AZ version]);;
  let expected_v3 := is_v5 sb in
  fail_if (negb (Bool.eqb (version =? 3) expected_v3))
    (bad "inode {}: version {} on a {} filesystem, whose inodes are {}"
       [AZ ino; AZ version; AS (if expected_v3 then "v5" else "v4");
        AS (if expected_v3 then "version 3" else "version 1 or 2")]);;
  (if version =? 3 then verify_v3_integrity buf sb ino "inode" else Ok tt);;
  inode ← Inode_fields buf ino version;
  Inode_validate inode sb;;
  Ok inode.

Definition verify_free_slot (buf : bytes) (sb : Superblock) (ino : Z) : res unit :=
  let isize := Z.to_nat (sb_inodesize sb) in
  fail_if (length buf <? isize)%nat
    (bad "free inode {}: need {} bytes, got {}" [AZ ino; AZ (Z.of_nat isize); AZ (Z.of_nat (length buf))]);;
  magic ← be16 buf di.MAGIC;
  fail_if (negb (magic =? XFS_DINODE_MAGIC))
    (bad "free inode {}: magic {}, expected {}" [AZ ino; AZ magic; AZ XFS_DINODE_MAGIC]);;
  version ← byte_at buf di.VERSION;
  fail_if (negb (version =? 3))
    (bad "free inode {}: version {}, where a v5 filesystem's inodes are version 3" [AZ ino; AZ version]);;
  verify_v3_integrity buf sb ino "free inode";;
  mode ← be16 buf di.MODE;
  fail_if (negb (mode =? 0))
    (bad "inode {}: the inode trees say it is free, but its slot holds mode {}; creating over it would replace a file that is still there"
       [AZ ino; AZ mode]).
End parse.

Definition file_type (i : Inode) : option FileType :=
  let m := Z.land (i_mode i) 0xF000 in
  if m =? 0x8000 then Some FileType.Regular
  else if m =? 0x4000 then Some FileType.Directory
  else if m =? 0xA000 then Some FileType.Symlink
  else if m =? 0x2000 then Some FileType.CharDevice
  else if m =? 0x6000 then Some FileType.BlockDevice
  else if m =? 0x1000 then Some FileType.Fifo
  else if m =? 0xC000 then Some FileType.Socket
  else None.
Definition permissions (i : Inode) : Z := Z.land (i_mode i) 0xFFF.
Definition is_dir (i : Inode) : bool := bool_decide (file_type i = Some FileType.Directory).
Definition is_regular_file (i : Inode) : bool := bool_decide (file_type i = Some FileType.Regular).
Definition is_symlink (i : Inode) : bool := bool_decide (file_type i = Some FileType.Symlink).
Definition data_fork_offset (i : Inode) : nat := core_size (i_version i).
Definition data_fork_range (i : Inode) (inodesize : nat) : nat * nat :=
  let start := data_fork_offset i in
  let end_ := if i_forkoff i =? 0 then inodesize else (start + Z.to_nat (i_forkoff i) * 8)%nat in
  (start, Nat.min end_ inodesize).
Definition attr_fork_range (i : Inode) (inodesize : nat) : option (nat * nat) :=
  if i_forkoff i =? 0 then None
  else
    let start := (data_fork_offset i + Z.to_nat (i_forkoff i) * 8)%nat in
    if (inodesize <=? start)%nat then None else Some (start, inodesize).
Definition has_shared_extents (i : Inode) : bool := negb (Z.land (i_flags2 i) flags2_REFLINK =? 0).
Definition is_realtime (i : Inode) : bool := negb (Z.land (i_flags i) flags_REALTIME =? 0).

(** ** Times *)

Definition typed_time (t : Timestamp) : Prop := - 2 ^ 63 <= sec t < 2 ^ 63 /\ in_u 32 (nsec t).
(** Nanoseconds from the bigtime epoch, and the time so far from it. *)
Definition nanos (t : Timestamp) : Z := (sec t - BIGTIME_EPOCH_OFFSET_SECS) * NSEC_PER_SEC + nsec t.
Definition at_nanos (n : Z) : Timestamp := mkTime (BIGTIME_EPOCH_OFFSET_SECS + n / NSEC_PER_SEC) (n mod NSEC_PER_SEC).
Definition clamp (lo hi z : Z) : Z := Z.max lo (Z.min z hi).
(** What either encoding can hold of a time. *)
Definition held_time (t : Timestamp) (bigtime : bool) : Timestamp :=
  if bigtime then at_nanos (clamp 0 (2 ^ 63 - 1) (nanos t))
  else mkTime (clamp (- 2 ^ 31) (2 ^ 31 - 1) (sec t)) (nsec t).

Lemma nanos_at n : nanos (at_nanos n) = n.
Proof.
  unfold nanos, at_nanos. cbn [sec nsec]. pose proof (Z.div_mod n NSEC_PER_SEC ltac:(done)).
  unfold NSEC_PER_SEC, BIGTIME_EPOCH_OFFSET_SECS in *. lia.
Qed.

Lemma stored_nanos t :
  typed_time t ->
  Z.max (sat_i64 (sat_i64 (sat_i64 (sec t - BIGTIME_EPOCH_OFFSET_SECS) * NSEC_PER_SEC) + nsec t)) 0 =
  clamp 0 (2 ^ 63 - 1) (nanos t).
Proof. intros [Hs Hn]. unfold nanos, clamp, sat_i64, in_u, NSEC_PER_SEC, BIGTIME_EPOCH_OFFSET_SECS in *. lia. Qed.

Lemma as_i32_mod z : - 2 ^ 31 <= z < 2 ^ 31 -> as_i32 (z mod 2 ^ 32) = z.
Proof.
  intros Hz. unfold as_i32. destruct (Z.ltb_spec z 0).
  - rewrite <- (Z.mod_unique z (2 ^ 32) (-1) (z + 2 ^ 32)) by lia. rewrite (proj2 (Z.ltb_ge _ _)) by lia. lia.
  - rewrite Z.mod_small by lia. by rewrite (proj2 (Z.ltb_lt _ _)) by lia.
Qed.

Lemma as_i32_range z : in_u 32 z -> - 2 ^ 31 <= as_i32 z < 2 ^ 31 /\ as_i32 z mod 2 ^ 32 = z.
Proof.
  intros Hz. unfold in_u, as_i32 in *. destruct (Z.ltb_spec z (2 ^ 31)).
  - split; [lia|]. apply Z.mod_small. lia.
  - split; [lia|]. symmetry. apply (Z.mod_unique _ _ (-1)); lia.
Qed.

(** What [encode] stores, as bytes. *)
Definition time_bytes (t : Timestamp) (bigtime : bool) : bytes :=
  if bigtime then to_be_bytes 8 (clamp 0 (2 ^ 63 - 1) (nanos t))
  else to_be_bytes 4 (clamp (- 2 ^ 31) (2 ^ 31 - 1) (sec t) mod 2 ^ 32) ++ to_be_bytes 4 (nsec t).

Lemma length_time_bytes t bigtime : length (time_bytes t bigtime) = 8%nat.
Proof. by destruct bigtime. Qed.

Lemma encode_spec t buf off bigtime :
  typed_time t -> (off + 8 <= length buf)%nat ->
  encode t buf off bigtime = Ok (splice off (time_bytes t bigtime) buf).
Proof.
  intros Ht Hl. unfold encode, time_bytes. destruct bigtime.
  - rewrite stored_nanos by done. by rewrite copy_at_Ok by (rewrite length_to_be_bytes; lia).
  - rewrite copy_at_Ok by (rewrite length_to_be_bytes; lia). cbn [mbind res_bind].
    apply copy_at_after; rewrite length_to_be_bytes; lia.
Qed.

Lemma parse_time_bytes t buf off bigtime :
  typed_time t -> slice off 8 buf = time_bytes t bigtime -> Timestamp_parse buf off bigtime = Ok (held_time t bigtime).
Proof.
  intros [Hs Hn] E. assert (Hl : (off + 8 <= length buf)%nat).
  { pose proof (length_time_bytes t bigtime) as H. rewrite <- E in H. unfold slice in H. rewrite length_take, length_drop in H. lia. }
  unfold Timestamp_parse, held_time, time_bytes in *. destruct bigtime.
  - rewrite be64_Ok by lia. cbn [mbind res_bind]. unfold rd. rewrite E, from_to_be_bytes_small by (unfold clamp; cbn; lia). done.
  - rewrite !be32_Ok by lia. cbn [mbind res_bind]. unfold rd.
    change 8%nat with (4 + 4)%nat in E. rewrite slice_app_split in E. apply app_inj_1 in E as [-> ->]; [|rewrite length_slice by lia; done].
    unfold in_u in *. rewrite !from_to_be_bytes_small by (try apply Z.mod_pos_bound; cbn; lia). by rewrite as_i32_mod by (unfold clamp; lia).
Qed.

Lemma parsed_time buf off bigtime :
  (off + 8 <= length buf)%nat ->
  exists t, Timestamp_parse buf off bigtime = Ok t /\ typed_time t /\
    (if bigtime then nanos t = rd 8 off buf else time_bytes t false = slice off 8 buf).
Proof.
  intros Hl. unfold Timestamp_parse. destruct bigtime.
  - rewrite be64_Ok by lia. cbn [mbind res_bind]. eexists; split; [done|]. fold (at_nanos (rd 8 off buf)).
    pose proof (rd_range 8 off buf Hl) as Hr. split; [|apply nanos_at]. unfold at_nanos, typed_time, in_u. cbn [sec nsec].
    pose proof (Z.mod_pos_bound (rd 8 off buf) NSEC_PER_SEC ltac:(done)) as Hm.
    pose proof (Z.div_mod (rd 8 off buf) NSEC_PER_SEC ltac:(done)). unfold NSEC_PER_SEC, BIGTIME_EPOCH_OFFSET_SECS in *. cbn in Hr. lia.
  - rewrite !be32_Ok by lia. cbn [mbind res_bind]. eexists; split; [done|].
    pose proof (rd_range 4 off buf ltac:(lia)) as Hr. pose proof (rd_range 4 (off + 4) buf ltac:(lia)) as Hr2.
    change (256 ^ Z.of_nat 4) with (2 ^ 32) in *. destruct (as_i32_range (rd 4 off buf) Hr) as [Hs Hm].
    split; [unfold typed_time; cbn [sec nsec]; split; [lia|done]|]. unfold time_bytes, clamp. cbn [sec nsec].
    rewrite Z.min_l, Z.max_r by lia. rewrite Hm. unfold rd.
    rewrite !to_from_be_bytes' by (apply length_slice; lia). symmetry. apply (slice_app_split off 4 4).
Qed.

(** The time codec.  Encoding a time writes eight bytes and nothing else,
    and reading them gives the time clamped to what the encoding holds; so a
    time in range is read back as it was.  Writing back a time that was read
    restores the legacy bytes always, and the bigtime bytes exactly when the
    count is below 2^63: from there on, where the format still goes, the signed
    arithmetic stores 2^63 - 1 instead. *)
Theorem timestamp_codec buf off bigtime :
  (off + 8 <= length buf)%nat ->
  (forall t, typed_time t -> exists buf', encode t buf off bigtime = Ok buf' /\ length buf' = length buf /\
     Timestamp_parse buf' off bigtime = Ok (held_time t bigtime) /\
     forall i, ~ (off <= i < off + 8)%nat -> buf' !! i = buf !! i) /\
  exists t, Timestamp_parse buf off bigtime = Ok t /\
    (encode t buf off bigtime = Ok buf <-> bigtime = false \/ rd 8 off buf < 2 ^ 63) /\
    (bigtime = true -> 2 ^ 63 <= rd 8 off buf ->
       encode t buf off bigtime = Ok (splice off (to_be_bytes 8 (2 ^ 63 - 1)) buf)).
Proof.
  intros Hl. assert (Hfits : forall t, (off + length (time_bytes t bigtime) <= length buf)%nat) by (intros; rewrite length_time_bytes; lia).
  split.
  - intros t Ht. eexists. split; [by apply encode_spec|]. split; [by apply length_splice|]. split.
    + apply parse_time_bytes; [done|]. apply slice_splice_same; [done|by rewrite length_time_bytes].
    + intros i Hi. apply lookup_splice_out; [done|]. rewrite length_time_bytes. lia.
  - destruct (parsed_time buf off bigtime Hl) as (t & E & Ht & Hb). exists t. split; [done|]. rewrite encode_spec by done.
    pose proof (rd_range 8 off buf Hl) as Hr. change (256 ^ Z.of_nat 8) with (2 ^ 64) in Hr.
    assert (Hid : time_bytes t bigtime = slice off 8 buf -> splice off (time_bytes t bigtime) buf = buf).
    { intros ->. by apply splice_self. }
    destruct bigtime.
    + unfold time_bytes in *. rewrite Hb in *. split.
      * split; [|intros [[=]|H]].
        -- intros E'. apply (f_equal (fun r => match r with Ok b => rd 8 off b | _ => 0 end)) in E'. cbv beta iota in E'. right. destruct (decide (rd 8 off buf < 2 ^ 63)); [done|exfalso].
           rewrite rd_splice_same in E' by (unfold clamp; cbn; lia). unfold clamp in E'. lia.
        -- f_equal. apply Hid. unfold clamp. rewrite Z.min_l, Z.max_r by lia. apply to_from_be_bytes'. by apply length_slice.
      * intros _ H. do 3 f_equal. unfold clamp. lia.
    + split; [|done]. split; [by left|]. intros _. f_equal. by apply Hid.
Qed.

(** ** What an accepted core says *)

Section facts.
Context `{Crc : Crc32c} (sb : Superblock) (Hty : sb_typed sb) (Hgeo : sb_geometry sb).
Notation isize := (Z.to_nat (sb_inodesize sb)).

Lemma inodesize_bounds : 256 <= sb_inodesize sb <= 2048.
Proof.
  destruct Hgeo as [_ _ [Hl ->] _]. split.
  - change 256 with (2 ^ 8). apply Z.pow_le_mono_r; lia.
  - change 2048 with (2 ^ 11). apply Z.pow_le_mono_r; lia.
Qed.

(** A v3 record is the one asked for. *)
Record own_inode (buf : bytes) (ino : Z) : Prop := {
  oi_crc : rd_le 4 di.CRC buf = zeroed_crc (take isize buf) di.CRC;
  oi_ino : rd 8 di.INO buf = ino;
  oi_uuid : slice di.UUID 16 buf = sb_meta_uuid sb;
}.

Lemma verify_v3_spec buf ino what :
  (isize <= length buf)%nat ->
  verify_v3_integrity buf sb ino what <> Panic /\
  (verify_v3_integrity buf sb ino what = Ok tt <-> own_inode buf ino).
Proof.
  intros Hl. pose proof inodesize_bounds. unfold verify_v3_integrity, DI_CRC_OFFSET.
  rewrite le32_Ok, get_slice_Ok by (unfold di.CRC; lia). cbn [mbind res_bind]. change (slice 0 ?n buf) with (take n buf).
  rewrite crc32c_with_zeroed_crc_Ok by (rewrite length_take; unfold di.CRC; lia). cbn [mbind res_bind].
  rewrite be64_Ok by (unfold di.INO; lia). rewrite uuid_at_Ok by (unfold di.UUID; lia). cbn [mbind res_bind].
  destruct (Z.eqb_spec (rd_le 4 di.CRC buf) (zeroed_crc (take isize buf) di.CRC)); cbn [negb fail_if mbind res_bind];
    [|split; [done|split; [done|by intros []]]].
  destruct (Z.eqb_spec (rd 8 di.INO buf) ino); cbn [negb fail_if mbind res_bind]; [|split; [done|split; [done|by intros []]]].
  case_bool_decide; cbn [negb fail_if]; (split; [done|split; [done|by intros []]]).
Qed.

(** The fork formats are the only fields a core can be refused for. *)
Definition format_known (raw : Z) : Prop := raw <= 5.

Lemma from_raw_spec raw : 0 <= raw -> from_raw raw <> Panic /\ (forall f, from_raw raw = Ok f -> format_known raw).
Proof.
  intros Hr. unfold from_raw, format_known.
  repeat (case_match; [split; [done|]; intros; bool_prop; lia|]). by split.
Qed.

Lemma large_counts_read buf : has_large_extent_counts buf = true -> (di.FLAGS2 + 8 <= length buf)%nat.
Proof. unfold has_large_extent_counts. destruct (buf !! _); [|done]. intros H. bool_prop. lia. Qed.

Lemma fields_spec buf ino version :
  (256 <= length buf)%nat ->
  Inode_fields buf ino version <> Panic /\
  forall i, Inode_fields buf ino version = Ok i ->
    i_ino i = ino /\ i_version i = version /\ i_mode i = rd 2 di.MODE buf /\ i_size i = rd 8 di.SIZE buf /\
    i_nblocks i = rd 8 di.NBLOCKS buf /\ i_forkoff i = rd 1 di.FORKOFF buf /\
    i_nextents i = (if has_large_extent_counts buf then rd 8 di.BIG_NEXTENTS buf else rd 4 di.NEXTENTS buf) /\
    i_anextents i = (if has_large_extent_counts buf then rd 4 di.NEXTENTS buf else rd 2 di.ANEXTENTS buf).
Proof.
  intros Hl. unfold Inode_fields.
  assert (Ht : forall off b, (off + 8 <= 256)%nat -> exists t, Timestamp_parse buf off b = Ok t).
  { intros off b Ho. destruct (parsed_time buf off b ltac:(lia)) as (t & E & _). by exists t. }
  rewrite !be64_Ok, !be32_Ok, !be16_Ok, !byte_at_Ok by di_lia.
  assert (exists f2, (if version =? 3 then Ok (rd 8 di.FLAGS2 buf) else Ok 0) = Ok f2) as [f2 ->] by (destruct (version =? 3); by eexists).
  cbn [mbind res_bind]. set (b := negb (Z.land f2 flags2_BIGTIME =? 0)).
  assert (exists t, Timestamp_parse buf di.ATIME b = Ok t) as [t1 ->] by (apply Ht; di_lia).
  assert (exists t, Timestamp_parse buf di.MTIME b = Ok t) as [t2 ->] by (apply Ht; di_lia).
  assert (exists t, Timestamp_parse buf di.CTIME b = Ok t) as [t3 ->] by (apply Ht; di_lia).
  assert (exists t, (if version =? 3 then Timestamp_parse buf di.CRTIME b else Ok (mkTime 0 0)) = Ok t) as [t4 ->].
  { destruct (version =? 3); [apply Ht; di_lia|by eexists]. }
  pose proof (from_raw_spec (rd 1 di.FORMAT buf) ltac:(apply rd_range_any)) as [Hp1 _].
  pose proof (from_raw_spec (rd 1 di.AFORMAT buf) ltac:(apply rd_range_any)) as [Hp2 _].
  destruct (has_large_extent_counts buf); cbn [mbind res_bind];
    (destruct (from_raw (rd 1 di.FORMAT buf)); cbn [mbind res_bind]; [|done..];
     destruct (from_raw (rd 1 di.AFORMAT buf)); cbn [mbind res_bind]; [|done..]; split; [done|]; by intros i [= <-]).
Qed.

(** The forks of an inode lie in its record, the attribute fork after the data
    fork. *)
Record forks_ok (i : Inode) : Prop := {
  fk_start : data_fork_offset i = core_size (i_version i);
  fk_data : (data_fork_offset i <= (data_fork_range i isize).2 <= isize)%nat;
  fk_attr : match attr_fork_range i isize with
            | Some (s, e) => s = (data_fork_range i isize).2 /\ e = isize /\ (s < e)%nat
            | None => (data_fork_range i isize).2 = isize
            end;
}.

Lemma validate_forks i : 0 <= i_forkoff i -> Inode_validate i sb = Ok tt -> forks_ok i.
Proof.
  intros Hf Hv. pose proof inodesize_bounds. unfold Inode_validate in Hv. apply bind_Ok in Hv as ([] & Hv & _).
  assert (Hc : (core_size (i_version i) <= 176)%nat) by (unfold core_size, XFS_DINODE_V3_SIZE, XFS_DINODE_V2_SIZE; destruct (_ =? 3); lia).
  split; unfold attr_fork_range, data_fork_range, data_fork_offset; cbn [fst snd]; [done|..].
  all: destruct (Z.eqb_spec (i_forkoff i) 0) as [|Hne]; cbn [negb] in Hv; [lia|]; apply fail_if_Ok, Z.ltb_ge in Hv.
  - lia.
  - destruct (Nat.leb_spec isize (core_size (i_version i) + Z.to_nat (i_forkoff i) * 8)); split_and?; lia.
Qed.

Lemma Inode_parse_spec buf ino :
  Inode_parse buf sb ino <> Panic /\
  forall i, Inode_parse buf sb ino = Ok i ->
    rd 2 di.MAGIC buf = XFS_DINODE_MAGIC /\ i_ino i = ino /\ 1 <= i_version i <= 3 /\ (i_version i = 3 <-> is_v5 sb = true) /\
    (is_v5 sb = true -> own_inode buf ino) /\ forks_ok i /\
    (i_format i = Format.Local -> i_size i <= sb_inodesize sb) /\
    (i_format i = Format.Dev -> i_nextents i = 0 /\ (i_nblocks i <> 0 -> i_forkoff i <> 0)) /\
    i_mode i = rd 2 di.MODE buf /\ i_size i = rd 8 di.SIZE buf /\
    i_nextents i = (if has_large_extent_counts buf then rd 8 di.BIG_NEXTENTS buf else rd 4 di.NEXTENTS buf).
Proof.
  pose proof inodesize_bounds. unfold Inode_parse. destruct (Nat.ltb_spec (length buf) isize); cbn [fail_if mbind res_bind]; [done|].
  rewrite be16_Ok, byte_at_Ok by di_lia. cbn [mbind res_bind].
  destruct (Z.eqb_spec (rd 2 di.MAGIC buf) XFS_DINODE_MAGIC); cbn [negb fail_if mbind res_bind]; [|done].
  destruct ((1 <=? rd 1 di.VERSION buf) && (rd 1 di.VERSION buf <=? 3)) eqn:Ev; cbn [negb fail_if mbind res_bind]; [|done].
  destruct (Bool.eqb (rd 1 di.VERSION buf =? 3) (is_v5 sb)) eqn:E5; cbn [negb fail_if mbind res_bind]; [|done].
  apply Bool.eqb_prop in E5. bool_prop. pose proof (verify_v3_spec buf ino "inode" ltac:(lia)) as [Hvp Hvi].
  pose proof (fields_spec buf ino (rd 1 di.VERSION buf) ltac:(lia)) as [Hfp Hf]. split.
  - apply bind_not_Panic; [by destruct (rd 1 di.VERSION buf =? 3)|]. intros _ _. apply bind_not_Panic; [done|]. intros i _.
    apply bind_not_Panic; [|done]. unfold Inode_validate. apply bind_not_Panic; [destruct (negb _); [apply fail_if_not_Panic|done]|].
    intros _ _. apply bind_not_Panic; [apply fail_if_not_Panic|]. intros _ _. apply fail_if_not_Panic.
  - intros i Hp. apply bind_Ok in Hp as ([] & Hv & Hp). apply bind_Ok in Hp as (i' & Hi & Hp).
    apply bind_Ok in Hp as ([] & Hval & [= <-]). destruct (Hf i' Hi) as (F1 & F2 & F3 & F4 & F5 & F6 & F7 & _).
    assert (Hfk : 0 <= i_forkoff i') by (rewrite F6; apply rd_range_any).
    pose proof (validate_forks i' Hfk Hval) as Hforks. unfold Inode_validate in Hval.
    apply bind_Ok in Hval as ([] & _ & Hval). rewrite guard_Ok in Hval. destruct Hval as [Hloc Hdev]. apply fail_if_Ok in Hdev.
    split_and!; try done; try (rewrite F2; lia).
    + rewrite F2, <- E5. split; [intros ->; done|intros; by apply Z.eqb_eq].
    + intros H5v. rewrite <- E5 in H5v. rewrite H5v in Hv. by apply Hvi.
    + intros Hl. rewrite bool_decide_true in Hloc by done. cbn [andb] in Hloc. bool_prop. lia.
    + intros Hd. rewrite bool_decide_true in Hdev by done. cbn [andb] in Hdev. apply orb_false_iff in Hdev as [Hn Hb]. bool_prop.
      split; [done|]. intros Hnb Hz. apply andb_false_iff in Hb as [Hb|Hb]; bool_prop; [|done]. by apply Hnb.
Qed.


(** A slot is free exactly when it is the whole, right record and holds no
    file. *)
Theorem verify_free_slot_exact buf ino :
  verify_free_slot buf sb ino <> Panic /\
  (verify_free_slot buf sb ino = Ok tt <->
     (isize <= length buf)%nat /\ rd 2 di.MAGIC buf = XFS_DINODE_MAGIC /\ rd 1 di.VERSION buf = 3 /\
     own_inode buf ino /\ rd 2 di.MODE buf = 0).
Proof.
  pose proof inodesize_bounds. unfold verify_free_slot.
  destruct (Nat.ltb_spec (length buf) isize); cbn [fail_if mbind res_bind]; [split; [done|split; [done|naive_solver lia]]|].
  rewrite !be16_Ok, byte_at_Ok by di_lia. cbn [mbind res_bind].
  destruct (Z.eqb_spec (rd 2 di.MAGIC buf) XFS_DINODE_MAGIC); cbn [negb fail_if mbind res_bind]; [|naive_solver].
  destruct (Z.eqb_spec (rd 1 di.VERSION buf) 3); cbn [negb fail_if mbind res_bind]; [|naive_solver].
  pose proof (verify_v3_spec buf ino "free inode" ltac:(lia)) as [Hvp Hvi].
  destruct (verify_v3_integrity _ _ _ _) as [[]|er|]; cbn [mbind res_bind]; [|naive_solver..].
  destruct (Z.eqb_spec (rd 2 di.MODE buf) 0); cbn [negb fail_if]; naive_solver.
Qed.
End facts.

(** ** The time of a change *)

(** Stamping a change.  It writes the change time, and the modification
    time when the contents changed, in the encoding the core itself says it
    uses, and no other byte; both are then read back as that encoding holds
    them. *)
Theorem stamp_change_exact core when_ changed :
  (256 <= length core)%nat -> typed_time when_ ->
  exists core' bigtime, stamp_change core when_ changed = Ok core' /\ length core' = length core /\
    (bigtime = true <-> 3 <= rd 1 di.VERSION core /\ Z.land (rd 8 di.FLAGS2 core) flags2_BIGTIME <> 0) /\
    Timestamp_parse core' di.CTIME bigtime = Ok (held_time when_ bigtime) /\
    Timestamp_parse core' di.MTIME bigtime =
      (match changed with Contents => Ok (held_time when_ bigtime) | Status => Timestamp_parse core di.MTIME bigtime end) /\
    (forall i, ~ (di.CTIME <= i < di.CTIME + 8)%nat -> (changed = Contents -> ~ (di.MTIME <= i < di.MTIME + 8)%nat) ->
       core' !! i = core !! i).
Proof.
  intros Hl Ht. unfold stamp_change. rewrite byte_at_Ok by di_lia. cbn [mbind res_bind].
  assert (exists b, (if 3 <=? rd 1 di.VERSION core then f ← be64 core di.FLAGS2; Ok (negb (Z.land f flags2_BIGTIME =? 0)) else Ok false) = Ok b /\
    (b = true <-> 3 <= rd 1 di.VERSION core /\ Z.land (rd 8 di.FLAGS2 core) flags2_BIGTIME <> 0)) as (b & -> & Hb).
  { rewrite be64_Ok by di_lia. cbn [mbind res_bind]. destruct (Z.leb_spec 3 (rd 1 di.VERSION core)).
    - eexists; split; [done|]. rewrite negb_true_iff, Z.eqb_neq. naive_solver.
    - exists false. split; [done|]. split; [done|lia]. }
  cbn [mbind res_bind]. pose proof (length_time_bytes when_ b) as Hlt.
  assert (Hc : (di.CTIME + length (time_bytes when_ b) <= length core)%nat) by (rewrite Hlt; di_lia).
  rewrite encode_spec by (done || di_lia). cbn [mbind res_bind]. set (c1 := splice di.CTIME _ core).
  assert (Hl1 : length c1 = length core) by (by apply length_splice).
  assert (Hc1 : Timestamp_parse c1 di.CTIME b = Ok (held_time when_ b)) by (apply parse_time_bytes; [done|by apply slice_splice_same]).
  destruct changed.
  - exists c1, b. split_and!; try done.
    + unfold Timestamp_parse, be64, be32, get_slice. rewrite Hl1. unfold c1. rewrite !slice_splice_disjoint; [done|done|rewrite Hlt; di_lia..].
    + intros i Hi _. apply lookup_splice_out; [done|]. rewrite Hlt. lia.
  - rewrite encode_spec by (rewrite ?Hl1; done || di_lia).
    assert (Hm : (di.MTIME + length (time_bytes when_ b) <= length c1)%nat) by (rewrite Hlt, Hl1; di_lia).
    eexists _, b. split; [done|]. split; [by rewrite length_splice|]. split; [done|]. split_and!.
    + rewrite <- Hc1. unfold Timestamp_parse, be64, be32, get_slice. rewrite !length_splice by done.
      rewrite !slice_splice_disjoint; [done|done|rewrite Hlt; di_lia..].
    + apply parse_time_bytes; [done|]. by apply slice_splice_same.
    + intros i Hi Hi2. specialize (Hi2 eq_refl). rewrite lookup_splice_out by (done || (rewrite Hlt; lia)).
      apply lookup_splice_out; [done|]. rewrite Hlt. lia.
Qed.

(** ** An inode of the sample volume *)

Definition sample_inode_unsummed : bytes :=
  splice di.UUID (sb_meta_uuid sample_sb)
    (fold_left put_field
       [F di.MAGIC 2 XFS_DINODE_MAGIC; F di.MODE 2 0x81a4; F di.VERSION 1 3; F di.FORMAT 1 2; F di.AFORMAT 1 2;
        F di.NLINK 4 1; F di.MTIME 8 2500000000000000000; F di.SIZE 8 5000; F di.NBLOCKS 8 10; F di.NEXTENTS 4 2;
        F di.FORKOFF 1 5; F di.NEXT_UNLINKED 4 0xffffffff; F di.FLAGS2 8 flags2_BIGTIME; F di.INO 8 129]
       (replicate 256 x00)).
Definition sample_inode : bytes := Eval vm_compute in
  splice di.CRC (to_le_bytes 4 (zeroed_crc sample_inode_unsummed di.CRC)) sample_inode_unsummed.


Lemma timestamp_codec_witness :
  exists t, Timestamp_parse (replicate 8 xff) 0 true = Ok t /\ sec t = 16299260425 /\
    encode t (replicate 8 xff) 0 true = Ok (to_be_bytes 8 (2 ^ 63 - 1)).
Proof.
  destruct (timestamp_codec (replicate 8 xff) 0 true) as [_ (t & E & _ & H)]; [cbn; lia|].
  exists t. split; [done|]. split; [vm_compute in E; by injection E as <-|]. rewrite H; [vm_compute; reflexivity|done|vm_compute; congruence].
Defined.

Lemma stamp_change_exact_witness :
  exists core', stamp_change sample_inode (mkTime 1700000000 5) Contents = Ok core' /\
    Timestamp_parse core' di.CTIME true = Ok (mkTime 1700000000 5).
Proof.
  destruct (stamp_change_exact sample_inode (mkTime 1700000000 5) Contents) as (c & b & E & _ & Hb & Hc & _).
  - vm_compute. lia.
  - unfold typed_time, in_u. cbn. lia.
  - exists c. split; [done|]. assert (b = true) as -> by (apply Hb; vm_compute; split; congruence). exact Hc.
Defined.

Lemma verify_free_slot_exact_witness : verify_free_slot sample_inode sample_sb 129 <> Ok tt.
Proof.
  destruct (verify_free_slot_exact sample_sb sample_geometry sample_inode 129) as [_ H].
  intros E. apply H in E as (_ & _ & _ & _ & Hm). vm_compute in Hm. congruence.
Defined.
