(* ===== verification/Dir.v ===== *)
(** * Reading directories ([src/src/dir.rs], with the layout of [src/src/format/dir.rs]
    and the name hash of [src/src/format/attr.rs])

    A directory is short form (inside its inode), one block with its index, data
    blocks with a leaf, or data blocks under a hash tree.  This file turns bytes
    into entries.

    The theorems: no block makes a reader panic, and what a reader accepts keeps
    the invariants a lookup relies on (entries inside the block and apart from
    each other, names not empty, inodes of the volume, an index in hash order
    with the stale records its header counts). *)

From Stdlib Require Import ZArith Lia Strings.String Strings.Byte Bool Sorted.
From stdpp Require Import base list strings.
From S2P Require Import Prelude Error Endian Crc32c Superblock Sample Inode.

(** ** The layout *)

Definition XFS_DIR2_DATA_ALIGN : nat := 8.
Definition XFS_DA_NODE_MAXDEPTH : Z := 5.
Definition XFS_DIR2_BLOCK_MAGIC : Z := 0x58443242.
Definition XFS_DIR3_BLOCK_MAGIC : Z := 0x58444233.
Definition XFS_DIR2_DATA_MAGIC : Z := 0x58443244.
Definition XFS_DIR3_DATA_MAGIC : Z := 0x58444433.
Definition XFS_DIR2_FREE_MAGIC : Z := 0x58443246.
Definition XFS_DIR3_FREE_MAGIC : Z := 0x58444633.
Definition XFS_DIR2_LEAF1_MAGIC : Z := 0xd2f1.
Definition XFS_DIR3_LEAF1_MAGIC : Z := 0x3df1.
Definition XFS_DIR2_LEAFN_MAGIC : Z := 0xd2ff.
Definition XFS_DIR3_LEAFN_MAGIC : Z := 0x3dff.
Definition XFS_DA_NODE_MAGIC : Z := 0xfebe.
Definition XFS_DA3_NODE_MAGIC : Z := 0x3ebe.
Definition XFS_DIR2_DATA_FREE_TAG : Z := 0xffff.
Definition XFS_DIR2_DATA_HDR_SIZE : nat := 16.
Definition XFS_DIR3_DATA_HDR_SIZE : nat := 64.
Definition XFS_DIR2_LEAF_HDR_SIZE : nat := 16.
Definition XFS_DIR3_LEAF_HDR_SIZE : nat := 64.
Definition XFS_DA_NODE_HDR_SIZE : nat := 16.
Definition XFS_DA3_NODE_HDR_SIZE : nat := 64.
Definition XFS_DIR2_LEAF_ENTRY_SIZE : nat := 8.
Definition XFS_DA_NODE_ENTRY_SIZE : nat := 8.
Definition XFS_DIR2_BLOCK_TAIL_SIZE : nat := 8.
Definition XFS_DIR2_LEAF_TAIL_SIZE : nat := 4.
Definition XFS_DIR2_BEST_SIZE : nat := 2.
Definition XFS_DIR2_SF_HDR_SIZE_4 : nat := 6.
Definition XFS_DIR2_SF_HDR_SIZE_8 : nat := 10.
Definition DATA_ENTRY_MIN_SIZE : nat := 16.

Definition NULL_DATAPTR : Z := 0.
Definition MAX_SHORT_INUM : Z := 0xffffffff.
Definition MAX_INUMBER : Z := 2 ^ 56 - 1.
Definition MAX_SUPPORTED_NODE_LEVEL : Z := 2.

Module dir3_blk.
Definition MAGIC : nat := 0.
Definition CRC : nat := 4.
Definition BLKNO : nat := 8.
Definition UUID : nat := 24.
Definition OWNER : nat := 40.
End dir3_blk.
Module da_blk.
Definition FORW : nat := 0.
Definition BACK : nat := 4.
Definition MAGIC : nat := 8.
Definition CRC : nat := 12.
Definition BLKNO : nat := 16.
Definition UUID : nat := 32.
Definition OWNER : nat := 48.
End da_blk.
Module sf_hdr.
Definition COUNT : nat := 0.
Definition I8COUNT : nat := 1.
Definition PARENT : nat := 2.
End sf_hdr.
Module sf_entry.
Definition NAMELEN : nat := 0.
Definition OFFSET : nat := 1.
Definition NAME : nat := 3.
End sf_entry.
Module data_entry.
Definition INUMBER : nat := 0.
Definition NAMELEN : nat := 8.
Definition NAME : nat := 9.
End data_entry.
Module data_unused.
Definition FREETAG : nat := 0.
Definition LENGTH : nat := 2.
End data_unused.
Module block_tail.
Definition COUNT : nat := 0.
Definition STALE : nat := 4.
End block_tail.
Module leaf_entry.
Definition HASHVAL : nat := 0.
Definition ADDRESS : nat := 4.
End leaf_entry.
Module node_entry.
Definition HASHVAL : nat := 0.
Definition BEFORE : nat := 4.
End node_entry.
Definition da_counts (hdr_size : nat) (v5 : bool) : nat := (hdr_size - if v5 then 8 else 4)%nat.

(** Positions as numbers. *)
Ltac dir_lia :=
  cbv [XFS_DIR2_DATA_ALIGN XFS_DIR2_DATA_HDR_SIZE XFS_DIR3_DATA_HDR_SIZE XFS_DIR2_LEAF_HDR_SIZE XFS_DIR3_LEAF_HDR_SIZE
    XFS_DA_NODE_HDR_SIZE XFS_DA3_NODE_HDR_SIZE XFS_DIR2_LEAF_ENTRY_SIZE XFS_DA_NODE_ENTRY_SIZE XFS_DIR2_BLOCK_TAIL_SIZE
    XFS_DIR2_LEAF_TAIL_SIZE XFS_DIR2_BEST_SIZE XFS_DIR2_SF_HDR_SIZE_4 XFS_DIR2_SF_HDR_SIZE_8 DATA_ENTRY_MIN_SIZE
    dir3_blk.MAGIC dir3_blk.CRC dir3_blk.BLKNO dir3_blk.UUID dir3_blk.OWNER
    da_blk.FORW da_blk.BACK da_blk.MAGIC da_blk.CRC da_blk.BLKNO da_blk.UUID da_blk.OWNER
    sf_hdr.COUNT sf_hdr.I8COUNT sf_hdr.PARENT sf_entry.NAMELEN sf_entry.OFFSET sf_entry.NAME
    data_entry.INUMBER data_entry.NAMELEN data_entry.NAME data_unused.FREETAG data_unused.LENGTH
    block_tail.COUNT block_tail.STALE leaf_entry.HASHVAL leaf_entry.ADDRESS node_entry.HASHVAL node_entry.BEFORE
    da_counts] in *; lia.

(** ** Names and types *)

Definition entry_name_is_valid (name : bytes) : bool :=
  negb (bool_decide (name = [])) && (length name <=? 255)%nat &&
  negb (existsb (fun b => Byte.eqb b x2f || Byte.eqb b x00) name) &&
  negb (bool_decide (name = [x2e])) && negb (bool_decide (name = [x2e; x2e])).

(** [u32::rotate_left], for a shift between 1 and 31. *)
Definition rol32 (z n : Z) : Z := Z.lor (wshl 32 z n) (wshr 32 z (32 - n)).
Definition at_shift (b : byte) (n : Z) : Z := wshl 32 (b2z b) n.

Fixpoint hash_loop (name : bytes) (hash : Z) : Z :=
  match name with
  | a :: b :: c :: d :: rest =>
      hash_loop rest
        (Z.lxor (Z.lxor (Z.lxor (Z.lxor (at_shift a 21) (at_shift b 14)) (at_shift c 7)) (b2z d)) (rol32 hash (7 * 4)))
  | [a; b; c] => Z.lxor (Z.lxor (Z.lxor (at_shift a 14) (at_shift b 7)) (b2z c)) (rol32 hash (7 * 3))
  | [a; b] => Z.lxor (Z.lxor (at_shift a 7) (b2z b)) (rol32 hash (7 * 2))
  | [a] => Z.lxor (b2z a) (rol32 hash 7)
  | [] => hash
  end.
Definition hashname (name : bytes) : Z := hash_loop name 0.

Definition ftype_from_raw (raw : Z) : res (option FileType) :=
  if raw =? 0 then Ok None
  else if raw =? 1 then Ok (Some FileType.Regular)
  else if raw =? 2 then Ok (Some FileType.Directory)
  else if raw =? 3 then Ok (Some FileType.CharDevice)
  else if raw =? 4 then Ok (Some FileType.BlockDevice)
  else if raw =? 5 then Ok (Some FileType.Fifo)
  else if raw =? 6 then Ok (Some FileType.Socket)
  else if raw =? 7 then Ok (Some FileType.Symlink)
  else if raw =? 8 then Ok None
  else Err (bad "directory entry file type {} is not a defined value" [AZ raw]).

Definition ftype_to_raw (ftype : option FileType) : Z :=
  match ftype with
  | None => 0
  | Some FileType.Regular => 1
  | Some FileType.Directory => 2
  | Some FileType.CharDevice => 3
  | Some FileType.BlockDevice => 4
  | Some FileType.Fifo => 5
  | Some FileType.Socket => 6
  | Some FileType.Symlink => 7
  end.

(** ** What is read *)

Record DirEntry := mkDirEntry { de_name : bytes; de_ino : Z; de_ftype : option FileType; de_offset : Z }.
Record ShortFormDir := mkShortForm { parent_ino : Z; i8count : Z; sf_entries : list DirEntry }.
Record LeafEntry := mkLeafEntry { hashval : Z; address : Z }.
Record BlockDir := mkBlockDir { bd_entries : list DirEntry; bd_index : list LeafEntry }.
Record DirLeaf := mkDirLeaf {
  lf_magic : Z; lf_forw : Z; lf_back : Z; lf_count : Z; lf_stale : Z; lf_entries : list LeafEntry; bestcount : option Z;
}.
Record NodeEntry := mkNodeEntry { ne_hashval : Z; before : Z }.
Record DirNode := mkDirNode { nd_level : Z; nd_count : Z; nd_forw : Z; nd_back : Z; nd_entries : list NodeEntry }.
Record Tolerated := mkTolerated { t_types : list (bytes * Z); t_parent : option Error }.

#[global] Instance DirEntry_eq_dec : EqDecision DirEntry.
Proof. solve_decision. Defined.
#[global] Instance LeafEntry_eq_dec : EqDecision LeafEntry.
Proof. solve_decision. Defined.

Definition is_stale (e : LeafEntry) : bool := address e =? NULL_DATAPTR.
Definition is_single_leaf (l : DirLeaf) : bool := (lf_magic l =? XFS_DIR3_LEAF1_MAGIC) || (lf_magic l =? XFS_DIR2_LEAF1_MAGIC).
Definition child_for_hash (n : DirNode) (hash : Z) : option Z := before <$> find (fun e => hash <=? ne_hashval e) (nd_entries n).

(** ** Blocks *)

Definition dir_block_size (buf : bytes) (sb : Superblock) : res nat :=
  let size := Z.to_nat (dirblocksize sb) in
  fail_if (length buf <? size)%nat (bad "directory block needs {} bytes, got {}" [AZ (Z.of_nat size); AZ (Z.of_nat (length buf))]);;
  Ok size.

Record V5Layout := mkLayout { l_crc : nat; l_blkno : nat; l_uuid : nat; l_owner : nat }.
Definition DIR3_BLK_HDR : V5Layout := mkLayout dir3_blk.CRC dir3_blk.BLKNO dir3_blk.UUID dir3_blk.OWNER.
Definition DA3_BLK_HDR : V5Layout := mkLayout da_blk.CRC da_blk.BLKNO da_blk.UUID da_blk.OWNER.

Section verify.
Context `{Crc : Crc32c}.

Definition verify_v5_header (what : string) (layout : V5Layout) (buf : bytes) (sb : Superblock) (daddr owner : Z) : res unit :=
  if negb (is_v5 sb) then Ok tt else
  size ← dir_block_size buf sb;
  stored ← le32 buf (l_crc layout);
  block ← get_slice 0 size buf;
  computed ← crc32c_with_zeroed_crc block (l_crc layout);
  fail_if (negb (stored =? computed)) (ChecksumMismatch what daddr);;
  uuid ← uuid_at buf (l_uuid layout);
  fail_if (negb (bool_decide (uuid = sb_meta_uuid sb))) (BlockIdentityMismatch what daddr (umax 64));;
  blkno ← be64 buf (l_blkno layout);
  fail_if (negb (blkno =? daddr)) (BlockIdentityMismatch what daddr blkno);;
  found ← be64 buf (l_owner layout);
  fail_if (negb (found =? owner)) (BlockIdentityMismatch "directory block owner" owner found).

Definition verify_data_block (buf : bytes) (sb : Superblock) (daddr owner : Z) : res unit :=
  verify_v5_header "directory data block" DIR3_BLK_HDR buf sb daddr owner.
Definition verify_da_block (buf : bytes) (sb : Superblock) (daddr owner : Z) : res unit :=
  verify_v5_header "directory index block" DA3_BLK_HDR buf sb daddr owner.
End verify.

(** ** Entries of a data block *)

(** [n & !7] *)
Definition align_up (n : nat) : nat :=
  Z.to_nat (Z.ldiff (Z.of_nat (n + XFS_DIR2_DATA_ALIGN - 1)) (Z.of_nat (XFS_DIR2_DATA_ALIGN - 1))).
Definition flag_size (b : bool) : nat := if b then 1 else 0.
Definition data_entry_size (namelen : nat) (ftype : bool) : nat :=
  align_up (data_entry.NAME + namelen + flag_size ftype + 2).

(** [BadSuperblock(format!("{what}: ..", ..))] *)
Definition bad_at (what : message) (why : string) (a : list arg) : Error :=
  BadSuperblock (fmt (template what ++ ": " ++ why) (args what ++ a)).

Definition check_entry_ino (sb : Superblock) (ino : Z) (what : message) : res unit :=
  fail_if (ino =? 0) (bad_at what "inode number is zero" []);;
  fail_if (MAX_INUMBER <? ino) (bad_at what "inode number {} exceeds the 56-bit maximum" [AZ ino]);;
  let '(ag, _, _) := split_ino sb ino in
  fail_if (sb_agcount sb <=? ag)
    (bad_at what "inode number {} names allocation group {}, but there are only {}" [AZ ino; AZ ag; AZ (sb_agcount sb)]).

Section entries.
Context (buf : bytes) (sb : Superblock) (end_ : nat).

(** The length of the free record at [cur]. *)
Definition free_record (cur : nat) : res nat :=
  len ← Z.to_nat <$> be16 buf (cur + data_unused.LENGTH);
  fail_if ((len =? 0)%nat || negb (len mod XFS_DIR2_DATA_ALIGN =? 0)%nat)
    (bad "directory data block: free record at {} has length {}, which is zero or not 8-byte aligned" [AZ (Z.of_nat cur); AZ (Z.of_nat len)]);;
  fail_if (end_ <? cur + len)%nat
    (bad "directory data block: free record at {} of length {} runs past {}" [AZ (Z.of_nat cur); AZ (Z.of_nat len); AZ (Z.of_nat end_)]);;
  tag ← be16 buf (cur + len - 2);
  fail_if (negb (tag =? Z.of_nat cur))
    (bad "directory data block: free record at {} tags itself as {}" [AZ (Z.of_nat cur); AZ tag]);;
  Ok len.

(** The entry at [cur], and its size. *)
Definition used_entry (cur : nat) : res (DirEntry * nat) :=
  let ftype := has_ftype sb in
  fail_if (end_ - cur <? DATA_ENTRY_MIN_SIZE)%nat
    (bad "directory data block: {} bytes left at offset {}, too few for an entry" [AZ (Z.of_nat (end_ - cur)); AZ (Z.of_nat cur)]);;
  ino ← be64 buf (cur + data_entry.INUMBER);
  namelen ← Z.to_nat <$> byte_at buf (cur + data_entry.NAMELEN);
  fail_if (namelen =? 0)%nat (bad "directory data block: entry at {} has an empty name" [AZ (Z.of_nat cur)]);;
  let size := data_entry_size namelen ftype in
  fail_if (end_ <? cur + size)%nat
    (bad "directory data block: entry at {} of length {} runs past {}" [AZ (Z.of_nat cur); AZ (Z.of_nat size); AZ (Z.of_nat end_)]);;
  tag ← be16 buf (cur + size - 2);
  fail_if (negb (tag =? Z.of_nat cur))
    (bad "directory data block: entry at {} tags itself as {}" [AZ (Z.of_nat cur); AZ tag]);;
  check_entry_ino sb ino (fmt "directory data block entry at {}" [AZ (Z.of_nat cur)]);;
  let name_start := (cur + data_entry.NAME)%nat in
  ft ← (if ftype then raw ← byte_at buf (name_start + namelen); ftype_from_raw raw else Ok None);
  name ← get_slice name_start namelen buf;
  Ok (mkDirEntry name ino ft (wrap 32 (Z.of_nat cur)), size).

(** Every record is at least eight bytes, so a fuel of [end_] is never used up. *)
Fixpoint entries_loop (fuel : nat) (cur : nat) : res (list DirEntry) :=
  if (end_ <=? cur)%nat then Ok [] else
  match fuel with
  | O => Panic
  | S fuel =>
      fail_if (end_ - cur <? XFS_DIR2_DATA_ALIGN)%nat
        (bad "directory data block: {} bytes left at offset {}, too few for any record" [AZ (Z.of_nat (end_ - cur)); AZ (Z.of_nat cur)]);;
      first ← be16 buf (cur + data_unused.FREETAG);
      if first =? XFS_DIR2_DATA_FREE_TAG then
        len ← free_record cur;
        entries_loop fuel (cur + len)
      else
        '(e, size) ← used_entry cur;
        rest ← entries_loop fuel (cur + size);
        Ok (e :: rest)
  end.
End entries.

Definition parse_entries (buf : bytes) (sb : Superblock) (start end_ : nat) : res (list DirEntry) :=
  entries_loop buf sb end_ end_ start.

(** ** The index *)

Fixpoint leaf_entries_loop (buf : bytes) (start : nat) (what : string) (i n : nat) (previous : Z) : res (list LeafEntry) :=
  match n with
  | O => Ok []
  | S n =>
      let off := (start + i * XFS_DIR2_LEAF_ENTRY_SIZE)%nat in
      hashval ← be32 buf (off + leaf_entry.HASHVAL);
      address ← be32 buf (off + leaf_entry.ADDRESS);
      fail_if (hashval <? previous)
        (bad_at (fmt what []) "hash index record {} has hash {}, below its predecessor's {}" [AZ (Z.of_nat i); AZ hashval; AZ previous]);;
      rest ← leaf_entries_loop buf start what (i + 1) n hashval;
      Ok (mkLeafEntry hashval address :: rest)
  end.

Definition stale_count (l : list LeafEntry) : nat := length (List.filter is_stale l).

Definition parse_leaf_entries (buf : bytes) (start count stale : nat) (what : string) : res (list LeafEntry) :=
  entries ← leaf_entries_loop buf start what 0 count 0;
  fail_if (negb (stale_count entries =? stale)%nat)
    (bad_at (fmt what []) "header claims {} stale index records, but {} are empty"
       [AZ (Z.of_nat stale); AZ (Z.of_nat (stale_count entries))]);;
  Ok entries.

Definition data_hdr_size (magic : Z) (sb : Superblock) : res nat :=
  '(size, v5) ←
    (if (magic =? XFS_DIR3_DATA_MAGIC) || (magic =? XFS_DIR3_BLOCK_MAGIC) then Ok (XFS_DIR3_DATA_HDR_SIZE, true)
     else if (magic =? XFS_DIR2_DATA_MAGIC) || (magic =? XFS_DIR2_BLOCK_MAGIC) then Ok (XFS_DIR2_DATA_HDR_SIZE, false)
     else Err (bad "directory data block has magic {}, expected one of {}, {}, {} or {}"
                 [AZ magic; AZ XFS_DIR3_DATA_MAGIC; AZ XFS_DIR3_BLOCK_MAGIC; AZ XFS_DIR2_DATA_MAGIC; AZ XFS_DIR2_BLOCK_MAGIC]));
  fail_if (negb (Bool.eqb v5 (is_v5 sb)))
    (bad "directory data block magic {} is v{} format on a v{} filesystem" [AZ magic; AZ (if v5 : bool then 5 else 4); AZ (version sb)]);;
  Ok size.

Definition is_block_form (magic : Z) : bool := (magic =? XFS_DIR3_BLOCK_MAGIC) || (magic =? XFS_DIR2_BLOCK_MAGIC).

Definition read_data_magic (buf : bytes) (sb : Superblock) : res Z :=
  blocksize ← dir_block_size buf sb;
  fail_if (blocksize <? XFS_DIR2_DATA_HDR_SIZE + XFS_DIR2_BLOCK_TAIL_SIZE)%nat
    (bad "directory block size {} is smaller than the smallest possible header" [AZ (Z.of_nat blocksize)]);;
  be32 buf dir3_blk.MAGIC.

Definition parse_block_form (buf : bytes) (sb : Superblock) : res BlockDir :=
  magic ← read_data_magic buf sb;
  fail_if (negb (is_block_form magic))
    (bad "block-form directory has magic {}, expected {} or {}" [AZ magic; AZ XFS_DIR3_BLOCK_MAGIC; AZ XFS_DIR2_BLOCK_MAGIC]);;
  blocksize ← dir_block_size buf sb;
  hdr_size ← data_hdr_size magic sb;
  fail_if (blocksize <? hdr_size + XFS_DIR2_BLOCK_TAIL_SIZE)%nat
    (bad "directory block size {} leaves no room for a {}-byte header and its tail" [AZ (Z.of_nat blocksize); AZ (Z.of_nat hdr_size)]);;
  let tail := (blocksize - XFS_DIR2_BLOCK_TAIL_SIZE)%nat in
  count ← be32 buf (tail + block_tail.COUNT);
  stale ← be32 buf (tail + block_tail.STALE);
  let index_bytes := count * Z.of_nat XFS_DIR2_LEAF_ENTRY_SIZE in
  fail_if (Z.of_nat (tail - hdr_size) <? index_bytes)
    (bad "block-form directory claims {} index records ({} bytes), which do not fit between the header and the tail" [AZ count; AZ index_bytes]);;
  fail_if (count <? stale) (bad "block-form directory claims {} stale records out of {}" [AZ stale; AZ count]);;
  let index_start := (tail - Z.to_nat index_bytes)%nat in
  index ← parse_leaf_entries buf index_start (Z.to_nat count) (Z.to_nat stale) "block-form directory";
  entries ← parse_entries buf sb hdr_size index_start;
  Ok (mkBlockDir entries index).

Definition parse_data_block (buf : bytes) (sb : Superblock) : res (list DirEntry) :=
  magic ← read_data_magic buf sb;
  if is_block_form magic then bd_entries <$> parse_block_form buf sb
  else
    blocksize ← dir_block_size buf sb;
    hdr ← data_hdr_size magic sb;
    parse_entries buf sb hdr blocksize.

Definition da_hdr_size (magic : Z) (sb : Superblock) (what : string) : res nat :=
  '(size, v5) ←
    (if (magic =? XFS_DIR3_LEAF1_MAGIC) || (magic =? XFS_DIR3_LEAFN_MAGIC) then Ok (XFS_DIR3_LEAF_HDR_SIZE, true)
     else if (magic =? XFS_DIR2_LEAF1_MAGIC) || (magic =? XFS_DIR2_LEAFN_MAGIC) then Ok (XFS_DIR2_LEAF_HDR_SIZE, false)
     else if magic =? XFS_DA3_NODE_MAGIC then Ok (XFS_DA3_NODE_HDR_SIZE, true)
     else if magic =? XFS_DA_NODE_MAGIC then Ok (XFS_DA_NODE_HDR_SIZE, false)
     else Err (bad (what ++ " has magic {}, which is not a directory index magic") [AZ magic]));
  fail_if (negb (Bool.eqb v5 (is_v5 sb)))
    (bad (what ++ " magic {} is v{} format on a v{} filesystem") [AZ magic; AZ (if v5 : bool then 5 else 4); AZ (version sb)]);;
  Ok size.

Definition is_leaf_magic (magic : Z) : bool :=
  (magic =? XFS_DIR3_LEAF1_MAGIC) || (magic =? XFS_DIR3_LEAFN_MAGIC) || (magic =? XFS_DIR2_LEAF1_MAGIC) || (magic =? XFS_DIR2_LEAFN_MAGIC).

Definition parse_leaf (buf : bytes) (sb : Superblock) : res DirLeaf :=
  blocksize ← dir_block_size buf sb;
  fail_if (blocksize <? XFS_DIR3_LEAF_HDR_SIZE)%nat
    (bad "directory block size {} is too small to hold a leaf header" [AZ (Z.of_nat blocksize)]);;
  magic ← be16 buf da_blk.MAGIC;
  fail_if (negb (is_leaf_magic magic))
    (bad "directory leaf block has magic {}, expected one of {}, {}, {} or {}"
       [AZ magic; AZ XFS_DIR3_LEAF1_MAGIC; AZ XFS_DIR3_LEAFN_MAGIC; AZ XFS_DIR2_LEAF1_MAGIC; AZ XFS_DIR2_LEAFN_MAGIC]);;
  hdr_size ← da_hdr_size magic sb "directory leaf block";
  let counts := da_counts hdr_size (is_v5 sb) in
  count ← be16 buf counts;
  stale ← be16 buf (counts + 2);
  fail_if (count <? stale) (bad "directory leaf block claims {} stale records out of {}" [AZ stale; AZ count]);;
  let single := (magic =? XFS_DIR3_LEAF1_MAGIC) || (magic =? XFS_DIR2_LEAF1_MAGIC) in
  '(bestcount, limit) ←
    (if single then
       let tail := (blocksize - XFS_DIR2_LEAF_TAIL_SIZE)%nat in
       bestcount ← be32 buf tail;
       let bests_bytes := bestcount * 2 in
       fail_if (Z.of_nat (tail - hdr_size) <? bests_bytes)
         (bad "leaf-form directory claims {} best-free records, which do not fit in the block" [AZ bestcount]);;
       Ok (Some bestcount, (tail - Z.to_nat bests_bytes)%nat)
     else Ok (None, blocksize));
  let index_bytes := (Z.to_nat count * XFS_DIR2_LEAF_ENTRY_SIZE)%nat in
  fail_if (limit <? hdr_size + index_bytes)%nat
    (bad "directory leaf block claims {} index records, which do not fit between its header and offset {}" [AZ count; AZ (Z.of_nat limit)]);;
  entries ← parse_leaf_entries buf hdr_size (Z.to_nat count) (Z.to_nat stale) "directory leaf block";
  forw ← be32 buf da_blk.FORW;
  back ← be32 buf da_blk.BACK;
  Ok (mkDirLeaf magic forw back count stale entries bestcount).

Fixpoint node_entries_loop (buf : bytes) (hdr_size i n : nat) (previous : Z) : res (list NodeEntry) :=
  match n with
  | O => Ok []
  | S n =>
      let off := (hdr_size + i * XFS_DA_NODE_ENTRY_SIZE)%nat in
      hashval ← be32 buf (off + node_entry.HASHVAL);
      fail_if (hashval <? previous)
        (bad "directory node block: child {} has hash {}, below its predecessor's {}" [AZ (Z.of_nat i); AZ hashval; AZ previous]);;
      before ← be32 buf (off + node_entry.BEFORE);
      rest ← node_entries_loop buf hdr_size (i + 1) n hashval;
      Ok (mkNodeEntry hashval before :: rest)
  end.

Definition parse_node (buf : bytes) (sb : Superblock) : res DirNode :=
  blocksize ← dir_block_size buf sb;
  fail_if (blocksize <? XFS_DA3_NODE_HDR_SIZE)%nat
    (bad "directory block size {} is too small to hold a node header" [AZ (Z.of_nat blocksize)]);;
  magic ← be16 buf da_blk.MAGIC;
  fail_if (negb (magic =? XFS_DA3_NODE_MAGIC) && negb (magic =? XFS_DA_NODE_MAGIC))
    (bad "directory node block has magic {}, expected {} or {}" [AZ magic; AZ XFS_DA3_NODE_MAGIC; AZ XFS_DA_NODE_MAGIC]);;
  hdr_size ← da_hdr_size magic sb "directory node block";
  let counts := da_counts hdr_size (is_v5 sb) in
  count ← be16 buf counts;
  level ← be16 buf (counts + 2);
  fail_if (level =? 0) (bad "directory node block is at level 0, which is a leaf, not a node" []);;
  fail_if (XFS_DA_NODE_MAXDEPTH <? level)
    (bad "directory node block is at level {}, deeper than the {}-level maximum the format allows" [AZ level; AZ XFS_DA_NODE_MAXDEPTH]);;
  fail_if (MAX_SUPPORTED_NODE_LEVEL <? level)
    (UnsupportedFeature (fmt "directory hash B-tree is {} levels above its leaves; this driver descends at most {}" [AZ level; AZ MAX_SUPPORTED_NODE_LEVEL]));;
  let index_bytes := (Z.to_nat count * XFS_DA_NODE_ENTRY_SIZE)%nat in
  fail_if (blocksize <? hdr_size + index_bytes)%nat
    (bad "directory node block claims {} child records, which do not fit in a {}-byte block" [AZ count; AZ (Z.of_nat blocksize)]);;
  entries ← node_entries_loop buf hdr_size 0 (Z.to_nat count) 0;
  forw ← be32 buf da_blk.FORW;
  back ← be32 buf da_blk.BACK;
  Ok (mkDirNode level count forw back entries).

(** ** Short form *)

Definition read_sf_ino (buf : bytes) (off : nat) (wide : bool) : res Z :=
  if negb wide then be32 buf off
  else
    raw ← be64 buf off;
    fail_if (MAX_INUMBER <? raw)
      (bad "short-form directory: inode number {} sets bits above the 56-bit maximum" [AZ raw]);;
    Ok raw.

Definition format_name (f : Format) : string :=
  match f with
  | Format.Dev => "Dev" | Format.Local => "Local" | Format.Extents => "Extents"
  | Format.Btree => "Btree" | Format.Uuid => "Uuid" | Format.Rmap => "Rmap"
  end.

Section short_form.
Context (inode : Inode) (sf : bytes) (sb : Superblock) (wide : bool).

Definition of_inode (why : string) (a : list arg) : Error := bad ("inode {}: " ++ why) (AZ (i_ino inode) :: a).

(** The type byte of an entry, or what is tolerated of it. *)
Definition sf_ftype (name : bytes) (raw : Z) (tolerated : option Tolerated) : res (option FileType * option Tolerated) :=
  match ftype_from_raw raw, tolerated with
  | Ok ft, t => Ok (ft, t)
  | Err _, Some t => Ok (None, Some (mkTolerated (t_types t ++ [(name, raw)]) (t_parent t)))
  | Err e, None => Err e
  | Panic, _ => Panic
  end.

(** The entries from [cur] on, how many of their inodes are wide, where they
    end, and what was read past. *)
Fixpoint sf_loop (i n : nat) (cur : nat) (found_wide : Z) (tolerated : option Tolerated)
    : res (list DirEntry * Z * nat * option Tolerated) :=
  match n with
  | O => Ok ([], found_wide, cur, tolerated)
  | S n =>
      let ftype := has_ftype sb in
      let ino_size := if wide then 8%nat else 4%nat in
      fail_if (length sf - cur <? sf_entry.NAME)%nat
        (of_inode "short-form entry {} starts at {}, past the end of the directory" [AZ (Z.of_nat i); AZ (Z.of_nat cur)]);;
      namelen ← Z.to_nat <$> byte_at sf (cur + sf_entry.NAMELEN);
      fail_if (namelen =? 0)%nat (of_inode "short-form entry {} has an empty name" [AZ (Z.of_nat i)]);;
      offset ← be16 sf (cur + sf_entry.OFFSET);
      let entsize := (sf_entry.NAME + namelen + flag_size ftype + ino_size)%nat in
      fail_if (length sf <? cur + entsize)%nat
        (of_inode "short-form entry {} of length {} runs past the {}-byte directory"
           [AZ (Z.of_nat i); AZ (Z.of_nat entsize); AZ (Z.of_nat (length sf))]);;
      let name_start := (cur + sf_entry.NAME)%nat in
      let name_end := (name_start + namelen)%nat in
      name ← get_slice name_start namelen sf;
      '(ft, tolerated) ← (if ftype then raw ← byte_at sf name_end; sf_ftype name raw tolerated else Ok (None, tolerated));
      ino ← read_sf_ino sf (name_end + flag_size ftype) wide;
      check_entry_ino sb ino (fmt "inode {}: short-form entry {}" [AZ (i_ino inode); AZ (Z.of_nat i)]);;
      let found_wide := if MAX_SHORT_INUM <? ino then found_wide + 1 else found_wide in
      '(rest, found_wide, cur, tolerated) ← sf_loop (i + 1) n (cur + entsize) found_wide tolerated;
      Ok (mkDirEntry name ino ft offset :: rest, found_wide, cur, tolerated)
  end.
End short_form.

Definition short_form (inode : Inode) (fork : bytes) (sb : Superblock) (tolerated : option Tolerated)
    : res (ShortFormDir * option Tolerated) :=
  fail_if (negb (is_dir inode)) NotADirectory;;
  fail_if (negb (bool_decide (i_format inode = Format.Local)))
    (of_inode inode "directory fork format is {}, not the short (local) form" [AS (format_name (i_format inode))]);;
  fail_if (Z.of_nat (length fork) <? i_size inode)
    (of_inode inode "short-form directory claims {} bytes but its data fork holds {}" [AZ (i_size inode); AZ (Z.of_nat (length fork))]);;
  let size := Z.to_nat (i_size inode) in
  sf ← get_slice 0 size fork;
  fail_if (length sf <? 2)%nat
    (of_inode inode "short-form directory is {} bytes, too short for its header" [AZ (Z.of_nat (length sf))]);;
  count ← byte_at sf sf_hdr.COUNT;
  i8count ← byte_at sf sf_hdr.I8COUNT;
  let wide := negb (i8count =? 0) in
  let ino_size := if wide then 8%nat else 4%nat in
  let hdr_size := (sf_hdr.PARENT + ino_size)%nat in
  fail_if (length sf <? hdr_size)%nat
    (of_inode inode "short-form directory is {} bytes, too short for a {}-byte header" [AZ (Z.of_nat (length sf)); AZ (Z.of_nat hdr_size)]);;
  parent_ino ← read_sf_ino sf sf_hdr.PARENT wide;
  tolerated ←
    (match check_entry_ino sb parent_ino (fmt "inode {}: short-form parent" [AZ (i_ino inode)]), tolerated with
     | Ok _, t => Ok t
     | Err e, Some t => Ok (Some (mkTolerated (t_types t) (Some e)))
     | Err e, None => Err e
     | Panic, _ => Panic
     end);
  let found_wide := if MAX_SHORT_INUM <? parent_ino then 1 else 0 in
  '(entries, found_wide, cur, tolerated) ← sf_loop inode sf sb wide 0 (Z.to_nat count) hdr_size found_wide tolerated;
  fail_if (negb (cur =? length sf)%nat)
    (of_inode inode "short-form directory's {} entries end at {}, not at its declared size of {}"
       [AZ count; AZ (Z.of_nat cur); AZ (Z.of_nat (length sf))]);;
  fail_if (negb (found_wide =? i8count))
    (of_inode inode "short-form header claims {} inode numbers wider than 32 bits, but {} are" [AZ i8count; AZ found_wide]);;
  Ok (mkShortForm parent_ino i8count entries, tolerated).

Definition read_short_form (inode : Inode) (fork : bytes) (sb : Superblock) : res ShortFormDir :=
  fst <$> short_form inode fork sb None.
Definition read_short_form_lenient (inode : Inode) (fork : bytes) (sb : Superblock) : res (ShortFormDir * Tolerated) :=
  '(dir, t) ← short_form inode fork sb (Some (mkTolerated [] None));
  t ← expect t;
  Ok (dir, t).

(** ** What the readers promise *)

Lemma align_up_spec n : (n <= align_up n < n + 8)%nat /\ (align_up n mod 8 = 0)%nat.
Proof.
  unfold align_up, XFS_DIR2_DATA_ALIGN. replace (Z.of_nat (8 - 1)) with (Z.ones 3) by done. rewrite Z.ldiff_ones_r by lia.
  rewrite Z.shiftr_div_pow2, Z.shiftl_mul_pow2 by lia. change (2 ^ 3) with 8. pose proof (Z.div_mod (Z.of_nat (n + 8 - 1)) 8 ltac:(lia)).
  pose proof (Z.mod_pos_bound (Z.of_nat (n + 8 - 1)) 8 ltac:(lia)). split; [lia|]. apply Nat2Z.inj.
  rewrite Nat2Z.inj_mod, Z2Nat.id by lia. rewrite Z.mod_mul; done.
Qed.

Lemma data_entry_size_spec namelen ft : (0 < namelen)%nat ->
  (16 <= data_entry_size namelen ft)%nat /\ (11 + namelen + flag_size ft <= data_entry_size namelen ft < 19 + namelen + flag_size ft)%nat.
Proof.
  intros H. unfold data_entry_size, data_entry.NAME. destruct (align_up_spec (9 + namelen + flag_size ft + 2)) as [Hr Hm].
  set (s := align_up _) in *. assert (s = 8 * (s / 8))%nat by (pose proof (Nat.div_mod s 8 ltac:(lia)); lia). lia.
Qed.

Definition ino_ok (sb : Superblock) (ino : Z) : Prop := 0 < ino <= MAX_INUMBER /\ (split_ino sb ino).1.1 < sb_agcount sb.

Lemma check_entry_ino_spec sb ino what : 0 <= ino ->
  check_entry_ino sb ino what <> Panic /\ (check_entry_ino sb ino what = Ok tt <-> ino_ok sb ino).
Proof.
  intros Hi. unfold check_entry_ino, ino_ok. destruct (Z.eqb_spec ino 0); cbn [fail_if mbind res_bind]; [split; [done|split; [done|lia]]|].
  destruct (Z.ltb_spec MAX_INUMBER ino); cbn [fail_if mbind res_bind]; [split; [done|split; [done|lia]]|].
  destruct (split_ino sb ino) as [[ag b] o]. cbn [fst]. destruct (Z.leb_spec (sb_agcount sb) ag); cbn [fail_if]; [split; [done|split; [done|lia]]|split; [done|split; [lia|done]]].
Qed.

Lemma ftype_from_raw_total raw : ftype_from_raw raw <> Panic.
Proof. unfold ftype_from_raw. repeat case_match; done. Qed.

Lemma ftype_raw_roundtrip ft : ftype_from_raw (ftype_to_raw ft) = Ok ft.
Proof. by destruct ft as [[]|]. Qed.

Lemma dirblocksize_spec sb : sb_typed sb -> sb_geometry sb ->
  dirblocksize sb = 2 ^ (sb_blocklog sb + sb_dirblklog sb) /\ 512 <= dirblocksize sb <= 65536 /\ 9 <= sb_blocklog sb + sb_dirblklog sb <= 16.
Proof.
  intros Hty [[Hb Hbs] _ _ _ Hd]. pose proof (ty_dirblklog sb Hty) as Hdl. unfold in_u in Hdl. unfold dirblocksize, wshl.
  rewrite (Z.mod_small (sb_dirblklog sb)) by lia. rewrite Z.shiftl_mul_pow2 by lia. rewrite Hbs, <- Z.pow_add_r by lia.
  assert (512 <= 2 ^ (sb_blocklog sb + sb_dirblklog sb) <= 65536).
  { change 512 with (2 ^ 9). change 65536 with (2 ^ 16). split; apply Z.pow_le_mono_r; lia. }
  rewrite wrap_small by (unfold in_u; lia). split; [done|]. split; [done|lia].
Qed.

(** What an entry says of the bytes it was read from. *)
Definition entry_size_of (sb : Superblock) (e : DirEntry) : nat := data_entry_size (length (de_name e)) (has_ftype sb).
Record entry_ok (sb : Superblock) (buf : bytes) (e : DirEntry) : Prop := {
  eo_name : (0 < length (de_name e) < 256)%nat;
  eo_ino : ino_ok sb (de_ino e);
  eo_stored : rd 8 (Z.to_nat (de_offset e)) buf = de_ino e /\
    slice (Z.to_nat (de_offset e) + 9) (length (de_name e)) buf = de_name e;
  eo_tag : rd 2 (Z.to_nat (de_offset e) + entry_size_of sb e - 2) buf = de_offset e;
}.
(** Entries one after another between two offsets, apart. *)
Fixpoint laid (sb : Superblock) (lo : nat) (es : list DirEntry) (hi : nat) : Prop :=
  match es with
  | [] => (lo <= hi)%nat
  | e :: es => (lo <= Z.to_nat (de_offset e))%nat /\ 0 <= de_offset e /\ laid sb (Z.to_nat (de_offset e) + entry_size_of sb e) es hi
  end.

Lemma laid_weaken sb es : forall lo lo' hi, (lo' <= lo)%nat -> laid sb lo es hi -> laid sb lo' es hi.
Proof. destruct es as [|e es]; cbn [laid]; intros lo lo' hi Hl; [lia|]. intros (? & ? & ?). split; [lia|]. by split. Qed.

Section sound.
Context (buf : bytes) (sb : Superblock) (end_ : nat).
Context (Hend : (end_ <= length buf)%nat) (H16 : Z.of_nat end_ <= 65536).

Lemma free_record_spec cur : (cur + 8 <= end_)%nat ->
  free_record buf end_ cur <> Panic /\ forall len, free_record buf end_ cur = Ok len -> (8 <= len /\ cur + len <= end_)%nat.
Proof.
  intros Hc. unfold free_record. rewrite be16_Ok by dir_lia. cbn [fmap res_fmap mbind res_bind].
  set (len := Z.to_nat _). destruct (len =? 0)%nat eqn:E0; cbn [orb fail_if mbind res_bind]; [split; [done|by intros]|].
  apply Nat.eqb_neq in E0. unfold XFS_DIR2_DATA_ALIGN. destruct (Nat.eqb_spec (len mod 8) 0) as [Em|Em]; cbn [negb fail_if mbind res_bind]; [|split; [done|by intros]].
  destruct (Nat.ltb_spec end_ (cur + len)); cbn [fail_if mbind res_bind]; [split; [done|by intros]|].
  assert (8 <= len)%nat by (pose proof (Nat.div_mod len 8 ltac:(lia)); lia).
  rewrite be16_Ok by lia. cbn [mbind res_bind]. destruct (negb _); cbn [fail_if mbind res_bind]; [split; [done|by intros]|].
  split; [done|]. intros len' [= <-]. lia.
Qed.

Lemma used_entry_spec cur : (cur + 8 <= end_)%nat ->
  used_entry buf sb end_ cur <> Panic /\ forall e size, used_entry buf sb end_ cur = Ok (e, size) ->
    entry_ok sb buf e /\ de_offset e = Z.of_nat cur /\ size = entry_size_of sb e /\ (16 <= size /\ cur + size <= end_)%nat.
Proof.
  intros Hc. unfold used_entry. destruct (Nat.ltb_spec (end_ - cur) DATA_ENTRY_MIN_SIZE) as [|Hm]; cbn [fail_if mbind res_bind]; [split; [done|by intros]|].
  unfold DATA_ENTRY_MIN_SIZE in Hm. rewrite be64_Ok, byte_at_Ok by dir_lia. cbn [fmap res_fmap mbind res_bind].
  pose proof (rd_range_any 1 (cur + data_entry.NAMELEN) buf) as Hr. set (nl := Z.to_nat _).
  destruct (Nat.eqb_spec nl 0) as [|Hn0]; cbn [fail_if mbind res_bind]; [split; [done|by intros]|].
  destruct (data_entry_size_spec nl (has_ftype sb) ltac:(lia)) as [Hs1 Hs2]. set (size := data_entry_size nl (has_ftype sb)) in *.
  destruct (Nat.ltb_spec end_ (cur + size)) as [|Hfit]; cbn [fail_if mbind res_bind]; [split; [done|by intros]|].
  rewrite be16_Ok by lia. cbn [mbind res_bind]. destruct (Z.eqb_spec (rd 2 (cur + size - 2) buf) (Z.of_nat cur)) as [Ht|];
    cbn [negb fail_if mbind res_bind]; [|split; [done|by intros]].
  pose proof (rd_range_any 8 (cur + data_entry.INUMBER) buf) as Hri.
  destruct (check_entry_ino_spec sb (rd 8 (cur + data_entry.INUMBER) buf) (fmt "directory data block entry at {}" [AZ (Z.of_nat cur)]) ltac:(lia)) as [Hp Hok].
  destruct (check_entry_ino _ _ _) as [[]|e|] eqn:Ec; cbn [mbind res_bind]; [|split; [done|by intros]|done].
  assert (Hft : (if has_ftype sb then raw ← byte_at buf (cur + data_entry.NAME + nl); ftype_from_raw raw else Ok None) <> Panic).
  { destruct (has_ftype sb); [|done]. rewrite byte_at_Ok by (unfold flag_size in *; dir_lia). cbn [mbind res_bind]. apply ftype_from_raw_total. }
  destruct (if has_ftype sb then _ else _) as [ft|e|]; cbn [mbind res_bind]; [|split; [done|by intros]|done].
  rewrite get_slice_Ok by dir_lia. cbn [mbind res_bind]. split; [done|]. intros e sz [= <- <-].
  rewrite wrap_small by (unfold in_u; lia). assert (Hl : length (slice (cur + data_entry.NAME) nl buf) = nl) by (apply length_slice; dir_lia).
  cbn [de_offset de_name de_ino]. split; [|split; [done|split; [unfold entry_size_of; cbn [de_name]; by rewrite Hl|lia]]].
  constructor; unfold entry_size_of; cbn [de_name de_ino de_offset]; rewrite ?Nat2Z.id, ?Hl; unfold data_entry.INUMBER in *; rewrite ?Nat.add_0_r in *.
  - unfold nl. lia.
  - by apply Hok.
  - done.
  - done.
Qed.

Lemma entries_loop_spec fuel : forall cur, (end_ <= cur + fuel)%nat ->
  entries_loop buf sb end_ fuel cur <> Panic /\
  forall es, entries_loop buf sb end_ fuel cur = Ok es -> (cur <= end_)%nat -> laid sb cur es end_ /\ Forall (entry_ok sb buf) es.
Proof.
  induction fuel as [|fuel IH]; intros cur Hf; cbn [entries_loop].
  { rewrite (proj2 (Nat.leb_le _ _)) by lia. split; [done|]. intros es [= <-] ?. by split. }
  destruct (Nat.leb_spec end_ cur); [split; [done|]; intros es [= <-] ?; by split|].
  destruct (Nat.ltb_spec (end_ - cur) XFS_DIR2_DATA_ALIGN) as [|Ha]; cbn [fail_if mbind res_bind]; [split; [done|by intros]|].
  unfold XFS_DIR2_DATA_ALIGN in Ha. rewrite be16_Ok by dir_lia. cbn [mbind res_bind]. destruct (_ =? _).
  - destruct (free_record_spec cur ltac:(lia)) as [Hp Hlen]. destruct (free_record buf end_ cur) as [len|e|]; cbn [mbind res_bind]; [|split; [done|by intros]|done].
    destruct (Hlen len eq_refl). destruct (IH (cur + len)%nat ltac:(lia)) as [IH1 IH2]. split; [done|]. intros es Hes _.
    destruct (IH2 es Hes ltac:(lia)). split; [|done]. by apply (laid_weaken sb es (cur + len)); [lia|].
  - destruct (used_entry_spec cur ltac:(lia)) as [Hp He]. destruct (used_entry buf sb end_ cur) as [[e size]|e|]; cbn [mbind res_bind]; [|split; [done|by intros]|done].
    destruct (He e size eq_refl) as (Hok & Ho & Hs & Hs1 & Hs2). destruct (IH (cur + size)%nat ltac:(lia)) as [IH1 IH2].
    destruct (entries_loop buf sb end_ fuel (cur + size)) as [rest|er|]; cbn [mbind res_bind]; [|split; [done|by intros]|done].
    split; [done|]. intros es [= <-] _. destruct (IH2 rest eq_refl ltac:(lia)) as [Hla Hall]. split; [|by constructor].
    cbn [laid]. rewrite Ho, Nat2Z.id, <- Hs. split; [lia|]. split; [lia|done].
Qed.
End sound.

Definition hash_ordered (l : list LeafEntry) : Prop := Sorted.StronglySorted Z.le (hashval <$> l).
Definition leaf_entry_at (buf : bytes) (off : nat) : LeafEntry :=
  mkLeafEntry (rd 4 (off + leaf_entry.HASHVAL) buf) (rd 4 (off + leaf_entry.ADDRESS) buf).
Definition leaf_entries_at (buf : bytes) (start n : nat) : list LeafEntry :=
  (fun i => leaf_entry_at buf (start + i * XFS_DIR2_LEAF_ENTRY_SIZE)) <$> seq 0 n.

(** An index read is the records there, in order, or refused. *)
Lemma leaf_entries_loop_spec buf start what : forall n i previous,
  (start + (i + n) * XFS_DIR2_LEAF_ENTRY_SIZE <= length buf)%nat ->
  let l := (fun i => leaf_entry_at buf (start + i * XFS_DIR2_LEAF_ENTRY_SIZE)) <$> seq i n in
  leaf_entries_loop buf start what i n previous <> Panic /\
  (forall es, leaf_entries_loop buf start what i n previous = Ok es <->
     es = l /\ Forall (fun e => previous <= hashval e) l /\ hash_ordered l).
Proof.
  induction n as [|n IH]; intros i previous Hl; cbn [leaf_entries_loop seq fmap list_fmap].
  { split; [done|]. intros es. split; [intros [= <-]; split; [done|]; split; constructor|by intros [-> _]]. }
  unfold XFS_DIR2_LEAF_ENTRY_SIZE in *. rewrite !be32_Ok by dir_lia. cbn [mbind res_bind].
  set (e := leaf_entry_at buf (start + i * 8)). change (rd 4 (start + i * 8 + leaf_entry.HASHVAL) buf) with (hashval e).
  change (mkLeafEntry _ _) with e. destruct (Z.ltb_spec (hashval e) previous) as [Hlt|Hge]; cbn [fail_if mbind res_bind].
  { split; [done|]. intros es. split; [done|]. intros (_ & Hf & _). apply Forall_cons in Hf as [Hf _]. lia. }
  destruct (IH (i + 1)%nat (hashval e) ltac:(lia)) as [Hp Hok]. rewrite Nat.add_1_r in *. set (rest := _ <$> seq (S i) n) in *.
  assert (Hstep : Forall (fun x => previous <= hashval x) (e :: rest) /\ hash_ordered (e :: rest) <->
    Forall (fun x => hashval e <= hashval x) rest /\ hash_ordered rest).
  { unfold hash_ordered. rewrite fmap_cons, Forall_cons. split.
    - intros [_ Hs]. apply Sorted.StronglySorted_inv in Hs as [Hs1 Hs2]. clearbody rest. split; [|exact Hs1].
      rewrite Forall_fmap in Hs2. exact Hs2.
    - intros [Hf Hs]. split; [split; [done|]|].
      + eapply Forall_impl; [exact Hf|]. cbn beta. intros x ?. lia.
      + constructor; [done|]. clearbody rest. rewrite Forall_fmap. exact Hf. }
  destruct (leaf_entries_loop buf start what (S i) n (hashval e)) as [rest'|er|]; cbn [mbind res_bind]; [| |done].
  - split; [done|]. intros es. destruct (proj1 (Hok rest') eq_refl) as (-> & Hs). rewrite Hstep. split; [intros [= <-]; split; [reflexivity|exact Hs]|by intros [-> _]].
  - split; [done|]. intros es. split; [done|]. intros [-> Hs]. exfalso. apply Hstep in Hs. discriminate (proj2 (Hok rest) (conj eq_refl Hs)).
Qed.

Lemma parse_leaf_entries_spec buf start count stale what : (start + count * XFS_DIR2_LEAF_ENTRY_SIZE <= length buf)%nat ->
  parse_leaf_entries buf start count stale what <> Panic /\
  (forall es, parse_leaf_entries buf start count stale what = Ok es <->
     es = leaf_entries_at buf start count /\ hash_ordered es /\ stale_count es = stale).
Proof.
  intros Hl. unfold parse_leaf_entries, leaf_entries_at. destruct (leaf_entries_loop_spec buf start what count 0 0 Hl) as [Hp Hok].
  set (l := _ <$> seq 0 count) in *.
  assert (H0 : Forall (fun e => 0 <= hashval e) l).
  { apply Forall_fmap, Forall_forall. intros i _. apply rd_range_any. }
  destruct (leaf_entries_loop buf start what 0 count 0) as [es0|er|]; cbn [mbind res_bind]; [| |done].
  - destruct (proj1 (Hok es0) eq_refl) as (-> & _ & Hs). destruct (Nat.eqb_spec (stale_count l) stale) as [E|E]; cbn [negb fail_if mbind res_bind].
    + split; [done|]. intros es. split; [by intros [= <-]|by intros [-> _]].
    + split; [done|]. intros es. split; [done|]. by intros (-> & _ & ?).
  - split; [done|]. intros es. split; [done|]. intros (-> & Hs & _). discriminate (proj2 (Hok l) (conj eq_refl (conj H0 Hs))).
Qed.

Section blocks_sound.
Context (buf : bytes) (sb : Superblock) (Hty : sb_typed sb) (Hgeo : sb_geometry sb).

Lemma dir_block_size_spec : dir_block_size buf sb <> Panic /\
  forall n, dir_block_size buf sb = Ok n -> n = Z.to_nat (dirblocksize sb) /\ (n <= length buf)%nat /\ 512 <= Z.of_nat n <= 65536 /\ (n mod 8 = 0)%nat.
Proof.
  unfold dir_block_size. destruct (dirblocksize_spec sb Hty Hgeo) as (E & Hr & Hk). destruct (Nat.ltb_spec (length buf) (Z.to_nat (dirblocksize sb)));
    cbn [fail_if mbind res_bind]; [split; [done|by intros]|]. split; [done|]. intros n [= <-]. split; [done|]. split; [done|]. split; [lia|].
  apply Nat2Z.inj. rewrite Nat2Z.inj_mod, Z2Nat.id by lia. rewrite E. replace (sb_blocklog sb + sb_dirblklog sb) with (sb_blocklog sb + sb_dirblklog sb - 3 + 3) by lia.
  rewrite Z.pow_add_r by lia. change (Z.of_nat 8) with (2 ^ 3). by rewrite Z.mod_mul.
Qed.

Lemma read_data_magic_spec : read_data_magic buf sb <> Panic /\
  forall m, read_data_magic buf sb = Ok m -> m = rd 4 0 buf /\ exists n, dir_block_size buf sb = Ok n.
Proof.
  unfold read_data_magic. destruct dir_block_size_spec as [Hp Hn]. destruct (dir_block_size buf sb) as [n|e|]; cbn [mbind res_bind]; [|split; [done|by intros]|done].
  destruct (Hn n eq_refl) as (_ & Hl & Hr & _). rewrite (proj2 (Nat.ltb_ge _ _)) by dir_lia. cbn [fail_if mbind res_bind].
  rewrite be32_Ok by dir_lia. split; [done|]. intros m [= <-]. split; [done|]. by exists n.
Qed.

Lemma data_hdr_size_spec m : data_hdr_size m sb <> Panic /\
  forall n, data_hdr_size m sb = Ok n -> n = (if is_v5 sb then 64 else 16)%nat.
Proof.
  unfold data_hdr_size. destruct (_ || _); cbn [mbind res_bind].
  - destruct (is_v5 sb); cbn [Bool.eqb negb fail_if mbind res_bind]; (split; [done|]); by intros n [= <-].
  - destruct (_ || _); cbn [mbind res_bind]; [|split; [done|by intros]].
    destruct (is_v5 sb); cbn [Bool.eqb negb fail_if mbind res_bind]; (split; [done|]); by intros n [= <-].
Qed.

Definition header_of : nat := if is_v5 sb then 64 else 16.

Lemma parse_block_form_spec : parse_block_form buf sb <> Panic /\
  forall b, parse_block_form buf sb = Ok b -> exists start,
    (start + length (bd_index b) * 8 + 8 = Z.to_nat (dirblocksize sb))%nat /\
    laid sb header_of (bd_entries b) start /\ Forall (entry_ok sb buf) (bd_entries b) /\
    bd_index b = leaf_entries_at buf start (length (bd_index b)) /\ hash_ordered (bd_index b).
Proof.
  unfold parse_block_form. destruct read_data_magic_spec as [Hp Hm]. destruct (read_data_magic buf sb) as [m|e|]; cbn [mbind res_bind]; [|split; [done|by intros]|done].
  destruct (Hm m eq_refl) as [-> [n En]]. destruct (negb _); cbn [fail_if mbind res_bind]; [split; [done|by intros]|].
  rewrite En. cbn [mbind res_bind]. destruct (proj2 dir_block_size_spec n En) as (E & Hl & Hr & H8).
  destruct (data_hdr_size_spec (rd 4 0 buf)) as [Hdp Hd]. destruct (data_hdr_size _ sb) as [h|e|]; cbn [mbind res_bind]; [|split; [done|by intros]|done].
  specialize (Hd h eq_refl). change ((if is_v5 sb then 64 else 16)%nat) with header_of in Hd. subst h.
  assert (Hh : (header_of = 64 \/ header_of = 16)%nat) by (unfold header_of; destruct (is_v5 sb); auto).
  rewrite (proj2 (Nat.ltb_ge _ _)) by dir_lia. cbn [fail_if mbind res_bind].
  rewrite !be32_Ok by dir_lia. cbn [mbind res_bind]. set (count := rd 4 (n - XFS_DIR2_BLOCK_TAIL_SIZE + block_tail.COUNT) buf). set (stale := rd 4 (n - XFS_DIR2_BLOCK_TAIL_SIZE + block_tail.STALE) buf).
  assert (Hc0 : 0 <= count) by apply rd_range_any. assert (Hs0 : 0 <= stale) by apply rd_range_any.
  destruct (Z.ltb_spec (Z.of_nat (n - XFS_DIR2_BLOCK_TAIL_SIZE - header_of)) (count * Z.of_nat XFS_DIR2_LEAF_ENTRY_SIZE)) as [|Hfit];
    cbn [fail_if mbind res_bind]; [split; [done|by intros]|].
  destruct (count <? stale); cbn [fail_if mbind res_bind]; [split; [done|by intros]|].
  set (start := (n - XFS_DIR2_BLOCK_TAIL_SIZE - Z.to_nat (count * Z.of_nat XFS_DIR2_LEAF_ENTRY_SIZE))%nat).
  assert (Hst : (header_of <= start /\ start + Z.to_nat count * 8 + 8 = n)%nat).
  { subst start. unfold XFS_DIR2_BLOCK_TAIL_SIZE, XFS_DIR2_LEAF_ENTRY_SIZE in *. lia. }
  destruct (parse_leaf_entries_spec buf start (Z.to_nat count) (Z.to_nat stale) "block-form directory") as [Hip Hix]; [dir_lia|].
  destruct (parse_leaf_entries _ _ _ _ _) as [idx|e|]; cbn [mbind res_bind]; [|split; [done|by intros]|done].
  destruct (proj1 (Hix idx) eq_refl) as (Ei & Hord & _).
  destruct (entries_loop_spec buf sb start ltac:(lia) ltac:(lia) start header_of ltac:(lia)) as [Hep He]. unfold parse_entries.
  destruct (entries_loop buf sb start start header_of) as [es|e|]; cbn [mbind res_bind]; [|split; [done|by intros]|done].
  split; [done|]. intros b [= <-]. cbn [bd_entries bd_index]. exists start. destruct (He es eq_refl ltac:(lia)) as [Hla Hall].
  assert (Hlen : length idx = Z.to_nat count) by (rewrite Ei; unfold leaf_entries_at; by rewrite length_fmap, length_seq).
  rewrite Hlen. split; [lia|]. by split.
Qed.

Lemma parse_data_block_spec : parse_data_block buf sb <> Panic /\
  forall es, parse_data_block buf sb = Ok es -> laid sb header_of es (Z.to_nat (dirblocksize sb)) /\ Forall (entry_ok sb buf) es.
Proof.
  unfold parse_data_block. destruct read_data_magic_spec as [Hp Hm]. destruct (read_data_magic buf sb) as [m|e|]; cbn [mbind res_bind]; [|split; [done|by intros]|done].
  destruct (Hm m eq_refl) as [-> [n En]]. destruct (is_block_form _).
  - destruct parse_block_form_spec as [Hbp Hb]. destruct (parse_block_form buf sb) as [b|e|]; cbn [fmap res_fmap]; [|split; [done|by intros]|done].
    split; [done|]. intros es [= <-]. destruct (Hb b eq_refl) as (start & Hs & Hla & Hall & _). split; [|done].
    clear - Hla Hs. assert (Hle : (start <= Z.to_nat (dirblocksize sb))%nat) by lia. clear Hs. revert Hla. generalize header_of. generalize (bd_entries b).
    induction l as [|e l IH]; cbn [laid]; intros lo; [lia|]. intros (? & ? & Hla). split; [done|]. split; [done|]. by apply IH.
  - rewrite En. cbn [mbind res_bind]. destruct (proj2 dir_block_size_spec n En) as (E & Hl & Hr & H8).
    destruct (data_hdr_size_spec (rd 4 0 buf)) as [Hdp Hd]. destruct (data_hdr_size _ sb) as [h|e|]; cbn [mbind res_bind]; [|split; [done|by intros]|done].
    specialize (Hd h eq_refl). change ((if is_v5 sb then 64 else 16)%nat) with header_of in Hd. subst h. subst n.
    assert (Hh : (header_of = 64 \/ header_of = 16)%nat) by (unfold header_of; destruct (is_v5 sb); auto).
    destruct (entries_loop_spec buf sb (Z.to_nat (dirblocksize sb)) Hl ltac:(lia) (Z.to_nat (dirblocksize sb)) header_of ltac:(lia)) as [Hep He].
    split; [done|]. intros es Hes. apply He; [done|lia].
Qed.
End blocks_sound.

Section index_sound.
Context (buf : bytes) (sb : Superblock) (Hty : sb_typed sb) (Hgeo : sb_geometry sb).

Lemma da_hdr_size_spec m what : da_hdr_size m sb what <> Panic /\
  forall n, da_hdr_size m sb what = Ok n -> n = (if is_v5 sb then 64 else 16)%nat.
Proof.
  unfold da_hdr_size. repeat (case_match; cbn [mbind res_bind]); try (split; [done|by intros]).
  all: repeat match goal with H : (if ?c then _ else _) = Ok _ |- _ => destruct c; [injection H as <- <-|]; [|try discriminate] end.
  all: try discriminate.
  all: destruct (is_v5 sb); cbn [Bool.eqb negb fail_if mbind res_bind]; (split; [done|]); by intros n [= <-].
Qed.

Lemma parse_leaf_spec : parse_leaf buf sb <> Panic /\
  forall l, parse_leaf buf sb = Ok l ->
    lf_magic l = rd 2 da_blk.MAGIC buf /\ is_leaf_magic (lf_magic l) = true /\
    lf_entries l = leaf_entries_at buf (header_of sb) (length (lf_entries l)) /\
    lf_count l = Z.of_nat (length (lf_entries l)) /\ hash_ordered (lf_entries l) /\ in_u 32 (lf_forw l) /\
    (header_of sb + length (lf_entries l) * 8 <= Z.to_nat (dirblocksize sb))%nat.
Proof.
  unfold parse_leaf. destruct (dir_block_size_spec buf sb Hty Hgeo) as [Hp Hn]. destruct (dir_block_size buf sb) as [n|e|]; cbn [mbind res_bind]; [|split; [done|by intros]|done].
  destruct (Hn n eq_refl) as (E & Hl & Hr & _). rewrite (proj2 (Nat.ltb_ge _ _)) by dir_lia. cbn [fail_if mbind res_bind].
  rewrite be16_Ok by dir_lia. cbn [mbind res_bind]. set (m := rd 2 da_blk.MAGIC buf).
  destruct (is_leaf_magic m) eqn:Em; cbn [negb fail_if mbind res_bind]; [|split; [done|by intros]].
  destruct (da_hdr_size_spec m "directory leaf block") as [Hdp Hd]. destruct (da_hdr_size m sb _) as [h|e|]; cbn [mbind res_bind]; [|split; [done|by intros]|done].
  specialize (Hd h eq_refl). change ((if is_v5 sb then 64 else 16)%nat) with (header_of sb) in Hd. subst h.
  assert (Hh : (header_of sb = 64 \/ header_of sb = 16)%nat) by (unfold header_of; destruct (is_v5 sb); auto).
  assert (Hct : (da_counts (header_of sb) (is_v5 sb) + 4 <= 64)%nat) by (unfold da_counts; destruct (is_v5 sb); lia).
  rewrite !be16_Ok by lia. cbn [mbind res_bind]. set (count := rd 2 (da_counts (header_of sb) (is_v5 sb)) buf). set (stale := rd 2 (da_counts (header_of sb) (is_v5 sb) + 2) buf).
  assert (Hc0 : 0 <= count) by apply rd_range_any.
  destruct (count <? stale); cbn [fail_if mbind res_bind]; [split; [done|by intros]|].
  set (lim := if _ || _ then _ else _).
  assert (Hlim : lim <> Panic /\ forall b limit, lim = Ok (b, limit) -> (limit <= n)%nat).
  { subst lim. destruct (_ || _).
    - rewrite be32_Ok by dir_lia. cbn [mbind res_bind]. destruct (_ <? _); cbn [fail_if mbind res_bind]; (split; [done|]); [by intros|].
      intros b limit [= <- <-]. lia.
    - split; [done|]. intros b limit [= <- <-]. lia. }
  destruct Hlim as [Hlp Hlim]. destruct lim as [[bc limit]|e|]; cbn [mbind res_bind]; [|split; [done|by intros]|done].
  specialize (Hlim bc limit eq_refl). destruct (Nat.ltb_spec limit (header_of sb + Z.to_nat count * XFS_DIR2_LEAF_ENTRY_SIZE)) as [|Hfit];
    cbn [fail_if mbind res_bind]; [split; [done|by intros]|]. unfold XFS_DIR2_LEAF_ENTRY_SIZE in Hfit.
  destruct (parse_leaf_entries_spec buf (header_of sb) (Z.to_nat count) (Z.to_nat stale) "directory leaf block") as [Hip Hix]; [dir_lia|].
  destruct (parse_leaf_entries _ _ _ _ _) as [idx|e|]; cbn [mbind res_bind]; [|split; [done|by intros]|done].
  destruct (proj1 (Hix idx) eq_refl) as (Ei & Hord & _). rewrite !be32_Ok by dir_lia. cbn [mbind res_bind]. split; [done|]. intros l [= <-].
  cbn [lf_magic lf_entries lf_count lf_forw]. assert (Hlen : length idx = Z.to_nat count) by (rewrite Ei; unfold leaf_entries_at; by rewrite length_fmap, length_seq).
  rewrite Hlen. split; [done|]. split; [done|]. split; [done|]. split; [lia|]. split; [done|]. split; [|lia]. apply rd_range_any.
Qed.

Definition node_entry_at (off : nat) : NodeEntry :=
  mkNodeEntry (rd 4 (off + node_entry.HASHVAL) buf) (rd 4 (off + node_entry.BEFORE) buf).
Definition node_entries_at (start i n : nat) : list NodeEntry :=
  (fun j => node_entry_at (start + j * XFS_DA_NODE_ENTRY_SIZE)) <$> seq i n.
Definition bound_ordered (l : list NodeEntry) : Prop := Sorted.StronglySorted Z.le (ne_hashval <$> l).

Lemma node_entries_loop_spec start : forall n i previous,
  (start + (i + n) * XFS_DA_NODE_ENTRY_SIZE <= length buf)%nat ->
  node_entries_loop buf start i n previous <> Panic /\
  (forall es, node_entries_loop buf start i n previous = Ok es <->
     es = node_entries_at start i n /\ Forall (fun e => previous <= ne_hashval e) es /\ bound_ordered es).
Proof.
  induction n as [|n IH]; intros i previous Hl; cbn [node_entries_loop].
  { split; [done|]. intros es. unfold node_entries_at. cbn [seq fmap list_fmap]. split; [intros [= <-]; split; [done|]; split; constructor|by intros [-> _]]. }
  unfold XFS_DA_NODE_ENTRY_SIZE in *. rewrite !be32_Ok by dir_lia. cbn [mbind res_bind].
  set (e := node_entry_at (start + i * 8)). change (rd 4 (start + i * 8 + node_entry.HASHVAL) buf) with (ne_hashval e).
  assert (Hc : node_entries_at start i (S n) = e :: node_entries_at start (S i) n) by done.
  destruct (Z.ltb_spec (ne_hashval e) previous) as [Hlt|Hge]; cbn [fail_if mbind res_bind].
  { split; [done|]. intros es. split; [done|]. rewrite Hc. intros (-> & Hf & _). apply Forall_cons in Hf as [Hf _]. lia. }
  change (mkNodeEntry _ _) with e.
  destruct (IH (i + 1)%nat (ne_hashval e) ltac:(lia)) as [Hp Hok]. rewrite Nat.add_1_r in *. rewrite Hc. set (rest := node_entries_at start (S i) n) in *. clearbody rest.
  assert (Hstep : Forall (fun x => previous <= ne_hashval x) (e :: rest) /\ bound_ordered (e :: rest) <->
    Forall (fun x => ne_hashval e <= ne_hashval x) rest /\ bound_ordered rest).
  { unfold bound_ordered. rewrite fmap_cons, Forall_cons. split.
    - intros [_ Hs]. apply Sorted.StronglySorted_inv in Hs as [Hs1 Hs2]. split; [|exact Hs1]. rewrite Forall_fmap in Hs2. exact Hs2.
    - intros [Hf Hs]. split; [split; [done|]|].
      + eapply Forall_impl; [exact Hf|]. cbn beta. intros x ?. lia.
      + constructor; [done|]. rewrite Forall_fmap. exact Hf. }
  destruct (node_entries_loop buf start (S i) n (ne_hashval e)) as [rest'|er|]; cbn [mbind res_bind]; [| |done].
  - split; [done|]. intros es. destruct (proj1 (Hok rest') eq_refl) as (-> & Hs). split; [intros [= <-]; split; [done|by apply Hstep]|by intros [-> _]].
  - split; [done|]. intros es. split; [done|]. intros [-> Hs]. exfalso. apply Hstep in Hs. discriminate (proj2 (Hok rest) (conj eq_refl Hs)).
Qed.

Lemma parse_node_spec : parse_node buf sb <> Panic /\
  forall d, parse_node buf sb = Ok d ->
    1 <= nd_level d <= MAX_SUPPORTED_NODE_LEVEL /\ nd_count d = Z.of_nat (length (nd_entries d)) /\
    nd_entries d = node_entries_at (header_of sb) 0 (length (nd_entries d)) /\ bound_ordered (nd_entries d).
Proof.
  unfold parse_node. destruct (dir_block_size_spec buf sb Hty Hgeo) as [Hp Hn]. destruct (dir_block_size buf sb) as [n|e|]; cbn [mbind res_bind]; [|split; [done|by intros]|done].
  destruct (Hn n eq_refl) as (E & Hl & Hr & _). rewrite (proj2 (Nat.ltb_ge _ _)) by dir_lia. cbn [fail_if mbind res_bind].
  rewrite be16_Ok by dir_lia. cbn [mbind res_bind]. set (m := rd 2 da_blk.MAGIC buf).
  destruct (_ && _); cbn [fail_if mbind res_bind]; [split; [done|by intros]|].
  destruct (da_hdr_size_spec m "directory node block") as [Hdp Hd]. destruct (da_hdr_size m sb _) as [h|e|]; cbn [mbind res_bind]; [|split; [done|by intros]|done].
  specialize (Hd h eq_refl). change ((if is_v5 sb then 64 else 16)%nat) with (header_of sb) in Hd. subst h.
  assert (Hh : (header_of sb = 64 \/ header_of sb = 16)%nat) by (unfold header_of; destruct (is_v5 sb); auto).
  assert (Hct : (da_counts (header_of sb) (is_v5 sb) + 4 <= 64)%nat) by (unfold da_counts; destruct (is_v5 sb); lia).
  rewrite !be16_Ok by lia. cbn [mbind res_bind]. set (count := rd 2 (da_counts (header_of sb) (is_v5 sb)) buf). set (level := rd 2 (da_counts (header_of sb) (is_v5 sb) + 2) buf).
  assert (Hc0 : 0 <= count) by apply rd_range_any. assert (Hl0 : 0 <= level) by apply rd_range_any.
  destruct (Z.eqb_spec level 0); cbn [fail_if mbind res_bind]; [split; [done|by intros]|].
  destruct (XFS_DA_NODE_MAXDEPTH <? level); cbn [fail_if mbind res_bind]; [split; [done|by intros]|].
  destruct (Z.ltb_spec MAX_SUPPORTED_NODE_LEVEL level); cbn [fail_if mbind res_bind]; [split; [done|by intros]|].
  destruct (Nat.ltb_spec n (header_of sb + Z.to_nat count * XFS_DA_NODE_ENTRY_SIZE)) as [|Hfit]; cbn [fail_if mbind res_bind]; [split; [done|by intros]|].
  unfold XFS_DA_NODE_ENTRY_SIZE in Hfit.
  destruct (node_entries_loop_spec (header_of sb) (Z.to_nat count) 0 0) as [Hip Hix]; [dir_lia|].
  destruct (node_entries_loop _ _ _ _ _) as [es|e|]; cbn [mbind res_bind]; [|split; [done|by intros]|done].
  destruct (proj1 (Hix es) eq_refl) as (Ei & _ & Hord). rewrite !be32_Ok by dir_lia. cbn [mbind res_bind]. split; [done|]. intros d [= <-].
  cbn [nd_level nd_count nd_entries]. assert (Hlen : length es = Z.to_nat count) by (rewrite Ei; unfold node_entries_at; by rewrite length_fmap, length_seq).
  rewrite Hlen. split; [lia|]. split; [lia|]. by split.
Qed.

End index_sound.

(** The child taken is the first whose bound is not below the hash. *)
Lemma child_for_hash_spec d hash b : child_for_hash d hash = Some b <->
  exists i e, nd_entries d !! i = Some e /\ before e = b /\ hash <= ne_hashval e /\
    forall j e', (j < i)%nat -> nd_entries d !! j = Some e' -> ne_hashval e' < hash.
Proof.
  unfold child_for_hash. induction (nd_entries d) as [|e es IH]; cbn [find fmap option_fmap option_map].
  { split; [intros H; discriminate H|]. intros (i & e & H & _). by rewrite lookup_nil in H. }
  destruct (Z.leb_spec hash (ne_hashval e)) as [Hle|Hgt].
  - cbn. split.
    + intros [= <-]. exists 0%nat, e. split_and!; [done..|]. lia.
    + intros (i & e' & Hi & <- & Hh & Hb). destruct i as [|i]; [by injection Hi as <-|]. specialize (Hb 0%nat e ltac:(lia) eq_refl). lia.
  - rewrite IH. split.
    + intros (i & e' & Hi & Hb & Hh & Hlt). exists (S i), e'. split_and!; [done..|]. intros [|j] e2 Hj He2; [by injection He2 as <-|]. apply (Hlt j e2); [lia|done].
    + intros ([|i] & e' & Hi & Hb & Hh & Hlt); [injection Hi as <-; lia|]. exists i, e'. split_and!; [done..|]. intros j e2 Hj He2. apply (Hlt (S j) e2); [lia|done].
Qed.

Lemma verify_v5_header_total `{Crc : Crc32c} what layout buf sb daddr owner : sb_typed sb -> sb_geometry sb ->
  (Nat.max (l_crc layout + 4) (Nat.max (l_blkno layout + 8) (Nat.max (l_uuid layout + 16) (l_owner layout + 8))) <= 512)%nat ->
  verify_v5_header what layout buf sb daddr owner <> Panic.
Proof.
  intros Hty Hgeo Hl. unfold verify_v5_header. destruct (negb (is_v5 sb)); [done|].
  destruct (dir_block_size_spec buf sb Hty Hgeo) as [Hp Hn]. destruct (dir_block_size buf sb) as [n|e|]; cbn [mbind res_bind]; [|done|done].
  destruct (Hn n eq_refl) as (_ & Hb & Hr & _). rewrite le32_Ok, get_slice_Ok by lia. cbn [mbind res_bind].
  rewrite crc32c_with_zeroed_crc_Ok by (rewrite length_slice; lia). cbn [mbind res_bind].
  apply bind_not_Panic; [apply fail_if_not_Panic|intros _ _]. rewrite uuid_at_Ok by lia. cbn [mbind res_bind].
  apply bind_not_Panic; [apply fail_if_not_Panic|intros _ _]. rewrite !be64_Ok by lia. cbn [mbind res_bind].
  apply bind_not_Panic; [apply fail_if_not_Panic|intros _ _]. apply fail_if_not_Panic.
Qed.


(** ** Short form, read strictly and read past its faults *)

(** What has been read past only grows. *)
Definition tolerates (t t' : Tolerated) : Prop :=
  (exists extra, t_types t' = t_types t ++ extra) /\ (t_parent t <> None -> t_parent t' = t_parent t).
#[global] Instance tolerates_refl : Reflexive tolerates.
Proof. intros t. split; [exists []; by rewrite app_nil_r|done]. Qed.
#[global] Instance tolerates_trans : Transitive tolerates.
Proof.
  intros a b c [[x Hx] Hp] [[y Hy] Hq]. split; [exists (x ++ y); by rewrite Hy, Hx, app_assoc|]. intros H. rewrite Hq; [by apply Hp|by rewrite Hp].
Qed.
#[global] Instance tolerates_anti : AntiSymm eq tolerates.
Proof.
  intros a b [[x Hx] Hp] [[y Hy] Hq]. destruct a as [ta pa], b as [tb pb]. cbn in *. assert (x = []) as ->.
  { apply (f_equal length) in Hy. rewrite Hx, !length_app in Hy. destruct x; [done|cbn in Hy; lia]. }
  rewrite app_nil_r in Hx. subst. f_equal. destruct pa as [e|]; [by rewrite Hp|]. destruct pb as [e|]; [|done]. by apply Hq.
Qed.

(** A strict read and one that tolerates, from the same state. *)
Definition strict {A} (t : Tolerated) (r0 r1 : res (A * option Tolerated)) : Prop :=
  r0 <> Panic /\
  match r1 with
  | Ok (x, Some t') => tolerates t t' /\ (t' = t -> r0 = Ok (x, None)) /\ (t' <> t -> exists e, r0 = Err e)
  | Ok (_, None) | Panic => False
  | Err _ => exists e, r0 = Err e
  end.

Lemma strict_Err {A} t e e' : @strict A t (Err e) (Err e').
Proof. split; [done|by exists e]. Qed.
Lemma strict_Ok {A} t (x : A) : strict t (Ok (x, None)) (Ok (x, Some t)).
Proof. split; [done|]. split; [done|]. by split. Qed.

#[global] Instance Tolerated_eq_dec_dir : EqDecision FileType := _.
Lemma tolerated_dec (t t' : Tolerated) : tolerates t t' -> t' = t \/ t' <> t.
Proof.
  intros [[x Hx] Hp]. destruct t as [ts p], t' as [ts' p']. cbn in *. subst ts'. destruct x as [|y x].
  - rewrite app_nil_r. destruct p as [e|]; [left; by rewrite Hp|]. destruct p' as [e'|]; [right; congruence|by left].
  - right. intros [= H _]. apply (f_equal length) in H. rewrite length_app in H. cbn in H. lia.
Qed.

Lemma strict_bind {A B} t (m0 m1 : res (A * option Tolerated)) (f : A * option Tolerated -> res (B * option Tolerated)) :
  strict t m0 m1 -> (forall a t', tolerates t t' -> strict t' (f (a, None)) (f (a, Some t'))) -> strict t (m0 ≫= f) (m1 ≫= f).
Proof.
  intros [Hp Hm] Hf. destruct m1 as [[a [t'|]]|e|]; [|done| |done]; cbn [mbind res_bind].
  - destruct Hm as (Hle & Hc & Hd). destruct (Hf a t' Hle) as [Hfp Hft]. destruct (tolerated_dec t t' Hle) as [->|Hne].
    + rewrite (Hc eq_refl). cbn [mbind res_bind]. by split.
    + destruct (Hd Hne) as [e ->]. cbn [mbind res_bind]. split; [done|]. destruct (f (a, Some t')) as [[b [t2|]]|e2|]; [|done|by exists e|done].
      destruct Hft as (Hle2 & _). split; [by etrans|]. split; [|by exists e]. intros ->. by destruct Hne; apply (anti_symm tolerates).
  - destruct Hm as [e' ->]. cbn [mbind res_bind]. apply strict_Err.
Qed.

(** A step that does not look at what was tolerated. *)
Lemma strict_step {A B} t (m : res A) (f0 f1 : A -> res (B * option Tolerated)) :
  m <> Panic -> (forall a, m = Ok a -> strict t (f0 a) (f1 a)) -> strict t (m ≫= f0) (m ≫= f1).
Proof. intros Hp Hf. destruct m as [a|e|]; cbn [mbind res_bind]; [by apply Hf|apply strict_Err|done]. Qed.

Section short_sound.
Context (inode : Inode) (sf : bytes) (sb : Superblock) (wide : bool).

Lemma read_sf_ino_spec off : (off + (if wide then 8 else 4) <= length sf)%nat ->
  read_sf_ino sf off wide <> Panic /\ forall z, read_sf_ino sf off wide = Ok z -> 0 <= z.
Proof.
  unfold read_sf_ino. destruct wide; cbn [negb]; intros Hl.
  - rewrite be64_Ok by lia. cbn [mbind res_bind]. destruct (_ <? _); cbn [fail_if mbind res_bind]; (split; [done|]); [by intros|]. intros z [= <-]. apply rd_range_any.
  - rewrite be32_Ok by lia. split; [done|]. intros z [= <-]. apply rd_range_any.
Qed.

Lemma sf_ftype_strict name raw t : strict t (sf_ftype name raw None) (sf_ftype name raw (Some t)).
Proof.
  unfold sf_ftype. pose proof (ftype_from_raw_total raw) as Ht. destruct (ftype_from_raw raw) as [ft|e|]; [apply strict_Ok| |done].
  split; [done|]. split; [split; [by exists [(name, raw)]|done]|]. split; [|by exists e]. intros H. exfalso.
  apply (f_equal t_types) in H. cbn in H. apply (f_equal length) in H. rewrite length_app in H. cbn in H. lia.
Qed.

Lemma sf_loop_strict n : forall i cur w t, strict t (sf_loop inode sf sb wide i n cur w None) (sf_loop inode sf sb wide i n cur w (Some t)).
Proof.
  induction n as [|n IH]; intros i cur w t; cbn [sf_loop]; [apply strict_Ok|].
  apply strict_step; [apply fail_if_not_Panic|intros _ H3%fail_if_Ok%Nat.ltb_ge]. unfold sf_entry.NAME in H3.
  rewrite byte_at_Ok by dir_lia. cbn [fmap res_fmap mbind res_bind]. set (nl := Z.to_nat _).
  apply strict_step; [apply fail_if_not_Panic|intros _ _]. rewrite be16_Ok by dir_lia. cbn [mbind res_bind].
  set (size := (sf_entry.NAME + nl + flag_size (has_ftype sb) + (if wide then 8 else 4))%nat).
  apply strict_step; [apply fail_if_not_Panic|intros _ Hfit%fail_if_Ok%Nat.ltb_ge].
  rewrite get_slice_Ok by (unfold size in Hfit; dir_lia). cbn [mbind res_bind]. set (name := slice _ nl sf).
  apply strict_bind.
  { destruct (has_ftype sb) eqn:Ef; [|apply strict_Ok]. rewrite byte_at_Ok by (unfold size, flag_size in Hfit; dir_lia). cbn [mbind res_bind]. apply sf_ftype_strict. }
  intros ft t' _. destruct (read_sf_ino_spec (cur + sf_entry.NAME + nl + flag_size (has_ftype sb))) as [Hp Hz]; [unfold size in Hfit; lia|].
  apply strict_step; [done|]. intros ino Hi. apply strict_step; [by apply check_entry_ino_spec, Hz|]. intros _ _.
  apply strict_bind; [apply IH|]. intros [[rest w'] c'] t2 _. apply strict_Ok.
Qed.
End short_sound.

Lemma short_form_strict inode fork sb : 0 <= i_size inode ->
  strict (mkTolerated [] None) (short_form inode fork sb None) (short_form inode fork sb (Some (mkTolerated [] None))).
Proof.
  intros Hs. unfold short_form. apply strict_step; [apply fail_if_not_Panic|intros _ _]. apply strict_step; [apply fail_if_not_Panic|intros _ _].
  apply strict_step; [apply fail_if_not_Panic|intros _ Hl%fail_if_Ok%Z.ltb_ge]. rewrite get_slice_Ok by lia. cbn [mbind res_bind].
  set (sf := slice 0 _ fork). apply strict_step; [apply fail_if_not_Panic|intros _ H2%fail_if_Ok%Nat.ltb_ge].
  rewrite !byte_at_Ok by dir_lia. cbn [mbind res_bind]. set (wide := negb _).
  apply strict_step; [apply fail_if_not_Panic|intros _ Hh%fail_if_Ok%Nat.ltb_ge].
  destruct (read_sf_ino_spec sf wide sf_hdr.PARENT Hh) as [Hp Hz]. apply strict_step; [done|]. intros p Hpz.
  destruct (check_entry_ino_spec sb p (fmt "inode {}: short-form parent" [AZ (i_ino inode)]) (Hz p Hpz)) as [Hcp _].
  match goal with |- strict ?t ((match check_entry_ino ?a ?b ?c with _ => _ end) ≫= ?f) _ =>
    assert (Hk : forall t', tolerates t t' -> strict t' (f None) (f (Some t'))) end.
  { intros t' _. apply strict_bind; [apply sf_loop_strict|]. intros [[es w] cur] t2 _.
    apply strict_step; [apply fail_if_not_Panic|intros _ _]. apply strict_step; [apply fail_if_not_Panic|intros _ _]. apply strict_Ok. }
  destruct (check_entry_ino _ _ _) as [[]|e|]; cbn [mbind res_bind]; [by apply Hk| |done].
  assert (Ht : tolerates (mkTolerated [] None) (mkTolerated [] (Some e))) by (split; [by exists []|done]).
  destruct (Hk _ Ht) as [_ Hr]. split; [done|]. clear Hk. cbn [t_types t_parent]. revert Hr.
  match goal with |- match ?r with Ok _ => _ | Err _ => _ | Panic => _ end -> _ => destruct r as [[x [t'|]]|e'|] end; [|done|by exists e|done].
  intros ([Hx Hpar] & _ & _). cbn in Hpar. specialize (Hpar ltac:(done)). split; [split; [exact Hx|done]|]. split; [|by exists e].
  intros ->. discriminate Hpar.
Qed.

(** Reading a short-form directory never panics, whatever the inode's fork
    holds, neither strictly nor past its faults; and the strict read succeeds
    exactly when the other one does with nothing to tolerate, with the same
    directory. *)
Theorem short_form_reads_agree inode fork sb : 0 <= i_size inode ->
  read_short_form inode fork sb <> Panic /\ read_short_form_lenient inode fork sb <> Panic /\
  forall dir, read_short_form inode fork sb = Ok dir <-> read_short_form_lenient inode fork sb = Ok (dir, mkTolerated [] None).
Proof.
  intros Hs. destruct (short_form_strict inode fork sb Hs) as [Hp Hm]. unfold read_short_form, read_short_form_lenient.
  destruct (short_form inode fork sb (Some _)) as [[d [t'|]]|e|]; [|done| |done]; cbn [mbind res_bind expect].
  - destruct Hm as (Hle & Hc & Hd). split; [by destruct (short_form inode fork sb None)|]. split; [done|]. intros dir.
    destruct (tolerated_dec _ _ Hle) as [->|Hne].
    + rewrite (Hc eq_refl). cbn [fmap res_fmap fst]. split; [by intros [= <-]|by intros [= <-]].
    + destruct (Hd Hne) as [e ->]. cbn [fmap res_fmap]. split; [done|]. intros [= _ ->]. done.
  - destruct Hm as [e' ->]. cbn [fmap res_fmap]. split; [done|]. split; [done|]. done.
Qed.
