(* ===== verification/DirShort.v ===== *)
(** * Short-form directories written ([src/src/dir_write.rs])

    A short-form directory is encoded whole from its parent and the final list
    of its entries: every edit (adding a name, taking one out, renaming one)
    makes the list and encodes it.

    The theorems: what is encoded is what is read, unless an inode number lies
    between the width the writer widens at and the one the reader counts from,
    when the driver refuses to read what it wrote; and each edit, read back, is
    that edit of the list, the entry it adds under a cookie nobody has been
    given. *)

From Stdlib Require Import ZArith Lia Strings.String Strings.Byte Bool.
From stdpp Require Import base list strings.
From S2P Require Import Prelude Error Endian Crc32c Superblock Sample Inode Dir.

(** [n.div_ceil(8) * 8], as a [u32] *)
Definition cookie_span (namelen : nat) (has_ftype : bool) : Z :=
  let raw := (8 + 1 + namelen + flag_size has_ftype + 2)%nat in
  wrap 32 (Z.of_nat ((raw + XFS_DIR2_DATA_ALIGN - 1) / XFS_DIR2_DATA_ALIGN * XFS_DIR2_DATA_ALIGN)).

Record SfEntry := mkSfEntry { se_name : bytes; se_ino : Z; se_ftype : Z; se_cookie : Z }.

Definition first_cookie (has_ftype : bool) : Z :=
  wadd 32 (wadd 32 (Z.of_nat XFS_DIR3_DATA_HDR_SIZE) (cookie_span 1 has_ftype)) (cookie_span 2 has_ftype).

(** [iter.max()] *)
Definition max_of (l : list Z) : option Z := match l with [] => None | x :: l => Some (foldl Z.max x l) end.

Definition next_cookie (parsed : ShortFormDir) (has_ftype : bool) : Z :=
  default (first_cookie has_ftype)
    (max_of ((fun e => wadd 32 (de_offset e) (cookie_span (length (de_name e)) has_ftype)) <$> sf_entries parsed)).

(** The number past which the writer stores eight bytes. *)
Definition WRITER_MAX_SHORT_INUM : Z := 0x7fffffff.

Section encode.
Context (has_ftype wide : bool).

Definition put_ino (ino : Z) : bytes := if wide then to_be_bytes 8 ino else to_be_bytes 4 (wrap 32 ino).

Fixpoint encode_entries (out : bytes) (entries : list SfEntry) : res bytes :=
  match entries with
  | [] => Ok out
  | e :: entries =>
      fail_if (65535 <? se_cookie e)
        (UnsupportedFeature (fmt "a directory offset of {} is past what the two-byte field holds" [AZ (se_cookie e)]));;
      let out := out ++ to_be_bytes 1 (wrap 8 (Z.of_nat (length (se_name e)))) in
      let out := out ++ to_be_bytes 2 (wrap 16 (se_cookie e)) in
      let out := out ++ se_name e in
      let out := if has_ftype then out ++ to_be_bytes 1 (se_ftype e) else out in
      let out := out ++ put_ino (se_ino e) in
      encode_entries out entries
  end.
End encode.

(** [u8::try_from(n)] *)
Definition try_u8 (n : nat) (e : Error) : res Z := fail_if (255 <? Z.of_nat n) e;; Ok (Z.of_nat n).

Definition wide_numbers (parent : Z) (entries : list SfEntry) : nat :=
  ((if (WRITER_MAX_SHORT_INUM <? parent)%Z then 1 else 0) +
   length (List.filter (fun e => (WRITER_MAX_SHORT_INUM <? se_ino e)%Z) entries))%nat.

Definition encode_short_form (parsed : ShortFormDir) (has_ftype : bool) (entries : list SfEntry) (fork_space : Z) : res bytes :=
  let wide_numbers := wide_numbers (parent_ino parsed) entries in
  i8count ← try_u8 wide_numbers
    (UnsupportedFeature (fmt "a short-form directory holds {} inode numbers past {} and the count field holds {}"
       [AZ (Z.of_nat wide_numbers); AZ WRITER_MAX_SHORT_INUM; AZ 255]));
  let wide := negb (i8count =? 0) in
  let header := if wide then XFS_DIR2_SF_HDR_SIZE_8 else XFS_DIR2_SF_HDR_SIZE_4 in
  count ← try_u8 (length entries)
    (UnsupportedFeature (fmt "a short-form directory cannot hold {} entries" [AZ (Z.of_nat (length entries))]));
  let out := to_be_bytes 1 count ++ to_be_bytes 1 i8count ++ put_ino wide (parent_ino parsed) in
  fail_if (negb (length out =? header)%nat)
    (Internal (fmt "a short-form directory header encoded to {} bytes, not the {} its entries are placed against"
       [AZ (Z.of_nat (length out)); AZ (Z.of_nat header)]));;
  out ← encode_entries has_ftype wide out entries;
  fail_if (fork_space <? Z.of_nat (length out))
    (UnsupportedFeature (fmt "the directory needs {} bytes and the inode's fork holds {}; growing it past the inode is not implemented"
       [AZ (Z.of_nat (length out)); AZ fork_space]));;
  Ok out.

(** An entry kept as it was. *)
Definition kept (e : DirEntry) : SfEntry := mkSfEntry (de_name e) (de_ino e) (ftype_to_raw (de_ftype e)) (de_offset e).

(** [crate::dir_block::Entry] *)
Record Entry := mkEntry { en_name : bytes; en_ino : Z; en_ftype : Z }.
#[global] Instance Entry_eq_dec : EqDecision Entry.
Proof. solve_decision. Defined.

Section edits.
Context (sb : Superblock).

Definition short_form_after_rename (parsed : ShortFormDir) (from to : bytes) (fork_space : Z) : res bytes :=
  let ft := has_ftype sb in
  let next := next_cookie parsed ft in
  moved ← expect (find (fun e => bool_decide (de_name e = from)) (sf_entries parsed));
  let entries := kept <$> List.filter (fun e => negb (bool_decide (de_name e = from))) (sf_entries parsed) in
  encode_short_form parsed ft
    (entries ++ [mkSfEntry to (de_ino moved) (ftype_to_raw (de_ftype moved)) next]) fork_space.

Fixpoint cookies_of (parsed : ShortFormDir) (next : Z) (entries : list Entry) : list SfEntry :=
  match entries with
  | [] => []
  | e :: entries =>
      match find (fun p => bool_decide (de_name p = en_name e) && (de_ino p =? en_ino e)) (sf_entries parsed) with
      | Some p => mkSfEntry (en_name e) (en_ino e) (en_ftype e) (de_offset p) :: cookies_of parsed next entries
      | None =>
          mkSfEntry (en_name e) (en_ino e) (en_ftype e) next ::
          cookies_of parsed (wadd 32 next (cookie_span (length (en_name e)) (has_ftype sb))) entries
      end
  end.

Definition short_form_of (parsed : ShortFormDir) (parent : Z) (entries : list Entry) (fork_space : Z) : res (option bytes) :=
  let ft := has_ftype sb in
  let header := mkShortForm parent (i8count parsed) [] in
  fork ← encode_short_form header ft (cookies_of parsed (next_cookie parsed ft) entries) (umax 64);
  Ok (if Z.of_nat (length fork) <=? fork_space then Some fork else None).

Definition short_form_with_entry (parsed : ShortFormDir) (name : bytes) (ino ftype fork_space : Z) : res (option bytes) :=
  let ft := has_ftype sb in
  let next := next_cookie parsed ft in
  fork ← encode_short_form parsed ft ((kept <$> sf_entries parsed) ++ [mkSfEntry name ino ftype next]) (umax 64);
  Ok (if Z.of_nat (length fork) <=? fork_space then Some fork else None).

Definition short_form_without_entry (parsed : ShortFormDir) (name : bytes) (fork_space : Z) : res bytes :=
  let ft := has_ftype sb in
  fail_if (negb (existsb (fun e => bool_decide (de_name e = name)) (sf_entries parsed))) NotFound;;
  encode_short_form parsed ft
    (kept <$> List.filter (fun e => negb (bool_decide (de_name e = name))) (sf_entries parsed)) fork_space.
End edits.

(** ** What is written *)

Lemma slice_between {A} (a b c : list A) off n : off = length a -> n = length b -> slice off n (a ++ b ++ c) = b.
Proof. intros -> ->. unfold slice. rewrite drop_app_length. apply take_app_length. Qed.

Lemma slice_head {A} (b c : list A) n : n = length b -> slice 0 n (b ++ c) = b.
Proof. intros ->. by apply (slice_between [] b c). Qed.

Section written.
Context (ft wide : bool).

Definition entry_bytes (e : SfEntry) : bytes :=
  to_be_bytes 1 (Z.of_nat (length (se_name e))) ++ to_be_bytes 2 (se_cookie e) ++ se_name e ++
  (if ft then to_be_bytes 1 (se_ftype e) else []) ++ put_ino wide (se_ino e).

Lemma length_put_ino ino : length (put_ino wide ino) = (if wide then 8 else 4)%nat.
Proof. unfold put_ino. destruct wide; apply length_to_be_bytes. Qed.

Lemma length_entry_bytes e : length (entry_bytes e) = (3 + length (se_name e) + flag_size ft + (if wide then 8 else 4))%nat.
Proof. unfold entry_bytes, flag_size. rewrite !length_app, length_put_ino, !length_to_be_bytes. destruct ft; cbn [length]; rewrite ?length_to_be_bytes; lia. Qed.

Definition sf_named (e : SfEntry) : Prop := (0 < length (se_name e) < 256)%nat /\ 0 <= se_cookie e.

Lemma encode_entries_spec entries : forall out, Forall sf_named entries ->
  encode_entries ft wide out entries = Ok (out ++ concat (entry_bytes <$> entries)) /\ Forall (fun e => se_cookie e <= 65535) entries \/
  (exists e, encode_entries ft wide out entries = Err e) /\ ~ Forall (fun e => se_cookie e <= 65535) entries.
Proof.
  induction entries as [|e entries IH]; intros out Hn; cbn [encode_entries].
  { left. cbn [fmap list_fmap concat]. rewrite app_nil_r. by split. }
  apply Forall_cons in Hn as [[Hl Hc] Hn]. destruct (Z.ltb_spec 65535 (se_cookie e)) as [Hb|Hb]; cbn [fail_if mbind res_bind].
  { right. split; [by eexists|]. intros H%Forall_cons. lia. }
  set (out' := _ ++ put_ino wide (se_ino e)).
  assert (Eo : out' = out ++ entry_bytes e).
  { subst out'. unfold entry_bytes. rewrite (wrap_small 8), (wrap_small 16) by (unfold in_u; lia). destruct ft; by rewrite <- ?app_assoc. }
  destruct (IH out' Hn) as [[-> Hle]|[He Hle]]; [left|right].
  - split; [|by constructor]. rewrite Eo, <- app_assoc. done.
  - split; [done|]. intros H%Forall_cons. tauto.
Qed.
End written.

(** An inode number the volume can have, and a type that can be read. *)
Record sf_good (sb : Superblock) (e : SfEntry) : Prop := {
  sg_name : (0 < length (se_name e) < 256)%nat;
  sg_cookie : 0 <= se_cookie e;
  sg_ino : ino_ok sb (se_ino e);
  sg_ftype : exists ft, ftype_from_raw (se_ftype e) = Ok ft;
}.
Lemma sf_good_named sb e : sf_good sb e -> sf_named e.
Proof. intros []. by split. Qed.

(** The entry a reader makes of what was written. *)
Definition read_back (sb : Superblock) (e : SfEntry) : DirEntry :=
  mkDirEntry (se_name e) (se_ino e)
    (if has_ftype sb then match ftype_from_raw (se_ftype e) with Ok ft => ft | _ => None end else None) (se_cookie e).

(** How many of the numbers the reader counts as wide. *)
Definition reader_wide (entries : list SfEntry) : nat := length (List.filter (fun e => MAX_SHORT_INUM <? se_ino e) entries).

Lemma ftype_raw_range raw ft : ftype_from_raw raw = Ok ft -> 0 <= raw < 256.
Proof.
  unfold ftype_from_raw. intros H.
  repeat match goal with H : (if ?a =? ?b then _ else _) = _ |- _ => destruct (Z.eqb_spec a b); [lia|] end. done.
Qed.

Lemma check_ino_Ok sb ino what : ino_ok sb ino -> check_entry_ino sb ino what = Ok tt.
Proof. intros H. apply check_entry_ino_spec; [|done]. destruct H as [[? _] _]. lia. Qed.

Lemma max_inum_small ino : ino <= MAX_INUMBER -> in_u 64 ino \/ ino < 0.
Proof. unfold MAX_INUMBER, in_u. lia. Qed.

Lemma read_put_ino wide sf pre ino post : sf = pre ++ put_ino wide ino ++ post -> 0 < ino <= MAX_INUMBER ->
  (wide = false -> ino < 2 ^ 32) -> read_sf_ino sf (length pre) wide = Ok ino.
Proof.
  intros E Hi Hw. assert (Hl : (length pre + (if wide then 8 else 4) <= length sf)%nat) by (rewrite E, !length_app, length_put_ino; lia).
  unfold read_sf_ino. unfold MAX_INUMBER in *. destruct wide; cbn [negb].
  - rewrite be64_Ok by lia. cbn [mbind res_bind]. unfold rd. rewrite E, slice_between by (done || (by rewrite length_put_ino)).
    unfold put_ino. rewrite from_to_be_bytes_small by lia. rewrite (proj2 (Z.ltb_ge _ _)) by lia. done.
  - rewrite be32_Ok by lia. unfold rd. rewrite E, slice_between by (done || (by rewrite length_put_ino)).
    unfold put_ino. rewrite wrap_small by (unfold in_u; specialize (Hw eq_refl); lia). rewrite from_to_be_bytes_small by (specialize (Hw eq_refl); lia). done.
Qed.

Section read_written.
Context (inode : Inode) (sb : Superblock) (wide : bool).
Let ft := has_ftype sb.

Lemma sf_loop_written entries : forall pre sf i w,
  sf = pre ++ concat (entry_bytes ft wide <$> entries) ->
  Forall (sf_good sb) entries -> Forall (fun e => se_cookie e <= 65535) entries ->
  (wide = false -> Forall (fun e => se_ino e < 2 ^ 32) entries) ->
  sf_loop inode sf sb wide i (length entries) (length pre) w None =
    Ok (read_back sb <$> entries, w + Z.of_nat (reader_wide entries), length sf, None).
Proof.
  induction entries as [|e entries IH]; intros pre sf i w E Hg Hc Hw; cbn [length sf_loop].
  { cbn [fmap list_fmap concat] in E. rewrite app_nil_r in E. subst sf. unfold reader_wide. cbn. by rewrite Z.add_0_r. }
  apply Forall_cons in Hg as [[Hname Hck Hino [fty Hfty]] Hg]. apply Forall_cons in Hc as [Hc1 Hc].
  cbn [fmap list_fmap concat] in E. set (post := concat (entry_bytes ft wide <$> entries)) in *.
  pose proof (length_entry_bytes ft wide e) as Hle. set (nl := length (se_name e)) in *.
  assert (Hlen : (length pre + (3 + nl + flag_size ft + (if wide then 8 else 4)) <= length sf)%nat) by (rewrite E, !length_app, Hle; lia).
  unfold sf_entry.NAME, sf_entry.NAMELEN, sf_entry.OFFSET. rewrite (proj2 (Nat.ltb_ge _ _)) by lia. cbn [fail_if mbind res_bind].
  unfold entry_bytes in E. rewrite Nat.add_0_r. rewrite byte_at_Ok by lia. cbn [fmap res_fmap mbind res_bind].
  assert (E1 : rd 1 (length pre) sf = Z.of_nat nl).
  { unfold rd. rewrite E, <- app_assoc, slice_between by (done || (by rewrite length_to_be_bytes)). apply from_to_be_bytes_small. cbn. lia. }
  rewrite E1, Nat2Z.id. rewrite (proj2 (Nat.eqb_neq _ _)) by lia. cbn [fail_if mbind res_bind]. rewrite be16_Ok by lia. cbn [mbind res_bind].
  assert (E2 : rd 2 (length pre + 1) sf = se_cookie e).
  { unfold rd. rewrite E, <- !app_assoc, (app_assoc pre), slice_between by (rewrite ?length_app, !length_to_be_bytes; lia).
    apply from_to_be_bytes_small. cbn. lia. }
  rewrite E2. fold ft. rewrite (proj2 (Nat.ltb_ge _ _)) by lia. cbn [fail_if mbind res_bind]. rewrite get_slice_Ok by lia. cbn [mbind res_bind].
  assert (E3 : slice (length pre + 3) nl sf = se_name e).
  { rewrite E, <- !app_assoc, (app_assoc pre), (app_assoc (pre ++ _)). apply slice_between; [rewrite !length_app, !length_to_be_bytes; lia|done]. }
  rewrite E3.
  set (head := pre ++ to_be_bytes 1 (Z.of_nat nl) ++ to_be_bytes 2 (se_cookie e) ++ se_name e).
  assert (Eh : sf = head ++ (if ft then to_be_bytes 1 (se_ftype e) else []) ++ put_ino wide (se_ino e) ++ post) by (rewrite E; unfold head; by rewrite <- !app_assoc).
  assert (Hh : length head = (length pre + 3 + nl)%nat) by (unfold head; rewrite !length_app, !length_to_be_bytes; fold nl; lia).
  assert (E4 : (if ft then raw ← byte_at sf (length pre + 3 + nl); sf_ftype (se_name e) raw None else Ok (None, None)) =
    Ok (de_ftype (read_back sb e), None)).
  { unfold read_back. fold ft. cbn [de_ftype]. rewrite Hfty. clearbody ft. destruct ft; [|done]. unfold flag_size in Hlen. rewrite byte_at_Ok by lia. cbn [mbind res_bind].
    assert (rd 1 (length pre + 3 + nl) sf = se_ftype e) as ->.
    { unfold rd. rewrite Eh, slice_between by (by rewrite ?length_to_be_bytes). apply from_to_be_bytes_small. pose proof (ftype_raw_range _ _ Hfty). cbn. lia. }
    unfold sf_ftype. by rewrite Hfty. }
  rewrite E4. cbn [mbind res_bind].
  assert (E5 : read_sf_ino sf (length pre + 3 + nl + flag_size ft) wide = Ok (se_ino e)).
  { replace (length pre + 3 + nl + flag_size ft)%nat with (length (head ++ (if ft then to_be_bytes 1 (se_ftype e) else []))).
    - eapply read_put_ino; [by rewrite Eh, <- app_assoc|by destruct Hino|]. intros ->. specialize (Hw eq_refl). by apply Forall_cons in Hw as [? _].
    - rewrite length_app, Hh. unfold flag_size. clearbody ft. destruct ft; rewrite ?length_to_be_bytes; cbn; lia. }
  rewrite E5. cbn [mbind res_bind]. rewrite check_ino_Ok by done. cbn [mbind res_bind].
  replace (length pre + (3 + nl + flag_size ft + (if wide then 8 else 4)))%nat with (length (pre ++ entry_bytes ft wide e)) by (rewrite length_app, Hle; done).
  rewrite (IH (pre ++ entry_bytes ft wide e) sf (i + 1)%nat _); [|by rewrite <- app_assoc|done|done|intros Hf; specialize (Hw Hf); by apply Forall_cons in Hw as [_ ?]].
  cbn [mbind res_bind]. 
  match goal with |- Ok (_, ?b, _, _) = Ok (_, ?b', _, _) => replace b with b'; [done|] end.
  unfold reader_wide. cbn [List.filter]. destruct (MAX_SHORT_INUM <? se_ino e); cbn [length]; lia.
Qed.
End read_written.

(** ** The fork *)

(** The fork of a directory with these entries. *)
Definition fork_of (ft : bool) (parent : Z) (wide_count : nat) (entries : list SfEntry) : bytes :=
  let wide := negb (Z.of_nat wide_count =? 0) in
  to_be_bytes 1 (Z.of_nat (length entries)) ++ to_be_bytes 1 (Z.of_nat wide_count) ++ put_ino wide parent ++
  concat (entry_bytes ft wide <$> entries).

(** What the format has room for. *)
Record encodable (ft : bool) (parent : Z) (entries : list SfEntry) (fork_space : Z) : Prop := {
  ec_wide : (wide_numbers parent entries <= 255)%nat;
  ec_count : (length entries <= 255)%nat;
  ec_cookies : Forall (fun e => se_cookie e <= 65535) entries;
  ec_fits : Z.of_nat (length (fork_of ft parent (wide_numbers parent entries) entries)) <= fork_space;
}.

Lemma try_u8_spec n e : try_u8 n e = Ok (Z.of_nat n) /\ (n <= 255)%nat \/ try_u8 n e = Err e /\ ~ (n <= 255)%nat.
Proof. unfold try_u8. destruct (Z.ltb_spec 255 (Z.of_nat n)); [right|left]; (split; [done|lia]). Qed.

Lemma encode_short_form_spec parsed ft entries fork_space : Forall sf_named entries ->
  let parent := parent_ino parsed in
  encode_short_form parsed ft entries fork_space = Ok (fork_of ft parent (wide_numbers parent entries) entries) /\
    encodable ft parent entries fork_space \/
  (exists e, encode_short_form parsed ft entries fork_space = Err e) /\ ~ encodable ft parent entries fork_space.
Proof.
  intros Hn parent. unfold encode_short_form. fold parent. set (wn := wide_numbers parent entries).
  match goal with |- context [try_u8 wn ?e] => destruct (try_u8_spec wn e) as [[-> Hwn]|[-> Hwn]] end;
    cbn [mbind res_bind]; [|right; split; [by eexists|by intros []]].
  match goal with |- context [try_u8 (length entries) ?e] => destruct (try_u8_spec (length entries) e) as [[-> Hc]|[-> Hc]] end;
    cbn [mbind res_bind]; [|right; split; [by eexists|by intros []]].
  set (wide := negb _). rewrite (proj2 (Nat.eqb_eq _ _)).
  2:{ rewrite !length_app, length_put_ino, !length_to_be_bytes. by destruct wide. }
  cbn [negb fail_if mbind res_bind].
  destruct (encode_entries_spec ft wide entries
    (to_be_bytes 1 (Z.of_nat (length entries)) ++ to_be_bytes 1 (Z.of_nat wn) ++ put_ino wide parent) Hn) as [[-> Hck]|[[e ->] Hck]];
    cbn [mbind res_bind]; [|right; split; [by eexists|by intros []]].
  match goal with |- context [fork_space <? Z.of_nat (length ?o)] => replace o with (fork_of ft parent wn entries) end.
  2:{ unfold fork_of. fold wide. by rewrite <- !app_assoc. }
  set (out := fork_of _ _ _ _). destruct (Z.ltb_spec fork_space (Z.of_nat (length out))) as [Hf|Hf]; cbn [fail_if mbind res_bind].
  - right. split; [by eexists|]. intros [_ _ _ H]. fold wn out in H. lia.
  - left. by split.
Qed.

Lemma forall_filter_nil {A} (f : A -> bool) l : length (List.filter f l) = 0%nat <-> Forall (fun x => f x = false) l.
Proof.
  induction l as [|x l IH]; cbn [List.filter]; [done|]. rewrite Forall_cons, <- IH. destruct (f x); cbn [length]; naive_solver.
Qed.

Lemma filter_counts_agree {A} (f g : A -> bool) l : (forall x, f x = true -> g x = true) ->
  (length (List.filter f l) <= length (List.filter g l))%nat /\
  (length (List.filter f l) = length (List.filter g l) <-> Forall (fun x => f x = g x) l).
Proof.
  intros Hfg. induction l as [|x l [IHl IHe]]; cbn [List.filter]; [done|]. rewrite Forall_cons, <- IHe.
  specialize (Hfg x). destruct (f x), (g x); cbn [length]; try (specialize (Hfg eq_refl); done).
  - split; [lia|]. split; [intros H; split; [done|lia]|intros [_ H]; lia].
  - split; [lia|]. split; [intros H; lia|by intros [? ?]].
  - split; [lia|]. split; [by intros H|by intros [_ H]].
Qed.

(** Numbers the writer counts as wide and the reader does not. *)
Definition between_widths (ino : Z) : Prop := WRITER_MAX_SHORT_INUM < ino <= MAX_SHORT_INUM.

Lemma between_widths_ltb ino : (MAX_SHORT_INUM <? ino) = (WRITER_MAX_SHORT_INUM <? ino) <-> ~ between_widths ino.
Proof.
  unfold between_widths. destruct (Z.ltb_spec MAX_SHORT_INUM ino), (Z.ltb_spec WRITER_MAX_SHORT_INUM ino); unfold MAX_SHORT_INUM, WRITER_MAX_SHORT_INUM in *; split; intros; lia || done || idtac.
Qed.

(** How many wide numbers the reader finds. *)
Definition found_wide_of (parent : Z) (entries : list SfEntry) : Z :=
  (if MAX_SHORT_INUM <? parent then 1 else 0) + Z.of_nat (reader_wide entries).

Lemma widths_agree parent entries :
  found_wide_of parent entries = Z.of_nat (wide_numbers parent entries) <->
  ~ between_widths parent /\ Forall (fun e => ~ between_widths (se_ino e)) entries.
Proof.
  unfold found_wide_of, wide_numbers, reader_wide.
  destruct (filter_counts_agree (fun e => MAX_SHORT_INUM <? se_ino e) (fun e => WRITER_MAX_SHORT_INUM <? se_ino e) entries) as [Hle Heq].
  { intros e. unfold MAX_SHORT_INUM, WRITER_MAX_SHORT_INUM. lia. }
  assert (Hf : Forall (fun e => (MAX_SHORT_INUM <? se_ino e) = (WRITER_MAX_SHORT_INUM <? se_ino e)) entries <->
               Forall (fun e => ~ between_widths (se_ino e)) entries) by (apply Forall_iff; intros; apply between_widths_ltb).
  rewrite <- Hf, <- Heq, <- between_widths_ltb.
  assert (Hp : (MAX_SHORT_INUM <? parent) = true -> (WRITER_MAX_SHORT_INUM <? parent) = true) by (unfold MAX_SHORT_INUM, WRITER_MAX_SHORT_INUM; lia).
  destruct (MAX_SHORT_INUM <? parent), (WRITER_MAX_SHORT_INUM <? parent); try specialize (Hp eq_refl); try done; lia.
Qed.

(** The inode of a directory whose fork is [fork_of]. *)
Record holds_fork (inode : Inode) (fork : bytes) : Prop := {
  hf_dir : is_dir inode = true;
  hf_local : i_format inode = Format.Local;
  hf_size : i_size inode = Z.of_nat (length fork);
}.

Lemma narrow_numbers parent entries : (0 <= wide_numbers parent entries)%nat -> negb (Z.of_nat (wide_numbers parent entries) =? 0) = false ->
  parent < 2 ^ 32 /\ Forall (fun e => se_ino e < 2 ^ 32) entries.
Proof.
  intros _ H%negb_false_iff%Z.eqb_eq. unfold wide_numbers in H.
  assert (length (List.filter (fun e => WRITER_MAX_SHORT_INUM <? se_ino e) entries) = 0%nat) as Hf%forall_filter_nil by (destruct (_ <? _) in H; lia).
  split.
  - destruct (Z.ltb_spec WRITER_MAX_SHORT_INUM parent); [lia|]. unfold WRITER_MAX_SHORT_INUM in *. lia.
  - eapply Forall_impl; [exact Hf|]. cbn. intros e He%Z.ltb_ge. unfold WRITER_MAX_SHORT_INUM in He. lia.
Qed.

Lemma read_fork_of inode sb parent entries fork_space junk :
  let wn := wide_numbers parent entries in
  let fork := fork_of (has_ftype sb) parent wn entries in
  holds_fork inode fork -> Forall (sf_good sb) entries -> ino_ok sb parent -> encodable (has_ftype sb) parent entries fork_space ->
  (read_short_form inode (fork ++ junk) sb = Ok (mkShortForm parent (Z.of_nat wn) (read_back sb <$> entries)) /\
     found_wide_of parent entries = Z.of_nat wn) \/
  ((exists e, read_short_form inode (fork ++ junk) sb = Err e) /\ found_wide_of parent entries <> Z.of_nat wn).
Proof.
  intros wn fork [Hdir Hloc Hsize] Hg Hp [Hwn Hcount Hck _]. unfold read_short_form, short_form.
  rewrite Hdir. cbn [negb fail_if mbind res_bind]. rewrite bool_decide_eq_true_2 by done. cbn [negb fail_if mbind res_bind].
  rewrite Hsize, (proj2 (Z.ltb_ge _ _)) by (rewrite length_app; lia). cbn [fail_if mbind res_bind]. rewrite Nat2Z.id.
  rewrite get_slice_Ok by (rewrite length_app; lia). cbn [mbind res_bind].
  replace (slice 0 (length fork) (fork ++ junk)) with fork by (symmetry; by apply slice_head).
  fold wn in Hwn. set (wide := negb (Z.of_nat wn =? 0)). pose proof (narrow_numbers parent entries) as Hnar. fold wn wide in Hnar.
  set (body := concat (entry_bytes (has_ftype sb) wide <$> entries)).
  assert (Ef : fork = (to_be_bytes 1 (Z.of_nat (length entries)) ++ to_be_bytes 1 (Z.of_nat wn)) ++ put_ino wide parent ++ body)
    by (unfold fork, fork_of; fold wide body; by rewrite <- app_assoc).
  assert (Hl2 : length (to_be_bytes 1 (Z.of_nat (length entries)) ++ to_be_bytes 1 (Z.of_nat wn)) = 2%nat) by (by rewrite length_app, !length_to_be_bytes).
  assert (Hlen : length fork = (2 + (if wide then 8 else 4) + length body)%nat) by (rewrite Ef, !length_app, length_put_ino, !length_to_be_bytes; lia).
  rewrite (proj2 (Nat.ltb_ge _ _)) by lia. cbn [fail_if mbind res_bind]. unfold sf_hdr.COUNT, sf_hdr.I8COUNT, sf_hdr.PARENT.
  rewrite !byte_at_Ok by (destruct wide; lia). cbn [mbind res_bind].
  assert (rd 1 0 fork = Z.of_nat (length entries)) as ->.
  { unfold rd. rewrite Ef, <- app_assoc, slice_head by (by rewrite length_to_be_bytes). apply from_to_be_bytes_small. cbn. lia. }
  assert (rd 1 1 fork = Z.of_nat wn) as ->.
  { unfold rd. rewrite Ef, <- app_assoc, slice_between by (by rewrite length_to_be_bytes). apply from_to_be_bytes_small. cbn. lia. }
  fold wide. rewrite (proj2 (Nat.ltb_ge _ _)) by (destruct wide; lia). cbn [fail_if mbind res_bind].
  assert (read_sf_ino fork 2 wide = Ok parent) as ->.
  { rewrite <- Hl2. eapply read_put_ino; [exact Ef|by destruct Hp|]. intros Hw. apply Hnar; [lia|done]. }
  cbn [mbind res_bind]. rewrite check_ino_Ok by done. cbn [mbind res_bind].
  rewrite Nat2Z.id. replace (2 + (if wide then 8 else 4))%nat with (length ((to_be_bytes 1 (Z.of_nat (length entries)) ++ to_be_bytes 1 (Z.of_nat wn)) ++ put_ino wide parent))
    by (rewrite length_app, Hl2, length_put_ino; done).
  rewrite sf_loop_written; [|by rewrite Ef, <- !app_assoc|done|done|intros Hw; apply Hnar; [lia|done]].
  cbn [mbind res_bind]. rewrite Nat.eqb_refl. cbn [negb fail_if mbind res_bind]. fold (found_wide_of parent entries).
  destruct (Z.eqb_spec (found_wide_of parent entries) (Z.of_nat wn)) as [He|He]; cbn [negb fail_if mbind res_bind fmap res_fmap fst]; [left|right]; (split; [|done]); [done|by eexists].
Qed.

(** A short-form directory encodes to a fork of the size its inode then
    claims, exactly when its entries, its wide inode numbers, its cookies and
    its bytes fit.  Reading that fork gives back the parent and the entries,
    exactly when no inode number lies past the width the writer widens at and
    within the one the reader counts from: otherwise the driver refuses the
    directory it wrote. *)
Theorem short_form_written_read inode sb parsed entries fork_space fork junk :
  Forall (sf_good sb) entries -> ino_ok sb (parent_ino parsed) -> holds_fork inode fork ->
  encode_short_form parsed (has_ftype sb) entries fork_space = Ok fork ->
  let parent := parent_ino parsed in
  encodable (has_ftype sb) parent entries fork_space /\
  (read_short_form inode (fork ++ junk) sb = Ok (mkShortForm parent (Z.of_nat (wide_numbers parent entries)) (read_back sb <$> entries)) <->
   ~ between_widths parent /\ Forall (fun e => ~ between_widths (se_ino e)) entries) /\
  ((exists e, read_short_form inode (fork ++ junk) sb = Err e) <->
   between_widths parent \/ Exists (fun e => between_widths (se_ino e)) entries).
Proof.
  intros Hg Hp Hh He parent. assert (Hn : Forall sf_named entries) by (eapply Forall_impl; [exact Hg|]; apply sf_good_named).
  destruct (encode_short_form_spec parsed (has_ftype sb) entries fork_space Hn) as [[He' Hec]|[[e He'] _]]; rewrite He' in He; [|done].
  injection He as <-. split; [done|]. fold parent in Hh |- *.
  assert (Hex : between_widths parent \/ Exists (fun e => between_widths (se_ino e)) entries <->
    ~ (~ between_widths parent /\ Forall (fun e => ~ between_widths (se_ino e)) entries)).
  { assert (Hd : forall z, Decision (between_widths z)) by (intros z; unfold between_widths; apply _).
    rewrite Forall_Exists_neg. destruct (Hd parent); [tauto|]. destruct (Exists_dec (fun e => between_widths (se_ino e)) entries); tauto. }
  rewrite Hex, <- widths_agree.
  destruct (read_fork_of inode sb parent entries fork_space junk Hh Hg Hp Hec) as [[-> Hw]|[[e ->] Hw]].
  - split; [by split|]. split; [by intros [e ?]|by intros ?].
  - split; [by split|]. split; [done|by eexists].
Qed.

(** ** What is read *)

(** An entry as a reader returns it. *)
Record sf_read (sb : Superblock) (e : DirEntry) : Prop := {
  sr_name : (0 < length (de_name e) < 256)%nat;
  sr_offset : 0 <= de_offset e <= 65535;
  sr_ino : ino_ok sb (de_ino e);
  sr_ftype : has_ftype sb = false -> de_ftype e = None;
}.

Section sound.
Context (inode : Inode) (sb : Superblock).

Lemma sf_loop_sound sf wide n : forall i cur w es w' cur' t,
  sf_loop inode sf sb wide i n cur w None = Ok (es, w', cur', t) -> Forall (sf_read sb) es /\ length es = n.
Proof.
  induction n as [|n IH]; intros i cur w es w' cur' t H; cbn [sf_loop] in H; [injection H as <- _ _ _; by split|].
  apply guard_Ok in H as [H3%Nat.ltb_ge H]. unfold sf_entry.NAME in H3.
  rewrite byte_at_Ok in H by dir_lia. cbn [fmap res_fmap mbind res_bind] in H.
  pose proof (rd_range_any 1 (cur + sf_entry.NAMELEN) sf) as Hr. set (nl := Z.to_nat _) in H.
  apply guard_Ok in H as [Hn0%Nat.eqb_neq H]. rewrite be16_Ok in H by dir_lia. cbn [mbind res_bind] in H.
  apply guard_Ok in H as [Hfit%Nat.ltb_ge H]. apply bind_Ok in H as (name & Hname & H).
  apply bind_Ok in H as ([ft t2] & Hft & H). apply bind_Ok in H as (ino & Hino & H). apply bind_Ok in H as ([] & Hck & H).
  apply bind_Ok in H as ([[[rest w2] c2] t3] & Hrest & [= <- <- <- <-]).
  assert (t2 = None) as ->.
  { destruct (has_ftype sb); [|by injection Hft]. apply bind_Ok in Hft as (raw & _ & Hft). unfold sf_ftype in Hft.
    destruct (ftype_from_raw raw); [by injection Hft|done|done]. }
  apply IH in Hrest as [Hes Hl]. split; [|cbn [length]; by rewrite Hl]. constructor; [|done].
  assert (0 <= ino) as Hi0 by (eapply (read_sf_ino_spec sf wide); [|exact Hino]; lia).
  rewrite get_slice_Ok in Hname by lia. injection Hname as <-.
  split; cbn [de_name de_offset de_ino de_ftype].
  - rewrite length_slice by lia. change (256 ^ Z.of_nat 1) with 256 in Hr. lia.
  - pose proof (rd_range_any 2 (cur + sf_entry.OFFSET) sf) as Hr2. change (256 ^ Z.of_nat 2) with 65536 in Hr2. lia.
  - by eapply check_entry_ino_spec.
  - intros Ef. rewrite Ef in Hft. by injection Hft as <-.
Qed.

(** What a directory read is made of. *)
Record sf_dir_read (dir : ShortFormDir) : Prop := {
  sd_parent : ino_ok sb (parent_ino dir);
  sd_entries : Forall (sf_read sb) (sf_entries dir);
  sd_count : (length (sf_entries dir) <= 255)%nat;
}.

Lemma read_short_form_sound fork dir : 0 <= i_size inode -> read_short_form inode fork sb = Ok dir -> sf_dir_read dir.
Proof.
  intros Hs H. unfold read_short_form in H. apply fmap_Ok in H as ([d t] & H & ->). cbn [fst]. unfold short_form in H.
  apply guard_Ok in H as [_ H]. apply guard_Ok in H as [_ H]. apply guard_Ok in H as [_ H].
  apply bind_Ok in H as (sf & Hsf & H). apply guard_Ok in H as [H2%Nat.ltb_ge H].
  rewrite !byte_at_Ok in H by dir_lia. cbn [mbind res_bind] in H. pose proof (rd_range_any 1 sf_hdr.COUNT sf) as Hc. change (256 ^ Z.of_nat 1) with 256 in Hc.
  apply guard_Ok in H as [Hh%Nat.ltb_ge H]. apply bind_Ok in H as (p & Hpar & H).
  apply bind_Ok in H as (t0 & Hck & H). apply bind_Ok in H as ([[[es w] cur] t1] & Hloop & H).
  apply guard_Ok in H as [_ H]. apply guard_Ok in H as [_ [= <- _]].
  assert (0 <= p) as Hp0 by (eapply read_sf_ino_spec; [|exact Hpar]; lia).
  destruct (check_entry_ino sb p _) as [[]|e|] eqn:Ec; [|done|done]. injection Hck as <-.
  apply sf_loop_sound in Hloop as [Hes Hl]. split; cbn [parent_ino sf_entries]; [by eapply check_entry_ino_spec|done|lia].
Qed.
End sound.

(** ** Edits *)

Lemma cookie_span_range n ft : (n < 256)%nat -> 8 < cookie_span n ft < 512.
Proof.
  intros Hn. unfold cookie_span, XFS_DIR2_DATA_ALIGN. set (raw := (8 + 1 + n + flag_size ft + 2)%nat).
  assert (11 <= raw < 268)%nat by (unfold raw, flag_size; destruct ft; lia).
  pose proof (Nat.div_mod (raw + 8 - 1) 8 ltac:(lia)). pose proof (Nat.mod_upper_bound (raw + 8 - 1) 8 ltac:(lia)).
  rewrite wrap_small by (unfold in_u; lia). lia.
Qed.

Lemma foldl_max l : forall x, (x <= foldl Z.max x l) /\ Forall (fun y => y <= foldl Z.max x l) l /\ In (foldl Z.max x l) (x :: l).
Proof.
  induction l as [|y l IH]; intros x; cbn [foldl]; [split; [done|split; [done|by left]]|].
  destruct (IH (Z.max x y)) as (H1 & H2 & H3). split; [lia|]. split; [constructor; [lia|done]|].
  destruct H3 as [H3|H3]; [|by right; right]. destruct (Z.max_spec x y) as [[_ E]|[_ E]]; rewrite E in *; [by right; left|by left].
Qed.

Section edited.
Context (sb : Superblock).
Let ft := has_ftype sb.

Lemma next_cookie_spec parsed : Forall (sf_read sb) (sf_entries parsed) ->
  Forall (fun e => de_offset e + cookie_span (length (de_name e)) ft <= next_cookie parsed ft) (sf_entries parsed) /\
  0 <= next_cookie parsed ft < 2 ^ 17.
Proof.
  intros Hr. unfold next_cookie. set (f := fun e => wadd 32 (de_offset e) (cookie_span (length (de_name e)) ft)).
  assert (Hf : Forall (fun e => f e = de_offset e + cookie_span (length (de_name e)) ft /\ 0 <= f e < 2 ^ 17) (sf_entries parsed)).
  { eapply Forall_impl; [exact Hr|]. intros e [Hn Ho _ _]. pose proof (cookie_span_range (length (de_name e)) ft ltac:(lia)).
    unfold f. rewrite wadd_small by lia. split; [done|lia]. }
  clearbody f. destruct (sf_entries parsed) as [|e es]; [by split; [|destruct ft; vm_compute]|].
  rewrite fmap_cons. cbn [max_of from_option]. unfold id. destruct (foldl_max (f <$> es) (f e)) as (H1 & H2' & H3).
  assert (H2 : Forall (fun y => f y <= foldl Z.max (f e) (f <$> es)) es) by (by apply (Forall_fmap f (fun y => y <= foldl Z.max (f e) (f <$> es)) es)).
  apply Forall_cons in Hf as [[He1 He2] Hf]. split.
  - constructor; [lia|]. eapply Forall_impl; [exact (proj2 (Forall_and _ _) (conj H2 Hf))|]. intros y [Hy [<- _]]. exact Hy.
  - destruct H3 as [<-|H3]; [done|]. apply list_elem_of_In, list_elem_of_fmap in H3 as (y & -> & Hy). exact (proj2 (proj1 (Forall_forall _ _) Hf y Hy)).
Qed.

Lemma kept_good e : sf_read sb e -> sf_good sb (kept e) /\ read_back sb (kept e) = e /\ se_ino (kept e) = de_ino e.
Proof.
  intros [Hn Ho Hi Hf]. unfold kept. split; [|split; [|done]].
  - split; cbn [se_name se_cookie se_ino se_ftype]; [done|lia|done|]. eexists. apply ftype_raw_roundtrip.
  - unfold read_back. cbn [se_name se_cookie se_ino se_ftype]. rewrite ftype_raw_roundtrip. destruct e as [n i f o]. cbn in *.
    destruct (has_ftype sb); [done|]. by rewrite Hf.
Qed.

Lemma kept_all l : Forall (sf_read sb) l ->
  Forall (sf_good sb) (kept <$> l) /\ read_back sb <$> (kept <$> l) = l /\ Forall (fun e => se_cookie e <= 65535) (kept <$> l).
Proof.
  intros Hl. induction Hl as [|e l He Hl (IH1 & IH2 & IH3)]; [by split|]. destruct (kept_good e He) as (H1 & H2 & _).
  rewrite !fmap_cons, H2, IH2. split; [by constructor|]. split; [done|]. constructor; [apply He|done].
Qed.

(** The directory with other entries. *)
Definition with_entries (parent : Z) (es : list DirEntry) : ShortFormDir :=
  mkShortForm parent (Z.of_nat (length (List.filter (fun n => WRITER_MAX_SHORT_INUM <? n) (parent :: (de_ino <$> es))))) es.

Definition no_between (parent : Z) (es : list DirEntry) : Prop :=
  ~ between_widths parent /\ Forall (fun e => ~ between_widths (de_ino e)) es.

(** However the inode's fork goes on, it reads as this directory. *)
Definition reads_as (fork : bytes) (dir : ShortFormDir) : Prop :=
  forall inode junk, holds_fork inode fork -> read_short_form inode (fork ++ junk) sb = Ok dir.

Lemma encoded_reads parsed entries fork_space fork :
  ino_ok sb (parent_ino parsed) -> Forall (sf_good sb) entries -> no_between (parent_ino parsed) (read_back sb <$> entries) ->
  encode_short_form parsed ft entries fork_space = Ok fork ->
  reads_as fork (with_entries (parent_ino parsed) (read_back sb <$> entries)).
Proof.
  intros Hp Hg [Hb Hbs] He inode junk Hh. assert (Hn : Forall sf_named entries) by (eapply Forall_impl; [exact Hg|]; apply sf_good_named).
  destruct (encode_short_form_spec parsed ft entries fork_space Hn) as [[He' Hec]|[[e He'] _]]; rewrite He' in He; [|done]. injection He as <-.
  destruct (read_fork_of inode sb (parent_ino parsed) entries fork_space junk Hh Hg Hp Hec) as [[Hr _]|[_ Hw]].
  - etrans; [exact Hr|]. unfold with_entries. do 3 f_equal. unfold wide_numbers. cbn [List.filter].
    assert (length (List.filter (fun n => WRITER_MAX_SHORT_INUM <? n) (de_ino <$> (read_back sb <$> entries))) =
            length (List.filter (fun e => WRITER_MAX_SHORT_INUM <? se_ino e) entries)) as Hl.
    { clear. induction entries as [|e es IH]; [done|]. rewrite !fmap_cons. cbn [List.filter read_back de_ino]. destruct (_ <? _); cbn [length]; by rewrite IH. }
    rewrite <- Hl. by destruct (_ <? parent_ino parsed).
  - destruct Hw. apply widths_agree. split; [done|]. exact (proj1 (Forall_fmap (read_back sb) (fun e => ~ between_widths (de_ino e)) entries) Hbs).
Qed.
End edited.

Section edits_exact.
Context (sb : Superblock) (parsed : ShortFormDir) (Hsd : sf_dir_read sb parsed).
Let ft := has_ftype sb.
Let parent := parent_ino parsed.
Let next := next_cookie parsed ft.

Lemma appended_reads l name ino raw fty fork_space fork :
  Forall (sf_read sb) l -> (0 < length name < 256)%nat -> ino_ok sb ino -> ftype_from_raw raw = Ok fty ->
  no_between parent l -> ~ between_widths ino ->
  encode_short_form parsed ft ((kept <$> l) ++ [mkSfEntry name ino raw next]) fork_space = Ok fork ->
  reads_as sb fork (with_entries parent (l ++ [mkDirEntry name ino (if ft then fty else None) next])).
Proof.
  intros Hl Hn Hi Hraw [Hb Hbs] Hbi He. destruct (kept_all sb l Hl) as (Hg & Hk & _). destruct (next_cookie_spec sb parsed (sd_entries _ _ Hsd)) as [_ Hnx].
  set (e := mkSfEntry name ino raw next) in *. assert (Eb : read_back sb e = mkDirEntry name ino (if ft then fty else None) next).
  { unfold read_back, e. cbn [se_name se_ino se_ftype se_cookie]. fold ft. by rewrite Hraw. }
  assert (E : read_back sb <$> ((kept <$> l) ++ [e]) = l ++ [mkDirEntry name ino (if ft then fty else None) next]) by (by rewrite fmap_app, Hk, <- Eb).
  rewrite <- E. apply (encoded_reads sb parsed _ fork_space); [apply Hsd| |split; [done|]|done].
  - apply Forall_app. split; [done|]. constructor; [|done]. split; unfold e; cbn [se_name se_cookie se_ino se_ftype]; [done|exact (proj1 Hnx)|done|by exists fty].
  - rewrite E. apply Forall_app. split; [done|]. by constructor.
Qed.

Lemma kept_reads l fork_space fork : Forall (sf_read sb) l -> no_between parent l ->
  encode_short_form parsed ft (kept <$> l) fork_space = Ok fork -> reads_as sb fork (with_entries parent l).
Proof.
  intros Hl Hb He. destruct (kept_all sb l Hl) as (Hg & Hk & _). rewrite <- Hk. apply (encoded_reads sb parsed _ fork_space); [apply Hsd|done|by rewrite Hk|done].
Qed.

(** The entries under other names. *)
Definition others (name : bytes) : list DirEntry := List.filter (fun e => negb (bool_decide (de_name e = name))) (sf_entries parsed).

Lemma others_subset P name : Forall P (sf_entries parsed) -> Forall P (others name).
Proof. rewrite !Forall_forall. intros H e [He _]%list_elem_of_In%filter_In. apply H. by apply list_elem_of_In. Qed.
End edits_exact.

Lemma find_named (l : list DirEntry) name :
  match find (fun e => bool_decide (de_name e = name)) l with
  | Some e => e ∈ l /\ de_name e = name
  | None => name ∉ de_name <$> l
  end.
Proof.
  induction l as [|e l IH]; cbn [find]; [rewrite fmap_nil; apply not_elem_of_nil|]. destruct (bool_decide_reflect (de_name e = name)); [split; [by left|done]|].
  destruct (find _ l); [destruct IH; split; [by right|done]|]. rewrite fmap_cons, not_elem_of_cons. by split.
Qed.

Lemma existsb_named (l : list DirEntry) name : existsb (fun e => bool_decide (de_name e = name)) l = true <-> name ∈ de_name <$> l.
Proof.
  rewrite existsb_exists, list_elem_of_fmap. setoid_rewrite bool_decide_eq_true. setoid_rewrite <- list_elem_of_In. naive_solver.
Qed.

Section each_edit.
Context (sb : Superblock) (parsed : ShortFormDir) (Hsd : sf_dir_read sb parsed).
Context (Hnb : no_between (parent_ino parsed) (sf_entries parsed)).
Let next := next_cookie parsed (has_ftype sb).

Lemma others_good name : Forall (sf_read sb) (others parsed name) /\ no_between (parent_ino parsed) (others parsed name).
Proof. split; [apply others_subset, Hsd|]. destruct Hnb. split; [done|]. by apply others_subset. Qed.

Lemma appended_named name raw ino l : (0 < length name < 256)%nat -> Forall (sf_read sb) l ->
  Forall sf_named ((kept <$> l) ++ [mkSfEntry name ino raw next]).
Proof.
  intros Hn Hl. destruct (next_cookie_spec sb parsed (sd_entries _ _ Hsd)) as [_ Hnx]. apply Forall_app. split.
  - destruct (kept_all sb l Hl) as (Hg & _). eapply Forall_impl; [exact Hg|]. apply sf_good_named.
  - constructor; [|done]. split; [done|exact (proj1 Hnx)].
Qed.

Lemma with_entry_spec name ino raw fty fork_space r :
  (0 < length name < 256)%nat -> ino_ok sb ino -> ~ between_widths ino -> ftype_from_raw raw = Ok fty ->
  short_form_with_entry sb parsed name ino raw fork_space = Ok r ->
  match r with
  | Some fork => Z.of_nat (length fork) <= fork_space /\
      reads_as sb fork (with_entries (parent_ino parsed)
        (sf_entries parsed ++ [mkDirEntry name ino (if has_ftype sb then fty else None) next]))
  | None => ~ encodable (has_ftype sb) (parent_ino parsed) ((kept <$> sf_entries parsed) ++ [mkSfEntry name ino raw next]) fork_space
  end.
Proof.
  intros Hn Hi Hbi Hraw H. pose proof (sd_entries _ _ Hsd) as Hes. unfold short_form_with_entry in H. fold next in H.
  apply bind_Ok in H as (fork & He & [= <-]).
  destruct (encode_short_form_spec parsed (has_ftype sb) _ (umax 64) (appended_named name raw ino _ Hn Hes)) as [[E _]|[[e E] _]]; rewrite E in He; [|done].
  injection He as Hf. destruct (Z.leb_spec (Z.of_nat (length fork)) fork_space) as [Hle|Hgt].
  - split; [done|]. subst fork. by eapply appended_reads.
  - intros [_ _ _ Hfit]. rewrite Hf in Hfit. lia.
Qed.

Lemma without_entry_spec name fork_space :
  match short_form_without_entry sb parsed name fork_space with
  | Ok fork => name ∈ de_name <$> sf_entries parsed /\ reads_as sb fork (with_entries (parent_ino parsed) (others parsed name))
  | Err e => name ∉ de_name <$> sf_entries parsed /\ e = NotFound \/
             name ∈ de_name <$> sf_entries parsed /\ ~ encodable (has_ftype sb) (parent_ino parsed) (kept <$> others parsed name) fork_space
  | Panic => False
  end.
Proof.
  unfold short_form_without_entry. pose proof (existsb_named (sf_entries parsed) name) as Hin.
  destruct (existsb _ _); cbn [negb fail_if mbind res_bind]; [|left; split; [|done]; intros H; by apply Hin in H].
  fold (others parsed name). destruct (others_good name) as [Hr Hb]. destruct (kept_all sb _ Hr) as (Hg & _).
  assert (Hn : Forall sf_named (kept <$> others parsed name)) by (eapply Forall_impl; [exact Hg|]; apply sf_good_named).
  destruct (encode_short_form_spec parsed (has_ftype sb) _ fork_space Hn) as [[E _]|[[e E] Hne]]; rewrite E; [|right; split; [by apply Hin|done]].
  split; [by apply Hin|]. by eapply kept_reads.
Qed.

Lemma after_rename_spec from to fork_space : (0 < length to < 256)%nat ->
  match short_form_after_rename sb parsed from to fork_space with
  | Ok fork => exists moved, moved ∈ sf_entries parsed /\ de_name moved = from /\
      reads_as sb fork (with_entries (parent_ino parsed) (others parsed from ++ [mkDirEntry to (de_ino moved) (de_ftype moved) next]))
  | Err _ => from ∈ de_name <$> sf_entries parsed
  | Panic => from ∉ de_name <$> sf_entries parsed
  end.
Proof.
  intros Hn. unfold short_form_after_rename. fold next. pose proof (find_named (sf_entries parsed) from) as Hfind.
  destruct (find _ _) as [moved|]; cbn [expect mbind res_bind]; [|done]. destruct Hfind as [Hm Hmn].
  fold (others parsed from). destruct (others_good from) as [Hr Hb].
  destruct (encode_short_form_spec parsed (has_ftype sb) _ fork_space (appended_named to (ftype_to_raw (de_ftype moved)) (de_ino moved) _ Hn Hr)) as [[E _]|[[e E] _]];
    rewrite E; [|apply list_elem_of_fmap; by exists moved].
  exists moved. split; [done|]. split; [done|].
  pose proof (proj1 (Forall_forall _ _) (sd_entries _ _ Hsd) moved Hm) as [_ _ Hmi Hmf]. destruct Hnb as [_ Hbs].
  pose proof (appended_reads sb parsed Hsd _ to (de_ino moved) _ (de_ftype moved) fork_space _ Hr Hn Hmi (ftype_raw_roundtrip _) Hb
    (proj1 (Forall_forall _ _) Hbs moved Hm) E) as Happ. revert Happ. fold next.
  by replace (if has_ftype sb then de_ftype moved else None) with (de_ftype moved) by (destruct (has_ftype sb); [done|by apply Hmf]).
Qed.
End each_edit.


(** ** Witnesses *)

(** A directory inode, in its inode. *)
Definition sample_dir_inode (size : Z) : Inode :=
  let t := mkTime 0 0 in
  mkInode 128 0x41ed 3 Format.Local Format.Extents 0 0 2 size 0 0 0 0 0 0 1 0 t t t t.
Definition sample_sf_entries : list SfEntry :=
  [mkSfEntry ["a"%byte] 131 1 0x60; mkSfEntry ["b"%byte; "c"%byte] 132 2 0x70].
Definition sample_sf_fork : bytes := Eval vm_compute in
  match encode_short_form (mkShortForm 128 0 []) (has_ftype sample_sb) sample_sf_entries 300 with Ok f => f | _ => [] end.

Lemma sample_sf_good : Forall (sf_good sample_sb) sample_sf_entries /\ ino_ok sample_sb 128.
Proof.
  assert (H : forall n, 128 <= n < 192 -> ino_ok sample_sb n).
  { intros n Hn. split; [unfold MAX_INUMBER; lia|]. replace n with (128 + Z.of_nat (Z.to_nat (n - 128))) by lia.
    assert (Hk : (Z.to_nat (n - 128) < 64)%nat) by lia. generalize dependent (Z.to_nat (n - 128)). clear. intros k Hk.
    do 64 (destruct k as [|k]; [vm_compute; done|]). lia. }
  split; [|by apply H]. repeat constructor; cbn; try lia; try (apply H; lia); try (by eexists); try done.
Qed.

Lemma short_form_written_read_witness :
  read_short_form (sample_dir_inode (Z.of_nat (length sample_sf_fork))) (sample_sf_fork ++ []) sample_sb =
    Ok (mkShortForm 128 0 (read_back sample_sb <$> sample_sf_entries)).
Proof.
  destruct sample_sf_good as [Hg Hp].
  apply (short_form_written_read (sample_dir_inode (Z.of_nat (length sample_sf_fork))) sample_sb (mkShortForm 128 0 []) sample_sf_entries 300
    sample_sf_fork [] Hg Hp); [by split|by vm_compute|].
  split; [by intros []|]. repeat constructor; by intros [].
Defined.

Definition sample_sf_dir : ShortFormDir := Eval vm_compute in mkShortForm 128 0 (read_back sample_sb <$> sample_sf_entries).


Lemma short_form_reads_agree_witness :
  read_short_form_lenient (sample_dir_inode (Z.of_nat (length sample_sf_fork))) sample_sf_fork sample_sb = Ok (sample_sf_dir, mkTolerated [] None).
Proof.
  destruct (short_form_reads_agree (sample_dir_inode (Z.of_nat (length sample_sf_fork))) sample_sf_fork sample_sb) as (_ & _ & H); [vm_compute; done|].
  apply H. vm_compute. reflexivity.
Defined.
