(* ===== verification/Bmbt.v ===== *)
(** * The block map of a fork ([src/src/bmbt.rs], [bmbt_write::logged_root_to_disk])

    A fork whose extents do not fit the inode keeps them in a B+tree whose root
    is the fork.  The root is stored in a short form and logged in a long one;
    in both, as in every node, the pointers begin after room for as many keys
    as fit.

    The theorems: walking a fork never panics and ends, whatever is on the
    disk, and what it returns is exactly the extents of a tree whose every
    block was vouched for; a well-formed tree is read back whole, in file order,
    its blocks from the root down; a root survives being logged and recovered,
    and the two routines that recover one agree. *)

From Stdlib Require Import ZArith Lia Strings.String Strings.Byte Bool.
From stdpp Require Import base list strings sets.
From S2P Require Import Prelude Error Endian Crc32c Superblock Sample Extent FreeSpace.

Definition XFS_BMAP_MAGIC : Z := 0x424d4150.
Definition XFS_BMAP_CRC_MAGIC : Z := 0x424d4133.
Definition ROOT_HEADER_LEN : nat := 4.
Definition V4_HEADER_LEN : nat := 24.
Definition V5_HEADER_LEN : nat := 72.
Definition KEY_LEN : nat := 8.
Definition PTR_LEN : nat := 8.

Module bm.
Definition MAGIC : nat := 0.
Definition LEVEL : nat := 4.
Definition NUMRECS : nat := 6.
Definition BLKNO : nat := 24.
Definition UUID : nat := 40.
Definition OWNER : nat := 56.
Definition CRC : nat := 64.
End bm.
Module root_offsets.
Definition LEVEL : nat := 0.
Definition NUMRECS : nat := 2.
End root_offsets.
Ltac bm_lia :=
  cbv [bm.MAGIC bm.LEVEL bm.NUMRECS bm.BLKNO bm.UUID bm.OWNER bm.CRC root_offsets.LEVEL root_offsets.NUMRECS
       ROOT_HEADER_LEN V4_HEADER_LEN V5_HEADER_LEN KEY_LEN PTR_LEN EXTENT_RECORD_SIZE] in *; lia.

Definition MAX_LEVELS : Z := 9.

Definition maxrecs (usable : nat) : nat := (usable / (KEY_LEN + PTR_LEN))%nat.

Record Node := mkNode { n_level : Z; n_numrecs : Z; n_body : nat; n_maxrecs : nat }.

Definition header_len (v5 : bool) : nat := if v5 then V5_HEADER_LEN else V4_HEADER_LEN.
Definition magic_of (sb : Superblock) : Z := if is_v5 sb then XFS_BMAP_CRC_MAGIC else XFS_BMAP_MAGIC.

Definition parse_root (fork : bytes) (ino : Z) : res Node :=
  fail_if (length fork <? ROOT_HEADER_LEN)%nat
    (bad "inode {}: data fork holds {} bytes, too few for a bmbt root" [AZ ino; AZ (Z.of_nat (length fork))]);;
  level ← be16 fork root_offsets.LEVEL;
  numrecs ← be16 fork root_offsets.NUMRECS;
  fail_if (level =? 0) (bad "inode {}: bmbt root claims level 0, which would be an inline extent list" [AZ ino]);;
  fail_if (MAX_LEVELS <? level)
    (bad "inode {}: bmbt root claims level {}, beyond the {}-level maximum" [AZ ino; AZ level; AZ MAX_LEVELS]);;
  let max := maxrecs (length fork - ROOT_HEADER_LEN) in
  fail_if (max <? Z.to_nat numrecs)%nat
    (bad "inode {}: bmbt root claims {} records but has room for {}" [AZ ino; AZ numrecs; AZ (Z.of_nat max)]);;
  Ok (mkNode level numrecs ROOT_HEADER_LEN max).

(** The long-form header a logged root carries. *)
Definition root_header (sb : Superblock) (ino level numrecs : Z) : list (nat * bytes) :=
  [ (bm.MAGIC, to_be_bytes 4 (magic_of sb)); (bm.LEVEL, to_be_bytes 2 level); (bm.NUMRECS, to_be_bytes 2 numrecs);
    (8%nat, to_be_bytes 8 (umax 64)); (16%nat, to_be_bytes 8 (umax 64)) ] ++
  if is_v5 sb then
    [ (bm.BLKNO, to_be_bytes 8 (umax 64)); (bm.UUID, sb_meta_uuid sb); (bm.OWNER, to_be_bytes 8 ino) ]
  else [].

Definition inode_root_to_log (fork : bytes) (sb : Superblock) (ino : Z) : res bytes :=
  node ← parse_root fork ino;
  let count := Z.to_nat (n_numrecs node) in
  let body := header_len (is_v5 sb) in
  logged ← put_all (root_header sb ino (n_level node) (n_numrecs node))
             (replicate (body + count * (KEY_LEN + PTR_LEN)) x00);
  keys ← get_slice (n_body node) (count * KEY_LEN) fork;
  logged ← copy_at body keys logged;
  ptrs ← get_slice (n_body node + n_maxrecs node * KEY_LEN) (count * PTR_LEN) fork;
  copy_at (body + count * KEY_LEN) ptrs logged.

Definition bad_root : Error := CorruptLog (fmt "a logged bmbt root does not fit its header or inode fork" []).

Definition inode_root_from_log (logged : bytes) (sb : Superblock) (capacity : nat) : res bytes :=
  let body := header_len (is_v5 sb) in
  fail_if ((length logged <? body)%nat || (capacity <? ROOT_HEADER_LEN)%nat) bad_root;;
  level ← be16 logged bm.LEVEL;
  count ← be16 logged bm.NUMRECS;
  let source_slots := maxrecs (length logged - body) in
  let target_slots := maxrecs (capacity - ROOT_HEADER_LEN) in
  magic ← be32 logged bm.MAGIC;
  fail_if (negb (magic =? magic_of sb) || (level =? 0) || (MAX_LEVELS <? level) || (count =? 0) ||
           (source_slots <? Z.to_nat count)%nat || (target_slots <? Z.to_nat count)%nat) bad_root;;
  let n := Z.to_nat count in
  fork ← copy_at 0 (to_be_bytes 2 level) (replicate capacity x00);
  fork ← copy_at 2 (to_be_bytes 2 count) fork;
  keys ← get_slice body (n * KEY_LEN) logged;
  fork ← copy_at ROOT_HEADER_LEN keys fork;
  ptrs ← get_slice (body + source_slots * KEY_LEN) (n * PTR_LEN) logged;
  copy_at (ROOT_HEADER_LEN + target_slots * KEY_LEN) ptrs fork.

(** [bmbt_write::logged_root_to_disk]: the slots one by one. *)
Definition bad_logged (why : string) (a : list arg) : Error :=
  CorruptLog (fmt ("a logged block-map root " ++ why) a).
Fixpoint copy_slots (header logged_max disk_max : nat) (logged : bytes) (ks : list nat) (out : bytes) : res bytes :=
  match ks with
  | [] => Ok out
  | k :: ks =>
      key ← get_slice (header + k * 8) 8 logged;
      out ← copy_at (ROOT_HEADER_LEN + k * 8) key out;
      ptr ← get_slice (header + logged_max * 8 + k * 8) 8 logged;
      out ← copy_at (ROOT_HEADER_LEN + disk_max * 8 + k * 8) ptr out;
      copy_slots header logged_max disk_max logged ks out
  end.
Definition logged_root_to_disk (logged : bytes) (v5 : bool) (fork_len : nat) : res bytes :=
  let header := header_len v5 in
  fail_if ((length logged <? header)%nat || (fork_len <? ROOT_HEADER_LEN)%nat)
    (bad_logged "is {} bytes, shorter than its header" [AZ (Z.of_nat (length logged))]);;
  level ← get_slice 4 2 logged;
  count ← be16 logged 6;
  let n := Z.to_nat count in
  let logged_max := maxrecs (length logged - header) in
  let disk_max := maxrecs (fork_len - ROOT_HEADER_LEN) in
  fail_if ((logged_max <? n)%nat || (disk_max <? n)%nat) (bad_logged "claims {} entries" [AZ count]);;
  out ← copy_at 0 level (replicate fork_len x00);
  number ← get_slice 6 2 logged;
  out ← copy_at 2 number out;
  copy_slots header logged_max disk_max logged (seq 0 n) out.

Section walk.
Context `{Crc : Crc32c} (sb : Superblock) (ino : Z).

Definition parse_block (buf : bytes) (fsblock expect_level : Z) : res Node :=
  let header := header_len (is_v5 sb) in
  fail_if (length buf <? header)%nat
    (bad "inode {}: bmbt block {} is {} bytes, shorter than its {}-byte header"
       [AZ ino; AZ fsblock; AZ (Z.of_nat (length buf)); AZ (Z.of_nat header)]);;
  magic ← be32 buf bm.MAGIC;
  fail_if (negb (magic =? magic_of sb))
    (bad "inode {}: bmbt block {} has magic {}, expected {}" [AZ ino; AZ fsblock; AZ magic; AZ (magic_of sb)]);;
  (if is_v5 sb then
     stored ← le32 buf bm.CRC;
     computed ← crc32c_with_zeroed_crc buf bm.CRC;
     fail_if (negb (stored =? computed)) (ChecksumMismatch "bmbt block" fsblock);;
     uuid ← uuid_at buf bm.UUID;
     fail_if (negb (bool_decide (uuid = sb_meta_uuid sb))) (BlockIdentityMismatch "bmbt block" fsblock (umax 64));;
     owner ← be64 buf bm.OWNER;
     fail_if (negb (owner =? ino)) (BlockIdentityMismatch "bmbt block owner" ino owner);;
     stated ← be64 buf bm.BLKNO;
     let expected := blkno_of_fsbno sb fsblock in
     fail_if (negb (stated =? expected)) (BlockIdentityMismatch "bmbt block address" expected stated)
   else Ok tt);;
  level ← be16 buf bm.LEVEL;
  fail_if (negb (level =? expect_level))
    (bad "inode {}: bmbt block {} is at level {}, but its parent points to it as level {}"
       [AZ ino; AZ fsblock; AZ level; AZ expect_level]);;
  numrecs ← be16 buf bm.NUMRECS;
  let max := maxrecs (length buf - header) in
  fail_if (max <? Z.to_nat numrecs)%nat
    (bad "inode {}: bmbt block {} claims {} records but has room for {}" [AZ ino; AZ fsblock; AZ numrecs; AZ (Z.of_nat max)]);;
  Ok (mkNode level numrecs header max).

Definition pointers (buf : bytes) (node : Node) (source : Z) : res (list Z) :=
  let first := (n_body node + n_maxrecs node * KEY_LEN)%nat in
  let end_ := (first + Z.to_nat (n_numrecs node) * PTR_LEN)%nat in
  fail_if (length buf <? end_)%nat
    (bad "inode {}: bmbt block {} needs {} bytes for its pointer array but is only {} long"
       [AZ ino; AZ source; AZ (Z.of_nat end_); AZ (Z.of_nat (length buf))]);;
  res_map (fun i => be64 buf (first + i * PTR_LEN)) (seq 0 (Z.to_nat (n_numrecs node))).

Definition records (buf : bytes) (node : Node) (source : Z) : res (list Extent) :=
  let end_ := (n_body node + Z.to_nat (n_numrecs node) * EXTENT_RECORD_SIZE)%nat in
  fail_if (length buf <? end_)%nat
    (bad "inode {}: bmbt leaf {} needs {} bytes for its {} records but is only {} long"
       [AZ ino; AZ source; AZ (Z.of_nat end_); AZ (n_numrecs node); AZ (Z.of_nat (length buf))]);;
  piece ← get_slice (n_body node) (end_ - n_body node) buf;
  Extent.parse_list piece (n_numrecs node).

Context (read_fsblock : Z -> res bytes).

(** The stack's top is the head of [stack]; the budget counts down. *)
Fixpoint walk_loop (budget : nat) (nextents : Z) (stack : list (Z * Z)) (extents : list Extent) (blocks : list Z) :
    res (list Extent * list Z) :=
  match stack with
  | [] => Ok (extents, blocks)
  | (fsblock, expect_level) :: stack =>
      match budget with
      | O => Err (bad "inode {}: bmbt walk visited more blocks than {} extents can justify; the tree is cyclic or its extent count is wrong"
                    [AZ ino; AZ nextents])
      | S budget =>
          buf ← read_fsblock fsblock;
          node ← parse_block buf fsblock expect_level;
          let blocks := blocks ++ [fsblock] in
          if n_level node =? 0 then
            es ← records buf node fsblock;
            walk_loop budget nextents stack (extents ++ es) blocks
          else
            children ← pointers buf node fsblock;
            walk_loop budget nextents (((fun p => (p, n_level node - 1)) <$> children) ++ stack) extents blocks
      end
  end.

Definition walk_budget (nextents : Z) : Z := Z.max (saturating_mul 64 (saturating_add 64 nextents 1) 2) 64.

Definition walk_with_blocks (fork : bytes) (nextents : Z) : res (list Extent * list Z) :=
  root ← parse_root fork ino;
  ps ← pointers fork root 0;
  '(extents, blocks) ← walk_loop (Z.to_nat (walk_budget nextents)) nextents
                         ((fun p => (p, n_level root - 1)) <$> ps) [] [];
  fail_if (negb (Z.of_nat (length extents) =? nextents))
    (bad "inode {}: bmbt holds {} extents but the inode records {}" [AZ ino; AZ (Z.of_nat (length extents)); AZ nextents]);;
  Ok (extents, blocks).

Definition walk (fork : bytes) (nextents : Z) : res (list Extent) :=
  r ← walk_with_blocks fork nextents; Ok r.1.
End walk.

Definition leaf_records_unverified (buf : bytes) (v5 : bool) : res (list Extent) :=
  let header := header_len v5 in
  fail_if (length buf <? header)%nat
    (bad "bmbt leaf is {} bytes, shorter than its {}-byte header" [AZ (Z.of_nat (length buf)); AZ (Z.of_nat header)]);;
  numrecs ← be16 buf bm.NUMRECS;
  let max := maxrecs (length buf - header) in
  fail_if (max <? Z.to_nat numrecs)%nat
    (bad "bmbt leaf claims {} records but has room for {}" [AZ numrecs; AZ (Z.of_nat max)]);;
  records 0 buf (mkNode 0 numrecs header max) 0.

(** ** One block *)

Lemma parse_list_loop_total buf n : forall i p, parse_list_loop buf n i p <> Panic.
Proof.
  induction n as [|n IH]; intros i p; cbn [parse_list_loop]; [done|]. apply bind_not_Panic; [apply parse_total|]. intros e _.
  apply bind_not_Panic; [apply fail_if_not_Panic|]. intros _ _. apply bind_not_Panic; [apply IH|done].
Qed.

Lemma parse_list_total buf count : parse_list buf count <> Panic.
Proof.
  unfold parse_list. destruct (checked_mul _ _ _); cbn [ok_or mbind res_bind]; [|done].
  apply bind_not_Panic; [apply fail_if_not_Panic|]. intros _ _. apply parse_list_loop_total.
Qed.

Lemma maxrecs_fits usable : (maxrecs usable * 16 <= usable)%nat.
Proof. unfold maxrecs, KEY_LEN, PTR_LEN. change (8 + 8)%nat with 16%nat. pose proof (Nat.Div0.mul_div_le usable 16). lia. Qed.

(** The root in the fork. *)
Definition root_of (fork : bytes) : Node :=
  mkNode (rd 2 root_offsets.LEVEL fork) (rd 2 root_offsets.NUMRECS fork) ROOT_HEADER_LEN
    (maxrecs (length fork - ROOT_HEADER_LEN)).

Lemma parse_root_spec ino fork :
  parse_root fork ino <> Panic /\
  (forall node, parse_root fork ino = Ok node <->
     (4 <= length fork)%nat /\ 1 <= rd 2 root_offsets.LEVEL fork <= MAX_LEVELS /\
     (Z.to_nat (rd 2 root_offsets.NUMRECS fork) <= maxrecs (length fork - ROOT_HEADER_LEN))%nat /\ node = root_of fork).
Proof.
  unfold parse_root. destruct (Nat.ltb_spec (length fork) ROOT_HEADER_LEN); cbn [fail_if mbind res_bind]; [split; [done|]; intros; split; [done|bm_lia]|].
  rewrite !be16_Ok by bm_lia. cbn [mbind res_bind]. pose proof (rd_range_any 2 root_offsets.LEVEL fork) as [Hl _].
  destruct (Z.eqb_spec (rd 2 root_offsets.LEVEL fork) 0); cbn [fail_if mbind res_bind]; [naive_solver lia|].
  destruct (Z.ltb_spec MAX_LEVELS (rd 2 root_offsets.LEVEL fork)); cbn [fail_if mbind res_bind]; [naive_solver lia|].
  destruct (Nat.ltb_spec (maxrecs (length fork - ROOT_HEADER_LEN)) (Z.to_nat (rd 2 root_offsets.NUMRECS fork))); cbn [fail_if mbind res_bind];
    [naive_solver lia|]. split; [done|]. intros node. unfold root_of. split; [intros [= <-]; split_and!; try done; try lia; bm_lia|by intros (_ & _ & _ & ->)].
Qed.

Lemma root_room (fork : bytes) n : (4 <= length fork)%nat -> (n <= maxrecs (length fork - ROOT_HEADER_LEN))%nat ->
  (ROOT_HEADER_LEN + maxrecs (length fork - ROOT_HEADER_LEN) * 8 + n * 8 <= length fork)%nat.
Proof. intros Hl Hn. pose proof (maxrecs_fits (length fork - ROOT_HEADER_LEN)). bm_lia. Qed.

Section facts.
Context `{Crc : Crc32c} (sb : Superblock) (ino : Z).

(** What a v5 block's own header says of it. *)
Record vouched (buf : bytes) (fsblock : Z) : Prop := {
  vo_magic : rd 4 bm.MAGIC buf = magic_of sb;
  vo_crc : is_v5 sb = true -> rd_le 4 bm.CRC buf = zeroed_crc buf bm.CRC;
  vo_uuid : is_v5 sb = true -> slice bm.UUID 16 buf = sb_meta_uuid sb;
  vo_owner : is_v5 sb = true -> rd 8 bm.OWNER buf = ino;
  vo_addr : is_v5 sb = true -> rd 8 bm.BLKNO buf = blkno_of_fsbno sb fsblock;
}.

Definition node_of (buf : bytes) : Node :=
  mkNode (rd 2 bm.LEVEL buf) (rd 2 bm.NUMRECS buf) (header_len (is_v5 sb))
    (maxrecs (length buf - header_len (is_v5 sb))).

Lemma header_len_bounds v5 : (24 <= header_len v5 <= 72)%nat.
Proof. destruct v5; cbv; lia. Qed.

Lemma parse_block_spec buf fsblock level :
  parse_block sb ino buf fsblock level <> Panic /\
  (forall node, parse_block sb ino buf fsblock level = Ok node <->
     (header_len (is_v5 sb) <= length buf)%nat /\ vouched buf fsblock /\ rd 2 bm.LEVEL buf = level /\
     (Z.to_nat (rd 2 bm.NUMRECS buf) <= maxrecs (length buf - header_len (is_v5 sb)))%nat /\ node = node_of buf).
Proof.
  pose proof (header_len_bounds (is_v5 sb)) as Hh. unfold parse_block.
  destruct (Nat.ltb_spec (length buf) (header_len (is_v5 sb))); cbn [fail_if mbind res_bind]; [split; [done|naive_solver lia]|].
  rewrite be32_Ok, !be16_Ok by bm_lia. cbn [mbind res_bind].
  destruct (Z.eqb_spec (rd 4 bm.MAGIC buf) (magic_of sb)) as [Hm|Hm]; cbn [negb fail_if mbind res_bind]; [|split; [done|]; intros node; split; [done|]; by intros (_ & [? _ _ _ _] & _)].
  assert (Hv : let m := (if is_v5 sb then
     stored ← le32 buf bm.CRC;
     computed ← crc32c_with_zeroed_crc buf bm.CRC;
     fail_if (negb (stored =? computed)) (ChecksumMismatch "bmbt block" fsblock);;
     uuid ← uuid_at buf bm.UUID;
     fail_if (negb (bool_decide (uuid = sb_meta_uuid sb))) (BlockIdentityMismatch "bmbt block" fsblock (umax 64));;
     owner ← be64 buf bm.OWNER;
     fail_if (negb (owner =? ino)) (BlockIdentityMismatch "bmbt block owner" ino owner);;
     stated ← be64 buf bm.BLKNO;
     fail_if (negb (stated =? blkno_of_fsbno sb fsblock)) (BlockIdentityMismatch "bmbt block address" (blkno_of_fsbno sb fsblock) stated)
   else Ok tt) in m <> Panic /\ (m = Ok tt <-> vouched buf fsblock)).
  { destruct (is_v5 sb) eqn:E5; cbv zeta; [|split; [done|split; [|done]]; intros _; split; rewrite ?E5; done].
    unfold header_len in *. rewrite le32_Ok, crc32c_with_zeroed_crc_Ok, uuid_at_Ok, !be64_Ok by bm_lia. cbn [mbind res_bind].
    destruct (Z.eqb_spec (rd_le 4 bm.CRC buf) (zeroed_crc buf bm.CRC)); cbn [negb fail_if mbind res_bind];
      [|split; [done|split; [done|]]; intros [_ Hx _ _ _]; by specialize (Hx E5)].
    case_bool_decide; cbn [negb fail_if mbind res_bind]; [|split; [done|split; [done|]]; intros [_ _ Hx _ _]; by specialize (Hx E5)].
    destruct (Z.eqb_spec (rd 8 bm.OWNER buf) ino); cbn [negb fail_if mbind res_bind]; [|split; [done|split; [done|]]; intros [_ _ _ Hx _]; by specialize (Hx E5)].
    destruct (Z.eqb_spec (rd 8 bm.BLKNO buf) (blkno_of_fsbno sb fsblock)); cbn [negb fail_if]; split; try done; split; try done.
    intros [_ _ _ _ Hx]; by specialize (Hx E5). }
  cbv zeta in Hv. destruct Hv as [Hvp Hv]. match type of Hvp with ?m <> Panic => destruct m as [[]|e|] end; cbn [mbind res_bind]; [|naive_solver..].
  assert (Hvo : vouched buf fsblock) by by apply Hv.
  destruct (Z.eqb_spec (rd 2 bm.LEVEL buf) level); cbn [negb fail_if mbind res_bind]; [|naive_solver].
  destruct (Nat.ltb_spec (maxrecs (length buf - header_len (is_v5 sb))) (Z.to_nat (rd 2 bm.NUMRECS buf))); cbn [fail_if mbind res_bind];
    [split; [done|naive_solver lia]|]. split; [done|]. intros node. unfold node_of. naive_solver.
Qed.

Lemma node_room (buf : bytes) n : (n <= maxrecs (length buf - header_len (is_v5 sb)))%nat -> (header_len (is_v5 sb) <= length buf)%nat ->
  (header_len (is_v5 sb) + maxrecs (length buf - header_len (is_v5 sb)) * 8 + n * 8 <= length buf)%nat.
Proof. intros Hn Hh. pose proof (maxrecs_fits (length buf - header_len (is_v5 sb))). lia. Qed.

(** The pointers of a node whose count fits. *)
Definition pointers_of (buf : bytes) (body max n : nat) : list Z :=
  (fun i => rd 8 (body + max * 8 + i * 8) buf) <$> seq 0 n.

Lemma pointers_spec buf node source :
  (n_body node + n_maxrecs node * 8 + Z.to_nat (n_numrecs node) * 8 <= length buf)%nat ->
  pointers ino buf node source = Ok (pointers_of buf (n_body node) (n_maxrecs node) (Z.to_nat (n_numrecs node))).
Proof.
  intros Hl. unfold pointers, KEY_LEN, PTR_LEN. rewrite (proj2 (Nat.ltb_ge _ _)) by lia. cbn [fail_if mbind res_bind].
  apply res_map_Ok, Forall2_fmap_r, Forall2_same_length_lookup_2; [done|]. intros i x y Hx Hy. rewrite Hx in Hy. injection Hy as <-.
  apply lookup_seq in Hx as [-> Hi]. rewrite be64_Ok by lia. done.
Qed.

Lemma records_total buf node source : records ino buf node source <> Panic.
Proof.
  unfold records. destruct (Nat.ltb_spec (length buf) (n_body node + Z.to_nat (n_numrecs node) * EXTENT_RECORD_SIZE)); cbn [fail_if mbind res_bind]; [done|].
  rewrite get_slice_Ok by bm_lia. cbn [mbind res_bind]. apply parse_list_total.
Qed.

(** ** A tree on the disk *)

Inductive tree := Leaf (b : Z) (es : list Extent) | Branch (b : Z) (ts : list tree).
Definition tree_block (t : tree) : Z := match t with Leaf b _ => b | Branch b _ => b end.
Fixpoint flatten (t : tree) : list Extent :=
  match t with Leaf _ es => es | Branch _ ts => concat (flatten <$> ts) end.
(** From the root down, left to right. *)
Fixpoint tree_blocks (t : tree) : list Z :=
  match t with Leaf b _ => [b] | Branch b ts => b :: concat (tree_blocks <$> ts) end.
Definition extents_of (ts : list tree) : list Extent := concat (flatten <$> ts).
Definition blocks_of (ts : list tree) : list Z := concat (tree_blocks <$> ts).

Context (read_fsblock : Z -> res bytes).

Inductive on_disk : Z -> tree -> Prop :=
  | od_leaf b es buf node :
      read_fsblock b = Ok buf -> parse_block sb ino buf b 0 = Ok node -> records ino buf node b = Ok es ->
      on_disk 0 (Leaf b es)
  | od_branch level b ts buf node :
      level <> 0 -> read_fsblock b = Ok buf -> parse_block sb ino buf b level = Ok node ->
      pointers ino buf node b = Ok (tree_block <$> ts) -> all_on_disk (level - 1) ts ->
      on_disk level (Branch b ts)
with all_on_disk : Z -> list tree -> Prop :=
  | ad_nil level : all_on_disk level []
  | ad_cons level t ts : on_disk level t -> all_on_disk level ts -> all_on_disk level (t :: ts).

Scheme on_disk_ind' := Induction for on_disk Sort Prop
  with all_on_disk_ind' := Induction for all_on_disk Sort Prop.
Combined Scheme on_disk_mutind from on_disk_ind', all_on_disk_ind'.

Lemma all_on_disk_Forall level ts : all_on_disk level ts <-> Forall (on_disk level) ts.
Proof. split; induction 1; by constructor. Qed.

(** The trees a stack of blocks stands for. *)
Definition stands_for (stack : list (Z * Z)) (ts : list tree) : Prop :=
  Forall2 (fun e t => tree_block t = e.1 /\ on_disk e.2 t) stack ts.

Lemma stands_for_children ps level ts :
  stands_for ((fun p => (p, level)) <$> ps) ts <-> ps = tree_block <$> ts /\ all_on_disk level ts.
Proof.
  unfold stands_for. revert ts; induction ps as [|p ps IH]; intros ts; cbn [fmap list_fmap].
  - split; [inversion 1; subst; split; [done|constructor]|]. intros [E _]. destruct ts; [constructor|done].
  - split.
    + inversion 1 as [|? t ? ts' [Hb Ho] Hr]; subst. apply IH in Hr as [-> Ha]. cbn in *. split; [by rewrite Hb|by constructor].
    + intros [E Ha]. destruct ts as [|t ts]; [done|]. injection E as -> ->. inversion Ha; subst. constructor; [done|]. by apply IH.
Qed.

Lemma parsed_level buf b level node : parse_block sb ino buf b level = Ok node -> n_level node = level.
Proof. intros Hp. apply parse_block_spec in Hp as (_ & _ & <- & _ & ->). done. Qed.

Lemma bmbt_loop_sound n budget : forall stack extents blocks es bs,
  walk_loop sb ino read_fsblock budget n stack extents blocks = Ok (es, bs) ->
  exists ts, stands_for stack ts /\ es = extents ++ extents_of ts /\ bs = blocks ++ blocks_of ts /\
    (length (blocks_of ts) <= budget)%nat.
Proof.
  induction budget as [|budget IH]; intros [|[b level] stack] extents blocks es bs; cbn [walk_loop].
  - intros [= <- <-]. exists []. unfold extents_of, blocks_of. cbn. rewrite !app_nil_r. split_and!; [constructor|done|done|lia].
  - done.
  - intros [= <- <-]. exists []. unfold extents_of, blocks_of. cbn. rewrite !app_nil_r. split_and!; [constructor|done|done|lia].
  - intros H. apply bind_Ok in H as (buf & Hr & H). apply bind_Ok in H as (node & Hp & H).
    pose proof (parsed_level _ _ _ _ Hp) as Hlv. destruct (Z.eqb_spec (n_level node) 0) as [H0|H0].
    + apply bind_Ok in H as (recs & Hrec & H). apply IH in H as (ts & Hs & -> & -> & Hlen).
      assert (level = 0) as -> by lia. exists (Leaf b recs :: ts). unfold extents_of, blocks_of in *. cbn. rewrite <- !app_assoc.
      split_and!; [|done|done|lia]. constructor; [|done]. split; [done|]. by eapply od_leaf.
    + apply bind_Ok in H as (ps & Hps & H). apply IH in H as (ts & Hs & -> & -> & Hlen).
      apply Forall2_app_inv_l in Hs as (ts1 & ts2 & H1 & H2 & ->). apply stands_for_children in H1 as [-> Ha].
      exists (Branch b ts1 :: ts2). unfold extents_of, blocks_of in *. rewrite !fmap_app, !concat_app in *. cbn [fmap list_fmap concat flatten tree_blocks].
      rewrite length_app in Hlen. cbn [app]. rewrite <- !app_assoc. split_and!; [|done|done|cbn [length]; rewrite length_app; lia].
      constructor; [|done]. split; [done|]. cbn [snd fst]. rewrite Hlv in *. by eapply od_branch.
Qed.

Lemma walk_loop_complete n budget : forall stack extents blocks ts,
  stands_for stack ts -> (length (blocks_of ts) <= budget)%nat ->
  walk_loop sb ino read_fsblock budget n stack extents blocks = Ok (extents ++ extents_of ts, blocks ++ blocks_of ts).
Proof.
  induction budget as [|budget IH]; intros stack extents blocks ts Hs Hlen; destruct Hs as [|[b level] t stack ts [Hb Ho] Hs];
    try (cbn [walk_loop]; unfold extents_of, blocks_of; cbn; by rewrite !app_nil_r).
  { unfold blocks_of in Hlen. cbn in Hlen. rewrite length_app in Hlen. destruct t; cbn in Hlen; lia. }
  cbn [walk_loop]. cbn [fst snd] in *. destruct Ho as [b' es buf node Hr Hp Hrec|level b' cs buf node H0 Hr Hp Hps Ha]; cbn in Hb; subst b'.
  - rewrite Hr. cbn [mbind res_bind]. rewrite Hp. cbn [mbind res_bind]. rewrite (parsed_level _ _ _ _ Hp). cbn [Z.eqb]. rewrite Hrec.
    cbn [mbind res_bind]. unfold extents_of, blocks_of in *. cbn in Hlen |- *. rewrite (IH _ _ _ ts) by (done || lia). by rewrite <- !app_assoc.
  - rewrite Hr. cbn [mbind res_bind]. rewrite Hp. cbn [mbind res_bind]. rewrite (parsed_level _ _ _ _ Hp), (proj2 (Z.eqb_neq _ _)) by done.
    rewrite Hps. cbn [mbind res_bind]. unfold extents_of, blocks_of in *. cbn in Hlen. rewrite length_app in Hlen.
    rewrite (IH _ _ _ (cs ++ ts)).
    + rewrite !fmap_app, !concat_app. cbn [fmap list_fmap concat flatten tree_blocks app]. by rewrite <- !app_assoc.
    + apply Forall2_app; [|done]. by apply stands_for_children.
    + rewrite fmap_app, concat_app, length_app. lia.
Qed.

Lemma bmbt_loop_total n budget : forall stack extents blocks,
  (forall b, read_fsblock b <> Panic) -> walk_loop sb ino read_fsblock budget n stack extents blocks <> Panic.
Proof.
  induction budget as [|budget IH]; intros [|[b level] stack] extents blocks Hr; cbn [walk_loop]; try done.
  apply bind_not_Panic; [done|]. intros buf _. apply bind_not_Panic; [apply parse_block_spec|]. intros node Hp.
  destruct (n_level node =? 0).
  - apply bind_not_Panic; [apply records_total|]. intros es _. by apply IH.
  - apply bind_not_Panic; [|intros ps _; by apply IH].
    apply parse_block_spec in Hp as (Hh & _ & _ & Hn & ->). rewrite pointers_spec; [done|]. cbn. by apply node_room.
Qed.

(** A tree rooted in a fork. *)
Definition rooted (fork : bytes) (ts : list tree) : Prop :=
  parse_root fork ino = Ok (root_of fork) /\
  tree_block <$> ts = pointers_of fork ROOT_HEADER_LEN (n_maxrecs (root_of fork)) (Z.to_nat (n_numrecs (root_of fork))) /\
  all_on_disk (n_level (root_of fork) - 1) ts.

Lemma walk_spec fork nextents es bs :
  walk_with_blocks sb ino read_fsblock fork nextents = Ok (es, bs) <->
  exists ts, rooted fork ts /\ es = extents_of ts /\ bs = blocks_of ts /\ Z.of_nat (length es) = nextents /\
    Z.of_nat (length bs) <= walk_budget nextents.
Proof.
  assert (Hb0 : 0 <= walk_budget nextents) by (unfold walk_budget; lia). unfold walk_with_blocks, rooted. split.
  - intros H. apply bind_Ok in H as (root & Hp & H). pose proof (proj1 (proj2 (parse_root_spec ino fork) root) Hp) as (H4 & _ & Hn & ->).
    rewrite pointers_spec in H by (by apply root_room). cbn [mbind res_bind] in H.
    apply bind_Ok in H as ([es' bs'] & Hw & H). apply guard_Ok in H as [Hc H]. injection H as -> ->. bool_prop.
    apply bmbt_loop_sound in Hw as (ts & Hs & -> & -> & Hlen). apply stands_for_children in Hs as [Hps Ha].
    exists ts. cbn [app] in *. split_and!; try done. lia.
  - intros (ts & (Hp & Hps & Ha) & -> & -> & Hc & Hb). rewrite Hp. cbn [mbind res_bind].
    pose proof (proj1 (proj2 (parse_root_spec ino fork) _) Hp) as (H4 & _ & Hn & _).
    rewrite pointers_spec by (by apply root_room). cbn [mbind res_bind].
    rewrite (walk_loop_complete _ _ _ _ _ ts).
    + cbn [mbind res_bind app]. by rewrite (proj2 (Z.eqb_eq _ _)).
    + apply stands_for_children. split; [|done]. exact (eq_sym Hps).
    + lia.
Qed.

Lemma bmbt_walk_total fork nextents :
  (forall b, read_fsblock b <> Panic) -> walk_with_blocks sb ino read_fsblock fork nextents <> Panic.
Proof.
  intros Hr. unfold walk_with_blocks. apply bind_not_Panic; [apply parse_root_spec|]. intros root Hp.
  apply parse_root_spec in Hp as (H4 & _ & Hn & ->). rewrite pointers_spec by (by apply root_room). cbn [mbind res_bind].
  apply bind_not_Panic; [by apply bmbt_loop_total|]. intros [es bs] _. apply bind_not_Panic; [apply fail_if_not_Panic|done].
Qed.

Lemma on_disk_vouched :
  (forall level t, on_disk level t ->
     Forall (fun b => exists buf, read_fsblock b = Ok buf /\ vouched buf b) (tree_blocks t) /\ Forall (extent_ok) (flatten t)) /\
  (forall level ts, all_on_disk level ts ->
     Forall (fun b => exists buf, read_fsblock b = Ok buf /\ vouched buf b) (blocks_of ts) /\ Forall (extent_ok) (extents_of ts)).
Proof.
  apply on_disk_mutind.
  - intros b es buf node Hr Hp Hrec. apply parse_block_spec in Hp as (_ & Hv & _). split; [constructor; [by exists buf|constructor]|].
    unfold records in Hrec. apply guard_Ok in Hrec as [_ Hrec]. apply bind_Ok in Hrec as (piece & _ & Hrec).
    apply parse_list_sound in Hrec as (Hs & _). cbn. by eapply sorted_from_ok.
  - intros level b ts buf node _ Hr Hp _ _ [H1 H2]. apply parse_block_spec in Hp as (_ & Hv & _). split; [|exact H2].
    constructor; [by exists buf|exact H1].
  - intros level. split; constructor.
  - intros level t ts _ [H1 H2] _ [H3 H4]. unfold blocks_of, extents_of. cbn. split; by apply Forall_app.
Qed.

(** No leaf empty, no branch with fewer than two below it. *)
Fixpoint bushy (t : tree) : Prop :=
  match t with
  | Leaf _ es => es <> []
  | Branch _ ts => (2 <= length ts)%nat /\ foldr (fun t P => bushy t /\ P) True ts
  end.

Lemma bushy_small :
  (forall level t, on_disk level t -> bushy t -> (length (tree_blocks t) + 1 <= 2 * length (flatten t))%nat) /\
  (forall level ts, all_on_disk level ts -> Forall bushy ts -> (length (blocks_of ts) + length ts <= 2 * length (extents_of ts))%nat).
Proof.
  apply on_disk_mutind.
  - intros b es buf node _ _ _ Hb. cbn in *. destruct es; [done|cbn; lia].
  - intros level b ts buf node _ _ _ _ _ IH [H2 Hb]. assert (Hf : Forall bushy ts).
    { clear - Hb. induction ts; constructor; [apply Hb|]. apply IHts, Hb. }
    specialize (IH Hf). change (length (tree_blocks (Branch b ts))) with (1 + length (blocks_of ts))%nat.
    change (flatten (Branch b ts)) with (extents_of ts). lia.
  - intros level _. cbn. lia.
  - intros level t ts _ IH1 _ IH2 [Hb Hf]%Forall_cons. specialize (IH1 Hb). specialize (IH2 Hf).
    unfold blocks_of, extents_of in *. cbn. rewrite !length_app. lia.
Qed.
End facts.

(** ** The root in its two forms *)

(** The entries of a root: its keys and its pointers. *)
Definition fork_keys (fork : bytes) : bytes := slice 4 (Z.to_nat (rd 2 2 fork) * 8) fork.
Definition fork_ptrs (fork : bytes) : bytes :=
  slice (4 + maxrecs (length fork - 4) * 8) (Z.to_nat (rd 2 2 fork) * 8) fork.

Lemma maxrecs_exact n : maxrecs (n * 16) = n.
Proof. unfold maxrecs. change (KEY_LEN + PTR_LEN)%nat with 16%nat. by rewrite Nat.div_mul. Qed.

Lemma length_fork_entries fork ino node : parse_root fork ino = Ok node ->
  length (fork_keys fork) = (Z.to_nat (rd 2 2 fork) * 8)%nat /\ length (fork_ptrs fork) = (Z.to_nat (rd 2 2 fork) * 8)%nat /\
  node = root_of fork.
Proof.
  intros Hp. apply parse_root_spec in Hp as (Hl & _ & Hn & ->). pose proof (root_room fork _ Hl Hn). unfold fork_keys, fork_ptrs.
  split_and!; [..|done]; apply length_slice; bm_lia.
Qed.

Lemma to_log_fields sb ino level n keys ptrs :
  length (sb_meta_uuid sb) = 16%nat -> length keys = (n * 8)%nat -> length ptrs = (n * 8)%nat ->
  let fields := root_header sb ino level (Z.of_nat n) ++ [(header_len (is_v5 sb), keys); ((header_len (is_v5 sb) + n * 8)%nat, ptrs)] in
  Forall (fun f => (f.1 + f.2 <= header_len (is_v5 sb) + n * 16)%nat) (extent_of <$> fields) /\
  ForallOrdPairs disjoint_fields (extent_of <$> fields).
Proof.
  intros Hu Hk Hp. cbv zeta. unfold root_header, header_len, disjoint_fields, extent_of, V5_HEADER_LEN, V4_HEADER_LEN.
  destruct (is_v5 sb); cbn [app fmap list_fmap fst snd]; rewrite ?length_to_be_bytes, ?Hu, ?Hk, ?Hp;
    (split; repeat first [apply Forall_nil_2|apply Forall_cons_2|apply FOP_nil|apply FOP_cons]; cbn [fst snd]; bm_lia).
Qed.

Lemma inode_root_to_log_spec sb ino fork node :
  length (sb_meta_uuid sb) = 16%nat -> parse_root fork ino = Ok node ->
  let n := Z.to_nat (rd 2 2 fork) in
  let body := header_len (is_v5 sb) in
  exists logged, inode_root_to_log fork sb ino = Ok logged /\ length logged = (body + n * 16)%nat /\
    rd 4 bm.MAGIC logged = magic_of sb /\ slice bm.LEVEL 2 logged = slice 0 2 fork /\ slice bm.NUMRECS 2 logged = slice 2 2 fork /\
    slice body (n * 8) logged = fork_keys fork /\ slice (body + n * 8) (n * 8) logged = fork_ptrs fork.
Proof.
  intros Hu Hp n body. destruct (length_fork_entries _ _ _ Hp) as (Hk & Hq & ->).
  pose proof (proj1 (proj2 (parse_root_spec ino fork) _) Hp) as (Hl & _ & Hn & _). pose proof (root_room fork _ Hl Hn) as Hroom.
  unfold inode_root_to_log. rewrite Hp. cbn [mbind res_bind n_numrecs n_level n_body n_maxrecs root_of].
  change (rd 2 root_offsets.NUMRECS fork) with (rd 2 2 fork) in *. change (rd 2 root_offsets.LEVEL fork) with (rd 2 0 fork). fold n body.
  change (KEY_LEN + PTR_LEN)%nat with 16%nat. rewrite !get_slice_Ok by (unfold n; bm_lia). cbn [mbind res_bind].
  change (slice ROOT_HEADER_LEN (n * KEY_LEN) fork) with (fork_keys fork).
  change (slice (ROOT_HEADER_LEN + maxrecs (length fork - ROOT_HEADER_LEN) * KEY_LEN) (n * PTR_LEN) fork) with (fork_ptrs fork).
  assert (Hzn : rd 2 2 fork = Z.of_nat n) by (unfold n; rewrite Z2Nat.id; [done|apply rd_range_any]). rewrite Hzn.
  destruct (to_log_fields sb ino (rd 2 0 fork) n _ _ Hu Hk Hq) as [Hin Hd]. cbv zeta in *. fold body in Hin, Hd.
  set (fields := root_header sb ino (rd 2 0 fork) (Z.of_nat n) ++ _) in *.
  destruct (put_all_spec fields (replicate (body + n * 16) x00)) as (logged & E & El & Hs & _); [by rewrite length_replicate|done|].
  exists logged. split.
  { rewrite <- E. unfold fields, put_all. rewrite res_fold_app. destruct (res_fold _ _ (root_header _ _ _ _)) as [b| |]; cbn [mbind res_bind res_fold fst snd]; [|done..].
    destruct (copy_at body _ b) as [b'| |]; cbn [mbind res_bind]; [|done..]. by destruct (copy_at _ _ b'). }
  rewrite El, length_replicate. split; [done|].
  assert (Hf : forall pos bs, (pos, bs) ∈ fields -> slice pos (length bs) logged = bs) by (intros pos bs Hf; by apply (Hs (pos, bs))).
  assert (Hr : forall o, o = 0%nat \/ o = 2%nat -> to_be_bytes 2 (rd 2 o fork) = slice o 2 fork).
  { intros o Ho. unfold rd. apply to_from_be_bytes'. apply length_slice. lia. }
  split_and!.
  - unfold rd. rewrite <- (length_to_be_bytes 4 (magic_of sb)) at 1. rewrite Hf by (unfold fields, root_header; set_solver).
    rewrite from_to_be_bytes_small; [done|]. unfold magic_of. by destruct (is_v5 sb).
  - rewrite <- (Hr 0%nat) by lia. rewrite <- (length_to_be_bytes 2 (rd 2 0 fork)) at 1. apply Hf. unfold fields, root_header. set_solver.
  - rewrite <- (Hr 2%nat) by lia. rewrite <- (length_to_be_bytes 2 (rd 2 2 fork)) at 1. apply Hf. rewrite Hzn. unfold fields, root_header. set_solver.
  - fold n in Hk. rewrite <- Hk. apply Hf. unfold fields. set_solver.
  - fold n in Hk, Hq. rewrite <- Hq at 2. apply Hf. unfold fields. set_solver.
Qed.

(** What either routine builds of a logged root. *)
Definition disk_root (logged : bytes) (v5 : bool) (capacity : nat) : bytes :=
  let n := Z.to_nat (rd 2 bm.NUMRECS logged) in
  let body := header_len v5 in
  splice (4 + maxrecs (capacity - 4) * 8) (slice (body + maxrecs (length logged - body) * 8) (n * 8) logged)
    (splice 4 (slice body (n * 8) logged)
       (splice 2 (slice bm.NUMRECS 2 logged) (splice 0 (slice bm.LEVEL 2 logged) (replicate capacity x00)))).

Section from_log.
Context (sb : Superblock) (logged : bytes) (v5 : bool) (capacity : nat).
Context (Hlen : (header_len v5 <= length logged)%nat) (Hcap : (4 <= capacity)%nat).
Let n := Z.to_nat (rd 2 bm.NUMRECS logged).
Context (Hsrc : (n <= maxrecs (length logged - header_len v5))%nat) (Hdst : (n <= maxrecs (capacity - 4))%nat).

Lemma source_room : (header_len v5 + maxrecs (length logged - header_len v5) * 8 + n * 8 <= length logged)%nat.
Proof. pose proof (maxrecs_fits (length logged - header_len v5)). lia. Qed.
Lemma target_room : (4 + maxrecs (capacity - 4) * 8 + n * 8 <= capacity)%nat.
Proof. pose proof (maxrecs_fits (capacity - 4)). lia. Qed.

Lemma copy_slots_app ks1 ks2 : forall out body lm dm,
  copy_slots body lm dm logged (ks1 ++ ks2) out = (out' ← copy_slots body lm dm logged ks1 out; copy_slots body lm dm logged ks2 out').
Proof.
  induction ks1 as [|k ks1 IH]; intros out body lm dm; [done|]. cbn [app copy_slots].
  destruct (get_slice (body + k * 8) _ _) as [key| |]; cbn [mbind res_bind]; [|done..].
  destruct (copy_at _ key out) as [out1| |]; cbn [mbind res_bind]; [|done..].
  destruct (get_slice (_ + k * 8) _ _) as [ptr| |]; cbn [mbind res_bind]; [|done..].
  destruct (copy_at _ ptr out1) as [out2| |]; cbn [mbind res_bind]; [|done..]. apply IH.
Qed.

Lemma copy_slots_spec out k : length out = capacity -> (k <= n)%nat ->
  copy_slots (header_len v5) (maxrecs (length logged - header_len v5)) (maxrecs (capacity - 4)) logged (seq 0 k) out =
  Ok (splice (4 + maxrecs (capacity - 4) * 8)
        (slice (header_len v5 + maxrecs (length logged - header_len v5) * 8) (k * 8) logged)
        (splice 4 (slice (header_len v5) (k * 8) logged) out)).
Proof.
  intros Ho. pose proof source_room as Hs. pose proof target_room as Ht.
  set (body := header_len v5) in *. set (lm := maxrecs (length logged - body)) in *. set (dm := maxrecs (capacity - 4)) in *.
  induction k as [|k IH]; intros Hk.
  - change (slice ?o (0 * 8) logged) with (@nil byte). by rewrite !splice_nil.
  - rewrite seq_S, copy_slots_app, IH by lia. cbn [mbind res_bind copy_slots Nat.add].
    rewrite !get_slice_Ok by lia. cbn [mbind res_bind]. unfold ROOT_HEADER_LEN.
    assert (L1 : length (slice body (k * 8) logged) = (k * 8)%nat) by (apply length_slice; lia).
    assert (L2 : length (slice (body + lm * 8) (k * 8) logged) = (k * 8)%nat) by (apply length_slice; lia).
    assert (L3 : length (slice (body + k * 8) 8 logged) = 8%nat) by (apply length_slice; lia).
    assert (L4 : length (slice (body + lm * 8 + k * 8) 8 logged) = 8%nat) by (apply length_slice; lia).
    rewrite copy_at_Ok by size_lia. cbn [mbind res_bind].
    rewrite copy_at_Ok by size_lia. cbn [mbind res_bind]. f_equal.
    replace (S k * 8)%nat with (k * 8 + 8)%nat by lia. rewrite !slice_app_split.
    rewrite (splice_comm (4 + k * 8)) by size_lia.
    rewrite splice_splice_adjacent by size_lia. f_equal.
    by rewrite splice_splice_adjacent by size_lia.
Qed.

Lemma logged_root_to_disk_built : logged_root_to_disk logged v5 capacity = Ok (disk_root logged v5 capacity).
Proof.
  unfold logged_root_to_disk. pose proof (header_len_bounds v5). change ROOT_HEADER_LEN with 4%nat.
  rewrite (proj2 (Nat.ltb_ge _ _) Hlen), (proj2 (Nat.ltb_ge _ _) Hcap). cbn [orb fail_if mbind res_bind].
  rewrite !get_slice_Ok, be16_Ok by lia. cbn [mbind res_bind]. change (rd 2 6 logged) with (rd 2 bm.NUMRECS logged). fold n.
  rewrite (proj2 (Nat.ltb_ge _ _) Hsrc), (proj2 (Nat.ltb_ge _ _) Hdst). cbn [orb fail_if mbind res_bind].
  rewrite copy_at_Ok by size_lia. cbn [mbind res_bind].
  rewrite copy_at_Ok by size_lia. cbn [mbind res_bind].
  rewrite copy_slots_spec by (done || size_lia).
  done.
Qed.

Lemma inode_root_from_log_built :
  v5 = is_v5 sb -> rd 4 bm.MAGIC logged = magic_of sb -> 1 <= rd 2 bm.LEVEL logged <= MAX_LEVELS -> rd 2 bm.NUMRECS logged <> 0 ->
  inode_root_from_log logged sb capacity = Ok (disk_root logged v5 capacity).
Proof.
  intros E5 Hm Hl Hn. unfold inode_root_from_log. rewrite <- E5. pose proof (header_len_bounds v5). pose proof source_room. pose proof target_room. change ROOT_HEADER_LEN with 4%nat.
  rewrite (proj2 (Nat.ltb_ge _ _) Hlen), (proj2 (Nat.ltb_ge _ _) Hcap). cbn [orb fail_if mbind res_bind].
  rewrite !be16_Ok, be32_Ok by bm_lia. cbn [mbind res_bind]. fold n.
  rewrite Hm, Z.eqb_refl, (proj2 (Z.eqb_neq _ _)), (proj2 (Z.ltb_ge _ _)), (proj2 (Z.eqb_neq _ _) Hn), (proj2 (Nat.ltb_ge _ _) Hsrc),
    (proj2 (Nat.ltb_ge _ _) Hdst) by lia. cbn [negb orb fail_if mbind res_bind].
  unfold rd at 1 2. rewrite !to_from_be_bytes' by (apply length_slice; bm_lia).
  unfold KEY_LEN, PTR_LEN, ROOT_HEADER_LEN. rewrite !get_slice_Ok by lia. cbn [mbind res_bind].
  unfold bm.LEVEL, bm.NUMRECS. repeat (rewrite copy_at_Ok by size_lia; cbn [mbind res_bind]).
  done.
Qed.

Lemma disk_root_reads :
  length (disk_root logged v5 capacity) = capacity /\
  slice 0 2 (disk_root logged v5 capacity) = slice bm.LEVEL 2 logged /\
  slice 2 2 (disk_root logged v5 capacity) = slice bm.NUMRECS 2 logged /\
  fork_keys (disk_root logged v5 capacity) = slice (header_len v5) (n * 8) logged /\
  fork_ptrs (disk_root logged v5 capacity) =
    slice (header_len v5 + maxrecs (length logged - header_len v5) * 8) (n * 8) logged.
Proof.
  pose proof source_room as Hs. pose proof target_room as Ht. pose proof (header_len_bounds v5) as Hh.
  assert (Hl : length (disk_root logged v5 capacity) = capacity).
  { unfold disk_root. fold n. unfold bm.LEVEL, bm.NUMRECS. size_lia. }
  assert (H2 : slice 2 2 (disk_root logged v5 capacity) = slice bm.NUMRECS 2 logged).
  { unfold disk_root. fold n. unfold bm.LEVEL, bm.NUMRECS.
    rewrite !slice_splice_disjoint by size_lia. apply slice_splice_same; size_lia. }
  assert (Hn : Z.to_nat (rd 2 2 (disk_root logged v5 capacity)) = n) by (unfold n, rd; by rewrite H2).
  unfold fork_keys, fork_ptrs. rewrite Hl, Hn. split; [done|]. split; [|split; [done|]];
    unfold disk_root; fold n; unfold bm.LEVEL, bm.NUMRECS.
  - rewrite !slice_splice_disjoint by size_lia. apply slice_splice_same; size_lia.
  - split; [rewrite slice_splice_disjoint by size_lia|]; apply slice_splice_same; size_lia.
Qed.
End from_log.

Lemma logged_root_to_disk_spec logged v5 capacity :
  logged_root_to_disk logged v5 capacity <> Panic /\
  forall fork, logged_root_to_disk logged v5 capacity = Ok fork <->
    (header_len v5 <= length logged)%nat /\ (4 <= capacity)%nat /\
    (Z.to_nat (rd 2 bm.NUMRECS logged) <= maxrecs (length logged - header_len v5))%nat /\
    (Z.to_nat (rd 2 bm.NUMRECS logged) <= maxrecs (capacity - 4))%nat /\ fork = disk_root logged v5 capacity.
Proof.
  destruct (decide ((header_len v5 <= length logged)%nat /\ (4 <= capacity)%nat)) as [[Hl Hc]|Hno].
  - destruct (decide ((Z.to_nat (rd 2 bm.NUMRECS logged) <= maxrecs (length logged - header_len v5))%nat /\
                      (Z.to_nat (rd 2 bm.NUMRECS logged) <= maxrecs (capacity - 4))%nat)) as [[Hs Hd]|Hno].
    + rewrite logged_root_to_disk_built by done. naive_solver.
    + unfold logged_root_to_disk. change ROOT_HEADER_LEN with 4%nat. pose proof (header_len_bounds v5).
      rewrite (proj2 (Nat.ltb_ge _ _) Hl), (proj2 (Nat.ltb_ge _ _) Hc). cbn [orb fail_if mbind res_bind].
      rewrite !get_slice_Ok, be16_Ok by lia. cbn [mbind res_bind]. change (rd 2 6 logged) with (rd 2 bm.NUMRECS logged).
      match goal with |- context [fail_if ?b ?e] => assert (fail_if b e = Err e) as -> end; [|naive_solver].
      apply fail_if_Err. split; [|done]. apply orb_true_iff. rewrite !Nat.ltb_lt. lia.
  - unfold logged_root_to_disk. change ROOT_HEADER_LEN with 4%nat.
    match goal with |- context [fail_if ?b ?e] => assert (fail_if b e = Err e) as -> end; [|naive_solver].
    apply fail_if_Err. split; [|done]. apply orb_true_iff. rewrite !Nat.ltb_lt. lia.
Qed.

(** The two routines that recover a logged root.  Neither panics on any
    bytes.  The log writer's is the inode recovery's without its checks of what
    the root says: it builds, slot by slot, the same fork from every root the
    other accepts, and accepts besides exactly the roots with a foreign magic, a
    level out of range, or no entries. *)
Theorem recovered_roots_agree (sb : Superblock) (logged : bytes) (capacity : nat) :
  logged_root_to_disk logged (is_v5 sb) capacity <> Panic /\
  inode_root_from_log logged sb capacity <> Panic /\
  forall fork, inode_root_from_log logged sb capacity = Ok fork <->
    logged_root_to_disk logged (is_v5 sb) capacity = Ok fork /\ rd 4 bm.MAGIC logged = magic_of sb /\
    1 <= rd 2 bm.LEVEL logged <= MAX_LEVELS /\ rd 2 bm.NUMRECS logged <> 0.
Proof.
  destruct (logged_root_to_disk_spec logged (is_v5 sb) capacity) as [Hnp Hd]. split; [done|].
  destruct (decide ((header_len (is_v5 sb) <= length logged)%nat /\ (4 <= capacity)%nat)) as [[Hl Hc]|Hno].
  - destruct (decide ((Z.to_nat (rd 2 bm.NUMRECS logged) <= maxrecs (length logged - header_len (is_v5 sb)))%nat /\
      (Z.to_nat (rd 2 bm.NUMRECS logged) <= maxrecs (capacity - 4))%nat /\ rd 4 bm.MAGIC logged = magic_of sb /\
      1 <= rd 2 bm.LEVEL logged <= MAX_LEVELS /\ rd 2 bm.NUMRECS logged <> 0)) as [(H1 & H2 & H3 & H4 & H5)|Hno].
    + rewrite (inode_root_from_log_built sb logged (is_v5 sb) capacity), (logged_root_to_disk_built logged (is_v5 sb) capacity) by done.
      naive_solver.
    + pose proof (rd_range_any 2 bm.LEVEL logged) as [Hlv _].
      assert (E : inode_root_from_log logged sb capacity = Err bad_root); [|rewrite E; split; [done|]; naive_solver].
      unfold inode_root_from_log. change ROOT_HEADER_LEN with 4%nat. pose proof (header_len_bounds (is_v5 sb)).
      rewrite (proj2 (Nat.ltb_ge _ _) Hl), (proj2 (Nat.ltb_ge _ _) Hc). cbn [orb fail_if mbind res_bind].
      rewrite !be16_Ok, be32_Ok by bm_lia. cbn [mbind res_bind].
      match goal with |- context [fail_if ?b ?e] => assert (fail_if b e = Err e) as ->; [|done] end.
      apply fail_if_Err. split; [|done].
      rewrite !orb_true_iff, negb_true_iff, Z.eqb_neq, Z.eqb_eq, Z.ltb_lt, Z.eqb_eq, !Nat.ltb_lt.
      destruct (decide (rd 4 bm.MAGIC logged = magic_of sb)); [|tauto]. bm_lia.
  - assert (E : inode_root_from_log logged sb capacity = Err bad_root); [|rewrite E; split; [done|]; naive_solver].
    unfold inode_root_from_log. change ROOT_HEADER_LEN with 4%nat.
    match goal with |- context [fail_if ?b ?e] => assert (fail_if b e = Err e) as ->; [|done] end.
    apply fail_if_Err. split; [|done]. apply orb_true_iff. rewrite !Nat.ltb_lt. lia.
Qed.

(** The walk sees a root's level and pointers, and nothing else of it. *)
Lemma walk_same_root `{Crc : Crc32c} sb ino read f f' nextents :
  parse_root f ino = Ok (root_of f) -> parse_root f' ino = Ok (root_of f') ->
  slice 0 2 f' = slice 0 2 f -> slice 2 2 f' = slice 2 2 f -> fork_ptrs f' = fork_ptrs f ->
  walk_with_blocks sb ino read f' nextents = walk_with_blocks sb ino read f nextents.
Proof.
  intros Hf Hf' H0 H2 Hp. pose proof (proj1 (proj2 (parse_root_spec ino f) _) Hf) as (Hl & _ & Hn & _).
  pose proof (proj1 (proj2 (parse_root_spec ino f') _) Hf') as (Hl' & _ & Hn' & _).
  pose proof (root_room f _ Hl Hn) as Hr. pose proof (root_room f' _ Hl' Hn') as Hr'.
  unfold walk_with_blocks. rewrite Hf, Hf'. cbn [mbind res_bind]. rewrite !pointers_spec by done.
  assert (E0 : rd 2 0 f' = rd 2 0 f) by (unfold rd; by rewrite H0). assert (E2 : rd 2 2 f' = rd 2 2 f) by (unfold rd; by rewrite H2).
  assert (Hps : forall g, (4 + maxrecs (length g - 4) * 8 + Z.to_nat (rd 2 2 g) * 8 <= length g)%nat ->
    pointers_of g 4 (maxrecs (length g - 4)) (Z.to_nat (rd 2 2 g)) =
    (fun i => from_be_bytes (slice (i * 8) 8 (fork_ptrs g))) <$> seq 0 (Z.to_nat (rd 2 2 g))).
  { intros g Hg. apply list_fmap_ext. intros i x [-> Hi]%lookup_seq. unfold rd, fork_ptrs. cbn [Nat.add]. rewrite slice_slice by lia. done. }
  change (n_numrecs (root_of ?g)) with (rd 2 2 g). change (n_level (root_of ?g)) with (rd 2 0 g).
  change (n_body (root_of ?g)) with 4%nat. change (n_maxrecs (root_of ?g)) with (maxrecs (length g - 4)).
  rewrite !Hps by done. by rewrite E0, E2, Hp.
Qed.

(** A root survives the log.  Logged in its long form and recovered into a
    fork of any size with room for its entries, by either routine, it has the
    same level, count, keys and pointers, and the walk of the map, whatever the
    blocks hold, returns the same extents and blocks. *)
Theorem bmbt_root_logged `{Crc : Crc32c} (sb : Superblock) (ino : Z) (fork : bytes) (node : Node) (capacity : nat) :
  sb_typed sb -> parse_root fork ino = Ok node -> n_numrecs node <> 0 ->
  (Z.to_nat (n_numrecs node) <= maxrecs (capacity - 4))%nat ->
  exists logged fork', inode_root_to_log fork sb ino = Ok logged /\
    inode_root_from_log logged sb capacity = Ok fork' /\ logged_root_to_disk logged (is_v5 sb) capacity = Ok fork' /\
    length fork' = capacity /\ fork_keys fork' = fork_keys fork /\ fork_ptrs fork' = fork_ptrs fork /\
    exists node', parse_root fork' ino = Ok node' /\ n_level node' = n_level node /\ n_numrecs node' = n_numrecs node /\
      forall read nextents, walk_with_blocks sb ino read fork' nextents = walk_with_blocks sb ino read fork nextents.
Proof.
  intros Hty Hp Hne Hroom. destruct (proj1 (proj2 (parse_root_spec ino fork) _) Hp) as (Hl & Hlv & Hn & ->).
  destruct (inode_root_to_log_spec sb ino fork _ ltac:(apply Hty) Hp) as (logged & E & El & Hm & H0 & H2 & Hk & Hq).
  change (n_numrecs (root_of fork)) with (rd 2 2 fork) in *. change (n_level (root_of fork)) with (rd 2 0 fork) in *.
  change (rd 2 root_offsets.LEVEL fork) with (rd 2 0 fork) in Hlv. change (rd 2 root_offsets.NUMRECS fork) with (rd 2 2 fork) in Hn.
  assert (EN : rd 2 bm.NUMRECS logged = rd 2 2 fork) by (unfold rd; by rewrite H2).
  assert (EL : rd 2 bm.LEVEL logged = rd 2 0 fork) by (unfold rd; by rewrite H0).
  set (n := Z.to_nat (rd 2 2 fork)) in *. pose proof (rd_range_any 2 2 fork) as [Hge _].
  assert (Hsrc : (length logged - header_len (is_v5 sb) = n * 16)%nat) by lia.
  assert (Hc : (4 <= capacity)%nat).
  { destruct (decide (4 <= capacity)%nat); [done|]. replace (capacity - 4)%nat with 0%nat in Hroom by lia. change (maxrecs 0) with 0%nat in Hroom. lia. }
  destruct (disk_root_reads logged (is_v5 sb) capacity) as (F1 & F2 & F3 & F4 & F5);
    [lia|done|rewrite EN, Hsrc, maxrecs_exact; done|by rewrite EN|].
  exists logged, (disk_root logged (is_v5 sb) capacity). rewrite EN in F4, F5. rewrite Hsrc, maxrecs_exact in F5. fold n in F4, F5.
  split; [done|]. rewrite (inode_root_from_log_built sb logged (is_v5 sb)), (logged_root_to_disk_built logged (is_v5 sb))
    by (lia || (rewrite ?EN, ?EL, ?Hsrc, ?maxrecs_exact; done || lia)).
  split_and!; try done; try congruence. exists (root_of (disk_root logged (is_v5 sb) capacity)).
  assert (E0 : rd 2 0 (disk_root logged (is_v5 sb) capacity) = rd 2 0 fork) by (unfold rd; by rewrite F2, H0).
  assert (E2 : rd 2 2 (disk_root logged (is_v5 sb) capacity) = rd 2 2 fork) by (unfold rd; by rewrite F3, H2).
  assert (Hp' : parse_root (disk_root logged (is_v5 sb) capacity) ino = Ok (root_of (disk_root logged (is_v5 sb) capacity))).
  { apply parse_root_spec. change root_offsets.LEVEL with 0%nat. change root_offsets.NUMRECS with 2%nat.
    rewrite E0, E2, F1. destruct Hlv. by split_and!. }
  split_and!; try done. intros read nextents. apply walk_same_root; congruence || done.
Qed.

(** The block map's walk.  It never panics and ends, whatever is on the
    disk.  It returns extents and blocks exactly when the fork is the root of a
    tree on the disk, each level one below its parent, whose leaves hold those
    extents in order and whose blocks are those, parents before children, with
    as many extents as the inode records and no more blocks than the budget;
    every block of such a tree was vouched for by its checksum, its file, its
    filesystem and its own address, and every extent has its fields in range. *)
Theorem bmbt_walk_exact `{Crc : Crc32c} (sb : Superblock) (ino : Z) (read_fsblock : Z -> res bytes) (fork : bytes) (nextents : Z) :
  (forall b, read_fsblock b <> Panic) ->
  walk_with_blocks sb ino read_fsblock fork nextents <> Panic /\
  forall es bs, walk_with_blocks sb ino read_fsblock fork nextents = Ok (es, bs) <->
    exists ts, rooted sb ino read_fsblock fork ts /\ es = extents_of ts /\ bs = blocks_of ts /\ Z.of_nat (length es) = nextents /\
      Z.of_nat (length bs) <= walk_budget nextents /\
      Forall (fun b => exists buf, read_fsblock b = Ok buf /\ vouched sb ino buf b) bs /\ Forall extent_ok es.
Proof.
  intros Hr. split; [by apply bmbt_walk_total|]. intros es bs. rewrite walk_spec. split; intros (ts & Hrt & He & Hb & Hn).
  - exists ts. destruct (proj2 (on_disk_vouched sb ino read_fsblock) _ _ (proj2 (proj2 Hrt))) as [H1 H2]. subst. naive_solver.
  - exists ts. naive_solver.
Qed.

(** A well-formed map is read back.  A tree with no empty leaf and no branch
    of fewer than two, however deep, is within the walk's budget, and is
    returned whole. *)
Theorem bmbt_walk_reads `{Crc : Crc32c} (sb : Superblock) (ino : Z) (read_fsblock : Z -> res bytes) (fork : bytes) (ts : list tree) :
  rooted sb ino read_fsblock fork ts -> Forall bushy ts -> 2 * Z.of_nat (length (extents_of ts)) + 2 < 2 ^ 64 ->
  walk_with_blocks sb ino read_fsblock fork (Z.of_nat (length (extents_of ts))) = Ok (extents_of ts, blocks_of ts).
Proof.
  intros Hrt Hb Hlt. apply walk_spec. exists ts. split_and!; try done.
  pose proof (proj2 (bushy_small sb ino read_fsblock) _ _ (proj2 (proj2 Hrt)) Hb).
  unfold walk_budget, saturating_mul, saturating_add, umax. lia.
Qed.

(** ** A map of the sample volume: two leaves under a root *)

Definition sample_leaf (fsblock : Z) (es : list Extent) : bytes :=
  let recs := match res_map to_bytes es with Ok bs => concat bs | _ => [] end in
  let buf := splice V5_HEADER_LEN recs
               (splice bm.UUID (sb_meta_uuid sample_sb)
                  (fold_left put_field
                     [F bm.MAGIC 4 XFS_BMAP_CRC_MAGIC; F bm.NUMRECS 2 (Z.of_nat (length es));
                      F bm.BLKNO 8 (blkno_of_fsbno sample_sb fsblock); F bm.OWNER 8 129]
                     (replicate 512 x00))) in
  splice bm.CRC (to_le_bytes 4 (zeroed_crc buf bm.CRC)) buf.

Definition sample_map : list tree :=
  [Leaf 200 [mkExtent 0 100 8 false; mkExtent 8 500 4 true]; Leaf 201 [mkExtent 40 300 1 false]].
Definition sample_map_read : Z -> res bytes := Eval vm_compute in
  let a := sample_leaf 200 [mkExtent 0 100 8 false; mkExtent 8 500 4 true] in
  let b := sample_leaf 201 [mkExtent 40 300 1 false] in
  fun n => if n =? 200 then Ok a else if n =? 201 then Ok b else Err (NotXfs 0).
Definition sample_fork : bytes := Eval vm_compute in
  fold_left put_field [F 0 2 1; F 2 2 2; F 4 8 0; F 12 8 40; F 36 8 200; F 44 8 201] (replicate 80 x00).

Lemma sample_leaf_on_disk b es :
  match sample_map_read b with
  | Ok buf => match parse_block sample_sb 129 buf b 0 with Ok node => records 129 buf node b = Ok es | _ => False end
  | _ => False
  end -> on_disk sample_sb 129 sample_map_read 0 (Leaf b es).
Proof.
  destruct (sample_map_read b) as [buf| |] eqn:E1; [|done..]. destruct (parse_block _ _ buf b 0) as [node| |] eqn:E2; [|done..].
  intros H. by eapply od_leaf.
Qed.

Lemma sample_rooted : rooted sample_sb 129 sample_map_read sample_fork sample_map.
Proof.
  split; [vm_compute; reflexivity|]. split; [vm_compute; reflexivity|].
  change (n_level (root_of sample_fork) - 1) with 0. unfold sample_map.
  repeat (constructor; [apply sample_leaf_on_disk; vm_compute; reflexivity|]). constructor.
Qed.

Lemma bmbt_walk_reads_witness :
  Forall bushy sample_map /\
  walk_with_blocks sample_sb 129 sample_map_read sample_fork 3 =
    Ok ([mkExtent 0 100 8 false; mkExtent 8 500 4 true; mkExtent 40 300 1 false], [200; 201]).
Proof.
  assert (Hb : Forall bushy sample_map) by (repeat constructor; done). split; [exact Hb|].
  apply (bmbt_walk_reads sample_sb 129 sample_map_read sample_fork sample_map); [apply sample_rooted|exact Hb|vm_compute; reflexivity].
Defined.

Lemma bmbt_walk_exact_witness :
  exists es bs, walk_with_blocks sample_sb 129 sample_map_read sample_fork 3 = Ok (es, bs) /\ length es = 3%nat /\ Forall extent_ok es.
Proof.
  destruct (bmbt_walk_exact sample_sb 129 sample_map_read sample_fork 3) as [_ H].
  { intros b. unfold sample_map_read. by repeat case_match. }
  destruct (walk_with_blocks _ _ _ _ _) as [[es bs]| |] eqn:E; [|vm_compute in E; congruence..].
  exists es, bs. split; [done|]. destruct (proj1 (H es bs) eq_refl) as (ts & _ & _ & _ & Hn & _ & _ & Ho). split; [lia|done].
Defined.

Lemma bmbt_root_logged_witness :
  exists logged fork', inode_root_to_log sample_fork sample_sb 129 = Ok logged /\ length logged = 104%nat /\
    inode_root_from_log logged sample_sb 36 = Ok fork' /\ length fork' = 36%nat /\
    forall read, walk_with_blocks sample_sb 129 read fork' 3 = walk_with_blocks sample_sb 129 read sample_fork 3.
Proof.
  destruct (bmbt_root_logged sample_sb 129 sample_fork (root_of sample_fork) 36 sample_typed)
    as (logged & fork' & E & E' & _ & Hl & _ & _ & _ & _ & _ & _ & Hw); [vm_compute; reflexivity|vm_compute; discriminate|vm_compute; lia|].
  exists logged, fork'. split; [done|]. split; [vm_compute in E; injection E as <-; reflexivity|]. split; [done|]. split; [done|].
  intros read. apply Hw.
Defined.
