(* ===== verification/AgBtree.v ===== *)
(** * The group B+trees ([src/src/ag_btree.rs])

    One walker and one builder serve the free-space, reverse-mapping and
    reference-count trees.  [walk_blocks] descends a tree, checking that every
    block is the one that was asked for; [build] lays a list of records out as
    a whole new tree.  The headline theorem is that walking what [build] laid
    out returns the records it was given, in order, and the blocks it used,
    leaves first.

    A tree supplies its record format as an instance of [RecordCodec]; the
    theorems are proved against [RecordCodecLaws], which the instances of the
    other files discharge. *)

From Stdlib Require Import ZArith Lia Strings.String.
From stdpp Require Import base list strings sets.
From S2P Require Import Prelude Error Endian Crc32c Superblock FreeSpace.

Definition V4_HEADER_LEN : nat := 16.
Definition V5_HEADER_LEN : nat := 56.
Definition PTR_LEN : nat := 4.
Definition MAX_LEVELS : nat := 9.

Module offsets.
Definition MAGIC : nat := 0.
Definition LEVEL : nat := 4.
Definition NUMRECS : nat := 6.
Definition BLKNO : nat := 16.
Definition UUID : nat := 32.
Definition OWNER : nat := 48.
Definition CRC : nat := 52.
End offsets.

Record Shape := mkShape {
  shape_name : string;
  magic_v4 : option Z;
  magic_v5 : Z;
  record_len : nat;
  key_len : nat;
  overlapping : bool;
}.

Definition keys_per_entry (s : Shape) : nat := if overlapping s then 2 else 1.

Record Node := mkNode {
  node_level : Z;
  node_numrecs : Z;
  node_body : nat;
  node_maxrecs : nat;
}.

Definition maxrecs (space per : nat) : nat := (space / Nat.max per 1)%nat.

Definition btree_header (v5 : bool) : nat := if v5 then V5_HEADER_LEN else V4_HEADER_LEN.

Definition unsupported (template : string) (args : list arg) : Error :=
  UnsupportedFeature (fmt template args).

Section blocks.
Context `{Crc : Crc32c}.

Definition parse_block (buf : bytes) (sb : Superblock) (shape : Shape)
    (agno agblock expect_level : Z) : res Node :=
  let header := btree_header (is_v5 sb) in
  let what := AS (shape_name shape) in
  fail_if (length buf <? header)%nat
    (bad "AG {}: {} block {} is {} bytes, shorter than its {}-byte header"
      [AZ agno; what; AZ agblock; AZ (Z.of_nat (length buf)); AZ (Z.of_nat header)]);;
  want ← (if is_v5 sb then Ok (magic_v5 shape)
          else ok_or (magic_v4 shape)
                 (unsupported "AG {}: a {} is a v5 feature and this filesystem is v4"
                    [AZ agno; what]));
  magic ← be32 buf offsets.MAGIC;
  fail_if (negb (magic =? want))
    (bad "AG {}: {} block {} has magic {}, expected {}"
      [AZ agno; what; AZ agblock; AZ magic; AZ want]);;
  (if is_v5 sb then
     stored ← le32 buf offsets.CRC;
     computed ← crc32c_with_zeroed_crc buf offsets.CRC;
     fail_if (negb (stored =? computed)) (ChecksumMismatch "group btree block" agblock);;
     uuid ← uuid_at buf offsets.UUID;
     fail_if (negb (bool_decide (uuid = sb_meta_uuid sb)))
       (BlockIdentityMismatch "group btree block" agblock (umax 64));;
     owner ← be32 buf offsets.OWNER;
     fail_if (negb (owner =? agno))
       (BlockIdentityMismatch "group btree block owner" agno owner);;
     stated ← be64 buf offsets.BLKNO;
     let expected := expected_blkno sb agno agblock in
     fail_if (negb (stated =? expected))
       (BlockIdentityMismatch "group btree block address" expected stated)
   else Ok tt);;
  level ← be16 buf offsets.LEVEL;
  fail_if (negb (level =? expect_level))
    (bad "AG {}: {} block {} is at level {}, but its parent points to it as level {}"
      [AZ agno; what; AZ agblock; AZ level; AZ expect_level]);;
  let space := (length buf - header)%nat in
  let per := if level =? 0 then record_len shape
             else (keys_per_entry shape * key_len shape + PTR_LEN)%nat in
  let max := maxrecs space per in
  numrecs ← be16 buf offsets.NUMRECS;
  fail_if (max <? Z.to_nat numrecs)%nat
    (bad "AG {}: {} block {} claims {} records but has room for {}"
      [AZ agno; what; AZ agblock; AZ numrecs; AZ (Z.of_nat max)]);;
  Ok (mkNode level numrecs header max).

(** The header of a block laid out from nothing, and its checksum. *)
Definition stamp (buf : bytes) (sb : Superblock) (shape : Shape)
    (agno agblock level numrecs : Z) : res bytes :=
  let magic := if is_v5 sb then magic_v5 shape else default (magic_v5 shape) (magic_v4 shape) in
  buf ← copy_at offsets.MAGIC (to_be_bytes 4 magic) buf;
  buf ← copy_at offsets.LEVEL (to_be_bytes 2 level) buf;
  buf ← copy_at offsets.NUMRECS (to_be_bytes 2 numrecs) buf;
  buf ← copy_at 8 (to_be_bytes 4 (umax 32)) buf;
  buf ← copy_at 12 (to_be_bytes 4 (umax 32)) buf;
  if negb (is_v5 sb) then Ok buf else
  let blkno := expected_blkno sb agno agblock in
  buf ← copy_at offsets.BLKNO (to_be_bytes 8 blkno) buf;
  buf ← copy_at offsets.UUID (sb_meta_uuid sb) buf;
  buf ← copy_at offsets.OWNER (to_be_bytes 4 agno) buf;
  crc ← crc32c_with_zeroed_crc buf offsets.CRC;
  copy_at offsets.CRC (to_le_bytes 4 crc) buf.
End blocks.

(** ** How a tree is shaped *)

(** [usize] subtraction, which wraps in a release build. *)
Definition usize_sub (a b : nat) : nat := Z.to_nat (wsub 64 (Z.of_nat a) (Z.of_nat b)).

Definition too_deep (shape : Shape) (records : nat) : Error :=
  unsupported "{} {} records need a tree more than {} levels deep"
    [AZ (Z.of_nat records); AS (shape_name shape); AZ (Z.of_nat MAX_LEVELS)].

(** The loop that adds levels until one block is left.  It stops with an error
    when the tenth level is added, so [MAX_LEVELS] is fuel enough. *)
Fixpoint plan_loop (fuel per_node : nat) (e : Error) (levels : list nat) (below : nat)
    : res (list nat) :=
  if (1 <? below)%nat then
    match fuel with
    | O => Panic
    | S fuel =>
        let next := div_ceil below per_node in
        let levels := levels ++ [next] in
        fail_if (MAX_LEVELS <? length levels)%nat e;;
        plan_loop fuel per_node e levels next
    end
  else Ok levels.

Definition plan (shape : Shape) (blocksize : Z) (v5 : bool) (records : nat) : res (list nat) :=
  let header := btree_header v5 in
  let space := usize_sub (Z.to_nat blocksize) header in
  let per_leaf := maxrecs space (record_len shape) in
  let per_node := maxrecs space (keys_per_entry shape * key_len shape + PTR_LEN) in
  fail_if ((per_leaf =? 0)%nat || (per_node <? 2)%nat)
    (unsupported "a {} block of {} bytes holds {} records and {} pointers, which cannot make a tree"
       [AS (shape_name shape); AZ blocksize; AZ (Z.of_nat per_leaf); AZ (Z.of_nat per_node)]);;
  let first := Nat.max (div_ceil records per_leaf) 1 in
  plan_loop MAX_LEVELS per_node (too_deep shape records) [first] first.

Definition share (entries blocks : nat) : list nat :=
  if (blocks =? 0)%nat then [] else
  let each := (entries / blocks)%nat in
  let extra := (entries mod blocks)%nat in
  (fun i => (each + if (i <? extra)%nat then 1 else 0)%nat) <$> seq 0 blocks.

(** ** Record formats *)

(** What one tree supplies: how a record is written and read, and the keys
    that stand for the records below one child. *)
Class RecordCodec (T : Type) := {
  rc_shape : Shape;
  rc_encode : bytes -> nat -> T -> res bytes;
  rc_decode : bytes -> nat -> res T;
  rc_keys : bytes -> nat -> list T -> res bytes;
}.
Arguments rc_shape T {_}.

(** What the builder and the walker rely on: an encoder that writes
    [record_len] bytes in place, a decoder that reads them back, and keys that
    stay in the room a node has for them. *)
Class RecordCodecLaws (T : Type) {codec : RecordCodec T} (good : T -> Prop) := {
  rc_bytes : T -> bytes;
  rc_bytes_length r : length (rc_bytes r) = record_len (rc_shape T);
  rc_encode_spec buf pos r :
    (pos + record_len (rc_shape T) <= length buf)%nat ->
    rc_encode buf pos r = Ok (splice pos (rc_bytes r) buf);
  rc_decode_spec buf pos r :
    good r -> (pos + record_len (rc_shape T) <= length buf)%nat ->
    slice pos (record_len (rc_shape T)) buf = rc_bytes r -> rc_decode buf pos = Ok r;
  rc_keys_spec buf pos rs :
    rs <> [] ->
    (pos + keys_per_entry (rc_shape T) * key_len (rc_shape T) <= length buf)%nat ->
    exists bs, length bs = (keys_per_entry (rc_shape T) * key_len (rc_shape T))%nat /\
      rc_keys buf pos rs = Ok (splice pos bs buf);
  rc_record_len : (0 < record_len (rc_shape T))%nat;
  rc_encode_length buf pos r buf' : rc_encode buf pos r = Ok buf' -> length buf' = length buf;
  rc_keys_length buf pos rs buf' : rc_keys buf pos rs = Ok buf' -> length buf' = length buf;
}.

(** ** Walking a tree *)

Section walk.
Context `{Crc : Crc32c} {T : Type}.
Context (sb : Superblock) (shape : Shape) (agno : Z).
Context (read_agblock : Z -> res bytes) (decode : bytes -> nat -> res T).

Definition leaf_records (buf : bytes) (node : Node) : res (list T) :=
  res_map (fun i => decode buf (node_body node + i * record_len shape)%nat)
    (seq 0 (Z.to_nat (node_numrecs node))).

Definition child_pointers (buf : bytes) (first : nat) (node : Node) : res (list (Z * Z)) :=
  res_map (fun i =>
      p ← be32 buf (first + i * PTR_LEN)%nat; Ok (p, wsub 16 (node_level node) 1))
    (seq 0 (Z.to_nat (node_numrecs node))).

(** The stack has its top at the head; pushing the children in reverse puts
    the leftmost on top.  Every visit costs one of the budget, which is the
    recursion's measure. *)
Fixpoint walk_loop (budget : nat) (stack : list (Z * Z)) (out : list T)
    (seen : list (list Z)) : res (list T * list Z) :=
  match stack with
  | [] => Ok (out, concat seen)
  | (agblock, expect_level) :: stack =>
      match budget with
      | O => Err (bad "AG {}: the walk visited more blocks than the group holds; the tree points back into itself" [AZ agno])
      | S budget =>
          buf ← read_agblock agblock;
          node ← parse_block buf sb shape agno agblock expect_level;
          old ← expect (seen !! Z.to_nat (node_level node));
          let seen := <[Z.to_nat (node_level node) := old ++ [agblock]]> seen in
          if node_level node =? 0 then
            let end_ := (node_body node + Z.to_nat (node_numrecs node) * record_len shape)%nat in
            fail_if (length buf <? end_)%nat
              (bad "AG {}: {} leaf {} needs {} bytes for its {} records but is only {} long"
                [AZ agno; AS (shape_name shape); AZ agblock; AZ (Z.of_nat end_);
                 AZ (node_numrecs node); AZ (Z.of_nat (length buf))]);;
            records ← leaf_records buf node;
            walk_loop budget stack (out ++ records) seen
          else
            let first := (node_body node +
              node_maxrecs node * keys_per_entry shape * key_len shape)%nat in
            let end_ := (first + Z.to_nat (node_numrecs node) * PTR_LEN)%nat in
            fail_if (length buf <? end_)%nat
              (bad "AG {}: {} node {} needs {} bytes for its pointer array but is only {} long"
                [AZ agno; AS (shape_name shape); AZ agblock; AZ (Z.of_nat end_);
                 AZ (Z.of_nat (length buf))]);;
            children ← child_pointers buf first node;
            walk_loop budget (children ++ stack) out seen
      end
  end.

Definition walk_blocks (root levels : Z) : res (list T * list Z) :=
  fail_if ((levels =? 0) || (Z.of_nat MAX_LEVELS <? levels))
    (bad "AG {}: {} claims {} levels, which is not a tree"
      [AZ agno; AS (shape_name shape); AZ levels]);;
  walk_loop (Z.to_nat (Z.max (sb_agblocks sb) 64)) [(root, wrap 16 (levels - 1))] []
    (replicate (Z.to_nat levels) []).

Definition walk (root levels : Z) : res (list T) := fst <$> walk_blocks root levels.
End walk.

(** ** Laying a tree out *)

Record Built := mkBuilt {
  built_agblock : Z;
  built_bytes : bytes;
}.

Section build.
Context `{Crc : Crc32c} {T : Type} (sb : Superblock) (shape : Shape) (agno : Z).
Context (encode_record : bytes -> nat -> T -> res bytes).
Context (write_keys : bytes -> nat -> list T -> res bytes).
Context (records : list T) (blocks : list Z).

Let header : nat := btree_header (is_v5 sb).
Let space : nat := usize_sub (Z.to_nat (sb_blocksize sb)) header.
Let per_node : nat := maxrecs space (keys_per_entry shape * key_len shape + PTR_LEN).
Let keys_wide : nat := (keys_per_entry shape * key_len shape)%nat.
Let blank : bytes := replicate (Z.to_nat (sb_blocksize sb)) Byte.x00.

Fixpoint encode_records (buf : bytes) (j : nat) (rs : list T) : res bytes :=
  match rs with
  | [] => Ok buf
  | r :: rs =>
      buf ← encode_record buf (header + j * record_len shape)%nat r;
      encode_records buf (S j) rs
  end.

Definition build_leaf (agblock : Z) (taken count : nat) : res Built :=
  rs ← get_slice taken count records;
  buf ← encode_records blank 0 rs;
  buf ← stamp buf sb shape agno agblock 0 (wrap 16 (Z.of_nat count));
  Ok (mkBuilt agblock buf).

Fixpoint build_leaves (i taken : nat) (counts : list nat) : res (list Built * nat) :=
  match counts with
  | [] => Ok ([], taken)
  | count :: counts =>
      agblock ← expect (blocks !! i);
      leaf ← build_leaf agblock taken count;
      rest ← build_leaves (S i) (taken + count)%nat counts;
      Ok (leaf :: rest.1, rest.2)
  end.

(** The part of [records] below each leaf. *)
Fixpoint leaf_spans (running : nat) (counts : list nat) : list (nat * nat) :=
  match counts with
  | [] => []
  | count :: counts => (running, (running + count)%nat) :: leaf_spans (running + count)%nat counts
  end.

(** Keys and pointers of the children [taken + j ..] of one node. *)
Fixpoint node_entries (below_span : list (nat * nat)) (below_blocks : list Z)
    (taken j count : nat) (buf : bytes) : res bytes :=
  match count with
  | O => Ok buf
  | S count =>
      let child := (taken + j)%nat in
      span ← expect (below_span !! child);
      rs ← get_slice span.1 (span.2 - span.1) records;
      buf ← write_keys buf (header + j * keys_wide)%nat rs;
      below ← expect (below_blocks !! child);
      buf ← copy_at (header + per_node * keys_wide + j * PTR_LEN)%nat (to_be_bytes 4 below) buf;
      node_entries below_span below_blocks taken (S j) count buf
  end.

Definition build_node (up : nat) (below_span : list (nat * nat)) (below_blocks : list Z)
    (agblock : Z) (taken count : nat) : res Built :=
  buf ← node_entries below_span below_blocks taken 0 count blank;
  buf ← stamp buf sb shape agno agblock (wrap 16 (Z.of_nat up)) (wrap 16 (Z.of_nat count));
  Ok (mkBuilt agblock buf).

Fixpoint build_nodes (up : nat) (below_span : list (nat * nat)) (below_blocks : list Z)
    (i taken : nat) (counts : list nat)
    : res (list Built * list (nat * nat) * list Z * nat) :=
  match counts with
  | [] => Ok ([], [], [], taken)
  | count :: counts =>
      agblock ← expect (blocks !! i);
      node ← build_node up below_span below_blocks agblock taken count;
      lo ← expect (below_span !! taken);
      hi ← expect (below_span !! usize_sub (taken + count) 1);
      rest ← build_nodes up below_span below_blocks (S i) (taken + count)%nat counts;
      let '(out, spans, bs, taken) := rest in
      Ok (node :: out, (lo.1, hi.2) :: spans, agblock :: bs, taken)
  end.

Fixpoint build_levels (up : nat) (levels : list nat) (pos : nat)
    (below_span : list (nat * nat)) (below_blocks : list Z) : res (list Built) :=
  match levels with
  | [] => Ok []
  | count_of_blocks :: levels =>
      level ← build_nodes up below_span below_blocks pos 0
                (share (length below_blocks) count_of_blocks);
      let '(out, this_span, this_blocks, taken) := level in
      fail_if (negb (taken =? length below_blocks)%nat)
        (Internal (fmt "the node layout consumed {} of {} child blocks"
           [AZ (Z.of_nat taken); AZ (Z.of_nat (length below_blocks))]));;
      rest ← build_levels (S up) levels (pos + count_of_blocks)%nat this_span this_blocks;
      Ok (out ++ rest)
  end.

Definition build : res (list Built) :=
  levels ← plan shape (sb_blocksize sb) (is_v5 sb) (length records);
  let wanted := sum_list levels in
  fail_if (negb (length blocks =? wanted)%nat)
    (unsupported "laying out {} {} records needs {} blocks and {} were given"
       [AZ (Z.of_nat (length records)); AS (shape_name shape); AZ (Z.of_nat wanted);
        AZ (Z.of_nat (length blocks))]);;
  first ← expect (head levels);
  let counts := share (length records) first in
  leaves ← build_leaves 0 0 counts;
  fail_if (negb (leaves.2 =? length records)%nat)
    (Internal (fmt "the leaf layout consumed {} of {} records; the tree on disk would claim a size it does not have"
       [AZ (Z.of_nat leaves.2); AZ (Z.of_nat (length records))]));;
  below ← get_slice 0 first blocks;
  nodes ← build_levels 1 (tail levels) first (leaf_spans 0 counts) below;
  Ok (leaves.1 ++ nodes).
End build.

(** ** Sharing entries out *)

Section share.
Context (entries blocks : nat) (Hb : (0 < blocks)%nat).

Lemma share_elem c :
  c ∈ share entries blocks -> (entries / blocks <= c <= entries / blocks + 1)%nat.
Proof.
  unfold share. rewrite (proj2 (Nat.eqb_neq _ _)) by lia.
  intros (i & -> & _)%list_elem_of_fmap. case_match; lia.
Qed.

Lemma length_share : length (share entries blocks) = blocks.
Proof. unfold share. rewrite (proj2 (Nat.eqb_neq _ _)), length_fmap, length_seq by lia. done. Qed.

Lemma sum_list_shares each extra n :
  (extra <= n)%nat ->
  sum_list ((fun i => (each + if (i <? extra)%nat then 1 else 0)%nat) <$> seq 0 n) =
  (n * each + extra)%nat.
Proof.
  intros H. assert (forall k, (k <= n)%nat ->
    sum_list ((fun i => (each + if (i <? extra)%nat then 1 else 0)%nat) <$> seq 0 k) =
    (k * each + Nat.min k extra)%nat) as Hk.
  { induction k as [|k IH]; intros Hk; [done|].
    rewrite seq_S, fmap_app, sum_list_with_app, IH by lia. cbn [fmap list_fmap sum_list_with].
    destruct (Nat.ltb_spec (0 + k) extra); unfold id; lia. }
  rewrite Hk by done. rewrite Nat.min_r by done. done.
Qed.

Lemma sum_share : sum_list (share entries blocks) = entries.
Proof.
  unfold share. rewrite (proj2 (Nat.eqb_neq _ _)) by lia.
  pose proof (Nat.mod_upper_bound entries blocks ltac:(lia)).
  rewrite sum_list_shares by lia. symmetry. apply Nat.div_mod_eq.
Qed.

Lemma share_pos c : (blocks <= entries)%nat -> c ∈ share entries blocks -> (0 < c)%nat.
Proof.
  intros H ?%share_elem. assert (0 < entries / blocks)%nat by (by apply Nat.div_str_pos).
  lia.
Qed.

Lemma share_le m c :
  (entries <= blocks * m)%nat -> c ∈ share entries blocks -> (c <= m)%nat.
Proof.
  unfold share. rewrite (proj2 (Nat.eqb_neq _ _)) by lia.
  intros H (i & -> & Hi)%list_elem_of_fmap.
  pose proof (Nat.div_mod_eq entries blocks).
  destruct (Nat.ltb_spec i (entries mod blocks)); nia.
Qed.

(** Blocks needed for more than [(blocks - 1) * m] entries are half full. *)
Lemma share_half m c :
  (1 < blocks)%nat -> ((blocks - 1) * m < entries)%nat ->
  c ∈ share entries blocks -> (m / 2 <= c)%nat.
Proof.
  intros H1 He ?%share_elem. transitivity (entries / blocks)%nat; [|lia].
  apply Nat.div_le_lower_bound; [lia|].
  pose proof (Nat.div_mod_eq m 2). pose proof (Nat.mod_upper_bound m 2). nia.
Qed.
End share.

Lemma div_ceil_spec a b : (0 < b)%nat -> (a <= div_ceil a b * b < a + b)%nat.
Proof.
  intros Hb. unfold div_ceil. pose proof (Nat.div_mod_eq (a + b - 1) b).
  pose proof (Nat.mod_upper_bound (a + b - 1) b). nia.
Qed.

Lemma div_ceil_lt a b : (1 < a)%nat -> (2 <= b)%nat -> (0 < div_ceil a b < a)%nat.
Proof. intros Ha Hb. pose proof (div_ceil_spec a b). nia. Qed.

(** ** The levels of a plan *)

(** [level_chain m n above]: the levels above one of [n] blocks, each with one
    block for up to [m] of the blocks below, up to a single root. *)
Inductive level_chain (m : nat) : nat -> list nat -> Prop :=
  | chain_root : level_chain m 1 []
  | chain_up n above :
      (1 < n)%nat -> level_chain m (div_ceil n m) above ->
      level_chain m n (div_ceil n m :: above).

Lemma plan_loop_spec m e fuel levels n :
  (2 <= m)%nat -> (0 < n)%nat ->
  (length levels <= MAX_LEVELS < length levels + fuel)%nat ->
  match plan_loop fuel m e levels n with
  | Ok l => exists above, l = levels ++ above /\ level_chain m n above /\
      (length l <= MAX_LEVELS)%nat
  | Err e' => e' = e
  | Panic => False
  end.
Proof.
  intros Hm. revert levels n. induction fuel as [|fuel IH]; intros levels n Hn Hf;
    cbn [plan_loop]; destruct (Nat.ltb_spec 1 n) as [H1|H1]; try lia;
    try (assert (n = 1%nat) as -> by lia; exists []; rewrite app_nil_r;
         split_and!; [done|constructor|lia]).
  destruct (Nat.ltb_spec MAX_LEVELS (length (levels ++ [div_ceil n m]))) as [Hd|Hd];
    cbn [fail_if mbind res_bind]; [done|].
  rewrite length_app in Hd. cbn [length] in Hd. pose proof (div_ceil_lt n m H1 Hm).
  specialize (IH (levels ++ [div_ceil n m]) (div_ceil n m) ltac:(lia)).
  rewrite length_app in IH. cbn [length] in IH. specialize (IH ltac:(lia)).
  destruct (plan_loop _ _ _ _ _) as [l|e'|]; [|done|done].
  destruct IH as (above & -> & Hc & Hl). exists (div_ceil n m :: above).
  rewrite <- app_assoc. split_and!; [done|by constructor|by rewrite <- app_assoc in Hl].
Qed.

(** The room of a block of this shape. *)
Definition per_leaf (sb : Superblock) (shape : Shape) : nat :=
  maxrecs (usize_sub (Z.to_nat (sb_blocksize sb)) (btree_header (is_v5 sb))) (record_len shape).
Definition per_node (sb : Superblock) (shape : Shape) : nat :=
  maxrecs (usize_sub (Z.to_nat (sb_blocksize sb)) (btree_header (is_v5 sb)))
    (keys_per_entry shape * key_len shape + PTR_LEN).

Lemma plan_spec sb shape n :
  match plan shape (sb_blocksize sb) (is_v5 sb) n with
  | Ok l => exists above,
      l = Nat.max (div_ceil n (per_leaf sb shape)) 1 :: above /\
      level_chain (per_node sb shape) (Nat.max (div_ceil n (per_leaf sb shape)) 1) above /\
      (length l <= MAX_LEVELS /\ 0 < per_leaf sb shape /\ 2 <= per_node sb shape)%nat
  | Err e => exists m, e = UnsupportedFeature m
  | Panic => False
  end.
Proof.
  unfold plan. fold (per_leaf sb shape) (per_node sb shape).
  destruct ((per_leaf sb shape =? 0)%nat || (per_node sb shape <? 2)%nat) eqn:E;
    cbn [fail_if mbind res_bind]; [by eexists|]. bool_prop.
  rename H into Hleaf, H0 into Hnode. set (first := Nat.max (div_ceil n (per_leaf sb shape)) 1).
  pose proof (plan_loop_spec (per_node sb shape) (too_deep shape n) MAX_LEVELS [first] first) as H.
  destruct (plan_loop _ _ _ _ _) as [l|e'|].
  - destruct H as (above & -> & Hc & Hl); [lia|subst first; lia|cbn; unfold MAX_LEVELS; lia|].
    exists above. split_and!; try done; lia.
  - rewrite H; [by eexists|lia|subst first; lia|cbn; unfold MAX_LEVELS; lia].
  - apply H; [lia|subst first; lia|cbn; unfold MAX_LEVELS; lia].
Qed.

(** How full a level is: [blocks] blocks share [entries] with at most [m]
    each, and at least half of that when there is more than one. *)
Definition level_filled (m entries blocks : nat) : Prop :=
  forall c, c ∈ share entries blocks -> (c <= m)%nat /\ ((1 < blocks)%nat -> (m / 2 <= c)%nat).

Lemma ceil_filled m entries blocks :
  (0 < m)%nat -> (0 < blocks)%nat -> blocks = Nat.max (div_ceil entries m) 1 ->
  level_filled m entries blocks.
Proof.
  intros Hm Hb He c Hc. pose proof (div_ceil_spec entries m Hm). split.
  - eapply share_le; [done| |done]. nia.
  - intros H1. eapply share_half; [done|done| |done]. nia.
Qed.

Fixpoint chain_filled (m n : nat) (above : list nat) : Prop :=
  match above with
  | [] => n = 1%nat
  | k :: above => level_filled m n k /\ chain_filled m k above
  end.

Lemma level_chain_filled m n above :
  (2 <= m)%nat -> level_chain m n above -> chain_filled m n above.
Proof.
  intros Hm. induction 1 as [|n above H1 Hc IH]; [done|]. split; [|done].
  pose proof (div_ceil_lt n m H1 Hm). apply ceil_filled; lia.
Qed.

(** A plan, when there is one, is a tree with a single root and at most
    [MAX_LEVELS] levels, in which no block holds more than fits and every
    block below the root is at least half full; planning never panics. *)
Theorem plan_half_full sb shape n :
  match plan shape (sb_blocksize sb) (is_v5 sb) n with
  | Ok l => exists leaves above, l = leaves :: above /\ (length l <= MAX_LEVELS)%nat /\
      level_filled (per_leaf sb shape) n leaves /\
      chain_filled (per_node sb shape) leaves above
  | Err e => exists m, e = UnsupportedFeature m
  | Panic => False
  end.
Proof.
  pose proof (plan_spec sb shape n) as H. destruct (plan _ _ _ _) as [l|e|]; [|done|done].
  destruct H as (above & -> & Hc & Hl & H1 & H2). do 2 eexists. split; [done|].
  split; [done|]. split; [|by apply level_chain_filled]. apply ceil_filled; lia.
Qed.

(** ** A stamped block is the block that was asked for *)

Ltac off_lia :=
  unfold offsets.MAGIC, offsets.LEVEL, offsets.NUMRECS, offsets.BLKNO, offsets.UUID,
    offsets.OWNER, offsets.CRC, V5_HEADER_LEN, V4_HEADER_LEN, PTR_LEN, MAX_LEVELS in *; lia.

Definition shape_typed (sb : Superblock) (shape : Shape) : Prop :=
  in_u 32 (magic_v5 shape) /\
  (is_v5 sb = false -> exists m, magic_v4 shape = Some m /\ in_u 32 m).

Lemma blocksize_bounds sb : sb_geometry sb -> 512 <= sb_blocksize sb <= 65536.
Proof.
  intros [[H ->]]. change 512 with (2 ^ 9). change 65536 with (2 ^ 16).
  split; apply Z.pow_le_mono_r; lia.
Qed.

Lemma usize_sub_small a b : (b <= a)%nat -> Z.of_nat a < 2 ^ 64 -> usize_sub a b = (a - b)%nat.
Proof. intros. unfold usize_sub. rewrite wsub_small by lia. lia. Qed.

Lemma expected_blkno_range sb agno agblock : in_u 64 (expected_blkno sb agno agblock).
Proof.
  unfold expected_blkno, blkno_of_linear_block, wmul.
  pose proof (wrap_range 64 (wadd 64 (wrap 64 (agno * sb_agblocks sb)) agblock * sb_blocksize sb)
    ltac:(lia)) as [H0 H1].
  split; [apply Z.div_pos; done|].
  eapply Z.le_lt_trans; [|done]. apply Z.div_le_upper_bound; [done|]. unfold BBSIZE. lia.
Qed.

(** The fields common to both header versions, and those v5 adds. *)
Definition header_v4 (magic level numrecs : Z) : bytes :=
  to_be_bytes 4 magic ++ to_be_bytes 2 level ++ to_be_bytes 2 numrecs ++
  to_be_bytes 4 (umax 32) ++ to_be_bytes 4 (umax 32).

Lemma length_header_v4 m l n : length (header_v4 m l n) = 16%nat.
Proof. unfold header_v4. by rewrite !length_app, !length_to_be_bytes. Qed.

Section stamp.
Context `{Crc : Crc32c, !Crc32cLaws} (sb : Superblock) (Hty : sb_typed sb) (shape : Shape).
Context (agno agblock level numrecs : Z) (buf : bytes) (Hlen : (56 <= length buf)%nat).

Definition stamp_magic : Z := if is_v5 sb then magic_v5 shape else default (magic_v5 shape) (magic_v4 shape).
Definition common : bytes := splice 0 (header_v4 stamp_magic level numrecs) buf.
Definition located : bytes :=
  splice offsets.BLKNO (to_be_bytes 8 (expected_blkno sb agno agblock)) common.
Definition addressed : bytes :=
  splice offsets.UUID (sb_meta_uuid sb ++ to_be_bytes 4 agno) located.
Definition summed : bytes :=
  splice offsets.CRC (to_le_bytes 4 (zeroed_crc addressed offsets.CRC)) addressed.

Lemma length_common : length common = length buf.
Proof. apply length_splice. rewrite length_header_v4. lia. Qed.
Lemma length_located : length located = length buf.
Proof.
  pose proof length_common. unfold located.
  rewrite length_splice; rewrite ?length_to_be_bytes; off_lia.
Qed.
Lemma length_addressed : length addressed = length buf.
Proof.
  pose proof length_located. pose proof (ty_meta_uuid _ Hty) as Hu. unfold addressed.
  rewrite length_splice; rewrite ?length_app, ?length_to_be_bytes; off_lia.
Qed.
Lemma length_summed : length summed = length buf.
Proof.
  pose proof length_addressed. unfold summed.
  rewrite length_splice; rewrite ?length_to_le_bytes; off_lia.
Qed.

(** The stamped block. *)
Definition stamped : bytes := if is_v5 sb then summed else common.

Lemma length_stamped : length stamped = length buf.
Proof. unfold stamped. pose proof length_summed. pose proof length_common. by case_match. Qed.

Lemma stamp_Ok : stamp buf sb shape agno agblock level numrecs = Ok stamped.
Proof.
  pose proof (ty_meta_uuid _ Hty) as Hu.
  unfold stamp. fold stamp_magic. rewrite copy_at_Ok by (rewrite length_to_be_bytes; off_lia).
  cbn [mbind res_bind]. rewrite copy_at_Ok by (rewrite length_splice; rewrite !length_to_be_bytes; off_lia).
  cbn [mbind res_bind]. rewrite splice_splice_adjacent by (rewrite !length_to_be_bytes; off_lia).
  rewrite copy_at_Ok by (rewrite length_splice; rewrite ?length_app, !length_to_be_bytes; off_lia).
  cbn [mbind res_bind].
  rewrite splice_splice_adjacent by (rewrite ?length_app, !length_to_be_bytes; off_lia).
  rewrite copy_at_Ok by (rewrite length_splice; rewrite ?length_app, !length_to_be_bytes; off_lia).
  cbn [mbind res_bind].
  rewrite splice_splice_adjacent by (rewrite ?length_app, !length_to_be_bytes; off_lia).
  rewrite copy_at_Ok by (rewrite length_splice; rewrite ?length_app, !length_to_be_bytes; off_lia).
  cbn [mbind res_bind].
  rewrite splice_splice_adjacent by (rewrite ?length_app, !length_to_be_bytes; off_lia).
  rewrite <- !app_assoc. fold (header_v4 stamp_magic level numrecs).
  change (splice offsets.MAGIC (header_v4 stamp_magic level numrecs) buf) with common.
  unfold stamped. destruct (is_v5 sb); cbn [negb]; [|done]. pose proof length_common.
  rewrite copy_at_Ok by (rewrite length_to_be_bytes; off_lia). cbn [mbind res_bind].
  rewrite copy_at_Ok by (rewrite length_splice; rewrite ?length_to_be_bytes; off_lia).
  cbn [mbind res_bind].
  rewrite copy_at_Ok by (rewrite !length_splice; rewrite ?length_splice; rewrite ?length_to_be_bytes; off_lia).
  cbn [mbind res_bind].
  rewrite splice_splice_adjacent by (rewrite ?length_splice; rewrite ?length_to_be_bytes; off_lia).
  fold located. fold addressed. pose proof length_addressed.
  rewrite crc32c_with_zeroed_crc_Ok by off_lia. cbn [mbind res_bind].
  rewrite copy_at_Ok by (rewrite length_to_le_bytes; off_lia). done.
Qed.

(** The fields v5 adds leave the rest of the block alone. *)
Lemma summed_outside off n :
  (off + n <= 16 \/ 56 <= off)%nat -> slice off n summed = slice off n common.
Proof.
  pose proof (ty_meta_uuid _ Hty) as Hu. pose proof length_common.
  pose proof length_located. pose proof length_addressed. intros Ho.
  unfold summed. rewrite slice_splice_disjoint by (rewrite ?length_to_le_bytes; off_lia).
  unfold addressed.
  rewrite slice_splice_disjoint by (rewrite ?length_app, ?length_to_be_bytes; off_lia).
  unfold located. rewrite slice_splice_disjoint by (rewrite ?length_to_be_bytes; off_lia).
  done.
Qed.

Lemma stamped_body off n :
  (btree_header (is_v5 sb) <= off)%nat -> slice off n stamped = slice off n buf.
Proof.
  unfold stamped, btree_header. intros Ho.
  assert (slice off n common = slice off n buf) as Hc.
  { apply slice_splice_disjoint; rewrite length_header_v4; [lia|]. right. case_match; off_lia. }
  destruct (is_v5 sb); [|done]. rewrite <- Hc. apply summed_outside. off_lia.
Qed.

(** A header field of the stamped block, in either version. *)
Lemma stamped_common off n :
  (off + n <= 16)%nat -> slice off n stamped = slice off n (header_v4 stamp_magic level numrecs).
Proof.
  intros Ho. assert (slice off n common = slice off n (header_v4 stamp_magic level numrecs)) as Hc.
  { unfold common. rewrite slice_splice_within by (rewrite ?length_header_v4; lia).
    by rewrite Nat.sub_0_r. }
  unfold stamped. destruct (is_v5 sb); [|done]. rewrite <- Hc. apply summed_outside. off_lia.
Qed.

Lemma header_v4_fields m l n :
  slice 0 4 (header_v4 m l n) = to_be_bytes 4 m /\
  slice 4 2 (header_v4 m l n) = to_be_bytes 2 l /\
  slice 6 2 (header_v4 m l n) = to_be_bytes 2 n.
Proof. unfold header_v4, slice. cbn [to_be_bytes]. done. Qed.

Context (Hag : in_u 32 agno) (Hlv : in_u 16 level) (Hnr : in_u 16 numrecs).

Lemma stamped_fields :
  in_u 32 stamp_magic ->
  rd 4 offsets.MAGIC stamped = stamp_magic /\ rd 2 offsets.LEVEL stamped = level /\
  rd 2 offsets.NUMRECS stamped = numrecs.
Proof.
  intros Hm. unfold rd. destruct (header_v4_fields stamp_magic level numrecs) as (E1 & E2 & E3).
  rewrite !stamped_common by off_lia. unfold offsets.MAGIC, offsets.LEVEL, offsets.NUMRECS.
  rewrite E1, E2, E3, !from_to_be_bytes_small by done. done.
Qed.

Lemma stamped_v5_fields :
  rd_le 4 offsets.CRC summed = zeroed_crc summed offsets.CRC /\
  slice offsets.UUID 16 summed = sb_meta_uuid sb /\
  rd 4 offsets.OWNER summed = agno /\
  rd 8 offsets.BLKNO summed = expected_blkno sb agno agblock.
Proof.
  pose proof (ty_meta_uuid _ Hty) as Hu. pose proof length_common.
  pose proof length_located. pose proof length_addressed.
  assert (forall off n, (off + n <= 52)%nat -> slice off n summed = slice off n addressed) as Hs.
  { intros. apply slice_splice_disjoint; rewrite ?length_to_le_bytes; off_lia. }
  split_and!.
  - unfold summed. rewrite rd_le_splice_same, zeroed_crc_splice
      by (rewrite ?length_to_le_bytes; first [off_lia|apply zeroed_crc_range]). done.
  - rewrite Hs by off_lia. unfold addressed.
    rewrite slice_splice_within by (rewrite ?length_app, ?length_to_be_bytes; off_lia).
    rewrite Nat.sub_diag. unfold slice. rewrite drop_0. by apply take_app_length'.
  - unfold rd. rewrite Hs by off_lia. unfold addressed.
    rewrite slice_splice_within by (rewrite ?length_app, ?length_to_be_bytes; off_lia).
    unfold slice. rewrite drop_app_length' by off_lia.
    rewrite firstn_all2 by (rewrite length_to_be_bytes; lia).
    by apply from_to_be_bytes_small.
  - unfold rd. rewrite Hs by off_lia. unfold addressed.
    rewrite slice_splice_disjoint by (rewrite ?length_app, ?length_to_be_bytes; off_lia).
    unfold located. rewrite slice_splice_same by (rewrite ?length_to_be_bytes; off_lia).
    apply from_to_be_bytes_small, expected_blkno_range.
Qed.

(** What a block at this level has room for. *)
Definition room : nat :=
  maxrecs (length buf - btree_header (is_v5 sb))
    (if level =? 0 then record_len shape
     else (keys_per_entry shape * key_len shape + PTR_LEN)%nat).

(** A stamped block passes every check of [parse_block]. *)
Lemma stamp_parse :
  shape_typed sb shape -> (Z.to_nat numrecs <= room)%nat ->
  parse_block stamped sb shape agno agblock level =
    Ok (mkNode level numrecs (btree_header (is_v5 sb)) room).
Proof.
  intros [Hm5 Hm4] Hroom. pose proof length_stamped as Hl.
  destruct stamped_fields as (Fm & Fl & Fn).
  { unfold stamp_magic. destruct (is_v5 sb); [done|]. by destruct Hm4 as (m & -> & ?). }
  unfold parse_block. rewrite (proj2 (Nat.ltb_ge _ _)) by (unfold btree_header; case_match; off_lia).
  cbn [fail_if mbind res_bind].
  assert ((if is_v5 sb then Ok (magic_v5 shape)
           else ok_or (magic_v4 shape)
             (unsupported "AG {}: a {} is a v5 feature and this filesystem is v4"
                [AZ agno; AS (shape_name shape)])) = Ok stamp_magic) as ->.
  { unfold stamp_magic. destruct (is_v5 sb); [done|]. by destruct Hm4 as (m & -> & ?). }
  cbn [mbind res_bind]. rewrite (be32_Ok stamped offsets.MAGIC), Fm by off_lia. cbn [mbind res_bind].
  rewrite Z.eqb_refl. cbn [negb fail_if mbind res_bind].
  rewrite !be16_Ok by off_lia. cbn [mbind res_bind]. rewrite Fl, Fn, Hl, Z.eqb_refl.
  cbn [negb fail_if mbind res_bind]. fold room. rewrite (proj2 (Nat.ltb_ge _ _)) by done.
  unfold stamped in *. destruct (is_v5 sb) eqn:Hv5; cbn [fail_if mbind res_bind]; [|done].
  destruct stamped_v5_fields as (F1 & F2 & F3 & F4).
  rewrite le32_Ok, crc32c_with_zeroed_crc_Ok, uuid_at_Ok, be32_Ok, be64_Ok by off_lia.
  cbn [mbind res_bind].
  rewrite F1, F2, F3, F4, !Z.eqb_refl, bool_decide_eq_true_2 by done. done.
Qed.
End stamp.

(** ** Trees as the walker sees them *)

Lemma slice_concat {A} n (ls : list (list A)) i x :
  Forall (fun l => length l = n) ls -> ls !! i = Some x -> slice (i * n) n (concat ls) = x.
Proof.
  intros H. revert i. induction H as [|l ls Hl Hls IH]; intros i Hi; [done|].
  destruct i as [|i]; cbn in *; simplify_eq.
  - unfold slice. rewrite drop_0. by apply take_app_length'.
  - rewrite <- (IH i Hi). unfold slice. rewrite drop_app_ge by lia. do 2 f_equal. lia.
Qed.

Lemma length_concat_uniform {A} n (ls : list (list A)) :
  Forall (fun l => length l = n) ls -> length (concat ls) = (length ls * n)%nat.
Proof. induction 1; cbn; [done|]. rewrite length_app. lia. Qed.

(** Blocks by level: adding the blocks of one tree to those met so far. *)
Fixpoint madd (seen bl : list (list Z)) : list (list Z) :=
  match seen, bl with
  | s :: seen, b :: bl => (s ++ b) :: madd seen bl
  | _, _ => seen
  end.
Definition zcat (n : nat) (bls : list (list (list Z))) : list (list Z) :=
  foldr madd (replicate n []) bls.

Lemma length_madd s b : length (madd s b) = length s.
Proof. revert b; induction s as [|x s IH]; intros [|y b]; cbn; auto. Qed.

Lemma madd_nil s n : madd s (replicate n []) = s.
Proof.
  revert n; induction s as [|x s IH]; intros [|n]; cbn; try done. by rewrite app_nil_r, IH.
Qed.

Lemma nil_madd n b : length b = n -> madd (replicate n []) b = b.
Proof. intros <-. induction b as [|x b IH]; [done|]. cbn. by rewrite IH. Qed.

Lemma madd_assoc s a b : (length b <= length a)%nat -> madd (madd s a) b = madd s (madd a b).
Proof.
  revert a b; induction s as [|x s IH]; intros [|y a] [|z b] H; cbn in *; try done; try lia.
  rewrite app_assoc, IH by lia. done.
Qed.

Lemma madd_snoc s a b old k :
  length a = k -> s !! k = Some old -> madd s (a ++ [[b]]) = madd (<[k := old ++ [b]]> s) a.
Proof.
  intros <-. revert s; induction a as [|y a IH]; intros [|x s] H; cbn in *; try done.
  - simplify_eq. by destruct s.
  - f_equal. by apply IH.
Qed.

Lemma length_concat_madd s b :
  (length b <= length s)%nat ->
  length (concat (madd s b)) = (length (concat s) + length (concat b))%nat.
Proof.
  revert b; induction s as [|x s IH]; intros [|y b] H; cbn in *; try lia.
  rewrite !length_app, IH by lia. lia.
Qed.

Lemma length_zcat n bls : Forall (fun b => length b = n) bls -> length (zcat n bls) = n.
Proof.
  induction 1; cbn [zcat foldr]; [apply length_replicate|]. by rewrite length_madd.
Qed.

Lemma zcat_app n a b :
  Forall (fun b => length b = n) a -> Forall (fun b => length b = n) b ->
  zcat n (a ++ b) = madd (zcat n a) (zcat n b).
Proof.
  intros Ha Hb. induction Ha as [|x a Hx Ha IH]; cbn [app zcat foldr].
  - rewrite nil_madd; [done|]. by apply length_zcat.
  - fold (zcat n (a ++ b)) (zcat n a). rewrite IH, madd_assoc; [done|].
    rewrite !length_zcat by done. done.
Qed.

Lemma concat_replicate_nil {A} n : concat (replicate n (@nil A)) = [].
Proof. by induction n. Qed.

Section trees.
Context `{Crc : Crc32c} {T : Type} (sb : Superblock) (shape : Shape) (agno : Z).
Context (read_agblock : Z -> res bytes) (decode : bytes -> nat -> res T).

(** A block that reads as a leaf holding [rs], or as a node at level [S k]
    pointing at [cs]. *)
Definition leaf_at (b : Z) (rs : list T) : Prop :=
  exists buf node, read_agblock b = Ok buf /\ parse_block buf sb shape agno b 0 = Ok node /\
    node_level node = 0 /\
    (node_body node + Z.to_nat (node_numrecs node) * record_len shape <= length buf)%nat /\
    leaf_records shape decode buf node = Ok rs.
Definition node_at (k : nat) (b : Z) (cs : list Z) : Prop :=
  exists buf node, read_agblock b = Ok buf /\
    parse_block buf sb shape agno b (Z.of_nat (S k)) = Ok node /\
    node_level node = Z.of_nat (S k) /\
    let first := (node_body node + node_maxrecs node * keys_per_entry shape * key_len shape)%nat in
    (first + Z.to_nat (node_numrecs node) * PTR_LEN <= length buf)%nat /\
    child_pointers buf first node = Ok ((fun c => (c, Z.of_nat k)) <$> cs).

(** The tree below [b] holds [rs] and occupies the blocks [bl], by level. *)
Fixpoint subtree (k : nat) (b : Z) (rs : list T) (bl : list (list Z)) : Prop :=
  match k with
  | O => leaf_at b rs /\ bl = [[b]]
  | S k => exists cs rss bls, node_at k b cs /\ Forall3 (subtree k) cs rss bls /\
      rs = concat rss /\ bl = zcat (S k) bls ++ [[b]]
  end.

Lemma subtree_length k b rs bl : subtree k b rs bl -> length bl = S k.
Proof.
  revert b rs bl; induction k as [|k IH]; cbn [subtree]; intros b rs bl.
  - by intros [_ ->].
  - intros (cs & rss & bls & _ & Hf & _ & ->). rewrite length_app, length_zcat; [cbn; lia|].
    induction Hf; constructor; eauto.
Qed.

Lemma subtrees_length k cs rss bls :
  Forall3 (subtree k) cs rss bls -> Forall (fun b => length b = S k) bls.
Proof. induction 1; constructor; eauto using subtree_length. Qed.

Abbreviation walk_loop := (walk_loop sb shape agno read_agblock decode).

Lemma walk_forest k n st seen :
  (forall b rs bl, subtree k b rs bl -> forall n st out seen, (k < length seen)%nat ->
    walk_loop (length (concat bl) + n)%nat ((b, Z.of_nat k) :: st) out seen =
    walk_loop n st (out ++ rs) (madd seen bl)) ->
  forall cs rss bls out, Forall3 (subtree k) cs rss bls -> (k < length seen)%nat ->
  walk_loop (length (concat (zcat (S k) bls)) + n)%nat
    (((fun c => (c, Z.of_nat k)) <$> cs) ++ st) out seen =
  walk_loop n st (out ++ concat rss) (madd seen (zcat (S k) bls)).
Proof.
  intros Hone cs rss bls out Hf. revert out seen.
  induction Hf as [|c rs bl cs rss bls Hc Hf IH]; intros out seen Hk.
  - cbn [zcat foldr concat fmap list_fmap]. rewrite madd_nil, app_nil_r.
    rewrite concat_replicate_nil. done.
  - pose proof (subtrees_length _ _ _ _ Hf) as Hls. pose proof (subtree_length _ _ _ _ Hc) as Hl.
    change (zcat (S k) (bl :: bls)) with (madd bl (zcat (S k) bls)).
    assert (length (zcat (S k) bls) <= length bl)%nat by (rewrite length_zcat by done; lia).
    rewrite length_concat_madd, <- Nat.add_assoc by done.
    cbn [fmap list_fmap app]. rewrite (Hone c rs bl Hc) by done.
    rewrite IH by by rewrite length_madd. cbn [concat]. by rewrite app_assoc, madd_assoc.
Qed.

Lemma walk_subtree k b rs bl :
  subtree k b rs bl -> forall n st out seen, (k < length seen)%nat ->
  walk_loop (length (concat bl) + n)%nat ((b, Z.of_nat k) :: st) out seen =
  walk_loop n st (out ++ rs) (madd seen bl).
Proof.
  revert b rs bl; induction k as [|k IH]; intros b rs bl Hs n st out seen Hseen.
  - destruct Hs as [(buf & node & Hr & Hp & Hlv & Hend & Hrec) ->].
    cbn [concat length app Nat.add AgBtree.walk_loop]. change (Z.of_nat 0) with 0.
    rewrite Hr. cbn [mbind res_bind]. rewrite Hp. cbn [mbind res_bind]. rewrite Hlv.
    destruct seen as [|old seen]; [cbn in Hseen; lia|]. cbn [Z.to_nat lookup list_lookup expect mbind res_bind].
    rewrite Z.eqb_refl, (proj2 (Nat.ltb_ge _ _)) by done. cbn [fail_if mbind res_bind].
    rewrite Hrec. cbn [mbind res_bind insert list_insert madd]. by destruct seen.
  - destruct Hs as (cs & rss & bls & (buf & node & Hr & Hp & Hlv & Hend & Hch) & Hf & -> & ->).
    pose proof (subtrees_length _ _ _ _ Hf) as Hls.
    destruct (lookup_lt_is_Some_2 seen (S k) Hseen) as [old Hold].
    rewrite concat_app, length_app. cbn [concat length app].
    rewrite (Nat.add_comm _ 1). cbn [Nat.add AgBtree.walk_loop].
    rewrite Hr. cbn [mbind res_bind]. rewrite Hp. cbn [mbind res_bind]. rewrite Hlv, Nat2Z.id, Hold.
    cbn [expect mbind res_bind]. rewrite (proj2 (Z.eqb_neq _ _)) by lia.
    rewrite (proj2 (Nat.ltb_ge _ _)) by done. cbn [fail_if mbind res_bind].
    rewrite Hch. cbn [mbind res_bind].
    rewrite (walk_forest k n st _ IH cs rss bls out Hf)
      by (rewrite length_insert; lia).
    rewrite (madd_snoc seen _ b old (S k)); [done| |done]. by apply length_zcat.
Qed.

(** A tree that is all there is walked whole, within the budget. *)
Lemma walk_blocks_subtree root k rs bl :
  subtree k root rs bl -> (k < MAX_LEVELS)%nat ->
  (length (concat bl) <= Z.to_nat (Z.max (sb_agblocks sb) 64))%nat ->
  walk_blocks sb shape agno read_agblock decode root (Z.of_nat (S k)) = Ok (rs, concat bl).
Proof.
  intros Hs Hk Hb. unfold walk_blocks. unfold MAX_LEVELS in *.
  rewrite (proj2 (Z.eqb_neq _ _)), (proj2 (Z.ltb_ge _ _)) by lia.
  cbn [orb fail_if mbind res_bind]. rewrite wrap_small by (unfold in_u; lia).
  replace (Z.of_nat (S k) - 1) with (Z.of_nat k) by lia. rewrite Nat2Z.id.
  set (budget := Z.to_nat _) in *.
  replace budget with (length (concat bl) + (budget - length (concat bl)))%nat by lia.
  rewrite (walk_subtree k root rs bl Hs) by (rewrite ?length_replicate; lia).
  rewrite nil_madd by by eapply subtree_length.
  by destruct (budget - length (concat bl))%nat.
Qed.
End trees.

(** ** What [build] lays out *)

Section layout.
Context `{Crc : Crc32c, !Crc32cLaws} {T : Type} `{codec : RecordCodec T} (good : T -> Prop).
Context `{laws : !RecordCodecLaws T good}.
Context (sb : Superblock) (Hty : sb_typed sb) (Hgeo : sb_geometry sb).
Context (Hshape : shape_typed sb (rc_shape T)) (agno : Z) (Hag : in_u 32 agno).
Context (records : list T) (Hgood : Forall good records).
Context (blocks : list Z) (Hblocks : Forall (in_u 32) blocks).

Abbreviation shape := (rc_shape T).
Abbreviation header := (btree_header (is_v5 sb)).
Abbreviation rlen := (record_len (rc_shape T)).
Abbreviation kwide := (keys_per_entry (rc_shape T) * key_len (rc_shape T))%nat.
Abbreviation size := (Z.to_nat (sb_blocksize sb)).
Abbreviation blank := (replicate (Z.to_nat (sb_blocksize sb)) Byte.x00).

Lemma header_fits : (header <= 56 /\ 512 <= size)%nat /\ Z.of_nat size <= 65536.
Proof.
  pose proof (blocksize_bounds sb Hgeo). unfold btree_header. case_match; off_lia.
Qed.

Lemma space_eq : usize_sub size header = (size - header)%nat.
Proof. pose proof header_fits. apply usize_sub_small; lia. Qed.

Lemma per_leaf_fits n : (n <= per_leaf sb shape)%nat -> (header + n * rlen <= size)%nat.
Proof.
  pose proof header_fits. pose proof (rc_record_len (good := good)) as Hr.
  unfold per_leaf, maxrecs. rewrite space_eq. rewrite Nat.max_l by lia. intros Hn.
  pose proof (Nat.Div0.mul_div_le (size - header) rlen). nia.
Qed.

Lemma per_node_fits :
  (header + per_node sb shape * kwide + per_node sb shape * 4 <= size)%nat.
Proof.
  pose proof header_fits. unfold per_node, maxrecs. rewrite space_eq.
  unfold PTR_LEN. rewrite Nat.max_l by lia.
  pose proof (Nat.Div0.mul_div_le (size - header) (kwide + 4)). nia.
Qed.

Lemma capacity_u16 n :
  (n <= per_leaf sb shape \/ n <= per_node sb shape)%nat -> in_u 16 (Z.of_nat n).
Proof.
  pose proof header_fits. pose proof (rc_record_len (good := good)) as Hr. unfold in_u.
  assert (0 < header)%nat by (unfold btree_header; case_match; off_lia).
  intros [Hn|Hn]; [pose proof (per_leaf_fits n Hn); nia|]. pose proof per_node_fits. nia.
Qed.

Lemma encode_records_spec j rs buf :
  (header + (j + length rs) * rlen <= length buf)%nat ->
  encode_records sb shape rc_encode buf j rs =
    Ok (splice (header + j * rlen) (concat (rc_bytes <$> rs)) buf).
Proof.
  revert j buf; induction rs as [|r rs IH]; intros j buf Hf; cbn [encode_records length] in *.
  - cbn [fmap list_fmap concat]. unfold splice. cbn [app length].
    by rewrite Nat.add_0_r, take_drop.
  - rewrite rc_encode_spec by lia. cbn [mbind res_bind].
    assert (Hl : length (splice (header + j * rlen) (rc_bytes r) buf) = length buf)
      by (apply length_splice; rewrite rc_bytes_length; lia).
    rewrite IH by lia. f_equal. cbn [fmap list_fmap concat].
    assert (length (concat (rc_bytes <$> rs)) = (length rs * rlen)%nat) as Hc.
    { rewrite (length_concat_uniform rlen), length_fmap; [done|].
      apply Forall_fmap, Forall_forall. intros x _. apply rc_bytes_length. }
    apply splice_splice_adjacent; rewrite rc_bytes_length; lia.
Qed.

Definition agrees (read : Z -> res bytes) (out : list Built) : Prop :=
  Forall (fun b => read (built_agblock b) = Ok (built_bytes b)) out.

Lemma build_leaf_spec agblock pre rs post :
  records = pre ++ rs ++ post -> (length rs <= per_leaf sb shape)%nat ->
  exists b, build_leaf sb shape agno rc_encode records agblock (length pre) (length rs) = Ok b /\
    built_agblock b = agblock /\
    forall read, agrees read [b] -> leaf_at sb shape agno read rc_decode agblock rs.
Proof.
  intros Hrec Hn. pose proof (per_leaf_fits _ Hn) as Hfit. pose proof header_fits as Hh.
  pose proof (capacity_u16 (length rs) (or_introl Hn)) as H16.
  assert (Hgr : Forall good rs) by (rewrite Hrec, !Forall_app in Hgood; tauto).
  unfold build_leaf. rewrite get_slice_Ok by (rewrite Hrec, !length_app; lia).
  cbn [mbind res_bind]. assert (slice (length pre) (length rs) records = rs) as ->.
  { rewrite Hrec. unfold slice. by rewrite drop_app_length, take_app_length. }
  rewrite encode_records_spec by (rewrite length_replicate; lia). cbn [mbind res_bind].
  rewrite Nat.mul_0_l, Nat.add_0_r, wrap_small by done.
  set (body := concat (rc_bytes <$> rs)). set (buf := splice header body blank).
  assert (Hun : Forall (fun l => length l = rlen) (rc_bytes <$> rs)).
  { apply Forall_fmap, Forall_forall. intros x _. apply rc_bytes_length. }
  assert (Hbody : length body = (length rs * rlen)%nat)
    by (subst body; by rewrite (length_concat_uniform rlen), length_fmap).
  assert (Hbuf : length buf = size)
    by (subst buf; rewrite length_splice; rewrite length_replicate; lia).
  rewrite stamp_Ok by (try done; lia). cbn [mbind res_bind]. eexists. split; [done|].
  split; [done|]. intros read Hr. unfold agrees in Hr.
  rewrite Forall_singleton in Hr. cbn [built_agblock built_bytes] in Hr.
  pose proof (length_stamped sb Hty shape agno agblock 0 (Z.of_nat (length rs)) buf ltac:(lia)) as Hl.
  do 2 eexists. split; [exact Hr|]. split.
  { apply stamp_parse; try done; [lia|]. rewrite Nat2Z.id. unfold room.
    rewrite Z.eqb_refl, Hbuf. unfold per_leaf in Hn. by rewrite space_eq in Hn. }
  cbn [node_level node_body node_numrecs node_maxrecs]. rewrite Nat2Z.id, Hl, Hbuf.
  split; [done|]. split; [lia|]. unfold leaf_records. cbn [node_body node_numrecs].
  rewrite Nat2Z.id. apply res_map_Ok, Forall2_same_length_lookup.
  split; [by rewrite length_seq|]. intros i j r Hj Hri.
  apply lookup_seq in Hj as [-> Hi]. cbn [Nat.add].
  apply rc_decode_spec; [by eapply Forall_lookup_1|rewrite Hl, Hbuf; nia|].
  rewrite stamped_body by (try done; lia). subst buf.
  rewrite slice_splice_within by (rewrite ?length_replicate, ?Hbody; nia).
  replace (header + i * rlen - header)%nat with (i * rlen)%nat by lia.
  apply slice_concat; [done|]. by rewrite list_lookup_fmap, Hri.
Qed.

Lemma build_leaves_spec counts bs0 bs bs1 pre rest :
  blocks = bs0 ++ bs ++ bs1 -> length bs = length counts -> length rest = sum_list counts ->
  records = pre ++ rest -> Forall (fun c => c <= per_leaf sb shape)%nat counts ->
  exists out rss,
    build_leaves sb shape agno rc_encode records blocks (length bs0) (length pre) counts =
      Ok (out, (length pre + length rest)%nat) /\
    length <$> rss = counts /\ concat rss = rest /\ built_agblock <$> out = bs /\
    forall read, agrees read out ->
      Forall3 (subtree sb shape agno read rc_decode 0) bs rss ((fun b => [[b]]) <$> bs).
Proof.
  intros Hb Hl Hr Hrec Hc. revert bs0 bs pre rest Hb Hl Hr Hrec.
  induction Hc as [|c counts Hc Hcs IH]; intros bs0 bs pre rest Hb Hl Hr Hrec.
  { destruct bs; [|done]. destruct rest; [|done]. exists [], []. cbn.
    rewrite Nat.add_0_r. split_and!; try done. constructor. }
  destruct bs as [|b bs]; [done|]. cbn [length] in *.
  change (sum_list (c :: counts)) with (c + sum_list counts)%nat in Hr.
  set (rs := take c rest). set (rest' := drop c rest).
  assert (Hrs : length rs = c) by (subst rs; rewrite length_take; lia).
  assert (Hre : rest = rs ++ rest') by (subst rs rest'; by rewrite take_drop).
  destruct (build_leaf_spec b pre rs rest') as (leaf & El & Ea & Hleaf); [by rewrite Hrec, <- Hre|lia|].
  destruct (IH (bs0 ++ [b]) bs (pre ++ rs) rest') as (out & rss & E & E1 & E2 & E3 & E4).
  { by rewrite <- app_assoc. } { lia. } { apply (f_equal length) in Hre. rewrite length_app in Hre. lia. }
  { by rewrite <- app_assoc, <- Hre. }
  exists (leaf :: out), (rs :: rss). cbn [build_leaves].
  rewrite Hb, lookup_app_head. cbn [head app expect mbind res_bind].
  rewrite <- Hrs, El. cbn [mbind res_bind]. rewrite !length_app in E. cbn [length] in E.
  rewrite Nat.add_1_r in E. change (bs0 ++ b :: bs ++ bs1) with (bs0 ++ (b :: bs) ++ bs1).
  rewrite <- Hb, E. cbn [mbind res_bind fst snd].
  split_and!; [apply (f_equal length) in Hre; rewrite length_app in Hre; do 2 f_equal; lia|cbn; by rewrite Hrs, E1| | |].
  - cbn. by rewrite E2, <- Hre.
  - cbn. by rewrite Ea, E3.
  - intros read [H1 H2]%Forall_cons. cbn [fmap list_fmap]. constructor; [|by apply E4].
    split; [|done]. apply Hleaf. by constructor.
Qed.

Lemma leaf_spans_lookup r0 rs r2 running :
  leaf_spans running (length <$> (r0 ++ rs :: r2)) !! length r0 =
  Some ((running + length (concat r0))%nat,
        (running + length (concat r0) + length (rs : list T))%nat).
Proof.
  revert running; induction r0 as [|x r0 IH]; intros running; cbn.
  - by rewrite Nat.add_0_r.
  - rewrite IH, length_app. do 2 f_equal; lia.
Qed.

Lemma leaf_spans_app r0 r1 running :
  leaf_spans running (length <$> (r0 ++ r1)) =
  leaf_spans running (length <$> r0) ++
  leaf_spans (running + length (concat r0))%nat (length <$> (r1 : list (list T))).
Proof.
  revert running; induction r0 as [|x r0 IH]; intros running; cbn.
  - by rewrite Nat.add_0_r.
  - rewrite IH, length_app. do 3 f_equal. lia.
Qed.

(** The pointer array of one node. *)
Abbreviation ptrs := (header + per_node sb shape * kwide)%nat.

Lemma node_entries_spec cs0 d e cs2 r0 rd re r2 buf :
  length r0 = length cs0 -> length rd = length d -> length re = length e ->
  concat (r0 ++ rd ++ re ++ r2) = records -> Forall (fun r => r <> []) re ->
  Forall (in_u 32) e -> (length d + length e <= per_node sb shape)%nat -> length buf = size ->
  exists buf',
    node_entries sb shape rc_keys records
      (leaf_spans 0 (length <$> (r0 ++ rd ++ re ++ r2))) (cs0 ++ d ++ e ++ cs2)
      (length cs0) (length d) (length e) buf = Ok buf' /\
    length buf' = size /\
    slice ptrs ((length d + length e) * 4) buf' =
      slice ptrs (length d * 4) buf ++ concat (to_be_bytes 4 <$> e).
Proof.
  revert d rd re buf. induction e as [|c e IH]; intros d rd re buf H0 Hd He Hrec Hne Hu Hn Hbuf;
    cbn [node_entries length].
  { eexists. split; [done|]. split; [done|]. cbn. by rewrite Nat.add_0_r, app_nil_r. }
  destruct re as [|rs re]; [done|]. pose proof per_node_fits as Hfit.
  apply Forall_cons in Hne as [Hrs Hne'], Hu as [Hc Hu'].
  cbn [length app] in *.
  replace (length cs0 + length d)%nat with (length (r0 ++ rd)) by (rewrite length_app; lia).
  rewrite (app_assoc r0 rd), leaf_spans_lookup. cbn [expect mbind res_bind fst snd].
  rewrite (app_assoc r0 rd), concat_app in Hrec. cbn [concat] in Hrec.
  replace (0 + length (concat (r0 ++ rd)) + length rs - (0 + length (concat (r0 ++ rd))))%nat
    with (length rs) by lia. rewrite Nat.add_0_l.
  rewrite get_slice_Ok by (rewrite <- Hrec, !length_app; lia).
  assert (slice (length (concat (r0 ++ rd))) (length rs) records = rs) as Hsl.
  { rewrite <- Hrec. unfold slice. by rewrite drop_app_length, take_app_length. }
  cbn [mbind res_bind]. rewrite Hsl.
  assert ((length d + 1) * kwide <= per_node sb shape * kwide)%nat as Hk
    by (apply Nat.mul_le_mono_r; lia).
  destruct (rc_keys_spec buf (header + length d * kwide)%nat rs Hrs) as (ks & Hks & ->); [nia|].
  cbn [mbind res_bind].
  assert ((cs0 ++ d ++ c :: e ++ cs2) !! length (r0 ++ rd) = Some c) as ->.
  { rewrite app_assoc. replace (length (r0 ++ rd)) with (length (cs0 ++ d))
      by (rewrite !length_app; lia). by apply list_lookup_middle. }
  cbn [expect mbind res_bind].
  set (buf1 := splice (header + length d * kwide) ks buf).
  assert (Hb1 : length buf1 = size) by (subst buf1; rewrite length_splice; rewrite ?Hks; nia).
  fold (per_node sb shape).
  rewrite copy_at_Ok by (rewrite length_to_be_bytes; unfold PTR_LEN; lia). cbn [mbind res_bind].
  set (buf2 := splice _ (to_be_bytes 4 c) buf1).
  assert (Hb2 : length buf2 = size)
    by (subst buf2; rewrite length_splice; rewrite ?length_to_be_bytes; unfold PTR_LEN; lia).
  destruct (IH (d ++ [c]) (rd ++ [rs]) re buf2) as (buf' & E & Hl & Hs);
    rewrite ?length_app; cbn [length]; try done; try lia.
  { rewrite <- Hrec, !concat_app. cbn [concat]. rewrite app_nil_r, <- !app_assoc. done. }
  assert ((r0 ++ rd) ++ rs :: re ++ r2 = r0 ++ (rd ++ [rs]) ++ re ++ r2) as ->
    by (by rewrite <- !app_assoc).
  assert (cs0 ++ d ++ c :: e ++ cs2 = cs0 ++ (d ++ [c]) ++ e ++ cs2) as ->
    by (by rewrite <- !app_assoc).
  rewrite length_app, Nat.add_1_r in E. rewrite E. exists buf'.
  split; [done|]. split; [done|]. rewrite length_app in Hs. cbn [length] in Hs.
  replace (length d + S (length e))%nat with (length d + 1 + length e)%nat by lia.
  rewrite Hs. replace ((length d + 1) * 4)%nat with (length d * 4 + 4)%nat by lia.
  rewrite slice_app_split, <- app_assoc. cbn [fmap list_fmap concat]. f_equal; [|f_equal].
  - subst buf2 buf1. rewrite !slice_splice_disjoint; try done; rewrite ?length_splice;
      rewrite ?length_to_be_bytes, ?Hks; unfold PTR_LEN; try lia.
  - apply slice_splice_same; rewrite length_to_be_bytes; unfold PTR_LEN; lia.
Qed.

Lemma build_node_spec k agblock cs0 g cs2 r0 rg r2 :
  length r0 = length cs0 -> length rg = length g -> concat (r0 ++ rg ++ r2) = records ->
  Forall (fun r => r <> []) rg -> Forall (in_u 32) g ->
  (length g <= per_node sb shape)%nat -> (S k < MAX_LEVELS)%nat ->
  exists b,
    build_node sb shape agno rc_keys records (S k)
      (leaf_spans 0 (length <$> (r0 ++ rg ++ r2))) (cs0 ++ g ++ cs2)
      agblock (length cs0) (length g) = Ok b /\
    built_agblock b = agblock /\
    forall read, agrees read [b] -> node_at sb shape agno read k agblock g.
Proof.
  intros H0 Hg Hrec Hne Hu Hn Hk. pose proof header_fits as Hh. pose proof per_node_fits as Hfit.
  pose proof (capacity_u16 (length g) (or_intror Hn)) as H16.
  assert (in_u 16 (Z.of_nat (S k))) as Hk16 by (unfold in_u; off_lia).
  destruct (node_entries_spec cs0 [] g cs2 r0 [] rg r2 blank) as (buf & E & Hbuf & Hp);
    try done; [by rewrite length_replicate|].
  unfold build_node. cbn [app length] in E. rewrite E. cbn [mbind res_bind].
  rewrite !wrap_small by done. rewrite stamp_Ok by (try done; lia). cbn [mbind res_bind].
  eexists. split; [done|]. split; [done|]. intros read Hr. unfold agrees in Hr.
  rewrite Forall_singleton in Hr. cbn [built_agblock built_bytes] in Hr.
  set (out := stamped _ _ _ _ _ _ _) in *.
  assert (Hl : length out = size) by (subst out; rewrite length_stamped by (try done; lia); done).
  exists out, (mkNode (Z.of_nat (S k)) (Z.of_nat (length g)) header (per_node sb shape)).
  split; [done|]. split.
  { subst out. rewrite stamp_parse; try done; try lia.
    - f_equal. f_equal. unfold room. rewrite (proj2 (Z.eqb_neq _ _)) by lia.
      rewrite Hbuf. unfold per_node. by rewrite space_eq.
    - rewrite Nat2Z.id. unfold room. rewrite (proj2 (Z.eqb_neq _ _)) by lia.
      rewrite Hbuf. unfold per_node in Hn. by rewrite space_eq in Hn. }
  cbn [node_level node_body node_numrecs node_maxrecs]. cbv zeta.
  replace (per_node sb shape * keys_per_entry shape * key_len shape)%nat
    with (per_node sb shape * kwide)%nat by lia.
  rewrite Nat2Z.id, Hl. split; [done|]. split; [unfold PTR_LEN; lia|].
  unfold child_pointers. cbn [node_level node_numrecs]. rewrite Nat2Z.id.
  apply res_map_Ok, Forall2_same_length_lookup.
  split; [by rewrite length_seq, length_fmap|]. intros i j x Hj Hx.
  apply lookup_seq in Hj as [-> Hi]. rewrite list_lookup_fmap in Hx.
  destruct (g !! i) as [c|] eqn:Hc; [|done]. cbn in Hx. injection Hx as <-.
  unfold PTR_LEN. cbn [Nat.add].
  rewrite be32_Ok by lia. cbn [mbind res_bind]. rewrite wsub_small by off_lia.
  f_equal. f_equal; [|lia]. unfold rd, out. rewrite stamped_body by (try done; lia).
  cbn [length Nat.add] in Hp.
  rewrite <- (slice_slice ptrs (length g * 4) (i * 4) 4) by lia. rewrite Hp. cbn [app].
  rewrite Nat.mul_0_l. unfold slice at 2. rewrite take_0. cbn [app].
  rewrite (slice_concat 4 _ i (to_be_bytes 4 c)).
  - apply from_to_be_bytes_small. by eapply Forall_lookup_1 in Hu.
  - apply Forall_fmap, Forall_forall. intros y _. apply length_to_be_bytes.
  - by rewrite list_lookup_fmap, Hc.
Qed.


Lemma madd_app s a x y :
  length s = length a -> madd (s ++ [x]) (a ++ [y]) = madd s a ++ [x ++ y].
Proof.
  revert a; induction s as [|z s IH]; intros [|w a] Hl; try done.
  cbn. f_equal. apply IH. by injection Hl.
Qed.

Lemma split_at {A} n (l : list A) :
  (n <= length l)%nat -> exists a b, l = a ++ b /\ length a = n.
Proof. intros. exists (take n l), (drop n l). rewrite take_drop, length_take. split; [done|lia]. Qed.

(** The span of a group of neighbours runs from the first to the last. *)
Lemma group_span r0 rg r2 :
  (0 < length rg)%nat -> Z.of_nat (length r0 + length rg) < 2 ^ 64 ->
  exists lo hi,
    leaf_spans 0 (length <$> (r0 ++ rg ++ r2)) !! length r0 = Some lo /\
    leaf_spans 0 (length <$> (r0 ++ rg ++ r2)) !! usize_sub (length r0 + length rg) 1 = Some hi /\
    lo.1 = length (concat r0) /\ hi.2 = length (concat (r0 ++ rg : list (list T))).
Proof.
  intros Hg H64.
  assert (exists lo, leaf_spans 0 (length <$> (r0 ++ rg ++ r2)) !! length r0 = Some lo /\
    lo.1 = length (concat r0)) as (lo & Elo & Hlo).
  { destruct rg as [|x rg]; [cbn in Hg; lia|]. cbn [app]. eexists.
    split; [apply leaf_spans_lookup|done]. }
  destruct rg as [|y rg _] using rev_ind; [cbn in Hg; lia|].
  rewrite (length_app rg) in *. cbn [length] in *. rewrite usize_sub_small by lia.
  replace (length r0 + (length rg + 1) - 1)%nat with (length (r0 ++ rg))
    by (rewrite length_app; lia).
  eexists lo, _. split; [done|]. split; [|split; [done|]].
  - rewrite <- app_assoc, (app_assoc r0). apply leaf_spans_lookup.
  - cbn. rewrite !concat_app, !length_app. cbn. rewrite app_nil_r. lia.
Qed.

(** One level of nodes over the trees below it. *)
Lemma build_nodes_spec k counts bs0 bs bs1 cs0 cs r0 rss :
  (S k < MAX_LEVELS)%nat ->
  blocks = bs0 ++ bs ++ bs1 -> length bs = length counts -> length cs = sum_list counts ->
  length r0 = length cs0 -> length rss = length cs ->
  Z.of_nat (length cs0 + length cs) < 2 ^ 64 ->
  concat (r0 ++ rss) = records -> Forall (fun r => r <> []) rss -> Forall (in_u 32) cs ->
  Forall (fun c => 0 < c <= per_node sb shape)%nat counts ->
  exists out rss',
    build_nodes sb shape agno rc_keys records blocks (S k)
      (leaf_spans 0 (length <$> (r0 ++ rss))) (cs0 ++ cs) (length bs0) (length cs0) counts =
      Ok (out, leaf_spans (length (concat r0)) (length <$> rss'), bs,
          (length cs0 + length cs)%nat) /\
    concat rss' = concat rss /\ Forall (fun r => r <> []) rss' /\ length rss' = length bs /\
    built_agblock <$> out = bs /\
    forall read, agrees read out -> forall bls,
      Forall3 (subtree sb shape agno read rc_decode k) cs rss bls ->
      exists bls', Forall3 (subtree sb shape agno read rc_decode (S k)) bs rss' bls' /\
        zcat (S (S k)) bls' = zcat (S k) bls ++ [bs].
Proof.
  intros Hk Hb Hl Hcs H0 Hr H64 Hrec Hne Hu Hc. revert bs0 bs cs0 cs r0 rss Hb Hl Hcs H0 Hr H64 Hrec Hne Hu.
  induction Hc as [|c counts Hc Hcts IH]; intros bs0 bs cs0 cs r0 rss Hb Hl Hcs H0 Hr H64 Hrec Hne Hu.
  { destruct bs; [|done]. destruct cs; [|done]. destruct rss; [|done]. exists [], [].
    cbn. rewrite Nat.add_0_r. split_and!; try done. intros read _ bls Hf. inversion Hf; subst.
    exists []. split; [constructor|]. apply (replicate_S_end (S k)). }
  destruct bs as [|b bs]; [done|]. cbn [length] in Hl.
  change (sum_list (c :: counts)) with (c + sum_list counts)%nat in Hcs.
  destruct (split_at c cs) as (g & cs' & -> & Hg); [lia|].
  destruct (split_at c rss) as (rg & rss0 & -> & Hrg); [rewrite Hr, length_app; lia|].
  rewrite !length_app in *. apply Forall_app in Hne as [Hne1 Hne2], Hu as [Hu1 Hu2].
  destruct (build_node_spec k b cs0 g cs' r0 rg rss0) as (node & En & Ea & Hnode);
    try done; try lia.
  destruct (IH (bs0 ++ [b]) bs (cs0 ++ g) cs' (r0 ++ rg) rss0)
    as (out & rss' & E & E1 & E2 & E3 & E4 & E5);
    rewrite ?length_app; rewrite <- ?app_assoc; try done; try lia.
  exists (node :: out), (concat rg :: rss'). cbn [build_nodes].
  rewrite Hb, lookup_app_head. cbn [head app expect mbind res_bind].
  change (bs0 ++ b :: bs ++ bs1) with (bs0 ++ (b :: bs) ++ bs1). rewrite <- Hb.
  rewrite <- Hg at 1. rewrite En. cbn [mbind res_bind].
  destruct (group_span r0 rg rss0) as (lo & hi & Elo & Ehi & Hlo & Hhi); [lia|lia|].
  rewrite <- H0, Elo. cbn [expect mbind res_bind].
  rewrite <- Hrg, Ehi. cbn [expect mbind res_bind].
  rewrite !length_app, <- !app_assoc, <- H0, Nat.add_1_r, Hg, <- Hrg in E. cbn [length app] in E.
  rewrite E. cbn [mbind res_bind]. rewrite Hlo, Hhi.
  split_and!.
  - cbn [fmap list_fmap leaf_spans]. rewrite concat_app, length_app.
    rewrite Hrg, <- Hg, <- Nat.add_assoc. done.
  - cbn [concat]. by rewrite E1, concat_app.
  - constructor; [|done]. destruct rg as [|r rg]; [cbn in Hrg; lia|].
    apply Forall_cons in Hne1 as [Hr1 _]. cbn. intros [? ?]%app_eq_nil. done.
  - cbn. by rewrite E3.
  - cbn. by rewrite Ea, E4.
  - intros read [Hr1 Hr2]%Forall_cons bls Hf.
    apply Forall3_app_inv_l in Hf as (a1 & a2 & b1 & b2 & Ea' & -> & Hf1 & Hf2).
    apply app_inj_1 in Ea' as [<- <-]; [|apply Forall3_length_lm in Hf1; lia].
    destruct (E5 read Hr2 b2 Hf2) as (bls' & Hf' & Hz).
    pose proof (subtrees_length _ _ _ _ _ _ _ _ _ Hf1) as Hl1.
    pose proof (subtrees_length _ _ _ _ _ _ _ _ _ Hf2) as Hl2.
    exists ((zcat (S k) b1 ++ [[b]]) :: bls'). split.
    + constructor; [|done]. exists g, rg, b1. split_and!; try done. apply Hnode. by constructor.
    + change (zcat (S (S k)) ((zcat (S k) b1 ++ [[b]]) :: bls')) with
        (madd (zcat (S k) b1 ++ [[b]]) (zcat (S (S k)) bls')).
      rewrite Hz, zcat_app by done. apply madd_app. by rewrite !length_zcat.
Qed.

Lemma zcat_singletons (bs : list Z) : zcat 1 ((fun b => [[b]]) <$> bs) = [bs].
Proof. induction bs as [|b bs IH]; [done|]. cbn [fmap list_fmap].
  change (zcat 1 ([[b]] :: ((fun b => [[b]]) <$> bs)) = [b :: bs]). cbn [zcat foldr].
  fold (zcat 1 ((fun b => [[b]]) <$> bs)). by rewrite IH. Qed.

Definition root_of (l : list Z) : Z := default 0 (list.last l).

Lemma root_of_app l l' : l' <> [] -> root_of (l ++ l') = root_of l'.
Proof. intros H'. unfold root_of. rewrite last_app. by destruct (list.last l') eqn:E; [|apply last_None in E]. Qed.

Lemma build_levels_spec k n above bs0 rest cs rss :
  level_chain (per_node sb shape) n above -> (2 <= per_node sb shape)%nat ->
  (k + length above < MAX_LEVELS)%nat -> blocks = bs0 ++ rest ->
  length rest = sum_list above -> Z.of_nat n < 2 ^ 64 ->
  length cs = n -> length rss = n -> concat rss = records ->
  ((1 < n)%nat -> Forall (fun r => r <> []) rss) -> Forall (in_u 32) cs ->
  exists out,
    build_levels sb shape agno rc_keys records blocks (S k) above (length bs0)
      (leaf_spans 0 (length <$> rss)) cs = Ok out /\
    built_agblock <$> out = rest /\
    forall read, agrees read out -> forall bls,
      Forall3 (subtree sb shape agno read rc_decode k) cs rss bls ->
      exists bl,
        subtree sb shape agno read rc_decode (k + length above) (root_of (cs ++ rest)) records bl /\
        concat bl = concat (zcat (S k) bls) ++ rest.
Proof.
  intros Hc Hm. revert k bs0 rest cs rss.
  induction Hc as [|n above H1 Hc IH]; intros k bs0 rest cs rss Hk Hb Hrest H64 Hcs Hrss Hrec Hne Hu.
  { destruct rest; [|done]. exists []. split; [done|]. split; [done|].
    intros read _ bls Hf. destruct cs as [|c [|]]; try done. destruct rss as [|r [|]]; try done.
    inversion Hf as [|? ? bl ? ? ? Hs Hf']; subst. inversion Hf'; subst.
    exists bl. cbn [length app concat zcat foldr]. rewrite Nat.add_0_r, app_nil_r, madd_nil, app_nil_r.
    done. }
  set (m := div_ceil n (per_node sb shape)) in *.
  pose proof (div_ceil_lt n _ H1 Hm) as Hlt. fold m in Hlt.
  change (sum_list (m :: above)) with (m + sum_list above)%nat in Hrest. cbn [length] in Hk.
  destruct (split_at m rest) as (bs & rest' & -> & Hbs); [lia|]. rewrite length_app in Hrest.
  pose proof (ceil_filled (per_node sb shape) n m ltac:(lia) ltac:(lia) ltac:(lia)) as Hfill.
  destruct (build_nodes_spec k (share n m) bs0 bs rest' [] cs [] rss)
    as (out & rss' & E & Hcat & Hne' & Hl' & Ebs & Hup); try done; try (cbn; lia).
  { by rewrite length_share by lia. } { by rewrite sum_share by lia. }
  { by apply Hne. }
  { apply Forall_forall. intros c Hcc. split; [|by apply Hfill].
    eapply share_pos; [| |done]; lia. }
  destruct (IH (S k) (bs0 ++ bs) rest' bs rss') as (out2 & E2 & Ebs2 & Hup2); try done; try lia.
  { by rewrite <- app_assoc. } { by rewrite Hcat. }
  { rewrite Hb, !Forall_app in Hblocks. tauto. }
  exists (out ++ out2). cbn [build_levels]. rewrite Hcs. cbn [app length] in E. rewrite E.
  cbn [mbind res_bind]. rewrite Hcs, Nat.eqb_refl. cbn [negb fail_if mbind res_bind].
  rewrite length_app, Hbs in E2. cbn [concat length] in *. rewrite E2. cbn [mbind res_bind].
  split; [done|]. split; [by rewrite fmap_app, Ebs, Ebs2|].
  intros read [Ha Ha2]%Forall_app bls Hf. destruct (Hup read Ha bls Hf) as (bls' & Hf' & Hz).
  destruct (Hup2 read Ha2 bls' Hf') as (bl & Hs & Hbl).
  exists bl. rewrite root_of_app by (destruct bs; [cbn in Hbs; lia|done]).
  rewrite Nat.add_succ_r. split; [done|].
  rewrite Hbl, Hz, concat_app. cbn [concat]. by rewrite app_nil_r, <- app_assoc.
Qed.

(** Everything [build] does, when it is given the blocks its plan asks for. *)
Lemma build_spec levels :
  plan shape (sb_blocksize sb) (is_v5 sb) (length records) = Ok levels ->
  length blocks = sum_list levels ->
  (length blocks <= Z.to_nat (Z.max (sb_agblocks sb) 64))%nat ->
  exists out,
    build sb shape agno rc_encode rc_keys records blocks = Ok out /\
    built_agblock <$> out = blocks /\
    forall read, agrees read out ->
      walk_blocks sb shape agno read rc_decode (root_of blocks) (Z.of_nat (length levels)) =
        Ok (records, blocks).
Proof.
  intros Hp Hn Hbud. pose proof (plan_spec sb shape (length records)) as Hs. rewrite Hp in Hs.
  destruct Hs as (above & -> & Hchain & Hdepth & Hpl & Hpn).
  set (first := Nat.max (div_ceil (length records) (per_leaf sb shape)) 1) in *.
  pose proof (ceil_filled (per_leaf sb shape) (length records) first ltac:(lia) ltac:(lia) eq_refl)
    as Hfill.
  change (sum_list (first :: above)) with (first + sum_list above)%nat in Hn.
  destruct (split_at first blocks) as (bs & rest & Hb & Hbs); [lia|].
  pose proof (ty_agblocks _ Hty) as Hab. unfold in_u in Hab.
  assert (length rest = sum_list above) by (rewrite Hb, length_app in Hn; lia).
  destruct (build_leaves_spec (share (length records) first) [] bs rest [] records)
    as (leaves & rss & El & Hcnt & Hcat & Eb & Hleaf); try done.
  { by rewrite length_share by lia. } { by rewrite sum_share by lia. }
  { apply Forall_forall. intros c Hc. by apply Hfill. }
  assert (Hlr : length rss = first).
  { rewrite <- (length_share (length records) first ltac:(lia)), <- Hcnt. by rewrite length_fmap. }
  cbn [length] in Hdepth.
  destruct (build_levels_spec 0 first above bs rest bs rss) as (nodes & En & Ebn & Htree); try done; try lia.
  { intros H1. apply Forall_forall. intros r Hr ->.
    assert (0%nat ∈ share (length records) first) as Hz0.
    { rewrite <- Hcnt. apply list_elem_of_fmap. by exists []. }
    apply share_pos in Hz0; [lia|lia|]. subst first.
    pose proof (div_ceil_spec (length records) (per_leaf sb shape) Hpl). nia. }
  { rewrite Hb, Forall_app in Hblocks. tauto. }
  exists (leaves ++ nodes). unfold build. rewrite Hp. cbn [mbind res_bind].
  change (sum_list (first :: above)) with (first + sum_list above)%nat.
  rewrite Hn, Nat.eqb_refl. cbn [negb fail_if mbind res_bind head expect tail].
  cbn [length] in El. rewrite El. cbn [mbind res_bind fst snd].
  rewrite Nat.add_0_l, Nat.eqb_refl. cbn [negb fail_if mbind res_bind].
  rewrite get_slice_Ok by lia. cbn [mbind res_bind].
  assert (slice 0 first blocks = bs) as ->.
  { rewrite Hb. unfold slice. rewrite drop_0. by apply take_app_length'. }
  rewrite <- Hcnt, <- Hbs, En. cbn [mbind res_bind]. split; [done|].
  split; [by rewrite fmap_app, Eb, Ebn|].
  intros read [Ha1 Ha2]%Forall_app.
  destruct (Htree read Ha2 _ (Hleaf read Ha1)) as (bl & Hsub & Hbl). rewrite <- Hb in Hsub.
  rewrite zcat_singletons in Hbl. cbn [concat] in Hbl. rewrite app_nil_r, <- Hb in Hbl.
  cbn [length Nat.add] in *. erewrite walk_blocks_subtree; [by rewrite Hbl|done|cbn; lia|by rewrite Hbl].
Qed.
End layout.

(** C1: laying records out and walking the result gives the records back, in
    order, together with the blocks of the tree, leaves first: for every tree
    of a group whose record format obeys its laws, every list of records and
    every set of blocks of the size the plan asks for, [build] succeeds on
    exactly those blocks, and a walk from the last of them reads the records
    and the blocks back. *)
Theorem walk_build_roundtrip `{Crc : Crc32c, !Crc32cLaws} {T} `{codec : RecordCodec T}
    (good : T -> Prop) `{!RecordCodecLaws T good} sb agno records blocks levels :
  sb_typed sb -> sb_geometry sb -> shape_typed sb (rc_shape T) -> in_u 32 agno ->
  Forall good records -> Forall (in_u 32) blocks ->
  plan (rc_shape T) (sb_blocksize sb) (is_v5 sb) (length records) = Ok levels ->
  length blocks = sum_list levels ->
  (length blocks <= Z.to_nat (Z.max (sb_agblocks sb) 64))%nat ->
  exists out,
    build sb (rc_shape T) agno rc_encode rc_keys records blocks = Ok out /\
    built_agblock <$> out = blocks /\
    forall read, agrees read out ->
      walk_blocks sb (rc_shape T) agno read rc_decode (root_of blocks)
        (Z.of_nat (length levels)) = Ok (records, blocks).
Proof. intros. by eapply build_spec. Qed.

(** ** Walking a block nobody vouches for *)

Ltac by_err := split; [done|intros ? [=]].

Section safety.
Context `{Crc : Crc32c} (sb : Superblock) (shape : Shape) (agno : Z).

Lemma parse_block_sound buf agblock level :
  parse_block buf sb shape agno agblock level <> Panic /\
  forall node, parse_block buf sb shape agno agblock level = Ok node ->
    node_level node = level /\ 0 <= node_numrecs node.
Proof.
  unfold parse_block.
  destruct (Nat.ltb_spec (length buf) (btree_header (is_v5 sb))) as [|Hl];
    cbn [fail_if mbind res_bind]; [by_err|].
  assert (16 <= length buf)%nat by (unfold btree_header in Hl; case_match; off_lia).
  set (wanted := if is_v5 sb then Ok (magic_v5 shape) else _).
  assert (Hw : wanted <> Panic)
    by (subst wanted; unfold ok_or; by repeat case_match).
  destruct wanted as [want|e|]; cbn [mbind res_bind]; [|by_err|done].
  rewrite (be32_Ok buf offsets.MAGIC), !be16_Ok by off_lia. cbn [mbind res_bind].
  destruct (negb (rd 4 offsets.MAGIC buf =? want)); cbn [fail_if mbind res_bind]; [by_err|].
  set (checks := if is_v5 sb then _ else _).
  assert (Hc : checks <> Panic).
  { subst checks. unfold btree_header in Hl. destruct (is_v5 sb); [|done].
    rewrite le32_Ok, crc32c_with_zeroed_crc_Ok, uuid_at_Ok, be32_Ok, be64_Ok by off_lia.
    cbn [mbind res_bind]. repeat (case_match; cbn [fail_if mbind res_bind] in *; try done).
    all: repeat (apply bind_not_Panic; [apply fail_if_not_Panic|intros _ _]);
      apply fail_if_not_Panic. }
  destruct checks as [u|e|]; cbn [mbind res_bind]; [|by_err|done].
  destruct (Z.eqb_spec (rd 2 offsets.LEVEL buf) level) as [<-|];
    cbn [negb fail_if mbind res_bind]; [|by_err].
  destruct (_ <? _)%nat; cbn [fail_if mbind res_bind]; [by_err|].
  split; [done|]. intros node [= <-]. cbn [node_level node_numrecs].
  pose proof (rd_range_any 2 offsets.NUMRECS buf). split; [done|lia].
Qed.

Context {T : Type} (read_agblock : Z -> res bytes) (decode : bytes -> nat -> res T).
Context (Hread : forall b, read_agblock b <> Panic).
Context (Hdecode : forall buf pos, (pos + record_len shape <= length buf)%nat ->
  exists r, decode buf pos = Ok r).

(** A block the walk let through. *)
Definition vouched (b : Z) : Prop :=
  exists buf level node, read_agblock b = Ok buf /\
    parse_block buf sb shape agno b level = Ok node.

Lemma res_map_total {A B} (f : A -> res B) l :
  (forall x, x ∈ l -> exists y, f x = Ok y) -> exists ys, res_map f l = Ok ys.
Proof.
  induction l as [|x l IH]; intros Hf; cbn; [by eexists|].
  destruct (Hf x ltac:(set_solver)) as [y ->]. cbn [mbind res_bind].
  destruct IH as [ys ->]; [intros; apply Hf; set_solver|]. by eexists.
Qed.

Definition walk_ok (budget : nat) (seen : list (list Z)) (r : res (list T * list Z)) : Prop :=
  match r with
  | Ok (_, bs) => Forall vouched bs /\ (length bs <= budget + length (concat seen))%nat
  | Err _ => True
  | Panic => False
  end.

Lemma concat_insert_snoc seen k old (b : Z) :
  seen !! k = Some old ->
  Permutation (concat (<[k := old ++ [b]]> seen)) (b :: concat seen).
Proof.
  revert k; induction seen as [|s seen IH]; intros [|k] Hk; cbn in *; simplify_eq; [|].
  - rewrite <- app_assoc. symmetry. apply Permutation_middle.
  - rewrite IH by done. symmetry. apply Permutation_middle.
Qed.

Lemma walk_loop_sound budget stack out seen :
  Forall (fun p => 0 <= p.2 < Z.of_nat (length seen)) stack ->
  Z.of_nat (length seen) < 2 ^ 16 -> Forall vouched (concat seen) ->
  walk_ok budget seen (walk_loop sb shape agno read_agblock decode budget stack out seen).
Proof.
  revert stack out seen; induction budget as [|budget IH]; intros stack out seen Hst H16 Hv;
    (destruct stack as [|[b lv] stack]; cbn [walk_loop]; [split; [done|lia]|]); [done|].
  apply Forall_cons in Hst as [Hlv Hst]. cbn [snd] in Hlv.
  destruct (read_agblock b) as [buf|e|] eqn:Er; cbn [mbind res_bind]; [|done|by eapply Hread].
  destruct (parse_block_sound buf b lv) as [Hnp Hok].
  destruct (parse_block buf sb shape agno b lv) as [node|e|] eqn:Ep; cbn [mbind res_bind]; try done.
  destruct (Hok node eq_refl) as [-> Hn].
  destruct (lookup_lt_is_Some_2 seen (Z.to_nat lv)) as [old Hold]; [lia|]. rewrite Hold.
  cbn [expect mbind res_bind]. set (seen' := <[Z.to_nat lv := old ++ [b]]> seen).
  assert (Hp : Permutation (concat seen') (b :: concat seen)) by by apply concat_insert_snoc.
  assert (Hv' : Forall vouched (concat seen')).
  { rewrite Hp. constructor; [|done]. by exists buf, lv, node. }
  assert (Hls : length seen' = length seen) by apply length_insert.
  assert (Hnext : forall st out', Forall (fun p => 0 <= p.2 < Z.of_nat (length seen)) st ->
    walk_ok (S budget) seen (walk_loop sb shape agno read_agblock decode budget st out' seen')).
  { intros st out' Hst'. specialize (IH st out' seen'). rewrite Hls in IH.
    specialize (IH Hst' H16 Hv'). unfold walk_ok in *.
    assert (length (concat seen') = S (length (concat seen))) by by rewrite Hp.
    repeat case_match; try done. destruct IH. split; [done|lia]. }
  destruct (Z.eqb_spec lv 0) as [->|Hne].
  - destruct (_ <? _)%nat eqn:El; cbn [fail_if mbind res_bind]; [done|]. bool_prop.
    destruct (res_map_total (fun i => decode buf (node_body node + i * record_len shape)%nat)
      (seq 0 (Z.to_nat (node_numrecs node)))) as [rs Hrs].
    { intros i Hi%elem_of_seq. apply Hdecode. nia. }
    unfold leaf_records. rewrite Hrs. cbn [mbind res_bind]. by apply Hnext.
  - destruct (_ <? _)%nat eqn:El; cbn [fail_if mbind res_bind]; [done|]. bool_prop.
    set (first := (node_body node + _)%nat) in *.
    destruct (res_map_total (fun i => p ← be32 buf (first + i * PTR_LEN)%nat; Ok (p, wsub 16 lv 1))
      (seq 0 (Z.to_nat (node_numrecs node)))) as [cs Hcs].
    { intros i Hi%elem_of_seq. rewrite be32_Ok by off_lia. by eexists. }
    unfold child_pointers. destruct (Hok node eq_refl) as [-> _]. rewrite Hcs.
    cbn [mbind res_bind]. apply Hnext. apply Forall_app. split; [|done].
    apply res_map_Ok in Hcs. apply Forall_forall. intros [c l] Hc.
    apply list_elem_of_lookup in Hc as [i Hi].
    destruct (Forall2_lookup_r _ _ _ _ _ Hcs Hi) as (j & Hj & Hb). res_inv.
    cbn [snd]. rewrite wsub_small by lia. lia.
Qed.
End safety.

Lemma walk_blocks_total `{Crc : Crc32c} {T} sb shape agno (read_agblock : Z -> res bytes)
    (decode : bytes -> nat -> res T) root levels :
  (forall b, read_agblock b <> Panic) ->
  (forall buf pos, (pos + record_len shape <= length buf)%nat -> exists r, decode buf pos = Ok r) ->
  0 <= levels ->
  match walk_blocks sb shape agno read_agblock decode root levels with
  | Ok (_, bs) => Forall (vouched sb shape agno read_agblock) bs /\
      Z.of_nat (length bs) <= Z.max (sb_agblocks sb) 64
  | Err _ => True
  | Panic => False
  end.
Proof.
  intros Hread Hdec Hl. unfold walk_blocks.
  destruct ((levels =? 0) || _) eqn:E; cbn [fail_if mbind res_bind]; [done|]. bool_prop.
  unfold MAX_LEVELS in *.
  pose proof (walk_loop_sound sb shape agno read_agblock decode Hread Hdec
    (Z.to_nat (Z.max (sb_agblocks sb) 64)) [(root, wrap 16 (levels - 1))] []
    (replicate (Z.to_nat levels) [])) as H'.
  rewrite length_replicate, concat_replicate_nil in H'. unfold walk_ok in H'.
  rewrite concat_replicate_nil in H'. cbn [length] in H'.
  rewrite wrap_small in * by (unfold in_u; lia).
  destruct (walk_loop _ _ _ _ _ _ _ _ _) as [[rs bs]|e|]; [|done|]; cbn [snd] in H'.
  - destruct H' as [? ?]; [repeat constructor; cbn; lia|lia|constructor|]. split; [done|lia].
  - apply H'; [repeat constructor; cbn; lia|lia|constructor].
Qed.

(** Walking any image at all, however corrupt, ends without a panic, reads
    no more blocks than the group has (or 64), and every block it reports
    passed the identity checks for the group, the block number and the depth
    it was reached at. *)
Theorem walk_blocks_sound `{Crc : Crc32c} {T} sb shape agno (read_agblock : Z -> res bytes)
    (decode : bytes -> nat -> res T) root levels :
  (forall b, read_agblock b <> Panic) ->
  (forall buf pos, (pos + record_len shape <= length buf)%nat -> exists r, decode buf pos = Ok r) ->
  0 <= levels ->
  match walk_blocks sb shape agno read_agblock decode root levels with
  | Ok (_, bs) => Forall (vouched sb shape agno read_agblock) bs /\
      Z.of_nat (length bs) <= Z.max (sb_agblocks sb) 64
  | Err _ => True
  | Panic => False
  end.
Proof. apply walk_blocks_total. Qed.
