(* ===== verification/AllocBtree.v ===== *)
(** * The free-space trees ([src/src/alloc_btree.rs])

    The two orders a group keeps its free space in, the shape each tree has
    and the record format both share, as an instance of the interface the
    walker and the builder of [AgBtree] are proved against. *)

From Stdlib Require Import ZArith Lia Strings.String.
From stdpp Require Import base list strings.
From S2P Require Import Prelude Error Endian Crc32c Superblock Sample Ag FreeSpace AgBtree.

Definition XFS_ABTB_MAGIC : Z := 0x41425442.
Definition XFS_ABTB_CRC_MAGIC : Z := 0x41423342.
Definition XFS_ABTC_MAGIC : Z := 0x41425443.
Definition XFS_ABTC_CRC_MAGIC : Z := 0x41423343.
Definition RECORD_LEN : nat := 8.
Definition KEY_LEN : nat := 8.

Inductive Order := ByBlock | ByCount.

Definition order_magic (o : Order) (v5 : bool) : Z :=
  match o, v5 with
  | ByBlock, true => XFS_ABTB_CRC_MAGIC
  | ByBlock, false => XFS_ABTB_MAGIC
  | ByCount, true => XFS_ABTC_CRC_MAGIC
  | ByCount, false => XFS_ABTC_MAGIC
  end.
Definition order_name (o : Order) : string :=
  match o with ByBlock => "bnobt" | ByCount => "cntbt" end.
Definition order_shape (o : Order) : Shape :=
  mkShape (order_name o) (Some (order_magic o false)) (order_magic o true)
    RECORD_LEN KEY_LEN false.

(** The key of a child is its first record: [encode_free_extent(buf, at, &recs[0])]. *)
Definition free_extent_keys (buf : bytes) (pos : nat) (recs : list FreeExtent) : res bytes :=
  r ← expect (head recs); encode_free_extent buf pos r.

Definition alloc_codec (o : Order) : RecordCodec FreeExtent := {|
  rc_shape := order_shape o;
  rc_encode := encode_free_extent;
  rc_decode := decode_free_extent;
  rc_keys := free_extent_keys;
|}.

Definition fe_bytes (r : FreeExtent) : bytes :=
  to_be_bytes 4 (startblock r) ++ to_be_bytes 4 (blockcount r).

Lemma length_fe_bytes r : length (fe_bytes r) = 8%nat.
Proof. unfold fe_bytes. by rewrite length_app, !length_to_be_bytes. Qed.

#[global] Instance alloc_codec_laws (o : Order) :
  @RecordCodecLaws FreeExtent (alloc_codec o) fe_typed.
Proof.
  unshelve esplit; [exact fe_bytes|..]; cbn [rc_shape rc_encode rc_decode rc_keys alloc_codec
    order_shape record_len key_len keys_per_entry overlapping]; unfold RECORD_LEN, KEY_LEN.
  - apply length_fe_bytes.
  - intros. by apply encode_free_extent_Ok.
  - intros buf pos [s c] [Hs Hc] Hl Hr. rewrite decode_free_extent_Ok by done.
    unfold rd. replace (slice pos 4 buf) with (to_be_bytes 4 s);
      [replace (slice (pos + 4) 4 buf) with (to_be_bytes 4 c)|].
    + by rewrite !from_to_be_bytes_small.
    + rewrite <- (slice_slice pos 8 4 4), Hr by lia. reflexivity.
    + rewrite <- (Nat.add_0_r pos), <- (slice_slice pos 8 0 4), Hr by lia. reflexivity.
  - intros buf pos [|r rs] Hne Hl; [done|]. exists (fe_bytes r).
    split; [apply length_fe_bytes|]. apply encode_free_extent_Ok. lia.
  - lia.
  - unfold encode_free_extent. keeps_length.
  - unfold free_extent_keys, encode_free_extent. keeps_length.
Qed.

Lemma order_shape_typed sb o : shape_typed sb (order_shape o).
Proof. split; [by destruct o|]. intros _. eexists. split; [done|by destruct o]. Qed.

Section walks.
Context `{Crc : Crc32c} (sb : Superblock) (read_agblock : Z -> res bytes).

Definition walk (order : Order) (agno root levels : Z) : res (list FreeExtent) :=
  AgBtree.walk sb (order_shape order) agno read_agblock decode_free_extent root levels.

Definition walk_from_agf (a : Agf) (order : Order) : res (list FreeExtent) :=
  let which := match order with ByBlock => agf_btree.BNO | ByCount => agf_btree.CNT end in
  root ← expect (agf_roots a !! which);
  levels ← expect (agf_levels a !! which);
  walk order (agf_seqno a) root levels.
End walks.

(** ** A group whose free-space tree has three blocks *)

Definition sample_records : list FreeExtent :=
  (fun i => mkFree (10 * i + 10) 3) <$> seqZ 0 100.
Definition sample_blocks : list Z := [20; 21; 22].
Definition sample_image : list Built :=
  match build sample_sb (order_shape ByBlock) 1 encode_free_extent free_extent_keys
          sample_records sample_blocks with
  | Ok out => out
  | _ => []
  end.
Definition sample_read (b : Z) : res bytes :=
  match find (fun x => built_agblock x =? b) sample_image with
  | Some x => Ok (built_bytes x)
  | None => Err NotFound
  end.

Lemma walk_build_roundtrip_witness :
  walk sample_sb sample_read ByBlock 1 22 2 = Ok sample_records.
Proof.
  destruct (@walk_build_roundtrip _ _ FreeExtent (alloc_codec ByBlock) fe_typed _
    sample_sb 1 sample_records sample_blocks [2; 1]%nat sample_typed sample_geometry
    (order_shape_typed _ _) ltac:(done)) as (out & Hb & Ha & Hw).
  - apply Forall_fmap, Forall_forall. intros i Hi%elem_of_seqZ. unfold fe_typed, in_u. cbn. lia.
  - repeat constructor; done.
  - vm_compute. reflexivity.
  - reflexivity.
  - apply Nat.leb_le. reflexivity.
  - specialize (Hw sample_read). unfold walk, AgBtree.walk.
    cbn [rc_shape rc_decode alloc_codec] in Hw. change (root_of sample_blocks) with 22 in Hw. change (Z.of_nat _) with 2 in Hw.
    rewrite Hw; [reflexivity|].
    assert (out = sample_image) as -> by (unfold sample_image;
      cbn [rc_shape rc_encode rc_keys alloc_codec] in Hb; by rewrite Hb).
    vm_compute. repeat constructor.
Defined.

Lemma walk_blocks_sound_witness :
  match walk_blocks sample_sb (order_shape ByBlock) 1 sample_read decode_free_extent 22 2 with
  | Ok (_, bs) => Forall (vouched sample_sb (order_shape ByBlock) 1 sample_read) bs /\
      Z.of_nat (length bs) <= 2048
  | Err _ => True
  | Panic => False
  end.
Proof.
  apply (walk_blocks_sound sample_sb (order_shape ByBlock) 1 sample_read decode_free_extent 22 2).
  - intros b. unfold sample_read. by case_match.
  - intros buf pos H. eexists. by apply decode_free_extent_Ok.
  - lia.
Defined.
