(* ===== verification/InodeBtree.v ===== *)
(** * The inode trees of a group ([src/src/inode_btree.rs])

    Inodes are allocated in chunks of 64; a record says where a chunk starts,
    which groups of four it has no blocks for, and which of its inodes are free.

    The theorems: taking and giving back an inode are insertion and removal on
    the set of the chunk's free inodes, and keep its count the size of that set;
    the inode a create takes is the first free one there is; a record survives
    its encoding, so that the trees are an instance of the group btrees' round
    trip; the walk of this file reads what the shared one reads. *)

From Stdlib Require Import ZArith Lia Strings.String Strings.Byte Bool.
From stdpp Require Import base list strings gmap sets.
From S2P Require Import Prelude Error Endian Crc32c Superblock Sample Ag Agfl FreeSpace AgBtree AllocBtree.

Definition XFS_IBT_MAGIC : Z := 0x49414254.
Definition XFS_IBT_CRC_MAGIC : Z := 0x49414233.
Definition XFS_FIBT_MAGIC : Z := 0x46494254.
Definition XFS_FIBT_CRC_MAGIC : Z := 0x46494233.
Definition V4_HEADER_LEN : nat := 16.
Definition V5_HEADER_LEN : nat := 56.
Definition RECORD_LEN : nat := 16.
Definition KEY_LEN : nat := 4.
Definition PTR_LEN : nat := 4.
Definition INODES_PER_CHUNK : Z := 64.
Definition INODES_PER_HOLEMASK_BIT : Z := 4.
Definition MAX_LEVELS : Z := 9.

Inductive Which := All | WithFreeInodes.
#[global] Instance Which_eq_dec : EqDecision Which.
Proof. solve_decision. Defined.
Definition which_magic (w : Which) (v5 : bool) : Z :=
  match w, v5 with
  | All, true => XFS_IBT_CRC_MAGIC
  | All, false => XFS_IBT_MAGIC
  | WithFreeInodes, true => XFS_FIBT_CRC_MAGIC
  | WithFreeInodes, false => XFS_FIBT_MAGIC
  end.
Definition which_name (w : Which) : string := match w with All => "inobt" | WithFreeInodes => "finobt" end.

Record InodeChunk := mkChunk { startino : Z; holemask : Z; c_count : Z; freecount : Z; free : Z }.
#[global] Instance InodeChunk_eq_dec : EqDecision InodeChunk.
Proof. solve_decision. Defined.

Definition is_free (c : InodeChunk) (n : Z) : res bool :=
  assert (n <? INODES_PER_CHUNK);;
  Ok (negb (Z.land (free c) (wshl 64 1 n) =? 0)).
Definition chunk_exists (c : InodeChunk) (n : Z) : res bool :=
  assert (n <? INODES_PER_CHUNK);;
  Ok (Z.land (holemask c) (wshl 16 1 (n / INODES_PER_HOLEMASK_BIT)) =? 0).

(** [iter.find(|&n| ..)], and [iter.filter(|&n| ..)]. *)
Fixpoint res_find (p : Z -> res bool) (ns : list Z) : res (option Z) :=
  match ns with
  | [] => Ok None
  | n :: ns => b ← p n; if b : bool then Ok (Some n) else res_find p ns
  end.
Fixpoint res_filter (p : Z -> res bool) (ns : list Z) : res (list Z) :=
  match ns with
  | [] => Ok []
  | n :: ns => b ← p n; rest ← res_filter p ns; Ok (if b : bool then n :: rest else rest)
  end.

(** [self.exists(n) && self.is_free(n)] *)
Definition present_and_free (c : InodeChunk) (n : Z) : res bool :=
  e ← chunk_exists c n; if e : bool then is_free c n else Ok false.
Definition first_free (c : InodeChunk) : res (option Z) := res_find (present_and_free c) (seqZ 0 INODES_PER_CHUNK).

(** [u64::count_ones] *)
Definition count_ones (z : Z) : Z := Z.of_nat (length (List.filter (Z.testbit z) (seqZ 0 64))).

(** The inodes of the holes. *)
Definition holes (mask : Z) : Z :=
  foldl (fun m bit => Z.lor m (wshl 64 (wsub 64 (wshl 64 1 INODES_PER_HOLEMASK_BIT) 1) (bit * INODES_PER_HOLEMASK_BIT))) 0
    (List.filter (fun bit => negb (Z.land mask (wshl 16 1 bit) =? 0)) (seqZ 0 (INODES_PER_CHUNK / INODES_PER_HOLEMASK_BIT))).

Definition check_counts (c : InodeChunk) : res unit :=
  fail_if ((c_count c <? INODES_PER_HOLEMASK_BIT) || (INODES_PER_CHUNK <? c_count c))
    (bad "the inode chunk at {} claims {} inodes, where a chunk holds between {} and {}"
       [AZ (startino c); AZ (c_count c); AZ INODES_PER_HOLEMASK_BIT; AZ INODES_PER_CHUNK]);;
  let n := count_ones (Z.land (free c) (wrap 64 (Z.lnot (holes (holemask c))))) in
  fail_if (negb (freecount c =? n))
    (bad "the inode chunk at {} counts {} free inodes, but its free mask has {}" [AZ (startino c); AZ (freecount c); AZ n]).

Definition record (sparse : bool) (buf : bytes) (pos : nat) : res InodeChunk :=
  startino ← be32 buf pos;
  free ← be64 buf (pos + 8);
  if sparse then
    holemask ← be16 buf (pos + 4);
    count ← byte_at buf (pos + 6);
    freecount ← byte_at buf (pos + 7);
    let chunk := mkChunk startino holemask count freecount free in
    check_counts chunk;;
    Ok chunk
  else
    freecount ← be32 buf (pos + 4);
    fail_if (INODES_PER_CHUNK <? freecount)
      (bad "an inode chunk at {} claims {} free inodes, more than the              {} a chunk holds — which is what a packed record looks like              when it is read as a plain one"
         [AZ startino; AZ freecount; AZ INODES_PER_CHUNK]);;
    let chunk := mkChunk startino 0 INODES_PER_CHUNK (wrap 8 freecount) free in
    check_counts chunk;;
    Ok chunk.

Definition record_counted (sparse : bool) (buf : bytes) (pos : nat) : res (InodeChunk * option Error) :=
  match record sparse buf pos with
  | Ok chunk => Ok (chunk, None)
  | Panic => Panic
  | Err e =>
      startino ← be32 buf pos;
      holemask ← (if sparse then be16 buf (pos + 4) else Ok 0);
      count ← (if sparse then byte_at buf (pos + 6) else Ok INODES_PER_CHUNK);
      free ← be64 buf (pos + 8);
      plain ← (if sparse then Ok false else n ← be32 buf (pos + 4); Ok (INODES_PER_CHUNK <? n));
      if plain : bool then Err e
      else
        present ← res_filter (present_and_free (mkChunk startino holemask count 0 free)) (seqZ 0 INODES_PER_CHUNK);
        let chunk := mkChunk startino holemask count (wrap 8 (Z.of_nat (length present))) free in
        check_counts chunk;;
        Ok (chunk, Some e)
  end.

Definition shape (which : Which) : Shape :=
  mkShape (which_name which) (Some (which_magic which false)) (which_magic which true) RECORD_LEN KEY_LEN false.

Definition encode (sparse : bool) (buf : bytes) (pos : nat) (c : InodeChunk) : res bytes :=
  buf ← copy_at pos (to_be_bytes 4 (startino c)) buf;
  buf ← (if sparse then
           buf ← copy_at (pos + 4) (to_be_bytes 2 (holemask c)) buf;
           buf ← copy_at (pos + 6) (to_be_bytes 1 (c_count c)) buf;
           copy_at (pos + 7) (to_be_bytes 1 (freecount c)) buf
         else copy_at (pos + 4) (to_be_bytes 4 (freecount c)) buf);
  copy_at (pos + 8) (to_be_bytes 8 (free c)) buf.
Definition encode_key (buf : bytes) (pos : nat) (c : InodeChunk) : res bytes :=
  copy_at pos (to_be_bytes 4 (startino c)) buf.

(** ** Taking and giving back *)

Inductive Taken := ChunkStillHasFree | ChunkNowFull.
Inductive Given := ChunkAlreadyHadFree | ChunkWasFull.

Definition past_chunk (n : Z) (c : InodeChunk) : Error :=
  CorruptLog (fmt "inode {} of the chunk at {}, which holds {}" [AZ n; AZ (startino c); AZ INODES_PER_CHUNK]).
Definition of_chunk (why : string) (n : Z) (c : InodeChunk) : Error :=
  CorruptLog (fmt ("inode {} of the chunk at {} " ++ why) [AZ n; AZ (startino c)]).

Definition take (c : InodeChunk) (n : Z) : res (InodeChunk * Taken) :=
  fail_if (INODES_PER_CHUNK <=? n) (past_chunk n c);;
  e ← chunk_exists c n;
  fail_if (negb e) (of_chunk "is a hole — the chunk has no blocks behind it" n c);;
  f ← is_free c n;
  fail_if (negb f) (of_chunk "is already in use" n c);;
  freecount ← ok_or (checked_sub (freecount c) 1) (of_chunk "is free, but the chunk counts no free inodes" n c);
  let free := Z.land (free c) (wrap 64 (Z.lnot (wshl 64 1 n))) in
  Ok (mkChunk (startino c) (holemask c) (c_count c) freecount free,
      if freecount =? 0 then ChunkNowFull else ChunkStillHasFree).

Definition give_back (c : InodeChunk) (n : Z) : res (InodeChunk * Given) :=
  fail_if (INODES_PER_CHUNK <=? n) (past_chunk n c);;
  e ← chunk_exists c n;
  fail_if (negb e) (of_chunk "is a hole, so it was never in use" n c);;
  f ← is_free c n;
  fail_if f (of_chunk "is already free" n c);;
  Ok (mkChunk (startino c) (holemask c) (c_count c) (wadd 8 (freecount c) 1) (Z.lor (free c) (wshl 64 1 n)),
      if freecount c =? 0 then ChunkWasFull else ChunkAlreadyHadFree).

(** [chunks.iter().enumerate().find_map(..)] *)
Fixpoint choose_loop (i : nat) (chunks : list InodeChunk) : res (option (nat * Z)) :=
  match chunks with
  | [] => Ok None
  | c :: chunks =>
      n ← first_free c;
      match n with
      | Some n => Ok (Some (i, n))
      | None => choose_loop (i + 1) chunks
      end
  end.
Definition choose_free_inode (chunks : list InodeChunk) : res (option (nat * Z)) := choose_loop 0 chunks.

(** ** The set of a chunk's free inodes *)

Definition free_in (c : InodeChunk) (n : Z) : bool := negb (Z.testbit (holemask c) (n / 4)) && Z.testbit (free c) n.
Definition free_inodes (c : InodeChunk) : gset Z := list_to_set (List.filter (free_in c) (seqZ 0 64)).
(** The inodes there are, free or not. *)
Definition present_inodes (c : InodeChunk) : gset Z :=
  list_to_set (List.filter (fun n => negb (Z.testbit (holemask c) (n / 4))) (seqZ 0 64)).

Record chunk_ok (c : InodeChunk) : Prop := {
  ck_start : in_u 32 (startino c);
  ck_mask : in_u 16 (holemask c);
  ck_free : in_u 64 (free c);
  ck_count : 4 <= c_count c <= 64;
  ck_counts : freecount c = Z.of_nat (size (free_inodes c));
}.

(** ** Bits *)

Lemma wshl_1 w n : 0 <= n < w -> wshl w 1 n = 2 ^ n.
Proof.
  intros Hn. unfold wshl. rewrite Z.mod_small by lia. rewrite Z.shiftl_1_l. apply wrap_small. unfold in_u.
  split; [apply Z.pow_nonneg; lia|apply Z.pow_lt_mono_r; lia].
Qed.

Lemma land_pow2 z n : 0 <= n -> negb (Z.land z (2 ^ n) =? 0) = Z.testbit z n.
Proof.
  intros Hn. assert (E : Z.land z (2 ^ n) = if Z.testbit z n then 2 ^ n else 0).
  { apply Z.bits_inj'. intros i Hi. rewrite Z.land_spec, Z.pow2_bits_eqb by done. destruct (Z.eqb_spec n i) as [->|Hne].
    - destruct (Z.testbit z i); [by rewrite Z.pow2_bits_true by lia|by rewrite Z.bits_0].
    - rewrite andb_false_r. destruct (Z.testbit z n); [by rewrite Z.pow2_bits_false by lia|by rewrite Z.bits_0]. }
  rewrite E. destruct (Z.testbit z n); [|done]. pose proof (Z.pow_pos_nonneg 2 n ltac:(lia) Hn). by rewrite (proj2 (Z.eqb_neq _ _)) by lia.
Qed.

Lemma testbit_land w z n : 0 <= n < w -> negb (Z.land z (wshl w 1 n) =? 0) = Z.testbit z n.
Proof. intros Hn. rewrite wshl_1 by done. apply land_pow2. lia. Qed.

Lemma is_free_spec c n : 0 <= n < 64 -> is_free c n = Ok (Z.testbit (free c) n).
Proof. intros Hn. unfold is_free, INODES_PER_CHUNK. rewrite (proj2 (Z.ltb_lt _ _)) by lia. cbn [assert mbind res_bind]. by rewrite testbit_land by lia. Qed.

Lemma chunk_exists_spec c n : 0 <= n < 64 -> chunk_exists c n = Ok (negb (Z.testbit (holemask c) (n / 4))).
Proof.
  intros Hn. unfold chunk_exists, INODES_PER_CHUNK, INODES_PER_HOLEMASK_BIT. rewrite (proj2 (Z.ltb_lt _ _)) by lia. cbn [assert mbind res_bind].
  assert (0 <= n / 4 < 16) by (split; [apply Z.div_pos; lia|apply Z.div_lt_upper_bound; lia]).
  rewrite <- (testbit_land 16) by done. by rewrite negb_involutive.
Qed.

Lemma present_and_free_spec c n : 0 <= n < 64 -> present_and_free c n = Ok (free_in c n).
Proof.
  intros Hn. unfold present_and_free, free_in. rewrite chunk_exists_spec by done. cbn [mbind res_bind].
  destruct (negb _); [by rewrite is_free_spec by done|done].
Qed.

Lemma res_find_spec p q ns : (forall n, n ∈ ns -> p n = Ok (q n)) -> res_find p ns = Ok (head (List.filter q ns)).
Proof.
  induction ns as [|n ns IH]; intros Hp; cbn [res_find List.filter]; [done|]. rewrite Hp by set_solver. cbn [mbind res_bind].
  destruct (q n); [done|]. apply IH. intros m Hm. apply Hp. set_solver.
Qed.

Lemma res_filter_spec p q ns : (forall n, n ∈ ns -> p n = Ok (q n)) -> res_filter p ns = Ok (List.filter q ns).
Proof.
  induction ns as [|n ns IH]; intros Hp; cbn [res_filter List.filter]; [done|]. rewrite Hp by set_solver. cbn [mbind res_bind].
  rewrite IH by (intros m Hm; apply Hp; set_solver). cbn [mbind res_bind]. by destruct (q n).
Qed.

Lemma first_free_spec c : first_free c = Ok (head (List.filter (free_in c) (seqZ 0 64))).
Proof. apply res_find_spec. intros n Hn%elem_of_seqZ. apply present_and_free_spec. lia. Qed.

(** The holes' inodes are those of the mask's bits. *)
Lemma nibble_bit bit i : 0 <= bit < 16 -> 0 <= i < 64 -> Z.testbit (wshl 64 15 (bit * 4)) i = (i / 4 =? bit).
Proof.
  intros Hb Hi. unfold wshl. rewrite Z.mod_small by lia. unfold wrap. rewrite Z.mod_pow2_bits_low by lia.
  pose proof (Z.div_mod i 4 ltac:(lia)). pose proof (Z.mod_pos_bound i 4 ltac:(lia)).
  destruct (Z.eqb_spec (i / 4) bit) as [E|E].
  - rewrite Z.shiftl_spec by lia. assert (Hx : i - bit * 4 = 0 \/ i - bit * 4 = 1 \/ i - bit * 4 = 2 \/ i - bit * 4 = 3) by lia.
    destruct Hx as [->|[->|[->| ->]]]; reflexivity.
  - rewrite Z.shiftl_spec by lia. destruct (Z.ltb_spec (i - bit * 4) 0); [by rewrite Z.testbit_neg_r|].
    apply Z.bits_above_log2; [done|]. change (Z.log2 15) with 3. lia.
Qed.

Lemma holes_spec m i : 0 <= i < 64 -> Z.testbit (holes m) i = Z.testbit m (i / 4).
Proof.
  intros Hi. assert (Hd : 0 <= i / 4 < 16) by (split; [apply Z.div_pos; lia|apply Z.div_lt_upper_bound; lia]).
  assert (Hf : forall l acc, Forall (fun b => 0 <= b < 16) l ->
    Z.testbit (foldl (fun m bit => Z.lor m (wshl 64 (wsub 64 (wshl 64 1 INODES_PER_HOLEMASK_BIT) 1) (bit * INODES_PER_HOLEMASK_BIT))) acc l) i =
    Z.testbit acc i || existsb (Z.eqb (i / 4)) l).
  { induction l as [|b l IH]; intros acc Hl; cbn [foldl existsb]; [by rewrite orb_false_r|].
    apply Forall_cons in Hl as [Hb Hl]. rewrite IH by done. rewrite Z.lor_spec.
    change (wsub 64 (wshl 64 1 INODES_PER_HOLEMASK_BIT) 1) with 15. unfold INODES_PER_HOLEMASK_BIT. rewrite nibble_bit by done. by rewrite orb_assoc. }
  unfold holes. change (INODES_PER_CHUNK / INODES_PER_HOLEMASK_BIT) with 16.
  set (l := List.filter _ _). rewrite Hf.
  - rewrite Z.bits_0. cbn [orb]. apply eq_true_iff_eq. rewrite existsb_exists. split.
    + intros (b & Hb & <-%Z.eqb_eq). unfold l in Hb. apply filter_In in Hb as [Hb Hm]. by rewrite testbit_land in Hm by done.
    + intros Hm. exists (i / 4). split; [|by apply Z.eqb_refl]. apply filter_In. split; [|by rewrite testbit_land].
      apply list_elem_of_In, elem_of_seqZ. lia.
  - apply Forall_forall. intros b Hb%list_elem_of_In. apply filter_In in Hb as [Hb%list_elem_of_In _]. apply elem_of_seqZ in Hb. lia.
Qed.

Lemma size_filter (p : Z -> bool) : size (list_to_set (List.filter p (seqZ 0 64)) : gset Z) = length (List.filter p (seqZ 0 64)).
Proof. apply size_list_to_set. apply NoDup_ListNoDup. apply List.NoDup_filter. apply NoDup_ListNoDup, NoDup_seqZ. Qed.

Lemma counted_free c : count_ones (Z.land (free c) (wrap 64 (Z.lnot (holes (holemask c))))) = Z.of_nat (size (free_inodes c)).
Proof.
  unfold count_ones, free_inodes. rewrite size_filter. do 2 f_equal. apply List.filter_ext_in. intros i Hi%list_elem_of_In%elem_of_seqZ.
  rewrite Z.land_spec. unfold wrap. rewrite Z.mod_pow2_bits_low, Z.lnot_spec, holes_spec by lia. unfold free_in. apply andb_comm.
Qed.

Lemma check_counts_spec c :
  check_counts c <> Panic /\ (check_counts c = Ok tt <-> 4 <= c_count c <= 64 /\ freecount c = Z.of_nat (size (free_inodes c))).
Proof.
  unfold check_counts. rewrite counted_free. unfold INODES_PER_HOLEMASK_BIT, INODES_PER_CHUNK. split.
  { apply bind_not_Panic; [apply fail_if_not_Panic|]. intros _ _. apply fail_if_not_Panic. }
  rewrite guard_Ok, fail_if_Ok. rewrite orb_false_iff, negb_false_iff, Z.eqb_eq, !Z.ltb_ge. lia.
Qed.

Lemma elem_of_free c n : n ∈ free_inodes c <-> 0 <= n < 64 /\ free_in c n = true.
Proof. unfold free_inodes. rewrite elem_of_list_to_set, list_elem_of_In, filter_In, <- list_elem_of_In, elem_of_seqZ. split; (intros [??]; split; [lia|done]). Qed.

Lemma elem_of_present c n : n ∈ present_inodes c <-> 0 <= n < 64 /\ Z.testbit (holemask c) (n / 4) = false.
Proof. unfold present_inodes. rewrite elem_of_list_to_set, list_elem_of_In, filter_In, <- list_elem_of_In, elem_of_seqZ, negb_true_iff. split; (intros [??]; split; [lia|done]). Qed.

Lemma chunk_ok_free_zero c : chunk_ok c -> (freecount c =? 0) = bool_decide (free_inodes c = ∅).
Proof.
  intros [_ _ _ _ Hc]. rewrite Hc. destruct (Z.eqb_spec (Z.of_nat (size (free_inodes c))) 0) as [E|E]; symmetry.
  - apply bool_decide_eq_true_2. apply leibniz_equiv, size_empty_iff. lia.
  - apply bool_decide_eq_false_2. intros H. rewrite H, size_empty in E. lia.
Qed.

Lemma free_size_le c : (size (free_inodes c) <= 64)%nat.
Proof.
  unfold free_inodes. rewrite size_filter. etrans; [apply List.filter_length_le|]. by rewrite length_seqZ.
Qed.

(** A bit set and a bit cleared, in the set of the free inodes. *)
Lemma free_set c n : n ∈ present_inodes c -> in_u 64 (free c) ->
  let c' := mkChunk (startino c) (holemask c) (c_count c) (wadd 8 (freecount c) 1) (Z.lor (free c) (wshl 64 1 n)) in
  free_inodes c' = {[n]} ∪ free_inodes c /\ in_u 64 (free c').
Proof.
  intros [Hn Hh]%elem_of_present Hf. rewrite wshl_1 by done. intros c'. split.
  - apply set_eq. intros i. rewrite elem_of_union, elem_of_singleton, !elem_of_free. unfold free_in, c'. cbn [holemask free].
    destruct (decide (i = n)) as [->|Hne].
    + rewrite Hh, Z.lor_spec, Z.pow2_bits_true by lia. rewrite orb_true_r. cbn. tauto.
    + destruct (decide (0 <= i < 64)) as [Hi|Hi]; [|tauto].
      rewrite Z.lor_spec, Z.pow2_bits_false, orb_false_r by lia. tauto.
  - apply lor_range; [lia|done|]. split; [apply Z.pow_nonneg; lia|apply Z.pow_lt_mono_r; lia].
Qed.

Lemma free_cleared c n fc : 0 <= n < 64 -> in_u 64 (free c) ->
  let c' := mkChunk (startino c) (holemask c) (c_count c) fc (Z.land (free c) (wrap 64 (Z.lnot (wshl 64 1 n)))) in
  free_inodes c' = free_inodes c ∖ {[n]} /\ in_u 64 (free c').
Proof.
  intros Hn Hf. rewrite wshl_1 by done. intros c'. split.
  - apply set_eq. intros i. rewrite elem_of_difference, elem_of_singleton, !elem_of_free. unfold free_in, c'. cbn [holemask free].
    destruct (decide (0 <= i < 64)) as [Hi|Hi]; [|tauto].
    unfold wrap. rewrite Z.land_spec, Z.mod_pow2_bits_low, Z.lnot_spec by lia.
    destruct (decide (i = n)) as [->|Hne].
    + rewrite Z.pow2_bits_true by lia. cbn [negb]. rewrite !andb_false_r. split; [by intros [_ ?]|by intros [_ ?]].
    + rewrite Z.pow2_bits_false by lia. cbn [negb]. rewrite andb_true_r. tauto.
  - cbn [free c']. destruct Hf as [Hf0 Hf]. split; [by apply Z.land_nonneg; left|].
    destruct (Z.eq_dec (Z.land (free c) (wrap 64 (Z.lnot (2 ^ n)))) 0) as [->|H0]; [lia|].
    assert (0 <= Z.land (free c) (wrap 64 (Z.lnot (2 ^ n)))) by (apply Z.land_nonneg; by left).
    apply Z.log2_lt_pow2; [lia|]. eapply Z.le_lt_trans; [apply Z.log2_land; [done|apply Z.mod_pos_bound; lia]|].
    eapply Z.le_lt_trans; [apply Z.le_min_l|]. destruct (Z.eq_dec (free c) 0) as [->|]; [done|]. apply Z.log2_lt_pow2; lia.
Qed.

#[local] Typeclasses Opaque free_inodes present_inodes.

(** Taking and giving back, on the set. *)
Definition same_chunk (c c' : InodeChunk) : Prop :=
  startino c' = startino c /\ holemask c' = holemask c /\ c_count c' = c_count c.

Lemma present_same c c' : same_chunk c c' -> present_inodes c' = present_inodes c.
Proof. intros (_ & H & _). unfold present_inodes. by rewrite H. Qed.

Lemma free_present c : free_inodes c ⊆ present_inodes c.
Proof.
  intros n [Hn H]%elem_of_free. apply elem_of_present. split; [done|]. unfold free_in in H. apply andb_true_iff in H as [H _]. by apply negb_true_iff.
Qed.

Lemma free_in_present c n : n ∈ present_inodes c -> (Z.testbit (free c) n = bool_decide (n ∈ free_inodes c)).
Proof.
  intros [Hn H]%elem_of_present. case_bool_decide as Hd.
  - apply elem_of_free in Hd as [_ Hd]. unfold free_in in Hd. by apply andb_true_iff in Hd as [_ ?].
  - apply not_true_iff_false. intros Hb. apply Hd, elem_of_free. split; [done|]. unfold free_in. by rewrite H, Hb.
Qed.

Lemma take_spec c n : chunk_ok c -> 0 <= n ->
  match take c n with
  | Ok (c', t) =>
      n ∈ free_inodes c /\ free_inodes c' = free_inodes c ∖ {[n]} /\ same_chunk c c' /\ chunk_ok c' /\
      (t = if bool_decide (free_inodes c' = ∅) then ChunkNowFull else ChunkStillHasFree)
  | Err _ => n ∉ free_inodes c
  | Panic => False
  end.
Proof.
  intros Hc Hn. unfold take. pose proof (free_present c) as Hsub. destruct (Z.leb_spec INODES_PER_CHUNK n) as [Hb|Hb]; cbn [fail_if mbind res_bind].
  { intros [Hx _]%elem_of_free. unfold INODES_PER_CHUNK in Hb. lia. }
  assert (Hn' : 0 <= n < 64) by (unfold INODES_PER_CHUNK in Hb; lia).
  rewrite chunk_exists_spec by done. cbn [mbind res_bind]. rewrite negb_involutive.
  destruct (Z.testbit (holemask c) (n / 4)) eqn:Eh; cbn [fail_if mbind res_bind].
  { intros [_ Hx]%Hsub%elem_of_present. congruence. }
  assert (Hp : n ∈ present_inodes c) by by apply elem_of_present.
  rewrite is_free_spec by done. cbn [mbind res_bind]. rewrite free_in_present by done.
  case_bool_decide as Hf; cbn [negb fail_if mbind res_bind]; [|done].
  assert (Hs : (1 <= size (free_inodes c))%nat).
  { destruct (size (free_inodes c)) eqn:E; [|lia]. apply size_empty_inv in E. by apply E in Hf. }
  pose proof (ck_counts c Hc) as Hk. unfold checked_sub. rewrite (proj2 (Z.leb_le 1 _)) by lia. cbn [ok_or mbind res_bind].
  destruct (free_cleared c n (freecount c - 1) Hn' (ck_free c Hc)) as [Ef Hr].
  set (c' := mkChunk _ _ _ _ _) in *.
  assert (Hc' : chunk_ok c').
  { destruct Hc. constructor; [done|done|exact Hr|done|]. rewrite Ef, size_difference by set_solver. rewrite size_singleton. cbn [freecount c']. lia. }
  split; [done|]. split; [exact Ef|]. split; [done|]. split; [exact Hc'|].
  rewrite <- (chunk_ok_free_zero c' Hc'). done.
Qed.

Lemma give_back_spec c n : chunk_ok c -> 0 <= n ->
  match give_back c n with
  | Ok (c', g) =>
      n ∈ present_inodes c ∖ free_inodes c /\ free_inodes c' = {[n]} ∪ free_inodes c /\ same_chunk c c' /\ chunk_ok c' /\
      (g = if bool_decide (free_inodes c = ∅) then ChunkWasFull else ChunkAlreadyHadFree)
  | Err _ => n ∉ present_inodes c ∖ free_inodes c
  | Panic => False
  end.
Proof.
  intros Hc Hn. unfold give_back. pose proof (free_present c) as Hsub. destruct (Z.leb_spec INODES_PER_CHUNK n) as [Hb|Hb]; cbn [fail_if mbind res_bind].
  { rewrite elem_of_difference. intros [[Hx _]%elem_of_present _]. unfold INODES_PER_CHUNK in Hb. lia. }
  assert (Hn' : 0 <= n < 64) by (unfold INODES_PER_CHUNK in Hb; lia).
  rewrite chunk_exists_spec by done. cbn [mbind res_bind]. rewrite negb_involutive.
  destruct (Z.testbit (holemask c) (n / 4)) eqn:Eh; cbn [fail_if mbind res_bind].
  { rewrite elem_of_difference. intros [[_ Hx]%elem_of_present _]. congruence. }
  assert (Hp : n ∈ present_inodes c) by by apply elem_of_present.
  rewrite is_free_spec by done. cbn [mbind res_bind]. rewrite free_in_present by done.
  case_bool_decide as Hf; cbn [negb fail_if mbind res_bind]; [set_solver|].
  destruct (free_set c n Hp (ck_free c Hc)) as [Ef Hr]. set (c' := mkChunk _ _ _ _ _) in *.
  pose proof (free_size_le c') as Hle. rewrite Ef, size_union, size_singleton in Hle by set_solver. pose proof (ck_counts c Hc) as Hk.
  assert (Hc' : chunk_ok c').
  { destruct Hc. constructor; [done|done|exact Hr|done|]. rewrite Ef, size_union, size_singleton by set_solver.
    cbn [freecount c']. unfold wadd. rewrite wrap_small by (unfold in_u; lia). lia. }
  split; [set_solver|]. split; [exact Ef|]. split; [done|]. split; [exact Hc'|].
  by rewrite <- (chunk_ok_free_zero c Hc).
Qed.

(** ** A chunk, beside the free-inode tree

    What a create and an unlink do to a chunk, one after another: an inode is
    taken or given back, a refusal changes nothing, and what is answered says
    whether the free-inode tree still holds, or now holds, the chunk. *)
Inductive ChunkOp := TakeInode (n : Z) | GiveInode (n : Z).
Definition op_inode (o : ChunkOp) : Z := match o with TakeInode n | GiveInode n => n end.

Definition chunk_op (o : ChunkOp) (st : InodeChunk * bool) : res (InodeChunk * bool) :=
  match o with
  | TakeInode n => '(c, t) ← take st.1 n; Ok (c, match t with ChunkNowFull => false | ChunkStillHasFree => st.2 end)
  | GiveInode n => '(c, g) ← give_back st.1 n; Ok (c, match g with ChunkWasFull => true | ChunkAlreadyHadFree => st.2 end)
  end.
Fixpoint chunk_run (ops : list ChunkOp) (st : InodeChunk * bool) : res (list bool * (InodeChunk * bool)) :=
  match ops with
  | [] => Ok ([], st)
  | o :: ops =>
      '(done_, st) ← (match chunk_op o st with Ok st' => Ok (true, st') | Err _ => Ok (false, st) | Panic => Panic end);
      '(answers, st) ← chunk_run ops st;
      Ok (done_ :: answers, st)
  end.

(** The same on a set of free inodes, of those there are. *)
Definition set_op (present : gset Z) (o : ChunkOp) (free : gset Z) : bool * gset Z :=
  match o with
  | TakeInode n => if decide (n ∈ free) then (true, free ∖ {[n]}) else (false, free)
  | GiveInode n => if decide (n ∈ present ∖ free) then (true, {[n]} ∪ free) else (false, free)
  end.
Fixpoint set_run (present : gset Z) (ops : list ChunkOp) (free : gset Z) : list bool * gset Z :=
  match ops with
  | [] => ([], free)
  | o :: ops => let '(b, free) := set_op present o free in let '(bs, free) := set_run present ops free in (b :: bs, free)
  end.

(** The free-inode tree holds a chunk exactly when an inode of it is free. *)
Record tracked (c0 : InodeChunk) (st : InodeChunk * bool) : Prop := {
  td_same : same_chunk c0 st.1;
  td_ok : chunk_ok st.1;
  td_held : st.2 = bool_decide (free_inodes st.1 <> ∅);
}.

Lemma chunk_op_spec c0 o st : tracked c0 st -> 0 <= op_inode o ->
  match chunk_op o st with
  | Ok st' => tracked c0 st' /\ set_op (present_inodes c0) o (free_inodes st.1) = (true, free_inodes st'.1)
  | Err _ => set_op (present_inodes c0) o (free_inodes st.1) = (false, free_inodes st.1)
  | Panic => False
  end.
Proof.
  intros [Hs Hc Hh] Hn. destruct st as [c held]. cbn [fst snd] in *. rewrite <- (present_same _ _ Hs).
  destruct o as [n|n]; cbn [chunk_op set_op op_inode fst snd] in *.
  - pose proof (take_spec c n Hc Hn) as H. destruct (take c n) as [[c' t]| |]; cbn [mbind res_bind fst snd]; [|by rewrite decide_False|done].
    destruct H as (Hin & Ef & Hs' & Hc' & ->). rewrite decide_True by done. rewrite Ef. split; [|done].
    constructor; cbn [fst snd]; [destruct Hs as (?&?&?), Hs' as (?&?&?); repeat split; congruence|done|]. rewrite Hh. rewrite Ef.
    repeat case_bool_decide; set_solver.
  - pose proof (give_back_spec c n Hc Hn) as H. destruct (give_back c n) as [[c' g]| |]; cbn [mbind res_bind fst snd]; [|by rewrite decide_False|done].
    destruct H as (Hin & Ef & Hs' & Hc' & ->). rewrite decide_True by done. rewrite Ef. split; [|done].
    constructor; cbn [fst snd]; [destruct Hs as (?&?&?), Hs' as (?&?&?); repeat split; congruence|done|]. rewrite Hh. rewrite Ef.
    repeat case_bool_decide; set_solver.
Qed.

(** C14: A chunk is the set of its free inodes: over any run of creates and
    unlinks, a create is refused exactly when the inode is not free (in use, a
    hole, or past the chunk), an unlink exactly when it is not in use, what is
    done is removal and insertion, the free count stays the size of the set, no
    assertion fires, and the free-inode tree, updated only when an operation
    says so, holds the chunk exactly while the set is not empty. *)
Theorem chunk_refines_set c0 ops : forall st, tracked c0 st -> Forall (fun o => 0 <= op_inode o) ops ->
  exists answers st', chunk_run ops st = Ok (answers, st') /\ tracked c0 st' /\
    set_run (present_inodes c0) ops (free_inodes st.1) = (answers, free_inodes st'.1).
Proof.
  induction ops as [|o ops IH]; intros st Ht Ho; cbn [chunk_run set_run]; [by exists [], st|].
  apply Forall_cons in Ho as [Ho Hos]. pose proof (chunk_op_spec c0 o st Ht Ho) as H.
  destruct (chunk_op o st) as [st1| |]; cbn [mbind res_bind]; [destruct H as [Ht1 ->]|rewrite H|done].
  - destruct (IH st1 Ht1 Hos) as (bs & st' & -> & Ht' & ->). cbn [mbind res_bind]. by eexists _, _.
  - destruct (IH st Ht Hos) as (bs & st' & -> & Ht' & ->). cbn [mbind res_bind]. by eexists _, _.
Qed.

(** ** Choosing an inode *)

Lemma head_filter_seqZ (p : Z -> bool) : forall k s,
  match head (List.filter p (seqZ s (Z.of_nat k))) with
  | Some n => s <= n < s + Z.of_nat k /\ p n = true /\ (forall m, s <= m < n -> p m = false)
  | None => forall m, s <= m < s + Z.of_nat k -> p m = false
  end.
Proof.
  induction k as [|k IH]; intros s; [intros m; lia|].
  rewrite seqZ_cons by lia. replace (Z.pred (Z.of_nat (S k))) with (Z.of_nat k) by lia. cbn [List.filter].
  destruct (p s) eqn:E; cbn [head].
  - split; [lia|]. split; [done|]. lia.
  - specialize (IH (Z.succ s)). destruct (head _) as [n|].
    + destruct IH as (? & ? & Hm). split; [lia|]. split; [done|]. intros m Hm'. destruct (decide (m = s)) as [->|]; [done|]. apply Hm. lia.
    + intros m Hm'. destruct (decide (m = s)) as [->|]; [done|]. apply IH. lia.
Qed.

Lemma first_free_min c :
  match first_free c with
  | Ok (Some n) => n ∈ free_inodes c /\ (forall m, m ∈ free_inodes c -> n <= m)
  | Ok None => free_inodes c = ∅
  | _ => False
  end.
Proof.
  rewrite first_free_spec. pose proof (head_filter_seqZ (free_in c) 64 0) as H. change (Z.of_nat 64) with 64 in H.
  destruct (head _) as [n|].
  - destruct H as (Hn & Hf & Hm). split; [by apply elem_of_free|]. intros m [Hr Hfm]%elem_of_free.
    destruct (Z.le_gt_cases n m) as [|Hlt]; [done|]. rewrite Hm in Hfm by lia. done.
  - apply set_eq. intros m. split; [|set_solver]. intros [Hr Hfm]%elem_of_free. rewrite H in Hfm by lia. done.
Qed.

(** The inodes of a group, by their number in it. *)
Definition numbers (c : InodeChunk) : gset Z := set_map (fun n => startino c + n) (free_inodes c).
Lemma elem_of_numbers c m : m ∈ numbers c <-> exists n, m = startino c + n /\ n ∈ free_inodes c.
Proof. unfold numbers. by rewrite elem_of_map. Qed.
Lemma numbers_none c : free_inodes c = ∅ -> numbers c = ∅.
Proof. intros H. unfold numbers. rewrite H. apply set_map_empty. Qed.
(** The chunks of a tree, in order and apart. *)
Definition chunks_apart (chunks : list InodeChunk) : Prop :=
  forall i j a b, (i < j)%nat -> chunks !! i = Some a -> chunks !! j = Some b -> startino a + 64 <= startino b.

Lemma choose_loop_spec chunks : forall i,
  match choose_loop i chunks with
  | Ok (Some (k, n)) => exists j c, k = (i + j)%nat /\ chunks !! j = Some c /\ n ∈ free_inodes c /\
      (forall m, m ∈ free_inodes c -> n <= m) /\
      (forall j' c', (j' < j)%nat -> chunks !! j' = Some c' -> free_inodes c' = ∅)
  | Ok None => Forall (fun c => free_inodes c = ∅) chunks
  | _ => False
  end.
Proof.
  induction chunks as [|c chunks IH]; intros i; cbn [choose_loop]; [done|].
  pose proof (first_free_min c) as Hf. destruct (first_free c) as [[n|]| |]; cbn [mbind res_bind]; [| |done|done].
  - destruct Hf as [Hin Hmin]. exists 0%nat, c. split; [lia|]. split; [done|]. split; [done|]. split; [done|]. lia.
  - specialize (IH (i + 1)%nat). destruct (choose_loop (i + 1) chunks) as [[[k n]|]| |]; [|by constructor|done|done].
    destruct IH as (j & c1 & -> & Hj & Hin & Hmin & Hbefore). exists (S j), c1. split; [lia|]. split; [done|]. split; [done|]. split; [done|].
    intros [|j'] c' Hj' Hc'; [by injection Hc' as <-|]. apply (Hbefore j' c'); [lia|done].
Qed.

(** C23: A create takes the lowest free inode of the group.  Over the chunks of a
    tree, in order and apart, an inode is chosen exactly when one is free, the
    chunk accepts it, and no inode of the group that is free has a smaller
    number; when none is free, none is chosen, and nothing ever panics. *)
Theorem choose_free_inode_exact chunks : Forall chunk_ok chunks -> chunks_apart chunks ->
  match choose_free_inode chunks with
  | Ok (Some (i, n)) => exists c c' t, chunks !! i = Some c /\ take c n = Ok (c', t) /\
      free_inodes c' = free_inodes c ∖ {[n]} /\
      forall d m, d ∈ chunks -> m ∈ numbers d -> startino c + n <= m
  | Ok None => forall d, d ∈ chunks -> numbers d = ∅
  | _ => False
  end.
Proof.
  intros Hok Hap. pose proof (choose_loop_spec chunks 0) as H. unfold choose_free_inode.
  destruct (choose_loop 0 chunks) as [[[k n]|]| |]; [| |done|done].
  - destruct H as (j & c & -> & Hj & Hin & Hmin & Hbefore). cbn [Nat.add]. assert (Hc : chunk_ok c) by (by eapply Forall_lookup_1).
    pose proof Hin as [Hr _]%elem_of_free. pose proof (take_spec c n Hc ltac:(lia)) as Ht.
    destruct (take c n) as [[c' t]| |] eqn:Et; [|done|done]. destruct Ht as (_ & Ef & _).
    exists c, c', t. split; [done|]. split; [exact Et|]. split; [done|].
    intros d m [j' Hd]%list_elem_of_lookup (x & -> & Hx)%elem_of_numbers. pose proof Hx as [Hxr _]%elem_of_free.
    destruct (lt_eq_lt_dec j' j) as [[Hlt| ->]|Hgt].
    + rewrite (Hbefore j' d Hlt Hd) in Hx. by apply not_elem_of_empty in Hx.
    + rewrite Hd in Hj. injection Hj as ->. apply Hmin in Hx. lia.
    + pose proof (Hap j j' c d Hgt Hj Hd). lia.
  - intros d Hd. rewrite Forall_forall in H. by apply numbers_none, H.
Qed.

(** ** Records *)

Definition chunk_good (sparse : bool) (c : InodeChunk) : Prop :=
  chunk_ok c /\ (sparse = false -> holemask c = 0 /\ c_count c = INODES_PER_CHUNK).

Definition chunk_bytes (sparse : bool) (c : InodeChunk) : bytes :=
  to_be_bytes 4 (startino c) ++
  (if sparse then to_be_bytes 2 (holemask c) ++ to_be_bytes 1 (c_count c) ++ to_be_bytes 1 (freecount c) else to_be_bytes 4 (freecount c)) ++
  to_be_bytes 8 (free c).

Lemma length_chunk_bytes sparse c : length (chunk_bytes sparse c) = RECORD_LEN.
Proof. unfold chunk_bytes. destruct sparse; by rewrite !length_app, !length_to_be_bytes. Qed.

Lemma chunk_encode_Ok sparse buf pos c :
  (pos + RECORD_LEN <= length buf)%nat -> encode sparse buf pos c = Ok (splice pos (chunk_bytes sparse c) buf).
Proof.
  unfold RECORD_LEN. intros H. unfold encode, chunk_bytes.
  rewrite copy_at_Ok by (rewrite length_to_be_bytes; lia). cbn [mbind res_bind]. destruct sparse.
  - do 3 (rewrite copy_at_after by (rewrite ?length_app, !length_to_be_bytes; lia); cbn [mbind res_bind]).
    rewrite copy_at_after by (rewrite ?length_app, !length_to_be_bytes; lia). by rewrite <- !app_assoc.
  - rewrite copy_at_after by (rewrite ?length_app, !length_to_be_bytes; lia). cbn [mbind res_bind].
    rewrite copy_at_after by (rewrite ?length_app, !length_to_be_bytes; lia). by rewrite <- !app_assoc.
Qed.

Lemma freecount_le c : chunk_ok c -> 0 <= freecount c <= 64.
Proof. intros Hc. rewrite (ck_counts c Hc). pose proof (free_size_le c). lia. Qed.

Lemma check_counts_ok c : chunk_ok c -> check_counts c = Ok tt.
Proof. intros [_ _ _ Hc Hk]. by apply check_counts_spec. Qed.

(** What is read at [pos], whichever the shape. *)
Definition raw_chunk (sparse : bool) (buf : bytes) (pos : nat) : InodeChunk :=
  if sparse then mkChunk (rd 4 pos buf) (rd 2 (pos + 4) buf) (rd 1 (pos + 6) buf) (rd 1 (pos + 7) buf) (rd 8 (pos + 8) buf)
  else mkChunk (rd 4 pos buf) 0 INODES_PER_CHUNK (rd 4 (pos + 4) buf) (rd 8 (pos + 8) buf).

Lemma record_unfold sparse buf pos : (pos + RECORD_LEN <= length buf)%nat ->
  record sparse buf pos <> Panic /\
  (forall c, record sparse buf pos = Ok c <-> c = raw_chunk sparse buf pos /\ check_counts c = Ok tt).
Proof.
  unfold RECORD_LEN. intros Hl. unfold record, raw_chunk.
  rewrite !be32_Ok, be64_Ok by lia. cbn [mbind res_bind]. destruct sparse.
  - rewrite be16_Ok, !byte_at_Ok by lia. cbn [mbind res_bind]. set (c0 := mkChunk _ _ _ _ _). destruct (check_counts_spec c0) as [Hp _].
    split; [by destruct (check_counts c0)|]. intros c. destruct (check_counts c0) as [[]| |] eqn:E; cbn [mbind res_bind]; [|split; [done|by intros [-> ?]; congruence]|done].
    split; [by intros [= <-]|]. by intros [-> _].
  - pose proof (rd_range_any 4 (pos + 4) buf) as Hr. destruct (Z.ltb_spec INODES_PER_CHUNK (rd 4 (pos + 4) buf)) as [Hb|Hb]; cbn [fail_if mbind res_bind].
    + split; [done|]. intros c. split; [done|]. intros [-> H]. apply check_counts_spec in H as [_ H]. cbn [freecount] in H.
      pose proof (free_size_le (mkChunk (rd 4 pos buf) 0 INODES_PER_CHUNK (rd 4 (pos + 4) buf) (rd 8 (pos + 8) buf))).
      unfold INODES_PER_CHUNK in *. lia.
    + unfold INODES_PER_CHUNK in Hb. rewrite wrap_small by (unfold in_u; lia). set (c0 := mkChunk _ _ _ _ _). destruct (check_counts_spec c0) as [Hp _].
      split; [by destruct (check_counts c0)|]. intros c. destruct (check_counts c0) as [[]| |] eqn:E; cbn [mbind res_bind]; [|split; [done|by intros [-> ?]; congruence]|done].
      split; [by intros [= <-]|]. by intros [-> _].
Qed.

Lemma raw_chunk_typed sparse buf pos : in_u 32 (startino (raw_chunk sparse buf pos)) /\
  in_u 16 (holemask (raw_chunk sparse buf pos)) /\ in_u 64 (free (raw_chunk sparse buf pos)).
Proof. unfold raw_chunk, in_u. destruct sparse; cbn [startino holemask free]; (split_and!; first [apply rd_range_any|lia]). Qed.

Lemma record_good sparse buf pos c : (pos + RECORD_LEN <= length buf)%nat -> record sparse buf pos = Ok c -> chunk_good sparse c.
Proof.
  intros Hl H. apply record_unfold in H as [-> H]; [|done]. apply check_counts_spec in H as [Hc Hf].
  destruct (raw_chunk_typed sparse buf pos) as (? & ? & ?). split; [by constructor|]. by intros ->.
Qed.

Lemma record_encode_self sparse buf pos c : (pos + RECORD_LEN <= length buf)%nat ->
  record sparse buf pos = Ok c -> encode sparse buf pos c = Ok buf.
Proof.
  unfold RECORD_LEN. intros Hl H. apply record_unfold in H as [-> _]; [|unfold RECORD_LEN; lia].
  assert (Hs : forall n off, (off + n <= length buf)%nat -> copy_at off (to_be_bytes n (rd n off buf)) buf = Ok buf).
  { intros n off Ho. rewrite copy_at_Ok by (rewrite length_to_be_bytes; lia). unfold rd. rewrite to_from_be_bytes' by (by apply length_slice).
    by rewrite splice_self. }
  unfold encode, raw_chunk. destruct sparse; cbn [startino holemask c_count freecount free]; rewrite Hs by lia; cbn [mbind res_bind].
  - do 3 (rewrite Hs by lia; cbn [mbind res_bind]). apply Hs. lia.
  - rewrite Hs by lia; cbn [mbind res_bind]. apply Hs. lia.
Qed.

Lemma record_decode sparse buf pos c : chunk_good sparse c -> (pos + RECORD_LEN <= length buf)%nat ->
  slice pos RECORD_LEN buf = chunk_bytes sparse c -> record sparse buf pos = Ok c.
Proof.
  intros [Hc Hsp] Hl Hb. apply record_unfold; [done|]. split; [|by apply check_counts_ok]. unfold RECORD_LEN in *.
  pose proof (freecount_le c Hc) as Hfc. destruct Hc as [Hs Hm Hf Hn _].
  assert (Hsl : forall off n, (off + n <= 16)%nat -> rd n (pos + off) buf = from_be_bytes (slice off n (chunk_bytes sparse c))).
  { intros off n Hn'. unfold rd. by rewrite <- (slice_slice pos 16 off n), Hb by lia. }
  unfold raw_chunk, INODES_PER_CHUNK in *. destruct sparse.
  - rewrite <- (Nat.add_0_r pos) at 1. rewrite !Hsl by lia.
    change (slice 0 4 (chunk_bytes true c)) with (to_be_bytes 4 (startino c)).
    change (slice 4 2 (chunk_bytes true c)) with (to_be_bytes 2 (holemask c)).
    change (slice 6 1 (chunk_bytes true c)) with (to_be_bytes 1 (c_count c)).
    change (slice 7 1 (chunk_bytes true c)) with (to_be_bytes 1 (freecount c)).
    change (slice 8 8 (chunk_bytes true c)) with (to_be_bytes 8 (free c)).
    rewrite !from_to_be_bytes_small by (done || lia). by destruct c.
  - destruct (Hsp eq_refl) as [Hh Hk]. rewrite <- (Nat.add_0_r pos) at 1. rewrite !Hsl by lia.
    change (slice 0 4 (chunk_bytes false c)) with (to_be_bytes 4 (startino c)).
    change (slice 4 4 (chunk_bytes false c)) with (to_be_bytes 4 (freecount c)).
    change (slice 8 8 (chunk_bytes false c)) with (to_be_bytes 8 (free c)).
    rewrite !from_to_be_bytes_small by (done || lia). destruct c; cbn in *. congruence.
Qed.

(** A record read the other way is refused, whichever way it was written. *)
Lemma other_shape_refused sparse buf pos c : (pos + RECORD_LEN <= length buf)%nat ->
  record sparse buf pos = Ok c -> exists e, record (negb sparse) buf pos = Err e.
Proof.
  intros Hl H. destruct (record_unfold (negb sparse) buf pos Hl) as [Hp Ho].
  destruct (record (negb sparse) buf pos) as [c'|e|] eqn:E; [exfalso|by exists e|done].
  pose proof (proj1 (Ho c') eq_refl) as [-> Hn%check_counts_spec]. clear Ho Hp E.
  apply record_unfold in H as [-> Hc%check_counts_spec]; [|done]. unfold RECORD_LEN in *.
  assert (Hx : forall c0, freecount c0 = Z.of_nat (size (free_inodes c0)) -> freecount c0 <= 64).
  { intros c0 ->. pose proof (free_size_le c0). lia. }
  assert (Hrd : rd 4 (pos + 4) buf = rd 2 (pos + 4) buf * 65536 + rd 1 (pos + 6) buf * 256 + rd 1 (pos + 7) buf).
  { unfold rd. replace (slice (pos + 4) 4 buf) with (slice (pos + 4) 2 buf ++ slice (pos + 6) 1 buf ++ slice (pos + 7) 1 buf).
    - rewrite !from_be_bytes_app, !length_app, !length_slice by lia. cbn. lia.
    - replace (pos + 7)%nat with (pos + 6 + 1)%nat by lia. rewrite <- slice_app_split.
      replace (pos + 6)%nat with (pos + 4 + 2)%nat by lia. by rewrite <- slice_app_split. }
  pose proof (rd_range_any 2 (pos + 4) buf). pose proof (rd_range_any 1 (pos + 7) buf).
  destruct sparse; cbn [negb raw_chunk c_count] in *; destruct Hn as [Hn1 Hn%Hx], Hc as [Hc1 Hc2%Hx]; cbn [freecount] in *; lia.
Qed.

Lemma res_filter_not_Panic p q ns : (forall n, n ∈ ns -> p n = Ok (q n)) -> res_filter p ns <> Panic.
Proof. intros H. by rewrite (res_filter_spec _ _ _ H). Qed.

Definition with_freecount (c : InodeChunk) (k : Z) : InodeChunk := mkChunk (startino c) (holemask c) (c_count c) k (free c).

(** What the checker makes of a record: its own reading, or the chunk with its
    count taken from its mask. *)
Lemma record_counted_spec sparse buf pos : (pos + RECORD_LEN <= length buf)%nat ->
  record_counted sparse buf pos <> Panic /\
  forall c e, record_counted sparse buf pos = Ok (c, e) ->
    chunk_good sparse c /\ c = with_freecount (raw_chunk sparse buf pos) (freecount c) /\
    (e = None <-> record sparse buf pos = Ok c).
Proof.
  intros Hl. destruct (record_unfold sparse buf pos Hl) as [Hp Ho]. unfold record_counted.
  destruct (record sparse buf pos) as [c0|e0|] eqn:E; [| |done].
  - split; [done|]. intros c e [= <- <-]. split; [by eapply record_good|]. clear Ho Hp.
    apply record_unfold in E as [-> _]; [|done]. split; [by destruct sparse|done].
  - rewrite be32_Ok, be64_Ok by (unfold RECORD_LEN in Hl; lia). cbn [mbind res_bind].
    rewrite be16_Ok, byte_at_Ok, be32_Ok by (unfold RECORD_LEN in Hl; lia).
    set (h := if sparse then rd 2 (pos + 4) buf else 0). set (k := if sparse then rd 1 (pos + 6) buf else INODES_PER_CHUNK).
    replace (if sparse then Ok (rd 2 (pos + 4) buf) else Ok 0) with (Ok h) by (by destruct sparse). cbn [mbind res_bind].
    replace (if sparse then Ok (rd 1 (pos + 6) buf) else Ok INODES_PER_CHUNK) with (Ok k) by (by destruct sparse). cbn [mbind res_bind].
    set (p := negb sparse && (INODES_PER_CHUNK <? rd 4 (pos + 4) buf)).
    replace (if sparse then Ok false else Ok (INODES_PER_CHUNK <? rd 4 (pos + 4) buf)) with (Ok p) by (by destruct sparse).
    cbn [mbind res_bind]. destruct p; [split; [done|by intros]|].
    set (c1 := mkChunk (rd 4 pos buf) h k 0 (rd 8 (pos + 8) buf)).
    rewrite (res_filter_spec _ (free_in c1)) by (intros n Hn%elem_of_seqZ; apply present_and_free_spec; unfold INODES_PER_CHUNK in Hn; lia).
    cbn [mbind res_bind]. change (mkChunk (rd 4 pos buf) h k ?f (rd 8 (pos + 8) buf)) with (with_freecount c1 f).
    generalize (wrap 8 (Z.of_nat (length (List.filter (free_in c1) (seqZ 0 INODES_PER_CHUNK))))). intros f.
    set (c2 := with_freecount c1 f). destruct (check_counts_spec c2) as [Hp2 H2].
    destruct (check_counts c2) as [[]| |] eqn:E2; [|split; [done|by intros]|done]. split; [done|]. intros c e [= <- <-].
    destruct (proj1 H2 eq_refl) as [Hc Hf].
    assert (Hr : c2 = with_freecount (raw_chunk sparse buf pos) (freecount c2)) by (unfold c2, c1, h, k; by destruct sparse).
    split; [|split; [done|split; [done|]]; intros [= <-]]. destruct (raw_chunk_typed sparse buf pos) as (? & ? & ?).
    split; [|by intros ->]. by rewrite Hr in Hc, Hf |- *; constructor.
Qed.

(** A chunk record, in either of its two shapes.  Reading one never panics;
    what is read has a count between 4 and 64, fields in range and a free count
    equal to the number of its free inodes, no hole counted, and writing it
    back changes nothing; every such chunk survives its encoding, which writes
    16 bytes and no others; a record of one shape read as the other is always
    refused; and what the checker reads instead keeps every field but the
    count, which it sets right. *)
Theorem chunk_record_exact sparse buf pos : (pos + RECORD_LEN <= length buf)%nat ->
  record sparse buf pos <> Panic /\
  (forall c, record sparse buf pos = Ok c ->
     chunk_good sparse c /\ encode sparse buf pos c = Ok buf /\ exists e, record (negb sparse) buf pos = Err e) /\
  (forall c, chunk_good sparse c -> exists buf', encode sparse buf pos c = Ok buf' /\ length buf' = length buf /\
     record sparse buf' pos = Ok c /\ firstn pos buf' = firstn pos buf /\ drop (pos + RECORD_LEN) buf' = drop (pos + RECORD_LEN) buf) /\
  record_counted sparse buf pos <> Panic /\
  (forall c e, record_counted sparse buf pos = Ok (c, e) ->
     chunk_good sparse c /\ c = with_freecount (raw_chunk sparse buf pos) (freecount c) /\
     (e = None <-> record sparse buf pos = Ok c)).
Proof.
  intros Hl. split; [by apply record_unfold|]. split.
  { intros c H. split; [by eapply record_good|]. split; [by apply record_encode_self|]. by eapply other_shape_refused. }
  split; [|by apply record_counted_spec].
  intros c Hc. pose proof (length_chunk_bytes sparse c) as Hlen.
  assert (Hl' : (pos + length (chunk_bytes sparse c) <= length buf)%nat) by (by rewrite Hlen).
  exists (splice pos (chunk_bytes sparse c) buf). split; [by apply chunk_encode_Ok|]. rewrite length_splice by done. split; [done|]. split.
  - apply record_decode; [done|by rewrite length_splice|]. rewrite <- Hlen. by apply slice_splice_same.
  - rewrite <- Hlen. split; [by apply take_splice_before|by apply drop_splice_after].
Qed.

(** ** The trees' codec *)

Definition chunk_keys (buf : bytes) (pos : nat) (recs : list InodeChunk) : res bytes :=
  c ← expect (head recs); encode_key buf pos c.

Definition chunk_codec (which : Which) (sparse : bool) : RecordCodec InodeChunk := {|
  rc_shape := shape which;
  rc_encode := encode sparse;
  rc_decode := record sparse;
  rc_keys := chunk_keys;
|}.

#[global] Instance chunk_codec_laws which sparse : @RecordCodecLaws InodeChunk (chunk_codec which sparse) (chunk_good sparse).
Proof.
  unshelve esplit; [exact (chunk_bytes sparse)|..]; cbn [rc_shape rc_encode rc_decode rc_keys chunk_codec
    shape record_len key_len keys_per_entry overlapping].
  - apply length_chunk_bytes.
  - intros. by apply chunk_encode_Ok.
  - intros. by apply record_decode.
  - intros buf pos [|c cs] Hne Hl; [done|]. exists (to_be_bytes 4 (startino c)).
    split; [apply length_to_be_bytes|]. cbn [chunk_keys head expect mbind res_bind].
    apply copy_at_Ok. rewrite length_to_be_bytes. unfold KEY_LEN in Hl. lia.
  - unfold RECORD_LEN. lia.
  - unfold encode. destruct sparse; keeps_length.
  - unfold chunk_keys, encode_key. keeps_length.
Qed.

Lemma inode_shape_typed sb which : shape_typed sb (shape which).
Proof. split; [by destruct which|]. intros _. eexists. split; [done|by destruct which]. Qed.

(** ** The walk of this file *)

Section walk.
Context `{Crc : Crc32c} (sb : Superblock) (which : Which) (agno : Z) (read_agblock : Z -> res bytes).

Definition parse_block (buf : bytes) (agblock expect_level : Z) : res Node :=
  let header := if is_v5 sb then V5_HEADER_LEN else V4_HEADER_LEN in
  let what := AS (which_name which) in
  fail_if (length buf <? header)%nat
    (bad "AG {}: {} block {} is {} bytes, shorter than its {}-byte header"
      [AZ agno; what; AZ agblock; AZ (Z.of_nat (length buf)); AZ (Z.of_nat header)]);;
  let want := which_magic which (is_v5 sb) in
  magic ← be32 buf offsets.MAGIC;
  fail_if (negb (magic =? want))
    (bad "AG {}: {} block {} has magic {}, expected {}" [AZ agno; what; AZ agblock; AZ magic; AZ want]);;
  (if is_v5 sb then
     stored ← le32 buf offsets.CRC;
     computed ← crc32c_with_zeroed_crc buf offsets.CRC;
     fail_if (negb (stored =? computed)) (ChecksumMismatch "inode btree block" agblock);;
     uuid ← uuid_at buf offsets.UUID;
     fail_if (negb (bool_decide (uuid = sb_meta_uuid sb))) (BlockIdentityMismatch "inode btree block" agblock (umax 64));;
     owner ← be32 buf offsets.OWNER;
     fail_if (negb (owner =? agno)) (BlockIdentityMismatch "inode btree block owner" agno owner);;
     stated ← be64 buf offsets.BLKNO;
     let expected := expected_blkno sb agno agblock in
     fail_if (negb (stated =? expected)) (BlockIdentityMismatch "inode btree block address" expected stated)
   else Ok tt);;
  level ← be16 buf offsets.LEVEL;
  fail_if (negb (level =? expect_level))
    (bad "AG {}: {} block {} is at level {}, but its parent points to it as level {}"
      [AZ agno; what; AZ agblock; AZ level; AZ expect_level]);;
  let space := (length buf - header)%nat in
  let per := if level =? 0 then RECORD_LEN else (KEY_LEN + PTR_LEN)%nat in
  let max := (space / per)%nat in
  numrecs ← be16 buf offsets.NUMRECS;
  fail_if (max <? Z.to_nat numrecs)%nat
    (bad "AG {}: {} block {} claims {} records but has room for {}"
      [AZ agno; what; AZ agblock; AZ numrecs; AZ (Z.of_nat max)]);;
  Ok (mkNode level numrecs header max).

Fixpoint walk_loop (budget : nat) (stack : list (Z * Z)) (out : list InodeChunk) : res (list InodeChunk) :=
  match stack with
  | [] => Ok out
  | (agblock, expect_level) :: stack =>
      match budget with
      | O => Err (bad "AG {}: the walk visited more blocks than the group holds; the tree points back into itself" [AZ agno])
      | S budget =>
          buf ← read_agblock agblock;
          node ← parse_block buf agblock expect_level;
          if node_level node =? 0 then
            let end_ := (node_body node + Z.to_nat (node_numrecs node) * RECORD_LEN)%nat in
            fail_if (length buf <? end_)%nat
              (bad "AG {}: {} leaf {} needs {} bytes for its {} records but is only {} long"
                [AZ agno; AS (which_name which); AZ agblock; AZ (Z.of_nat end_); AZ (node_numrecs node); AZ (Z.of_nat (length buf))]);;
            records ← res_map (fun i => record (has_sparse_inodes sb) buf (node_body node + i * RECORD_LEN)%nat)
                        (seq 0 (Z.to_nat (node_numrecs node)));
            walk_loop budget stack (out ++ records)
          else
            let first := (node_body node + node_maxrecs node * KEY_LEN)%nat in
            let end_ := (first + Z.to_nat (node_numrecs node) * PTR_LEN)%nat in
            fail_if (length buf <? end_)%nat
              (bad "AG {}: {} node {} needs {} bytes for its pointer array but is only {} long"
                [AZ agno; AS (which_name which); AZ agblock; AZ (Z.of_nat end_); AZ (Z.of_nat (length buf))]);;
            children ← res_map (fun i => p ← be32 buf (first + i * PTR_LEN)%nat; Ok (p, wsub 16 (node_level node) 1))
                         (seq 0 (Z.to_nat (node_numrecs node)));
            walk_loop budget (children ++ stack) out
      end
  end.

Definition walk (root levels : Z) : res (list InodeChunk) :=
  fail_if ((levels =? 0) || (MAX_LEVELS <? levels))
    (bad "AG {}: {} claims {} levels, which is not a tree" [AZ agno; AS (which_name which); AZ levels]);;
  walk_loop (Z.to_nat (Z.max (sb_agblocks sb) 64)) [(root, wrap 16 (levels - 1))] [].
End walk.

Definition walk_from_agi `{Crc : Crc32c} (sb : Superblock) (a : Agi) (which : Which) (read_agblock : Z -> res bytes)
    : res (option (list InodeChunk)) :=
  match which with
  | All => Some <$> walk sb All (agi_seqno a) read_agblock (agi_root a) (agi_level a)
  | WithFreeInodes =>
      if negb (has_finobt sb) || (agi_free_level a =? 0) then Ok None
      else Some <$> walk sb WithFreeInodes (agi_seqno a) read_agblock (agi_free_root a) (agi_free_level a)
  end.

(** Two results that differ in what they say of a failure only. *)
Definition agree {A} (r s : res A) : Prop :=
  match r, s with
  | Ok a, Ok b => a = b
  | Err _, Err _ | Panic, Panic => True
  | _, _ => False
  end.
#[global] Instance agree_refl {A} : Reflexive (@agree A).
Proof. by intros [|e|]. Qed.

Lemma agree_bind {A B} (r s : res A) (f g : A -> res B) :
  agree r s -> (forall a, s = Ok a -> agree (f a) (g a)) -> agree (r ≫= f) (s ≫= g).
Proof. destruct r, s; cbn; try done. intros -> H. by apply H. Qed.
Lemma agree_bind_same {A B} (r : res A) (f g : A -> res B) : (forall a, r = Ok a -> agree (f a) (g a)) -> agree (r ≫= f) (r ≫= g).
Proof. by apply agree_bind. Qed.
Lemma agree_fail b e e' : agree (fail_if b e) (fail_if b e').
Proof. by destruct b. Qed.

Section equivalence.
Context `{Crc : Crc32c} (sb : Superblock) (which : Which) (agno : Z) (read_agblock : Z -> res bytes).

Ltac agree_step :=
  match goal with
  | |- agree (fail_if _ _ ≫= _) (fail_if _ _ ≫= _) => apply agree_bind; [apply agree_fail|intros _ _]
  | |- agree (fail_if _ _) (fail_if _ _) => apply agree_fail
  | |- agree (?r ≫= _) (?r ≫= _) => apply agree_bind_same; intros ? ?
  | |- agree ?r ?r => reflexivity
  end.

Lemma parse_block_agree buf agblock level :
  agree (parse_block sb which agno buf agblock level) (AgBtree.parse_block buf sb (shape which) agno agblock level).
Proof.
  unfold parse_block, AgBtree.parse_block. cbn [shape shape_name magic_v4 magic_v5 record_len key_len keys_per_entry overlapping].
  change (btree_header (is_v5 sb)) with (if is_v5 sb then V5_HEADER_LEN else V4_HEADER_LEN). agree_step.
  assert (E : (if is_v5 sb then Ok (which_magic which true) else ok_or (Some (which_magic which false))
    (unsupported "AG {}: a {} is a v5 feature and this filesystem is v4" [AZ agno; AS (which_name which)])) = Ok (which_magic which (is_v5 sb))).
  { by destruct (is_v5 sb). }
  rewrite E. cbn [mbind res_bind]. agree_step. agree_step. apply agree_bind; [destruct (is_v5 sb); repeat agree_step|]. intros _ _.
  agree_step. agree_step. unfold maxrecs.
  replace (Nat.max (if a0 =? 0 then RECORD_LEN else (1 * KEY_LEN + AgBtree.PTR_LEN)%nat) 1)
    with (if a0 =? 0 then RECORD_LEN else (KEY_LEN + PTR_LEN)%nat) by (by destruct (a0 =? 0)).
  repeat agree_step.
Qed.

Definition below (levels : nat) (stack : list (Z * Z)) : Prop := Forall (fun e => 0 <= e.2 < Z.of_nat levels) stack.

Lemma walk_loop_agree budget : forall stack out seen, (length seen <= 9)%nat -> below (length seen) stack ->
  agree (walk_loop sb which agno read_agblock budget stack out)
        (fst <$> AgBtree.walk_loop sb (shape which) agno read_agblock (record (has_sparse_inodes sb)) budget stack out seen).
Proof.
  induction budget as [|budget IH]; intros [|[b level] stack] out seen H9 Hb; cbn [walk_loop AgBtree.walk_loop]; try done.
  apply Forall_cons in Hb as [Hl Hb]. cbn [snd] in Hl.
  destruct (read_agblock b) as [buf|e|]; cbn [mbind res_bind]; [|done|done].
  pose proof (parse_block_agree buf b level) as Hp. destruct (AgBtree.parse_block_sound sb (shape which) agno buf b level) as [_ Hs].
  destruct (parse_block sb which agno buf b level) as [node|e|], (AgBtree.parse_block buf sb (shape which) agno b level) as [node'|e'|]; try done.
  cbn [agree] in Hp. subst node'. destruct (Hs node eq_refl) as [El Hn]. cbn [mbind res_bind].
  destruct (lookup_lt_is_Some_2 seen (Z.to_nat (node_level node))) as [old Eo]; [lia|]. rewrite Eo. cbn [expect mbind res_bind].
  destruct (Z.eqb_spec (node_level node) 0) as [E0|E0]; cbn [shape shape_name record_len key_len keys_per_entry overlapping].
  - rewrite E0. destruct (_ <? _)%nat; cbn [fail_if mbind res_bind]; [done|].
    change (leaf_records (shape which) (record (has_sparse_inodes sb)) buf node) with
      (res_map (fun i => record (has_sparse_inodes sb) buf (node_body node + i * RECORD_LEN)%nat) (seq 0 (Z.to_nat (node_numrecs node)))).
    destruct (res_map _ _) as [records|e|]; cbn [mbind res_bind]; [|done|done].
    apply IH; unfold below in *; by rewrite length_insert.
  - replace (node_body node + node_maxrecs node * 1 * KEY_LEN)%nat with (node_body node + node_maxrecs node * KEY_LEN)%nat by lia.
    change AgBtree.PTR_LEN with PTR_LEN. destruct (_ <? _)%nat; cbn [fail_if mbind res_bind]; [done|].
    unfold child_pointers. change AgBtree.PTR_LEN with PTR_LEN.
    destruct (res_map _ _) as [children|e|] eqn:Ec; cbn [mbind res_bind]; [|done|done].
    apply IH; [by rewrite length_insert|]. unfold below in *. rewrite length_insert. apply Forall_app. split; [|done].
    apply Forall_forall. intros [p l] Hin. apply list_elem_of_lookup in Hin as [k Hk].
    apply res_map_Ok in Ec. destruct (Forall2_lookup_r _ _ _ _ _ Ec Hk) as (i & _ & Hi).
    apply bind_Ok in Hi as (q & _ & [= <- <-]). cbn [snd]. unfold wsub. rewrite wrap_small; [lia|].
    unfold in_u. lia.
Qed.

Lemma walk_agree root levels : in_u 32 levels ->
  agree (walk sb which agno read_agblock root levels)
        (AgBtree.walk sb (shape which) agno read_agblock (record (has_sparse_inodes sb)) root levels).
Proof.
  intros Hu. unfold walk, AgBtree.walk, walk_blocks. change (Z.of_nat AgBtree.MAX_LEVELS) with MAX_LEVELS.
  destruct (Z.eqb_spec levels 0); [done|]. destruct (Z.ltb_spec MAX_LEVELS levels) as [|Hle]; cbn [orb fail_if mbind res_bind]; [done|].
  unfold MAX_LEVELS in Hle. unfold in_u in Hu. apply walk_loop_agree. { rewrite length_replicate. lia. }
  constructor; [|constructor]. cbn [snd]. rewrite length_replicate, wrap_small by (unfold in_u; lia). lia.
Qed.
End equivalence.

(** The walk this file keeps for itself and the walk shared by the group's
    trees read the same chunks, or both fail: on any device, any image and any
    depth, whatever the blocks hold. *)
Theorem inode_walk_agrees `{Crc : Crc32c} sb which agno read_agblock root levels : in_u 32 levels ->
  agree (walk sb which agno read_agblock root levels)
        (AgBtree.walk sb (shape which) agno read_agblock (record (has_sparse_inodes sb)) root levels).
Proof. apply walk_agree. Qed.

(** ** A sparse chunk of 48 inodes, two of them free *)

Definition sample_chunk : InodeChunk := mkChunk 96 0xF000 48 2 0xFFFF000000000028.
Definition sample_full : InodeChunk := mkChunk 32 0 64 0 0.
Lemma checked_ok c : in_u 32 (startino c) -> in_u 16 (holemask c) -> in_u 64 (free c) -> check_counts c = Ok tt -> chunk_ok c.
Proof. intros ? ? ? [? ?]%check_counts_spec. by constructor. Qed.
Lemma sample_chunk_ok : chunk_ok sample_chunk.
Proof. apply checked_ok; [by vm_compute..|vm_compute; reflexivity]. Qed.
Lemma sample_full_ok : chunk_ok sample_full.
Proof. apply checked_ok; [by vm_compute..|vm_compute; reflexivity]. Qed.

Definition sample_ops : list ChunkOp := [TakeInode 3; TakeInode 3; TakeInode 60; TakeInode 5; GiveInode 0; GiveInode 3; GiveInode 60; GiveInode 64].

Lemma chunk_refines_set_witness :
  exists c, chunk_run sample_ops (sample_chunk, true) = Ok ([true; false; false; true; true; true; false; false], (c, true)) /\ freecount c = 2.
Proof.
  destruct (chunk_refines_set sample_chunk sample_ops (sample_chunk, true)) as (answers & st & E & _).
  - constructor; [done|apply sample_chunk_ok|]. cbn [fst snd].
    symmetry. apply bool_decide_eq_true_2. intros H. pose proof (ck_counts _ sample_chunk_ok) as Hk. rewrite H in Hk. discriminate.
  - repeat constructor; by apply Z.leb_le.
  - exists (st.1). vm_compute in E. injection E as <- <-. split; vm_compute; reflexivity.
Defined.

Lemma choose_free_inode_exact_witness :
  choose_free_inode [sample_full; sample_chunk] = Ok (Some (1%nat, 3)) /\
  (forall d m, d ∈ [sample_full; sample_chunk] -> m ∈ numbers d -> 99 <= m).
Proof.
  assert (E : choose_free_inode [sample_full; sample_chunk] = Ok (Some (1%nat, 3))) by (vm_compute; reflexivity).
  split; [exact E|]. pose proof (choose_free_inode_exact [sample_full; sample_chunk]) as H. rewrite E in H.
  destruct H as (c & c' & t & Hc & _ & _ & Hm).
  - constructor; [apply sample_full_ok|]. constructor; [apply sample_chunk_ok|constructor].
  - intros [|[|i]] [|[|j]] a b Hij Ha Hb; try lia; cbn in *; try done. injection Ha as <-. injection Hb as <-. cbn. lia.
  - injection Hc as <-. exact Hm.
Defined.

Lemma chunk_record_exact_witness :
  record true (chunk_bytes true sample_chunk) 0 = Ok sample_chunk /\
  exists e, record false (chunk_bytes true sample_chunk) 0 = Err e.
Proof.
  assert (E : record true (chunk_bytes true sample_chunk) 0 = Ok sample_chunk) by (vm_compute; reflexivity).
  split; [exact E|]. destruct (chunk_record_exact true (chunk_bytes true sample_chunk) 0) as (_ & H & _); [apply Nat.leb_le; reflexivity|].
  destruct (H _ E) as (_ & _ & He). exact He.
Defined.

Definition sample_chunks : list InodeChunk := (fun i => mkChunk (64 * i) 0 64 0 0) <$> seqZ 1 50.
Definition chunk_image : list Built :=
  match build sample_sb (shape All) 1 (encode (has_sparse_inodes sample_sb)) chunk_keys sample_chunks [20; 21; 22] with
  | Ok out => out
  | _ => []
  end.
Definition chunk_read (b : Z) : res bytes :=
  match find (fun x => built_agblock x =? b) chunk_image with
  | Some x => Ok (built_bytes x)
  | None => Err NotFound
  end.

Lemma inode_walk_agrees_witness :
  agree (walk sample_sb All 1 chunk_read 22 2) (Ok sample_chunks).
Proof.
  assert (E : AgBtree.walk sample_sb (shape All) 1 chunk_read (record (has_sparse_inodes sample_sb)) 22 2 = Ok sample_chunks)
    by (vm_compute; reflexivity).
  rewrite <- E. apply (inode_walk_agrees sample_sb All 1 chunk_read 22 2). unfold in_u. lia.
Defined.
