(* ===== verification/Refcount.v ===== *)
(** * The reference-count records ([src/src/refcount.rs])

    A record says how many files hold a run of blocks, and exists only while
    more than one does.  [release] gives one reference up over a run and says
    which blocks nobody holds any more.  The records stand for a function from
    blocks to owner counts ([shared]); the theorems say what [release] does to
    that function, that the blocks it hands back are exactly the unshared
    ones, and that the records stay in the tree's order. *)

From Stdlib Require Import ZArith Lia Strings.String Sorted.
From stdpp Require Import base list strings sets.
From S2P Require Import Prelude Error Endian Crc32c Superblock Sample FreeSpace AgBtree.

Definition RECORD : nat := 12.
Definition COW_FLAG : Z := 2 ^ 31.
Definition XFS_REFC_CRC_MAGIC : Z := 0x52334643.
Definition KEY : nat := 4.

Record Refcount := mkRef {
  r_start : Z;
  r_count : Z;
  r_refs : Z;
  r_cow : bool;
}.
#[global] Instance Refcount_eq_dec : EqDecision Refcount.
Proof. solve_decision. Defined.

Definition shape : Shape := mkShape "refcountbt" None XFS_REFC_CRC_MAGIC RECORD KEY false.

Definition decode (buf : bytes) (pos : nat) : res Refcount :=
  raw ← be32 buf pos;
  count ← be32 buf (pos + 4);
  refs ← be32 buf (pos + 8);
  Ok (mkRef (Z.land raw (unot 32 COW_FLAG)) count refs (negb (Z.land raw COW_FLAG =? 0))).

Definition raw_start (r : Refcount) : Z :=
  if r_cow r then Z.lor (r_start r) COW_FLAG else r_start r.

Definition encode (buf : bytes) (pos : nat) (record : Refcount) : res bytes :=
  buf ← copy_at pos (to_be_bytes 4 (raw_start record)) buf;
  buf ← copy_at (pos + 4) (to_be_bytes 4 (r_count record)) buf;
  copy_at (pos + 8) (to_be_bytes 4 (r_refs record)) buf.

Definition encode_key (buf : bytes) (pos : nat) (record : Refcount) : res bytes :=
  copy_at pos (to_be_bytes 4 (raw_start record)) buf.

(** One past the last block, in 64 bits. *)
Definition r_end (r : Refcount) : Z := r_start r + r_count r.

Definition overlaps (r : Refcount) (startblock end_ : Z) : bool :=
  (r_start r <? end_) && (startblock <? r_end r).

Definition order_complaint (previous : option Refcount) (r : Refcount) : option string :=
  if r_count r =? 0 then Some "is empty"%string
  else if negb (r_cow r) && (r_refs r <? 2) then
    Some "is shared by fewer than two owners, and a record should only exist while there is more than one"%string
  else if r_cow r && negb (r_refs r =? 1) then
    Some "is a staging record with other than one owner"%string
  else match previous with
  | None => None
  | Some p =>
      if r_cow p && negb (r_cow r) then Some "is shared and follows a staging record"%string
      else if Bool.eqb (r_cow p) (r_cow r) && (r_start r <? r_end p) then
        Some "starts before the record before it ends"%string
      else None
  end.

Fixpoint check_order_loop (i : Z) (previous : option Refcount) (records : list Refcount)
    : res unit :=
  match records with
  | [] => Ok tt
  | r :: records =>
      match order_complaint previous r with
      | Some why =>
          Err (bad "reference-count record {} ({} blocks at {}, {} owners{}) {}"
                [AZ i; AZ (r_count r); AZ (r_start r); AZ (r_refs r);
                 AS (if r_cow r then ", staging" else ""); AS why])
      | None => check_order_loop (i + 1) (Some r) records
      end
  end.
Definition check_order (records : list Refcount) : res unit := check_order_loop 0 None records.

Fixpoint check_runs_loop (agno length headers i : Z) (records : list Refcount) : res unit :=
  match records with
  | [] => Ok tt
  | r :: records =>
      let why := if r_start r <=? headers then Some "starts on the group's headers"%string
                 else if length <? r_end r then Some "runs past the end of the group"%string
                 else None in
      match why with
      | None => check_runs_loop agno length headers (i + 1) records
      | Some why =>
          Err (bad "AG {}: reference-count record {} ({} blocks at {}) {}, in a group of {} blocks"
                [AZ agno; AZ i; AZ (r_count r); AZ (r_start r); AS why; AZ length])
      end
  end.
Definition check_runs (agno length headers : Z) (records : list Refcount) : res unit :=
  check_runs_loop agno length headers 0 records;; check_order records.
Definition check_records (sb : Superblock) (agno length : Z) (records : list Refcount) : res unit :=
  check_runs agno length (3 * sb_sectsize sb / sb_blocksize sb) records.

(** The tree's key order: the flag is the key's top bit. *)
Definition key_leb (a b : Refcount) : bool :=
  match r_cow a, r_cow b with
  | false, true => true
  | true, false => false
  | _, _ => r_start a <=? r_start b
  end.

Definition joinable (a b : Refcount) : bool :=
  (r_end a =? r_start b) && (r_refs a =? r_refs b) && Bool.eqb (r_cow a) (r_cow b).

(** The loop of [merge_adjacent], at a record and the ones after it: join the
    next one to it, or leave it and move on. *)
Fixpoint merge_from (a : Refcount) (l : list Refcount) : list Refcount :=
  match l with
  | [] => [a]
  | b :: l =>
      if joinable a b
      then merge_from (mkRef (r_start a) (wadd 32 (r_count a) (r_count b)) (r_refs a) (r_cow a)) l
      else a :: merge_from b l
  end.
Definition merge_adjacent (records : list Refcount) : list Refcount :=
  match sort_by key_leb records with
  | [] => []
  | a :: l => merge_from a l
  end.

(** The gaps between the records the run touches. *)
Fixpoint freeable_loop (pos end_ : Z) (touched : list Refcount) : list FreeExtent :=
  match touched with
  | [] => if pos <? end_ then [mkFree (wrap 32 pos) (wrap 32 (end_ - pos))] else []
  | r :: touched =>
      (if pos <? r_start r then [mkFree (wrap 32 pos) (wrap 32 (r_start r - pos))] else []) ++
      freeable_loop (Z.max pos (r_end r)) end_ touched
  end.

(** What replaces a record: the part before the run, the part let go of, the
    part after. *)
Definition pieces (start end_ : Z) (r : Refcount) : list Refcount :=
  let hit_start := Z.max (r_start r) start in
  let hit_end := Z.min (r_end r) end_ in
  (if r_start r <? hit_start
   then [mkRef (wrap 32 (r_start r)) (wrap 32 (hit_start - r_start r)) (r_refs r) false] else []) ++
  (if 2 <? r_refs r
   then [mkRef (wrap 32 hit_start) (wrap 32 (hit_end - hit_start)) (r_refs r - 1) false] else []) ++
  (if hit_end <? r_end r
   then [mkRef (wrap 32 hit_end) (wrap 32 (r_end r - hit_end)) (r_refs r) false] else []).

(** [records.splice(i..=i, pieces)] for each touched index. *)
Fixpoint rewrite_touched (start end_ : Z) (records : list Refcount) (indices : list nat)
    : list Refcount * res unit :=
  match indices with
  | [] => (records, Ok tt)
  | i :: indices =>
      match records !! i with
      | None => (records, Panic)
      | Some r =>
          if r_refs r <? 2 then
            (records, Err (unsupported "the reference-count record for group blocks {}..{} says {} owners, and a record should only exist while there is more than one"
               [AZ (r_start r); AZ (r_end r); AZ (r_refs r)]))
          else rewrite_touched start end_
                 (take i records ++ pieces start end_ r ++ drop (S i) records) indices
      end
  end.

(** The indices of the records a test picks. *)
Fixpoint indices_of {A} (p : A -> bool) (i : nat) (l : list A) : list nat :=
  match l with
  | [] => []
  | x :: l => if p x then i :: indices_of p (S i) l else indices_of p (S i) l
  end.

Definition release (records : list Refcount) (startblock blockcount : Z)
    : list Refcount * res (list FreeExtent) :=
  match check_order records with
  | Err e => (records, Err e)
  | Panic => (records, Panic)
  | Ok _ =>
      let start := startblock in
      let end_ := start + blockcount in
      match find (fun r => r_cow r && overlaps r startblock end_) records with
      | Some cow =>
          (records, Err (unsupported "group blocks {}..{} overlap a copy-on-write staging record at {}..{}; this driver does not do copy-on-write and will not free underneath one"
             [AZ startblock; AZ end_; AZ (r_start cow); AZ (r_end cow)]))
      | None =>
          let start_of i := match records !! i with Some r => r_start r | None => 0 end in
          let touched :=
            sort_by (fun i j => start_of i <=? start_of j)
              (indices_of (fun r => negb (r_cow r) && overlaps r startblock end_) 0 records) in
          let freeable := freeable_loop start end_ (omap (fun i => records !! i) touched) in
          match rewrite_touched start end_ records (rev touched) with
          | (records, Ok _) => (merge_adjacent records, Ok freeable)
          | (records, Err e) => (records, Err e)
          | (records, Panic) => (records, Panic)
          end
      end
  end.

(** ** What the records stand for *)

Definition r_covers (r : Refcount) (b : Z) : Prop := r_start r <= b < r_end r.
(** [n] files hold block [b], and more than one does. *)
Definition shared (l : list Refcount) (b n : Z) : Prop :=
  exists r, r ∈ l /\ r_cow r = false /\ r_covers r b /\ r_refs r = n.
Definition staged (l : list Refcount) (b : Z) : Prop :=
  exists r, r ∈ l /\ r_cow r = true /\ r_covers r b.

Record r_typed (r : Refcount) : Prop := {
  rt_start : in_u 32 (r_start r);
  rt_count : in_u 32 (r_count r);
  rt_refs : in_u 32 (r_refs r);
  rt_end : r_end r < 2 ^ 32;
}.

(** The key order as one line: staging records come after every shared one. *)
Definition kstart (r : Refcount) : Z := r_start r + if r_cow r then 2 ^ 32 else 0.
Definition kend (r : Refcount) : Z := kstart r + r_count r.

(** A record the tree may hold. *)
Definition r_valid (r : Refcount) : Prop :=
  0 < r_count r /\ (if r_cow r then r_refs r = 1 else 2 <= r_refs r).

(** Valid records in key order from [lo] on, not overlapping. *)
Fixpoint chain (lo : Z) (l : list Refcount) : Prop :=
  match l with
  | [] => True
  | r :: l => lo <= kstart r /\ r_valid r /\ r_typed r /\ chain (kend r) l
  end.

Lemma chain_lo lo lo' l : lo <= lo' -> chain lo' l -> chain lo l.
Proof. destruct l; cbn; naive_solver lia. Qed.

Lemma chain_elem lo l r :
  chain lo l -> r ∈ l -> lo <= kstart r /\ r_valid r /\ r_typed r.
Proof.
  revert lo; induction l as [|x l IH]; intros lo H Hr; [set_solver|].
  apply elem_of_cons in Hr as [->|Hr]; cbn in H; [tauto|].
  destruct H as (? & [? _] & _ & H). apply (IH _ H) in Hr. unfold kend in Hr. naive_solver lia.
Qed.

Definition prev_end (prev : option Refcount) : Z :=
  match prev with Some p => kend p | None => 0 end.

Lemma order_complaint_spec prev r :
  r_typed r -> (forall p, prev = Some p -> r_typed p /\ 0 < r_count p) ->
  order_complaint prev r = None <-> prev_end prev <= kstart r /\ r_valid r.
Proof.
  intros [Hs Hc Hr He] Hp. unfold order_complaint, prev_end, r_valid, kend, kstart, in_u, r_end in *.
  destruct (Z.eqb_spec (r_count r) 0); [naive_solver lia|].
  assert (match prev with
    | Some p => in_u 32 (r_start p) /\ in_u 32 (r_count p) /\
        r_start p + r_count p < 2 ^ 32 /\ 0 < r_count p
    | None => True end) as Hp'.
  { destruct prev as [p|]; [|done]. by destruct (Hp p eq_refl) as [[]]. }
  clear Hp. unfold in_u in Hp'.
  destruct (r_cow r); cbn [negb andb].
  - destruct (Z.eqb_spec (r_refs r) 1); cbn [negb]; [|naive_solver lia].
    destruct prev as [p|]; [|naive_solver lia].
    destruct (r_cow p); cbn [andb negb Bool.eqb]; [|naive_solver lia].
    destruct (Z.ltb_spec (r_start r) (r_start p + r_count p)); naive_solver lia.
  - destruct (Z.ltb_spec (r_refs r) 2); [naive_solver lia|].
    destruct prev as [p|]; [|naive_solver lia].
    destruct (r_cow p); cbn [andb negb Bool.eqb]; [naive_solver lia|].
    destruct (Z.ltb_spec (r_start r) (r_start p + r_count p)); naive_solver lia.
Qed.

Lemma check_order_loop_spec i prev l :
  Forall r_typed l -> (forall p, prev = Some p -> r_typed p /\ 0 < r_count p) ->
  check_order_loop i prev l = Ok tt <-> chain (prev_end prev) l.
Proof.
  intros Hl. revert i prev. induction Hl as [|r l Hr Hl IH]; intros i prev Hp; [done|].
  cbn [check_order_loop chain]. pose proof (order_complaint_spec prev r Hr Hp) as Hc.
  destruct (order_complaint prev r) as [why|].
  - split; [done|]. intros (? & ? & _). by destruct Hc as [_ Hc]; discriminate Hc.
  - destruct Hc as [Hc _]. destruct (Hc eq_refl) as [? [? ?]].
    rewrite IH by (intros p [= <-]; split; [done|lia]). cbn [prev_end]. unfold r_valid. tauto.
Qed.

Lemma check_order_spec l : Forall r_typed l -> check_order l = Ok tt <-> chain 0 l.
Proof. intros. by apply (check_order_loop_spec 0 None). Qed.

(** ** Rewriting the records a run touches *)

Section rewriting.
Context (start end_ : Z).

Definition touched_by (r : Refcount) : bool := negb (r_cow r) && overlaps r start end_.
Definition replaced (r : Refcount) : list Refcount :=
  if touched_by r then pieces start end_ r else [r].

Lemma rewrite_touched_app l i1 i2 :
  rewrite_touched start end_ l (i1 ++ i2) =
  match rewrite_touched start end_ l i1 with
  | (l', Ok _) => rewrite_touched start end_ l' i2
  | r => r
  end.
Proof.
  revert l; induction i1 as [|i i1 IH]; intros l; cbn [rewrite_touched app]; [done|].
  repeat case_match; try done. all: rewrite IH; by repeat case_match; simplify_eq.
Qed.

Lemma rewrite_touched_spec pre l :
  (forall r, r ∈ l -> touched_by r = true -> 2 <= r_refs r) ->
  rewrite_touched start end_ (pre ++ l) (rev (indices_of touched_by (length pre) l)) =
  (pre ++ concat (replaced <$> l), Ok tt).
Proof.
  revert pre; induction l as [|r l IH]; intros pre Hr; cbn [indices_of].
  { by cbn. }
  specialize (IH (pre ++ [r])). rewrite length_app, Nat.add_1_r in IH.
  rewrite <- !app_assoc in IH. cbn [app] in IH.
  specialize (IH ltac:(intros; apply Hr; set_solver)).
  cbn [fmap list_fmap concat]. unfold replaced at 1. destruct (touched_by r) eqn:Et.
  - cbn [rev]. rewrite rewrite_touched_app, IH. cbn [rewrite_touched].
    rewrite list_lookup_middle by done.
    rewrite (proj2 (Z.ltb_ge _ _)) by (apply Hr; set_solver).
    rewrite take_app_length, drop_app_ge by lia.
    rewrite Nat.sub_succ_l, Nat.sub_diag by lia. done.
  - rewrite IH. done.
Qed.

Lemma omap_indices l pre :
  omap (fun i => (pre ++ l) !! i) (indices_of touched_by (length pre) l) =
  filter (fun r => touched_by r = true) l.
Proof.
  revert pre; induction l as [|r l IH]; intros pre; cbn [indices_of]; [done|].
  specialize (IH (pre ++ [r])). rewrite length_app, Nat.add_1_r, <- app_assoc in IH. cbn [app] in IH.
  rewrite filter_cons. destruct (touched_by r) eqn:Et.
  - rewrite decide_True by done. cbn [omap list_omap]. rewrite list_lookup_middle by done. by rewrite <- IH.
  - rewrite decide_False by done. done.
Qed.
End rewriting.

Lemma indices_of_Sorted {A} (p : A -> bool) (R : nat -> nat -> Prop) l n :
  (forall i j x y, (i < j)%nat -> l !! i = Some x -> l !! j = Some y ->
    p x = true -> p y = true -> R (n + i)%nat (n + j)%nat) ->
  Sorted R (indices_of p n l).
Proof.
  revert n; induction l as [|x l IH]; intros n HR; cbn [indices_of]; [constructor|].
  assert (Sorted R (indices_of p (S n) l)) as Hs.
  { apply IH. intros i j a b Hij Ha Hb. 
    replace (S n + i)%nat with (n + S i)%nat by lia.
    replace (S n + j)%nat with (n + S j)%nat by lia.
    apply (HR (S i) (S j)); [lia|done|done]. }
  destruct (p x) eqn:Ex; [|done]. constructor; [done|].
  assert (forall k m, head (indices_of p k m) = None \/
    exists i y, head (indices_of p k m) = Some (k + i)%nat /\ m !! i = Some y /\ p y = true) as Hh.
  { clear. intros k m; revert k; induction m as [|y m IH]; intros k; cbn [indices_of]; [by left|].
    destruct (p y) eqn:Ey; [right; exists 0%nat, y; by rewrite Nat.add_0_r|].
    destruct (IH (S k)) as [|(i & z & -> & ? & ?)]; [by left|right]. exists (S i), z.
    split_and!; try done. f_equal. lia. }
  destruct (Hh (S n) l) as [E|(i & y & E & Hy & Ey)]; destruct (indices_of p (S n) l);
    [constructor|done|done|].
  - cbn in E. injection E as ->. constructor. rewrite <- (Nat.add_0_r n) at 1.
    rewrite <- Nat.add_succ_r. by apply (HR 0%nat (S i) x y); [lia|..].
Qed.

(** ** The blocks that come back *)

Lemma freeable_spec pos end_ l lo :
  chain lo l -> (forall r, r ∈ l -> r_cow r = false /\ r_start r < end_) ->
  0 <= pos -> end_ < 2 ^ 32 ->
  runs 1 (Z.min pos (end_ + 1)) end_ (freeable_loop pos end_ l) /\
  forall b, is_free (freeable_loop pos end_ l) b <->
    pos <= b < end_ /\ forall r, r ∈ l -> ~ r_covers r b.
Proof.
  intros Hc Ht Hpos He. revert lo pos Hc Hpos.
  induction l as [|r l IH]; intros lo pos Hc Hpos; cbn [freeable_loop].
  - destruct (Z.ltb_spec pos end_).
    + rewrite !wrap_small by (unfold in_u; lia). cbn [runs]. unfold fe_end. cbn [startblock blockcount].
      split; [lia|]. intros b. rewrite is_free_cons, is_free_nil. unfold in_extent, fe_end. cbn.
      split; [intros [?|[]]; split; [lia|set_solver]|intros [? _]; left; lia].
    + cbn. split; [lia|]. intros b. rewrite is_free_nil. lia.
  - destruct Hc as (_ & [Hcnt _] & [Hs _ _ Hre] & Hc).
    destruct (Ht r ltac:(set_solver)) as [Hcow Hst]. unfold in_u, r_end in *.
    destruct (IH ltac:(set_solver) _ (Z.max pos (r_start r + r_count r)) Hc ltac:(lia)) as [R F].
    unfold r_covers, r_end in *.
    split.
    + destruct (Z.ltb_spec pos (r_start r)); cbn [app].
      * rewrite !wrap_small by (unfold in_u; lia). cbn [runs]. unfold fe_end. cbn.
        split; [lia|]. split; [lia|]. eapply runs_lo; [|exact R]; lia.
      * eapply runs_lo; [|exact R]; lia.
    + intros b. rewrite is_free_app, F.
      assert (is_free (if pos <? r_start r
        then [mkFree (wrap 32 pos) (wrap 32 (r_start r - pos))] else []) b <->
        pos <= b < r_start r) as ->.
      { destruct (Z.ltb_spec pos (r_start r)).
        - rewrite !wrap_small by (unfold in_u; lia). rewrite is_free_cons, is_free_nil.
          unfold in_extent, fe_end. cbn. split; [intros [?|[]]; lia|intros; left; lia].
        - rewrite is_free_nil. lia. }
      assert (forall x, x ∈ l -> r_start r + r_count r <= r_start x) as Hafter.
      { intros x Hx. destruct (Ht x ltac:(set_solver)) as [Hcx _].
        apply (chain_elem _ _ _ Hc) in Hx as (Hk & _ & _).
        unfold kend, kstart in Hk. rewrite Hcow, Hcx in Hk. lia. }
      split.
      * intros [Hb|[Hb Hall]]; (split; [lia|]); intros x [->|Hx]%elem_of_cons; try lia;
          [specialize (Hafter x Hx); lia|by apply Hall].
      * intros [Hb Hall]. pose proof (Hall r ltac:(set_solver)).
        destruct (decide (b < r_start r)); [left; lia|right]. split; [lia|].
        intros x Hx. apply Hall. set_solver.
Qed.

(** ** The records that are left *)

Lemma chain_replaced start end_ lo l :
  0 <= start < end_ -> end_ < 2 ^ 32 -> chain lo l ->
  chain lo (concat (replaced start end_ <$> l)).
Proof.
  intros Hs He. revert lo; induction l as [|r l IH]; intros lo; [done|].
  cbn [chain fmap list_fmap concat]. intros (Hlo & Hv & Ht & Hch%IH).
  unfold replaced at 1. unfold touched_by, overlaps.
  destruct (negb (r_cow r) && _) eqn:E; [|by cbn [app chain]]. bool_prop.
  destruct Hv as [Hc Hv], Ht as [Hrs Hrc Hrr Hre]. rename H into Ecow.
  unfold kend, kstart, in_u, r_end in *. rewrite Ecow in *. unfold pieces, r_end.
  rewrite !wrap_small by (unfold in_u; lia).
  assert (forall lo s c n rest, lo <= s -> 0 < c -> 2 <= n < 2 ^ 32 -> 0 <= s -> s + c < 2 ^ 32 ->
    chain (s + c) rest -> chain lo (mkRef s c n false :: rest)) as Hcons.
  { intros lo' **. cbn [chain]. unfold kend, kstart, r_valid.
    cbn [r_start r_count r_cow r_refs]. rewrite !Z.add_0_r.
    split; [done|]. split; [lia|]. split; [|done]. split; unfold in_u, r_end; cbn; lia. }
  rewrite Z.add_0_r in *.
  destruct (Z.ltb_spec (r_start r) (Z.max (r_start r) start)), (Z.ltb_spec 2 (r_refs r)),
    (Z.ltb_spec (Z.min (r_start r + r_count r) end_) (r_start r + r_count r)); cbn [app];
    repeat (apply Hcons; [lia..|]); (eapply chain_lo; [|exact Hch]); lia.
Qed.

(** Records that stand for the same thing. *)
Definition same_sharing (l l' : list Refcount) : Prop :=
  (forall b n, shared l b n <-> shared l' b n) /\ (forall b, staged l b <-> staged l' b).

Lemma shared_cons r l b n :
  shared (r :: l) b n <-> (r_cow r = false /\ r_covers r b /\ r_refs r = n) \/ shared l b n.
Proof. unfold shared. set_solver. Qed.
Lemma staged_cons r l b :
  staged (r :: l) b <-> (r_cow r = true /\ r_covers r b) \/ staged l b.
Proof. unfold staged. set_solver. Qed.
Lemma shared_app l1 l2 b n : shared (l1 ++ l2) b n <-> shared l1 b n \/ shared l2 b n.
Proof. unfold shared. set_solver. Qed.
Lemma staged_app l1 l2 b : staged (l1 ++ l2) b <-> staged l1 b \/ staged l2 b.
Proof. unfold staged. set_solver. Qed.
Lemma shared_nil b n : shared [] b n <-> False.
Proof. unfold shared. set_solver. Qed.
Lemma staged_nil b : staged [] b <-> False.
Proof. unfold staged. set_solver. Qed.

(** What giving one reference up over [start, end_) does to a count. *)
Definition released (start end_ b n m : Z) : Prop :=
  if decide (start <= b < end_) then n = m + 1 /\ 2 <= m else n = m.

Lemma replaced_shared start end_ r b m :
  0 <= start < end_ -> end_ < 2 ^ 32 -> r_typed r -> r_valid r ->
  shared (replaced start end_ r) b m <->
  exists n, r_cow r = false /\ r_covers r b /\ r_refs r = n /\ released start end_ b n m.
Proof.
  intros Hs He [Hrs Hrc Hrr Hre] [Hc Hv]. unfold replaced, touched_by, overlaps, released.
  destruct (r_cow r) eqn:Ecow; cbn [negb andb].
  { rewrite shared_cons, shared_nil, Ecow. naive_solver. }
  unfold r_covers, in_u, r_end in *.
  destruct (Z.ltb_spec (r_start r) end_), (Z.ltb_spec start (r_start r + r_count r)); cbn [andb];
    try (rewrite shared_cons, shared_nil, Ecow; unfold r_covers, r_end; case_decide; naive_solver lia).
  unfold pieces, r_end. rewrite !wrap_small by (unfold in_u; lia). rewrite !shared_app.
  destruct (Z.ltb_spec (r_start r) (Z.max (r_start r) start)), (Z.ltb_spec 2 (r_refs r)),
    (Z.ltb_spec (Z.min (r_start r + r_count r) end_) (r_start r + r_count r));
    rewrite ?shared_cons, ?shared_nil; unfold r_covers, r_end; cbn [r_start r_count r_refs r_cow];
    case_decide; naive_solver lia.
Qed.

Lemma replaced_staged start end_ r b :
  staged (replaced start end_ r) b <-> r_cow r = true /\ r_covers r b.
Proof.
  unfold replaced, touched_by. destruct (r_cow r) eqn:Ecow; cbn [negb andb].
  { rewrite staged_cons, staged_nil, Ecow. naive_solver. }
  split; [|by intros [? _]]. intros (x & Hx & Hc & _). exfalso. case_match.
  - unfold pieces in Hx. repeat case_match; set_solver.
  - apply list_elem_of_singleton in Hx as ->. congruence.
Qed.

Lemma all_replaced start end_ lo l :
  0 <= start < end_ -> end_ < 2 ^ 32 -> chain lo l ->
  (forall b m, shared (concat (replaced start end_ <$> l)) b m <->
     exists n, shared l b n /\ released start end_ b n m) /\
  (forall b, staged (concat (replaced start end_ <$> l)) b <-> staged l b).
Proof.
  intros Hs He. revert lo; induction l as [|r l IH]; intros lo.
  { intros _. cbn. split; intros; [setoid_rewrite shared_nil|rewrite staged_nil]; naive_solver. }
  cbn [chain fmap list_fmap concat]. intros (_ & Hv & Ht & [IH1 IH2]%IH). split; intros.
  - rewrite shared_app, replaced_shared, IH1 by done. setoid_rewrite shared_cons. naive_solver.
  - by rewrite staged_app, replaced_staged, IH2, staged_cons.
Qed.

(** ** Joining what touches *)

Lemma merge_from_spec lo a l :
  chain lo (a :: l) ->
  chain lo (merge_from a l) /\ same_sharing (merge_from a l) (a :: l).
Proof.
  revert lo a; induction l as [|b l IH]; intros lo a Hc; cbn [merge_from]; [done|].
  destruct (joinable a b) eqn:E.
  - unfold joinable in E. rewrite !andb_true_iff in E. destruct E as [[E1 E2] E3]. bool_prop.
    apply Bool.eqb_prop in E3. cbn [chain] in Hc.
    destruct Hc as (Hlo & [Ha Hva] & [Ha1 Ha2 Ha3 Ha4] & Hlo' & [Hb Hvb] & [Hb1 Hb2 Hb3 Hb4] & Hc).
    unfold in_u, r_end in *. rewrite wadd_small by lia.
    set (m := mkRef (r_start a) (r_count a + r_count b) (r_refs a) (r_cow a)).
    destruct (IH lo m) as [IH1 [IH2 IH3]].
    { cbn [chain]. unfold m, r_valid, kend, kstart in *. cbn [r_start r_count r_refs r_cow].
      rewrite E3 in *. split; [done|]. split; [split; [lia|done]|].
      split; [split; unfold in_u, r_end; cbn; lia|]. eapply chain_lo; [|exact Hc]. lia. }
    assert (forall k, r_covers m k <-> r_covers a k \/ r_covers b k) as Hm
      by (intros k; unfold m, r_covers, r_end; cbn [r_start r_count]; lia).
    split; [done|]. split; intros.
    + rewrite IH2, !shared_cons, Hm, <- E2, <- E3. cbn [m r_cow r_refs]. tauto.
    + rewrite IH3, !staged_cons, Hm, <- E3. cbn [m r_cow]. tauto.
  - cbn [chain] in Hc. destruct Hc as (? & ? & ? & Hc). destruct (IH _ b Hc) as [IH1 [IH2 IH3]].
    split; [done|]. split; intros; [rewrite shared_cons, IH2, <- shared_cons|
      rewrite staged_cons, IH3, <- staged_cons]; done.
Qed.

Lemma chain_Sorted lo l : chain lo l -> Sorted (fun x y => key_leb x y = true) l.
Proof.
  revert lo; induction l as [|a l IH]; intros lo; [constructor|].
  cbn [chain]. intros (_ & [Ha _] & [Ha1 _ _ Ha2] & Hc). constructor; [by eapply IH|].
  destruct l as [|b l]; [constructor|]. constructor. cbn [chain] in Hc.
  destruct Hc as (Hk & _ & [Hb1 _ _ Hb2] & _). unfold key_leb, kend, kstart, in_u, r_end in *.
  destruct (r_cow a), (r_cow b); try done; try apply Z.leb_le; lia.
Qed.

Lemma merge_adjacent_spec lo l :
  chain lo l -> chain lo (merge_adjacent l) /\ same_sharing (merge_adjacent l) l.
Proof.
  intros Hc. unfold merge_adjacent. rewrite sort_by_id by by eapply chain_Sorted.
  destruct l as [|a l]; [done|]. by apply merge_from_spec.
Qed.

(** ** Releasing a run *)

Section release.
Context (l : list Refcount) (start count : Z).
Context (Hchain : chain 0 l) (Hs : in_u 32 start) (Hc : 0 < count) (He : start + count < 2 ^ 32).

Abbreviation stop := (start + count).

Lemma overlaps_spec r : overlaps r start stop = true <-> r_start r < stop /\ start < r_end r.
Proof. unfold overlaps. rewrite andb_true_iff, !Z.ltb_lt. done. Qed.

(** Shared records come in block order, so sorting what a run touches
    changes nothing. *)
Lemma touched_sorted :
  let idx := indices_of (touched_by start stop) 0 l in
  sort_by (fun i j =>
    (match l !! i with Some r => r_start r | None => 0 end) <=?
    (match l !! j with Some r => r_start r | None => 0 end)) idx = idx.
Proof.
  apply sort_by_id, indices_of_Sorted. intros i j x y Hij Hx Hy Ex Ey. cbn [Nat.add].
  rewrite Hx, Hy. apply Z.leb_le. unfold touched_by in *. bool_prop.
  apply Nat.lt_le_incl in Hij as Hle. clear - Hchain Hij Hx Hy H H1.
  revert i j Hij Hx Hy. generalize 0 as lo, Hchain. clear Hchain.
  induction l as [|r l' IH]; intros lo Hch i j Hij Hx Hy; [done|].
  destruct Hch as (_ & [Hr _] & _ & Hch). destruct i as [|i], j as [|j]; try lia; cbn in Hx, Hy.
  - simplify_eq. apply list_elem_of_lookup_2, (chain_elem _ _ _ Hch) in Hy as (Hk & _).
    unfold kend, kstart in Hk. rewrite H, H1 in Hk. lia.
  - eapply IH; [done| |done|done]. lia.
Qed.

Lemma filter_chain (p : Refcount -> bool) lo l' :
  chain lo l' -> chain lo (filter (fun r => p r = true) l').
Proof.
  revert lo; induction l' as [|r l' IH]; intros lo; [done|].
  intros (? & [? ?] & Ht & Hch). rewrite filter_cons. case_decide.
  - cbn [chain]. split_and!; try done. by apply IH.
  - apply IH. eapply chain_lo; [|exact Hch]. unfold kend. lia.
Qed.

Lemma no_panic_refs r : r ∈ l -> touched_by start stop r = true -> 2 <= r_refs r.
Proof.
  intros Hr Ht. destruct (chain_elem _ _ _ Hchain Hr) as (_ & [_ Hv] & _).
  unfold touched_by in Ht. bool_prop. by rewrite H in Hv.
Qed.

Lemma release_spec :
  match release l start count with
  | (l', Ok free) =>
      (forall b, start <= b < stop -> ~ staged l b) /\
      (forall b m, shared l' b m <-> exists n, shared l b n /\ released start stop b n m) /\
      (forall b, staged l' b <-> staged l b) /\
      (forall b, is_free free b <-> start <= b < stop /\ forall n, ~ shared l b n) /\
      runs 1 start stop free /\ chain 0 l'
  | (l', Err e) =>
      l' = l /\ (exists m, e = UnsupportedFeature m) /\ exists b, start <= b < stop /\ staged l b
  | (_, Panic) => False
  end.
Proof.
  pose proof (fun r => chain_elem 0 l r Hchain) as Hel.
  unfold release, in_u in *.
  rewrite (proj2 (check_order_spec l (proj2 (Forall_forall _ _)
    (fun r Hr => proj2 (proj2 (Hel r Hr)))))) by done.
  destruct (find _ l) as [cow|] eqn:Ef.
  { apply find_some in Ef as [Hin%list_elem_of_In Hp]. bool_prop.
    destruct (Hel cow Hin) as (_ & [? _] & _).
    split; [done|]. split; [by eexists|]. apply overlaps_spec in H0. unfold r_end in *.
    exists (Z.max start (r_start cow)). split; [lia|]. exists cow. unfold r_covers, r_end.
    split_and!; try done; lia. }
  pose proof (fun r Hr => find_none _ _ Ef r (proj1 (list_elem_of_In _ _) Hr)) as Hnc.
  fold (touched_by start stop). rewrite touched_sorted.
  pose proof (rewrite_touched_spec start stop [] l no_panic_refs) as Hrw. cbn [app length] in Hrw.
  rewrite Hrw. pose proof (omap_indices start stop l []) as Ho. cbn [app length] in Ho. rewrite Ho.
  pose proof (chain_replaced start stop 0 l ltac:(lia) He Hchain) as Hch'.
  destruct (all_replaced start stop 0 l ltac:(lia) He Hchain) as [Hsh Hst].
  destruct (merge_adjacent_spec 0 _ Hch') as [Hm [Hm1 Hm2]].
  set (t := filter _ l). assert (Ht : forall r, r ∈ t <-> r ∈ l /\ r_cow r = false /\
    r_start r < stop /\ start < r_end r).
  { intros r. subst t. rewrite list_elem_of_filter. unfold touched_by.
    rewrite andb_true_iff, negb_true_iff, overlaps_spec. tauto. }
  destruct (freeable_spec start stop t 0) as [Hr Hf]; [by apply filter_chain| |lia|done|].
  { intros r (? & ? & ? & ?)%Ht. done. }
  split_and!.
  - intros b Hb (r & Hr' & Hcow & Hcv). specialize (Hnc r Hr'). cbv beta in Hnc. rewrite Hcow in Hnc.
    cbn [andb] in Hnc. unfold r_covers in Hcv.
    rewrite (proj2 (overlaps_spec r)) in Hnc; [done|lia].
  - intros b m. by rewrite Hm1, Hsh.
  - intros b. by rewrite Hm2, Hst.
  - intros b. rewrite Hf. split; intros [Hb Hall]; (split; [done|]).
    + intros n (r & Hr' & Hcow & Hcv & _). apply (Hall r); [|done].
      apply Ht. unfold r_covers in Hcv. split_and!; try done; lia.
    + intros r (Hr' & Hcow & _)%Ht Hcv. by apply (Hall (r_refs r)); exists r.
  - by rewrite Z.min_l in Hr by lia.
  - done.
Qed.
End release.


(** ** The record format *)

(** A record the format can carry: the block number leaves the flag's bit
    free. *)
Definition r_encodable (r : Refcount) : Prop :=
  in_u 31 (r_start r) /\ in_u 32 (r_count r) /\ in_u 32 (r_refs r).

Definition r_bytes (r : Refcount) : bytes :=
  to_be_bytes 4 (raw_start r) ++ to_be_bytes 4 (r_count r) ++ to_be_bytes 4 (r_refs r).

Lemma length_r_bytes r : length (r_bytes r) = 12%nat.
Proof. unfold r_bytes. by rewrite !length_app, !length_to_be_bytes. Qed.

Lemma raw_start_spec r :
  in_u 31 (r_start r) -> raw_start r = (if r_cow r then 2 ^ 31 else 0) + r_start r.
Proof.
  intros [H0 H1]. unfold raw_start, COW_FLAG. destruct (r_cow r); [|lia].
  rewrite Z.lor_comm. change (2 ^ 31) with (1 * 2 ^ 31) at 1. rewrite lor_disjoint_add by lia. lia.
Qed.

Lemma raw_start_decode r :
  in_u 31 (r_start r) ->
  Z.land (raw_start r) (unot 32 COW_FLAG) = r_start r /\
  negb (Z.land (raw_start r) COW_FLAG =? 0) = r_cow r.
Proof.
  intros Hs. rewrite raw_start_spec by done. unfold COW_FLAG, unot, in_u in *.
  change (2 ^ 32 - 1 - 2 ^ 31) with (2 ^ 31 - 1). rewrite land_mask by lia.
  assert (forall z, Z.land z (2 ^ 31) = if Z.testbit z 31 then 2 ^ 31 else 0) as Hbit.
  { intros z. apply Z.bits_inj'. intros i Hi. rewrite Z.land_spec, Z.pow2_bits_eqb by lia.
    destruct (Z.eqb_spec 31 i) as [<-|]; [|destruct (Z.testbit z 31); rewrite ?Z.bits_0].
    - rewrite andb_true_r. destruct (Z.testbit z 31); [|by rewrite Z.bits_0].
      by rewrite Z.pow2_bits_true.
    - rewrite andb_false_r, Z.pow2_bits_false by lia. done.
    - apply andb_false_r. }
  rewrite Hbit. destruct (r_cow r).
  - split; [zdiv|]. rewrite (proj2 (Z.testbit_true (2 ^ 31 + r_start r) 31 ltac:(lia))); [done|zdiv].
  - split; [zdiv|]. rewrite (proj2 (Z.testbit_false (0 + r_start r) 31 ltac:(lia))); [done|zdiv].
Qed.

Lemma encode_Ok buf pos r :
  (pos + 12 <= length buf)%nat -> encode buf pos r = Ok (splice pos (r_bytes r) buf).
Proof.
  intros H. unfold encode.
  rewrite copy_at_Ok by (rewrite length_to_be_bytes; lia). cbn [mbind res_bind].
  rewrite copy_at_Ok by (rewrite length_splice; rewrite !length_to_be_bytes; lia).
  cbn [mbind res_bind]. rewrite splice_splice_adjacent by (rewrite !length_to_be_bytes; lia).
  rewrite copy_at_Ok by (rewrite length_splice; rewrite ?length_app, !length_to_be_bytes; lia).
  f_equal. rewrite splice_splice_adjacent by (rewrite ?length_app, !length_to_be_bytes; lia).
  unfold r_bytes. by rewrite app_assoc.
Qed.

Lemma decode_Ok buf pos r :
  r_encodable r -> (pos + 12 <= length buf)%nat -> slice pos 12 buf = r_bytes r ->
  decode buf pos = Ok r.
Proof.
  intros (Hs & Hc & Hr) Hl Hb. unfold decode. rewrite !be32_Ok by lia. cbn [mbind res_bind].
  assert (Hraw : 0 <= raw_start r < 256 ^ Z.of_nat 4).
  { rewrite raw_start_spec by done. change (256 ^ Z.of_nat 4) with (2 ^ 32).
    unfold in_u in Hs. destruct (r_cow r); lia. }
  assert (rd 4 pos buf = raw_start r) as ->.
  { unfold rd. rewrite <- (Nat.add_0_r pos), <- (slice_slice pos 12 0 4), Hb by lia.
    change (slice 0 4 (r_bytes r)) with (to_be_bytes 4 (raw_start r)).
    by apply from_to_be_bytes_small. }
  assert (rd 4 (pos + 4) buf = r_count r) as ->.
  { unfold rd. rewrite <- (slice_slice pos 12 4 4), Hb by lia.
    change (slice 4 4 (r_bytes r)) with (to_be_bytes 4 (r_count r)). by apply from_to_be_bytes_small. }
  assert (rd 4 (pos + 8) buf = r_refs r) as ->.
  { unfold rd. rewrite <- (slice_slice pos 12 8 4), Hb by lia.
    change (slice 8 4 (r_bytes r)) with (to_be_bytes 4 (r_refs r)). by apply from_to_be_bytes_small. }
  destruct (raw_start_decode r Hs) as [-> ->]. by destruct r.
Qed.

Definition refcount_keys (buf : bytes) (pos : nat) (recs : list Refcount) : res bytes :=
  r ← expect (head recs); encode_key buf pos r.

#[global] Instance refcount_codec : RecordCodec Refcount := {|
  rc_shape := shape;
  rc_encode := encode;
  rc_decode := decode;
  rc_keys := refcount_keys;
|}.

#[global] Instance refcount_codec_laws : RecordCodecLaws Refcount r_encodable.
Proof.
  unshelve esplit; [exact r_bytes|..]; cbn [rc_shape rc_encode rc_decode rc_keys refcount_codec
    shape record_len key_len keys_per_entry overlapping]; unfold RECORD, KEY.
  - apply length_r_bytes.
  - intros. by apply encode_Ok.
  - intros. by apply decode_Ok.
  - intros buf pos [|r rs] Hne Hl; [done|]. exists (to_be_bytes 4 (raw_start r)).
    split; [apply length_to_be_bytes|]. cbn [refcount_keys head expect mbind res_bind].
    apply copy_at_Ok. rewrite length_to_be_bytes. lia.
  - lia.
  - unfold encode. keeps_length.
  - unfold refcount_keys, encode_key. keeps_length.
Qed.

Section walk.
Context `{Crc : Crc32c} (sb : Superblock) (read_agblock : Z -> res bytes).
(** [refcount::walk] *)
Definition refcount_walk (agno root levels : Z) : res (list Refcount) :=
  AgBtree.walk sb shape agno read_agblock decode root levels.
End walk.

(** ** A tree of one block, edited in place *)

(** [group_write::btree]: where a v5 root keeps its count and its records. *)
Definition NUMRECS : nat := 6.
Definition V5_BODY : nat := 56.

Definition leaf_records (buf : bytes) (numrecs : Z) : res (list Refcount) :=
  let fit := ((length buf - V5_BODY) / RECORD)%nat in
  res_map (fun i => decode buf (V5_BODY + i * RECORD)%nat) (seq 0 (Nat.min (Z.to_nat numrecs) fit)).

Fixpoint rebuild_loop (out : bytes) (i : nat) (records : list Refcount) : res bytes :=
  match records with
  | [] => Ok out
  | r :: records => out ← encode out (V5_BODY + i * RECORD)%nat r; rebuild_loop out (S i) records
  end.
Definition rebuild_leaf (original : bytes) (records : list Refcount) : res bytes :=
  out ← copy_at NUMRECS (to_be_bytes 2 (wrap 16 (Z.of_nat (length records)))) original;
  rebuild_loop out 0 records.

Definition capacity (blocksize : Z) : nat := (usize_sub (Z.to_nat blocksize) V5_BODY / RECORD)%nat.

Lemma concat_r_bytes l :
  Forall (fun b => length b = 12%nat) (r_bytes <$> l).
Proof. apply Forall_fmap, Forall_forall. intros r _. apply length_r_bytes. Qed.

Lemma rebuild_loop_spec out i l :
  (V5_BODY + (i + length l) * 12 <= length out)%nat ->
  rebuild_loop out i l = Ok (splice (V5_BODY + i * 12) (concat (r_bytes <$> l)) out).
Proof.
  revert out i; induction l as [|r l IH]; intros out i Hf; cbn [rebuild_loop length] in *.
  - cbn [fmap list_fmap concat]. unfold splice. cbn [app length]. by rewrite Nat.add_0_r, take_drop.
  - unfold RECORD. rewrite encode_Ok by lia. cbn [mbind res_bind].
    rewrite IH by (rewrite length_splice; rewrite ?length_r_bytes; lia).
    f_equal. cbn [fmap list_fmap concat].
    pose proof (length_concat_uniform 12 _ (concat_r_bytes l)) as Hc. rewrite length_fmap in Hc.
    apply splice_splice_adjacent; rewrite ?length_r_bytes; lia.
Qed.

Lemma rebuild_leaf_spec original l :
  Forall r_encodable l -> (V5_BODY + length l * 12 <= length original)%nat ->
  Z.of_nat (length l) < 2 ^ 16 ->
  exists out, rebuild_leaf original l = Ok out /\ length out = length original /\
    rd 2 NUMRECS out = Z.of_nat (length l) /\
    leaf_records out (Z.of_nat (length l)) = Ok l /\
    drop (V5_BODY + length l * 12) out = drop (V5_BODY + length l * 12) original.
Proof.
  intros Hl Hf H16. unfold V5_BODY, NUMRECS in *.
  pose proof (length_concat_uniform 12 _ (concat_r_bytes l)) as Hc. rewrite length_fmap in Hc.
  unfold rebuild_leaf, NUMRECS. rewrite copy_at_Ok by (rewrite length_to_be_bytes; lia).
  cbn [mbind res_bind]. set (o1 := splice _ _ original).
  assert (Ho1 : length o1 = length original)
    by (subst o1; apply length_splice; rewrite length_to_be_bytes; lia).
  rewrite rebuild_loop_spec by (unfold V5_BODY; lia). eexists. split; [done|].
  unfold V5_BODY. cbn [Nat.mul]. rewrite Nat.add_0_r.
  assert (Hfit : (56 + length (concat (r_bytes <$> l)) <= length o1)%nat) by lia.
  split; [by rewrite length_splice|]. split_and!.
  - rewrite rd_splice_disjoint by (try done; lia). subst o1.
    rewrite wrap_small by (unfold in_u; lia). apply rd_splice_same; [lia|].
    change (256 ^ Z.of_nat 2) with (2 ^ 16). lia.
  - unfold leaf_records, V5_BODY, RECORD. rewrite length_splice, Nat2Z.id, Nat.min_l
      by (try done; apply Nat.div_le_lower_bound; lia).
    apply res_map_Ok, Forall2_same_length_lookup. split; [by rewrite length_seq|].
    intros i j r Hj Hr. apply lookup_seq in Hj as [-> Hi]. rewrite Nat.add_0_l.
    apply decode_Ok; [by eapply Forall_lookup_1|rewrite length_splice by done; lia|].
    rewrite slice_splice_within by lia.
    replace (56 + i * 12 - 56)%nat with (i * 12)%nat by lia.
    apply slice_concat; [apply concat_r_bytes|]. by rewrite list_lookup_fmap, Hr.
  - rewrite drop_splice_after by (try done; lia). subst o1.
    apply drop_splice_after; rewrite length_to_be_bytes; lia.
Qed.

(** The one-block form of the tree: rewriting a root to hold a list of
    records and reading it back under its new count gives the list, and
    leaves the bytes past the records alone. *)
Theorem refcount_leaf_roundtrip original l :
  Forall r_encodable l -> (V5_BODY + length l * RECORD <= length original)%nat ->
  Z.of_nat (length l) < 2 ^ 16 ->
  exists out, rebuild_leaf original l = Ok out /\ length out = length original /\
    rd 2 NUMRECS out = Z.of_nat (length l) /\
    leaf_records out (Z.of_nat (length l)) = Ok l /\
    drop (V5_BODY + length l * RECORD) out = drop (V5_BODY + length l * RECORD) original.
Proof. apply rebuild_leaf_spec. Qed.

(** ** The sharing the module's documentation measures *)

Definition two_files : list Refcount := [mkRef 24 16 2 false; mkRef 100 8 3 false].

Lemma two_files_typed : Forall r_typed two_files.
Proof. repeat constructor; cbn; lia. Qed.


Lemma refcount_leaf_roundtrip_witness :
  exists out, rebuild_leaf (replicate 512 Byte.x00) two_files = Ok out /\
    leaf_records out 2 = Ok two_files.
Proof.
  destruct (refcount_leaf_roundtrip (replicate 512 Byte.x00) two_files)
    as (out & H1 & _ & _ & H2 & _).
  - repeat constructor; cbn; lia.
  - rewrite length_replicate. apply Nat.leb_le. reflexivity.
  - reflexivity.
  - exists out. split; [exact H1|exact H2].
Defined.
