(* ===== verification/Rmap.v ===== *)
(** * The reverse-mapping records ([src/src/rmap.rs])

    A record says which owner a run of blocks belongs to and where in the
    owner it is.  The records stand for a relation from blocks to owners
    ([maps]); the theorems say what [insert], [remove] and [insert_shared] do
    to that relation, and that the highest key a node carries bounds every
    block below it. *)

From Stdlib Require Import ZArith Lia Strings.String Sorted.
From stdpp Require Import base list sorting strings sets.
From S2P Require Import Prelude Error Endian Crc32c Superblock Sample FreeSpace AgBtree.

Definition RECORD : nat := 24.
Definition OWN_FS : Z := -3.
Definition OWN_LOG : Z := -4.
Definition OWN_AG : Z := -5.
Definition OWN_INOBT : Z := -6.
Definition OWN_INODES : Z := -7.
Definition OWN_REFC : Z := -8.
Definition OWN_COW : Z := -9.
Definition OFF_ATTR_FORK : Z := 2 ^ 63.
Definition OFF_BMBT_BLOCK : Z := 2 ^ 62.
Definition OFF_UNWRITTEN : Z := 2 ^ 61.
Definition OFF_MASK : Z := 2 ^ 54 - 1.
Definition XFS_RMAP_CRC_MAGIC : Z := 0x524d4233.
Definition KEY : nat := 20.

Record Rmap := mkRmap {
  m_start : Z;
  m_count : Z;
  (** An inode number, or one of the reserved negative owners. *)
  m_owner : Z;
  m_offset : Z;
}.
#[global] Instance Rmap_eq_dec : EqDecision Rmap.
Proof. solve_decision. Defined.

Definition file_offset (r : Rmap) : Z := Z.land (m_offset r) OFF_MASK.
Definition flags (r : Rmap) : Z := Z.land (m_offset r) (unot 64 OFF_MASK).
Definition is_reserved_owner (r : Rmap) : bool := m_owner r <? 0.

Definition continues_into (r other : Rmap) : bool :=
  if negb (m_owner r =? m_owner other) || negb (flags r =? flags other) then false
  else match checked_add 32 (m_start r) (m_count r) with
  | Some n =>
      if n =? m_start other then
        is_reserved_owner r || (wadd 64 (file_offset r) (m_count r) =? file_offset other)
      else false
  | None => false
  end.

Definition shape : Shape := mkShape "rmapbt" None XFS_RMAP_CRC_MAGIC RECORD KEY true.

Definition decode (buf : bytes) (pos : nat) : res Rmap :=
  s ← be32 buf pos;
  c ← be32 buf (pos + 4);
  o ← be64 buf (pos + 8);
  f ← be64 buf (pos + 16);
  Ok (mkRmap s c (as_i64 o) f).

Definition encode (buf : bytes) (pos : nat) (r : Rmap) : res bytes :=
  buf ← copy_at pos (to_be_bytes 4 (m_start r)) buf;
  buf ← copy_at (pos + 4) (to_be_bytes 4 (m_count r)) buf;
  buf ← copy_at (pos + 8) (to_be_bytes 8 (i64_as_u64 (m_owner r))) buf;
  copy_at (pos + 16) (to_be_bytes 8 (m_offset r)) buf.

Definition encode_key (buf : bytes) (pos : nat) (r : Rmap) : res bytes :=
  buf ← copy_at pos (to_be_bytes 4 (m_start r)) buf;
  buf ← copy_at (pos + 4) (to_be_bytes 8 (i64_as_u64 (m_owner r))) buf;
  copy_at (pos + 12) (to_be_bytes 8 (m_offset r)) buf.

Definition high_key (r : Rmap) : Rmap :=
  let adjust := saturating_sub (m_count r) 1 in
  let offset :=
    if is_reserved_owner r || negb (Z.land (m_offset r) OFF_BMBT_BLOCK =? 0) then m_offset r
    else Z.lor (wadd 64 (Z.land (m_offset r) OFF_MASK) adjust) (flags r) in
  mkRmap (saturating_add 32 (m_start r) adjust) 0 (m_owner r) offset.

(** The order keys are compared in. *)
Definition triple_leb (a b : Z * Z * Z) : bool :=
  let '(a1, a2, a3) := a in
  let '(b1, b2, b3) := b in
  (a1 <? b1) || ((a1 =? b1) && ((a2 <? b2) || ((a2 =? b2) && (a3 <=? b3)))).
Definition high_order (k : Rmap) : Z * Z * Z :=
  (m_start k, i64_as_u64 (m_owner k), Z.land (m_offset k) OFF_MASK).

(** [Iterator::max_by_key]: the last of the greatest. *)
Fixpoint max_by {A} (leb : A -> A -> bool) (best : A) (l : list A) : A :=
  match l with
  | [] => best
  | x :: l => max_by leb (if leb best x then x else best) l
  end.

Definition write_keys (buf : bytes) (pos : nat) (records : list Rmap) : res bytes :=
  match records with
  | [] => Ok buf
  | first :: rest =>
      buf ← encode_key buf pos first;
      let high := max_by (fun a b => triple_leb (high_order a) (high_order b))
                    (high_key first) (high_key <$> rest) in
      encode_key buf (pos + KEY) high
  end.

Section walk.
Context `{Crc : Crc32c} (sb : Superblock) (read_agblock : Z -> res bytes).
(** [rmap::walk] *)
Definition rmap_walk (agno root levels : Z) : res (list Rmap) :=
  AgBtree.walk sb shape agno read_agblock decode root levels.
End walk.

(** [group_write::btree] *)
Definition NUMRECS : nat := 6.
Definition V5_BODY : nat := 56.

Definition leaf_records (buf : bytes) (numrecs : Z) : res (list Rmap) :=
  let fit := ((length buf - V5_BODY) / RECORD)%nat in
  res_map (fun i => decode buf (V5_BODY + i * RECORD)%nat) (seq 0 (Nat.min (Z.to_nat numrecs) fit)).

Fixpoint rebuild_loop (out : bytes) (i : nat) (records : list Rmap) : res bytes :=
  match records with
  | [] => Ok out
  | r :: records => out ← encode out (V5_BODY + i * RECORD)%nat r; rebuild_loop out (S i) records
  end.
Definition rebuild_leaf (original : bytes) (records : list Rmap) : res bytes :=
  out ← copy_at NUMRECS (to_be_bytes 2 (wrap 16 (Z.of_nat (length records)))) original;
  rebuild_loop out 0 records.

Definition capacity (blocksize : Z) : nat := (usize_sub (Z.to_nat blocksize) V5_BODY / RECORD)%nat.

(** ** Editing the records *)

(** One past the last block, in 64 bits. *)
Definition m_end (r : Rmap) : Z := m_start r + m_count r.

(** [Iterator::position] *)
Fixpoint position {A} (p : A -> bool) (l : list A) : option nat :=
  match l with
  | [] => None
  | x :: l => if p x then Some O else S <$> position p l
  end.

Definition overflow_error : Error :=
  unsupported "merging reverse-mapping records would overflow the block count" [].

Definition set_count (r : Rmap) (c : Z) : Rmap := mkRmap (m_start r) c (m_owner r) (m_offset r).

Definition insert (records : list Rmap) (rec : Rmap) : list Rmap * res unit :=
  let pos := default (length records) (position (fun r => m_start rec <? m_start r) records) in
  let before := get_before records pos in
  let after := records !! pos in
  if is_some_and before (fun b => m_start rec <? m_end b) then
    let b := default rec before in
    (records, Err (unsupported "an extent at group block {} overlaps the reverse-mapping record for {}..{} owned by {}"
       [AZ (m_start rec); AZ (m_start b); AZ (m_end b); AZ (m_owner b)]))
  else
  let joins_before := is_some_and before (fun b => continues_into b rec) in
  let joins_after := is_some_and after (fun a => continues_into rec a) in
  match joins_before, before, joins_after, after with
  | true, Some b, true, Some a =>
      let records := delete pos records in
      match checked_add 32 (m_count b) (m_count rec) ≫= (fun n => checked_add 32 n (m_count a)) with
      | Some n => (<[(pos - 1)%nat := set_count b n]> records, Ok tt)
      | None => (records, Err (unsupported "merging three reverse-mapping records would overflow the block count" []))
      end
  | true, Some b, _, _ =>
      match checked_add 32 (m_count b) (m_count rec) with
      | Some n => (<[(pos - 1)%nat := set_count b n]> records, Ok tt)
      | None => (records, Err overflow_error)
      end
  | _, _, true, Some a =>
      match checked_add 32 (m_count a) (m_count rec) with
      | Some n => (<[pos := mkRmap (m_start rec) n (m_owner a) (m_offset rec)]> records, Ok tt)
      | None => (records, Err overflow_error)
      end
  | _, _, _, _ => (vec_insert pos rec records, Ok tt)
  end.

Definition holds (rec r : Rmap) : bool :=
  (m_owner r =? m_owner rec) && (flags r =? flags rec) &&
  (m_start r <=? m_start rec) && (m_end rec <=? m_end r).

(** A block of the owner's own map, or of a reserved owner: no file offset. *)
Definition metadata (r : Rmap) : bool :=
  is_reserved_owner r || negb (Z.land (m_offset r) OFF_BMBT_BLOCK =? 0).

Definition lines_up (rec r : Rmap) : bool :=
  metadata r ||
  (wadd 64 (file_offset r) (wsub 64 (m_start rec) (m_start r)) =? file_offset rec).

Definition key_order (r : Rmap) : Z * Z * Z :=
  (m_start r, i64_as_u64 (m_owner r), Z.land (m_offset r) (unot 64 OFF_UNWRITTEN)).
Definition key_leb (a b : Rmap) : bool := triple_leb (key_order a) (key_order b).

(** What is left of a record around the hole [start, end_). *)
Definition around (start end_ : Z) (whole : Rmap) : list Rmap :=
  (if m_start whole <? start
   then [set_count whole (wrap 32 (start - m_start whole))] else []) ++
  (if end_ <? m_end whole then
     let skip := end_ - m_start whole in
     let offset := if metadata whole then m_offset whole
                   else Z.lor (wadd 64 (Z.land (m_offset whole) OFF_MASK) skip) (flags whole) in
     [mkRmap (wrap 32 end_) (wrap 32 (m_end whole - end_)) (m_owner whole) offset]
   else []).

Definition remove (records : list Rmap) (rec : Rmap) : list Rmap * res unit :=
  let found :=
    match position (fun r => holds rec r && lines_up rec r) records with
    | Some i => Some i
    | None => position (holds rec) records
    end in
  match found with
  | None =>
      (records, Err (unsupported "freeing {} blocks at group block {} owned by {} but no reverse-mapping record of that owner holds them; the tree and the inode disagree about what this extent is"
         [AZ (m_count rec); AZ (m_start rec); AZ (m_owner rec)]))
  | Some i =>
      match records !! i with
      | None => (records, Panic)
      | Some whole =>
          (sort_by key_leb
             (take i records ++ around (m_start rec) (m_end rec) whole ++ drop (S i) records),
           Ok tt)
      end
  end.

Definition clashes (rec r : Rmap) : bool :=
  (m_start r <? m_end rec) && (m_start rec <? m_end r) &&
  (metadata r || metadata rec ||
   ((m_owner r =? m_owner rec) && (flags r =? flags rec) &&
    (file_offset r - m_start r =? file_offset rec - m_start rec))).

Definition insert_shared (records : list Rmap) (rec : Rmap) : list Rmap * res unit :=
  match find (clashes rec) records with
  | Some clash =>
      (records, Err (unsupported "an extent at group block {} overlaps the reverse-mapping record for {}..{}              owned by {}, which no shared mapping can"
         [AZ (m_start rec); AZ (m_start clash); AZ (m_end clash); AZ (m_owner clash)]))
  | None =>
      let '(records, joined) :=
        match position (fun r => continues_into r rec) records with
        | None => (records, Some rec)
        | Some i =>
            match records !! i with
            | None => (records, None)
            | Some before =>
                (delete i records, set_count before <$> checked_add 32 (m_count before) (m_count rec))
            end
        end in
      match joined with
      | None => (records, Err overflow_error)
      | Some rec =>
          let '(records, joined) :=
            match position (fun r => continues_into rec r) records with
            | None => (records, Some rec)
            | Some i =>
                match records !! i with
                | None => (records, None)
                | Some after =>
                    (delete i records, set_count rec <$> checked_add 32 (m_count rec) (m_count after))
                end
            end in
          match joined with
          | None => (records, Err overflow_error)
          | Some rec =>
              (vec_insert (partition_point (fun r => negb (key_leb rec r)) records) rec records, Ok tt)
          end
      end
  end.

(** ** What the records stand for *)

Definition m_covers (r : Rmap) (b : Z) : Prop := m_start r <= b < m_end r.
(** Where in its owner a block is; nothing to say for the metadata owners. *)
Definition at_offset (r : Rmap) (b fo : Z) : Prop :=
  metadata r = true \/ file_offset r + (b - m_start r) = fo.
(** Block [b] belongs to owner [o], with flags [fl], at offset [fo]. *)
Definition maps (l : list Rmap) (b o fl fo : Z) : Prop :=
  exists r, r ∈ l /\ m_covers r b /\ m_owner r = o /\ flags r = fl /\ at_offset r b fo.

Record m_typed (r : Rmap) : Prop := {
  mt_start : in_u 32 (m_start r);
  mt_count : in_u 32 (m_count r);
  mt_owner : - 2 ^ 63 <= m_owner r < 2 ^ 63;
  mt_offset : in_u 64 (m_offset r);
  mt_span : metadata r = false -> file_offset r + m_count r < 2 ^ 54;
}.

Lemma maps_cons r l b o fl fo : maps (r :: l) b o fl fo <-> maps [r] b o fl fo \/ maps l b o fl fo.
Proof. unfold maps. set_solver. Qed.
Lemma maps_app l1 l2 b o fl fo :
  maps (l1 ++ l2) b o fl fo <-> maps l1 b o fl fo \/ maps l2 b o fl fo.
Proof. unfold maps. set_solver. Qed.
Lemma maps_nil b o fl fo : maps [] b o fl fo <-> False.
Proof. unfold maps. set_solver. Qed.
Lemma maps_one r b o fl fo :
  maps [r] b o fl fo <-> m_covers r b /\ m_owner r = o /\ flags r = fl /\ at_offset r b fo.
Proof. unfold maps. set_solver. Qed.

(** ** The offset word: 54 bits of offset under the flags *)

Lemma offset_split z :
  in_u 64 z ->
  Z.land z OFF_MASK = z mod 2 ^ 54 /\ Z.land z (unot 64 OFF_MASK) = z / 2 ^ 54 * 2 ^ 54.
Proof.
  intros [H0 H1]. split; [by apply land_mask|].
  unfold unot, OFF_MASK. change (2 ^ 64 - 1 - (2 ^ 54 - 1)) with (Z.shiftl (2 ^ 10 - 1) 54).
  rewrite <- Z.shiftl_mul_pow2, <- Z.shiftr_div_pow2 by lia.
  apply Z.bits_inj'. intros i Hi. rewrite Z.land_spec.
  destruct (decide (i < 54)).
  - rewrite !Z.shiftl_spec_low by lia. apply andb_false_r.
  - rewrite !Z.shiftl_spec, Z.shiftr_spec by lia. replace (i - 54 + 54) with i by lia.
    destruct (decide (i < 64)).
    + change (2 ^ 10 - 1) with (Z.ones 10). rewrite Z.ones_spec_low by lia. apply andb_true_r.
    + replace (Z.testbit z i) with false; [done|]. symmetry. apply Z.testbit_false; [lia|].
      rewrite Z.div_small; [done|]. split; [done|]. eapply Z.lt_le_trans; [done|].
      apply Z.pow_le_mono_r; lia.
Qed.

Lemma file_offset_eq r : m_typed r -> file_offset r = m_offset r mod 2 ^ 54.
Proof. intros H. apply offset_split, H. Qed.
Lemma flags_eq r : m_typed r -> flags r = m_offset r / 2 ^ 54 * 2 ^ 54.
Proof. intros H. apply offset_split, H. Qed.

(** Moving an offset on without touching the flags. *)
Lemma offset_advance r skip :
  m_typed r -> metadata r = false -> 0 <= skip <= m_count r ->
  let off := Z.lor (wadd 64 (Z.land (m_offset r) OFF_MASK) skip) (flags r) in
  in_u 64 off /\ Z.land off OFF_MASK = file_offset r + skip /\
  Z.land off (unot 64 OFF_MASK) = flags r.
Proof.
  intros Ht Hmd Hs off. pose proof (file_offset_eq r Ht) as Hf. pose proof (flags_eq r Ht) as Hg.
  destruct Ht as [_ _ _ [Ho0 Ho1] Hsp]. specialize (Hsp Hmd). change (Z.land (m_offset r) OFF_MASK) with (file_offset r) in off.
  pose proof (Z.mod_pos_bound (m_offset r) (2 ^ 54) ltac:(lia)).
  assert (off = m_offset r / 2 ^ 54 * 2 ^ 54 + (file_offset r + skip)) as Hoff.
  { unfold off. rewrite wadd_small, Z.lor_comm, Hg by lia. apply lor_disjoint_add; lia. }
  assert (0 <= m_offset r / 2 ^ 54 < 2 ^ 10).
  { split; [apply Z.div_pos; lia|]. apply Z.div_lt_upper_bound; lia. }
  assert (Hu : in_u 64 off) by (unfold in_u; lia).
  split; [done|]. destruct (offset_split off Hu) as [-> ->]. rewrite Hg, Hoff.
  rewrite Z.add_comm, Z.mod_add, Z.div_add, (Z.mod_small (file_offset r + skip)) by lia.
  rewrite (Z.div_small (file_offset r + skip)) by lia. lia.
Qed.

Lemma metadata_flags r : metadata r = (m_owner r <? 0) || negb (Z.land (flags r) OFF_BMBT_BLOCK =? 0).
Proof.
  unfold metadata, is_reserved_owner, flags. rewrite <- Z.land_assoc.
  change (Z.land (unot 64 OFF_MASK) OFF_BMBT_BLOCK) with OFF_BMBT_BLOCK. done.
Qed.

Lemma metadata_same r r' :
  m_owner r = m_owner r' -> flags r = flags r' -> metadata r = metadata r'.
Proof. intros Ho Hf. by rewrite !metadata_flags, Ho, Hf. Qed.

(** A record that continues another: the two are one run of one owner. *)
Lemma continues_into_spec r r' :
  m_typed r -> continues_into r r' = true ->
  m_owner r = m_owner r' /\ flags r = flags r' /\ m_end r = m_start r' /\
  (is_reserved_owner r = true \/ file_offset r + m_count r = file_offset r').
Proof.
  intros [Hs Hc _ Ho Hsp]. unfold continues_into, checked_add, m_end, in_u in *.
  pose proof (land_range_r (m_offset r) OFF_MASK ltac:(done)) as Hfo.
  fold (file_offset r) in Hfo. unfold OFF_MASK in Hfo. rewrite wadd_small by lia.
  destruct (Z.eqb_spec (m_owner r) (m_owner r')), (Z.eqb_spec (flags r) (flags r')); cbn [negb orb]; try done.
  destruct (_ <? _) eqn:E; [|done]. destruct (Z.eqb_spec (m_start r + m_count r) (m_start r')); [|done].
  destruct (is_reserved_owner r); cbn [orb]; [naive_solver|].
  intros ?%Z.eqb_eq. naive_solver.
Qed.

(** Joining a record to the one it continues keeps what the two map. *)
Lemma joined_maps r r' b o fl fo :
  m_typed r -> 0 <= m_count r' -> continues_into r r' = true ->
  maps [set_count r (m_count r + m_count r')] b o fl fo <->
  maps [r] b o fl fo \/ maps [r'] b o fl fo.
Proof.
  intros Ht Hc Hj. destruct (continues_into_spec r r' Ht Hj) as (Ho & Hf & He & Hoff).
  pose proof (metadata_same r r' Ho Hf) as Hm. pose proof (mt_count _ Ht) as Hcr. unfold in_u in Hcr.
  assert (Hrm : is_reserved_owner r = true -> metadata r = true)
    by (unfold metadata; by intros ->).
  rewrite !maps_one. unfold at_offset. rewrite <- Hm, <- Ho, <- Hf.
  change (metadata (set_count r (m_count r + m_count r'))) with (metadata r).
  change (file_offset (set_count r (m_count r + m_count r'))) with (file_offset r).
  change (flags (set_count r (m_count r + m_count r'))) with (flags r).
  unfold m_covers, m_end, set_count in *. cbn [m_start m_count m_owner].
  destruct (metadata r) eqn:Em; [naive_solver lia|].
  destruct Hoff as [?%Hrm|Hoff]; [done|]. split.
  - intros (Hb & <- & <- & [|Hfo]); [done|].
    destruct (decide (b < m_start r + m_count r)); [left|right]; split_and!; try done; try lia; right; lia.
  - intros [(Hb & <- & <- & [|Hfo])|(Hb & <- & <- & [|Hfo])]; try done; split_and!; try done; try lia; right; lia.
Qed.

(** ** Inserting a record *)

(** The run a record covers, so that the order of the records is the order of
    a free-space list. *)
Definition m_ext (r : Rmap) : FreeExtent := mkFree (m_start r) (m_count r).
Definition m_runs (lo hi : Z) (l : list Rmap) : Prop := runs 0 lo hi (m_ext <$> l).
(** Block [b] has an owner. *)
Definition owned (l : list Rmap) (b : Z) : Prop := exists r, r ∈ l /\ m_covers r b.

Lemma m_runs_app lo hi l1 l2 :
  m_runs lo hi (l1 ++ l2) <-> exists mid, m_runs lo mid l1 /\ m_runs mid hi l2.
Proof.
  unfold m_runs. rewrite fmap_app, runs_app. by setoid_rewrite Z.add_0_r.
Qed.
Lemma m_runs_cons lo hi r l :
  m_runs lo hi (r :: l) <-> lo <= m_start r /\ 0 < m_count r /\ m_runs (m_end r) hi l.
Proof. unfold m_runs. cbn [fmap list_fmap runs]. unfold fe_end. cbn. by rewrite Z.add_0_r. Qed.
Lemma m_runs_nil lo hi : m_runs lo hi [] <-> lo <= hi.
Proof. unfold m_runs. cbn. lia. Qed.
Lemma m_runs_bound lo hi l : m_runs lo hi l -> lo <= hi.
Proof. intros H%(runs_bound 0 ltac:(lia)). lia. Qed.
Lemma m_runs_elem lo hi l r :
  m_runs lo hi l -> r ∈ l -> lo <= m_start r /\ 0 < m_count r /\ m_end r <= hi.
Proof.
  intros H Hr. apply (runs_elem 0 ltac:(lia) lo hi _ (m_ext r) H). by apply list_elem_of_fmap_2.
Qed.
Lemma m_runs_lo lo lo' hi l : lo <= lo' -> m_runs lo' hi l -> m_runs lo hi l.
Proof. apply runs_lo. Qed.

Lemma position_spec {A} (p : A -> bool) l :
  match position p l with
  | None => Forall (fun x => p x = false) l
  | Some i => exists l1 x l2, l = l1 ++ x :: l2 /\ i = length l1 /\ p x = true /\
      Forall (fun x => p x = false) l1
  end.
Proof.
  induction l as [|x l IH]; cbn [position]; [constructor|].
  destruct (p x) eqn:E; [by exists [], x, l|].
  destruct (position p l) as [i|]; cbn; [|by constructor].
  destruct IH as (l1 & y & l2 & -> & -> & ? & ?). exists (x :: l1), y, l2.
  split_and!; try done. by constructor.
Qed.

Lemma set_count_typed r n :
  m_typed r -> in_u 32 n -> (metadata r = false -> file_offset r + n < 2 ^ 54) ->
  m_typed (set_count r n).
Proof. by intros [Hs Hc Ho Hf Hsp] Hn Hspan; split. Qed.

(** What inserting a record [rec] between two neighbours makes of them. *)
Inductive joined (rec : Rmap) : list Rmap -> list Rmap -> Prop :=
  | joined_none pre post : joined rec (pre ++ post) (pre ++ rec :: post)
  | joined_before pre p post :
      continues_into p rec = true ->
      joined rec (pre ++ p :: post) (pre ++ set_count p (m_count p + m_count rec) :: post)
  | joined_after pre a post :
      continues_into rec a = true ->
      joined rec (pre ++ a :: post)
        (pre ++ mkRmap (m_start rec) (m_count a + m_count rec) (m_owner a) (m_offset rec) :: post)
  | joined_both pre p a post :
      continues_into p rec = true -> continues_into rec a = true ->
      joined rec (pre ++ p :: a :: post)
        (pre ++ set_count p (m_count p + m_count rec + m_count a) :: post).

Section insert.
Context (lo hi : Z) (Hlo : 0 <= lo) (Hhi : hi < 2 ^ 32) (rec : Rmap) (Hrec : m_typed rec).
Context (Hpos : 0 < m_count rec) (Hrl : lo <= m_start rec) (Hrh : m_end rec <= hi).

Lemma insert_position l :
  m_runs lo hi l ->
  exists l1 l2, l = l1 ++ l2 /\
    default (length l) (position (fun r => m_start rec <? m_start r) l) = length l1 /\
    Forall (fun r => m_start r <= m_start rec) l1 /\
    Forall (fun r => m_start rec < m_start r) l2.
Proof.
  intros H. pose proof (position_spec (fun r => m_start rec <? m_start r) l) as Hp.
  destruct (position _ l) as [i|]; cbn [default].
  - destruct Hp as (l1 & x & l2 & -> & -> & Hx & H1). exists l1, (x :: l2). bool_prop.
    split_and!; try done; [eapply Forall_impl; [done|]; cbn; intros; bool_prop; lia|].
    apply m_runs_app in H as (m & _ & H). apply m_runs_cons in H as (? & ? & H).
    constructor; [lia|]. apply Forall_forall. intros r Hr.
    apply (m_runs_elem _ _ _ _ H) in Hr. unfold m_end in *. lia.
  - exists l, []. rewrite app_nil_r. split_and!; try done.
    eapply Forall_impl; [done|]. cbn. intros. bool_prop. lia.
Qed.

(** The two outcomes that leave the record before alone. *)
Lemma insert_no_before l1 l2 :
  m_runs lo hi (l1 ++ l2) ->
  (forall p, list.last l1 = Some p -> m_end p <= m_start rec) ->
  (forall a, head l2 = Some a -> m_end rec <= m_start a) ->
  exists l',
    (match is_some_and (head l2) (fun a => continues_into rec a), head l2 with
     | true, Some a =>
         match checked_add 32 (m_count a) (m_count rec) with
         | Some n => (<[length l1 := mkRmap (m_start rec) n (m_owner a) (m_offset rec)]> (l1 ++ l2), Ok tt)
         | None => (l1 ++ l2, Err overflow_error)
         end
     | _, _ => (vec_insert (length l1) rec (l1 ++ l2), Ok tt)
     end) = (l', Ok tt) /\ joined rec (l1 ++ l2) l' /\ m_runs lo hi l'.
Proof.
  intros H Hb Ha. assert (Hm : m_runs lo (m_start rec) l1).
  { apply m_runs_app in H as (m & H1 & _). destruct (list.last l1) as [p|] eqn:El.
    - apply last_Some in El as [l0 ->]. specialize (Hb p eq_refl).
      rewrite m_runs_app in H1 |- *. destruct H1 as (m' & ? & H1). exists m'. split; [done|].
      rewrite m_runs_cons in H1 |- *. destruct H1 as (? & ? & ?). rewrite m_runs_nil. tauto.
    - apply last_None in El as ->. by rewrite m_runs_nil. }
  assert (Hp : m_runs (m_end rec) hi l2).
  { apply m_runs_app in H as (m & _ & H2). destruct l2 as [|a l2]; [by rewrite m_runs_nil|].
    rewrite m_runs_cons in H2 |- *. specialize (Ha a eq_refl). tauto. }
  destruct l2 as [|a l2]; cbn [head is_some_and].
  - eexists. split; [done|]. rewrite vec_insert_middle. split; [by constructor|].
    rewrite m_runs_app. exists (m_start rec). rewrite m_runs_cons. split_and!; try done.
  - destruct (continues_into rec a) eqn:Ea.
    + destruct (continues_into_spec rec a Hrec Ea) as (_ & _ & He & _).
      apply m_runs_cons in Hp as (? & ? & Hp).
      pose proof (m_runs_bound _ _ _ Hp). unfold m_end, checked_add in *.
      rewrite (proj2 (Z.ltb_lt _ _)) by lia.
      eexists. split; [done|]. rewrite insert_middle. split; [by constructor|].
      rewrite m_runs_app. exists (m_start rec). rewrite m_runs_cons. unfold m_end in *.
      cbn [m_start m_count]. split_and!; try done; try lia. eapply m_runs_lo; [|exact Hp]. lia.
    + eexists. split; [done|]. rewrite vec_insert_middle. split; [by constructor|].
      rewrite m_runs_app. exists (m_start rec). rewrite m_runs_cons. split_and!; try done.
Qed.

(** A record that overlaps nothing is stored, joined to what it continues. *)
Lemma insert_between l1 l2 :
  Forall m_typed (l1 ++ l2) -> m_runs lo hi (l1 ++ l2) ->
  default (length (l1 ++ l2)) (position (fun r => m_start rec <? m_start r) (l1 ++ l2)) = length l1 ->
  (forall p, list.last l1 = Some p -> m_end p <= m_start rec) ->
  (forall a, head l2 = Some a -> m_end rec <= m_start a) ->
  exists l', insert (l1 ++ l2) rec = (l', Ok tt) /\ joined rec (l1 ++ l2) l' /\ m_runs lo hi l'.
Proof.
  intros Ht H Hp Hb Ha. pose proof Hb as Hb'. unfold insert. rewrite Hp, get_before_app, lookup_app_head.
  assert (Hadd : forall x y, 0 <= x -> 0 <= y -> x + y <= hi -> checked_add 32 x y = Some (x + y)).
  { intros x y ? ? ?. unfold checked_add. by rewrite (proj2 (Z.ltb_lt _ _)) by lia. }
  pose proof (fun r => m_runs_elem lo hi _ r H) as Hel. unfold m_end in *.
  destruct (list.last l1) as [p|] eqn:Hl; cbn [is_some_and].
  - destruct (last_Some l1 p) as [HL _]. destruct (HL Hl) as [l0 ->]. clear HL.
    specialize (Hb p eq_refl). rewrite (proj2 (Z.ltb_ge _ _)) by (unfold m_end; lia).
    destruct (Hel p) as (? & ? & ?); [set_solver|].
    assert (Htp : m_typed p) by (rewrite Forall_forall in Ht; apply Ht; set_solver).
    destruct (continues_into p rec) eqn:Ep.
    + destruct l2 as [|a l2]; cbn [head is_some_and].
      * rewrite Hadd by lia. eexists. split; [done|].
        rewrite !app_nil_r, length_app, Nat.add_sub, insert_middle in *. split; [by constructor|].
        destruct (continues_into_spec p rec Htp Ep) as (_ & _ & Hpe & _).
        rewrite m_runs_app in H |- *. destruct H as (m & ? & Hq). exists m. split; [done|].
        rewrite m_runs_cons in Hq |- *. unfold m_end in *. cbn [set_count m_start m_count].
        rewrite m_runs_nil. split_and!; try done; lia.
      * specialize (Ha a eq_refl). destruct (Hel a) as (? & ? & ?); [set_solver|].
        destruct (continues_into_spec p rec Htp Ep) as (_ & _ & Hpe & _).
        rewrite <- app_assoc in *. cbn [app] in *. rewrite length_app, Nat.add_sub. cbn [length].
        rewrite m_runs_app in H. destruct H as (m & Hm0 & Hq). rewrite !m_runs_cons in Hq.
        destruct Hq as (? & ? & ? & ? & Hq). unfold m_end in *.
        assert (Hres : forall n, 0 < n -> m_start p + n <= m_start a + m_count a ->
          m_runs lo hi (l0 ++ set_count p n :: l2)).
        { intros n Hn Hle. rewrite m_runs_app. exists m. rewrite m_runs_cons. unfold m_end.
          cbn [set_count m_start m_count]. split_and!; try done. by eapply m_runs_lo. }
        destruct (continues_into rec a) eqn:Ea.
        -- rewrite Hadd by lia. cbn [mbind option_bind]. rewrite Hadd by lia.
           eexists. split; [done|].
           rewrite (cons_middle p l0), app_assoc, delete_middle' by by rewrite length_app.
           rewrite <- !app_assoc. cbn [app]. rewrite insert_middle.
           destruct (continues_into_spec rec a Hrec Ea) as (_ & _ & Hre & _). unfold m_end in *.
           split; [by constructor|]. apply Hres; lia.
        -- rewrite Hadd by lia. eexists. split; [done|]. rewrite insert_middle.
           split; [by constructor|]. rewrite m_runs_app. exists m. rewrite !m_runs_cons. unfold m_end.
           cbn [set_count m_start m_count]. split_and!; try done; lia.
    + rewrite <- Hl in Hb'. destruct (insert_no_before (l0 ++ [p]) l2 H Hb' Ha) as (l' & E & Hj).
      exists l'. split; [|done]. rewrite <- E. destruct l2 as [|a l2]; cbn [head is_some_and]; [done|].
      by destruct (continues_into rec a).
  - rewrite <- Hl in Hb'. apply last_None in Hl as ->.
    destruct (insert_no_before [] l2 H Hb' Ha) as (l' & E & Hj).
    exists l'. split; [|done]. rewrite <- E. destruct l2 as [|a l2]; cbn [head is_some_and]; [done|].
    by destruct (continues_into rec a).
Qed.

(** Continuing is transitive through the record between. *)
Lemma continues_trans p a :
  m_typed p -> continues_into p rec = true -> continues_into rec a = true ->
  m_start a < 2 ^ 32 ->
  continues_into (set_count p (m_count p + m_count rec)) a = true.
Proof.
  intros Hp Hpr Hra Hsa.
  destruct (continues_into_spec p rec Hp Hpr) as (O1 & F1 & E1 & X1).
  destruct (continues_into_spec rec a Hrec Hra) as (O2 & F2 & E2 & X2).
  assert (is_reserved_owner p = is_reserved_owner rec) as Hres
    by (unfold is_reserved_owner; by rewrite O1).
  pose proof (mt_count _ Hp) as Hcp. pose proof (mt_count _ Hrec) as Hcr. unfold in_u in *.
  pose proof (land_range_r (m_offset p) OFF_MASK ltac:(done)) as Hfo.
  fold (file_offset p) in Hfo. unfold OFF_MASK in Hfo. unfold m_end in *.
  unfold continues_into, checked_add.
  change (flags (set_count p (m_count p + m_count rec))) with (flags p).
  change (file_offset (set_count p (m_count p + m_count rec))) with (file_offset p).
  change (is_reserved_owner (set_count p (m_count p + m_count rec))) with (is_reserved_owner p).
  cbn [set_count m_start m_count m_owner]. rewrite O1, O2, F1, F2, !Z.eqb_refl. cbn [negb orb].
  rewrite (proj2 (Z.ltb_lt _ _)), (proj2 (Z.eqb_eq _ (m_start a))) by lia.
  destruct (is_reserved_owner p) eqn:Er; [done|]. rewrite <- Hres in X2.
  destruct X1 as [|X1]; [done|]. destruct X2 as [|X2]; [done|]. cbn [orb].
  rewrite wadd_small by lia. apply Z.eqb_eq. lia.
Qed.

Lemma joined_span r r' :
  m_typed r -> m_typed r' -> continues_into r r' = true -> metadata r = false ->
  file_offset r + (m_count r + m_count r') < 2 ^ 54.
Proof.
  intros Ht Ht' Hj Hm. destruct (continues_into_spec r r' Ht Hj) as (Ho & Hf & _ & Hx).
  destruct Hx as [Hx|Hx]; [unfold metadata in Hm; by rewrite Hx in Hm|].
  pose proof (mt_span _ Ht') as Hsp. rewrite <- (metadata_same r r' Ho Hf) in Hsp.
  specialize (Hsp Hm). lia.
Qed.

Lemma joined_spec l l' :
  Forall m_typed l -> m_runs lo hi l' -> joined rec l l' ->
  Forall m_typed l' /\
  (forall b o fl fo, maps l' b o fl fo <-> maps l b o fl fo \/ maps [rec] b o fl fo).
Proof.
  intros Ht H Hj.
  assert (Hnew : forall r n, set_count r n ∈ l' -> m_typed r ->
    (metadata r = false -> file_offset r + n < 2 ^ 54) -> m_typed (set_count r n)).
  { intros r n Hin Hr Hsp. apply set_count_typed; [done| |done].
    apply (m_runs_elem _ _ _ _ H) in Hin. unfold m_end, in_u in *. cbn in Hin.
    pose proof (mt_start _ Hr) as Hs. unfold in_u in Hs. lia. }
  destruct Hj as [pre post|pre p post Hp|pre a post Ha|pre p a post Hp Ha];
    rewrite !Forall_app, ?Forall_cons in *.
  - split; [tauto|]. intros. rewrite !maps_app, (maps_cons rec). tauto.
  - destruct Ht as (? & Htp & ?). split.
    + split_and!; try done. apply Hnew; [set_solver|done|]. by apply joined_span.
    + intros. rewrite !maps_app, (maps_cons (set_count _ _)), (maps_cons p), joined_maps; try done.
      * tauto.
      * apply Hrec.
  - destruct Ht as (? & Hta & ?).
    destruct (continues_into_spec rec a Hrec Ha) as (Ho & _).
    assert (mkRmap (m_start rec) (m_count a + m_count rec) (m_owner a) (m_offset rec) =
      set_count rec (m_count rec + m_count a)) as Heq
      by (unfold set_count; rewrite Ho; f_equal; lia).
    rewrite Heq in *. split.
    + split_and!; try done. apply Hnew; [set_solver|done|]. by apply joined_span.
    + intros. rewrite !maps_app, (maps_cons (set_count _ _)), (maps_cons a), joined_maps; try done.
      * tauto.
      * apply Hta.
  - destruct Ht as (? & Htp & Hta & ?).
    set (p1 := set_count p (m_count p + m_count rec)).
    assert (continues_into p1 a = true) as Hpa
      by (apply continues_trans; [done..|apply Hta]).
    assert (m_typed p1) as Htp1.
    { apply set_count_typed; [done| |by apply joined_span].
      destruct (m_runs_elem _ _ _ (set_count p (m_count p + m_count rec + m_count a)) H) as (? & ? & ?);
        [set_solver|]. unfold m_end, in_u in *. cbn in *.
      pose proof (mt_start _ Htp). pose proof (mt_count _ Htp). pose proof (mt_count _ Hta).
      unfold in_u in *. lia. }
    change (set_count p (m_count p + m_count rec + m_count a)) with
      (set_count p1 (m_count p1 + m_count a)) in *. split.
    + split_and!; try done. apply Hnew; [set_solver|done|]. by apply joined_span.
    + intros. rewrite !maps_app, (maps_cons (set_count _ _)), (maps_cons p), (maps_cons a).
      rewrite (joined_maps p1 a) by (try done; apply Hta).
      pose proof (joined_maps p rec b o fl fo Htp ltac:(lia) Hp) as Hpr. fold p1 in Hpr. tauto.
Qed.
End insert.

Lemma insert_spec lo hi l rec :
  0 <= lo -> hi < 2 ^ 32 -> Forall m_typed l -> m_runs lo hi l ->
  m_typed rec -> 0 < m_count rec -> lo <= m_start rec -> m_end rec <= hi ->
  (forall b, m_covers rec b -> ~ owned l b) ->
  exists l', insert l rec = (l', Ok tt) /\ Forall m_typed l' /\ m_runs lo hi l' /\
    forall b o fl fo, maps l' b o fl fo <-> maps l b o fl fo \/ maps [rec] b o fl fo.
Proof.
  intros Hlo Hhi Ht H Hrec Hpos Hrl Hrh Hdis.
  destruct (insert_position lo hi rec l H) as (l1 & l2 & -> & Hp & H1 & H2).
  pose proof (fun r => m_runs_elem lo hi _ r H) as Hel.
  destruct (insert_between lo hi Hlo Hhi rec Hrec Hpos Hrl Hrh l1 l2) as (l' & E & Hj & Hr); try done.
  - intros p Hl. apply last_Some in Hl as [l0 ->].
    destruct (decide (m_end p <= m_start rec)); [done|]. exfalso.
    rewrite Forall_app, Forall_singleton in H1. destruct H1 as [_ H1].
    apply (Hdis (m_start rec)); [unfold m_covers, m_end in *; lia|].
    exists p. split; [set_solver|]. unfold m_covers. lia.
  - intros a Hh. destruct l2 as [|a' l2]; [done|]. cbn in Hh. injection Hh as ->.
    destruct (decide (m_end rec <= m_start a)); [done|]. exfalso.
    rewrite Forall_cons in H2. destruct H2 as [H2 _].
    apply (Hdis (m_start a)); [unfold m_covers, m_end in *; lia|].
    exists a. split; [set_solver|]. destruct (Hel a) as (? & ? & ?); [set_solver|].
    unfold m_covers, m_end in *. lia.
  - destruct (joined_spec lo hi Hlo Hhi rec Hrec Hpos Hrl Hrh (l1 ++ l2) l' Ht Hr Hj) as [? ?]. by exists l'.
Qed.


(** ** Removing a record *)

Lemma m_runs_Sorted lo hi l : m_runs lo hi l -> Sorted (fun x y => key_leb x y = true) l.
Proof.
  revert lo; induction l as [|a l IH]; intros lo; [constructor|].
  rewrite m_runs_cons. intros (_ & Ha & H). constructor; [by eapply IH|].
  destruct l as [|b l]; constructor. apply m_runs_cons in H as (Hb & _ & _).
  unfold m_end, key_leb, triple_leb, key_order in *. by rewrite (proj2 (Z.ltb_lt _ _)) by lia.
Qed.

Lemma remove_found l rec :
  match (match position (fun r => holds rec r && lines_up rec r) l with
         | Some i => Some i | None => position (holds rec) l end) with
  | None => Forall (fun r => holds rec r = false) l
  | Some i => exists l1 r l2, l = l1 ++ r :: l2 /\ i = length l1 /\ holds rec r = true
  end.
Proof.
  pose proof (position_spec (fun r => holds rec r && lines_up rec r) l) as H1.
  destruct (position _ l) as [i|].
  - destruct H1 as (l1 & r & l2 & ? & ? & Hr & _). bool_prop. by exists l1, r, l2.
  - pose proof (position_spec (holds rec) l) as H2. destruct (position (holds rec) l); [|done].
    destruct H2 as (l1 & r & l2 & ? & ? & ? & _). by exists l1, r, l2.
Qed.

Lemma holds_spec rec r :
  holds rec r = true <-> m_owner r = m_owner rec /\ flags r = flags rec /\
    m_start r <= m_start rec /\ m_end rec <= m_end r.
Proof. unfold holds. rewrite !andb_true_iff, !Z.eqb_eq, !Z.leb_le. tauto. Qed.

(** What is left of a record around a hole in it. *)
Lemma around_spec s e r :
  m_typed r -> m_end r < 2 ^ 32 -> m_start r <= s < e -> e <= m_end r ->
  Forall m_typed (around s e r) /\ m_runs (m_start r) (m_end r) (around s e r) /\
  forall b o fl fo, maps (around s e r) b o fl fo <->
    maps [r] b o fl fo /\ ~ (s <= b < e).
Proof.
  intros Ht H32 Hs He. pose proof Ht as [[? ?] [? ?] ? ? ?].
  set (front := set_count r (s - m_start r)).
  set (tail := mkRmap e (m_end r - e) (m_owner r)
    (if metadata r then m_offset r
     else Z.lor (wadd 64 (Z.land (m_offset r) OFF_MASK) (e - m_start r)) (flags r))).
  assert (around s e r = (if m_start r <? s then [front] else []) ++
                         (if e <? m_end r then [tail] else [])) as ->.
  { unfold around, front, tail, m_end in *. by rewrite !wrap_small by (unfold in_u; lia). }
  assert (Htail : flags tail = flags r /\ metadata tail = metadata r /\ in_u 64 (m_offset tail) /\
    (metadata r = false -> file_offset tail = file_offset r + (e - m_start r))).
  { assert (flags tail = flags r /\ in_u 64 (m_offset tail) /\
      (metadata r = false -> file_offset tail = file_offset r + (e - m_start r))) as (Hf & Hu & Hx).
    { unfold tail, flags, file_offset. cbn [m_offset]. destruct (metadata r) eqn:Em; [done|].
      unfold m_end in *. destruct (offset_advance r (e - m_start r) Ht Em ltac:(lia)) as (? & ? & ?).
      split_and!; try done. }
    split_and!; try done. by apply metadata_same. }
  destruct Htail as (Hf & Hm & Hu & Hx).
  assert (Hfm : forall b o fl fo, maps [front] b o fl fo <-> maps [r] b o fl fo /\ b < s).
  { intros. rewrite !maps_one. change (flags front) with (flags r).
    change (at_offset front b fo) with (at_offset r b fo).
    unfold m_covers, m_end, front, set_count in *. cbn [m_start m_count m_owner]. naive_solver lia. }
  assert (Htm : forall b o fl fo, maps [tail] b o fl fo <-> maps [r] b o fl fo /\ e <= b).
  { intros. rewrite !maps_one. unfold at_offset. rewrite Hf, Hm.
    unfold m_covers, m_end in *. cbn [tail m_start m_count m_owner] in *.
    destruct (metadata r); [naive_solver lia|]. rewrite Hx by done. cbn [tail m_start].
    split; intros; destruct_and?; split_and?; try done; try lia; naive_solver lia. }
  split; [|split].
  - apply Forall_app; split; (case_match; [|constructor]); apply Forall_singleton; bool_prop.
    + apply set_count_typed; [done|unfold in_u, m_end in *; lia|].
      intros Hmd. pose proof (mt_span _ Ht Hmd). unfold m_end in *. lia.
    + split; try done; unfold in_u, m_end in *; cbn [tail m_start m_count]; try lia.
      intros Hmd. rewrite Hm in Hmd. rewrite Hx by done. pose proof (mt_span _ Ht Hmd).
      cbn [tail m_count]. lia.
  - rewrite m_runs_app. exists s.
    destruct (Z.ltb_spec (m_start r) s), (Z.ltb_spec e (m_end r));
      rewrite ?m_runs_cons, ?m_runs_nil; unfold m_end in *; cbn [front tail set_count m_start m_count];
      lia.
  - intros. rewrite maps_app.
    assert (maps (if m_start r <? s then [front] else []) b o fl fo <-> maps [r] b o fl fo /\ b < s) as ->.
    { destruct (Z.ltb_spec (m_start r) s); [done|]. rewrite maps_nil, maps_one. unfold m_covers.
      naive_solver lia. }
    assert (maps (if e <? m_end r then [tail] else []) b o fl fo <-> maps [r] b o fl fo /\ e <= b) as ->.
    { destruct (Z.ltb_spec e (m_end r)); [done|]. rewrite maps_nil, maps_one. unfold m_covers.
      naive_solver lia. }
    assert (~ (s <= b < e) <-> b < s \/ e <= b) as -> by lia. tauto.
Qed.

(** C21: giving blocks back: where a record of the same owner and flags holds the
    whole run, the run and nothing else loses its owner, the record is cut
    around it with its offsets kept, and the records stay ordered and disjoint;
    where none does, the call is refused and nothing changes. *)
Theorem rmap_remove_exact lo hi l rec :
  0 <= lo -> hi < 2 ^ 32 -> Forall m_typed l -> m_runs lo hi l -> 0 < m_count rec ->
  match remove l rec with
  | (l', Ok _) =>
      (exists r, r ∈ l /\ holds rec r = true) /\ Forall m_typed l' /\ m_runs lo hi l' /\
      forall b o fl fo, maps l' b o fl fo <-> maps l b o fl fo /\ ~ m_covers rec b
  | (l', Err e) =>
      l' = l /\ (exists m, e = UnsupportedFeature m) /\ forall r, r ∈ l -> holds rec r = false
  | (_, Panic) => False
  end.
Proof.
  intros Hlo Hhi Ht H Hc. unfold remove. pose proof (remove_found l rec) as Hf.
  destruct (match position _ l with Some i => Some i | None => _ end) as [i|].
  2: { split; [done|]. split; [by eexists|]. by apply Forall_forall. }
  destruct Hf as (l1 & r & l2 & -> & -> & Hr). rewrite list_lookup_middle by done.
  rewrite take_app_length, drop_app_ge, Nat.sub_succ_l, Nat.sub_diag by lia. cbn [drop].
  pose proof (proj1 (holds_spec rec r) Hr) as (Ho & Hfl & Hs & He).
  rewrite Forall_app, Forall_cons in Ht. destruct Ht as (Ht1 & Htr & Ht2).
  rewrite m_runs_app in H. destruct H as (m & R1 & R2). rewrite m_runs_cons in R2.
  destruct R2 as (Hm & Hcr & R2). pose proof (m_runs_bound _ _ _ R2). pose proof (m_runs_bound _ _ _ R1).
  destruct (around_spec (m_start rec) (m_end rec) r Htr) as (Ta & Ra & Ma);
    [lia|unfold m_end in *; lia|done|].
  assert (Hruns : m_runs lo hi (l1 ++ around (m_start rec) (m_end rec) r ++ l2)).
  { rewrite m_runs_app. exists m. split; [done|]. rewrite m_runs_app. exists (m_end r).
    split; [|done]. by eapply m_runs_lo. }
  rewrite sort_by_id by by eapply m_runs_Sorted.
  split; [exists r; split; [set_solver|done]|]. split; [by rewrite !Forall_app|]. split; [done|].
  intros b o fl fo. rewrite !maps_app, Ma, (maps_cons r l2).
  assert (Hout : forall l, m_runs lo m l \/ m_runs (m_end r) hi l ->
    maps l b o fl fo -> ~ m_covers rec b).
  { intros l Hl (x & Hx & Hcov & _) Hrec. unfold m_covers, m_end in *.
    destruct Hl as [Hl|Hl]; apply (m_runs_elem _ _ _ _ Hl) in Hx; unfold m_end in *; lia. }
  pose proof (Hout l1 (or_introl R1)). pose proof (Hout l2 (or_intror R2)).
  change (m_covers rec b) with (m_start rec <= b < m_end rec) in *. tauto.
Qed.

(** ** Records of shared blocks *)

Definition key_le (x y : Rmap) : Prop := key_leb x y = true.

Lemma triple_leb_trans a b c : triple_leb a b = true -> triple_leb b c = true -> triple_leb a c = true.
Proof.
  destruct a as [[a1 a2] a3], b as [[b1 b2] b3], c as [[c1 c2] c3]. unfold triple_leb.
  rewrite !orb_true_iff, !andb_true_iff, !orb_true_iff, !andb_true_iff, !Z.ltb_lt, !Z.leb_le, !Z.eqb_eq. lia.
Qed.
Lemma triple_leb_total a b : triple_leb a b = false -> triple_leb b a = true.
Proof.
  destruct a as [[a1 a2] a3], b as [[b1 b2] b3]. unfold triple_leb.
  rewrite !orb_true_iff, !orb_false_iff, !andb_true_iff, !andb_false_iff, !orb_true_iff,
    !orb_false_iff, !andb_true_iff, !andb_false_iff, !Z.ltb_lt, !Z.ltb_ge, !Z.leb_le, !Z.leb_gt,
    !Z.eqb_eq, !Z.eqb_neq. lia.
Qed.
#[global] Instance key_le_trans : Transitive key_le.
Proof. intros a b c. apply triple_leb_trans. Qed.

(** What the records and the new one are, while it takes its neighbours in. *)
Record shared_ok (l : list Rmap) (rec : Rmap) : Prop := {
  so_typed : Forall m_typed (rec :: l);
  so_end : Forall (fun r => m_end r < 2 ^ 32) (rec :: l);
  so_sorted : StronglySorted key_le l;
}.

Lemma StronglySorted_middle l1 r l2 :
  StronglySorted key_le (l1 ++ r :: l2) -> StronglySorted key_le (l1 ++ l2).
Proof.
  rewrite !StronglySorted_app, StronglySorted_cons. intros (Hx & H1 & _ & H2).
  split_and!; try done. intros x y Hy Hz. apply Hx; set_solver.
Qed.

(** Taking one record of the list into another that it continues, or that
    continues it. *)
Lemma shared_join l1 r l2 rec lo hi :
  shared_ok (l1 ++ r :: l2) rec -> continues_into lo hi = true ->
  (lo = r /\ hi = rec) \/ (lo = rec /\ hi = r) ->
  checked_add 32 (m_count lo) (m_count hi) = Some (m_count lo + m_count hi) /\
  shared_ok (l1 ++ l2) (set_count lo (m_count lo + m_count hi)) /\
  forall b o fl fo, maps (set_count lo (m_count lo + m_count hi) :: l1 ++ l2) b o fl fo <->
    maps (rec :: l1 ++ r :: l2) b o fl fo.
Proof.
  intros [Ht He Hs] Hj Hw.
  rewrite Forall_cons, Forall_app, Forall_cons in Ht, He. destruct_and!.
  assert (m_typed lo /\ m_typed hi /\ m_end lo < 2 ^ 32 /\ m_end hi < 2 ^ 32) as (Tl & Th & El & Eh)
    by (destruct Hw as [[-> ->]|[-> ->]]; done).
  destruct (continues_into_spec lo hi Tl Hj) as (_ & _ & Hend & _).
  pose proof (mt_start _ Tl). pose proof (mt_count _ Tl). pose proof (mt_count _ Th).
  unfold m_end, in_u in *. split; [|split].
  - unfold checked_add. by rewrite (proj2 (Z.ltb_lt _ _)) by lia.
  - split; [| |by eapply StronglySorted_middle].
    + rewrite Forall_cons, Forall_app. split; [|done].
      apply set_count_typed; [done|unfold in_u; lia|]. by apply joined_span.
    + rewrite Forall_cons, Forall_app. split; [|done]. unfold m_end. cbn. lia.
  - intros. rewrite maps_cons, (joined_maps lo hi), (maps_cons rec), !maps_app, (maps_cons r l2);
      [|done|lia|done]. destruct Hw as [[-> ->]|[-> ->]]; tauto.
Qed.

(** A joined record goes where its key says. *)
Lemma shared_place l rec :
  shared_ok l rec ->
  let l' := vec_insert (partition_point (fun r => negb (key_leb rec r)) l) rec l in
  Forall m_typed l' /\ Forall (fun r => m_end r < 2 ^ 32) l' /\ StronglySorted key_le l' /\
  forall b o fl fo, maps l' b o fl fo <-> maps (rec :: l) b o fl fo.
Proof.
  intros [Ht He Hs] l'.
  destruct (partition_point_split (fun r => negb (key_leb rec r)) l) as (l1 & l2 & -> & Hp & H1 & H2).
  { intros i j x y Hij Hx Hy. rewrite !negb_true_iff. intros Hf.
    destruct (key_leb rec x) eqn:E; [|done]. exfalso.
    destruct (decide (i = j)) as [->|]; [assert (x = y) by congruence; congruence|].
    assert (key_le x y) as Hxy.
    { rewrite <- (take_drop j l) in Hs. eapply StronglySorted_app_1_elem_of; [exact Hs|..].
      - apply (list_elem_of_lookup_2 _ i). by rewrite lookup_take_lt by lia.
      - apply (list_elem_of_lookup_2 _ 0). by rewrite lookup_drop, Nat.add_0_r. }
    assert (key_leb rec y = true) by by eapply triple_leb_trans. congruence. }
  unfold l'. rewrite Hp, vec_insert_middle.
  rewrite Forall_cons, Forall_app in Ht, He. rewrite !Forall_app, !Forall_cons.
  split_and!; try tauto.
  - apply StronglySorted_app in Hs as (Hx & S1 & S2). rewrite Forall_forall in H1, H2.
    assert (forall y, y ∈ l2 -> key_le rec y) as R2.
    { intros y Hy. specialize (H2 y Hy). cbn in H2. by apply negb_false_iff in H2. }
    assert (forall x, x ∈ l1 -> key_le x rec) as R1.
    { intros x Hy. specialize (H1 x Hy). cbn in H1. apply negb_true_iff in H1.
      by apply triple_leb_total. }
    apply StronglySorted_app. rewrite StronglySorted_cons, Forall_forall. set_solver.
  - intros. rewrite (maps_cons rec (l1 ++ l2)), !maps_app, (maps_cons rec l2). tauto.
Qed.

(** Recording one more owner of blocks that may be shared: refused, with
    nothing changed, exactly where the overlap cannot be a shared mapping;
    otherwise the mappings of the new record are added to those there were and
    the records stay in key order. *)
Theorem rmap_insert_shared_exact l rec :
  Forall m_typed (rec :: l) -> Forall (fun r => m_end r < 2 ^ 32) (rec :: l) ->
  StronglySorted key_le l ->
  match insert_shared l rec with
  | (l', Ok _) =>
      Forall (fun r => clashes rec r = false) l /\
      Forall m_typed l' /\ Forall (fun r => m_end r < 2 ^ 32) l' /\ StronglySorted key_le l' /\
      forall b o fl fo, maps l' b o fl fo <-> maps l b o fl fo \/ maps [rec] b o fl fo
  | (l', Err e) =>
      l' = l /\ (exists m, e = UnsupportedFeature m) /\ exists r, r ∈ l /\ clashes rec r = true
  | (_, Panic) => False
  end.
Proof.
  intros Ht He Hs. unfold insert_shared.
  destruct (find (clashes rec) l) as [c|] eqn:Hf.
  { apply find_some in Hf as [Hin%list_elem_of_In Hc]. split; [done|].
    split; [by eexists|]. by exists c. }
  assert (Forall (fun r => clashes rec r = false) l) as Hnone.
  { apply Forall_forall. intros r Hr. by apply (find_none _ _ Hf), list_elem_of_In. }
  assert (Hplace : forall l1 rec1, shared_ok l1 rec1 ->
    (forall b o fl fo, maps (rec1 :: l1) b o fl fo <-> maps (rec :: l) b o fl fo) ->
    let l' := vec_insert (partition_point (fun r => negb (key_leb rec1 r)) l1) rec1 l1 in
    Forall (fun r => clashes rec r = false) l /\
    Forall m_typed l' /\ Forall (fun r => m_end r < 2 ^ 32) l' /\ StronglySorted key_le l' /\
    forall b o fl fo, maps l' b o fl fo <-> maps l b o fl fo \/ maps [rec] b o fl fo).
  { intros l1 rec1 Hok Hm. destruct (shared_place l1 rec1 Hok) as (? & ? & ? & Hm').
    split_and!; try done. intros. rewrite Hm', Hm, maps_cons. tauto. }
  assert (Hstep2 : forall l1 rec1, shared_ok l1 rec1 ->
    (forall b o fl fo, maps (rec1 :: l1) b o fl fo <-> maps (rec :: l) b o fl fo) ->
    exists l2 rec2,
      (match position (fun r => continues_into rec1 r) l1 with
       | None => (l1, Some rec1)
       | Some i =>
           match l1 !! i with
           | None => (l1, None)
           | Some after =>
               (delete i l1, set_count rec1 <$> checked_add 32 (m_count rec1) (m_count after))
           end
       end) = (l2, Some rec2) /\ shared_ok l2 rec2 /\
      forall b o fl fo, maps (rec2 :: l2) b o fl fo <-> maps (rec :: l) b o fl fo).
  { intros l1 rec1 Hok Hm. pose proof (position_spec (fun r => continues_into rec1 r) l1) as Hp.
    destruct (position _ l1); [|by exists l1, rec1].
    destruct Hp as (a1 & r & a2 & -> & -> & Hr & _). rewrite list_lookup_middle, delete_middle' by done.
    destruct (shared_join a1 r a2 rec1 rec1 r Hok Hr ltac:(by right)) as (-> & Hok' & Hm').
    eexists _, _. split; [done|]. split; [done|]. intros. by rewrite Hm', Hm. }
  assert (shared_ok l rec) as Hok by by split.
  pose proof (position_spec (fun r => continues_into r rec) l) as Hp.
  destruct (position _ l).
  - destruct Hp as (a1 & r & a2 & -> & -> & Hr & _). rewrite list_lookup_middle, delete_middle' by done.
    destruct (shared_join a1 r a2 rec r rec Hok Hr ltac:(by left)) as (-> & Hok' & Hm').
    cbn [fmap option_fmap option_map].
    destruct (Hstep2 _ _ Hok' Hm') as (l2 & rec2 & -> & ? & ?). by apply Hplace.
  - destruct (Hstep2 _ _ Hok ltac:(done)) as (l2 & rec2 & -> & ? & ?). by apply Hplace.
Qed.

(** ** Keys of a node over overlapping records *)

Definition key_bytes (r : Rmap) : bytes :=
  to_be_bytes 4 (m_start r) ++ to_be_bytes 8 (i64_as_u64 (m_owner r)) ++ to_be_bytes 8 (m_offset r).
Definition rec_bytes (r : Rmap) : bytes :=
  to_be_bytes 4 (m_start r) ++ to_be_bytes 4 (m_count r) ++
  to_be_bytes 8 (i64_as_u64 (m_owner r)) ++ to_be_bytes 8 (m_offset r).

Lemma length_key_bytes r : length (key_bytes r) = KEY.
Proof. unfold key_bytes. by rewrite !length_app, !length_to_be_bytes. Qed.
Lemma length_rec_bytes r : length (rec_bytes r) = RECORD.
Proof. unfold rec_bytes. by rewrite !length_app, !length_to_be_bytes. Qed.

Lemma encode_key_Ok buf pos r :
  (pos + KEY <= length buf)%nat -> encode_key buf pos r = Ok (splice pos (key_bytes r) buf).
Proof.
  unfold KEY. intros H. unfold encode_key.
  rewrite copy_at_Ok by (rewrite length_to_be_bytes; lia). cbn [mbind res_bind].
  rewrite copy_at_after by (rewrite !length_to_be_bytes; lia). cbn [mbind res_bind].
  rewrite copy_at_after by (rewrite ?length_app, !length_to_be_bytes; lia).
  unfold key_bytes. by rewrite <- app_assoc.
Qed.

Lemma rmap_encode_Ok buf pos r :
  (pos + RECORD <= length buf)%nat -> encode buf pos r = Ok (splice pos (rec_bytes r) buf).
Proof.
  unfold RECORD. intros H. unfold encode.
  rewrite copy_at_Ok by (rewrite length_to_be_bytes; lia). cbn [mbind res_bind].
  rewrite copy_at_after by (rewrite !length_to_be_bytes; lia). cbn [mbind res_bind].
  rewrite copy_at_after by (rewrite ?length_app, !length_to_be_bytes; lia). cbn [mbind res_bind].
  rewrite copy_at_after by (rewrite ?length_app, !length_to_be_bytes; lia).
  unfold rec_bytes. by rewrite <- !app_assoc.
Qed.

Lemma as_i64_of z : - 2 ^ 63 <= z < 2 ^ 63 -> as_i64 (i64_as_u64 z) = z /\ in_u 64 (i64_as_u64 z).
Proof.
  intros H. unfold as_i64, i64_as_u64, in_u.
  assert (z mod 2 ^ 64 = if z <? 0 then z + 2 ^ 64 else z) as ->.
  { destruct (Z.ltb_spec z 0); [|apply Z.mod_small; lia].
    rewrite <- (Z.mod_add z 1), Z.mod_small; lia. }
  destruct (Z.ltb_spec z 0).
  - rewrite (proj2 (Z.ltb_ge _ _)) by lia. lia.
  - rewrite (proj2 (Z.ltb_lt _ _)) by lia. lia.
Qed.

Lemma rmap_decode_Ok buf pos r :
  m_typed r -> (pos + RECORD <= length buf)%nat -> slice pos RECORD buf = rec_bytes r ->
  decode buf pos = Ok r.
Proof.
  unfold RECORD. intros [Hs Hc Ho Hf _] Hl Hb. destruct (as_i64_of _ Ho) as [Ho' Ho''].
  unfold decode. rewrite !be32_Ok, !be64_Ok by lia. cbn [mbind res_bind].
  assert (Hsl : forall off n, (off + n <= 24)%nat ->
    rd n (pos + off) buf = from_be_bytes (slice off n (rec_bytes r))).
  { intros off n Hn. unfold rd. by rewrite <- (slice_slice pos 24 off n), Hb by lia. }
  rewrite <- (Nat.add_0_r pos) at 1. rewrite !Hsl by lia.
  change (slice 0 4 (rec_bytes r)) with (to_be_bytes 4 (m_start r)).
  change (slice 4 4 (rec_bytes r)) with (to_be_bytes 4 (m_count r)).
  change (slice 8 8 (rec_bytes r)) with (to_be_bytes 8 (i64_as_u64 (m_owner r))).
  change (slice 16 8 (rec_bytes r)) with (to_be_bytes 8 (m_offset r)).
  rewrite !from_to_be_bytes_small by done. rewrite Ho'. by destruct r.
Qed.

Lemma max_by_spec {A} (f : A -> Z * Z * Z) best l :
  let m := max_by (fun a b => triple_leb (f a) (f b)) best l in
  m ∈ best :: l /\ forall x, x ∈ best :: l -> triple_leb (f x) (f m) = true.
Proof.
  assert (Hrefl : forall t, triple_leb t t = true).
  { intros [[? ?] ?]. unfold triple_leb. rewrite !Z.eqb_refl, Z.leb_refl. by rewrite !orb_true_r. }
  revert best; induction l as [|y l IH]; intros best; cbn [max_by].
  - split; [set_solver|]. intros x ->%list_elem_of_singleton. apply Hrefl.
  - destruct (IH (if triple_leb (f best) (f y) then y else best)) as [Hin Hle].
    set (m := max_by _ _ l) in *. split; [destruct (triple_leb _ _); set_solver|].
    intros x Hx. rewrite !elem_of_cons in Hx.
    destruct (triple_leb (f best) (f y)) eqn:E.
    + destruct Hx as [->|Hx]; [|apply Hle; set_solver].
      eapply triple_leb_trans; [exact E|]. apply Hle. set_solver.
    + apply triple_leb_total in E. destruct Hx as [->|[->|Hx]]; [apply Hle; set_solver| |apply Hle; set_solver].
      eapply triple_leb_trans; [exact E|]. apply Hle. set_solver.
Qed.

Lemma write_keys_Ok buf pos first rest :
  (pos + 2 * KEY <= length buf)%nat ->
  let high := max_by (fun a b => triple_leb (high_order a) (high_order b))
                (high_key first) (high_key <$> rest) in
  write_keys buf pos (first :: rest) = Ok (splice pos (key_bytes first ++ key_bytes high) buf).
Proof.
  intros H high. unfold KEY in H. unfold write_keys. rewrite encode_key_Ok by (unfold KEY; lia).
  cbn [mbind res_bind]. fold high.
  rewrite encode_key_Ok by (unfold KEY; rewrite length_splice; rewrite ?length_key_bytes; unfold KEY; lia).
  by rewrite splice_splice_adjacent by (rewrite ?length_key_bytes; unfold KEY; lia).
Qed.

#[global] Instance rmap_codec : RecordCodec Rmap := {|
  rc_shape := shape;
  rc_encode := encode;
  rc_decode := decode;
  rc_keys := write_keys;
|}.

#[global] Instance rmap_codec_laws : RecordCodecLaws Rmap m_typed.
Proof.
  unshelve esplit; [exact rec_bytes|..]; cbn [rc_shape rc_encode rc_decode rc_keys rmap_codec
    shape record_len key_len keys_per_entry overlapping].
  - apply length_rec_bytes.
  - intros. by apply rmap_encode_Ok.
  - intros. by apply rmap_decode_Ok.
  - intros buf pos [|r rs] Hne Hl; [done|]. eexists. split; [|by apply write_keys_Ok].
    by rewrite length_app, !length_key_bytes.
  - unfold RECORD. lia.
  - unfold encode. keeps_length.
  - intros ? ? [|first rest] ?; cbn [write_keys]; unfold encode_key; keeps_length.
Qed.

(** The keys a node keeps over a child: the low key is the child's first
    record, and no record below, whatever order the ends come in, ends after
    the high key in the kernel's order (block, owner unsigned, offset); nothing
    outside the two keys is written. *)
Theorem write_keys_bound buf pos first rest :
  Forall m_typed (first :: rest) -> Forall (fun r => m_end r <= 2 ^ 32) (first :: rest) ->
  (pos + 2 * KEY <= length buf)%nat ->
  exists high last,
    write_keys buf pos (first :: rest) = Ok (splice pos (key_bytes first ++ key_bytes high) buf) /\
    last ∈ first :: rest /\ high = high_key last /\
    forall r, r ∈ first :: rest ->
      triple_leb (high_order (high_key r)) (high_order high) = true /\
      forall b, m_covers r b -> b <= m_start high.
Proof.
  intros Ht He Hl. set (high := max_by (fun a b => triple_leb (high_order a) (high_order b))
                (high_key first) (high_key <$> rest)).
  destruct (max_by_spec high_order (high_key first) (high_key <$> rest)) as [Hin Hle].
  fold high in Hin, Hle. change (high_key first :: (high_key <$> rest)) with (high_key <$> first :: rest) in *.
  apply list_elem_of_fmap in Hin as (x & Hx & Hin). exists high, x.
  split; [by apply write_keys_Ok|]. split; [done|]. split; [done|].
  intros r Hr. assert (Hb : triple_leb (high_order (high_key r)) (high_order high) = true)
    by (apply Hle; by apply list_elem_of_fmap_2).
  split; [done|]. intros b [Hb1 Hb2].
  rewrite Forall_forall in Ht, He. specialize (Ht r Hr). specialize (He r Hr).
  pose proof (mt_start _ Ht). pose proof (mt_count _ Ht). unfold in_u, m_end in *.
  assert (m_start (high_key r) = m_end r - 1) as Hend.
  { unfold high_key, saturating_add, saturating_sub, umax, m_end. cbn [m_start]. lia. }
  unfold triple_leb, high_order in Hb. rewrite Hend in Hb. unfold m_end in Hb. bool_prop. lia.
Qed.

(** ** A group's records *)

Definition sample_rmaps : list Rmap :=
  [mkRmap 0 1 OWN_FS 0; mkRmap 1 2 OWN_AG 0; mkRmap 12 4 131 0; mkRmap 20 4 131 8].

Lemma sample_rmaps_typed : Forall m_typed sample_rmaps.
Proof. repeat apply Forall_cons_2; [..|constructor]; split; vm_compute; intuition congruence. Qed.
Lemma sample_rmaps_runs : m_runs 0 2048 sample_rmaps.
Proof. vm_compute. intuition congruence. Qed.
Lemma sample_rec_typed : m_typed (mkRmap 16 4 131 4).
Proof. split; vm_compute; intuition congruence. Qed.


Lemma rmap_remove_exact_witness :
  exists l', remove sample_rmaps (mkRmap 13 1 131 1) = (l', Ok tt) /\ ~ maps l' 13 131 0 1.
Proof.
  pose proof (rmap_remove_exact 0 2048 sample_rmaps (mkRmap 13 1 131 1) ltac:(lia) ltac:(lia)
    sample_rmaps_typed sample_rmaps_runs ltac:(cbn; lia)) as H.
  destruct (remove sample_rmaps (mkRmap 13 1 131 1)) as [l' [[]|e|]] eqn:E.
  - exists l'. split; [done|]. destruct H as (_ & _ & _ & Hm). rewrite Hm.
    unfold m_covers, m_end. cbn. lia.
  - vm_compute in E. congruence.
  - vm_compute in E. congruence.
Defined.

Lemma sorted_sample : StronglySorted key_le sample_rmaps.
Proof. apply Sorted_StronglySorted; [apply _|]. repeat constructor. Qed.

(** Another file's copy of blocks 13 and 14. *)
Lemma rmap_insert_shared_exact_witness :
  exists l', insert_shared sample_rmaps (mkRmap 13 2 140 7) = (l', Ok tt) /\
    maps l' 13 131 0 1 /\ maps l' 13 140 0 7.
Proof.
  pose proof (rmap_insert_shared_exact sample_rmaps (mkRmap 13 2 140 7)) as H.
  destruct (insert_shared sample_rmaps (mkRmap 13 2 140 7)) as [l' [[]|e|]] eqn:E;
    [|vm_compute in E; congruence..].
  exists l'. split; [done|]. clear E.
  destruct H as (_ & _ & _ & _ & Hm).
  - constructor; [|apply sample_rmaps_typed]. split; vm_compute; intuition congruence.
  - repeat constructor.
  - apply sorted_sample.
  - split; apply Hm; [left|right].
    + exists (mkRmap 12 4 131 0). split; [set_solver|]. split; [vm_compute; intuition congruence|].
      split; [done|]. split; [done|]. by right.
    + apply maps_one. split; [vm_compute; intuition congruence|]. split; [done|]. split; [done|]. by right.
Defined.

Lemma write_keys_bound_witness :
  exists high, write_keys (repeat Byte.x00 40) 0 sample_rmaps =
      Ok (splice 0 (key_bytes (mkRmap 0 1 OWN_FS 0) ++ key_bytes high) (repeat Byte.x00 40)) /\
    23 <= m_start high.
Proof.
  destruct (write_keys_bound (repeat Byte.x00 40) 0 (mkRmap 0 1 OWN_FS 0) (tail sample_rmaps))
    as (high & x & E & _ & _ & H).
  - apply sample_rmaps_typed.
  - repeat constructor; vm_compute; congruence.
  - vm_compute. lia.
  - exists high. split; [done|]. apply (H (mkRmap 20 4 131 8)); [by apply (list_elem_of_lookup_2 _ 3)|].
    vm_compute. intuition congruence.
Defined.

(** What [insert] does not look at: a record that starts inside a free gap
    and reaches into the record after it is stored, so two owners claim block
    12; only the record before it is compared with the new one. *)
Theorem rmap_insert_overlap :
  exists l', insert sample_rmaps (mkRmap 5 10 200 0) = (l', Ok tt) /\
    maps l' 12 131 0 0 /\ maps l' 12 200 0 7.
Proof.
  eexists. split; [vm_compute; reflexivity|]. split; eexists.
  - split; [by apply (list_elem_of_lookup_2 _ 3)|]. split; [vm_compute; intuition congruence|].
    split; [done|]. split; [done|]. by right.
  - split; [by apply (list_elem_of_lookup_2 _ 2)|]. split; [vm_compute; intuition congruence|].
    split; [done|]. split; [done|]. by right.
Qed.
