(* ===== verification/Overlay.v ===== *)
(** * What a mount has logged over its device ([src/src/overlay.rs])

    The device is a parameter: [fs_core]'s [BlockRead] and [BlockDevice]
    traits are the class [BlockDevice], and what the driver relies on of an
    implementation is the class [BlockDeviceLaws].  The overlay stands for a
    function from byte offsets to bytes ([view]); the theorems say what a
    read, a logged buffer, a forgotten one and a push do to it. *)

From Stdlib Require Import ZArith Lia Strings.String Strings.Byte.
From stdpp Require Import base list gmap fin_maps strings.
From S2P Require Import Prelude Error.

(** [fs_core::BlockRead] and [fs_core::BlockDevice]: a read fills the buffer it
    is given, and may have filled part of it when it fails. *)
Class BlockDevice (D : Type) := {
  dev_read : D -> Z -> bytes -> bytes * res unit;
  dev_write : D -> Z -> bytes -> D * res unit;
  dev_flush : D -> D * res unit;
  dev_size : D -> Z;
}.

(** What the driver relies on: a read that succeeds returns what the device
    holds, a write that succeeds stores what it was given, and no write or
    flush touches anything else. *)
Class BlockDeviceLaws (D : Type) {dev : BlockDevice D} := {
  dev_byte : D -> Z -> byte;
  dev_read_length d off buf : length (dev_read d off buf).1 = length buf;
  dev_read_total d off buf : (dev_read d off buf).2 <> Panic;
  dev_read_Ok d off buf buf' :
    dev_read d off buf = (buf', Ok tt) ->
    forall i, (i < length buf)%nat -> buf' !! i = Some (dev_byte d (off + Z.of_nat i));
  dev_write_total d off bs : (dev_write d off bs).2 <> Panic;
  dev_write_Ok d off bs d' :
    dev_write d off bs = (d', Ok tt) ->
    forall i b, bs !! i = Some b -> dev_byte d' (off + Z.of_nat i) = b;
  dev_write_out d off bs b :
    ~ (off <= b < off + Z.of_nat (length bs)) ->
    dev_byte (dev_write d off bs).1 b = dev_byte d b;
  dev_flush_total d : (dev_flush d).2 <> Panic;
  dev_flush_byte d b : dev_byte (dev_flush d).1 b = dev_byte d b;
}.

Definition BBSIZE : nat := 512.
Definition zblock : bytes := replicate BBSIZE x00.

(** The blocks held, by their offset on the device; the device is passed
    beside it, because [push] writes to the one [read_at] reads. *)
Notation Overlay := (gmap Z bytes).
Definition new : Overlay := ∅.

Section overlay.
Context {D : Type} {dev : BlockDevice D}.

(** [logged.entry(at).or_insert_with(..)], then the copy over its head. *)
Definition wrote_chunk (d : D) (logged : Overlay) (pos : Z) (chunk : bytes) : Overlay :=
  let entry :=
    match logged !! pos with
    | Some block => block
    | None => (dev_read d pos zblock).1
    end in
  <[pos := splice 0 chunk entry]> logged.

(** The [i]-th of [bytes.chunks(BBSIZE)]. *)
Definition nth_chunk (bs : bytes) (i : nat) : bytes := slice (i * BBSIZE) BBSIZE bs.

Fixpoint wrote_loop (d : D) (offset : Z) (bs : bytes) (is_ : list nat) (logged : Overlay) : Overlay :=
  match is_ with
  | [] => logged
  | i :: is_ =>
      wrote_loop d offset bs is_
        (wrote_chunk d logged (wadd 64 offset (Z.of_nat (i * BBSIZE))) (nth_chunk bs i))
  end.

Definition wrote (d : D) (logged : Overlay) (offset : Z) (bs : bytes) : res Overlay :=
  if offset mod Z.of_nat BBSIZE =? 0
  then Ok (wrote_loop d offset bs (seq 0 (div_ceil (length bs) BBSIZE)) logged)
  else Panic.

(** [BTreeMap::range(lo..hi)], which panics where the range is backwards, in
    ascending order of key. *)
Definition entries (logged : Overlay) : list (Z * bytes) :=
  sort_by (fun a b => a.1 <=? b.1) (map_to_list logged).
Definition range (logged : Overlay) (lo hi : Z) : res (list (Z * bytes)) :=
  if hi <? lo then Panic
  else Ok (List.filter (fun e => (lo <=? e.1) && (e.1 <? hi)) (entries logged)).

Definition forget (logged : Overlay) (offset : Z) (len : nat) : res Overlay :=
  held ← range logged offset (wadd 64 offset (Z.of_nat len));
  Ok (foldl (fun m at_ => delete at_ m) logged held.*1).

Definition bytes_held (logged : Overlay) : nat := (size logged * BBSIZE)%nat.

(** The writes of a push, up to the first that fails. *)
Fixpoint push_loop (d : D) (l : list (Z * bytes)) (written : nat) : D * res nat :=
  match l with
  | [] => (d, Ok written)
  | (pos, block) :: l =>
      match dev_write d pos block with
      | (d, Ok _) => push_loop d l (written + 1)
      | (d, Err e) => (d, Err e)
      | (d, Panic) => (d, Panic)
      end
  end.

Definition push (d : D) (logged : Overlay) : D * Overlay * res nat :=
  match push_loop d (entries logged) 0 with
  | (d, Ok written) =>
      match dev_flush d with
      | (d, Ok _) => (d, ∅, Ok written)
      | (d, Err e) => (d, logged, Err e)
      | (d, Panic) => (d, logged, Panic)
      end
  | (d, r) => (d, logged, r)
  end.

(** One held block laid over the buffer being read. *)
Definition lay (offset end_ : Z) (buf : bytes) (e : Z * bytes) : res bytes :=
  let '(pos, block) := e in
  let from := Z.max pos offset in
  let to := Z.min (wadd 64 pos (Z.of_nat BBSIZE)) end_ in
  if to <=? from then Ok buf
  else
    piece ← get_slice (Z.to_nat (from - pos)) (Z.to_nat (to - from)) block;
    copy_at (Z.to_nat (from - offset)) piece buf.

Fixpoint lay_all (offset end_ : Z) (buf : bytes) (l : list (Z * bytes)) : res bytes :=
  match l with
  | [] => Ok buf
  | e :: l => buf ← lay offset end_ buf e; lay_all offset end_ buf l
  end.

Definition read_at (d : D) (logged : Overlay) (offset : Z) (buf : bytes) : res bytes :=
  match dev_read d offset buf with
  | (buf, Ok _) =>
      match buf with
      | [] => Ok buf
      | _ =>
          let first := offset - offset mod Z.of_nat BBSIZE in
          let end_ := wadd 64 offset (Z.of_nat (length buf)) in
          l ← range logged first end_;
          lay_all offset end_ buf l
      end
  | (_, Err e) => Err e
  | (_, Panic) => Panic
  end.

Definition size_bytes (d : D) : Z := dev_size d.
End overlay.

(** ** What the overlay stands for *)

Definition BB : Z := 512.
Definition block_of (b : Z) : Z := b - b mod BB.
Definition byte_at (bs : bytes) (i : Z) : byte := default x00 (bs !! Z.to_nat i).

Definition held_ok (k : Z) (block : bytes) : Prop :=
  k mod BB = 0 /\ 0 <= k /\ k + BB < 2 ^ 64 /\ length block = BBSIZE.
Definition overlay_ok (logged : Overlay) : Prop := map_Forall held_ok logged.

Section view.
Context {D : Type} {dev : BlockDevice D} {laws : BlockDeviceLaws D}.

(** The byte a reader of the mount sees at [b]. *)
Definition view (d : D) (logged : Overlay) (b : Z) : byte :=
  match logged !! block_of b with
  | Some block => byte_at block (b - block_of b)
  | None => dev_byte d b
  end.

Lemma block_of_spec b k : k mod BB = 0 -> (k = block_of b <-> k <= b < k + BB).
Proof. unfold block_of, BB. intros H. zdiv. Qed.
Lemma block_of_aligned b : block_of b mod BB = 0.
Proof. unfold block_of, BB. zdiv. Qed.

Lemma byte_at_lookup bs i : (i < length bs)%nat -> bs !! i = Some (byte_at bs (Z.of_nat i)).
Proof.
  intros H. unfold byte_at. rewrite Nat2Z.id. by destruct (lookup_lt_is_Some_2 bs i H) as [x ->].
Qed.

Lemma elem_of_entries logged k block : (k, block) ∈ entries logged <-> logged !! k = Some block.
Proof. unfold entries. by rewrite sort_by_Permutation, elem_of_map_to_list. Qed.
Lemma NoDup_entries logged : NoDup (entries logged).*1.
Proof. unfold entries. rewrite sort_by_Permutation. apply NoDup_fst_map_to_list. Qed.

Lemma elem_of_range logged lo hi l k block :
  range logged lo hi = Ok l ->
  (k, block) ∈ l <-> logged !! k = Some block /\ lo <= k < hi.
Proof.
  unfold range. case_match; [done|]. intros [= <-].
  rewrite list_elem_of_In, filter_In, <- list_elem_of_In, elem_of_entries. cbn [fst].
  rewrite andb_true_iff, Z.leb_le, Z.ltb_lt. tauto.
Qed.
Lemma range_Ok logged lo hi : lo <= hi -> exists l, range logged lo hi = Ok l.
Proof. intros H. unfold range. rewrite (proj2 (Z.ltb_ge _ _)) by lia. by eexists. Qed.
Lemma NoDup_filter_fst {A B} (p : A * B -> bool) l : NoDup l.*1 -> NoDup (List.filter p l).*1.
Proof.
  induction l as [|x l IH]; cbn; [done|]. rewrite NoDup_cons. intros [Hx Hl].
  destruct (p x); cbn; [|by apply IH]. apply NoDup_cons. split; [|by apply IH].
  contradict Hx. apply list_elem_of_fmap in Hx as (y & -> & Hy).
  apply list_elem_of_fmap. exists y. split; [done|].
  rewrite list_elem_of_In, filter_In in Hy. destruct Hy. by apply list_elem_of_In.
Qed.
Lemma NoDup_range logged lo hi l : range logged lo hi = Ok l -> NoDup l.*1.
Proof.
  unfold range. case_match; [done|]. intros [= <-]. apply NoDup_filter_fst, NoDup_entries.
Qed.

(** ** Reading *)

(** One block laid over the read: its bytes where they meet, the rest kept. *)
Lemma lay_spec offset end_ buf k block :
  held_ok k block -> 0 <= offset -> end_ = offset + Z.of_nat (length buf) ->
  exists buf', lay offset end_ buf (k, block) = Ok buf' /\ length buf' = length buf /\
    forall i, (i < length buf)%nat ->
      buf' !! i = if decide (k = block_of (offset + Z.of_nat i))
                  then Some (byte_at block (offset + Z.of_nat i - k)) else buf !! i.
Proof.
  intros (Ha & Hk & Hk2 & Hlen) Ho ->. unfold lay. change (Z.of_nat BBSIZE) with BB.
  rewrite wadd_small by (unfold BB in *; lia). unfold BBSIZE in Hlen.
  set (from := Z.max k offset). set (to := Z.min (k + BB) (offset + Z.of_nat (length buf))).
  destruct (Z.leb_spec to from) as [Hle|Hlt].
  - eexists. split; [done|]. split; [done|]. intros i Hi.
    destruct (decide _) as [E|]; [|done]. rewrite block_of_spec in E by done. lia.
  - rewrite get_slice_Ok by (unfold BB in *; lia). cbn [mbind res_bind].
    set (piece := slice (Z.to_nat (from - k)) (Z.to_nat (to - from)) block).
    assert (Hp : length piece = Z.to_nat (to - from)) by (apply length_slice; unfold BB in *; lia).
    rewrite copy_at_Ok by (rewrite Hp; lia). eexists. split; [done|].
    split; [apply length_splice; rewrite Hp; lia|]. intros i Hi.
    destruct (decide _) as [E|E]; rewrite block_of_spec in E by done.
    + rewrite lookup_splice_in by (rewrite ?Hp; lia). unfold piece.
      rewrite lookup_slice, decide_True by lia. rewrite byte_at_lookup by (unfold BB in *; lia).
      f_equal. f_equal. lia.
    + rewrite lookup_splice_out; [done|rewrite Hp; lia|]. rewrite Hp. lia.
Qed.

Lemma lay_all_spec offset end_ l : forall buf,
  Forall (fun e => held_ok e.1 e.2) l -> NoDup l.*1 ->
  0 <= offset -> end_ = offset + Z.of_nat (length buf) ->
  exists buf', lay_all offset end_ buf l = Ok buf' /\ length buf' = length buf /\
    forall i, (i < length buf)%nat ->
      (forall block, (block_of (offset + Z.of_nat i), block) ∈ l ->
         buf' !! i = Some (byte_at block (offset + Z.of_nat i - block_of (offset + Z.of_nat i)))) /\
      (block_of (offset + Z.of_nat i) ∉ l.*1 -> buf' !! i = buf !! i).
Proof.
  induction l as [|[k block] l IH]; intros buf Hok Hnd Ho He; cbn [lay_all].
  { exists buf. split_and!; try done. intros. split; [set_solver|done]. }
  rewrite Forall_cons in Hok. destruct Hok as [Hk Hok]. cbn [fmap list_fmap fst] in Hnd.
  rewrite NoDup_cons in Hnd. destruct Hnd as [Hnin Hnd].
  destruct (lay_spec offset end_ buf k block Hk Ho He) as (b1 & -> & L1 & S1). cbn [mbind res_bind].
  destruct (IH b1 Hok Hnd Ho ltac:(by rewrite L1)) as (b2 & -> & L2 & S2).
  exists b2. split; [done|]. split; [by rewrite L2|]. intros i Hi.
  specialize (S1 i Hi). rewrite L1 in S2. destruct (S2 i Hi) as [S2a S2b]. split.
  - intros blk [E|Hin]%elem_of_cons; [|by apply S2a]. injection E as <- <-.
    rewrite S2b by done. by rewrite decide_True in S1 by done.
  - intros Hn. cbn in Hn. rewrite not_elem_of_cons in Hn. destruct Hn as [Hn1 Hn2].
    rewrite S2b by done. rewrite decide_False in S1 by congruence. done.
Qed.

Lemma read_at_spec d logged offset buf :
  overlay_ok logged -> 0 <= offset -> offset + Z.of_nat (length buf) < 2 ^ 64 ->
  match read_at d logged offset buf with
  | Ok buf' => length buf' = length buf /\
      forall i, (i < length buf)%nat -> buf' !! i = Some (view d logged (offset + Z.of_nat i))
  | Err e => (dev_read d offset buf).2 = Err e
  | Panic => False
  end.
Proof.
  intros Hok Ho Hb. unfold read_at.
  pose proof (dev_read_length d offset buf) as Hlen. pose proof (dev_read_total d offset buf) as Hnp.
  pose proof (dev_read_Ok d offset buf) as Hrd.
  destruct (dev_read d offset buf) as [b [[]|e|]]; cbn [fst snd] in *; [|done..].
  specialize (Hrd b eq_refl). destruct b as [|x b].
  { split; [done|]. intros i Hi. cbn in Hlen. lia. }
  set (bf := x :: b) in *. rewrite Hlen, wadd_small by lia. change (Z.of_nat BBSIZE) with BB.
  fold (block_of offset).
  assert (Hfirst : block_of offset <= offset) by (unfold block_of, BB; zdiv).
  destruct (range_Ok logged (block_of offset) (offset + Z.of_nat (length buf)) ltac:(lia)) as [l Hl].
  rewrite Hl. cbn [mbind res_bind].
  pose proof (fun k blk => elem_of_range _ _ _ _ k blk Hl) as Hel.
  destruct (lay_all_spec offset (offset + Z.of_nat (length buf)) l bf) as (b' & -> & L & S).
  - apply Forall_forall. intros [k blk] Hin. apply Hok. by apply Hel.
  - by eapply NoDup_range.
  - done.
  - by rewrite Hlen.
  - rewrite Hlen in *. split; [done|]. intros i Hi. destruct (S i Hi) as [Sin Sout]. unfold view.
    assert (block_of offset <= block_of (offset + Z.of_nat i) < offset + Z.of_nat (length buf))
      by (unfold block_of, BB; zdiv).
    destruct (logged !! block_of (offset + Z.of_nat i)) as [blk|] eqn:E.
    + apply Sin, Hel. done.
    + rewrite Sout; [by apply Hrd|]. intros ([k blk] & Heq & Hin)%list_elem_of_fmap. cbn in Heq. subst k.
      apply Hel in Hin as [Hin _]. congruence.
Qed.

(** A read through the overlay, of any offset and length, returns for every
    byte what the last record said of it, and what the device holds where no
    record said anything; it fails only where the device does. *)
Theorem overlay_read_exact d logged offset buf :
  overlay_ok logged -> 0 <= offset -> offset + Z.of_nat (length buf) < 2 ^ 64 ->
  match read_at d logged offset buf with
  | Ok buf' => length buf' = length buf /\
      forall i, (i < length buf)%nat -> buf' !! i = Some (view d logged (offset + Z.of_nat i))
  | Err e => (dev_read d offset buf).2 = Err e
  | Panic => False
  end.
Proof. apply read_at_spec. Qed.

(** ** Logging a buffer *)

(** The part of the last block the buffer does not reach is read from the
    device, if the block is not held. *)
Definition tail_readable (d : D) (offset : Z) (bs : bytes) : Prop :=
  forall i, (i < div_ceil (length bs) BBSIZE)%nat ->
    length (nth_chunk bs i) = BBSIZE \/ (dev_read d (offset + Z.of_nat (i * BBSIZE)) zblock).2 = Ok tt.

Lemma wrote_chunk_spec d logged k chunk :
  overlay_ok logged -> k mod BB = 0 -> 0 <= k -> k + BB < 2 ^ 64 -> (length chunk <= BBSIZE)%nat ->
  length chunk = BBSIZE \/ (dev_read d k zblock).2 = Ok tt ->
  overlay_ok (wrote_chunk d logged k chunk) /\
  forall b, view d (wrote_chunk d logged k chunk) b =
    if decide (k <= b < k + Z.of_nat (length chunk)) then byte_at chunk (b - k) else view d logged b.
Proof.
  intros Hok Ha Hk Hk2 Hc Hrd. unfold wrote_chunk.
  set (entry := match logged !! k with Some block => block | None => _ end).
  assert (Hle : length entry = BBSIZE).
  { unfold entry. destruct (logged !! k) eqn:E; [by apply (Hok _ _ E)|]. by rewrite dev_read_length. }
  split.
  { apply map_Forall_insert_2; [|done]. split_and!; try done. rewrite length_splice; [done|lia]. }
  intros b. unfold view. unfold BBSIZE in *.
  destruct (decide (k = block_of b)) as [Hkb|Hkb].
  - rewrite <- Hkb, lookup_insert_eq. pose proof (proj1 (block_of_spec b k Ha) Hkb) as Hr. unfold BB in Hr.
    unfold byte_at at 1. destruct (decide _) as [Hin|Hout].
    + rewrite lookup_splice_in by lia. unfold byte_at. do 2 f_equal. lia.
    + rewrite lookup_splice_out by lia. unfold entry.
      destruct (logged !! k) as [blk|] eqn:E; [done|].
      destruct Hrd as [Hrd|Hrd]; [lia|].
      destruct (dev_read d k zblock) as [bf r] eqn:Ed. cbn [fst snd] in *. subst r.
      rewrite (dev_read_Ok _ _ _ _ Ed) by (cbn; lia). cbn [from_option]. unfold id. f_equal. lia.
  - rewrite lookup_insert_ne by done. rewrite decide_False; [done|].
    intros Hin. apply Hkb. apply block_of_spec; [done|]. unfold BB. lia.
Qed.

Lemma length_nth_chunk bs i : length (nth_chunk bs i) = Nat.min BBSIZE (length bs - i * BBSIZE).
Proof. unfold nth_chunk, slice. by rewrite length_take, length_drop. Qed.

Lemma wrote_loop_spec d offset bs : forall n a logged,
  overlay_ok logged -> offset mod BB = 0 -> 0 <= offset ->
  offset + Z.of_nat ((a + n) * BBSIZE) < 2 ^ 64 ->
  (a + n <= div_ceil (length bs) BBSIZE)%nat -> tail_readable d offset bs ->
  let logged' := wrote_loop d offset bs (seq a n) logged in
  overlay_ok logged' /\
  forall b, view d logged' b =
    if decide (offset + Z.of_nat (a * BBSIZE) <= b < offset + Z.of_nat (Nat.min (length bs) ((a + n) * BBSIZE)))
    then byte_at bs (b - offset) else view d logged b.
Proof.
  induction n as [|n IH]; intros a logged Hok Ha Ho Hb Hn Ht; cbn [seq wrote_loop].
  { split; [done|]. intros b. by rewrite decide_False by lia. }
  unfold BBSIZE in Hb. pose proof (length_nth_chunk bs a) as Hla.
  rewrite wadd_small by (unfold BBSIZE; lia).
  assert (Hlt : (a * BBSIZE < length bs)%nat).
  { pose proof (div_ceil_bounds (length bs) BBSIZE ltac:(unfold BBSIZE; lia)). unfold BBSIZE in *. nia. }
  destruct (wrote_chunk_spec d logged (offset + Z.of_nat (a * BBSIZE)) (nth_chunk bs a)) as [Hok1 V1].
  - done.
  - unfold BB, BBSIZE in *. zdiv.
  - lia.
  - unfold BB, BBSIZE in *. lia.
  - lia.
  - apply Ht. lia.
  - destruct (IH (S a) _ Hok1 Ha Ho) as [Hok2 V2]; [unfold BBSIZE; lia|lia|done|].
    split; [done|]. intros b. rewrite V2, V1, Hla. unfold BBSIZE in *.
    repeat destruct (decide _); try lia; [done| |done].
    unfold byte_at, nth_chunk. rewrite lookup_slice, decide_True by (unfold BBSIZE; lia). do 2 f_equal. unfold BBSIZE. lia.
Qed.

Lemma wrote_spec d logged offset bs :
  overlay_ok logged -> 0 <= offset -> offset + Z.of_nat (length bs) + BB < 2 ^ 64 ->
  tail_readable d offset bs ->
  match wrote d logged offset bs with
  | Ok logged' => offset mod BB = 0 /\ overlay_ok logged' /\
      forall b, view d logged' b =
        if decide (offset <= b < offset + Z.of_nat (length bs))
        then byte_at bs (b - offset) else view d logged b
  | Err _ => False
  | Panic => offset mod BB <> 0
  end.
Proof.
  intros Hok Ho Hb Ht. unfold wrote. change (Z.of_nat BBSIZE) with BB.
  destruct (Z.eqb_spec (offset mod BB) 0) as [Ha|]; [|done].
  pose proof (div_ceil_bounds (length bs) BBSIZE ltac:(unfold BBSIZE; lia)) as Hd.
  destruct (wrote_loop_spec d offset bs (div_ceil (length bs) BBSIZE) 0 logged) as [Hok' V];
    [done|done|done|unfold BB, BBSIZE in *; lia|lia|done|].
  split; [done|]. split; [done|]. intros b. rewrite V.
  repeat destruct (decide _); try done; lia.
Qed.

Lemma tail_readable_blocks d offset bs : (length bs mod BBSIZE = 0)%nat -> tail_readable d offset bs.
Proof.
  intros Hm i Hi. left. rewrite length_nth_chunk. pose proof (Nat.div_mod_eq (length bs) BBSIZE) as Hd. rewrite Hm in Hd.
  pose proof (div_ceil_bounds (length bs) BBSIZE ltac:(unfold BBSIZE; lia)). unfold BBSIZE in *. lia.
Qed.

(** Logging a buffer: the mount then reads those bytes there and everything
    else as before, across buffers that overlap, and the overlay keeps whole
    aligned blocks; a buffer not on a basic block is a panic. *)
Theorem overlay_wrote_exact d logged offset bs :
  overlay_ok logged -> 0 <= offset -> offset + Z.of_nat (length bs) + BB < 2 ^ 64 ->
  tail_readable d offset bs ->
  match wrote d logged offset bs with
  | Ok logged' => offset mod BB = 0 /\ overlay_ok logged' /\
      forall b, view d logged' b =
        if decide (offset <= b < offset + Z.of_nat (length bs))
        then byte_at bs (b - offset) else view d logged b
  | Err _ => False
  | Panic => offset mod BB <> 0
  end.
Proof. apply wrote_spec. Qed.

(** ** Forgetting and pushing *)

Lemma lookup_delete_all (ks : list Z) : forall (m : Overlay) k,
  foldl (fun m at_ => delete at_ m) m ks !! k = if decide (k ∈ ks) then None else m !! k.
Proof.
  induction ks as [|x ks IH]; intros m k; cbn [foldl]; [by rewrite decide_False by set_solver|].
  rewrite IH. destruct (decide (k ∈ ks)); [by rewrite decide_True by set_solver|].
  destruct (decide (k = x)) as [->|].
  - by rewrite lookup_delete_eq, decide_True by set_solver.
  - by rewrite lookup_delete_ne, decide_False by set_solver.
Qed.

(** Forgetting cancelled blocks: the mount reads the device there again and
    everything else as before. *)
Theorem overlay_forget_exact d logged offset len :
  overlay_ok logged -> 0 <= offset -> offset mod BB = 0 -> Z.of_nat len mod BB = 0 ->
  offset + Z.of_nat len < 2 ^ 64 ->
  exists logged', forget logged offset len = Ok logged' /\ overlay_ok logged' /\
    forall b, view d logged' b =
      if decide (offset <= b < offset + Z.of_nat len) then dev_byte d b else view d logged b.
Proof.
  intros Hok Ho Ha Hl Hb. unfold forget. rewrite wadd_small by lia.
  destruct (range_Ok logged offset (offset + Z.of_nat len) ltac:(lia)) as [l Er]. rewrite Er.
  cbn [mbind res_bind]. eexists. split; [done|].
  assert (Hin : forall k, k ∈ l.*1 <-> is_Some (logged !! k) /\ offset <= k < offset + Z.of_nat len).
  { intros k. rewrite list_elem_of_fmap. split.
    - intros ([k' blk] & -> & Hin). apply (elem_of_range _ _ _ _ _ _ Er) in Hin as [? ?]. by eauto.
    - intros [[blk Hk] Hr]. exists (k, blk). split; [done|]. by apply (elem_of_range _ _ _ _ _ _ Er). }
  split.
  - intros k blk. rewrite lookup_delete_all. case_decide; [done|]. apply Hok.
  - intros b. unfold view. rewrite lookup_delete_all.
    assert (Hblk : offset <= block_of b < offset + Z.of_nat len <-> offset <= b < offset + Z.of_nat len)
      by (unfold block_of, BB in *; zdiv).
    destruct (decide (block_of b ∈ l.*1)) as [Hk|Hk]; rewrite Hin, Hblk in Hk.
    + by rewrite decide_True by tauto.
    + destruct (decide _) as [Hr|]; [|done].
      destruct (logged !! block_of b) as [blk|] eqn:E; [|done]. exfalso. apply Hk. split; [by eexists|done].
Qed.

Lemma push_loop_out b l : forall d n,
  Forall (fun e => held_ok e.1 e.2) l -> block_of b ∉ l.*1 ->
  dev_byte (push_loop d l n).1 b = dev_byte d b.
Proof.
  induction l as [|[k blk] l IH]; intros d n Hok Hb; cbn [push_loop]; [done|].
  rewrite Forall_cons in Hok. destruct Hok as [(Ha & ? & ? & Hlen) Hok].
  cbn [fmap list_fmap fst snd] in *. rewrite not_elem_of_cons in Hb. destruct Hb as [Hne Hb].
  pose proof (dev_write_out d k blk b) as Hw. rewrite Hlen in Hw.
  assert (~ (k <= b < k + Z.of_nat BBSIZE)) as Hnr.
  { intros Hr. apply Hne. symmetry. by apply block_of_spec. }
  specialize (Hw Hnr). destruct (dev_write d k blk) as [d' [[]|e|]]; cbn [fst] in *; [|done..].
  by rewrite IH.
Qed.

Lemma push_loop_total l : forall d n, (push_loop d l n).2 <> Panic.
Proof.
  induction l as [|[k blk] l IH]; intros d n; cbn [push_loop]; [done|].
  pose proof (dev_write_total d k blk). destruct (dev_write d k blk) as [d' [[]|e|]]; [apply IH|done..].
Qed.

Lemma push_loop_in l : forall d n d' m,
  Forall (fun e => held_ok e.1 e.2) l -> NoDup l.*1 -> push_loop d l n = (d', Ok m) ->
  m = (n + length l)%nat /\
  forall b blk, (block_of b, blk) ∈ l -> dev_byte d' b = byte_at blk (b - block_of b).
Proof.
  induction l as [|[k blk] l IH]; intros d n d' m Hok Hnd; cbn [push_loop].
  { intros [= <- <-]. cbn. split; [lia|]. set_solver. }
  rewrite Forall_cons in Hok. destruct Hok as [(Ha & ? & ? & Hlen) Hok].
  cbn [fmap list_fmap fst snd] in *. rewrite NoDup_cons in Hnd. destruct Hnd as [Hk Hnd].
  destruct (dev_write d k blk) as [d1 [[]|e|]] eqn:Ew; [|done..]. intros Hp.
  destruct (IH d1 _ d' m Hok Hnd Hp) as [-> Hin]. split; [cbn; lia|].
  intros b blk' [[= Hbk ->]|Hel]%elem_of_cons; [|by apply Hin].
  pose proof (push_loop_out b l d1 (n + 1) Hok) as Hout. rewrite Hp in Hout. cbn [fst] in Hout.
  rewrite Hout by congruence. rewrite Hbk.
  assert (k <= b < k + BB) by by apply block_of_spec.
  unfold BB, BBSIZE in *. assert (Hlt : (Z.to_nat (b - k) < length blk)%nat) by lia.
  pose proof (dev_write_Ok _ _ _ _ Ew _ _ (byte_at_lookup blk _ Hlt)) as Hw.
  rewrite Z2Nat.id in Hw by lia. by replace (k + (b - k)) with b in Hw by lia.
Qed.

Lemma push_exact_spec d logged :
  overlay_ok logged ->
  match push d logged with
  | (d', logged', r) =>
      (forall b, view d' logged' b = view d logged b) /\
      match r with
      | Ok n => logged' = ∅ /\ n = size logged /\ forall b, dev_byte d' b = view d logged b
      | Err _ => logged' = logged
      | Panic => False
      end
  end.
Proof.
  intros Hok. unfold push.
  assert (Hall : Forall (fun e => held_ok e.1 e.2) (entries logged)).
  { apply Forall_forall. intros [k blk] Hin. apply elem_of_entries in Hin. by apply Hok. }
  assert (Hkeys : forall b, logged !! block_of b = None -> block_of b ∉ (entries logged).*1).
  { intros b Hn ([k blk] & Heq & Hin)%list_elem_of_fmap. cbn in Heq. subst k.
    apply elem_of_entries in Hin. congruence. }
  pose proof (fun b Hb => push_loop_out b (entries logged) d 0 Hall (Hkeys b Hb)) as Hout.
  pose proof (push_loop_total (entries logged) d 0) as Hnp.
  pose proof (push_loop_in (entries logged) d 0) as Hin.
  assert (Hsame : forall d', (forall b, logged !! block_of b = None -> dev_byte d' b = dev_byte d b) ->
    forall b, view d' logged b = view d logged b).
  { intros d' Hd b. unfold view. destruct (logged !! block_of b) eqn:E; [done|]. by apply Hd. }
  destruct (push_loop d (entries logged) 0) as [d1 [n|e|]] eqn:Ep; cbn [fst snd] in *; [| |done].
  2: { split; [by apply Hsame|done]. }
  destruct (Hin d1 n Hall (NoDup_entries _) eq_refl) as [Hn Hb].
  pose proof (dev_flush_total d1) as Hfp. pose proof (dev_flush_byte d1) as Hfb.
  destruct (dev_flush d1) as [d2 [[]|e|]]; cbn [fst snd] in *; [| |done].
  - assert (Hdev : forall b, dev_byte d2 b = view d logged b).
    { intros b. rewrite Hfb. unfold view. destruct (logged !! block_of b) as [blk|] eqn:E.
      - apply Hb. by apply elem_of_entries.
      - by apply Hout. }
    split; [intros b; unfold view at 1; by rewrite lookup_empty|].
    split; [done|]. split; [|done]. rewrite Hn. cbn [Nat.add]. unfold entries.
    by rewrite sort_by_Permutation, length_map_to_list.
  - split; [|done]. apply Hsame. intros b E. rewrite Hfb. by apply Hout.
Qed.

(** C20: pushing: whatever the device does, the mount reads the same bytes after
    the push as before it; when the push succeeds they are on the device and
    nothing is held any more, and when it fails everything is still held. *)
Theorem overlay_push_exact d logged :
  overlay_ok logged ->
  match push d logged with
  | (d', logged', r) =>
      (forall b, view d' logged' b = view d logged b) /\
      match r with
      | Ok n => logged' = ∅ /\ n = size logged /\ forall b, dev_byte d' b = view d logged b
      | Err _ => logged' = logged
      | Panic => False
      end
  end.
Proof. apply push_exact_spec. Qed.
End view.

(** ** A device in memory *)

Record MemDevice := mkMem { mem_bytes : bytes }.
Definition mem_fits (d : MemDevice) (off : Z) (n : nat) : bool :=
  (0 <=? off) && (off + Z.of_nat n <=? Z.of_nat (length (mem_bytes d))).
#[global] Instance mem_device : BlockDevice MemDevice := {|
  dev_read d off buf :=
    if mem_fits d off (length buf)
    then (slice (Z.to_nat off) (length buf) (mem_bytes d), Ok tt) else (buf, Err NotFound);
  dev_write d off bs :=
    if mem_fits d off (length bs)
    then (mkMem (splice (Z.to_nat off) bs (mem_bytes d)), Ok tt) else (d, Err NotFound);
  dev_flush d := (d, Ok tt);
  dev_size d := Z.of_nat (length (mem_bytes d));
|}.

Lemma mem_fits_true d off n :
  mem_fits d off n = true <-> 0 <= off /\ off + Z.of_nat n <= Z.of_nat (length (mem_bytes d)).
Proof. unfold mem_fits. by rewrite andb_true_iff, !Z.leb_le. Qed.

#[global] Instance mem_device_laws : BlockDeviceLaws MemDevice.
Proof.
  unshelve esplit; [exact (fun d b => if b <? 0 then x00 else byte_at (mem_bytes d) b)|..];
    cbn [dev_read dev_write dev_flush dev_size mem_device]; intros d.
  - intros off buf. destruct (mem_fits _ _ _) eqn:E; [|done]. apply mem_fits_true in E.
    cbn. apply length_slice. lia.
  - intros off buf. by case_match.
  - intros off buf buf'. destruct (mem_fits _ _ _) eqn:E; [|done]. apply mem_fits_true in E.
    intros [= <-] i Hi. rewrite (proj2 (Z.ltb_ge _ _)) by lia.
    rewrite lookup_slice, decide_True, byte_at_lookup by lia. do 2 f_equal. lia.
  - intros off bs. by case_match.
  - intros off bs d'. destruct (mem_fits _ _ _) eqn:E; [|done]. apply mem_fits_true in E.
    intros [= <-] i b Hi. rewrite (proj2 (Z.ltb_ge _ _)) by lia. cbn [mem_bytes].
    pose proof (lookup_lt_Some _ _ _ Hi). unfold byte_at.
    rewrite lookup_splice_in by lia. replace (_ - _)%nat with i by lia. by rewrite Hi.
  - intros off bs b Hb. destruct (mem_fits _ _ _) eqn:E; [|done]. apply mem_fits_true in E.
    cbn [fst mem_bytes]. destruct (Z.ltb_spec b 0); [done|]. unfold byte_at.
    rewrite lookup_splice_out by lia. done.
  - done.
  - done.
Defined.

Definition sample_device : MemDevice := mkMem (replicate 4096 x11).
Definition sample_logged : Overlay :=
  match wrote sample_device ∅ 1024 (replicate 700 x22) with Ok m => m | _ => ∅ end.

Lemma sample_logged_ok : overlay_ok sample_logged.
Proof.
  assert (Heq : sample_logged =
    <[1536 := replicate 188 x22 ++ replicate 324 x11]> (<[1024 := replicate 512 x22]> ∅))
    by (vm_compute; reflexivity).
  rewrite Heq. repeat (apply map_Forall_insert_2; [unfold held_ok, BB, BBSIZE; cbn [length replicate app]; split_and!; try done; lia|]).
  apply map_Forall_empty.
Qed.

Lemma overlay_read_exact_witness :
  exists buf, read_at sample_device sample_logged 1500 (replicate 300 x00) = Ok buf /\
    buf !! 10%nat = Some x22 /\ buf !! 290%nat = Some x11.
Proof.
  pose proof (overlay_read_exact sample_device sample_logged 1500 (replicate 300 x00)
    sample_logged_ok ltac:(lia) ltac:(rewrite length_replicate; lia)) as H.
  destruct (read_at sample_device sample_logged 1500 (replicate 300 x00)) as [buf|e|] eqn:E.
  - clear E. exists buf. split; [done|]. destruct H as [_ H]. rewrite length_replicate in H.
    rewrite !H by lia. split; vm_compute; reflexivity.
  - vm_compute in H. congruence.
  - done.
Defined.

Lemma overlay_wrote_exact_witness :
  exists m, wrote sample_device sample_logged 1536 (replicate 100 x33) = Ok m /\
    view sample_device m 1540 = x33 /\ view sample_device m 1700 = x22 /\ view sample_device m 1800 = x11.
Proof.
  pose proof (overlay_wrote_exact sample_device sample_logged 1536 (replicate 100 x33)
    sample_logged_ok ltac:(lia) ltac:(rewrite length_replicate; unfold BB; lia)) as H.
  destruct (wrote sample_device sample_logged 1536 (replicate 100 x33)) as [m|e|] eqn:E.
  - clear E. exists m. split; [done|]. destruct H as (_ & _ & H).
    { intros i Hi. right. rewrite length_replicate in Hi. cbn in Hi.
      assert (i = 0)%nat as -> by lia. vm_compute. reflexivity. }
    rewrite !H, length_replicate. rewrite decide_True, !decide_False by lia.
    split_and!; vm_compute; reflexivity.
  - exfalso. apply H. intros i Hi. right. rewrite length_replicate in Hi. cbn in Hi.
    assert (i = 0)%nat as -> by lia. vm_compute. reflexivity.
  - vm_compute in E. congruence.
Defined.

Lemma overlay_forget_exact_witness :
  exists m, forget sample_logged 1024 512 = Ok m /\ view sample_device m 1100 = x11.
Proof.
  destruct (overlay_forget_exact sample_device sample_logged 1024 512 sample_logged_ok
    ltac:(lia) ltac:(done) ltac:(done) ltac:(lia)) as (m & E & _ & H).
  exists m. split; [done|]. rewrite H, decide_True by lia. vm_compute. reflexivity.
Defined.

Lemma overlay_push_exact_witness :
  match push sample_device sample_logged with
  | (d, m, _) => view d m 1100 = x22
  end.
Proof.
  pose proof (overlay_push_exact sample_device sample_logged sample_logged_ok) as H.
  destruct (push sample_device sample_logged) as [[d m] r]. destruct H as [H _].
  rewrite H. vm_compute. reflexivity.
Defined.
