(* ===== verification/BufWrite.v ===== *)
(** * The buffer log item ([src/src/buf_write.rs])

    A block's bytes and a bitmap with one bit per 128-byte chunk; [edit]
    changes bytes and marks the chunks they touch, and [ops] turns the item
    into the operations a record carries.  The theorems say that an item logs
    every byte in which it differs from the block it was built on, in maximal
    runs; [LogRecover] shows that replaying the operations arrives at
    [image_as_written]. *)

From Stdlib Require Import ZArith Lia Strings.String Strings.Byte.
From stdpp Require Import base list sets strings.
From S2P Require Import Prelude Error Endian Crc32c Superblock Ag Agfl AgBtree Overlay.

(** [format::log_items::buf_log_format] *)
Definition BLF_HEADER_SIZE : nat := 20.
Definition BLF_CHUNK : nat := 128.
Module at_.
Definition TYPE : nat := 0.
Definition SIZE : nat := 2.
Definition FLAGS : nat := 4.
Definition LEN : nat := 6.
Definition BLKNO : nat := 8.
Definition MAP_SIZE : nat := 16.
Definition DATA_MAP : nat := 20.
End at_.
Definition BLF_INODE_BUF : Z := 0x001.
Definition BLF_CANCEL : Z := 0x002.
Definition BLF_FLAG_MASK : Z := 0x07ff.
Definition BLF_TYPE_SHIFT : Z := 11.
Definition BLFT_BTREE : Z := 4.
Definition BLFT_AGF : Z := 5.
Definition BLFT_AGFL : Z := 6.
Definition BLFT_AGI : Z := 7.
Definition BLFT_DINO : Z := 8.
Definition BLFT_SYMLINK : Z := 9.
Definition BLFT_DIR_BLOCK : Z := 10.
Definition BLFT_DIR_DATA : Z := 11.
Definition BLFT_DIR_FREE : Z := 12.
Definition BLFT_DIR_LEAF1 : Z := 13.
Definition BLFT_DIR_LEAFN : Z := 14.
Definition BLFT_DA_NODE : Z := 15.
Definition BLFT_ATTR_LEAF : Z := 16.
Definition BLFT_SB : Z := 18.
Definition BLFT_NONE : Z := 0.
(** [format::log_items::item_types] *)
Definition XFS_LI_BUF : Z := 0x123c.

(** Where the other block formats keep their checksum. *)
Definition XFS_BMAP_MAGIC : Z := 0x424d4150.
Definition XFS_BMAP_CRC_MAGIC : Z := 0x424d4133.
Definition bmbt_CRC : nat := 64.
Definition dir3_blk_CRC : nat := 4.
Definition da_blk_CRC : nat := 12.
Definition da_blkinfo_CRC : nat := 12.
Definition symlink_CRC : nat := 12.

Definition CHUNKS_PER_WORD : nat := 32.

Record BufferItem := mkItem {
  blkno : Z;
  buf_type : Z;
  flags : Z;
  data : bytes;
  dirty : list Z;
}.

Record Op := mkOp { op_flags : Z; op_data : bytes }.

Definition chunk_count (n : nat) : nat := div_ceil n BLF_CHUNK.

Definition new (blkno : Z) (data : bytes) (buf_type flags : Z) : res BufferItem :=
  assert ((length data mod BBSIZE =? 0)%nat && negb (length data =? 0)%nat);;
  let words := div_ceil (chunk_count (length data)) CHUNKS_PER_WORD in
  Ok (mkItem blkno buf_type (Z.land flags BLF_FLAG_MASK) data (replicate words 0)).

Definition cancel (blkno len_blocks : Z) : res BufferItem :=
  item ← new blkno (replicate (Z.to_nat len_blocks * BBSIZE) x00) BLFT_NONE BLF_CANCEL;
  Ok (mkItem (BufWrite.blkno item) (buf_type item) (flags item) (data item)
        ((fun _ => 0) <$> dirty item)).

(** [self.dirty[chunk / CHUNKS_PER_WORD] |= 1 << (chunk % CHUNKS_PER_WORD)] *)
Fixpoint mark_chunks (dirty : list Z) (chunks : list nat) : res (list Z) :=
  match chunks with
  | [] => Ok dirty
  | c :: chunks =>
      w ← expect (dirty !! (c / CHUNKS_PER_WORD)%nat);
      mark_chunks
        (<[(c / CHUNKS_PER_WORD)%nat := Z.lor w (Z.shiftl 1 (Z.of_nat (c mod CHUNKS_PER_WORD)))]> dirty)
        chunks
  end.

Definition with_dirty (item : BufferItem) (d : list Z) : BufferItem :=
  mkItem (blkno item) (buf_type item) (flags item) (data item) d.

Definition mark (item : BufferItem) (offset len : nat) : res BufferItem :=
  assert (offset + len <=? length (data item))%nat;;
  if (len =? 0)%nat then Ok item
  else
    let first := (offset / BLF_CHUNK)%nat in
    let last := ((offset + len - 1) / BLF_CHUNK)%nat in
    d ← mark_chunks (dirty item) (seq first (last + 1 - first));
    Ok (with_dirty item d).

Definition edit (item : BufferItem) (offset : nat) (bs : bytes) : res BufferItem :=
  assert (offset + length bs <=? length (data item))%nat;;
  if (length bs =? 0)%nat then Ok item
  else
    d ← copy_at offset bs (data item);
    mark (mkItem (blkno item) (buf_type item) (flags item) d (dirty item)) offset (length bs).

Definition is_dirty (item : BufferItem) (chunk : nat) : res bool :=
  w ← expect (dirty item !! (chunk / CHUNKS_PER_WORD)%nat);
  Ok (negb (Z.land w (Z.shiftl 1 (Z.of_nat (chunk mod CHUNKS_PER_WORD))) =? 0)).

(** The loop that finds maximal runs, shared in shape by
    [BufferItem::runs] and [log_recover::runs_of]. *)
Section scan.
Context (p : nat -> res bool) (end_ : nat).

(** [while k < end && p(k) { k += 1 }] *)
Fixpoint run_end (fuel k : nat) : res nat :=
  match fuel with
  | O => Ok k
  | S fuel =>
      if (k <? end_)%nat
      then b ← p k; if b : bool then run_end fuel (k + 1) else Ok k
      else Ok k
  end.

Fixpoint scan (fuel k : nat) : res (list (nat * nat)) :=
  match fuel with
  | O => Ok []
  | S fuel =>
      if (k <? end_)%nat then
        b ← p k;
        if b : bool then
          e ← run_end (end_ - k) k;
          rest ← scan fuel e;
          Ok ((k, (e - k)%nat) :: rest)
        else scan fuel (k + 1)
      else Ok []
  end.

(** Every turn of the loop moves past at least one chunk. *)
Definition maximal_runs : res (list (nat * nat)) := scan (S end_) 0.
End scan.

Definition runs (item : BufferItem) : res (list (nat * nat)) :=
  maximal_runs (is_dirty item) (chunk_count (length (data item))).

Definition u16_try_from (n : nat) : res Z :=
  assert (Z.of_nat n <? 2 ^ 16);; Ok (Z.of_nat n).

Fixpoint put_words (v : bytes) (i : nat) (ws : list Z) : res bytes :=
  match ws with
  | [] => Ok v
  | w :: ws => v ← copy_at (at_.DATA_MAP + i * 4) (to_le_bytes 4 w) v; put_words v (S i) ws
  end.

Definition format_op (item : BufferItem) (runs : list (nat * nat)) : res bytes :=
  let map_words := length (dirty item) in
  let v := replicate (BLF_HEADER_SIZE + 4 * map_words) x00 in
  v ← copy_at at_.TYPE (to_le_bytes 2 XFS_LI_BUF) v;
  size ← u16_try_from (1 + length runs);
  v ← copy_at at_.SIZE (to_le_bytes 2 size) v;
  let flags := Z.lor (flags item) (wrap 16 (Z.shiftl (buf_type item) BLF_TYPE_SHIFT)) in
  v ← copy_at at_.FLAGS (to_le_bytes 2 flags) v;
  len ← u16_try_from (length (data item) / BBSIZE);
  v ← copy_at at_.LEN (to_le_bytes 2 len) v;
  v ← copy_at at_.BLKNO (to_le_bytes 8 (blkno item)) v;
  v ← copy_at at_.MAP_SIZE (to_le_bytes 4 (wrap 32 (Z.of_nat map_words))) v;
  put_words v 0 (dirty item).

Definition run_op (data : bytes) (run : nat * nat) : res Op :=
  let '(start, len) := run in
  d ← get_slice (start * BLF_CHUNK) (len * BLF_CHUNK) data;
  Ok (mkOp 0 d).

Definition ops (item : BufferItem) : res (list Op) :=
  rs ← runs item;
  f ← format_op item rs;
  l ← res_map (run_op (data item)) rs;
  Ok (mkOp 0 f :: l).

Definition op_count (item : BufferItem) : res nat :=
  rs ← runs item; Ok (1 + length rs)%nat.

Section image.
Context `{Crc : Crc32c}.

(** Where the checksum of this buffer's kind of block lives, if it has one. *)
Definition crc_offset (item : BufferItem) : option nat :=
  let t := buf_type item in
  let magic := match be32 (data item) 0 with Ok m => m | _ => 0 end in
  let version := match be16 (data item) Superblock.offsets.VERSIONNUM with Ok v => v | _ => 0 end in
  if t =? BLFT_AGF then Some Ag.agf.CRC
  else if t =? BLFT_AGI then Some Ag.agi.CRC
  else if t =? BLFT_AGFL then Some Agfl.offsets.CRC
  else if t =? BLFT_BTREE then
    if (4 <=? length (data item))%nat && (magic =? XFS_BMAP_CRC_MAGIC)
    then Some bmbt_CRC else Some AgBtree.offsets.CRC
  else if t =? BLFT_DIR_BLOCK then Some dir3_blk_CRC
  else if t =? BLFT_DIR_DATA then Some dir3_blk_CRC
  else if t =? BLFT_DIR_LEAF1 then Some da_blk_CRC
  else if (t =? BLFT_DIR_LEAFN) || (t =? BLFT_DA_NODE) then Some da_blk_CRC
  else if t =? BLFT_DIR_FREE then Some dir3_blk_CRC
  else if t =? BLFT_ATTR_LEAF then Some da_blkinfo_CRC
  else if t =? BLFT_SYMLINK then Some symlink_CRC
  else if (t =? BLFT_SB) && (Superblock.offsets.VERSIONNUM + 1 <? length (data item))%nat &&
          (Z.land version XFS_SB_VERSION_NUMBITS =? 5)
  then Some SB_CRC_OFFSET
  else None.

(** [out[at..at + 4]] restamped, where the buffer reaches that far. *)
Definition restamp (at_ : nat) (out : bytes) : res bytes :=
  if (length out <? at_ + 4)%nat then Ok out
  else
    crc ← crc32c_with_zeroed_crc out at_;
    copy_at at_ (to_le_bytes 4 crc) out.

Definition image_as_written (item : BufferItem) : res bytes :=
  match crc_offset item with
  | None => Ok (data item)
  | Some at_ => restamp at_ (data item)
  end.
End image.

(** ** The bitmap *)

Definition dirty_bit (dirty : list Z) (c : nat) : bool :=
  match dirty !! (c / CHUNKS_PER_WORD)%nat with
  | Some w => Z.testbit w (Z.of_nat (c mod CHUNKS_PER_WORD))
  | None => false
  end.

Record item_ok (item : BufferItem) : Prop := {
  io_blocks : (length (data item) mod BBSIZE = 0)%nat;
  io_some : (0 < length (data item))%nat;
  io_words : length (dirty item) = div_ceil (chunk_count (length (data item))) CHUNKS_PER_WORD;
  io_dirty : Forall (in_u 32) (dirty item);
}.

Lemma land_bit w k : 0 <= k -> negb (Z.land w (Z.shiftl 1 k) =? 0) = Z.testbit w k.
Proof.
  intros Hk. destruct (Z.testbit w k) eqn:E.
  - apply negb_true_iff, Z.eqb_neq. intros H0.
    assert (Z.testbit (Z.land w (Z.shiftl 1 k)) k = true) as Ht.
    { rewrite Z.land_spec, E, Z.shiftl_spec, Z.sub_diag by lia. done. }
    by rewrite H0, Z.bits_0 in Ht.
  - apply negb_false_iff, Z.eqb_eq. apply Z.bits_inj'. intros i Hi.
    rewrite Z.land_spec, Z.bits_0, Z.shiftl_spec by done.
    destruct (decide (i = k)) as [->|]; [by rewrite E|].
    replace (Z.testbit 1 (i - k)) with false; [apply andb_false_r|].
    symmetry. destruct (decide (i < k)); [by apply Z.testbit_neg_r; lia|].
    change 1 with (2 ^ 0). apply Z.pow2_bits_false. lia.
Qed.

Lemma set_bit w k i : 0 <= k -> 0 <= i ->
  Z.testbit (Z.lor w (Z.shiftl 1 k)) i = Z.testbit w i || (i =? k).
Proof.
  intros Hk Hi. rewrite Z.lor_spec, Z.shiftl_spec by done. f_equal.
  destruct (Z.eqb_spec i k) as [->|]; [by rewrite Z.sub_diag|].
  destruct (decide (i < k)); [by apply Z.testbit_neg_r; lia|].
  change 1 with (2 ^ 0). apply Z.pow2_bits_false. lia.
Qed.

Lemma set_bit_range w k : in_u 32 w -> 0 <= k < 32 -> in_u 32 (Z.lor w (Z.shiftl 1 k)).
Proof.
  intros [H0 H1] Hk. unfold in_u in *. rewrite Z.shiftl_1_l.
  assert (0 < 2 ^ k) by (apply Z.pow_pos_nonneg; lia).
  assert (2 ^ k < 2 ^ 32) by (apply Z.pow_lt_mono_r; lia).
  assert (0 <= Z.lor w (2 ^ k)) by (apply Z.lor_nonneg; lia). split; [done|].
  destruct (decide (Z.lor w (2 ^ k) = 0)); [lia|]. apply Z.log2_lt_pow2; [lia|].
  rewrite Z.log2_lor, Z.log2_pow2 by lia.
  destruct (decide (w = 0)) as [->|]; [change (Z.log2 0) with 0; lia|].
  assert (Z.log2 w < 32) by (apply Z.log2_lt_pow2; lia). lia.
Qed.

Lemma is_dirty_Ok item c :
  (c / CHUNKS_PER_WORD < length (dirty item))%nat -> is_dirty item c = Ok (dirty_bit (dirty item) c).
Proof.
  intros H. unfold is_dirty, dirty_bit.
  destruct (lookup_lt_is_Some_2 _ _ H) as [w ->]. cbn [expect mbind res_bind].
  rewrite land_bit by lia. done.
Qed.

Lemma words_cover item c :
  item_ok item -> (c < chunk_count (length (data item)))%nat ->
  (c / CHUNKS_PER_WORD < length (dirty item))%nat.
Proof.
  intros Hok Hc. rewrite (io_words _ Hok).
  pose proof (div_ceil_bounds (chunk_count (length (data item))) CHUNKS_PER_WORD ltac:(unfold CHUNKS_PER_WORD; lia)).
  apply Nat.Div0.div_lt_upper_bound. lia.
Qed.

Lemma mark_chunks_spec chunks : forall dirty,
  Forall (fun c => (c / CHUNKS_PER_WORD < length dirty)%nat) chunks -> Forall (in_u 32) dirty ->
  exists dirty', mark_chunks dirty chunks = Ok dirty' /\ length dirty' = length dirty /\
    Forall (in_u 32) dirty' /\
    forall c, dirty_bit dirty' c = true <-> dirty_bit dirty c = true \/ c ∈ chunks.
Proof.
  induction chunks as [|c chunks IH]; intros dirty Hc Hd; cbn [mark_chunks].
  { exists dirty. split_and!; try done. set_solver. }
  rewrite Forall_cons in Hc. destruct Hc as [Hc Hcs].
  destruct (lookup_lt_is_Some_2 _ _ Hc) as [w Hw]. rewrite Hw. cbn [expect mbind res_bind].
  set (d1 := <[_ := _]> dirty).
  assert (L1 : length d1 = length dirty) by apply length_insert.
  assert (Hmod : (c mod CHUNKS_PER_WORD < 32)%nat) by (by apply Nat.mod_upper_bound).
  destruct (IH d1) as (d2 & E & L2 & R2 & B2); [by rewrite L1| |].
  { apply Forall_insert; [done|]. apply set_bit_range; [|lia]. by eapply Forall_lookup_1. }
  exists d2. split; [done|]. split; [congruence|]. split; [done|].
  intros x. rewrite B2, elem_of_cons.
  assert (dirty_bit d1 x = true <-> dirty_bit dirty x = true \/ x = c) as ->; [|tauto].
  unfold dirty_bit, d1.
  destruct (decide (c / CHUNKS_PER_WORD = x / CHUNKS_PER_WORD)%nat) as [Heq|Hne].
  - rewrite <- Heq, list_lookup_insert_eq, Hw, set_bit, orb_true_iff, Z.eqb_eq by (done || lia).
    pose proof (Nat.div_mod_eq c CHUNKS_PER_WORD). pose proof (Nat.div_mod_eq x CHUNKS_PER_WORD).
    assert (Z.of_nat (x mod CHUNKS_PER_WORD) = Z.of_nat (c mod CHUNKS_PER_WORD) <-> x = c); [|tauto].
    split; [|by intros ->]. intros Hm. rewrite <- Heq in *. lia.
  - rewrite list_lookup_insert_ne by done. split; [tauto|]. intros [?| ->]; [done|congruence].
Qed.

(** ** Editing *)

(** Chunk [c] is one the range touches. *)
Definition touches (offset len c : nat) : Prop :=
  exists i, (offset <= i < offset + len)%nat /\ c = (i / BLF_CHUNK)%nat.

Lemma touches_seq offset len c :
  len <> 0%nat ->
  c ∈ seq (offset / BLF_CHUNK) ((offset + len - 1) / BLF_CHUNK + 1 - offset / BLF_CHUNK) <->
  touches offset len c.
Proof.
  intros Hl. rewrite elem_of_seq. unfold touches, BLF_CHUNK.
  assert ((offset / 128 <= (offset + len - 1) / 128)%nat) by (apply Nat.Div0.div_le_mono; lia).
  pose proof (Nat.div_mod_eq offset 128). pose proof (Nat.mod_upper_bound offset 128 ltac:(lia)).
  pose proof (Nat.div_mod_eq (offset + len - 1) 128).
  pose proof (Nat.mod_upper_bound (offset + len - 1) 128 ltac:(lia)). split.
  - intros Hc. exists (Nat.max offset (c * 128)).
    split; [lia|]. destruct (decide (c * 128 <= offset)%nat).
    + rewrite Nat.max_l by lia. nia.
    + rewrite Nat.max_r by lia. by rewrite Nat.div_mul.
  - intros (i & Hi & ->). pose proof (Nat.div_mod_eq i 128).
    pose proof (Nat.mod_upper_bound i 128 ltac:(lia)). nia.
Qed.

Lemma mark_spec item offset len :
  item_ok item -> (offset + len <= length (data item))%nat ->
  exists item', mark item offset len = Ok item' /\ item_ok item' /\ data item' = data item /\
    blkno item' = blkno item /\ buf_type item' = buf_type item /\ flags item' = flags item /\
    forall c, dirty_bit (dirty item') c = true <-> dirty_bit (dirty item) c = true \/ touches offset len c.
Proof.
  intros Hok Hr. unfold mark. rewrite (proj2 (Nat.leb_le _ _)) by done. cbn [assert mbind res_bind].
  destruct (Nat.eqb_spec len 0) as [->|Hl].
  { exists item. split_and!; try done. intros c. split; [tauto|]. intros [?|(i & ? & _)]; [done|lia]. }
  destruct (mark_chunks_spec (seq (offset / BLF_CHUNK) ((offset + len - 1) / BLF_CHUNK + 1 - offset / BLF_CHUNK))
    (dirty item)) as (d & -> & L & R & B).
  { apply Forall_forall. intros c Hc. rewrite touches_seq in Hc by done.
    destruct Hc as (i & Hi & ->). apply words_cover; [done|]. unfold chunk_count.
    pose proof (div_ceil_bounds (length (data item)) BLF_CHUNK ltac:(unfold BLF_CHUNK; lia)).
    apply Nat.Div0.div_lt_upper_bound. lia. }
  { apply Hok. }
  cbn [mbind res_bind]. exists (with_dirty item d). split; [done|].
  split; [destruct Hok; split; cbn [data dirty with_dirty]; [done|done|by rewrite L|done]|]. split_and!; try done.
  intros c. cbn [dirty with_dirty]. by rewrite B, touches_seq.
Qed.

Lemma edit_spec item offset bs :
  item_ok item -> (offset + length bs <= length (data item))%nat ->
  exists item', edit item offset bs = Ok item' /\ item_ok item' /\
    data item' = splice offset bs (data item) /\
    blkno item' = blkno item /\ buf_type item' = buf_type item /\ flags item' = flags item /\
    forall c, dirty_bit (dirty item') c = true <->
      dirty_bit (dirty item) c = true \/ touches offset (length bs) c.
Proof.
  intros Hok Hr. unfold edit. rewrite (proj2 (Nat.leb_le _ _)) by done. cbn [assert mbind res_bind].
  destruct (Nat.eqb_spec (length bs) 0) as [Hl|Hl].
  { apply nil_length_inv in Hl as ->. exists item. split_and!; try done.
    - unfold splice. cbn [app length]. by rewrite Nat.add_0_r, take_drop.
    - intros c. split; [tauto|]. intros [?|(i & ? & _)]; [done|cbn in *; lia]. }
  rewrite copy_at_Ok by done. cbn [mbind res_bind].
  set (item1 := mkItem _ _ _ _ _).
  assert (Hlen : length (data item1) = length (data item)) by (cbn; by apply length_splice).
  assert (item_ok item1) as Hok1.
  { destruct Hok; split; rewrite ?Hlen; done. }
  destruct (mark_spec item1 offset (length bs) Hok1) as (item' & E & Hok' & Hd & Hb & Ht & Hf & B);
    [by rewrite Hlen|].
  exists item'. split_and!; try done.
Qed.

Lemma new_spec blk base ty fl :
  (length base mod BBSIZE = 0)%nat -> (0 < length base)%nat ->
  exists item, new blk base ty fl = Ok item /\ item_ok item /\ data item = base /\
    blkno item = blk /\ buf_type item = ty /\ flags item = Z.land fl BLF_FLAG_MASK /\
    forall c, dirty_bit (dirty item) c = false.
Proof.
  intros Hm Hl. unfold new. rewrite (proj2 (Nat.eqb_eq _ _)), (proj2 (Nat.eqb_neq _ _)) by lia.
  cbn [negb andb assert mbind res_bind]. eexists. split; [done|]. split.
  - split; cbn [data dirty]; try done; [apply length_replicate|].
    apply Forall_replicate. unfold in_u. lia.
  - split_and!; try done. intros c. cbn [dirty]. unfold dirty_bit.
    destruct (replicate _ _ !! _) as [w|] eqn:E; [|done].
    apply lookup_replicate in E as [-> _]. apply Z.bits_0.
Qed.

(** A series of edits, each on what the one before it left. *)
Fixpoint edit_all (item : BufferItem) (edits : list (nat * bytes)) : res BufferItem :=
  match edits with
  | [] => Ok item
  | (offset, bs) :: edits => item ← edit item offset bs; edit_all item edits
  end.
Definition splice_all (base : bytes) (edits : list (nat * bytes)) : bytes :=
  foldl (fun b e => splice e.1 e.2 b) base edits.
Definition in_bounds (base : bytes) (e : nat * bytes) : Prop := (e.1 + length e.2 <= length base)%nat.

Lemma edit_all_spec edits : forall item,
  item_ok item -> Forall (in_bounds (data item)) edits ->
  exists item', edit_all item edits = Ok item' /\ item_ok item' /\
    data item' = splice_all (data item) edits /\ length (data item') = length (data item) /\
    blkno item' = blkno item /\ buf_type item' = buf_type item /\ flags item' = flags item /\
    (forall c, dirty_bit (dirty item') c = true <->
       dirty_bit (dirty item) c = true \/ exists e, e ∈ edits /\ touches e.1 (length e.2) c) /\
    (forall i, data item' !! i <> data item !! i -> dirty_bit (dirty item') (i / BLF_CHUNK) = true).
Proof.
  induction edits as [|[off bs] edits IH]; intros item Hok Hb; cbn [edit_all].
  { exists item. split_and!; try done. set_solver. }
  rewrite Forall_cons in Hb. destruct Hb as [Hb Hbs]. unfold in_bounds in Hb; cbn [fst snd] in Hb.
  destruct (edit_spec item off bs Hok Hb) as (i1 & -> & Hok1 & D1 & B1 & T1 & F1 & X1).
  cbn [mbind res_bind].
  assert (L1 : length (data i1) = length (data item)) by (rewrite D1; by apply length_splice).
  destruct (IH i1 Hok1) as (i2 & E & Hok2 & D2 & L2 & B2 & T2 & F2 & X2 & C2).
  { unfold in_bounds in *. by rewrite L1. }
  exists i2. split_and!; try done; try congruence.
  - rewrite D2, D1. done.
  - intros c. rewrite X2, X1. split.
    + intros [[?|?]|(e & ? & ?)]; [by left|right; exists (off, bs); set_solver|right; exists e; set_solver].
    + intros [?|(e & [->|He]%elem_of_cons & Ht)]; [by left; left|by left; right|right; by exists e].
  - intros i Hd. destruct (decide (data i2 !! i = data i1 !! i)) as [Heq|Hne]; [|by apply C2].
    apply X2. left. apply X1. right. exists i. split; [|done].
    destruct (decide (off <= i < off + length bs)%nat); [done|].
    exfalso. apply Hd. rewrite Heq, D1. apply lookup_splice_out; [done|lia].
Qed.

(** An item built on a block and edited: its bytes are the block's with the
    edits written in order, the chunks it will log are exactly those an edit
    touched, and every byte that differs from the block is in one of them. *)
Theorem edits_logged blk base ty fl edits :
  (length base mod BBSIZE = 0)%nat -> (0 < length base)%nat -> Forall (in_bounds base) edits ->
  exists item, (new blk base ty fl ≫= fun i => edit_all i edits) = Ok item /\
    data item = splice_all base edits /\
    (forall c, dirty_bit (dirty item) c = true <-> exists e, e ∈ edits /\ touches e.1 (length e.2) c) /\
    (forall i, data item !! i <> base !! i -> dirty_bit (dirty item) (i / BLF_CHUNK) = true).
Proof.
  intros Hm Hl Hb. destruct (new_spec blk base ty fl Hm Hl) as (i0 & -> & Hok & D & _ & _ & _ & X).
  cbn [mbind res_bind]. destruct (edit_all_spec edits i0 Hok) as (i1 & -> & _ & D1 & _ & _ & _ & _ & X1 & C1).
  { by rewrite D. }
  exists i1. rewrite D in *. split_and!; try done.
  intros c. rewrite X1, X. naive_solver.
Qed.

(** ** The runs *)

(** [l] lists the maximal runs of [q] in [k .. end_), in order. *)
Fixpoint is_runs (q : nat -> bool) (k end_ : nat) (l : list (nat * nat)) : Prop :=
  match l with
  | [] => forall j, (k <= j < end_)%nat -> q j = false
  | (s, n) :: l =>
      (k <= s)%nat /\ (0 < n)%nat /\ (s + n <= end_)%nat /\
      (forall j, (k <= j < s)%nat -> q j = false) /\
      (forall j, (s <= j < s + n)%nat -> q j = true) /\
      ((s + n < end_)%nat -> q (s + n)%nat = false) /\
      is_runs q (s + n) end_ l
  end.

Section scan_proofs.
Context (p : nat -> res bool) (q : nat -> bool) (end_ : nat).
Context (Hp : forall j, (j < end_)%nat -> p j = Ok (q j)).

Lemma run_end_spec fuel : forall k,
  (end_ - k <= fuel)%nat -> (k <= end_)%nat ->
  exists e, run_end p end_ fuel k = Ok e /\ (k <= e <= end_)%nat /\
    (forall j, (k <= j < e)%nat -> q j = true) /\ ((e < end_)%nat -> q e = false).
Proof.
  induction fuel as [|fuel IH]; intros k Hf Hk; cbn [run_end].
  { exists k. split_and!; try done; try lia. }
  destruct (Nat.ltb_spec k end_); [|exists k; split_and!; try done; lia].
  rewrite Hp by done. cbn [mbind res_bind]. destruct (q k) eqn:E.
  - destruct (IH (k + 1)%nat) as (e & -> & He & Hin & Hout); [lia..|].
    exists e. split; [done|]. split; [lia|]. split; [|done]. intros j Hj.
    destruct (decide (j = k)) as [->|]; [done|]. apply Hin. lia.
  - exists k. split_and!; try done; lia.
Qed.

Lemma is_runs_skip k l : q k = false -> is_runs q (k + 1) end_ l -> is_runs q k end_ l.
Proof.
  intros Hk. destruct l as [|[s n] l]; cbn [is_runs].
  - intros H j Hj. destruct (decide (j = k)) as [->|]; [done|]. apply H. lia.
  - intros (? & ? & ? & H & ? & ? & ?). split_and!; try done; try lia.
    intros j Hj. destruct (decide (j = k)) as [->|]; [done|]. apply H. lia.
Qed.

Lemma scan_spec fuel : forall k,
  (end_ - k < fuel)%nat -> exists l, scan p end_ fuel k = Ok l /\ is_runs q k end_ l.
Proof.
  induction fuel as [|fuel IH]; intros k Hf; [lia|]. cbn [scan].
  destruct (Nat.ltb_spec k end_).
  2: { exists []. split; [done|]. cbn. lia. }
  rewrite Hp by done. cbn [mbind res_bind]. destruct (q k) eqn:E.
  - destruct (run_end_spec (end_ - k) k) as (e & -> & He & Hin & Hout); [lia..|].
    cbn [mbind res_bind].
    assert (k < e)%nat.
    { destruct (decide (k = e)) as [<-|]; [|lia]. specialize (Hout ltac:(lia)). congruence. }
    destruct (IH e) as (l & -> & Hl); [lia|]. eexists. split; [done|]. cbn [is_runs].
    replace (k + (e - k))%nat with e by lia. split_and!; try done; try lia.
  - destruct (IH (k + 1)%nat) as (l & -> & Hl); [lia|]. exists l. split; [done|]. by apply is_runs_skip.
Qed.
End scan_proofs.

Lemma is_runs_length q end_ l : forall k, (k <= end_)%nat -> is_runs q k end_ l -> (length l <= end_ - k)%nat.
Proof.
  induction l as [|[s n] l IH]; intros k Hk; cbn [is_runs length]; [lia|].
  intros (? & ? & ? & _ & _ & _ & H). apply IH in H; lia.
Qed.

Lemma is_runs_elem q end_ l s n : forall k,
  is_runs q k end_ l -> (s, n) ∈ l -> (k <= s)%nat /\ (0 < n)%nat /\ (s + n <= end_)%nat.
Proof.
  induction l as [|[s' n'] l IH]; intros k; cbn [is_runs]; [set_solver|].
  intros (? & ? & ? & _ & _ & _ & H) [[= -> ->]|Hin]%elem_of_cons; [lia|].
  destruct (IH _ H Hin). lia.
Qed.

(** What is dirty is what the runs cover. *)
Lemma is_runs_cover q end_ l j : forall k,
  is_runs q k end_ l -> (k <= j < end_)%nat ->
  q j = true <-> exists s n, (s, n) ∈ l /\ (s <= j < s + n)%nat.
Proof.
  induction l as [|[s n] l IH]; intros k; cbn [is_runs].
  - intros H Hj. rewrite (H j Hj). split; [done|]. set_solver.
  - intros (? & ? & ? & Hlo & Hin & Hmax & H) Hj.
    destruct (decide (j < s)%nat).
    { rewrite Hlo by lia. split; [done|]. intros (s' & n' & [[= -> ->]|Hel]%elem_of_cons & ?); [lia|].
      apply (is_runs_elem _ _ _ _ _ _ H) in Hel. lia. }
    destruct (decide (j < s + n)%nat).
    { rewrite Hin by lia. split; [|done]. intros _. exists s, n. split; [set_solver|lia]. }
    rewrite (IH _ H) by lia. split; intros (s' & n' & Hel & ?); exists s', n'; (split; [|done]).
    + set_solver.
    + apply elem_of_cons in Hel as [[= -> ->]|]; [lia|done].
Qed.

Lemma runs_spec item :
  item_ok item ->
  exists l, runs item = Ok l /\
    is_runs (dirty_bit (dirty item)) 0 (chunk_count (length (data item))) l.
Proof.
  intros Hok. apply scan_spec; [|lia]. intros j Hj. by apply is_dirty_Ok, words_cover.
Qed.

(** The data operations of an item are the maximal runs of its dirty chunks:
    in ascending order, none empty, none touching the next, and together they
    hold every dirty chunk and no clean one. *)
Theorem runs_exact item :
  item_ok item ->
  exists l, runs item = Ok l /\ op_count item = Ok (1 + length l)%nat /\
    is_runs (dirty_bit (dirty item)) 0 (chunk_count (length (data item))) l /\
    forall c, (c < chunk_count (length (data item)))%nat ->
      dirty_bit (dirty item) c = true <-> exists s n, (s, n) ∈ l /\ (s <= c < s + n)%nat.
Proof.
  intros Hok. destruct (runs_spec item Hok) as (l & E & Hl). exists l.
  split; [done|]. split; [unfold op_count; by rewrite E|]. split; [done|].
  intros c Hc. apply (is_runs_cover _ _ _ _ _ Hl). lia.
Qed.

(** ** The operations *)

Lemma put_words_spec ws : forall i pre v,
  length pre = (20 + 4 * i)%nat -> (length pre + 4 * length ws <= length v)%nat ->
  put_words (splice 0 pre v) i ws = Ok (splice 0 (pre ++ concat (to_le_bytes 4 <$> ws)) v).
Proof.
  induction ws as [|w ws IH]; intros i pre v Hp Hv; cbn [put_words length] in *.
  { cbn. by rewrite app_nil_r. }
  rewrite copy_at_after by (rewrite ?length_to_le_bytes; unfold at_.DATA_MAP; lia).
  cbn [mbind res_bind]. rewrite IH by (rewrite length_app, length_to_le_bytes; lia).
  cbn. by rewrite <- app_assoc.
Qed.

(** The format operation, byte for byte. *)
Definition format_bytes (item : BufferItem) (nruns : nat) : bytes :=
  to_le_bytes 2 XFS_LI_BUF ++ to_le_bytes 2 (Z.of_nat (1 + nruns)) ++
  to_le_bytes 2 (Z.lor (flags item) (wrap 16 (Z.shiftl (buf_type item) BLF_TYPE_SHIFT))) ++
  to_le_bytes 2 (Z.of_nat (length (data item) / BBSIZE)) ++
  to_le_bytes 8 (blkno item) ++ to_le_bytes 4 (wrap 32 (Z.of_nat (length (dirty item)))) ++
  concat (to_le_bytes 4 <$> dirty item).

Lemma length_concat_words ws : length (concat (to_le_bytes 4 <$> ws)) = (4 * length ws)%nat.
Proof.
  induction ws as [|w ws IH]; cbn [fmap list_fmap concat length]; [done|].
  rewrite length_app, length_to_le_bytes. change (list_fmap _ _ (to_le_bytes 4) ws) with (to_le_bytes 4 <$> ws).
  rewrite IH. lia.
Qed.

Lemma length_format_bytes item n :
  length (format_bytes item n) = (BLF_HEADER_SIZE + 4 * length (dirty item))%nat.
Proof. unfold format_bytes. rewrite !length_app, !length_to_le_bytes, length_concat_words. done. Qed.

Lemma splice_all_bytes {A} (bs l : list A) : length bs = length l -> splice 0 bs l = bs.
Proof.
  intros H. unfold splice. rewrite take_0, drop_ge by lia. by rewrite app_nil_r.
Qed.

Lemma format_op_Ok item rs :
  Z.of_nat (1 + length rs) < 2 ^ 16 -> Z.of_nat (length (data item) / BBSIZE) < 2 ^ 16 ->
  format_op item rs = Ok (format_bytes item (length rs)).
Proof.
  intros Hr Hl. unfold format_op.
  set (v := replicate _ _).
  assert (Hv : length v = (20 + 4 * length (dirty item))%nat) by apply length_replicate.
  unfold u16_try_from. rewrite !(proj2 (Z.ltb_lt _ _)) by done.
  unfold at_.TYPE, at_.SIZE, at_.FLAGS, at_.LEN, at_.BLKNO, at_.MAP_SIZE.
  rewrite copy_at_Ok by (rewrite length_to_le_bytes; lia). cbn [assert mbind res_bind].
  do 5 (rewrite copy_at_after by (rewrite ?length_app, !length_to_le_bytes; lia); cbn [assert mbind res_bind]).
  rewrite put_words_spec by (rewrite !length_app, !length_to_le_bytes; lia).
  f_equal. rewrite splice_all_bytes.
  - unfold format_bytes. by rewrite <- !app_assoc.
  - rewrite !length_app, !length_to_le_bytes, length_concat_words. lia.
Qed.

(** The bytes of a run. *)
Definition run_bytes (data : bytes) (run : nat * nat) : bytes :=
  slice (run.1 * BLF_CHUNK) (run.2 * BLF_CHUNK) data.

Lemma chunks_exact item : item_ok item ->
  (chunk_count (length (data item)) * BLF_CHUNK = length (data item))%nat.
Proof.
  intros [Hm _ _ _]. unfold chunk_count, div_ceil, BLF_CHUNK, BBSIZE in *.
  apply Nat.Lcm0.mod_divide in Hm as [k Hk]. rewrite Hk.
  replace (k * 512 + 128 - 1)%nat with (127 + (k * 4) * 128)%nat by lia.
  rewrite Nat.div_add by done. cbn. lia.
Qed.

Lemma ops_spec item :
  item_ok item -> Z.of_nat (length (data item)) <= 2 ^ 22 ->
  exists rs, ops item = Ok (mkOp 0 (format_bytes item (length rs)) :: (mkOp 0 ∘ run_bytes (data item) <$> rs)) /\
    runs item = Ok rs /\ is_runs (dirty_bit (dirty item)) 0 (chunk_count (length (data item))) rs /\
    Z.of_nat (1 + length rs) < 2 ^ 16 /\ Z.of_nat (length (data item) / BBSIZE) < 2 ^ 16.
Proof.
  intros Hok Hsz. destruct (runs_spec item Hok) as (rs & E & Hrs). exists rs.
  pose proof (chunks_exact item Hok) as Hch. unfold BLF_CHUNK in Hch.
  pose proof (is_runs_length _ _ _ 0 ltac:(lia) Hrs).
  assert (Z.of_nat (1 + length rs) < 2 ^ 16) by lia.
  assert (Z.of_nat (length (data item) / BBSIZE) < 2 ^ 16).
  { rewrite Nat2Z.inj_div. apply Z.div_lt_upper_bound; [done|]. change (Z.of_nat BBSIZE) with 512. lia. }
  split_and!; try done. unfold ops. rewrite E. cbn [mbind res_bind]. rewrite format_op_Ok by done.
  cbn [mbind res_bind].
  assert (res_map (run_op (data item)) rs = Ok (mkOp 0 ∘ run_bytes (data item) <$> rs)) as ->; [|done].
  pose proof (fun s n => is_runs_elem _ _ _ s n _ Hrs) as Hel. clear E Hrs. 
  induction rs as [|[s n] rs IH]; [done|]. cbn [res_map run_op].
  destruct (Hel s n) as (_ & ? & ?); [set_solver|].
  rewrite get_slice_Ok by (unfold BLF_CHUNK; lia). cbn [mbind res_bind].
  rewrite IH; [done|cbn [length] in *; lia..|]. intros. apply Hel. set_solver.
Qed.

(** ** An item with two runs *)

Definition sample_base : bytes := replicate 1024 x11.
Definition sample_edits : list (nat * bytes) := [(126%nat, [x22; x22; x22; x22]); (900%nat, [x33])].
Definition sample_item : BufferItem :=
  match new 8 sample_base BLFT_AGF 0 ≫= fun i => edit_all i sample_edits with
  | Ok item => item
  | _ => mkItem 0 0 0 [] []
  end.

Lemma edits_logged_witness :
  exists item, (new 8 sample_base BLFT_AGF 0 ≫= fun i => edit_all i sample_edits) = Ok item /\
    dirty_bit (dirty item) 7 = true /\ dirty_bit (dirty item) 2 = false.
Proof.
  destruct (edits_logged 8 sample_base BLFT_AGF 0 sample_edits) as (item & E & _ & X & C).
  - vm_compute. reflexivity.
  - unfold sample_base. rewrite length_replicate. lia.
  - unfold sample_base, in_bounds. repeat constructor; rewrite length_replicate; cbn; lia.
  - exists item. split; [done|]. split.
    + apply X. exists (900%nat, [x33]). split; [set_solver|]. exists 900%nat. split; [cbn; lia|done].
    + apply not_true_iff_false. rewrite X. intros (e & He & i & Hi & Hc).
      unfold sample_edits, BLF_CHUNK in *. rewrite !elem_of_cons in He.
      destruct He as [->|[->|He]]; [| |by apply elem_of_nil in He]; cbn in Hi;
        pose proof (Nat.div_mod_eq i 128); pose proof (Nat.mod_upper_bound i 128 ltac:(lia)); lia.
Defined.

Lemma sample_item_ok : item_ok sample_item.
Proof.
  split; [vm_compute; reflexivity|vm_compute; lia|vm_compute; reflexivity|].
  assert (dirty sample_item = [131]) as -> by (vm_compute; reflexivity).
  apply Forall_singleton. unfold in_u. lia.
Qed.

Lemma runs_exact_witness : runs sample_item = Ok [(0, 2); (7, 1)]%nat.
Proof.
  destruct (runs_exact sample_item sample_item_ok) as (l & E & _). rewrite E.
  vm_compute in E. congruence.
Defined.
