(* ===== verification/DirBlock.v ===== *)
(** * Directory blocks built ([src/src/dir_block.rs], [src/src/dir_leaf.rs])

    A directory past its inode is laid out whole from its entries: in one block
    with its hash index behind the entries, or, when that is too small, in data
    blocks with the index in a leaf block of its own.

    The theorems: what is built is what the readers of [Dir] read, every entry
    where it was placed, with an index that is the entries' hashes and
    addresses in hash order; and splitting entries into blocks loses none and
    overfills no block. *)

From Stdlib Require Import ZArith Lia Strings.String Strings.Byte Bool.
From stdpp Require Import base list strings.
From S2P Require Import Prelude Error Endian Crc32c Superblock Sample FreeSpace Inode BufWrite Dir DirShort.

(** [u8::to_ascii_lowercase] *)
Definition to_ascii_lowercase (b : byte) : byte :=
  let z := b2z b in if (0x41 <=? z) && (z <=? 0x5a) then z2b (z + 32) else b.

Definition hash_folded (case_insensitive : bool) (name : bytes) : Z :=
  if case_insensitive then hashname (to_ascii_lowercase <$> name) else hashname name.
Definition hash_for (sb : Superblock) (name : bytes) : Z := hash_folded (has_case_insensitive_dirs sb) name.

Definition entry_size (namelen : nat) : nat :=
  let unrounded := (8 + 1 + namelen + 1 + 2)%nat in
  (div_ceil unrounded XFS_DIR2_DATA_ALIGN * XFS_DIR2_DATA_ALIGN)%nat.

Definition data_size (entries : list Entry) : nat := sum_list ((fun e => entry_size (length (en_name e))) <$> entries).

Definition space_needed (entries : list Entry) : nat :=
  (XFS_DIR3_DATA_HDR_SIZE + data_size entries + length entries * XFS_DIR2_LEAF_ENTRY_SIZE + XFS_DIR2_BLOCK_TAIL_SIZE)%nat.

(** [u16::try_from(n)] and [u32::try_from(n)] *)
Definition try_u16 (n : Z) : option Z := if n <? 2 ^ 16 then Some n else None.
Definition try_u32 (n : Z) : option Z := if n <? 2 ^ 32 then Some n else None.

Definition leaf_hdr_count (v5 : bool) : nat := if v5 then 56 else 12.
Definition data_hdr_V5_BESTFREE : nat := 48.
Definition data_unused_tag (length : nat) : nat := (length - 2)%nat.
Definition leaf_tail_at (dirblocksize : nat) : nat := (dirblocksize - XFS_DIR2_LEAF_TAIL_SIZE)%nat.
Definition bests_start (dirblocksize bestcount : nat) : nat := (leaf_tail_at dirblocksize - bestcount * XFS_DIR2_BEST_SIZE)%nat.

(** The entry's bytes at [at_]: its number, its name's length, its name, its
    type, and its own offset at the end. *)
Definition place_entry (block : bytes) (at_ : nat) (e : Entry) : res bytes :=
  let namelen := length (en_name e) in
  let len := entry_size namelen in
  block ← copy_at (at_ + data_entry.INUMBER) (to_be_bytes 8 (en_ino e)) block;
  n ← try_u8 namelen (UnsupportedFeature (fmt "a name of {} bytes is too long" [AZ (Z.of_nat namelen)]));
  block ← copy_at (at_ + data_entry.NAMELEN) (to_be_bytes 1 n) block;
  block ← copy_at (at_ + data_entry.NAME) (en_name e) block;
  block ← copy_at (at_ + data_entry.NAME + namelen) (to_be_bytes 1 (en_ftype e)) block;
  tag ← expect (try_u16 (Z.of_nat at_));
  copy_at (at_ + len - 2) (to_be_bytes 2 tag) block.

(** A free record from [at_], and the best-free slot that names it. *)
Definition place_free (tag : res Z) (block : bytes) (at_ free : nat) : res bytes :=
  block ← copy_at (at_ + data_unused.FREETAG) (to_be_bytes 2 XFS_DIR2_DATA_FREE_TAG) block;
  len ← expect (try_u16 (Z.of_nat free));
  block ← copy_at (at_ + data_unused.LENGTH) (to_be_bytes 2 len) block;
  let tag_at := (at_ + data_unused_tag free)%nat in
  tag ← tag;
  copy_at tag_at (to_be_bytes 2 tag) block.
Definition place_bestfree (block : bytes) (at_ free : nat) : res bytes :=
  let bf := data_hdr_V5_BESTFREE in
  block ← copy_at bf (to_be_bytes 2 (wrap 16 (Z.of_nat at_))) block;
  copy_at (bf + 2) (to_be_bytes 2 (wrap 16 (Z.of_nat free))) block.

(** The sorted index, from [start] on. *)
Fixpoint place_index (block : bytes) (start : nat) (index : list (Z * Z)) : res bytes :=
  match index with
  | [] => Ok block
  | (hash, addr) :: index =>
      block ← copy_at (start + leaf_entry.HASHVAL) (to_be_bytes 4 hash) block;
      block ← copy_at (start + leaf_entry.ADDRESS) (to_be_bytes 4 addr) block;
      place_index block (start + XFS_DIR2_LEAF_ENTRY_SIZE) index
  end.
(** [index.sort_by_key(|&(hash, _)| hash)] *)
Definition by_hash (index : list (Z * Z)) : list (Z * Z) := sort_by (fun x y => x.1 <=? y.1) index.

Section build.
Context (sb : Superblock).

(** The header fields of a v5 data block. *)
Definition place_header (magic fsblock owner : Z) (block : bytes) : res bytes :=
  block ← copy_at dir3_blk.MAGIC (to_be_bytes 4 magic) block;
  let blkno := blkno_of_fsbno sb fsblock in
  block ← copy_at dir3_blk.BLKNO (to_be_bytes 8 blkno) block;
  block ← copy_at dir3_blk.UUID (sb_meta_uuid sb) block;
  copy_at dir3_blk.OWNER (to_be_bytes 8 owner) block.

Fixpoint place_entries (block : bytes) (at_ : nat) (entries : list Entry) : res (bytes * list (Z * Z) * nat) :=
  match entries with
  | [] => Ok (block, [], at_)
  | e :: entries =>
      block ← place_entry block at_ e;
      addr ← expect (try_u32 (Z.of_nat (at_ / XFS_DIR2_DATA_ALIGN)));
      '(block, index, end_) ← place_entries block (at_ + entry_size (length (en_name e))) entries;
      Ok (block, (hash_for sb (en_name e), addr) :: index, end_)
  end.

Definition build (fsblock owner : Z) (entries : list Entry) : res bytes :=
  let dirblocksize := Z.to_nat (wshl 64 (sb_blocksize sb) (sb_dirblklog sb)) in
  let needed := space_needed entries in
  fail_if (dirblocksize <? needed)%nat
    (UnsupportedFeature (fmt "inode {}'s {} entries need {} bytes and a directory block holds {}; a directory past one block is the leaf form, which is not implemented"
       [AZ owner; AZ (Z.of_nat (length entries)); AZ (Z.of_nat needed); AZ (Z.of_nat dirblocksize)]));;
  let block := replicate dirblocksize x00 in
  block ← place_header XFS_DIR3_BLOCK_MAGIC fsblock owner block;
  '(block, index, entries_end) ← place_entries block XFS_DIR3_DATA_HDR_SIZE entries;
  let tail_at := (dirblocksize - XFS_DIR2_BLOCK_TAIL_SIZE)%nat in
  let index_start := (tail_at - length entries * XFS_DIR2_LEAF_ENTRY_SIZE)%nat in
  block ← place_index block index_start (by_hash index);
  let free_len := (index_start - entries_end)%nat in
  block ← (if (0 <? free_len)%nat then place_free (expect (try_u16 (Z.of_nat entries_end))) block entries_end free_len else Ok block);
  block ← (if (0 <? free_len)%nat then place_bestfree block entries_end free_len else Ok block);
  count ← expect (try_u32 (Z.of_nat (length entries)));
  block ← copy_at (tail_at + block_tail.COUNT) (to_be_bytes 4 count) block;
  copy_at (tail_at + block_tail.STALE) (to_be_bytes 4 0) block.

(** ** Data blocks and the leaf ([dir_leaf.rs]) *)

Record DataBlock := mkDataBlock { db_bytes : bytes; db_best : Z; db_index : list (Z * Z) }.

Definition leaf_capacity (dirblocksize data_blocks : nat) : Z :=
  wsub 64 (wsub 64 (wsub 64 (Z.of_nat dirblocksize) (Z.of_nat XFS_DIR3_LEAF_HDR_SIZE)) (Z.of_nat XFS_DIR2_LEAF_TAIL_SIZE))
    (Z.of_nat (data_blocks * XFS_DIR2_BEST_SIZE)) / Z.of_nat XFS_DIR2_LEAF_ENTRY_SIZE.

Section data_block.
Context (dirblocksize : nat) (owner db : Z).

Fixpoint place_in_data_block (block : bytes) (at_ : nat) (entries : list Entry) : res (bytes * list (Z * Z) * nat) :=
  match entries with
  | [] => Ok (block, [], at_)
  | e :: entries =>
      let len := entry_size (length (en_name e)) in
      fail_if (dirblocksize <? at_ + len)%nat
        (Internal (fmt "data block {} of inode {} was given more entries than it holds" [AZ db; AZ owner]));;
      block ← place_entry block at_ e;
      let address := wadd 64 (wmul 64 db (Z.of_nat dirblocksize)) (Z.of_nat at_) / Z.of_nat XFS_DIR2_DATA_ALIGN in
      addr ← ok_or (try_u32 address)
        (UnsupportedFeature (fmt "data block {} lies past the addresses a directory index can hold" [AZ db]));
      '(block, index, end_) ← place_in_data_block block (at_ + len) entries;
      Ok (block, (hash_for sb (en_name e), addr) :: index, end_)
  end.
End data_block.

Definition build_data_block (fsblock owner db : Z) (entries : list Entry) : res DataBlock :=
  let dirblocksize := Z.to_nat (dirblocksize sb) in
  let block := replicate dirblocksize x00 in
  block ← place_header XFS_DIR3_DATA_MAGIC fsblock owner block;
  '(block, index, at_) ← place_in_data_block dirblocksize owner db block XFS_DIR3_DATA_HDR_SIZE entries;
  let free := (dirblocksize - at_)%nat in
  block ← (if (0 <? free)%nat then
             block ← place_free (Ok (wrap 16 (Z.of_nat at_))) block at_ free;
             place_bestfree block at_ free
           else Ok block);
  best ← expect (try_u16 (Z.of_nat free));
  Ok (mkDataBlock block best index).

Fixpoint place_bests (block : bytes) (start : nat) (bests : list Z) : res bytes :=
  match bests with
  | [] => Ok block
  | best :: bests =>
      block ← copy_at start (to_be_bytes 2 best) block;
      place_bests block (start + XFS_DIR2_BEST_SIZE) bests
  end.

Definition build_leaf (fsblock owner : Z) (index : list (Z * Z)) (bests : list Z) : res bytes :=
  let dirblocksize := Z.to_nat (dirblocksize sb) in
  let capacity := leaf_capacity dirblocksize (length bests) in
  fail_if (capacity <? Z.of_nat (length index))
    (UnsupportedFeature (fmt "inode {}'s {} names need more index records than one leaf block holds ({}); that is the node form (#367)"
       [AZ owner; AZ (Z.of_nat (length index)); AZ capacity]));;
  let block := replicate dirblocksize x00 in
  block ← copy_at da_blk.MAGIC (to_be_bytes 2 XFS_DIR3_LEAF1_MAGIC) block;
  let blkno := blkno_of_fsbno sb fsblock in
  block ← copy_at da_blk.BLKNO (to_be_bytes 8 blkno) block;
  block ← copy_at da_blk.UUID (sb_meta_uuid sb) block;
  block ← copy_at da_blk.OWNER (to_be_bytes 8 owner) block;
  count ← expect (try_u16 (Z.of_nat (length index)));
  block ← copy_at (leaf_hdr_count true) (to_be_bytes 2 count) block;
  block ← place_index block XFS_DIR3_LEAF_HDR_SIZE (by_hash index);
  let start := bests_start dirblocksize (length bests) in
  block ← place_bests block start bests;
  copy_at (leaf_tail_at dirblocksize) (to_be_bytes 4 (wrap 32 (Z.of_nat (length bests)))) block.
End build.

(** Blocks filled one after another; [done] are the full ones. *)
Fixpoint pack_loop (dirblocksize room used : nat) (done : list (list Entry)) (last : list Entry) (entries : list Entry) : res (list (list Entry)) :=
  match entries with
  | [] => Ok (done ++ [last])
  | e :: entries =>
      let size := entry_size (length (en_name e)) in
      fail_if (room <? size)%nat
        (UnsupportedFeature (fmt "an entry of {} bytes does not fit in a {}-byte directory block" [AZ (Z.of_nat size); AZ (Z.of_nat dirblocksize)]));;
      if (room <? used + size)%nat then pack_loop dirblocksize room size (done ++ [last]) [e] entries
      else pack_loop dirblocksize room (used + size) done (last ++ [e]) entries
  end.
Definition pack (entries : list Entry) (dirblocksize : nat) : res (list (list Entry)) :=
  pack_loop dirblocksize (dirblocksize - XFS_DIR3_DATA_HDR_SIZE) 0 [] [] entries.

Definition entries_from_short_form (parsed : ShortFormDir) (self_ino : Z) (new : option Entry) : list Entry :=
  [mkEntry [x2e] self_ino (ftype_to_raw (Some FileType.Directory));
   mkEntry [x2e; x2e] (parent_ino parsed) (ftype_to_raw (Some FileType.Directory))] ++
  ((fun e => mkEntry (de_name e) (de_ino e) (ftype_to_raw (de_ftype e))) <$> sf_entries parsed) ++
  (match new with Some e => [e] | None => [] end).

(** ** A block filled from its start *)

Notation zeros n := (replicate n x00).

Section filled.
Context (pre : bytes).

Lemma copy_at_mid mid post bs pos : pos = length pre -> length bs = length mid ->
  copy_at pos bs (pre ++ mid ++ post) = Ok (pre ++ bs ++ post).
Proof.
  intros -> Hl. rewrite copy_at_Ok by (rewrite !length_app; lia). unfold splice. rewrite take_app_length.
  do 3 f_equal. rewrite <- drop_drop, drop_app_length, Hl. apply drop_app_length.
Qed.

Lemma copy_zeros k bs n pos : pos = (length pre + k)%nat -> (k + length bs <= n)%nat ->
  copy_at pos bs (pre ++ zeros n) = Ok ((pre ++ zeros k ++ bs) ++ zeros (n - k - length bs)).
Proof.
  intros -> Hn. rewrite copy_at_Ok by (rewrite length_app, length_replicate; lia). unfold splice.
  rewrite take_app, drop_app, take_ge, (drop_ge pre) by lia. rewrite take_replicate, drop_replicate, Nat.min_l by lia.
  replace (n - (length pre + k + length bs - length pre))%nat with (n - k - length bs)%nat by lia.
  replace (length pre + k - length pre)%nat with k by lia. by rewrite <- !app_assoc.
Qed.

(** Where the bytes are zero, writing what comes next. *)
Lemma copy_next bs n pos : pos = length pre -> (length bs <= n)%nat ->
  copy_at pos bs (pre ++ zeros n) = Ok ((pre ++ bs) ++ zeros (n - length bs)).
Proof. intros -> Hn. rewrite (copy_zeros 0) by lia. by rewrite Nat.sub_0_r. Qed.
End filled.

(** An entry's bytes. *)
Definition entry_pad (namelen : nat) : nat := (entry_size namelen - 12 - namelen)%nat.
Definition entry_record (at_ : nat) (e : Entry) : bytes :=
  to_be_bytes 8 (en_ino e) ++ to_be_bytes 1 (Z.of_nat (length (en_name e))) ++ en_name e ++ to_be_bytes 1 (en_ftype e) ++
  zeros (entry_pad (length (en_name e))) ++ to_be_bytes 2 (Z.of_nat at_).

Definition named (e : Entry) : Prop := (0 < length (en_name e) < 256)%nat.

Lemma entry_size_spec n : (n + 12 <= entry_size n < n + 20)%nat /\ (entry_size n mod 8 = 0)%nat.
Proof.
  unfold entry_size, XFS_DIR2_DATA_ALIGN. pose proof (div_ceil_bounds (8 + 1 + n + 1 + 2) 8 ltac:(lia)). split; [lia|].
  apply Nat.mod_mul. lia.
Qed.

Lemma length_entry_record at_ e : length (entry_record at_ e) = entry_size (length (en_name e)).
Proof.
  unfold entry_record, entry_pad. rewrite !length_app, !length_to_be_bytes, length_replicate.
  destruct (entry_size_spec (length (en_name e))). lia.
Qed.

Lemma place_entry_spec pre n e : named e -> Z.of_nat (length pre) < 2 ^ 16 -> (entry_size (length (en_name e)) <= n)%nat ->
  place_entry (pre ++ zeros n) (length pre) e =
    Ok ((pre ++ entry_record (length pre) e) ++ zeros (n - entry_size (length (en_name e)))).
Proof.
  intros [Hn0 Hn] Ha Hfit. destruct (entry_size_spec (length (en_name e))) as [Hs _]. set (nl := length (en_name e)) in *.
  unfold place_entry. fold nl. unfold data_entry.INUMBER, data_entry.NAMELEN, data_entry.NAME. rewrite Nat.add_0_r.
  rewrite copy_next by (rewrite ?length_to_be_bytes; lia). cbn [mbind res_bind]. rewrite length_to_be_bytes.
  unfold try_u8. rewrite (proj2 (Z.ltb_ge _ _)) by lia. cbn [fail_if mbind res_bind].
  rewrite copy_next by (rewrite ?length_app, ?length_to_be_bytes; lia). cbn [mbind res_bind]. rewrite length_to_be_bytes.
  rewrite copy_next by (rewrite ?length_app, ?length_to_be_bytes; lia). cbn [mbind res_bind]. fold nl.
  rewrite copy_next by (rewrite ?length_app, ?length_to_be_bytes; lia). cbn [mbind res_bind]. rewrite length_to_be_bytes.
  unfold try_u16. rewrite (proj2 (Z.ltb_lt _ _)) by lia. cbn [expect mbind res_bind].
  rewrite (copy_zeros _ (entry_pad nl)) by (unfold entry_pad; rewrite ?length_app, ?length_to_be_bytes; lia).
  rewrite length_to_be_bytes. replace (n - 8 - 1 - nl - 1 - entry_pad nl - 2)%nat with (n - entry_size nl)%nat by (unfold entry_pad; lia).
  unfold entry_record. fold nl. by rewrite <- !app_assoc.
Qed.

(** The entries' bytes, their index, and the entries a reader makes of them. *)
Fixpoint records (at_ : nat) (entries : list Entry) : bytes :=
  match entries with
  | [] => []
  | e :: entries => entry_record at_ e ++ records (at_ + entry_size (length (en_name e))) entries
  end.
Fixpoint index_of (sb : Superblock) (base : Z) (at_ : nat) (entries : list Entry) : list (Z * Z) :=
  match entries with
  | [] => []
  | e :: entries => (hash_for sb (en_name e), (base + Z.of_nat at_) / 8) :: index_of sb base (at_ + entry_size (length (en_name e))) entries
  end.
Definition type_of (e : Entry) : option FileType := match ftype_from_raw (en_ftype e) with Ok ft => ft | _ => None end.
Fixpoint placed (at_ : nat) (entries : list Entry) : list DirEntry :=
  match entries with
  | [] => []
  | e :: entries => mkDirEntry (en_name e) (en_ino e) (type_of e) (Z.of_nat at_) :: placed (at_ + entry_size (length (en_name e))) entries
  end.

Lemma data_size_cons e entries : data_size (e :: entries) = (entry_size (length (en_name e)) + data_size entries)%nat.
Proof. done. Qed.
Lemma data_size_mod8 entries : (data_size entries mod 8 = 0)%nat.
Proof.
  induction entries as [|e entries IH]; [done|]. rewrite data_size_cons. destruct (entry_size_spec (length (en_name e))) as [_ H].
  rewrite Nat.Div0.add_mod, H, IH. done.
Qed.
Lemma length_records entries : forall at_, length (records at_ entries) = data_size entries.
Proof. induction entries as [|e entries IH]; intros at_; [done|]. cbn [records]. by rewrite length_app, length_entry_record, IH, data_size_cons. Qed.

Section loops.
Context (sb : Superblock).

Lemma place_entries_spec entries : forall pre n, Forall named entries ->
  Z.of_nat (length pre + data_size entries) <= 2 ^ 16 -> (data_size entries <= n)%nat ->
  place_entries sb (pre ++ zeros n) (length pre) entries =
    Ok ((pre ++ records (length pre) entries) ++ zeros (n - data_size entries), index_of sb 0 (length pre) entries, length pre + data_size entries)%nat.
Proof.
  induction entries as [|e entries IH]; intros pre n Hn Ha Hfit; cbn [place_entries].
  { cbn. by rewrite app_nil_r, Nat.sub_0_r, Nat.add_0_r. }
  apply Forall_cons in Hn as [He Hn]. rewrite data_size_cons in *. destruct (entry_size_spec (length (en_name e))) as [Hs _].
  rewrite place_entry_spec by (done || lia). cbn [mbind res_bind].
  unfold try_u32, XFS_DIR2_DATA_ALIGN. pose proof (Nat.Div0.div_le_upper_bound (length pre) 8 (length pre) ltac:(lia)).
  rewrite (proj2 (Z.ltb_lt _ _)) by lia. cbn [expect mbind res_bind].
  replace (length pre + entry_size (length (en_name e)))%nat with (length (pre ++ entry_record (length pre) e)) by (by rewrite length_app, length_entry_record).
  rewrite IH; [|done|rewrite length_app, length_entry_record; lia|lia]. cbn [mbind res_bind records index_of].
  by rewrite !length_app, !length_entry_record, <- !app_assoc, !Nat.sub_add_distr, !Nat.add_assoc, Nat2Z.inj_div, Z.add_0_l.
Qed.

(** Data block [db] of the directory holds addresses an index can name. *)
Definition addressable (dbs : nat) (db : Z) : Prop := 0 <= db /\ (db + 1) * Z.of_nat dbs <= 2 ^ 35.

Lemma place_in_data_block_spec dbs owner db entries : forall pre n, Forall named entries -> addressable dbs db ->
  Z.of_nat dbs <= 2 ^ 16 -> (length pre + n)%nat = dbs -> (data_size entries <= n)%nat ->
  place_in_data_block sb dbs owner db (pre ++ zeros n) (length pre) entries =
    Ok ((pre ++ records (length pre) entries) ++ zeros (n - data_size entries),
        index_of sb (db * Z.of_nat dbs) (length pre) entries, length pre + data_size entries)%nat.
Proof.
  induction entries as [|e entries IH]; intros pre n Hn Had Hd Hlen Hfit; cbn [place_in_data_block].
  { cbn. by rewrite app_nil_r, Nat.sub_0_r, Nat.add_0_r. }
  apply Forall_cons in Hn as [He Hn]. rewrite data_size_cons in *. destruct (entry_size_spec (length (en_name e))) as [Hs _].
  rewrite (proj2 (Nat.ltb_ge _ _)) by lia. cbn [fail_if mbind res_bind].
  rewrite place_entry_spec by (done || lia). cbn [mbind res_bind]. destruct Had as [Hdb Hadd].
  rewrite (wmul_small 64), (wadd_small 64) by nia. change (Z.of_nat XFS_DIR2_DATA_ALIGN) with 8.
  unfold try_u32. rewrite (proj2 (Z.ltb_lt _ _)) by (apply Z.div_lt_upper_bound; nia). cbn [ok_or mbind res_bind].
  replace (length pre + entry_size (length (en_name e)))%nat with (length (pre ++ entry_record (length pre) e)) by (by rewrite length_app, length_entry_record).
  rewrite IH; [|done|done|done|rewrite length_app, length_entry_record; lia|lia]. cbn [mbind res_bind records index_of].
  by rewrite !length_app, !length_entry_record, <- !app_assoc, !Nat.sub_add_distr, !Nat.add_assoc.
Qed.
End loops.

(** The index's bytes. *)
Definition index_bytes (index : list (Z * Z)) : bytes := concat ((fun x => to_be_bytes 4 x.1 ++ to_be_bytes 4 x.2) <$> index).
Lemma length_index_bytes index : length (index_bytes index) = (length index * 8)%nat.
Proof. induction index as [|x l IH]; [done|]. unfold index_bytes in *. rewrite fmap_cons. cbn [concat length]. rewrite !length_app, !length_to_be_bytes, IH. lia. Qed.

Lemma place_index_spec index : forall pre mid post, length mid = (length index * 8)%nat ->
  place_index (pre ++ mid ++ post) (length pre) index = Ok (pre ++ index_bytes index ++ post).
Proof.
  induction index as [|[h a] index IH]; intros pre mid post Hm; cbn [place_index].
  { by destruct mid. }
  cbn [length] in Hm. unfold leaf_entry.HASHVAL, leaf_entry.ADDRESS, XFS_DIR2_LEAF_ENTRY_SIZE. rewrite Nat.add_0_r.
  rewrite <- (take_drop 4 mid), <- (take_drop 4 (drop 4 mid)), drop_drop. set (m1 := take 4 mid). set (m2 := take 4 (drop 4 mid)). set (m3 := drop _ mid).
  assert (H1 : length m1 = 4%nat) by (unfold m1; rewrite length_take; lia). assert (H2 : length m2 = 4%nat) by (unfold m2; rewrite length_take, length_drop; lia).
  assert (H3 : length m3 = (length index * 8)%nat) by (unfold m3; rewrite length_drop; lia).
  rewrite <- !app_assoc. rewrite (copy_at_mid pre m1) by (rewrite ?length_to_be_bytes; lia). cbn [mbind res_bind].
  rewrite (app_assoc pre). rewrite (copy_at_mid _ m2) by (rewrite ?length_app, ?length_to_be_bytes; lia). cbn [mbind res_bind].
  rewrite (app_assoc (pre ++ _)). replace (length pre + 8)%nat with (length ((pre ++ to_be_bytes 4 h) ++ to_be_bytes 4 a)) by (rewrite !length_app, !length_to_be_bytes; lia).
  rewrite IH by done. unfold index_bytes. rewrite fmap_cons. cbn [concat]. by rewrite <- !app_assoc.
Qed.

Lemma length_by_hash index : length (by_hash index) = length index.
Proof. apply Permutation_length, sort_by_Permutation. Qed.
Lemma length_index_of sb base entries : forall at_, length (index_of sb base at_ entries) = length entries.
Proof. induction entries as [|e entries IH]; intros at_; [done|]. cbn [index_of length]. by rewrite IH. Qed.

(** A free record. *)
Definition free_bytes (at_ free : nat) : bytes :=
  if (0 <? free)%nat then
    to_be_bytes 2 XFS_DIR2_DATA_FREE_TAG ++ to_be_bytes 2 (Z.of_nat free) ++ zeros (free - 6) ++ to_be_bytes 2 (Z.of_nat at_)
  else [].
Lemma length_free_bytes at_ free : (free mod 8 = 0)%nat -> length (free_bytes at_ free) = free.
Proof.
  intros Hm. unfold free_bytes. destruct (Nat.ltb_spec 0 free); [|cbn; lia]. rewrite !length_app, !length_to_be_bytes, length_replicate.
  pose proof (Nat.div_mod free 8 ltac:(lia)). lia.
Qed.

Lemma place_free_spec tag pre post free : tag = Ok (Z.of_nat (length pre)) -> (0 < free)%nat -> (free mod 8 = 0)%nat -> Z.of_nat free < 2 ^ 16 ->
  place_free tag (pre ++ zeros free ++ post) (length pre) free = Ok (pre ++ free_bytes (length pre) free ++ post).
Proof.
  intros -> H0 Hm Hf. pose proof (Nat.div_mod free 8 ltac:(lia)). unfold place_free, data_unused.FREETAG, data_unused.LENGTH, data_unused_tag.
  replace free with (2 + (2 + ((free - 6) + 2)))%nat at 1 by lia. rewrite !replicate_add, <- !app_assoc, Nat.add_0_r.
  rewrite copy_at_mid by (rewrite ?length_to_be_bytes, ?length_replicate; lia). cbn [mbind res_bind].
  unfold try_u16. rewrite (proj2 (Z.ltb_lt _ _)) by lia. cbn [expect mbind res_bind].
  rewrite (app_assoc pre), copy_at_mid by (rewrite ?length_app, ?length_to_be_bytes, ?length_replicate; lia). cbn [mbind res_bind].
  rewrite (app_assoc (pre ++ _)), (app_assoc ((pre ++ _) ++ _)).
  rewrite copy_at_mid by (rewrite ?length_app, ?length_to_be_bytes, ?length_replicate; lia).
  unfold free_bytes. rewrite (proj2 (Nat.ltb_lt _ _)) by lia. by rewrite <- !app_assoc.
Qed.

Lemma place_free_if tag pre post free : ((0 < free)%nat -> tag = Ok (Z.of_nat (length pre))) -> (free mod 8 = 0)%nat -> Z.of_nat free < 2 ^ 16 ->
  (if (0 <? free)%nat then place_free tag (pre ++ zeros free ++ post) (length pre) free else Ok (pre ++ zeros free ++ post)) =
    Ok (pre ++ free_bytes (length pre) free ++ post).
Proof.
  intros Ht Hm Hf. destruct (Nat.ltb_spec 0 free) as [H0|H0]; [by apply place_free_spec; [apply Ht|..]|].
  unfold free_bytes. rewrite (proj2 (Nat.ltb_ge _ _)) by done. by replace free with 0%nat by lia.
Qed.

(** ** The blocks built *)

Section built.
Context (sb : Superblock) (Hty : sb_typed sb) (Hgeo : sb_geometry sb).
Let dbs := Z.to_nat (dirblocksize sb).

Lemma dbs_spec : Z.of_nat dbs = dirblocksize sb /\ (512 <= dbs)%nat /\ Z.of_nat dbs <= 65536 /\ (dbs mod 8 = 0)%nat /\
  Z.to_nat (wshl 64 (sb_blocksize sb) (sb_dirblklog sb)) = dbs.
Proof.
  destruct (dirblocksize_spec sb Hty Hgeo) as (E & Hr & Hk). unfold dbs. split; [lia|]. split; [lia|]. split; [lia|]. split.
  - apply Nat2Z.inj. rewrite Nat2Z.inj_mod, Z2Nat.id by lia. rewrite E. replace (sb_blocklog sb + sb_dirblklog sb) with (sb_blocklog sb + sb_dirblklog sb - 3 + 3) by lia.
    rewrite Z.pow_add_r by lia. change (Z.of_nat 8) with (2 ^ 3). by rewrite Z.mod_mul.
  - f_equal. rewrite E. destruct Hgeo as [[Hb Hbs] _ _ _ Hd]. pose proof (ty_dirblklog sb Hty) as Hdl. unfold in_u in Hdl.
    rewrite wshl_small; [by rewrite Hbs, <- Z.pow_add_r by lia|lia|]. rewrite Hbs, <- Z.pow_add_r by lia. rewrite <- E. lia.
Qed.

Definition head48 (magic fsblock owner : Z) : bytes :=
  to_be_bytes 4 magic ++ zeros 4 ++ to_be_bytes 8 (blkno_of_fsbno sb fsblock) ++ zeros 8 ++ sb_meta_uuid sb ++ to_be_bytes 8 owner.
Lemma length_head48 magic fsblock owner : length (head48 magic fsblock owner) = 48%nat.
Proof. unfold head48. rewrite !length_app, !length_to_be_bytes, !length_replicate, (ty_meta_uuid sb Hty). done. Qed.

Lemma place_header_spec magic fsblock owner n : (48 <= n)%nat ->
  place_header sb magic fsblock owner (zeros n) = Ok (head48 magic fsblock owner ++ zeros (n - 48)).
Proof.
  intros Hn. unfold place_header, dir3_blk.MAGIC, dir3_blk.BLKNO, dir3_blk.UUID, dir3_blk.OWNER. pose proof (ty_meta_uuid sb Hty) as Hu.
  pose proof (copy_next [] (to_be_bytes 4 magic) n 0 eq_refl) as E. cbn [app] in E. rewrite E by (rewrite length_to_be_bytes; lia).
  cbn [mbind res_bind]. rewrite length_to_be_bytes.
  rewrite (copy_zeros _ 4) by (rewrite ?length_app, ?length_to_be_bytes; lia). cbn [mbind res_bind]. rewrite length_to_be_bytes.
  rewrite (copy_zeros _ 8) by (rewrite ?length_app, ?length_to_be_bytes, ?length_replicate, ?Hu; cbn; lia). cbn [mbind res_bind]. rewrite Hu.
  rewrite copy_next by (rewrite ?length_app, ?length_to_be_bytes, ?length_replicate, ?Hu; cbn; lia). rewrite length_to_be_bytes.
  replace (n - 4 - 4 - 8 - 8 - 16 - 8)%nat with (n - 48)%nat by lia. unfold head48. by rewrite <- !app_assoc.
Qed.

Definition bestfree_bytes (at_ free : nat) : bytes :=
  if (0 <? free)%nat then to_be_bytes 2 (Z.of_nat at_) ++ to_be_bytes 2 (Z.of_nat free) ++ zeros 12 else zeros 16.
Lemma length_bestfree_bytes at_ free : length (bestfree_bytes at_ free) = 16%nat.
Proof. unfold bestfree_bytes. by destruct (_ <? _)%nat. Qed.

Lemma place_bestfree_spec magic fsblock owner rest at_ free : (0 < free)%nat -> Z.of_nat at_ < 2 ^ 16 -> Z.of_nat free < 2 ^ 16 ->
  place_bestfree (head48 magic fsblock owner ++ zeros 16 ++ rest) at_ free =
    Ok (head48 magic fsblock owner ++ bestfree_bytes at_ free ++ rest).
Proof.
  intros H0 Ha Hf. unfold place_bestfree, data_hdr_V5_BESTFREE. set (h := head48 _ _ _). pose proof (length_head48 magic fsblock owner) as Hh. fold h in Hh.
  change (zeros 16) with (zeros 2 ++ zeros 2 ++ zeros 12). rewrite <- !app_assoc, !wrap_small by (unfold in_u; lia).
  rewrite copy_at_mid by (rewrite ?length_to_be_bytes, ?length_replicate; lia). cbn [mbind res_bind].
  rewrite (app_assoc h), copy_at_mid by (rewrite ?length_app, ?length_to_be_bytes, ?length_replicate; lia).
  unfold bestfree_bytes. rewrite (proj2 (Nat.ltb_lt _ _)) by done. by rewrite <- !app_assoc.
Qed.

Lemma place_bestfree_if magic fsblock owner rest at_ free : ((0 < free)%nat -> Z.of_nat at_ < 2 ^ 16) -> Z.of_nat free < 2 ^ 16 ->
  (if (0 <? free)%nat then place_bestfree (head48 magic fsblock owner ++ zeros 16 ++ rest) at_ free
   else Ok (head48 magic fsblock owner ++ zeros 16 ++ rest)) = Ok (head48 magic fsblock owner ++ bestfree_bytes at_ free ++ rest).
Proof.
  intros Ha Hf. destruct (Nat.ltb_spec 0 free) as [H0|H0]; [by apply place_bestfree_spec; [|apply Ha|]|].
  unfold bestfree_bytes. by rewrite (proj2 (Nat.ltb_ge _ _)).
Qed.

(** A block-form block, whatever its header's first 48 bytes. *)
Definition block_end (entries : list Entry) : nat := 64 + data_size entries.
Definition block_free (entries : list Entry) : nat := dbs - 8 - length entries * 8 - block_end entries.
Definition block_body (entries : list Entry) : bytes :=
  records 64 entries ++ free_bytes (block_end entries) (block_free entries) ++
  index_bytes (by_hash (index_of sb 0 64 entries)) ++ to_be_bytes 4 (Z.of_nat (length entries)) ++ to_be_bytes 4 0.
Definition block_head (fsblock owner : Z) (entries : list Entry) : bytes :=
  head48 XFS_DIR3_BLOCK_MAGIC fsblock owner ++ bestfree_bytes (block_end entries) (block_free entries).

Lemma block_free_mod8 entries : (block_free entries mod 8 = 0)%nat.
Proof.
  unfold block_free, block_end. destruct dbs_spec as (_ & _ & _ & Hm & _). pose proof (data_size_mod8 entries) as Hd.
  pose proof (Nat.div_mod dbs 8 ltac:(lia)). pose proof (Nat.div_mod (data_size entries) 8 ltac:(lia)).
  replace (dbs - 8 - length entries * 8 - (64 + data_size entries))%nat with ((dbs / 8 - 1 - length entries - 8 - data_size entries / 8) * 8)%nat by lia.
  apply Nat.mod_mul. lia.
Qed.

Lemma place_tail cnt (b : bytes) : length b = (dbs - 8)%nat ->
  (block ← copy_at (dbs - 8 + block_tail.COUNT) (to_be_bytes 4 (Z.of_nat cnt)) (b ++ zeros 8);
   copy_at (dbs - 8 + block_tail.STALE) (to_be_bytes 4 0) block) = Ok (b ++ to_be_bytes 4 (Z.of_nat cnt) ++ to_be_bytes 4 0).
Proof.
  intros Hb. destruct dbs_spec as (_ & H512 & _). unfold block_tail.COUNT, block_tail.STALE. rewrite copy_next by (rewrite ?length_to_be_bytes; lia). cbn [mbind res_bind].
  rewrite length_to_be_bytes, copy_next by (rewrite ?length_app, ?length_to_be_bytes; lia). rewrite length_to_be_bytes. cbn [Nat.sub replicate].
  by rewrite app_nil_r, <- app_assoc.
Qed.

Lemma dir_build_spec fsblock owner entries : Forall named entries ->
  if (dbs <? space_needed entries)%nat then exists e, build sb fsblock owner entries = Err e
  else build sb fsblock owner entries = Ok (block_head fsblock owner entries ++ block_body entries).
Proof.
  intros Hn. destruct dbs_spec as (_ & H512 & H64k & Hm & Ew). unfold build. rewrite Ew.
  destruct (Nat.ltb_spec dbs (space_needed entries)) as [|Hfit]; cbn [fail_if mbind res_bind]; [by eexists|].
  unfold space_needed in Hfit. cbv [XFS_DIR3_DATA_HDR_SIZE XFS_DIR2_LEAF_ENTRY_SIZE XFS_DIR2_BLOCK_TAIL_SIZE] in *.
  set (ds := data_size entries) in *. set (cnt := length entries) in *.
  rewrite place_header_spec by lia. cbn [mbind res_bind].
  set (h := head48 _ _ _). pose proof (length_head48 XFS_DIR3_BLOCK_MAGIC fsblock owner) as Hh. fold h in Hh.
  replace (dbs - 48)%nat with (16 + (dbs - 64))%nat by lia. rewrite replicate_add, app_assoc.
  assert (Hp : length (h ++ zeros 16) = 64%nat) by (by rewrite length_app, length_replicate, Hh). rewrite <- Hp.
  rewrite place_entries_spec by (rewrite ?Hp; fold ds; done || lia). cbn [mbind res_bind]. fold ds. rewrite Hp.
  pose proof (block_free_mod8 entries) as Hfm. set (idx := by_hash _). assert (Hidx : length idx = cnt) by (unfold idx; by rewrite length_by_hash, length_index_of).
  set (recs := records 64 entries). assert (Hr : length recs = ds) by apply length_records.
  set (free := block_free entries) in *. assert (Hfree : free = (dbs - 8 - cnt * 8 - (64 + ds))%nat) by done.
  replace (dbs - 64 - ds)%nat with (free + (cnt * 8 + 8))%nat by lia. rewrite !replicate_add.
  rewrite (app_assoc _ (zeros free)). set (pre := ((h ++ zeros 16) ++ recs) ++ zeros free).
  assert (Hpre : length pre = (dbs - 8 - cnt * 8)%nat) by (unfold pre; rewrite !length_app, !length_replicate, Hh, Hr; lia). rewrite <- Hpre.
  rewrite place_index_spec by (rewrite length_replicate; lia). cbn [mbind res_bind]. rewrite Hpre, <- Hfree.
  unfold pre. rewrite <- (app_assoc ((h ++ zeros 16) ++ recs)).
  assert (Hl : length ((h ++ zeros 16) ++ recs) = (64 + ds)%nat) by (rewrite !length_app, Hh, Hr; done). rewrite <- Hl.
  rewrite place_free_if; [|intros; unfold try_u16; by rewrite (proj2 (Z.ltb_lt _ _)) by lia|done|lia]. cbn [mbind res_bind]. rewrite Hl.
  rewrite <- !app_assoc. unfold h. rewrite place_bestfree_if by lia. cbn [mbind res_bind]. fold h.
  unfold try_u32. rewrite (proj2 (Z.ltb_lt (Z.of_nat cnt) _)) by lia. cbn [expect mbind res_bind].
  match goal with |- context [copy_at _ _ ?b] => replace b with ((h ++ bestfree_bytes (64 + ds) free ++ recs ++ free_bytes (64 + ds) free ++ index_bytes idx) ++ zeros 8)
    by (by rewrite <- !app_assoc) end.
  rewrite place_tail by (rewrite !length_app, length_bestfree_bytes, length_index_bytes, Hidx, Hh, Hr, length_free_bytes by done; lia).
  unfold block_head, block_body. by rewrite <- !app_assoc.
Qed.
End built.

(** ** The blocks read *)

(** An entry that can be written and read. *)
Record writable (sb : Superblock) (e : Entry) : Prop := {
  we_name : named e;
  we_ino : ino_ok sb (en_ino e);
  we_type : exists ft, ftype_from_raw (en_ftype e) = Ok ft;
}.
Lemma writable_named sb entries : Forall (writable sb) entries -> Forall named entries.
Proof. intros H. eapply Forall_impl; [exact H|]. by intros e []. Qed.

Section read_placed.
Context (sb : Superblock) (Hft : has_ftype sb = true).

Lemma data_entry_size_entry_size n : data_entry_size n (has_ftype sb) = entry_size n.
Proof.
  rewrite Hft. unfold data_entry_size, data_entry.NAME, flag_size. destruct (align_up_spec (9 + n + 1 + 2)) as [Hr Hm].
  destruct (entry_size_spec n) as [Hs Hsm]. set (a := align_up _) in *. pose proof (Nat.div_mod a 8 ltac:(lia)).
  pose proof (Nat.div_mod (entry_size n) 8 ltac:(lia)). unfold entry_size, XFS_DIR2_DATA_ALIGN in *.
  pose proof (div_ceil_bounds (8 + 1 + n + 1 + 2) 8 ltac:(lia)). lia.
Qed.

(** The first two bytes of an entry are its number's top, so not a free tag. *)
Lemma first_bytes pre e post : in_u 56 (en_ino e) -> rd 2 (length pre) (pre ++ entry_record (length pre) e ++ post) < 256.
Proof.
  intros Hi. unfold rd, entry_record. rewrite <- !app_assoc.
  assert (E : to_be_bytes 8 (en_ino e) = to_be_bytes 2 (en_ino e / 256 ^ 6) ++ to_be_bytes 6 (en_ino e)).
  { rewrite <- (to_from_be_bytes (to_be_bytes 2 _ ++ _)), length_app, !length_to_be_bytes, from_be_bytes_app, !from_to_be_bytes, length_to_be_bytes.
    change (2 + 6)%nat with 8%nat. f_equal. unfold in_u in Hi. rewrite (Z.mod_small (en_ino e / 256 ^ 6)).
    - rewrite Z.mul_comm. apply Z.div_mod. done.
    - split; [apply Z.div_pos; [lia|done]|]. apply Z.div_lt_upper_bound; [done|]. change (256 ^ 6 * 256 ^ Z.of_nat 2) with (2 ^ 64). lia. }
  rewrite E, <- app_assoc, slice_between by (by rewrite ?length_to_be_bytes). rewrite from_to_be_bytes.
  unfold in_u in Hi. rewrite Z.mod_small; [apply Z.div_lt_upper_bound; [done|]; change (256 ^ 6 * 256) with (2 ^ 56); lia|].
  split; [apply Z.div_pos; [lia|done]|]. apply Z.div_lt_upper_bound; [done|]. change (256 ^ 6 * 256 ^ Z.of_nat 2) with (2 ^ 64). lia.
Qed.

Lemma ino_ok_in_u ino : ino_ok sb ino -> in_u 56 ino.
Proof. intros [[H0 H1] _]. unfold MAX_INUMBER in H1. unfold in_u. lia. Qed.

Lemma used_entry_placed pre e post end_ : writable sb e -> Z.of_nat (length pre) < 2 ^ 16 ->
  (length pre + entry_size (length (en_name e)) <= end_ <= length (pre ++ entry_record (length pre) e ++ post))%nat ->
  used_entry (pre ++ entry_record (length pre) e ++ post) sb end_ (length pre) =
    Ok (mkDirEntry (en_name e) (en_ino e) (type_of e) (Z.of_nat (length pre)), entry_size (length (en_name e))).
Proof.
  intros [[Hn0 Hn] Hi [ft Ht]] Ha Hend. destruct (entry_size_spec (length (en_name e))) as [Hs _].
  set (buf := pre ++ _ ++ post) in *. set (nl := length (en_name e)) in *. set (at_ := length pre) in *.
  pose proof (ino_ok_in_u _ Hi) as Hiu. unfold in_u in Hiu.
  assert (Eb : buf = pre ++ to_be_bytes 8 (en_ino e) ++ to_be_bytes 1 (Z.of_nat nl) ++ en_name e ++ to_be_bytes 1 (en_ftype e) ++
    zeros (entry_pad nl) ++ to_be_bytes 2 (Z.of_nat at_) ++ post) by (unfold buf, entry_record; fold nl; by rewrite <- !app_assoc).
  assert (Hl : (at_ + entry_size nl <= length buf)%nat) by lia. clearbody buf.
  unfold used_entry, DATA_ENTRY_MIN_SIZE, data_entry.INUMBER, data_entry.NAMELEN, data_entry.NAME. rewrite Nat.add_0_r.
  assert (Hmin : (16 <= entry_size nl)%nat) by (unfold entry_size, XFS_DIR2_DATA_ALIGN; pose proof (div_ceil_bounds (8 + 1 + nl + 1 + 2) 8 ltac:(lia)); lia).
  rewrite (proj2 (Nat.ltb_ge _ _)) by lia. cbn [fail_if mbind res_bind]. rewrite be64_Ok by lia. cbn [mbind res_bind].
  assert (rd 8 at_ buf = en_ino e) as ->.
  { unfold rd. rewrite Eb, slice_between by (by rewrite ?length_to_be_bytes). apply from_to_be_bytes_small. change (256 ^ Z.of_nat 8) with (2 ^ 64). lia. }
  rewrite byte_at_Ok by lia. cbn [fmap res_fmap mbind res_bind].
  assert (rd 1 (at_ + 8) buf = Z.of_nat nl) as ->.
  { unfold rd. rewrite Eb, (app_assoc pre), slice_between by (rewrite ?length_app, ?length_to_be_bytes; done). apply from_to_be_bytes_small. cbn. lia. }
  rewrite Nat2Z.id, (proj2 (Nat.eqb_neq _ _)) by lia. cbn [fail_if mbind res_bind]. rewrite data_entry_size_entry_size.
  rewrite (proj2 (Nat.ltb_ge _ _)) by lia. cbn [fail_if mbind res_bind]. rewrite be16_Ok by lia. cbn [mbind res_bind].
  assert (rd 2 (at_ + entry_size nl - 2) buf = Z.of_nat at_) as ->.
  { unfold rd. rewrite Eb, !app_assoc. rewrite <- (app_assoc _ (to_be_bytes 2 _)).
    rewrite slice_between by (rewrite ?length_app, ?length_to_be_bytes, ?length_replicate; fold nl at_; unfold entry_pad; lia).
    apply from_to_be_bytes_small. change (256 ^ Z.of_nat 2) with (2 ^ 16). lia. }
  rewrite Z.eqb_refl. cbn [negb fail_if mbind res_bind]. rewrite check_ino_Ok by done. cbn [mbind res_bind]. rewrite Hft.
  rewrite byte_at_Ok by lia. cbn [mbind res_bind].
  assert (rd 1 (at_ + 9 + nl) buf = en_ftype e) as ->.
  { unfold rd. rewrite Eb, (app_assoc pre), (app_assoc (pre ++ _)), (app_assoc ((pre ++ _) ++ _)).
    rewrite slice_between by (rewrite ?length_app, ?length_to_be_bytes; fold nl at_; lia). apply from_to_be_bytes_small.
    pose proof (ftype_raw_range _ _ Ht). cbn. lia. }
  unfold type_of. rewrite Ht. cbn [mbind res_bind]. rewrite get_slice_Ok by lia. cbn [mbind res_bind].
  rewrite (wrap_small 32) by (unfold in_u; lia). do 3 f_equal. rewrite Eb, (app_assoc pre), (app_assoc (pre ++ _)).
  apply slice_between; [rewrite !length_app, !length_to_be_bytes; fold at_; lia|done].
Qed.

Lemma free_record_placed pre free post end_ : (0 < free)%nat -> (free mod 8 = 0)%nat -> Z.of_nat (length pre) < 2 ^ 16 -> Z.of_nat free < 2 ^ 16 ->
  (length pre + free <= end_)%nat ->
  let buf := pre ++ free_bytes (length pre) free ++ post in
  rd 2 (length pre) buf = XFS_DIR2_DATA_FREE_TAG /\ free_record buf end_ (length pre) = Ok free.
Proof.
  intros H0 Hm Ha Hf Hend buf. pose proof (Nat.div_mod free 8 ltac:(lia)). set (at_ := length pre) in *.
  assert (Eb : buf = pre ++ to_be_bytes 2 XFS_DIR2_DATA_FREE_TAG ++ to_be_bytes 2 (Z.of_nat free) ++ zeros (free - 6) ++ to_be_bytes 2 (Z.of_nat at_) ++ post).
  { unfold buf, free_bytes. rewrite (proj2 (Nat.ltb_lt _ _)) by done. by rewrite <- !app_assoc. }
  assert (Hl : (at_ + free <= length buf)%nat) by (rewrite Eb, !length_app, !length_to_be_bytes, length_replicate; fold at_; lia). clearbody buf. split.
  - unfold rd. rewrite Eb, slice_between by (by rewrite ?length_to_be_bytes). by apply from_to_be_bytes_small.
  - unfold free_record, data_unused.LENGTH. rewrite be16_Ok by lia. cbn [fmap res_fmap mbind res_bind].
    assert (rd 2 (at_ + 2) buf = Z.of_nat free) as ->.
    { unfold rd. rewrite Eb, (app_assoc pre), slice_between by (rewrite ?length_app, ?length_to_be_bytes; done). apply from_to_be_bytes_small. change (256 ^ Z.of_nat 2) with (2 ^ 16). lia. }
    rewrite Nat2Z.id. unfold XFS_DIR2_DATA_ALIGN. rewrite (proj2 (Nat.eqb_neq _ _)), Hm by lia. cbn [Nat.eqb orb negb fail_if mbind res_bind].
    rewrite (proj2 (Nat.ltb_ge _ _)) by lia. cbn [fail_if mbind res_bind]. rewrite be16_Ok by lia. cbn [mbind res_bind].
    assert (rd 2 (at_ + free - 2) buf = Z.of_nat at_) as ->.
    { unfold rd. rewrite Eb, (app_assoc pre), (app_assoc (pre ++ _)), (app_assoc ((pre ++ _) ++ _)).
      rewrite slice_between by (rewrite ?length_app, ?length_to_be_bytes, ?length_replicate; fold at_; lia).
      apply from_to_be_bytes_small. change (256 ^ Z.of_nat 2) with (2 ^ 16). lia. }
    by rewrite Z.eqb_refl.
Qed.

(** Entries packed from a point on and a free record behind them read back. *)
Lemma entries_loop_placed entries : forall fuel pre free post end_,
  Forall (writable sb) entries -> (free mod 8 = 0)%nat -> (0 < length pre)%nat ->
  end_ = (length pre + data_size entries + free)%nat -> Z.of_nat end_ <= 2 ^ 16 -> (end_ - length pre <= fuel)%nat ->
  entries_loop (pre ++ records (length pre) entries ++ free_bytes (length pre + data_size entries) free ++ post) sb end_ fuel (length pre) =
    Ok (placed (length pre) entries).
Proof.
  induction entries as [|e entries IH]; intros fuel pre free post end_ Hw Hm Hp0 He H64 Hf; cbn [records placed].
  - cbn [app]. change (data_size []) with 0%nat in *. rewrite Nat.add_0_r in *. subst end_. destruct (decide (free = 0%nat)) as [->|Hfr].
    { rewrite Nat.add_0_r in *. destruct fuel; cbn [entries_loop]; by rewrite Nat.leb_refl. }
    pose proof (Nat.div_mod free 8 ltac:(lia)). destruct fuel as [|fuel]; [lia|]. cbn [entries_loop]. rewrite (proj2 (Nat.leb_gt _ _)) by lia.
    unfold XFS_DIR2_DATA_ALIGN. rewrite (proj2 (Nat.ltb_ge _ _)) by lia. cbn [fail_if mbind res_bind].
    assert (Hb : (length pre + 2 <= length (pre ++ free_bytes (length pre) free ++ post))%nat) by (rewrite !length_app, length_free_bytes by done; lia).
    unfold data_unused.FREETAG. rewrite Nat.add_0_r, be16_Ok by exact Hb. cbn [mbind res_bind].
    destruct (free_record_placed pre free post (length pre + free) ltac:(lia) Hm) as [Er Ef]; [lia|lia|lia|].
    rewrite Er, Z.eqb_refl, Ef. cbn [mbind res_bind]. destruct fuel; cbn [entries_loop]; by rewrite Nat.leb_refl.
  - apply Forall_cons in Hw as [Hwe Hw]. rewrite data_size_cons in *. destruct (entry_size_spec (length (en_name e))) as [Hs _].
    destruct fuel as [|fuel]; [lia|]. cbn [entries_loop]. rewrite (proj2 (Nat.leb_gt _ _)) by lia.
    unfold XFS_DIR2_DATA_ALIGN. rewrite (proj2 (Nat.ltb_ge _ _)) by lia. cbn [fail_if mbind res_bind].
    set (rest := records (length pre + entry_size (length (en_name e))) entries ++ free_bytes (length pre + (entry_size (length (en_name e)) + data_size entries)) free ++ post).
    replace (pre ++ (entry_record (length pre) e ++ records (length pre + entry_size (length (en_name e))) entries) ++ free_bytes (length pre + (entry_size (length (en_name e)) + data_size entries)) free ++ post)
      with (pre ++ entry_record (length pre) e ++ rest) by (unfold rest; by rewrite <- !app_assoc).
    assert (Hlen : (end_ <= length (pre ++ entry_record (length pre) e ++ rest))%nat).
    { unfold rest. rewrite !length_app, length_entry_record, length_records, length_free_bytes by done. lia. }
    unfold data_unused.FREETAG. rewrite Nat.add_0_r, be16_Ok by lia. cbn [mbind res_bind].
    pose proof (first_bytes pre e rest (ino_ok_in_u _ (we_ino _ _ Hwe))) as Hfb. rewrite (proj2 (Z.eqb_neq _ _)) by (unfold XFS_DIR2_DATA_FREE_TAG; lia).
    rewrite used_entry_placed by (done || lia). cbn [mbind res_bind].
    replace (length pre + entry_size (length (en_name e)))%nat with (length (pre ++ entry_record (length pre) e)) in * by (by rewrite length_app, length_entry_record).
    replace (pre ++ entry_record (length pre) e ++ rest) with ((pre ++ entry_record (length pre) e) ++ records (length (pre ++ entry_record (length pre) e)) entries ++
      free_bytes (length (pre ++ entry_record (length pre) e) + data_size entries) free ++ post).
    2:{ unfold rest. by rewrite <- app_assoc, length_app, length_entry_record, <- !Nat.add_assoc. }
    rewrite (IH fuel (pre ++ entry_record (length pre) e)); [done|done|done|rewrite length_app; lia|rewrite length_app, length_entry_record; lia|done|rewrite length_app, length_entry_record; lia].
Qed.
End read_placed.

(** ** Hashes *)

Lemma lxor_u32 a b : in_u 32 a -> in_u 32 b -> in_u 32 (Z.lxor a b).
Proof.
  intros Ha Hb. unfold in_u in *. split; [apply Z.lxor_nonneg; lia|].
  destruct (Z.eq_dec (Z.lxor a b) 0) as [->|Hne]; [lia|]. assert (0 <= Z.lxor a b) by (apply Z.lxor_nonneg; lia).
  apply Z.log2_lt_pow2; [lia|]. eapply Z.le_lt_trans; [apply Z.log2_lxor; lia|].
  apply Z.max_lub_lt; (destruct (Z.eq_dec a 0) as [->|]; destruct (Z.eq_dec b 0) as [->|]; try (cbn; lia); apply Z.log2_lt_pow2; lia).
Qed.
Lemma at_shift_u32 b n : 0 <= n -> in_u 32 (at_shift b n).
Proof. intros. unfold at_shift, wshl. apply wrap_range. lia. Qed.
Lemma b2z_u32 b : in_u 32 (b2z b).
Proof. pose proof (b2z_range b). unfold in_u. lia. Qed.
Lemma wshr_u32 a n : 0 <= n < 32 -> in_u 32 a -> in_u 32 (wshr 32 a n).
Proof.
  intros Hn Ha. rewrite wshr_div by done. unfold in_u in *. split; [apply Z.div_pos; lia|].
  apply Z.div_lt_upper_bound; [lia|]. pose proof (pow2_pos n). nia.
Qed.
Lemma rol32_u32 z n : 0 < n < 32 -> in_u 32 z -> in_u 32 (rol32 z n).
Proof. intros. unfold rol32. apply lor_range; [lia|unfold wshl; apply wrap_range; lia|apply wshr_u32; [lia|done]]. Qed.

Lemma hash_loop_u32 : forall n name hash, (length name <= n)%nat -> in_u 32 hash -> in_u 32 (hash_loop name hash).
Proof.
  induction n as [|n IH]; intros name hash Hl Hh; [destruct name; [done|cbn in Hl; lia]|].
  destruct name as [|a [|b [|c [|d rest]]]]; cbn [hash_loop].
  1: done. 4: apply IH; [cbn in Hl; lia|].
  all: repeat apply lxor_u32; first [apply at_shift_u32; lia|apply b2z_u32|apply rol32_u32; [lia|done]].
Qed.
Lemma hashname_u32 name : in_u 32 (hashname name).
Proof. unfold hashname. eapply hash_loop_u32; [reflexivity|unfold in_u; lia]. Qed.
Lemma hash_folded_u32 c name : in_u 32 (hash_folded c name).
Proof. unfold hash_folded. destruct c; apply hashname_u32. Qed.
Lemma hash_for_u32 sb name : in_u 32 (hash_for sb name).
Proof. apply hash_folded_u32. Qed.

(** ** The index read *)

Definition leaf_of (x : Z * Z) : LeafEntry := mkLeafEntry x.1 x.2.
Definition index_record (x : Z * Z) : Prop := in_u 32 x.1 /\ 0 < x.2 < 2 ^ 32.

Lemma leaf_entry_at_pair pre h a post : in_u 32 h -> in_u 32 a ->
  leaf_entry_at (pre ++ (to_be_bytes 4 h ++ to_be_bytes 4 a) ++ post) (length pre) = mkLeafEntry h a.
Proof.
  intros Hh Ha. unfold in_u in *. unfold leaf_entry_at, leaf_entry.HASHVAL, leaf_entry.ADDRESS, rd. rewrite Nat.add_0_r, <- !app_assoc. f_equal.
  - rewrite slice_between by (by rewrite ?length_to_be_bytes). by apply from_to_be_bytes_small.
  - rewrite (app_assoc pre), slice_between by (rewrite ?length_app, ?length_to_be_bytes; done). by apply from_to_be_bytes_small.
Qed.

Lemma leaf_entries_at_index index : forall pre post, Forall index_record index ->
  leaf_entries_at (pre ++ index_bytes index ++ post) (length pre) (length index) = leaf_of <$> index.
Proof.
  induction index as [|[h a] index IH]; intros pre post Hr; [done|]. apply Forall_cons in Hr as [[Hh Ha] Hr]. cbn [fst snd] in *.
  unfold leaf_entries_at, XFS_DIR2_LEAF_ENTRY_SIZE. cbn [length seq]. rewrite !fmap_cons, Nat.add_0_r.
  assert (E : pre ++ index_bytes ((h, a) :: index) ++ post = pre ++ (to_be_bytes 4 h ++ to_be_bytes 4 a) ++ index_bytes index ++ post)
    by (unfold index_bytes; rewrite fmap_cons; cbn [concat fst snd]; by rewrite <- !app_assoc).
  rewrite E, leaf_entry_at_pair by (done || unfold in_u; lia). f_equal.
  rewrite app_assoc. rewrite <- (IH (pre ++ to_be_bytes 4 h ++ to_be_bytes 4 a) post Hr). unfold leaf_entries_at, XFS_DIR2_LEAF_ENTRY_SIZE.
  rewrite <- fmap_S_seq, <- list_fmap_compose. apply list_fmap_ext. intros _ i _. cbn [compose].
  rewrite !length_app, !length_to_be_bytes. f_equal. lia.
Qed.

Lemma index_of_records sb base entries : forall at_, 0 <= base -> (8 <= at_)%nat -> base + Z.of_nat (at_ + data_size entries) <= 2 ^ 35 ->
  Forall index_record (index_of sb base at_ entries).
Proof.
  induction entries as [|e entries IH]; intros at_ Hb Ha Hle; cbn [index_of]; [done|]. rewrite data_size_cons in Hle.
  destruct (entry_size_spec (length (en_name e))) as [Hs _]. constructor.
  - split; [apply hash_for_u32|]. cbn [snd]. split; [apply Z.div_str_pos; lia|apply Z.div_lt_upper_bound; lia].
  - apply IH; lia.
Qed.

Lemma by_hash_records index : Forall index_record index -> Forall index_record (by_hash index).
Proof. intros H. unfold by_hash. by rewrite sort_by_Permutation. Qed.

Lemma by_hash_ordered index : hash_ordered (leaf_of <$> by_hash index).
Proof.
  unfold hash_ordered. rewrite <- list_fmap_compose. apply Sorted.Sorted_StronglySorted; [intros ? ? ?; apply Z.le_trans|].
  assert (Hs : Sorted.Sorted (fun x y : Z * Z => (x.1 <=? y.1) = true) (by_hash index)) by (apply sort_by_Sorted; intros; lia).
  induction Hs as [|x l Hl IH Hx]; rewrite ?fmap_cons; constructor; [done|]. destruct Hx as [|y l Hxy]; rewrite ?fmap_cons; constructor. cbn. lia.
Qed.

Lemma index_not_stale index : Forall index_record index -> stale_count (leaf_of <$> index) = 0%nat.
Proof.
  intros H. unfold stale_count. apply forall_filter_nil. apply Forall_fmap. eapply Forall_impl; [exact H|].
  intros [h a] [_ Ha]. cbn in *. unfold is_stale, NULL_DATAPTR. cbn. lia.
Qed.

Lemma parse_index_built pre index post what : Forall index_record index -> hash_ordered (leaf_of <$> index) ->
  parse_leaf_entries (pre ++ index_bytes index ++ post) (length pre) (length index) 0 what = Ok (leaf_of <$> index).
Proof.
  intros Hr Ho. assert (Hl : (length pre + length index * XFS_DIR2_LEAF_ENTRY_SIZE <= length (pre ++ index_bytes index ++ post))%nat).
  { rewrite !length_app, length_index_bytes. unfold XFS_DIR2_LEAF_ENTRY_SIZE. lia. }
  apply (parse_leaf_entries_spec _ _ _ _ what Hl). rewrite leaf_entries_at_index by done. split; [done|]. split; [done|]. by apply index_not_stale.
Qed.

(** ** Whole blocks *)

Section whole.
Context (sb : Superblock) (Hty : sb_typed sb) (Hgeo : sb_geometry sb) (Hv5 : is_v5 sb = true) (Hft : has_ftype sb = true).
Let dbs := Z.to_nat (dirblocksize sb).

(** A block this long whose first four bytes are the magic. *)
Lemma read_magic_built buf magic : length buf = dbs -> rd 4 0 buf = magic ->
  dir_block_size buf sb = Ok dbs /\ read_data_magic buf sb = Ok magic.
Proof.
  intros Hl Hm. destruct (dbs_spec sb Hty Hgeo) as (_ & H512 & _). fold dbs in H512.
  assert (E : dir_block_size buf sb = Ok dbs) by (unfold dir_block_size; fold dbs; by rewrite Hl, (proj2 (Nat.ltb_ge _ _))).
  split; [done|]. unfold read_data_magic. rewrite E. cbn [mbind res_bind]. rewrite (proj2 (Nat.ltb_ge _ _)) by dir_lia. cbn [fail_if mbind res_bind].
  unfold dir3_blk.MAGIC. rewrite be32_Ok by lia. by rewrite Hm.
Qed.

Definition built_index (base : Z) (entries : list Entry) : list (Z * Z) := by_hash (index_of sb base 64 entries).

Lemma length_block_body entries : (space_needed entries <= dbs)%nat -> length (block_body sb entries) = (dbs - 64)%nat.
Proof.
  intros Hfit. destruct (dbs_spec sb Hty Hgeo) as (_ & H512 & _). fold dbs in H512. unfold space_needed in Hfit.
  cbv [XFS_DIR3_DATA_HDR_SIZE XFS_DIR2_LEAF_ENTRY_SIZE XFS_DIR2_BLOCK_TAIL_SIZE] in Hfit.
  unfold block_body. rewrite !length_app, length_records, length_free_bytes, length_index_bytes, length_by_hash, length_index_of, !length_to_be_bytes by (by apply block_free_mod8).
  unfold block_free, block_end. fold dbs. lia.
Qed.

Lemma parse_block_built head entries : length head = 64%nat -> rd 4 0 head = XFS_DIR3_BLOCK_MAGIC ->
  Forall (writable sb) entries -> (space_needed entries <= dbs)%nat ->
  parse_block_form (head ++ block_body sb entries) sb = Ok (mkBlockDir (placed 64 entries) (leaf_of <$> built_index 0 entries)).
Proof.
  intros Hh Hm Hw Hfit. pose proof (length_block_body entries Hfit) as Hbody. destruct (dbs_spec sb Hty Hgeo) as (_ & H512 & H64k & _). fold dbs in H512, H64k.
  set (buf := head ++ block_body sb entries). assert (Hlen : length buf = dbs) by (unfold buf; rewrite length_app, Hh, Hbody; unfold space_needed in Hfit; dir_lia).
  destruct (read_magic_built buf XFS_DIR3_BLOCK_MAGIC Hlen) as [Esize Emagic].
  { unfold buf, rd in *. rewrite <- Hm. f_equal. unfold slice. rewrite !drop_0, take_app_le by (rewrite Hh; lia). done. }
  unfold parse_block_form. rewrite Emagic. cbn [mbind res_bind]. change (negb (is_block_form XFS_DIR3_BLOCK_MAGIC)) with false. cbn [fail_if mbind res_bind].
  rewrite Esize. cbn [mbind res_bind]. unfold data_hdr_size. rewrite Z.eqb_refl, orb_true_r. cbn [mbind res_bind]. rewrite Hv5. cbn [Bool.eqb negb fail_if mbind res_bind].
  unfold space_needed in Hfit. cbv [XFS_DIR3_DATA_HDR_SIZE XFS_DIR2_LEAF_ENTRY_SIZE XFS_DIR2_BLOCK_TAIL_SIZE block_tail.COUNT block_tail.STALE] in *.
  rewrite (proj2 (Nat.ltb_ge _ _)) by lia. cbn [fail_if mbind res_bind]. rewrite Nat.add_0_r.
  set (cnt := length entries) in *. set (ds := data_size entries) in *. set (idx := built_index 0 entries).
  assert (Hidx : length idx = cnt) by (unfold idx, built_index; by rewrite length_by_hash, length_index_of).
  pose proof (block_free_mod8 sb Hty Hgeo entries) as Hfm. set (free := block_free sb entries) in *. assert (Hfree : free = (dbs - 8 - cnt * 8 - (64 + ds))%nat) by done.
  assert (Ebuf : buf = (head ++ records 64 entries ++ free_bytes (64 + ds) free) ++ index_bytes idx ++ to_be_bytes 4 (Z.of_nat cnt) ++ to_be_bytes 4 0)
    by (unfold buf, block_body; by rewrite <- !app_assoc).
  set (pre := head ++ _ ++ _) in Ebuf. assert (Hpre : length pre = (dbs - 8 - cnt * 8)%nat)
    by (unfold pre; rewrite !length_app, length_records, length_free_bytes, Hh by done; fold ds; lia).
  rewrite !be32_Ok by lia. cbn [mbind res_bind].
  assert (rd 4 (dbs - 8) buf = Z.of_nat cnt) as ->.
  { unfold rd. rewrite Ebuf, (app_assoc pre), slice_between by (rewrite ?length_app, ?length_to_be_bytes, ?length_index_bytes; lia). apply from_to_be_bytes_small. change (256 ^ Z.of_nat 4) with (2 ^ 32). lia. }
  assert (rd 4 (dbs - 8 + 4) buf = 0) as ->.
  { unfold rd. rewrite Ebuf, (app_assoc pre), (app_assoc (pre ++ _)). rewrite <- (app_nil_r (_ ++ to_be_bytes 4 0)), <- app_assoc, slice_between by (rewrite ?length_app, ?length_to_be_bytes, ?length_index_bytes; lia). by apply from_to_be_bytes_small. }
  rewrite (proj2 (Z.ltb_ge _ _)), (proj2 (Z.ltb_ge _ _)) by lia. cbn [fail_if mbind res_bind]. change (Z.of_nat 8) with 8.
  replace (dbs - 8 - Z.to_nat (Z.of_nat cnt * 8))%nat with (length pre) by lia. rewrite Nat2Z.id. change (Z.to_nat 0) with 0%nat.
  assert (parse_leaf_entries buf (length pre) cnt 0 "block-form directory" = Ok (leaf_of <$> idx)) as ->.
  { rewrite Ebuf, <- Hidx. apply parse_index_built; [apply by_hash_records, index_of_records; fold ds; lia|apply by_hash_ordered]. }
  cbn [mbind res_bind]. unfold parse_entries. rewrite Ebuf. unfold pre at 1. rewrite <- !app_assoc, <- Hh.
  rewrite entries_loop_placed; [done|done|done|done|lia|fold ds; lia|lia|lia].
Qed.
End whole.

(** ** Data blocks and leaves, read *)

Section data_and_leaf.
Context (sb : Superblock) (Hty : sb_typed sb) (Hgeo : sb_geometry sb).
Let dbs := Z.to_nat (dirblocksize sb).

Definition data_free (entries : list Entry) : nat := dbs - (64 + data_size entries).
Definition data_body (entries : list Entry) : bytes := records 64 entries ++ free_bytes (64 + data_size entries) (data_free entries).
Definition data_head (fsblock owner : Z) (entries : list Entry) : bytes :=
  head48 sb XFS_DIR3_DATA_MAGIC fsblock owner ++ bestfree_bytes (64 + data_size entries) (data_free entries).

Lemma data_free_mod8 entries : (data_free entries mod 8 = 0)%nat.
Proof.
  unfold data_free. destruct (dbs_spec sb Hty Hgeo) as (_ & _ & _ & Hm & _). fold dbs in Hm. pose proof (data_size_mod8 entries) as Hd.
  pose proof (Nat.div_mod dbs 8 ltac:(lia)). pose proof (Nat.div_mod (data_size entries) 8 ltac:(lia)).
  replace (dbs - (64 + data_size entries))%nat with ((dbs / 8 - 8 - data_size entries / 8) * 8)%nat by lia.
  apply Nat.mod_mul. lia.
Qed.

Lemma build_data_block_spec fsblock owner db entries : Forall named entries -> addressable dbs db -> (64 + data_size entries <= dbs)%nat ->
  build_data_block sb fsblock owner db entries =
    Ok (mkDataBlock (data_head fsblock owner entries ++ data_body entries) (Z.of_nat (data_free entries))
          (index_of sb (db * Z.of_nat dbs) 64 entries)).
Proof.
  intros Hn Had Hfit. destruct (dbs_spec sb Hty Hgeo) as (_ & H512 & H64k & Hm & _). fold dbs in H512, H64k, Hm. unfold build_data_block. fold dbs.
  cbv [XFS_DIR3_DATA_HDR_SIZE]. rewrite place_header_spec by (done || lia). cbn [mbind res_bind].
  set (h := head48 _ _ _ _). pose proof (length_head48 sb Hty XFS_DIR3_DATA_MAGIC fsblock owner) as Hh. fold h in Hh. set (ds := data_size entries) in *.
  replace (dbs - 48)%nat with (16 + (dbs - 64))%nat by lia. rewrite replicate_add, app_assoc.
  assert (Hp : length (h ++ zeros 16) = 64%nat) by (by rewrite length_app, length_replicate, Hh). rewrite <- Hp.
  rewrite place_in_data_block_spec by (rewrite ?Hp; fold ds; done || lia). cbn [mbind res_bind]. fold ds. rewrite Hp.
  pose proof (data_free_mod8 entries) as Hfm. set (free := data_free entries) in *. assert (Hfree : free = (dbs - (64 + ds))%nat) by done.
  set (recs := records 64 entries). assert (Hr : length recs = ds) by apply length_records.
  replace (dbs - 64 - ds)%nat with free by lia. rewrite <- Hfree. rewrite <- (app_nil_r (zeros free)).
  assert (Hl : length ((h ++ zeros 16) ++ recs) = (64 + ds)%nat) by (rewrite !length_app, Hh, Hr; done).
  assert (Egap : (if (0 <? free)%nat then
      block ← place_free (Ok (wrap 16 (Z.of_nat (64 + ds)))) (((h ++ zeros 16) ++ recs) ++ zeros free ++ []) (64 + ds) free;
      place_bestfree block (64 + ds) free
    else Ok (((h ++ zeros 16) ++ recs) ++ zeros free ++ [])) = Ok (data_head fsblock owner entries ++ data_body entries)).
  { pose proof (place_free_if (Ok (wrap 16 (Z.of_nat (64 + ds)))) ((h ++ zeros 16) ++ recs) [] free) as Hpf. rewrite Hl in Hpf.
    specialize (Hpf ltac:(intros; by rewrite wrap_small by (unfold in_u; lia)) Hfm ltac:(lia)).
    pose proof (place_bestfree_if sb Hty XFS_DIR3_DATA_MAGIC fsblock owner (recs ++ free_bytes (64 + ds) free ++ []) (64 + ds) free ltac:(lia) ltac:(lia)) as Hpb. fold h in Hpb.
    unfold data_head, data_body. fold ds free h recs. destruct (0 <? free)%nat.
    - rewrite Hpf. cbn [mbind res_bind]. rewrite <- !app_assoc. rewrite Hpb. by rewrite app_nil_r.
    - rewrite Hpf, <- !app_assoc, Hpb. by rewrite app_nil_r. }
  rewrite Egap. cbn [mbind res_bind]. unfold try_u16. rewrite (proj2 (Z.ltb_lt _ _)) by lia. done.
Qed.

Context (Hv5 : is_v5 sb = true) (Hft : has_ftype sb = true).

Lemma parse_data_built head entries : length head = 64%nat -> rd 4 0 head = XFS_DIR3_DATA_MAGIC ->
  Forall (writable sb) entries -> (64 + data_size entries <= dbs)%nat ->
  parse_data_block (head ++ data_body entries) sb = Ok (placed 64 entries).
Proof.
  intros Hh Hm Hw Hfit. destruct (dbs_spec sb Hty Hgeo) as (_ & H512 & H64k & _). fold dbs in H512, H64k.
  pose proof (data_free_mod8 entries) as Hfm. set (buf := head ++ data_body entries).
  assert (Hlen : length buf = dbs) by (unfold buf, data_body; rewrite !length_app, Hh, length_records, length_free_bytes by done; unfold data_free; lia).
  destruct (read_magic_built sb Hty Hgeo buf XFS_DIR3_DATA_MAGIC Hlen) as [Esize Emagic].
  { unfold buf, rd in *. rewrite <- Hm. f_equal. unfold slice. rewrite !drop_0, take_app_le by (rewrite Hh; lia). done. }
  unfold parse_data_block. rewrite Emagic. cbn [mbind res_bind]. change (is_block_form XFS_DIR3_DATA_MAGIC) with false. cbn iota.
  rewrite Esize. fold dbs. cbn [mbind res_bind]. unfold data_hdr_size. rewrite Z.eqb_refl. cbn [orb mbind res_bind]. rewrite Hv5. cbn [Bool.eqb negb fail_if mbind res_bind].
  unfold parse_entries, XFS_DIR3_DATA_HDR_SIZE. unfold buf, data_body. rewrite <- Hh, <- (app_nil_r (free_bytes _ _)).
  apply entries_loop_placed; [done|done|done|lia|unfold data_free; lia|lia|lia].
Qed.

(** The block-form block read as a data block. *)
Lemma parse_data_of_block head entries : length head = 64%nat -> rd 4 0 head = XFS_DIR3_BLOCK_MAGIC ->
  Forall (writable sb) entries -> (space_needed entries <= dbs)%nat ->
  parse_data_block (head ++ block_body sb entries) sb = Ok (placed 64 entries).
Proof.
  intros Hh Hm Hw Hfit. pose proof (parse_block_built sb Hty Hgeo Hv5 Hft head entries Hh Hm Hw Hfit) as E.
  unfold parse_data_block. unfold parse_block_form in E |- *. apply bind_Ok in E as (m & Em & E). rewrite Em. cbn [mbind res_bind].
  apply guard_Ok in E as [Hb E]. apply negb_false_iff in Hb. rewrite Hb. cbn [negb fail_if mbind res_bind]. rewrite E. done.
Qed.
End data_and_leaf.

(** ** The leaf *)

Definition bests_bytes (bests : list Z) : bytes := concat (to_be_bytes 2 <$> bests).
Lemma length_bests_bytes bests : length (bests_bytes bests) = (length bests * 2)%nat.
Proof. unfold bests_bytes. induction bests as [|b l IH]; [done|]. rewrite fmap_cons. cbn [concat length]. rewrite length_app, length_to_be_bytes, IH. lia. Qed.

Lemma place_bests_spec bests : forall pre mid post, length mid = (length bests * 2)%nat ->
  place_bests (pre ++ mid ++ post) (length pre) bests = Ok (pre ++ bests_bytes bests ++ post).
Proof.
  induction bests as [|b bests IH]; intros pre mid post Hm; cbn [place_bests]; [by destruct mid|].
  cbn [length] in Hm. rewrite <- (take_drop 2 mid). set (m1 := take 2 mid). set (m2 := drop 2 mid).
  assert (H1 : length m1 = 2%nat) by (unfold m1; rewrite length_take; lia). assert (H2 : length m2 = (length bests * 2)%nat) by (unfold m2; rewrite length_drop; lia).
  rewrite <- !app_assoc, copy_at_mid by (rewrite ?length_to_be_bytes; lia). cbn [mbind res_bind]. unfold XFS_DIR2_BEST_SIZE.
  rewrite (app_assoc pre). replace (length pre + 2)%nat with (length (pre ++ to_be_bytes 2 b)) by (rewrite length_app, length_to_be_bytes; done).
  rewrite IH by done. unfold bests_bytes. rewrite fmap_cons. cbn [concat]. by rewrite <- !app_assoc.
Qed.

Section leaf.
Context (sb : Superblock) (Hty : sb_typed sb) (Hgeo : sb_geometry sb).
Let dbs := Z.to_nat (dirblocksize sb).

Definition leaf_head (fsblock owner count : Z) : bytes :=
  zeros 8 ++ to_be_bytes 2 XFS_DIR3_LEAF1_MAGIC ++ zeros 6 ++ to_be_bytes 8 (blkno_of_fsbno sb fsblock) ++ zeros 8 ++ sb_meta_uuid sb ++
  to_be_bytes 8 owner ++ to_be_bytes 2 count ++ zeros 6.
Definition leaf_body (index : list (Z * Z)) (bests : list Z) : bytes :=
  index_bytes (by_hash index) ++ zeros (dbs - 4 - length bests * 2 - 64 - length index * 8) ++ bests_bytes bests ++
  to_be_bytes 4 (Z.of_nat (length bests)).

Lemma length_leaf_head fsblock owner count : length (leaf_head fsblock owner count) = 64%nat.
Proof. unfold leaf_head. rewrite !length_app, !length_to_be_bytes, !length_replicate, (ty_meta_uuid sb Hty). done. Qed.

(** The index and the free-region list fit in one block. *)
Definition leaf_fits (index : list (Z * Z)) (bests : list Z) : Prop := (64 + length index * 8 + length bests * 2 + 4 <= dbs)%nat.

Lemma leaf_capacity_spec nb n : (68 + nb * 2 <= dbs)%nat -> Z.of_nat n <= leaf_capacity dbs nb <-> (64 + n * 8 + nb * 2 + 4 <= dbs)%nat.
Proof.
  intros Hb. destruct (dbs_spec sb Hty Hgeo) as (_ & H512 & H64k & _). fold dbs in H512, H64k. unfold leaf_capacity.
  cbv [XFS_DIR3_LEAF_HDR_SIZE XFS_DIR2_LEAF_TAIL_SIZE XFS_DIR2_BEST_SIZE XFS_DIR2_LEAF_ENTRY_SIZE]. 
  rewrite (wsub_small 64 (Z.of_nat dbs)) by lia. rewrite (wsub_small 64 (Z.of_nat dbs - Z.of_nat 64)) by lia.
  rewrite (wsub_small 64 (Z.of_nat dbs - Z.of_nat 64 - Z.of_nat 4)) by lia.
  set (c := Z.of_nat dbs - Z.of_nat 64 - Z.of_nat 4 - Z.of_nat (nb * 2)). assert (0 <= c) by (unfold c; lia).
  change (Z.of_nat 8) with 8. pose proof (Z.div_mod c 8 ltac:(lia)). pose proof (Z.mod_pos_bound c 8 ltac:(lia)). unfold c in *. lia.
Qed.

Lemma dir_leaf_spec fsblock owner index bests : (68 + length bests * 2 <= dbs)%nat ->
  (leaf_fits index bests /\ build_leaf sb fsblock owner index bests = Ok (leaf_head fsblock owner (Z.of_nat (length index)) ++ leaf_body index bests)) \/
  (~ leaf_fits index bests /\ exists e, build_leaf sb fsblock owner index bests = Err e).
Proof.
  intros Hb. destruct (dbs_spec sb Hty Hgeo) as (_ & H512 & H64k & _). fold dbs in H512, H64k. unfold build_leaf. fold dbs.
  pose proof (leaf_capacity_spec (length bests) (length index) Hb) as Hcap. fold dbs in Hcap. unfold leaf_fits.
  destruct (Z.ltb_spec (leaf_capacity dbs (length bests)) (Z.of_nat (length index))) as [Hlt|Hge]; cbn [fail_if mbind res_bind].
  { right. split; [intros H; apply Hcap in H; lia|by eexists]. }
  apply Hcap in Hge. left. split; [done|]. set (nb := length bests) in *. set (n := length index) in *. pose proof (ty_meta_uuid sb Hty) as Hu.
  unfold da_blk.MAGIC, da_blk.BLKNO, da_blk.UUID, da_blk.OWNER, leaf_hdr_count, XFS_DIR3_LEAF_HDR_SIZE.
  pose proof (copy_zeros [] 8 (to_be_bytes 2 XFS_DIR3_LEAF1_MAGIC) dbs 8 eq_refl) as E. rewrite length_to_be_bytes in E. cbn [app] in E. rewrite E by lia. clear E. cbn [mbind res_bind].
  rewrite (copy_zeros _ 6) by (rewrite ?length_app, ?length_to_be_bytes, ?length_replicate; lia). cbn [mbind res_bind]. rewrite length_to_be_bytes.
  rewrite (copy_zeros _ 8) by (rewrite ?length_app, ?length_to_be_bytes, ?length_replicate, ?Hu; lia). cbn [mbind res_bind]. rewrite Hu.
  rewrite copy_next by (rewrite ?length_app, ?length_to_be_bytes, ?length_replicate, ?Hu; lia). cbn [mbind res_bind]. rewrite length_to_be_bytes.
  unfold try_u16. rewrite (proj2 (Z.ltb_lt _ _)) by lia. cbn [expect mbind res_bind].
  rewrite copy_next by (rewrite ?length_app, ?length_to_be_bytes, ?length_replicate, ?Hu; lia). cbn [mbind res_bind]. rewrite length_to_be_bytes.
  replace (dbs - 8 - 2 - 6 - 8 - 8 - 16 - 8 - 2)%nat with (6 + (n * 8 + ((dbs - 4 - nb * 2 - 64 - n * 8) + (nb * 2 + 4))))%nat by lia. rewrite !replicate_add.
  match goal with |- context [place_index ?b _ _] => replace b with (leaf_head fsblock owner (Z.of_nat n) ++ zeros (n * 8) ++ zeros (dbs - 4 - nb * 2 - 64 - n * 8) ++ zeros (nb * 2) ++ zeros 4)
    by (unfold leaf_head; by rewrite <- !app_assoc) end.
  set (h := leaf_head _ _ _). assert (Hh : length h = 64%nat) by apply length_leaf_head.
  match goal with |- context [place_index ?b 64 ?i] => replace (place_index b 64 i) with (place_index b (length h) i) by (by rewrite Hh) end.
  rewrite place_index_spec by (by rewrite length_replicate, length_by_hash). cbn [mbind res_bind]. set (idx := index_bytes (by_hash index)).
  assert (Hi : length idx = (n * 8)%nat) by (unfold idx; by rewrite length_index_bytes, length_by_hash).
  set (gap := zeros (dbs - 4 - nb * 2 - 64 - n * 8)). assert (Hg : length gap = (dbs - 4 - nb * 2 - 64 - n * 8)%nat) by apply length_replicate.
  unfold bests_start, leaf_tail_at, XFS_DIR2_LEAF_TAIL_SIZE, XFS_DIR2_BEST_SIZE.
  replace (h ++ idx ++ gap ++ zeros (nb * 2) ++ zeros 4) with ((h ++ idx ++ gap) ++ zeros (nb * 2) ++ zeros 4) by (by rewrite <- !app_assoc).
  replace (dbs - 4 - nb * 2)%nat with (length (h ++ idx ++ gap)) by (rewrite !length_app, Hh, Hi, Hg; lia).
  rewrite place_bests_spec by (by rewrite length_replicate). cbn [mbind res_bind]. rewrite app_assoc.
  rewrite copy_next by (rewrite ?length_app, ?length_bests_bytes, ?length_to_be_bytes, ?Hh, ?Hi, ?Hg; fold nb; lia). rewrite length_to_be_bytes. cbn [Nat.sub replicate].
  rewrite app_nil_r, wrap_small by (unfold in_u; lia). unfold leaf_body. fold nb n idx gap. by rewrite <- !app_assoc.
Qed.

Context (Hv5 : is_v5 sb = true).

(** A leaf's head as a reader sees it. *)
Record reads_leaf_head (head : bytes) (count : Z) : Prop := {
  rl_len : length head = 64%nat;
  rl_magic : rd 2 8 head = XFS_DIR3_LEAF1_MAGIC;
  rl_count : rd 2 56 head = count;
  rl_stale : rd 2 58 head = 0;
  rl_forw : rd 4 0 head = 0;
  rl_back : rd 4 4 head = 0;
}.

Lemma rd_head n off (head body : bytes) : (off + n <= length head)%nat -> rd n off (head ++ body) = rd n off head.
Proof. intros Hl. unfold rd, slice. rewrite drop_app_le, take_app_le by (rewrite ?length_drop; lia). done. Qed.

Lemma parse_leaf_built head index bests : Forall index_record index -> leaf_fits index bests -> reads_leaf_head head (Z.of_nat (length index)) ->
  parse_leaf (head ++ leaf_body index bests) sb =
    Ok (mkDirLeaf XFS_DIR3_LEAF1_MAGIC 0 0 (Z.of_nat (length index)) 0 (leaf_of <$> by_hash index) (Some (Z.of_nat (length bests)))).
Proof.
  intros Hr Hfit [Hh Hm Hc Hst Hfw Hbk]. unfold leaf_fits in Hfit. destruct (dbs_spec sb Hty Hgeo) as (_ & H512 & H64k & _). fold dbs in H512, H64k.
  set (n := length index) in *. set (nb := length bests) in *. set (buf := head ++ leaf_body index bests).
  assert (Hlen : length buf = dbs).
  { unfold buf, leaf_body. rewrite !length_app, Hh, length_index_bytes, length_by_hash, length_replicate, length_bests_bytes, length_to_be_bytes. fold n nb. lia. }
  assert (Hrd : forall k off, (off + k <= 64)%nat -> rd k off buf = rd k off head) by (intros; apply rd_head; by rewrite Hh).
  unfold parse_leaf, dir_block_size. fold dbs. rewrite Hlen, (proj2 (Nat.ltb_ge dbs dbs)) by lia. cbn [fail_if mbind res_bind].
  rewrite (proj2 (Nat.ltb_ge _ _)) by dir_lia. cbn [fail_if mbind res_bind]. unfold da_blk.MAGIC. rewrite be16_Ok by lia. cbn [mbind res_bind].
  rewrite Hrd, Hm by lia. change (negb (is_leaf_magic XFS_DIR3_LEAF1_MAGIC)) with false. cbn [fail_if mbind res_bind].
  unfold da_hdr_size. rewrite Z.eqb_refl. cbn [orb mbind res_bind]. rewrite Hv5. cbn [Bool.eqb negb fail_if mbind res_bind].
  unfold da_counts, XFS_DIR3_LEAF_HDR_SIZE, XFS_DIR2_LEAF_TAIL_SIZE. cbn [Nat.sub Nat.add]. rewrite !be16_Ok by lia. cbn [mbind res_bind].
  rewrite !Hrd, Hc, Hst by lia. rewrite (proj2 (Z.ltb_ge _ _)) by lia. cbn [fail_if mbind res_bind]. rewrite (be32_Ok buf (dbs - 4)) by lia. cbn [mbind res_bind].
  assert (rd 4 (dbs - 4) buf = Z.of_nat nb) as ->.
  { unfold rd. rewrite <- (app_nil_r buf). unfold buf, leaf_body. rewrite !app_assoc. rewrite <- (app_assoc _ (to_be_bytes 4 _) []).
    rewrite slice_between by (rewrite ?length_app, ?Hh, ?length_index_bytes, ?length_by_hash, ?length_replicate, ?length_bests_bytes, ?length_to_be_bytes; fold n nb; lia).
    apply from_to_be_bytes_small. change (256 ^ Z.of_nat 4) with (2 ^ 32). lia. }
  rewrite (proj2 (Z.ltb_ge _ _)) by lia. cbn [fail_if mbind res_bind]. rewrite Nat2Z.id. unfold XFS_DIR2_LEAF_ENTRY_SIZE.
  rewrite (proj2 (Nat.ltb_ge _ _)) by lia. cbn [fail_if mbind res_bind]. change (Z.to_nat 0) with 0%nat.
  assert (parse_leaf_entries buf 64 n 0 "directory leaf block" = Ok (leaf_of <$> by_hash index)) as ->.
  { unfold buf, leaf_body. rewrite <- Hh. replace n with (length (by_hash index)) by (by rewrite length_by_hash).
    apply parse_index_built; [by apply by_hash_records|apply by_hash_ordered]. }
  cbn [mbind res_bind]. unfold da_blk.FORW, da_blk.BACK. rewrite !be32_Ok by lia. cbn [mbind res_bind]. by rewrite !Hrd, Hfw, Hbk by lia.
Qed.
End leaf.

(** ** As recovery leaves them *)

Lemma splice_head pos (bs head body : bytes) : (pos + length bs <= length head)%nat -> splice pos bs (head ++ body) = splice pos bs head ++ body.
Proof. intros Hl. unfold splice. rewrite take_app_le, drop_app_le by lia. by rewrite <- !app_assoc. Qed.

(** Reading a field of a concatenation. *)
Lemma slice_skip {A} (a l : list A) off n : (length a <= off)%nat -> slice off n (a ++ l) = slice (off - length a) n l.
Proof. intros Hl. unfold slice. by rewrite drop_app_ge. Qed.
Lemma slice_all {A} (l : list A) n : n = length l -> slice 0 n l = l.
Proof. intros ->. unfold slice. rewrite drop_0. by apply take_ge. Qed.

Ltac part_len := rewrite ?length_to_be_bytes, ?length_replicate; try match goal with H : length (sb_meta_uuid _) = _ |- _ => rewrite ?H end.
Ltac slice_field :=
  repeat (rewrite slice_skip by (part_len; lia); part_len; cbn [Nat.sub]);
  first [rewrite slice_head by (part_len; done) | rewrite slice_all by (part_len; done)].

Section stamped.
Context `{Crc : Crc32c} {Laws : Crc32cLaws}.
Context (sb : Superblock) (Hty : sb_typed sb) (Hgeo : sb_geometry sb).
Let dbs := Z.to_nat (dirblocksize sb).

Definition stamped (at_ : nat) (buf : bytes) : bytes := splice at_ (to_le_bytes 4 (zeroed_crc buf at_)) buf.

Lemma length_dir_stamped at_ buf : (at_ + 4 <= length buf)%nat -> length (stamped at_ buf) = length buf.
Proof. intros. unfold stamped. rewrite length_splice; [done|]. by rewrite length_to_le_bytes. Qed.

Lemma restamp_stamped at_ buf : (at_ + 4 <= length buf)%nat -> restamp at_ buf = Ok (stamped at_ buf).
Proof.
  intros Hl. unfold restamp. rewrite (proj2 (Nat.ltb_ge _ _)) by lia. rewrite crc32c_with_zeroed_crc_Ok by done. cbn [mbind res_bind].
  rewrite copy_at_Ok by (by rewrite length_to_le_bytes). done.
Qed.

Lemma blkno_u64 fsblock : in_u 64 (blkno_of_fsbno sb fsblock).
Proof.
  pose proof (ty_blocksize sb Hty) as Hb. pose proof (ty_agblocks sb Hty) as Ha. unfold in_u in Hb, Ha. unfold blkno_of_fsbno, fsblock_offset. destruct (split_fsblock sb fsblock) as [ag blk] eqn:E.
  assert (0 <= ag /\ 0 <= blk) as [Hag Hblk].
  { unfold split_fsblock in E. injection E as <- <-. split; apply wrap_range; lia. }
  unfold saturating_mul, saturating_add, umax, in_u. set (x := Z.min _ _). assert (0 <= x < 2 ^ 64) as [Hx1 Hx2] by (unfold x; nia).
  split; [by apply Z.div_pos|]. apply Z.div_lt_upper_bound; [done|]. unfold BBSIZE. lia.
Qed.

(** The fields of a header, and the checksum last. *)
Lemma verify_stamped what layout head body fsblock owner :
  length (head ++ body) = dbs -> in_u 64 owner ->
  (l_crc layout + 4 <= length head)%nat ->
  slice (l_uuid layout) 16 (stamped (l_crc layout) (head ++ body)) = sb_meta_uuid sb ->
  rd 8 (l_blkno layout) (stamped (l_crc layout) (head ++ body)) = blkno_of_fsbno sb fsblock ->
  rd 8 (l_owner layout) (stamped (l_crc layout) (head ++ body)) = owner ->
  (l_uuid layout + 16 <= 512 /\ l_blkno layout + 8 <= 512 /\ l_owner layout + 8 <= 512)%nat ->
  verify_v5_header what layout (stamped (l_crc layout) (head ++ body)) sb (blkno_of_fsbno sb fsblock) owner = Ok tt.
Proof.
  intros Hlen Ho Hcrc Hu Hb Hown (H1 & H2 & H3). destruct (dbs_spec sb Hty Hgeo) as (_ & H512 & _). fold dbs in H512.
  set (buf := head ++ body) in *. assert (Hc : (l_crc layout + 4 <= length buf)%nat) by (unfold buf; rewrite length_app; lia). clearbody buf.
  pose proof (length_dir_stamped _ _ Hc) as Hl. set (image := stamped (l_crc layout) buf) in *.
  unfold verify_v5_header. destruct (negb (is_v5 sb)); [done|]. unfold dir_block_size. fold dbs. rewrite Hl, Hlen, (proj2 (Nat.ltb_ge dbs dbs)) by lia. cbn [fail_if mbind res_bind].
  rewrite le32_Ok by lia. cbn [mbind res_bind]. rewrite get_slice_Ok by lia. cbn [mbind res_bind].
  assert (slice 0 dbs image = image) as -> by (unfold slice; rewrite drop_0; apply take_ge; lia).
  rewrite crc32c_with_zeroed_crc_Ok by lia. cbn [mbind res_bind].
  assert (rd_le 4 (l_crc layout) image = zeroed_crc image (l_crc layout)) as ->.
  { unfold image, stamped. rewrite zeroed_crc_splice by (by rewrite ?length_to_le_bytes). apply rd_le_splice_same; [done|]. apply zeroed_crc_range. }
  rewrite Z.eqb_refl. cbn [negb fail_if mbind res_bind]. rewrite uuid_at_Ok by lia. cbn [mbind res_bind].
  rewrite Hu, bool_decide_eq_true_2 by done. cbn [negb fail_if mbind res_bind]. rewrite !be64_Ok by lia. cbn [mbind res_bind].
  rewrite Hb, Z.eqb_refl. cbn [negb fail_if mbind res_bind]. by rewrite Hown, Z.eqb_refl.
Qed.
Lemma stamped_head at_ (head body : bytes) : (at_ + 4 <= length head)%nat ->
  exists head', stamped at_ (head ++ body) = head' ++ body /\ length head' = length head /\
    forall n off, (off + n <= at_ \/ at_ + 4 <= off)%nat -> slice off n head' = slice off n head.
Proof.
  intros Hl. unfold stamped. eexists. rewrite splice_head by (by rewrite length_to_le_bytes). split; [done|]. split.
  - rewrite length_splice; [done|]. by rewrite length_to_le_bytes.
  - intros n off Ho. apply slice_splice_disjoint; by rewrite ?length_to_le_bytes.
Qed.

(** A block under a data block's header. *)
Lemma data_header_verified magic fsblock owner rest : length (head48 sb magic fsblock owner ++ rest) = dbs -> in_u 32 magic -> in_u 64 owner ->
  verify_data_block (stamped dir3_blk.CRC (head48 sb magic fsblock owner ++ rest)) sb (blkno_of_fsbno sb fsblock) owner = Ok tt.
Proof.
  intros Hlen Hm Ho. set (h := head48 sb magic fsblock owner) in *. pose proof (length_head48 sb Hty magic fsblock owner) as Hh. fold h in Hh.
  assert (Hfield : forall n off, (8 <= off)%nat -> (off + n <= 48)%nat -> slice off n (stamped dir3_blk.CRC (h ++ rest)) = slice off n h).
  { intros n off H8 H48. unfold stamped. rewrite slice_splice_disjoint by (rewrite ?length_to_le_bytes, ?length_app; unfold dir3_blk.CRC; lia).
    unfold slice. rewrite drop_app_le, take_app_le by (rewrite ?length_drop; lia). done. }
  unfold in_u in *. pose proof (blkno_u64 fsblock) as Hb. unfold in_u in Hb. pose proof (ty_meta_uuid sb Hty) as Hu.
  apply verify_stamped; cbn [l_crc l_blkno l_uuid l_owner DIR3_BLK_HDR]; unfold dir3_blk.CRC, dir3_blk.BLKNO, dir3_blk.UUID, dir3_blk.OWNER in *;
    [done|done|rewrite Hh; lia| | | |lia]; unfold rd; rewrite Hfield by lia; unfold h, head48.
  - by slice_field.
  - slice_field. by apply from_to_be_bytes_small.
  - slice_field. by apply from_to_be_bytes_small.
Qed.

Lemma data_header_magic magic fsblock owner rest : in_u 32 magic ->
  rd 4 0 (head48 sb magic fsblock owner ++ rest) = magic.
Proof. intros Hm. unfold rd, head48. rewrite <- !app_assoc, slice_head by (by rewrite length_to_be_bytes). by apply from_to_be_bytes_small. Qed.

(** The same, under a leaf's header. *)
Lemma leaf_header_verified fsblock owner count rest : length (leaf_head sb fsblock owner count ++ rest) = dbs -> in_u 64 owner ->
  verify_da_block (stamped da_blk.CRC (leaf_head sb fsblock owner count ++ rest)) sb (blkno_of_fsbno sb fsblock) owner = Ok tt.
Proof.
  intros Hlen Ho. set (h := leaf_head sb fsblock owner count) in *. pose proof (length_leaf_head sb Hty fsblock owner count) as Hh. fold h in Hh.
  assert (Hfield : forall n off, (16 <= off)%nat -> (off + n <= 64)%nat -> slice off n (stamped da_blk.CRC (h ++ rest)) = slice off n h).
  { intros n off H8 H48. unfold stamped. rewrite slice_splice_disjoint by (rewrite ?length_to_le_bytes, ?length_app; unfold da_blk.CRC; lia).
    unfold slice. rewrite drop_app_le, take_app_le by (rewrite ?length_drop; lia). done. }
  unfold in_u in *. pose proof (blkno_u64 fsblock) as Hb. unfold in_u in Hb. pose proof (ty_meta_uuid sb Hty) as Hu.
  apply verify_stamped; cbn [l_crc l_blkno l_uuid l_owner DA3_BLK_HDR]; unfold da_blk.CRC, da_blk.BLKNO, da_blk.UUID, da_blk.OWNER in *;
    [done|done|rewrite Hh; lia| | | |lia]; unfold rd; rewrite Hfield by lia; unfold h, leaf_head.
  - by slice_field.
  - slice_field. by apply from_to_be_bytes_small.
  - slice_field. by apply from_to_be_bytes_small.
Qed.

Lemma leaf_header_reads fsblock owner count (head' : bytes) : in_u 16 count ->
  length head' = 64%nat -> (forall n off, (off + n <= 12 \/ 16 <= off)%nat -> slice off n head' = slice off n (leaf_head sb fsblock owner count)) ->
  reads_leaf_head head' count.
Proof.
  intros Hc Hl Hs. pose proof (ty_meta_uuid sb Hty) as Hu. split; [done|..]; unfold rd; rewrite Hs by lia; unfold leaf_head.
  - by slice_field.
  - slice_field. by apply from_to_be_bytes_small.
  - change (zeros 6) with (zeros 2 ++ zeros 4) at 2. by slice_field.
  - change (zeros 8) with (zeros 4 ++ zeros 4) at 1. rewrite <- app_assoc. by slice_field.
  - change (zeros 8) with (zeros 4 ++ zeros 4) at 1. rewrite <- app_assoc. by slice_field.
Qed.
End stamped.

(** ** What is built is what is read *)

Section built_read.
Context `{Crc : Crc32c} {Laws : Crc32cLaws}.
Context (sb : Superblock) (Hty : sb_typed sb) (Hgeo : sb_geometry sb) (Hv5 : is_v5 sb = true) (Hft : has_ftype sb = true).
Let dbs := Z.to_nat (dirblocksize sb).

(** What a buffer item of this type leaves on the device. *)
Definition written (buf_type : Z) (block : bytes) (image : bytes) : Prop :=
  forall blk fl dirty, image_as_written (mkItem blk buf_type fl block dirty) = Ok image.

Lemma image_written t at_ buf : (at_ + 4 <= length buf)%nat -> (forall blk fl dirty, crc_offset (mkItem blk t fl buf dirty) = Some at_) ->
  written t buf (stamped at_ buf).
Proof. intros Hl Ht blk fl dirty. unfold image_as_written. rewrite Ht. cbn [data]. by apply restamp_stamped. Qed.

Lemma built_block fsblock owner entries : Forall (writable sb) entries -> in_u 64 owner -> (space_needed entries <= dbs)%nat ->
  let block := block_head sb fsblock owner entries ++ block_body sb entries in
  length block = dbs /\
  exists head, stamped 4 block = head ++ block_body sb entries /\ length head = 64%nat /\ rd 4 0 head = XFS_DIR3_BLOCK_MAGIC /\
    verify_data_block (stamped 4 block) sb (blkno_of_fsbno sb fsblock) owner = Ok tt.
Proof.
  intros Hw Ho Hfit block. assert (Hh : length (block_head sb fsblock owner entries) = 64%nat)
    by (unfold block_head; by rewrite length_app, length_head48, length_bestfree_bytes).
  assert (Hl : length block = dbs).
  { unfold block. rewrite length_app, Hh, length_block_body by done. fold dbs. unfold space_needed in Hfit. dir_lia. }
  split; [done|]. destruct (stamped_head 4 (block_head sb fsblock owner entries) (block_body sb entries)) as (head & E & Hlh & Hs); [rewrite Hh; lia|].
  exists head. split; [done|]. rewrite Hlh. split; [done|]. split.
  - unfold rd. rewrite Hs by lia. change (from_be_bytes (slice 0 4 (block_head sb fsblock owner entries))) with (rd 4 0 (block_head sb fsblock owner entries)).
    by apply data_header_magic.
  - unfold block, block_head in Hl |- *. rewrite <- app_assoc in Hl |- *. by apply data_header_verified.
Qed.

(** A directory of one block is built exactly when its entries, its index and
    its header fit, and refused otherwise.  As recovery leaves it, with its
    checksum, the block is the one its readers accept at that address for that
    owner; it holds the entries where they were placed, in order, and its index
    is their hashes and addresses in hash order. *)
Theorem dir_block_built_read fsblock owner entries : Forall (writable sb) entries -> in_u 64 owner ->
  match build sb fsblock owner entries with
  | Ok block => (space_needed entries <= dbs)%nat /\ exists image index,
      written BLFT_DIR_BLOCK block image /\
      verify_data_block image sb (blkno_of_fsbno sb fsblock) owner = Ok tt /\
      parse_block_form image sb = Ok (mkBlockDir (placed 64 entries) (leaf_of <$> index)) /\
      parse_data_block image sb = Ok (placed 64 entries) /\
      index ≡ₚ ((fun e => (hash_for sb (de_name e), de_offset e / 8)) <$> placed 64 entries) /\ hash_ordered (leaf_of <$> index)
  | Err _ => (dbs < space_needed entries)%nat
  | Panic => False
  end.
Proof.
  intros Hw Ho. pose proof (dir_build_spec sb Hty Hgeo fsblock owner entries (writable_named _ _ Hw)) as Hb. fold dbs in Hb.
  destruct (Nat.ltb_spec dbs (space_needed entries)) as [|Hfit]; [by destruct Hb as [e ->]|]. rewrite Hb.
  split; [done|]. destruct (built_block fsblock owner entries Hw Ho Hfit) as (Hl & head & E & Hlh & Hm & Hv).
  destruct (dbs_spec sb Hty Hgeo) as (_ & H512 & _). fold dbs in H512.
  eexists _, (built_index sb 0 entries). split; [apply (image_written _ 4); [rewrite Hl; lia|done]|]. split; [exact Hv|]. rewrite E.
  split; [by apply parse_block_built|]. split; [by apply parse_data_of_block|]. split; [|apply by_hash_ordered].
  unfold built_index, by_hash. rewrite sort_by_Permutation. clear. generalize 64%nat.
  induction entries as [|e entries IH]; intros at_; [done|]. cbn [index_of placed]. rewrite fmap_cons. cbn [de_name de_offset]. rewrite Z.add_0_l. by f_equiv.
Qed.
End built_read.

(** ** Entries split into blocks *)

Section packed.
Context (dbs room : nat).

Definition fits_block (g : list Entry) : Prop := (data_size g <= room)%nat.
Definition too_big (e : Entry) : Prop := (room < entry_size (length (en_name e)))%nat.

(** The entries in some blocks that each hold theirs. *)
Definition splits (gs : list (list Entry)) (entries : list Entry) : Prop := concat gs = entries /\ Forall fits_block gs.

Lemma data_size_app a b : data_size (a ++ b) = (data_size a + data_size b)%nat.
Proof. unfold data_size. induction a as [|e a IH]; [done|]. cbn [app]. rewrite !fmap_cons. cbn. unfold id in *. cbn in IH. lia. Qed.

(** Without its first entries, a split still is one. *)
Lemma splits_drop gs : forall p q, splits gs (p ++ q) -> exists gs', splits gs' q /\ (length gs' <= length gs)%nat.
Proof.
  induction gs as [|g gs IH]; intros p q [Hc Hf]; cbn [concat] in Hc.
  { symmetry in Hc. apply app_nil in Hc as [-> ->]. exists []. by repeat split. }
  apply Forall_cons in Hf as [Hg Hf]. destruct (decide (length p <= length g)%nat) as [Hle|Hgt].
  - exists (drop (length p) g :: gs). split; [|cbn; lia]. split.
    + cbn [concat]. apply (f_equal (drop (length p))) in Hc. rewrite drop_app_length, drop_app_le in Hc by done. done.
    + constructor; [|done]. unfold fits_block in *. rewrite <- (take_drop (length p) g), data_size_app in Hg. lia.
  - destruct (IH (drop (length g) p) q) as (gs' & Hs & Hl); [|exists gs'; split; [done|cbn; lia]]. split; [|done].
    apply (f_equal (drop (length g))) in Hc. rewrite drop_app_length, drop_app_le in Hc by lia. done.
Qed.

(** The first block of a split ends before the first entry that would overfill it. *)
Lemma splits_next gs last e entries : (room < data_size last + entry_size (length (en_name e)))%nat -> splits gs (last ++ e :: entries) ->
  exists gs', splits gs' (e :: entries) /\ (length gs' < length gs)%nat.
Proof.
  intros Hov [Hc Hf]. destruct gs as [|g gs]; [symmetry in Hc; apply app_nil in Hc as [_ ?]; done|].
  apply Forall_cons in Hf as [Hg Hf]. cbn [concat] in Hc. destruct (decide (length g <= length last)%nat) as [Hle|Hgt].
  - destruct (splits_drop gs (drop (length g) last) (e :: entries)) as (gs' & Hs & Hl); [|exists gs'; split; [done|cbn; lia]].
    split; [|done]. apply (f_equal (drop (length g))) in Hc. rewrite drop_app_length, drop_app_le in Hc by done. done.
  - exfalso. assert (E : take (length last + 1) g = last ++ [e]).
    { apply (f_equal (take (length last + 1))) in Hc. rewrite take_app_le in Hc by lia. rewrite Hc, take_app_ge by lia. by rewrite Nat.add_comm, Nat.add_sub. }
    unfold fits_block in Hg. rewrite <- (take_drop (length last + 1) g), E, !data_size_app in Hg. rewrite data_size_cons in Hg. lia.
Qed.

Lemma pack_loop_spec entries : forall used done last, used = data_size last -> fits_block last ->
  match pack_loop dbs room used done last entries with
  | Ok gs => exists gs0, gs = done ++ gs0 /\ splits gs0 (last ++ entries) /\ gs0 <> [] /\
      forall gs', splits gs' (last ++ entries) -> gs' <> [] -> (length gs0 <= length gs')%nat
  | Err _ => Exists too_big entries
  | Panic => False
  end.
Proof.
  induction entries as [|e entries IH]; intros used done last Hu Hl; cbn [pack_loop].
  { exists [last]. rewrite app_nil_r. split; [done|]. split; [split; [by cbn; rewrite app_nil_r|by constructor]|]. split; [done|].
    intros [|g gs'] _ ?; [done|cbn; lia]. }
  destruct (Nat.ltb_spec room (entry_size (length (en_name e)))) as [Hbig|Hsm]; cbn [fail_if mbind res_bind]; [by left|].
  destruct (Nat.ltb_spec room (used + entry_size (length (en_name e)))) as [Hov|Hok].
  - specialize (IH (entry_size (length (en_name e))) (done ++ [last]) [e]).
    assert (He : data_size [e] = entry_size (length (en_name e))) by (rewrite data_size_cons; cbn; lia).
    specialize (IH (eq_sym He) ltac:(unfold fits_block; lia)).
    destruct (pack_loop _ _ _ _ _ _) as [gs|er|]; [|by right|done]. destruct IH as (gs0 & -> & [Hc Hf] & Hne & Hmin).
    exists (last :: gs0). split; [by rewrite <- app_assoc|]. split; [split; [cbn [concat]; by rewrite Hc|by constructor]|]. split; [done|].
    intros gs' Hs _. destruct (splits_next gs' last e entries) as (gs2 & Hs2 & Hl2); [lia|done|].
    cbn [length]. specialize (Hmin gs2 Hs2). assert (gs2 <> []) by (intros ->; by destruct Hs2). specialize (Hmin ltac:(done)). lia.
  - specialize (IH (used + entry_size (length (en_name e)))%nat done (last ++ [e])).
    assert (He : data_size (last ++ [e]) = (used + entry_size (length (en_name e)))%nat) by (rewrite data_size_app, data_size_cons; cbn; lia).
    specialize (IH (eq_sym He) ltac:(unfold fits_block; lia)). rewrite <- app_assoc in IH. cbn [app] in IH.
    destruct (pack_loop _ _ _ _ _ _) as [gs|er|]; [done|by right|done].
Qed.
End packed.

(** Splitting a directory's entries into data blocks keeps them all, in
    order, overfills no block and uses as few as can hold them in that order;
    it is refused only for an entry no block could hold. *)
Theorem pack_exact entries dbs :
  let room := (dbs - XFS_DIR3_DATA_HDR_SIZE)%nat in
  match pack entries dbs with
  | Ok groups => concat groups = entries /\ Forall (fun g => data_size g <= room)%nat groups /\ groups <> [] /\
      forall other, concat other = entries -> Forall (fun g => data_size g <= room)%nat other -> other <> [] -> (length groups <= length other)%nat
  | Err _ => Exists (fun e => room < entry_size (length (en_name e)))%nat entries
  | Panic => False
  end.
Proof.
  intros room. pose proof (pack_loop_spec dbs room entries 0 [] [] eq_refl ltac:(unfold fits_block; cbn; lia)) as H. unfold pack. fold room.
  destruct (pack_loop _ _ _ _ _ _) as [gs|e|]; [|done|done]. destruct H as (gs0 & -> & [Hc Hf] & Hne & Hmin). cbn [app] in *.
  split; [done|]. split; [done|]. split; [done|]. intros other Ho Hof. apply Hmin. by split.
Qed.

(** ** Witnesses *)

Definition sample_dir_entries : list Entry :=
  [mkEntry [x2e] 128 2; mkEntry [x2e; x2e] 128 2; mkEntry ["a"%byte] 131 1; mkEntry ["b"%byte; "c"%byte] 132 2].

Lemma sample_dir_writable : Forall (writable sample_sb) sample_dir_entries.
Proof.
  destruct sample_sf_good as [Hg Hp]. apply Forall_cons in Hg as [Ha Hg]. apply Forall_cons in Hg as [Hb _].
  pose proof (sg_ino _ _ Ha) as Hia. pose proof (sg_ino _ _ Hb) as Hib.
  repeat constructor; cbn; try lia; try exact (proj2 Hp); try exact (proj2 Hia); try exact (proj2 Hib); try (by eexists); by vm_compute.
Qed.

Lemma dir_block_built_read_witness : exists image,
  verify_data_block image sample_sb (blkno_of_fsbno sample_sb 20) 128 = Ok tt /\ parse_data_block image sample_sb = Ok (placed 64 sample_dir_entries).
Proof.
  pose proof (dir_block_built_read sample_sb sample_typed sample_geometry ltac:(reflexivity) ltac:(reflexivity) 20 128 sample_dir_entries
    sample_dir_writable ltac:(by vm_compute)) as H.
  destruct (build sample_sb 20 128 sample_dir_entries) as [block|e|]; [|vm_compute in H; lia|done].
  destruct H as (_ & image & index & _ & Hv & _ & Hd & _). exists image. by split.
Defined.

(** The same block, by the theorem about what readers make of any block. *)
Definition sample_dir_block : bytes := Eval vm_compute in
  match build sample_sb 20 128 sample_dir_entries with Ok b => b | _ => [] end.
