(* ===== verification/DirLookup.v ===== *)
(** * Names looked up through the hash index ([src/src/fs.rs])

    A directory past its inode is read through its extent list, one directory
    block at a time, each verified before anything reads it.  A lookup hashes the
    name, goes down the node tree to a leaf, gathers the addresses under that
    hash from the leaf and the leaves after it, and reads the data blocks they
    name.

    The theorems: whatever the device holds, a lookup ends and does not panic; in
    a directory laid out by [DirBlock], in one block or in data blocks and a
    leaf, it finds the inode of exactly the entry with that name. *)

From Stdlib Require Import ZArith Lia Strings.String Strings.Byte Bool.
From stdpp Require Import base list gmap sets strings.
From S2P Require Import Prelude Error Endian Crc32c Superblock Sample FreeSpace Extent Inode Dir DirShort Bmbt BufWrite DirBlock.

(** [impl Display for Error]: the text, with what is interpolated in it. *)
Definition after (text : string) (m : message) : message := fmt (text ++ template m) (args m).
Definition display (e : Error) : message :=
  match e with
  | Io m => after "device I/O failed: " m
  | NotXfs magic => fmt "not an XFS volume (superblock magic {})" [AZ magic]
  | BadSuperblock m => after "malformed XFS superblock: " m
  | ChecksumMismatch what block => fmt "{} at block {} failed its CRC32C check" [AS what; AZ block]
  | BlockIdentityMismatch what expected found => fmt "{} read from block {} claims to be block {}" [AS what; AZ expected; AZ found]
  | UnsupportedFeature m => after "unsupported XFS feature: " m
  | NoSpace m => after "no space left on the XFS volume: " m
  | CorruptLog m => after "XFS log is malformed: " m
  | DirtyLog => fmt "XFS log is dirty and needs replay before mount" []
  | NotFound => fmt "no such file or directory" []
  | AlreadyExists => fmt "a file of that name already exists" []
  | DirectoryNotEmpty => fmt "the directory is not empty" []
  | NotADirectory => fmt "not a directory" []
  | NotAFile => fmt "not a regular file" []
  | ReadOnly => fmt "filesystem is read-only" []
  | RealtimeDeviceAbsent ino =>
      fmt "inode {} keeps its data on the realtime device, and this mount was not given one" [AZ ino]
  | Internal m => after "internal consistency check failed: " m
  | InvalidGeometry m => after "cannot format: " m
  end.

Definition DIR_LEAF_FILE_OFFSET : Z := 2 ^ 35.

Section fs.
Context `{Crc : Crc32c}.
(** [self.device.read_at(offset, buf)] *)
Context (sb : Superblock) (read : Z -> nat -> res bytes).

(** ** Extents *)

Definition read_fsblock (fsblock : Z) : res bytes := read (fsblock_offset sb fsblock) (Z.to_nat (sb_blocksize sb)).

Definition fork_extents (inode : Inode) (raw : bytes) : res (list Extent) :=
  let '(start, end_) := data_fork_range inode (Z.to_nat (sb_inodesize sb)) in
  match i_format inode with
  | Format.Extents => fork ← get_slice start (end_ - start) raw; Extent.parse_list fork (i_nextents inode)
  | Format.Btree => fork ← get_slice start (end_ - start) raw; Bmbt.walk sb (i_ino inode) read_fsblock fork (i_nextents inode)
  | other => Err (UnsupportedFeature (fmt ("inode {} has a " ++ format_name other ++ "-format data fork, which holds no extents") [AZ (i_ino inode)]))
  end.

Fixpoint check_extents_loop (ino : Z) (i : nat) (extents : list Extent) : res unit :=
  match extents with
  | [] => Ok tt
  | e :: extents =>
      fail_if (negb (extent_in_bounds sb (startblock e) (blockcount e)))
        (bad "inode {}: extent {} maps {} blocks at block {}, which is not inside one allocation group past its headers"
           [AZ ino; AZ (Z.of_nat i); AZ (blockcount e); AZ (startblock e)]);;
      check_extents_loop ino (S i) extents
  end.
Definition check_extents_in_bounds (ino : Z) (extents : list Extent) : res unit := check_extents_loop ino 0 extents.

Definition data_extents (inode : Inode) (raw : bytes) : res (list Extent) :=
  fail_if (is_realtime inode) (UnsupportedFeature (fmt "inode {} keeps its data on the real-time device" [AZ (i_ino inode)]));;
  extents ← fork_extents inode raw;
  check_extents_in_bounds (i_ino inode) extents;;
  Ok extents.

(** ** Directory blocks *)

Definition verify_dir_block (block : bytes) (fsblock owner : Z) : res unit :=
  if negb (is_v5 sb) then Ok tt else
  let daddr := blkno_of_fsbno sb fsblock in
  data_magic ← be32 block dir3_blk.MAGIC;
  if (data_magic =? XFS_DIR3_BLOCK_MAGIC) || (data_magic =? XFS_DIR3_DATA_MAGIC) || (data_magic =? XFS_DIR3_FREE_MAGIC)
  then verify_data_block block sb daddr owner
  else
    da_magic ← be16 block da_blk.MAGIC;
    if (da_magic =? XFS_DIR3_LEAF1_MAGIC) || (da_magic =? XFS_DIR3_LEAFN_MAGIC) || (da_magic =? XFS_DA3_NODE_MAGIC)
    then verify_da_block block sb daddr owner
    else Ok tt.

(** Filesystem blocks to a directory block. *)
Definition per : Z := dirblocksize sb / sb_blocksize sb.

(** The pieces of a directory block, or nothing where one is not mapped. *)
Fixpoint read_pieces (extents : list Extent) (dir_block : Z) (pieces : list nat) (out : bytes) (first : option Z) : res (option (bytes * option Z)) :=
  match pieces with
  | [] => Ok (Some (out, first))
  | i :: pieces =>
      let file_block := wadd 64 (wmul 64 dir_block per) (Z.of_nat i) in
      match Extent.lookup extents file_block with
      | None => Ok None
      | Some e =>
          if is_unwritten e then Ok None
          else
            phys ← expect (Extent.map e file_block);
            let first := Some (default phys first) in
            let at_ := (i * Z.to_nat (sb_blocksize sb))%nat in
            piece ← read_fsblock phys;
            out ← copy_at at_ piece out;
            read_pieces extents dir_block pieces out first
      end
  end.

Definition read_dir_block (extents : list Extent) (dir_block owner : Z) : res (option bytes) :=
  let dir_block_size := Z.to_nat (dirblocksize sb) in
  r ← read_pieces extents dir_block (seq 0 (Z.to_nat per)) (replicate dir_block_size x00) None;
  match r with
  | None => Ok None
  | Some (out, first) =>
      match first with Some phys => verify_dir_block out phys owner | None => Ok tt end;;
      Ok (Some out)
  end.

Definition dablk_to_dir_block (dablk owner : Z) : res Z :=
  fail_if (negb (dablk mod per =? 0))
    (bad "directory inode {}: an index pointer names file block {}, inside a {}-block directory block" [AZ owner; AZ dablk; AZ per]);;
  Ok (dablk / per).

(** ** The lookup *)

(** The data block an address is in, and its offset there. *)
Definition entry_at (address : Z) : Z * Z :=
  let byte := wmul 64 address 8 in (byte / dirblocksize sb, wrap 32 (byte mod dirblocksize sb)).

Definition under_hash (hash : Z) (r : LeafEntry) : bool := negb (is_stale r) && (hashval r =? hash).
Definition entry_there (offset : Z) (name : bytes) (e : DirEntry) : bool := (de_offset e =? offset) && bool_decide (de_name e = name).

(** [iter.find_map(f)] *)
Fixpoint find_map {A B} (f : A -> option B) (l : list A) : option B :=
  match l with
  | [] => None
  | x :: l => match f x with Some y => Some y | None => find_map f l end
  end.

Definition corrupt (ino : Z) (what : string) (a : list arg) : Error := bad ("directory inode {}: " ++ what) (AZ ino :: a).

Section descent.
Context (extents : list Extent) (ino hash : Z).

(** Down the node tree to the leaf covering the hash; a node's level bounds the
    steps. *)
Fixpoint descend (fuel : nat) (at_ : Z) (block : bytes) (below : option Z) : res (option (Z * bytes)) :=
  match fuel with
  | O => Panic
  | S fuel =>
      magic ← be16 block da_blk.MAGIC;
      if negb (magic =? XFS_DA3_NODE_MAGIC) && negb (magic =? XFS_DA_NODE_MAGIC) then
        fail_if (is_some_and below (fun level => negb (level =? 0)))
          (corrupt ino "a level-{} node names block {}, which is a leaf" [AZ (wadd 16 (default 0 below) 1); AZ at_]);;
        Ok (Some (at_, block))
      else
        node ← parse_node block sb;
        fail_if ((nd_level node =? 0) || is_some_and below (fun level => negb (level =? nd_level node)))
          (corrupt ino "the node at block {} is level {}, where its parent needs {}" [AZ at_; AZ (nd_level node); match below with Some level => AZ level | None => AS "a level of at least 1" end]);;
        let below := Some (nd_level node - 1) in
        match child_for_hash node hash with
        | None => Ok None
        | Some child =>
            at_ ← dablk_to_dir_block child ino;
            r ← read_dir_block extents at_ ino;
            block ← ok_or r (corrupt ino "node names block {}, which is a hole" [AZ at_]);
            descend fuel at_ block below
        end
  end.

(** The addresses under the hash, from this leaf and the ones after it while
    they go on with the same hash. *)
Fixpoint gather (fuel : nat) (block : bytes) (visited : gset Z) : res (list Z) :=
  match fuel with
  | O => Panic
  | S fuel =>
      leaf ← parse_leaf block sb;
      let here := address <$> List.filter (under_hash hash) (lf_entries leaf) in
      let continues :=
        is_some_and (list.last (lf_entries leaf)) (fun r => hashval r =? hash) &&
        ((lf_magic leaf =? XFS_DIR3_LEAFN_MAGIC) || (lf_magic leaf =? XFS_DIR2_LEAFN_MAGIC)) && negb (lf_forw leaf =? 0) in
      if negb continues then Ok here
      else
        at_ ← dablk_to_dir_block (lf_forw leaf) ino;
        fail_if (bool_decide (at_ ∈ visited))
          (corrupt ino "the leaf chain comes back to block {}, which it has already read" [AZ at_]);;
        r ← read_dir_block extents at_ ino;
        match r with
        | None => Ok here
        | Some block => rest ← gather fuel block ({[at_]} ∪ visited); Ok (here ++ rest)
        end
  end.

(** The first address whose data block holds the name there. *)
Fixpoint resolve (name : bytes) (addresses : list Z) : res (option Z) :=
  match addresses with
  | [] => Ok None
  | address :: addresses =>
      let '(db, offset) := entry_at address in
      r ← read_dir_block extents db ino;
      match r with
      | None => resolve name addresses
      | Some data =>
          es ← parse_data_block data sb;
          match find (entry_there offset name) es with
          | Some e => Ok (Some (de_ino e))
          | None => resolve name addresses
          end
      end
  end.
End descent.

(** A fuel for the leaf chain: no more directory blocks than blocks mapped. *)
Definition mapped_blocks (extents : list Extent) : nat := sum_list_with (fun e => Z.to_nat (blockcount e)) extents.

Definition lookup_mapped (extents : list Extent) (ino : Z) (name : bytes) : res (option Z) :=
  let hash := hash_for sb name in
  r ← read_dir_block extents 0 ino;
  match r with
  | None => Ok None
  | Some first =>
      magic ← be32 first dir3_blk.MAGIC;
      if is_block_form magic then
        block ← parse_block_form first sb;
        Ok (find_map (fun r =>
              let '(_, offset) := entry_at (address r) in
              de_ino <$> find (entry_there offset name) (bd_entries block))
            (List.filter (under_hash hash) (bd_index block)))
      else
        let leaf_start := DIR_LEAF_FILE_OFFSET / dirblocksize sb in
        r ← read_dir_block extents leaf_start ino;
        block ← ok_or r (bad "directory inode {} has data blocks and no hash index" [AZ ino]);
        r ← descend extents ino hash (Z.to_nat MAX_SUPPORTED_NODE_LEVEL + 2) leaf_start block None;
        match r with
        | None => Ok None
        | Some (at_, block) =>
            addresses ← gather extents ino hash (mapped_blocks extents + 2) block {[at_]};
            resolve extents ino name addresses
        end
  end.

Definition lookup_by_hash (dir_inode : Inode) (raw name : bytes) : res (option Z) :=
  extents ← data_extents dir_inode raw;
  lookup_mapped extents (i_ino dir_inode) name.

(** ** A directory's listing, and a name in it *)

(** The data blocks of one extent, from [file_block] on. *)
Fixpoint list_extent (ino : Z) (e : Extent) (last : Z) (fuel : nat) (file_block : Z) : res (list DirEntry) :=
  if last <=? file_block then Ok [] else
  match fuel with
  | O => Panic
  | S fuel =>
      phys ← expect (Extent.map e file_block);
      block ← read (fsblock_offset sb phys) (Z.to_nat (dirblocksize sb));
      entries ← (match parse_data_block block sb with
                 | Err why =>
                     Err (BadSuperblock (fmt ("directory inode {}: the data block at file block {} does not parse: " ++ template (display why))
                            (AZ ino :: AZ file_block :: args (display why))))
                 | r => r
                 end);
      verify_dir_block block phys ino;;
      rest ← list_extent ino e last fuel (wadd 64 file_block per);
      Ok (List.filter (fun e => negb (bool_decide (de_name e = [x2e])) && negb (bool_decide (de_name e = [x2e; x2e]))) entries ++ rest)
  end.

Fixpoint list_extents (ino : Z) (extents : list Extent) : res (list DirEntry) :=
  match extents with
  | [] => Ok []
  | e :: extents =>
      let data_block_limit := DIR_LEAF_FILE_OFFSET / sb_blocksize sb in
      if data_block_limit <=? startoff e then Ok []
      else if is_unwritten e then list_extents ino extents
      else
        let last := Z.min (end_offset e) data_block_limit in
        out ← list_extent ino e last (Z.to_nat (blockcount e)) (startoff e);
        rest ← list_extents ino extents;
        Ok (out ++ rest)
  end.

Definition read_dir (inode : Inode) (raw : bytes) : res (list DirEntry) :=
  fail_if (negb (is_dir inode)) NotADirectory;;
  if bool_decide (i_format inode = Format.Local) then
    let '(start, end_) := data_fork_range inode (Z.to_nat (sb_inodesize sb)) in
    fork ← get_slice start (end_ - start) raw;
    sf ← read_short_form inode fork sb;
    Ok (sf_entries sf)
  else
    extents ← data_extents inode raw;
    list_extents (i_ino inode) extents.

Definition entry_ino (dir_inode : Inode) (raw name : bytes) : res (option Z) :=
  fail_if (negb (is_dir dir_inode)) NotADirectory;;
  if bool_decide (name = [x2e]) || bool_decide (name = [x2e; x2e]) then Ok None
  else if bool_decide (i_format dir_inode = Format.Local) then
    es ← read_dir dir_inode raw;
    Ok (de_ino <$> find (fun e => bool_decide (de_name e = name)) es)
  else lookup_by_hash dir_inode raw name.
End fs.

(** ** A lookup ends, whatever is on the device *)

(** A device that fills the buffer or fails. *)
Record reads (read : Z -> nat -> res bytes) : Prop := {
  rs_total off n : read off n <> Panic;
  rs_length off n bs : read off n = Ok bs -> length bs = n;
}.

Section total.
Context `{Crc : Crc32c} (sb : Superblock) (read : Z -> nat -> res bytes).
Context (Hty : sb_typed sb) (Hgeo : sb_geometry sb) (Hread : reads read).
Let dbs := Z.to_nat (dirblocksize sb).
Let bs := Z.to_nat (sb_blocksize sb).

Lemma per_spec : per sb = 2 ^ sb_dirblklog sb /\ 1 <= per sb <= 128 /\ per sb * sb_blocksize sb = dirblocksize sb /\
  Z.of_nat bs = sb_blocksize sb /\ (Z.to_nat (per sb) * bs)%nat = dbs /\ Z.of_nat dbs = dirblocksize sb.
Proof.
  destruct (dirblocksize_spec sb Hty Hgeo) as (E & Hr & Hk). destruct Hgeo as [[Hb Hbs] _ _ _ Hd]. pose proof (ty_dirblklog sb Hty) as Hdl. unfold in_u in Hdl.
  assert (Ep : per sb = 2 ^ sb_dirblklog sb). { unfold per. rewrite E, Hbs, Z.pow_add_r, Z.mul_comm by lia. apply Z.div_mul. pose proof (pow2_pos (sb_blocklog sb)). lia. }
  assert (Hpb : per sb * sb_blocksize sb = dirblocksize sb) by (rewrite Ep, E, Hbs, Z.pow_add_r by lia; lia).
  assert (1 <= per sb <= 128).
  { rewrite Ep. change 1 with (2 ^ 0). change 128 with (2 ^ 7). split; apply Z.pow_le_mono_r; lia. }
  assert (0 < sb_blocksize sb) by (rewrite Hbs; apply pow2_pos; lia).
  split; [done|]. split; [done|]. split; [done|]. unfold bs, dbs. split; [lia|]. split; [|lia]. rewrite <- Hpb. rewrite Z2Nat.inj_mul by lia. done.
Qed.

(** Some extent maps this block of the file. *)
Definition mapped (extents : list Extent) (off : Z) : Prop := exists e, e ∈ extents /\ covers e off.

Lemma lookup_mapped_at extents off e : Forall extent_ok extents -> Extent.lookup extents off = Some e ->
  e ∈ extents /\ covers e off /\ exists phys, Extent.map e off = Some phys.
Proof.
  intros Hok H. unfold Extent.lookup in H. set (idx := partition_point _ _) in H. destruct (extents !! idx) as [x|] eqn:Ex; [|done].
  destruct (contains x off) eqn:Ec; [|done]. injection H as ->. assert (He : e ∈ extents) by (by eapply list_elem_of_lookup_2).
  split; [done|]. split; [apply contains_covers; [by eapply Forall_forall in Hok|done]|]. unfold Extent.map. rewrite Ec. by eexists.
Qed.

Lemma read_pieces_spec extents db pieces : forall out first, Forall extent_ok extents -> Forall (fun i => (i < Z.to_nat (per sb))%nat) pieces -> length out = dbs ->
  read_pieces sb read extents db pieces out first <> Panic /\
  forall out' first', read_pieces sb read extents db pieces out first = Ok (Some (out', first')) ->
    length out' = dbs /\ Forall (fun i => mapped extents (wadd 64 (wmul 64 db (per sb)) (Z.of_nat i))) pieces.
Proof.
  induction pieces as [|i pieces IH]; intros out first Hok Hp Hl; cbn [read_pieces]; [split; [done|]; by intros out' first' [= <- <-]|].
  apply Forall_cons in Hp as [Hi Hp]. destruct (Extent.lookup extents _) as [e|] eqn:El; [|split; [done|by intros]].
  destruct (lookup_mapped_at _ _ _ Hok El) as (He & Hc & phys & ->). destruct (is_unwritten e); [split; [done|by intros]|]. cbn [expect mbind res_bind].
  unfold read_fsblock. fold bs. destruct (read (fsblock_offset sb phys) bs) as [piece|er|] eqn:Er; cbn [mbind res_bind]; [|split; [done|by intros]|by destruct (rs_total _ Hread _ _ Er)].
  pose proof (rs_length _ Hread _ _ _ Er) as Hpl. destruct per_spec as (_ & _ & _ & _ & Hpb & _).
  assert (i * bs + length piece <= length out)%nat by (rewrite Hl, Hpl, <- Hpb; nia).
  rewrite copy_at_Ok by done. cbn [mbind res_bind]. destruct (IH (splice (i * bs) piece out) (Some (default phys first)) Hok Hp) as [IH1 IH2]; [by rewrite length_splice|].
  split; [done|]. intros out' first' Hrec. destruct (IH2 _ _ Hrec) as [? ?]. split; [done|]. constructor; [by exists e|done].
Qed.

Lemma verify_dir_block_total block fsblock owner : length block = dbs -> verify_dir_block sb block fsblock owner <> Panic.
Proof.
  intros Hl. destruct (dbs_spec sb Hty Hgeo) as (_ & H512 & _). fold dbs in H512. unfold verify_dir_block. destruct (negb (is_v5 sb)); [done|].
  rewrite be32_Ok by (unfold dir3_blk.MAGIC; lia). cbn [mbind res_bind].
  destruct (_ || _ || _); [apply verify_v5_header_total; [done|done|cbn; lia]|]. rewrite be16_Ok by (unfold da_blk.MAGIC; lia). cbn [mbind res_bind].
  destruct (_ || _ || _); [apply verify_v5_header_total; [done|done|cbn; lia]|done].
Qed.

Lemma read_dir_block_spec extents db owner : Forall extent_ok extents ->
  read_dir_block sb read extents db owner <> Panic /\
  forall block, read_dir_block sb read extents db owner = Ok (Some block) -> length block = dbs /\ mapped extents (wmul 64 db (per sb)).
Proof.
  intros Hok. unfold read_dir_block. fold dbs. destruct per_spec as (_ & Hper & _).
  assert (Hps : Forall (fun i => (i < Z.to_nat (per sb))%nat) (seq 0 (Z.to_nat (per sb)))).
  { apply Forall_forall. intros i Hi%elem_of_seq. lia. }
  destruct (read_pieces_spec extents db _ (replicate dbs x00) None Hok Hps (length_replicate _ _)) as [Hp Hs].
  destruct (read_pieces _ _ _ _ _ _ _) as [[[out first]|]|e|]; cbn [mbind res_bind]; [|split; [done|by intros]|split; [done|by intros]|done].
  destruct (Hs out first eq_refl) as [Hl Hm]. assert (Hv : match first with Some phys => verify_dir_block sb out phys owner | None => Ok tt end <> Panic)
    by (destruct first; [by apply verify_dir_block_total|done]).
  destruct (match first with Some _ => _ | None => _ end) as [[]|e|]; cbn [mbind res_bind]; [|split; [done|by intros]|done].
  split; [done|]. intros block [= <-]. split; [done|]. destruct (Z.to_nat (per sb)) as [|n] eqn:En; [lia|]. cbn [seq] in Hm. apply Forall_cons in Hm as [Hm _].
  unfold wadd in Hm. rewrite Z.add_0_r in Hm. unfold wmul in Hm. unfold wrap in Hm. by rewrite Z.mod_mod in Hm.
Qed.

Lemma dablk_spec dablk owner : in_u 32 dablk ->
  dablk_to_dir_block sb dablk owner <> Panic /\
  forall at_, dablk_to_dir_block sb dablk owner = Ok at_ -> 0 <= at_ /\ at_ * per sb = dablk /\ wmul 64 at_ (per sb) = dablk.
Proof.
  intros Hd. unfold in_u in Hd. unfold dablk_to_dir_block. destruct per_spec as (_ & Hper & _).
  destruct (Z.eqb_spec (dablk mod per sb) 0) as [E|]; cbn [negb fail_if mbind res_bind]; [|split; [done|by intros]]. split; [done|]. intros at_ [= <-].
  pose proof (Z.div_mod dablk (per sb) ltac:(lia)). assert (dablk / per sb * per sb = dablk) by lia. split; [apply Z.div_pos; lia|]. split; [done|].
  rewrite wmul_small; lia.
Qed.

Section chain.
Context (extents : list Extent) (ino hash : Z) (Hok : Forall extent_ok extents).

Lemma child_u32 block node child : parse_node block sb = Ok node -> child_for_hash node hash = Some child -> in_u 32 child.
Proof.
  intros Hn Hc. destruct (parse_node_spec block sb Hty Hgeo) as [_ Hs]. destruct (Hs node Hn) as (_ & _ & Ee & _).
  apply child_for_hash_spec in Hc as (i & e & Hi & <- & _). rewrite Ee in Hi. unfold node_entries_at in Hi.
  apply list_lookup_fmap_Some in Hi as (j & -> & _). cbn [before]. unfold node_entry_at. cbn [before]. apply (rd_range_any 4).
Qed.

(** How much deeper a descent that is at this level can go. *)
Definition steps_left (below : option Z) : nat := match below with None => Z.to_nat MAX_SUPPORTED_NODE_LEVEL + 2 | Some level => Z.to_nat level + 1 end.

Lemma descend_spec fuel : forall at_ block below, length block = dbs -> (steps_left below <= fuel)%nat -> (forall level, below = Some level -> 0 <= level) ->
  descend sb read extents ino hash fuel at_ block below <> Panic /\
  forall at' block', descend sb read extents ino hash fuel at_ block below = Ok (Some (at', block')) -> length block' = dbs.
Proof.
  induction fuel as [|fuel IH]; intros at_ block below Hl Hf Hb; [destruct below; cbn in Hf; lia|]. cbn [descend].
  destruct (dbs_spec sb Hty Hgeo) as (_ & H512 & _). fold dbs in H512. rewrite be16_Ok by (unfold da_blk.MAGIC; lia). cbn [mbind res_bind].
  destruct (_ && _).
  { destruct (is_some_and _ _); cbn [fail_if mbind res_bind]; (split; [done|]); [by intros|]. by intros at' block' [= <- <-]. }
  destruct (parse_node_spec block sb Hty Hgeo) as [Hp Hn]. destruct (parse_node block sb) as [node|e|] eqn:En; cbn [mbind res_bind]; [|split; [done|by intros]|done].
  destruct (Hn node eq_refl) as (Hlev & _). destruct (_ || is_some_and below _) eqn:Ebad; cbn [fail_if mbind res_bind]; [split; [done|by intros]|].
  destruct (child_for_hash node hash) as [child|] eqn:Ec; [|split; [done|by intros]].
  destruct (dablk_spec child ino (child_u32 _ _ _ En Ec)) as [Hdp _]. destruct (dablk_to_dir_block sb child ino) as [at2|e|]; cbn [mbind res_bind]; [|split; [done|by intros]|done].
  destruct (read_dir_block_spec extents at2 ino Hok) as [Hrp Hrs]. destruct (read_dir_block sb read extents at2 ino) as [[block2|]|e|]; cbn [ok_or mbind res_bind];
    [|split; [done|by intros]|split; [done|by intros]|done].
  apply IH; [by apply Hrs| |intros level [= <-]; lia]. cbn [steps_left]. apply orb_false_iff in Ebad as [_ Ebad].
  destruct below as [level|]; cbn [steps_left is_some_and] in *; [|lia]. apply negb_false_iff, Z.eqb_eq in Ebad. lia.
Qed.

(** The blocks of the file that are mapped, and the directory blocks read. *)
Definition file_blocks : gset Z := list_to_set (concat ((fun e => seqZ (startoff e) (blockcount e)) <$> extents)).
Lemma elem_of_file_blocks off : off ∈ file_blocks <-> mapped extents off.
Proof.
  unfold file_blocks, mapped. rewrite elem_of_list_to_set, list_elem_of_In, in_concat. split.
  - intros (l & Hl & Ho). apply list_elem_of_In, list_elem_of_fmap in Hl as (e & -> & He). exists e. split; [done|]. apply list_elem_of_In, elem_of_seqZ in Ho. unfold covers. lia.
  - intros (e & He & Hc). exists (seqZ (startoff e) (blockcount e)). split; [apply list_elem_of_In, list_elem_of_fmap; by exists e|]. apply list_elem_of_In, elem_of_seqZ. unfold covers in Hc. lia.
Qed.
Lemma size_file_blocks : (size file_blocks <= mapped_blocks extents)%nat.
Proof.
  unfold file_blocks, mapped_blocks. set (l := concat _). assert (length l = sum_list_with (fun e => Z.to_nat (blockcount e)) extents) as <-.
  { unfold l. induction extents as [|e es IH]; [done|]. rewrite fmap_cons. cbn [concat sum_list_with]. rewrite length_app, length_seqZ. apply Forall_cons in Hok as [_ Hok']. by rewrite IH. }
  clearbody l. induction l as [|x l IH]; [by rewrite list_to_set_nil, size_empty|]. rewrite list_to_set_cons. cbn [length].
  pose proof (size_union_alt ({[x]} : gset Z) (list_to_set l)) as Hu. rewrite size_singleton in Hu.
  pose proof (subseteq_size (list_to_set l ∖ {[x]} : gset Z) (list_to_set l) ltac:(set_solver)). lia.
Qed.
Definition unread (visited : gset Z) : nat := size (file_blocks ∖ set_map (fun at_ => at_ * per sb) visited).
Lemma unread_visit visited at_ : at_ ∉ visited -> mapped extents (at_ * per sb) -> (unread ({[at_]} ∪ visited) < unread visited)%nat.
Proof.
  intros Hn Hm. unfold unread. apply subset_size. destruct per_spec as (_ & Hper & _). split.
  - intros x [Hx Hnx]%elem_of_difference. apply elem_of_difference. split; [done|]. intros (y & -> & Hy)%elem_of_map. apply Hnx, elem_of_map. exists y. split; [done|]. by apply elem_of_union_r.
  - intros Hs. specialize (Hs (at_ * per sb)). rewrite !elem_of_difference in Hs. destruct Hs as [_ Hs].
    + split; [by apply elem_of_file_blocks|]. intros (y & Hy & Hyv)%elem_of_map. assert (y = at_) as -> by nia. done.
    + apply Hs, elem_of_map. exists at_. split; [done|]. apply elem_of_union_l. by apply elem_of_singleton.
Qed.

Lemma gather_total fuel : forall block visited, length block = dbs -> (unread visited < fuel)%nat ->
  gather sb read extents ino hash fuel block visited <> Panic.
Proof.
  induction fuel as [|fuel IH]; intros block visited Hl Hf; [lia|]. cbn [gather].
  destruct (parse_leaf_spec block sb Hty Hgeo) as [Hp Hs]. destruct (parse_leaf block sb) as [leaf|e|]; cbn [mbind res_bind]; [|done|done].
  destruct (Hs leaf eq_refl) as (_ & _ & _ & _ & _ & Hfw & _). destruct (negb _); [done|].
  destruct (dablk_spec (lf_forw leaf) ino Hfw) as [Hdp Hd]. destruct (dablk_to_dir_block sb (lf_forw leaf) ino) as [at2|e|]; cbn [mbind res_bind]; [|done|done].
  destruct (Hd at2 eq_refl) as (_ & Em & Ew). destruct (bool_decide_reflect (at2 ∈ visited)) as [|Hv]; cbn [fail_if mbind res_bind]; [done|].
  destruct (read_dir_block_spec extents at2 ino Hok) as [Hrp Hrs]. destruct (read_dir_block sb read extents at2 ino) as [[block2|]|e|]; cbn [mbind res_bind]; [|done|done|done].
  destruct (Hrs block2 eq_refl) as [Hl2 Hm]. rewrite Ew, <- Em in Hm. pose proof (unread_visit visited at2 Hv Hm).
  apply bind_not_Panic; [apply IH; [done|lia]|done].
Qed.

Lemma resolve_total name addresses : resolve sb read extents ino name addresses <> Panic.
Proof.
  induction addresses as [|a l IH]; cbn [resolve]; [done|]. destruct (entry_at sb a) as [db off].
  destruct (read_dir_block_spec extents db ino Hok) as [Hrp Hrs]. destruct (read_dir_block sb read extents db ino) as [[block|]|e|]; cbn [mbind res_bind]; [|done|done|done].
  destruct (parse_data_block_spec block sb Hty Hgeo) as [Hp _]. destruct (parse_data_block block sb) as [es|e|]; cbn [mbind res_bind]; [|done|done].
  by destruct (find _ es).
Qed.

End chain.

Lemma lookup_mapped_total extents ino name : Forall extent_ok extents -> lookup_mapped sb read extents ino name <> Panic.
Proof.
  intros Hok. unfold lookup_mapped. destruct (read_dir_block_spec extents 0 ino Hok) as [Hrp Hrs].
  destruct (read_dir_block sb read extents 0 ino) as [[first|]|e|]; cbn [mbind res_bind]; [|done|done|done]. destruct (Hrs first eq_refl) as [Hl _].
  destruct (dbs_spec sb Hty Hgeo) as (_ & H512 & _). fold dbs in H512. rewrite be32_Ok by (unfold dir3_blk.MAGIC; lia). cbn [mbind res_bind]. destruct (is_block_form _).
  { destruct (parse_block_form_spec first sb Hty Hgeo) as [Hp _]. destruct (parse_block_form first sb); done. }
  destruct (read_dir_block_spec extents (DIR_LEAF_FILE_OFFSET / dirblocksize sb) ino Hok) as [Hrp2 Hrs2].
  destruct (read_dir_block sb read extents (DIR_LEAF_FILE_OFFSET / dirblocksize sb) ino) as [[block|]|e|]; cbn [ok_or mbind res_bind]; [|done|done|done].
  destruct (Hrs2 block eq_refl) as [Hl2 _].
  clear Hrp Hrs Hrp2 Hrs2. assert (Hst : (steps_left None <= Z.to_nat MAX_SUPPORTED_NODE_LEVEL + 2)%nat) by (cbn; lia).
  generalize dependent (Z.to_nat MAX_SUPPORTED_NODE_LEVEL + 2)%nat. intros fuel Hst. generalize (DIR_LEAF_FILE_OFFSET / dirblocksize sb). intros start.
  destruct (descend_spec extents ino (hash_for sb name) Hok fuel start block None Hl2 Hst) as [Hdp Hds]; [discriminate|].
  destruct (descend sb read extents ino (hash_for sb name) fuel start block None) as [[[at' block']|]|e|]; cbn [mbind res_bind]; [|discriminate|discriminate|by destruct Hdp].
  apply bind_not_Panic; [|intros; by apply resolve_total]. apply gather_total; [done|by eapply Hds|].
  unfold unread. pose proof (subseteq_size (file_blocks extents ∖ set_map (fun at_ => at_ * per sb) ({[at']} : gset Z)) (file_blocks extents) ltac:(set_solver)).
  pose proof (size_file_blocks extents Hok). lia.
Qed.
End total.

(** ** From the inode on *)

Section from_inode.
Context `{Crc : Crc32c} (sb : Superblock) (read : Z -> nat -> res bytes).
Context (Hty : sb_typed sb) (Hgeo : sb_geometry sb) (Hread : reads read).

Lemma parse_list_ok buf count l : Extent.parse_list buf count = Ok l -> Forall extent_ok l.
Proof.
  unfold Extent.parse_list. intros H. apply bind_Ok in H as (needed & _ & H). apply guard_Ok in H as [_ H].
  apply parse_list_loop_sound in H as (Hs & _). by eapply sorted_from_ok.
Qed.

Lemma walk_loop_ok ino rf n budget : forall stack extents blocks es bs, Forall extent_ok extents ->
  Bmbt.walk_loop sb ino rf budget n stack extents blocks = Ok (es, bs) -> Forall extent_ok es.
Proof.
  induction budget as [|budget IH]; intros [|[b level] stack] extents blocks es bs He H; cbn [walk_loop] in H; try done; try (by injection H as <- <-).
  apply bind_Ok in H as (buf & _ & H). apply bind_Ok in H as (node & _ & H). destruct (n_level node =? 0).
  - apply bind_Ok in H as (rs & Hr & H). eapply IH; [|exact H]. apply Forall_app. split; [done|]. unfold records in Hr.
    apply guard_Ok in Hr as [_ Hr]. apply bind_Ok in Hr as (piece & _ & Hr). by eapply parse_list_ok.
  - apply bind_Ok in H as (ps & _ & H). by eapply IH.
Qed.

Lemma walk_ok ino rf fork n es : Bmbt.walk sb ino rf fork n = Ok es -> Forall extent_ok es.
Proof.
  intros H. unfold Bmbt.walk in H. apply bind_Ok in H as ([es' bs] & H & [= <-]). unfold walk_with_blocks in H. apply bind_Ok in H as (root & _ & H).
  apply bind_Ok in H as (ps & _ & H). apply bind_Ok in H as ([es2 bs2] & H & Hx). apply guard_Ok in Hx as [_ [= <- <-]]. by eapply walk_loop_ok in H.
Qed.

Lemma check_extents_total ino extents : forall i, check_extents_loop sb ino i extents <> Panic.
Proof. induction extents as [|e es IH]; intros i; cbn [check_extents_loop]; [done|]. apply bind_not_Panic; [apply fail_if_not_Panic|done]. Qed.

Lemma data_extents_spec inode raw : forks_ok sb inode -> (Z.to_nat (sb_inodesize sb) <= length raw)%nat ->
  data_extents sb read inode raw <> Panic /\ forall es, data_extents sb read inode raw = Ok es -> Forall extent_ok es.
Proof.
  intros [_ Hd _] Hl. unfold data_extents. destruct (is_realtime inode); cbn [fail_if mbind res_bind]; [split; [done|by intros]|].
  assert (Hf : fork_extents sb read inode raw <> Panic /\ forall es, fork_extents sb read inode raw = Ok es -> Forall extent_ok es).
  { unfold fork_extents. unfold data_fork_range in *. cbn [snd] in Hd. destruct (i_format inode); try (by split; [|intros]).
    - rewrite get_slice_Ok by lia. cbn [mbind res_bind]. split; [apply parse_list_total|apply parse_list_ok].
    - rewrite get_slice_Ok by lia. cbn [mbind res_bind]. unfold Bmbt.walk. split.
      + apply bind_not_Panic; [|done]. apply bmbt_walk_total. intros b. apply (rs_total _ Hread).
      + apply walk_ok. }
  destruct Hf as [Hp Hs]. destruct (fork_extents _ _ _ _) as [es|e|]; cbn [mbind res_bind]; [|split; [done|by intros]|done].
  pose proof (check_extents_total (i_ino inode) es 0) as Hc. unfold check_extents_in_bounds. destruct (check_extents_loop _ _ _ _) as [[]|e|]; cbn [mbind res_bind]; [|split; [done|by intros]|done].
  split; [done|]. intros es' [= <-]. by apply Hs.
Qed.

Lemma list_extent_total ino e last fuel : forall file_block, extent_ok e -> startoff e <= file_block -> last <= startoff e + blockcount e ->
  last - file_block <= Z.of_nat fuel -> list_extent sb read ino e last fuel file_block <> Panic.
Proof.
  induction fuel as [|fuel IH]; intros fb He Hlo Hhi Hf; cbn [list_extent]; (destruct (Z.leb_spec last fb) as [|Hlt]; [done|]); [lia|].
  assert (Hc : contains e fb = true) by (apply contains_covers; [done|unfold covers; lia]). unfold Extent.map. rewrite Hc. cbn [expect mbind res_bind].
  destruct (read _ _) as [block|er|] eqn:Er; cbn [mbind res_bind]; [|done|by destruct (rs_total _ Hread _ _ Er)].
  destruct (parse_data_block_spec block sb Hty Hgeo) as [Hp _]. destruct (parse_data_block block sb) as [es|er|]; cbn [mbind res_bind]; [|done|done].
  apply bind_not_Panic; [apply verify_dir_block_total; [done|done|by eapply rs_length]|]. intros _ _.
  destruct (per_spec sb Hty Hgeo) as (_ & Hper & _). destruct He as (Hs & Hb & Hc2).
  apply bind_not_Panic; [|done]. rewrite wadd_small by lia. apply IH; [done|lia|lia|lia].
Qed.

Lemma list_extents_total ino extents : Forall extent_ok extents -> list_extents sb read ino extents <> Panic.
Proof.
  induction 1 as [|e es He Hes IH]; cbn [list_extents]; [done|]. destruct (_ <=? startoff e); [done|]. destruct (is_unwritten e); [done|].
  apply bind_not_Panic; [|intros; by apply bind_not_Panic]. pose proof He as (Hs & Hb & Hc). rewrite end_offset_ok by done.
  apply list_extent_total; [done|lia|lia|lia].
Qed.

Lemma read_dir_total inode raw : forks_ok sb inode -> 0 <= i_size inode -> (Z.to_nat (sb_inodesize sb) <= length raw)%nat -> read_dir sb read inode raw <> Panic.
Proof.
  intros Hf Hsz Hl. pose proof (data_extents_spec inode raw Hf Hl) as [Hp Hs]. destruct Hf as [_ Hd _]. unfold read_dir.
  apply bind_not_Panic; [apply fail_if_not_Panic|intros _ _]. destruct (bool_decide _).
  - unfold data_fork_range in *. cbn [snd] in Hd. rewrite get_slice_Ok by lia. cbn [mbind res_bind]. apply bind_not_Panic; [|done].
    unfold read_short_form. set (fork := slice _ _ raw). destruct (short_form_strict inode fork sb Hsz) as [Hsp _]. by destruct (short_form inode fork sb None).
  - apply bind_not_Panic; [done|]. intros es He. by apply list_extents_total, Hs.
Qed.

(** Whatever a volume holds, looking a name up in any inode that parses and
    listing it as a directory end without a panic: however its fork maps its
    blocks, whatever the index nodes and leaves point at, and round whatever
    loop they make. *)
Theorem dir_lookup_total raw ino inode name : Inode_parse raw sb ino = Ok inode ->
  lookup_by_hash sb read inode raw name <> Panic /\ read_dir sb read inode raw <> Panic /\ entry_ino sb read inode raw name <> Panic.
Proof.
  intros Hi. destruct (Inode_parse_spec sb Hgeo raw ino) as [_ Hs]. destruct (Hs inode Hi) as (_ & _ & _ & _ & _ & Hf & _ & _ & _ & Hsz & _).
  assert (Hl : (Z.to_nat (sb_inodesize sb) <= length raw)%nat).
  { unfold Inode_parse in Hi. apply guard_Ok in Hi as [Hl%Nat.ltb_ge _]. exact Hl. }
  assert (H0 : 0 <= i_size inode) by (rewrite Hsz; apply rd_range_any).
  destruct (data_extents_spec inode raw Hf Hl) as [Hp He].
  assert (Hlook : lookup_by_hash sb read inode raw name <> Panic).
  { unfold lookup_by_hash. apply bind_not_Panic; [done|]. intros es Hes. apply lookup_mapped_total; [done|done|done|by apply He]. }
  split; [done|]. split; [by apply read_dir_total|]. unfold entry_ino. apply bind_not_Panic; [apply fail_if_not_Panic|intros _ _].
  destruct (_ || _); [done|]. destruct (bool_decide _); [|done]. apply bind_not_Panic; [by apply read_dir_total|done].
Qed.
End from_inode.

(** ** A directory laid out by [DirBlock], looked up *)

Lemma Ok_inj {A} (x y : A) : Ok x = Ok y -> x = y.
Proof. congruence. Qed.
Lemma find_map_None {A B} (f : A -> option B) l : Forall (fun x => f x = None) l -> find_map f l = None.
Proof. induction 1 as [|x l Hx Hl IH]; [done|]. cbn [find_map]. by rewrite Hx. Qed.
Lemma find_map_unique {A B} (f : A -> option B) l y : Forall (fun x => f x = None \/ f x = Some y) l -> Exists (fun x => f x = Some y) l -> find_map f l = Some y.
Proof.
  induction 1 as [|x l Hx Hl IH]; intros He; [by inversion He|]. cbn [find_map]. destruct Hx as [Hx|Hx]; rewrite Hx; [|done].
  apply IH. inversion He as [? ? He'|? ? He']; subst; [congruence|done].
Qed.
Lemma find_map_fmap {A B C} (f : B -> option C) (g : A -> B) l : find_map f (g <$> l) = find_map (fun x => f (g x)) l.
Proof. induction l as [|x l IH]; [done|]. rewrite fmap_cons. cbn [find_map]. by rewrite IH. Qed.

(** What packed entries look like. *)
Lemma placed_fields entries : forall at_, de_name <$> placed at_ entries = en_name <$> entries /\ de_ino <$> placed at_ entries = en_ino <$> entries.
Proof. induction entries as [|e es IH]; intros at_; [done|]. cbn [placed]. rewrite !fmap_cons. destruct (IH (at_ + entry_size (length (en_name e)))%nat) as [-> ->]. done. Qed.

Lemma placed_range entries : forall at_, (at_ mod 8 = 0)%nat ->
  Forall (fun d => Z.of_nat at_ <= de_offset d < Z.of_nat (at_ + data_size entries) /\ de_offset d mod 8 = 0) (placed at_ entries) /\
  NoDup (de_offset <$> placed at_ entries).
Proof.
  induction entries as [|e es IH]; intros at_ Hm; cbn [placed]; [split; constructor|].
  destruct (entry_size_spec (length (en_name e))) as [Hs Hsm]. rewrite data_size_cons.
  assert (Hm' : ((at_ + entry_size (length (en_name e))) mod 8 = 0)%nat) by (by rewrite Nat.Div0.add_mod, Hm, Hsm).
  destruct (IH (at_ + entry_size (length (en_name e)))%nat Hm') as [Hf Hn].
  split.
  - constructor; [cbn [de_offset]; split; [lia|]; change 8 with (Z.of_nat 8); by rewrite <- Nat2Z.inj_mod, Hm|]. eapply Forall_impl; [exact Hf|]. cbn. intros d [? ?]. split; [lia|done].
  - rewrite fmap_cons. constructor; [|done]. cbn [de_offset]. intros (d & Hd & Hin)%list_elem_of_fmap. rewrite Forall_forall in Hf. destruct (Hf d Hin). lia.
Qed.

Lemma find_there offset name l d : NoDup (de_offset <$> l) -> d ∈ l -> de_offset d = offset ->
  find (entry_there offset name) l = if bool_decide (de_name d = name) then Some d else None.
Proof.
  intros Hn Hd Ho. induction l as [|x l IH]; [by apply elem_of_nil in Hd|]. rewrite fmap_cons in Hn. apply NoDup_cons in Hn as [Hx Hn]. cbn [find]. unfold entry_there at 1.
  apply elem_of_cons in Hd as [->|Hd].
  - rewrite Ho, Z.eqb_refl. cbn [andb]. destruct (bool_decide_reflect (de_name x = name)); [done|].
    clear IH. assert (Hnone : forall y, y ∈ l -> de_offset y <> offset) by (intros y Hy E; apply Hx; rewrite Ho, <- E; apply list_elem_of_fmap; by exists y). clear Hx Hn.
    induction l as [|y l IH]; [done|]. cbn [find]. unfold entry_there at 1. rewrite (proj2 (Z.eqb_neq _ _)) by (apply Hnone; by left). cbn [andb]. apply IH. intros z Hz. apply Hnone. by right.
  - destruct (Z.eqb_spec (de_offset x) offset) as [E|]; [|by apply IH]. exfalso. apply Hx. rewrite E, <- Ho. apply list_elem_of_fmap. by exists d.
Qed.

Section built.
Context (sb : Superblock) (Hty : sb_typed sb) (Hgeo : sb_geometry sb).
Let dbs := Z.to_nat (dirblocksize sb).

(** The index records of packed entries, one for each. *)
Lemma index_of_placed base entries : forall at_,
  index_of sb base at_ entries = (fun d => (hash_for sb (de_name d), (base + de_offset d) / 8)) <$> placed at_ entries.
Proof. induction entries as [|e es IH]; intros at_; [done|]. cbn [index_of placed]. rewrite fmap_cons. by rewrite IH. Qed.

Lemma entry_at_placed db offset : addressable dbs db -> 0 <= offset < Z.of_nat dbs -> offset mod 8 = 0 ->
  entry_at sb ((db * Z.of_nat dbs + offset) / 8) = (db, offset).
Proof.
  intros [Hdb Ha] Ho Hm. destruct (dbs_spec sb Hty Hgeo) as (Ed & H512 & H64k & Hm8 & _). fold dbs in Ed, H512, H64k, Hm8. unfold entry_at. rewrite <- Ed.
  assert (Hd8 : (db * Z.of_nat dbs + offset) mod 8 = 0).
  { rewrite Z.add_mod, Hm, Z.mul_mod by lia. change 8 with (Z.of_nat 8). rewrite <- Nat2Z.inj_mod, Hm8. cbn. by rewrite Z.mul_0_r. }
  assert (E : (db * Z.of_nat dbs + offset) / 8 * 8 = db * Z.of_nat dbs + offset) by (pose proof (Z.div_mod (db * Z.of_nat dbs + offset) 8 ltac:(lia)); lia).
  rewrite wmul_small by nia. rewrite E. f_equal.
  - rewrite Z.add_comm, Z.div_add by lia. rewrite Z.div_small by lia. lia.
  - rewrite Z.add_comm, Z.mod_add by lia. rewrite Z.mod_small by lia. apply wrap_small. unfold in_u. lia.
Qed.

Section groups.
Context (groups : list (list Entry)) (name : bytes).
Context (Hnodup : NoDup (en_name <$> concat groups)) (Hfit : Forall (fun g => (64 + data_size g <= dbs)%nat) groups).
Context (Haddr : Z.of_nat (length groups) * Z.of_nat dbs <= 2 ^ 35).

Definition whole_index : list (Z * Z) := concat (imap (fun db g => index_of sb (Z.of_nat db * Z.of_nat dbs) 64 g) groups).

(** What an address leads to. *)
Definition leads_to (address : Z) : option Z :=
  let '(db, offset) := entry_at sb address in
  g ← groups !! Z.to_nat db; de_ino <$> find (entry_there offset name) (placed 64 g).

Lemma whole_index_inv x : x ∈ whole_index <-> exists db g d, groups !! db = Some g /\ d ∈ placed 64 g /\
  x = (hash_for sb (de_name d), (Z.of_nat db * Z.of_nat dbs + de_offset d) / 8).
Proof.
  unfold whole_index. rewrite list_elem_of_In, in_concat. split.
  - intros (l & Hl & Hx). apply list_elem_of_In, elem_of_lookup_imap in Hl as (db & g & -> & Hg). rewrite index_of_placed in Hx.
    apply list_elem_of_In, list_elem_of_fmap in Hx as (d & -> & Hd). by exists db, g, d.
  - intros (db & g & d & Hg & Hd & ->). exists (index_of sb (Z.of_nat db * Z.of_nat dbs) 64 g). split.
    + apply list_elem_of_In, elem_of_lookup_imap. by exists db, g.
    + rewrite index_of_placed. apply list_elem_of_In, list_elem_of_fmap. by exists d.
Qed.

Lemma record_leads db g d : groups !! db = Some g -> d ∈ placed 64 g ->
  leads_to ((Z.of_nat db * Z.of_nat dbs + de_offset d) / 8) = (if bool_decide (de_name d = name) then Some (de_ino d) else None).
Proof.
  intros Hg Hd. destruct (placed_range g 64 eq_refl) as [Hr Hn]. pose proof (proj1 (Forall_forall _ _) Hr d Hd) as [Ho Hm].
  pose proof (proj1 (Forall_forall _ _) Hfit g ltac:(by eapply list_elem_of_lookup_2)) as Hgf. cbn beta in Hgf.
  pose proof (lookup_lt_Some _ _ _ Hg) as Hlt. unfold leads_to. rewrite entry_at_placed; [|split; [lia|nia]|lia|done].
  rewrite Nat2Z.id, Hg. cbn [mbind option_bind]. rewrite (find_there _ _ _ d Hn Hd eq_refl). by destruct (bool_decide _).
Qed.

(** The lookup of a list of entries. *)
Definition named_ino (entries : list Entry) : option Z := en_ino <$> find (fun e => bool_decide (en_name e = name)) entries.

Lemma find_named_entry entries :
  match find (fun e => bool_decide (en_name e = name)) entries with
  | Some e => e ∈ entries /\ en_name e = name
  | None => name ∉ en_name <$> entries
  end.
Proof.
  induction entries as [|e l IH]; cbn [find]; [rewrite fmap_nil; apply not_elem_of_nil|]. destruct (bool_decide_reflect (en_name e = name)); [split; [by left|done]|].
  destruct (find _ l); [destruct IH; split; [by right|done]|]. rewrite fmap_cons, not_elem_of_cons. by split.
Qed.

Lemma placed_entry at_ g d : d ∈ placed at_ g -> exists e, e ∈ g /\ en_name e = de_name d /\ en_ino e = de_ino d.
Proof.
  revert at_. induction g as [|e es IH]; intros at_ Hd; cbn [placed] in Hd; [by apply elem_of_nil in Hd|].
  apply elem_of_cons in Hd as [->|Hd]; [exists e; split; [by left|done]|]. destruct (IH _ Hd) as (e' & He' & ?). exists e'. split; [by right|done].
Qed.
Lemma entry_placed at_ g e : e ∈ g -> exists d, d ∈ placed at_ g /\ en_name e = de_name d /\ en_ino e = de_ino d.
Proof.
  revert at_. induction g as [|x es IH]; intros at_ He; [by apply elem_of_nil in He|]. cbn [placed].
  apply elem_of_cons in He as [->|He]; [eexists; split; [by left|done]|]. destruct (IH (at_ + entry_size (length (en_name x)))%nat He) as (d & Hd & ?). exists d. split; [by right|done].
Qed.

Lemma same_name a b : a ∈ concat groups -> b ∈ concat groups -> en_name a = en_name b -> a = b.
Proof.
  revert Hnodup. generalize (concat groups). induction l as [|x l IH]; intros Hn Ha Hb E; [by apply elem_of_nil in Ha|].
  rewrite fmap_cons in Hn. apply NoDup_cons in Hn as [Hx Hn]. apply elem_of_cons in Ha as [->|Ha], Hb as [->|Hb]; [done| | |by apply IH].
  - destruct Hx. rewrite E. apply list_elem_of_fmap. by exists b.
  - destruct Hx. rewrite <- E. apply list_elem_of_fmap. by exists a.
Qed.

Lemma index_finds : find_map leads_to (address <$> List.filter (under_hash (hash_for sb name)) (leaf_of <$> by_hash whole_index)) = named_ino (concat groups).
Proof.
  set (l := address <$> _).
  assert (Hin : forall a, a ∈ l -> exists db g d, groups !! db = Some g /\ d ∈ placed 64 g /\ a = (Z.of_nat db * Z.of_nat dbs + de_offset d) / 8).
  { intros a Ha. unfold l in Ha. apply list_elem_of_fmap in Ha as (r & -> & Hr). apply list_elem_of_In, filter_In in Hr as [Hr _].
    apply list_elem_of_In, list_elem_of_fmap in Hr as (x & -> & Hx). unfold by_hash in Hx. rewrite sort_by_Permutation in Hx.
    apply whole_index_inv in Hx as (db & g & d & Hg & Hd & ->). by exists db, g, d. }
  pose proof (find_named_entry (concat groups)) as Hf. unfold named_ino. destruct (find _ (concat groups)) as [e|]; cbn [fmap option_fmap option_map].
  - destruct Hf as [He Hen]. apply find_map_unique.
    + apply Forall_forall. intros a Ha. destruct (Hin a Ha) as (db & g & d & Hg & Hd & ->). rewrite (record_leads _ _ _ Hg Hd).
      destruct (bool_decide_reflect (de_name d = name)) as [Ed|]; [|by left]. right. f_equal.
      destruct (placed_entry _ _ _ Hd) as (e' & He' & En & <-). f_equal. apply same_name; [|done|congruence].
      apply list_elem_of_In, in_concat. exists g. split; [apply list_elem_of_In; by eapply list_elem_of_lookup_2|by apply list_elem_of_In].
    + apply list_elem_of_In, in_concat in He as (g & Hg & He). apply list_elem_of_In, list_elem_of_lookup_1 in Hg as [db Hg]. apply list_elem_of_In in He.
      destruct (entry_placed 64 g e He) as (d & Hd & En & Ei). apply Exists_exists. exists ((Z.of_nat db * Z.of_nat dbs + de_offset d) / 8). split.
      2:{ rewrite (record_leads _ _ _ Hg Hd), bool_decide_eq_true_2 by congruence. by rewrite Ei. }
      unfold l. apply list_elem_of_fmap. exists (leaf_of (hash_for sb (de_name d), (Z.of_nat db * Z.of_nat dbs + de_offset d) / 8)). split; [done|].
      apply list_elem_of_In, filter_In. split.
      * apply list_elem_of_In, list_elem_of_fmap. eexists. split; [done|]. unfold by_hash. rewrite sort_by_Permutation. apply whole_index_inv. by exists db, g, d.
      * unfold under_hash, is_stale, leaf_of, NULL_DATAPTR. cbn [address hashval fst snd]. rewrite <- En, Hen, Z.eqb_refl, andb_true_r. apply negb_true_iff, Z.eqb_neq.
        destruct (placed_range g 64 eq_refl) as [Hr _]. pose proof (proj1 (Forall_forall _ _) Hr d Hd) as [Ho _].
        assert (0 < (Z.of_nat db * Z.of_nat dbs + de_offset d) / 8) by (apply Z.div_str_pos; nia). lia.
  - apply find_map_None, Forall_forall. intros a Ha. destruct (Hin a Ha) as (db & g & d & Hg & Hd & ->). rewrite (record_leads _ _ _ Hg Hd).
    rewrite bool_decide_eq_false_2; [done|]. intros E. apply Hf. destruct (placed_entry _ _ _ Hd) as (e' & He' & En & _). apply list_elem_of_fmap. exists e'. split; [congruence|].
    apply list_elem_of_In, in_concat. exists g. split; [apply list_elem_of_In; by eapply list_elem_of_lookup_2|by apply list_elem_of_In].
Qed.

Context `{Crc : Crc32c} (read : Z -> nat -> res bytes) (extents : list Extent) (ino : Z).
(** Each data block reads as its entries. *)
Definition data_blocks_read : Prop := forall db g, groups !! db = Some g -> exists data,
  read_dir_block sb read extents (Z.of_nat db) ino = Ok (Some data) /\ parse_data_block data sb = Ok (placed 64 g).

Lemma resolve_leads addresses : data_blocks_read ->
  Forall (fun a => exists db g d, groups !! db = Some g /\ d ∈ placed 64 g /\ a = (Z.of_nat db * Z.of_nat dbs + de_offset d) / 8) addresses ->
  resolve sb read extents ino name addresses = Ok (find_map leads_to addresses).
Proof.
  intros Hr. induction 1 as [|a l (db & g & d & Hg & Hd & ->) Hl IH]; [done|]. cbn [resolve find_map]. rewrite (record_leads _ _ _ Hg Hd).
  destruct (placed_range g 64 eq_refl) as [Hrg Hn]. pose proof (proj1 (Forall_forall _ _) Hrg d Hd) as [Ho Hm].
  pose proof (proj1 (Forall_forall _ _) Hfit g ltac:(by eapply list_elem_of_lookup_2)) as Hgf. cbn beta in Hgf.
  pose proof (lookup_lt_Some _ _ _ Hg) as Hlt. rewrite entry_at_placed; [|split; [lia|nia]|lia|done].
  destruct (Hr db g Hg) as (data & -> & Hp). cbn [mbind res_bind]. rewrite Hp. cbn [mbind res_bind]. rewrite (find_there _ _ _ d Hn Hd eq_refl).
  by destruct (bool_decide _).
Qed.
End groups.
End built.

Section finds.
Context `{Crc : Crc32c} {Laws : Crc32cLaws}.
Context (sb : Superblock) (Hty : sb_typed sb) (Hgeo : sb_geometry sb) (Hv5 : is_v5 sb = true) (Hft : has_ftype sb = true).
Context (read : Z -> nat -> res bytes) (extents : list Extent) (ino : Z).
Let dbs := Z.to_nat (dirblocksize sb).

(** The directory block holds what a buffer item of this type leaves of it. *)
Definition reads_written (buf_type dir_block : Z) (block : bytes) : Prop := exists image,
  written buf_type block image /\ read_dir_block sb read extents dir_block ino = Ok (Some image).

Lemma reads_written_stamped t at_ dir_block block : reads_written t dir_block block -> (at_ + 4 <= length block)%nat ->
  (forall blk fl dirty, crc_offset (mkItem blk t fl block dirty) = Some at_) -> read_dir_block sb read extents dir_block ino = Ok (Some (stamped at_ block)).
Proof.
  intros (image & Hw & Hr) Hl Ht. pose proof (image_written sb t at_ block Hl Ht 0 0 []) as E. rewrite (Hw 0 0 []) in E. by injection E as <-.
Qed.

Lemma lookup_block_form fsblock entries block name : Forall (writable sb) entries -> NoDup (en_name <$> entries) -> in_u 64 ino ->
  build sb fsblock ino entries = Ok block -> reads_written BLFT_DIR_BLOCK 0 block ->
  lookup_mapped sb read extents ino name = Ok (named_ino name entries).
Proof.
  intros Hw Hn Ho Hb Hr. pose proof (dir_build_spec sb Hty Hgeo fsblock ino entries (writable_named _ _ Hw)) as Hs. fold dbs in Hs.
  destruct (Nat.ltb_spec dbs (space_needed entries)) as [|Hfit]; [destruct Hs as [e Hs]; congruence|]. rewrite Hs in Hb. apply Ok_inj in Hb. subst block.
  destruct (built_block sb Hty Hgeo fsblock ino entries Hw Ho Hfit) as (Hl & head & E & Hlh & Hm & _). destruct (dbs_spec sb Hty Hgeo) as (Ed & H512 & H64k & _). fold dbs in Ed, H512, H64k.
  assert (Hlen : (4 + 4 <= length (block_head sb fsblock ino entries ++ block_body sb entries))%nat) by (rewrite Hl; fold dbs; lia).
  pose proof (reads_written_stamped _ 4 _ _ Hr Hlen ltac:(done)) as Hrd. rewrite E in Hrd.
  unfold lookup_mapped. rewrite Hrd. cbn [mbind res_bind]. rewrite be32_Ok by (rewrite length_app, Hlh; unfold dir3_blk.MAGIC; lia). cbn [mbind res_bind].
  unfold dir3_blk.MAGIC. rewrite (rd_head sb 4 0 head) by (rewrite Hlh; lia). rewrite Hm. change (is_block_form XFS_DIR3_BLOCK_MAGIC) with true. cbn iota.
  rewrite parse_block_built by done. cbn [mbind res_bind bd_index bd_entries]. f_equal.
  assert (Hf64 : (64 + data_size entries <= dbs)%nat) by (unfold space_needed in Hfit; dir_lia).
  assert (Hone : Forall (fun g => (64 + data_size g <= dbs)%nat) [entries]) by (by constructor).
  pose proof (index_finds sb Hty Hgeo [entries] name) as Hif. cbn [concat] in Hif. rewrite app_nil_r in Hif. fold dbs in Hif.
  specialize (Hif Hn Hone ltac:(cbn [length]; lia)). rewrite <- Hif. unfold whole_index. cbn [imap concat]. rewrite app_nil_r, Z.mul_0_l. rewrite find_map_fmap.
  fold (built_index sb 0 entries).
  assert (Hext : forall l, Forall (fun r => exists d, d ∈ placed 64 entries /\ r = leaf_of (hash_for sb (de_name d), de_offset d / 8)) l ->
    find_map (fun r => let '(_, offset) := entry_at sb (address r) in de_ino <$> find (entry_there offset name) (placed 64 entries)) l =
    find_map (fun r => leads_to sb [entries] name (address r)) l).
  { induction 1 as [|r l (d & Hd & ->) Hl' IH]; [done|]. cbn [find_map]. rewrite IH. cbn [leaf_of address fst snd].
    destruct (placed_range entries 64 eq_refl) as [Hrg _]. pose proof (proj1 (Forall_forall _ _) Hrg d Hd) as [Hof Hmod].
    unfold leads_to. replace (de_offset d) with (0 * Z.of_nat dbs + de_offset d) by lia. rewrite (entry_at_placed sb Hty Hgeo) by (done || (split; fold dbs; lia) || (fold dbs; lia)). done. }
  apply Hext. apply Forall_forall. intros r Hr'. apply list_elem_of_In, filter_In in Hr' as [Hr' _]. apply list_elem_of_In, list_elem_of_fmap in Hr' as (x & -> & Hx).
  unfold built_index, by_hash in Hx. rewrite sort_by_Permutation, index_of_placed in Hx. apply list_elem_of_fmap in Hx as (d & -> & Hd). exists d. split; [done|]. by rewrite Z.add_0_l.
Qed.

(** The data blocks built from groups of entries, in order. *)
Definition built_from (fsblock : nat -> Z) (groups : list (list Entry)) (ds : list DataBlock) : Prop :=
  res_map (fun x => build_data_block sb (fsblock x.1) ino (Z.of_nat x.1) x.2) (imap pair groups) = Ok ds.

Lemma built_from_spec fsblock groups ds : Forall (Forall (writable sb)) groups -> Forall (fun g => (64 + data_size g <= dbs)%nat) groups ->
  Z.of_nat (length groups) * Z.of_nat dbs <= 2 ^ 35 -> built_from fsblock groups ds ->
  ds = imap (fun db g => mkDataBlock (data_head sb (fsblock db) ino g ++ data_body sb g) (Z.of_nat (data_free sb g)) (index_of sb (Z.of_nat db * Z.of_nat dbs) 64 g)) groups.
Proof.
  intros Hw Hf Ha Hb. unfold built_from in Hb. apply res_map_Ok in Hb. apply list_eq. intros i. rewrite list_lookup_imap.
  destruct (groups !! i) as [g|] eqn:Eg; cbn [fmap option_fmap option_map].
  - destruct (Forall2_lookup_l _ _ _ i (i, g) Hb) as (d & Hd & Hbd); [by rewrite list_lookup_imap, Eg|]. rewrite Hd. cbn [fst snd] in Hbd.
    rewrite Forall_lookup in Hw, Hf. pose proof (Hf i g Eg) as Hfg. cbn beta in Hfg. pose proof (lookup_lt_Some _ _ _ Eg).
    destruct (dbs_spec sb Hty Hgeo) as (_ & H512 & _). fold dbs in H512. rewrite (build_data_block_spec sb Hty Hgeo) in Hbd; [by apply Ok_inj in Hbd as <-|apply (writable_named sb), (Hw i g Eg)|split; fold dbs; nia|done].
  - apply lookup_ge_None. apply Forall2_length in Hb. rewrite length_imap in Hb. rewrite <- Hb. by apply lookup_ge_None.
Qed.

Lemma data_head_len fsblock g : length (data_head sb fsblock ino g) = 64%nat.
Proof. unfold data_head. by rewrite length_app, (length_head48 sb Hty), length_bestfree_bytes. Qed.

Lemma data_image_reads fsblock g : Forall (writable sb) g -> (64 + data_size g <= dbs)%nat ->
  let block := data_head sb fsblock ino g ++ data_body sb g in
  length block = dbs /\ parse_data_block (stamped 4 block) sb = Ok (placed 64 g) /\ rd 4 0 (stamped 4 block) = XFS_DIR3_DATA_MAGIC.
Proof.
  intros Hw Hf block. pose proof (data_head_len fsblock g) as Hh.
  assert (Hl : length block = dbs).
  { unfold block, data_body. rewrite !length_app, Hh, length_records, length_free_bytes by (by apply data_free_mod8). unfold data_free. fold dbs. lia. }
  split; [done|]. destruct (stamped_head 4 (data_head sb fsblock ino g) (data_body sb g)) as (head & E & Hlh & Hs); [rewrite Hh; lia|].
  assert (Hm : rd 4 0 head = XFS_DIR3_DATA_MAGIC).
  { unfold rd. rewrite Hs by lia. fold (rd 4 0 (data_head sb fsblock ino g)). by apply (data_header_magic sb). }
  rewrite Hh in Hlh. unfold block. rewrite E. split; [by apply parse_data_built|]. by rewrite (rd_head sb) by (rewrite Hlh; lia).
Qed.

(** What a leaf-form directory laid out whole is on the device. *)
Record leaf_form (fsblock : nat -> Z) (leaf_fsblock : Z) (entries : list Entry) (groups : list (list Entry)) (ds : list DataBlock) (leaf : bytes) : Prop := {
  lo_packed : pack entries dbs = Ok groups;
  lo_data_region : Z.of_nat (length groups) * Z.of_nat dbs <= 2 ^ 35;
  lo_bests : (68 + length groups * 2 <= dbs)%nat;
  lo_data : built_from fsblock groups ds;
  lo_leaf : build_leaf sb leaf_fsblock ino (concat (db_index <$> ds)) (db_best <$> ds) = Ok leaf;
  lo_data_read i d : ds !! i = Some d -> reads_written BLFT_DIR_DATA (Z.of_nat i) (db_bytes d);
  lo_leaf_read : reads_written BLFT_DIR_LEAF1 (DIR_LEAF_FILE_OFFSET / dirblocksize sb) leaf;
}.

Lemma whole_index_records groups : Forall (fun g => (64 + data_size g <= dbs)%nat) groups -> Z.of_nat (length groups) * Z.of_nat dbs <= 2 ^ 35 ->
  Forall index_record (whole_index sb groups).
Proof.
  intros Hf Ha. apply Forall_forall. intros x Hx. apply whole_index_inv in Hx as (db & g & d & Hg & Hd & ->). destruct (placed_range g 64 eq_refl) as [Hrg _].
  pose proof (proj1 (Forall_forall _ _) Hrg d Hd) as [Hof Hmod]. rewrite Forall_lookup in Hf. pose proof (Hf db g Hg) as Hgf. cbn beta in Hgf. pose proof (lookup_lt_Some _ _ _ Hg).
  split; [apply hash_for_u32|]. cbn [snd]. fold dbs. split; [apply Z.div_str_pos; nia|apply Z.div_lt_upper_bound; nia].
Qed.

(** A leaf that is not part of a chain. *)
Lemma single_leaf block leaf hash at_ fuel fuel' : (2 <= length block)%nat -> parse_leaf block sb = Ok leaf -> lf_magic leaf = XFS_DIR3_LEAF1_MAGIC ->
  (10 <= length block)%nat ->
  descend sb read extents ino hash (S fuel) at_ block None = Ok (Some (at_, block)) /\
  gather sb read extents ino hash (S fuel') block {[at_]} = Ok (address <$> List.filter (under_hash hash) (lf_entries leaf)).
Proof.
  intros _ Hp Hm Hl. pose proof (parse_leaf_spec block sb Hty Hgeo) as [_ Hs]. destruct (Hs leaf Hp) as (Em & _). split; cbn [descend gather].
  - rewrite be16_Ok by (unfold da_blk.MAGIC; lia). cbn [mbind res_bind]. rewrite <- Em, Hm. done.
  - rewrite Hp. cbn [mbind res_bind]. rewrite Hm. change ((XFS_DIR3_LEAF1_MAGIC =? XFS_DIR3_LEAFN_MAGIC) || _) with false. by rewrite andb_false_r.
Qed.

Lemma leaf_form_parts fsblock leaf_fsblock entries groups ds leaf : Forall (writable sb) entries -> entries <> [] ->
  leaf_form fsblock leaf_fsblock entries groups ds leaf ->
  concat groups = entries /\ Forall (fun g => (64 + data_size g <= dbs)%nat) groups /\ data_blocks_read sb groups read extents ino /\
  (exists first, read_dir_block sb read extents 0 ino = Ok (Some first) /\ length first = dbs /\ rd 4 0 first = XFS_DIR3_DATA_MAGIC) /\
  exists image parsed, read_dir_block sb read extents (DIR_LEAF_FILE_OFFSET / dirblocksize sb) ino = Ok (Some image) /\ (10 <= length image)%nat /\
    parse_leaf image sb = Ok parsed /\ lf_magic parsed = XFS_DIR3_LEAF1_MAGIC /\ lf_entries parsed = leaf_of <$> by_hash (whole_index sb groups).
Proof.
  intros Hw Hne [Hp Ha Hcap Hb Hlf Hrd Hrl]. destruct (dbs_spec sb Hty Hgeo) as (Ed & H512 & H64k & _). fold dbs in Ed, H512, H64k.
  pose proof (pack_loop_spec dbs (dbs - XFS_DIR3_DATA_HDR_SIZE) entries 0 [] [] eq_refl ltac:(unfold fits_block; cbn; lia)) as Hps. unfold pack in Hp. rewrite Hp in Hps.
  destruct Hps as (gs0 & E0 & [Hc Hgf] & Hgne & _). cbn [app] in E0, Hc. subst gs0.
  assert (Hfit : Forall (fun g => (64 + data_size g <= dbs)%nat) groups) by (eapply Forall_impl; [exact Hgf|]; unfold fits_block; intros g; dir_lia).
  assert (Hwg : Forall (Forall (writable sb)) groups).
  { apply Forall_forall. intros g Hg. apply Forall_forall. intros e He. rewrite <- Hc, Forall_forall in Hw. apply Hw. apply list_elem_of_In, in_concat. exists g. split; by apply list_elem_of_In. }
  pose proof (built_from_spec fsblock groups ds Hwg Hfit Ha Hb) as Eds.
  assert (Himg : forall db g, groups !! db = Some g -> exists data, read_dir_block sb read extents (Z.of_nat db) ino = Ok (Some data) /\
    parse_data_block data sb = Ok (placed 64 g) /\ length data = dbs /\ rd 4 0 data = XFS_DIR3_DATA_MAGIC).
  { intros db g Hg. rewrite Forall_lookup in Hwg, Hfit. destruct (data_image_reads (fsblock db) g (Hwg db g Hg) (Hfit db g Hg)) as (Hl & Hpd & Hm).
    eexists. split; [|split; [exact Hpd|split; [|exact Hm]]]; [|rewrite length_dir_stamped; rewrite Hl; [done|lia]].
    apply (reads_written_stamped BLFT_DIR_DATA 4); [|rewrite Hl; lia|done]. specialize (Hrd db). rewrite Eds, list_lookup_imap, Hg in Hrd. by specialize (Hrd _ eq_refl). }
  split; [done|]. split; [done|]. split; [intros db g Hg; destruct (Himg db g Hg) as (data & ? & ? & _); by exists data|]. split.
  { destruct groups as [|g0 gs0]; [done|]. destruct (Himg 0%nat g0 eq_refl) as (data & ? & _ & ? & ?). by exists data. }
  assert (Eidx : concat (db_index <$> ds) = whole_index sb groups) by (unfold whole_index; rewrite Eds, fmap_imap; done).
  assert (Hlb : length (db_best <$> ds) = length groups) by (by rewrite Eds, length_fmap, length_imap). rewrite Eidx in Hlf.
  set (bests := db_best <$> ds) in *. set (idx := whole_index sb groups) in *. pose proof (whole_index_records groups Hfit Ha) as Hirec. fold idx in Hirec.
  destruct (dir_leaf_spec sb Hty Hgeo leaf_fsblock ino idx bests) as [[Hlfit Hls]|[_ [e Hls]]]; [rewrite Hlb; fold dbs; lia| |congruence].
  rewrite Hls in Hlf. apply Ok_inj in Hlf. subst leaf. pose proof (length_leaf_head sb Hty leaf_fsblock ino (Z.of_nat (length idx))) as Hlh. set (lh := leaf_head _ _ _ _) in *.
  assert (Hlen : (12 + 4 <= length (lh ++ leaf_body sb idx bests))%nat) by (rewrite length_app, Hlh; lia).
  pose proof (reads_written_stamped _ 12 _ _ Hrl Hlen ltac:(done)) as Hrleaf.
  destruct (stamped_head 12 lh (leaf_body sb idx bests)) as (head & Eh & Hhl & Hhs); [rewrite Hlh; lia|]. rewrite Eh in Hrleaf.
  assert (Hreads : reads_leaf_head head (Z.of_nat (length idx))).
  { unfold leaf_fits in Hlfit. fold dbs in Hlfit. apply (leaf_header_reads sb Hty leaf_fsblock ino); [unfold in_u; lia|by rewrite Hhl|done]. }
  pose proof (parse_leaf_built sb Hty Hgeo Hv5 head idx bests Hirec Hlfit Hreads) as Hpl.
  eexists _, _. split; [exact Hrleaf|]. split; [rewrite length_app, Hhl, Hlh; lia|]. split; [exact Hpl|]. done.
Qed.

Lemma lookup_leaf_form fsblock leaf_fsblock entries groups ds leaf name :
  Forall (writable sb) entries -> NoDup (en_name <$> entries) -> entries <> [] ->
  leaf_form fsblock leaf_fsblock entries groups ds leaf -> lookup_mapped sb read extents ino name = Ok (named_ino name entries).
Proof.
  intros Hw Hn Hne Hlo. destruct (leaf_form_parts _ _ _ _ _ _ Hw Hne Hlo) as (<- & Hfit & Hdata & (first & Hr0 & Hl0 & Hm0) & image & parsed & Hrl & Hll & Hpl & Hml & Hel).
  pose proof (lo_data_region _ _ _ _ _ _ Hlo) as Ha. destruct (dbs_spec sb Hty Hgeo) as (_ & H512 & _). fold dbs in H512.
  unfold lookup_mapped. rewrite Hr0. cbn [mbind res_bind]. rewrite be32_Ok by (unfold dir3_blk.MAGIC; lia). cbn [mbind res_bind]. unfold dir3_blk.MAGIC. rewrite Hm0.
  change (is_block_form XFS_DIR3_DATA_MAGIC) with false. cbn iota. rewrite Hrl. cbn [ok_or mbind res_bind].
  set (start := DIR_LEAF_FILE_OFFSET / dirblocksize sb). set (hash := hash_for sb name).
  destruct (single_leaf image parsed hash start (Z.to_nat MAX_SUPPORTED_NODE_LEVEL + 1) (mapped_blocks extents + 1) ltac:(lia) Hpl Hml Hll) as [Hds Hga].
  rewrite !Nat.add_1_r in *. replace (Z.to_nat MAX_SUPPORTED_NODE_LEVEL + 2)%nat with (S (S (Z.to_nat MAX_SUPPORTED_NODE_LEVEL))) by lia.
  replace (mapped_blocks extents + 2)%nat with (S (S (mapped_blocks extents))) by lia. rewrite Hds. cbn [mbind res_bind]. rewrite Hga. cbn [mbind res_bind]. rewrite Hel.
  rewrite (resolve_leads sb Hty Hgeo groups name Hfit Ha read extents ino _ Hdata); [unfold hash; by rewrite (index_finds sb Hty Hgeo groups name Hn Hfit Ha)|].
  apply Forall_forall. intros a Ha'. apply list_elem_of_fmap in Ha' as (r & -> & Hr). apply list_elem_of_In, filter_In in Hr as [Hr _].
  apply list_elem_of_In, list_elem_of_fmap in Hr as (x & -> & Hx). unfold by_hash in Hx. rewrite sort_by_Permutation in Hx.
  apply whole_index_inv in Hx as (db & g & d & Hg & Hd & ->). by exists db, g, d.
Qed.

End finds.

(** ** Witnesses *)

Definition sample_read (blocks : list (Z * bytes)) (off : Z) (n : nat) : res bytes :=
  match find (fun b => off =? fsblock_offset sample_sb (fst b)) blocks with
  | Some (_, block) => Ok (take n (block ++ zeros n))
  | None => Err (Io (fmt "no such block" []))
  end.
Lemma sample_reads blocks : reads (sample_read blocks).
Proof.
  split; intros off n; unfold sample_read; destruct (find _ blocks) as [[? b]|]; try done. intros bs H. apply Ok_inj in H as <-.
  rewrite length_take, length_app, length_replicate. lia.
Qed.
Definition sample_write (buf_type : Z) (r : res bytes) : bytes :=
  match r with
  | Ok block => match image_as_written (mkItem 0 buf_type 0 block []) with Ok b => b | _ => [] end
  | _ => []
  end.

(** In one block, and as one data block at 20 and a leaf at 21. *)
Definition sample_one_block : list (Z * bytes) := Eval vm_compute in
  [(20, sample_write BLFT_DIR_BLOCK (build sample_sb 20 128 sample_dir_entries))].
Definition sample_data_block : DataBlock := Eval vm_compute in
  match build_data_block sample_sb 20 128 0 sample_dir_entries with Ok d => d | _ => mkDataBlock [] 0 [] end.
Definition sample_leaf : bytes := Eval vm_compute in
  match build_leaf sample_sb 21 128 (db_index sample_data_block) [db_best sample_data_block] with Ok b => b | _ => [] end.
Definition sample_two_blocks : list (Z * bytes) := Eval vm_compute in
  [(20, sample_write BLFT_DIR_DATA (Ok (db_bytes sample_data_block))); (21, sample_write BLFT_DIR_LEAF1 (Ok sample_leaf))].
Definition sample_dir_extents : list Extent := [mkExtent 0 20 1 false; mkExtent (2 ^ 35 / 512) 21 1 false].

Lemma sample_written t at_ blocks db b image : (at_ + 4 <= length b)%nat ->
  (forall blk fl dirty, crc_offset (mkItem blk t fl b dirty) = Some at_) -> stamped at_ b = image ->
  read_dir_block sample_sb (sample_read blocks) sample_dir_extents db 128 = Ok (Some image) ->
  reads_written sample_sb (sample_read blocks) sample_dir_extents 128 t db b.
Proof. intros Hl Ht <- Hr. eexists. split; [by apply (image_written sample_sb t at_)|done]. Qed.

Lemma sample_leaf_form : leaf_form sample_sb (sample_read sample_two_blocks) sample_dir_extents 128
  (fun _ => 20) 21 sample_dir_entries [sample_dir_entries] [sample_data_block] sample_leaf.
Proof.
  split; [vm_compute; reflexivity|vm_compute; discriminate|vm_compute; lia|vm_compute; reflexivity|vm_compute; reflexivity| |].
  - intros [|i] d Hd; [|discriminate]. change (Some sample_data_block = Some d) in Hd. apply (inj Some) in Hd as <-.
    eapply (sample_written BLFT_DIR_DATA 4); [vm_compute; lia|reflexivity|reflexivity|vm_compute; reflexivity].
  - eapply (sample_written BLFT_DIR_LEAF1 12); [vm_compute; lia|reflexivity|reflexivity|vm_compute; reflexivity].
Qed.


Lemma dir_lookup_total_witness : exists inode, Inode_parse sample_inode sample_sb 129 = Ok inode /\
  lookup_by_hash sample_sb (sample_read []) inode sample_inode ["a"%byte] <> Panic.
Proof.
  destruct (Inode_parse sample_inode sample_sb 129) as [inode| |] eqn:E; [|vm_compute in E; discriminate..]. exists inode. split; [done|].
  by destruct (dir_lookup_total sample_sb (sample_read []) sample_typed sample_geometry (sample_reads []) sample_inode 129 inode ["a"%byte] E).
Defined.
