(* ===== verification/Attr.v ===== *)
(** * Reading extended attributes ([src/src/attr.rs], with the layouts of
      [src/src/format/attr.rs] and [src/src/format/acl.rs])

    An inode's attribute fork is short form (inside the inode), one leaf block,
    or leaves under a hash tree; a value too big for its leaf is in blocks of its
    own.  A stored ACL is also shown the way the VFS names and encodes it.

    The theorem: whatever a volume holds, listing the attributes of an inode that
    parses ends without a panic, however its leaves are chained. *)

From Stdlib Require Import ZArith Lia Strings.String Strings.Byte Bool.
From stdpp Require Import base list strings.
From S2P Require Import Prelude Error Endian Crc32c Superblock Sample Extent Inode Bmbt Dir DirLookup.

(** ** The layouts *)

Definition XFS_ATTR_LEAF_MAGIC : Z := 0xfbee.
Definition XFS_ATTR3_LEAF_MAGIC : Z := 0x3bee.
Definition XFS_ATTR3_RMT_MAGIC : Z := 0x5841524d.
Definition XFS_ATTR_VALUE_MAX : Z := 65536.
Definition XFS_ATTR_SF_HDR_SIZE : nat := 4.
Definition XFS_ATTR_SF_ENTRY_HDR_SIZE : nat := 3.
Definition XFS_ATTR_LEAF_HDR_SIZE : nat := 32.
Definition XFS_ATTR3_LEAF_HDR_SIZE : nat := 80.
Definition XFS_ATTR_LEAF_ENTRY_SIZE : nat := 8.
Definition XFS_ATTR3_RMT_HDR_SIZE : nat := 56.

Module attr_flags.
Definition LOCAL : Z := 0x01.
Definition ROOT : Z := 0x02.
Definition SECURE : Z := 0x04.
Definition INCOMPLETE : Z := 0x80.
Definition PARENT : Z := 0x08.
Definition NSP_ONDISK_MASK : Z := Z.lor ROOT SECURE.
End attr_flags.
Module da_blkinfo.
Definition FORW : nat := 0.
Definition MAGIC : nat := 8.
End da_blkinfo.
Module attr_sf_hdr.
Definition TOTSIZE : nat := 0.
Definition COUNT : nat := 2.
End attr_sf_hdr.
Module attr_sf_entry.
Definition NAMELEN : nat := 0.
Definition VALUELEN : nat := 1.
Definition FLAGS : nat := 2.
Definition NAMEVAL : nat := 3.
End attr_sf_entry.
Module leaf_hdr_v4.
Definition COUNT : nat := 12.
End leaf_hdr_v4.
Module leaf_hdr_v5.
Definition COUNT : nat := 56.
End leaf_hdr_v5.
Module attr_leaf_entry.
Definition HASHVAL : nat := 0.
Definition NAMEIDX : nat := 4.
Definition FLAGS : nat := 6.
End attr_leaf_entry.
Module leaf_name_local.
Definition VALUELEN : nat := 0.
Definition NAMELEN : nat := 2.
Definition NAMEVAL : nat := 3.
End leaf_name_local.
Module leaf_name_remote.
Definition VALUEBLK : nat := 0.
Definition VALUELEN : nat := 4.
Definition NAMELEN : nat := 8.
Definition NAME : nat := 9.
End leaf_name_remote.
Module node_hdr_v4.
Definition COUNT : nat := 12.
End node_hdr_v4.
Module node_hdr_v5.
Definition COUNT : nat := 56.
End node_hdr_v5.
Module attr_node_entry.
Definition BEFORE : nat := 4.
End attr_node_entry.

Definition leaf_hdr_size (v5 : bool) : nat := if v5 then XFS_ATTR3_LEAF_HDR_SIZE else XFS_ATTR_LEAF_HDR_SIZE.
Definition node_hdr_size (v5 : bool) : nat := if v5 then XFS_DA3_NODE_HDR_SIZE else XFS_DA_NODE_HDR_SIZE.
Definition rmt_buf_space (blocksize : nat) (v5 : bool) : nat := if v5 then (blocksize - XFS_ATTR3_RMT_HDR_SIZE)%nat else blocksize.
Definition rmt_blocks (valuelen blocksize : nat) (v5 : bool) : nat := div_ceil valuelen (rmt_buf_space blocksize v5).

(** A byte string literal. *)
Definition bstr (s : string) : bytes := list_byte_of_string s.
(** [bytes.strip_prefix(prefix)] *)
Fixpoint strip_prefix (prefix l : bytes) : option bytes :=
  match prefix, l with
  | [], _ => Some l
  | p :: prefix, x :: l => if bool_decide (p = x) then strip_prefix prefix l else None
  | _ :: _, [] => None
  end.
(** [bytes.starts_with(prefix)] *)
Definition starts_with_bytes (l prefix : bytes) : bool := bool_decide (is_Some (strip_prefix prefix l)).

Definition namespace_prefix (flags : Z) : option bytes :=
  let ns := Z.land flags attr_flags.NSP_ONDISK_MASK in
  if ns =? 0 then Some (bstr "user.")
  else if ns =? attr_flags.ROOT then Some (bstr "trusted.")
  else if ns =? attr_flags.SECURE then Some (bstr "security.")
  else None.

(** ** ACLs as they are stored and as the VFS has them ([format/acl.rs]) *)

Definition SGI_ACL_FILE : bytes := bstr "SGI_ACL_FILE".
Definition SGI_ACL_DEFAULT : bytes := bstr "SGI_ACL_DEFAULT".
Definition POSIX_ACL_ACCESS : bytes := bstr "system.posix_acl_access".
Definition POSIX_ACL_DEFAULT : bytes := bstr "system.posix_acl_default".
Definition XFS_ACL_HDR_SIZE : nat := 4.
Definition XFS_ACL_ENTRY_SIZE : nat := 12.
Definition POSIX_ACL_XATTR_VERSION : Z := 2.
Definition ACL_UNDEFINED_ID : Z := umax 32.
Module acl_entry.
Definition TAG : nat := 0.
Definition ID : nat := 4.
Definition PERM : nat := 8.
End acl_entry.
Module tag.
Definition USER_OBJ : Z := 0x01.
Definition USER : Z := 0x02.
Definition GROUP_OBJ : Z := 0x04.
Definition GROUP : Z := 0x08.
Definition MASK : Z := 0x10.
Definition OTHER : Z := 0x20.
End tag.
Definition xfs_acl_max_entries (v5 : bool) : nat :=
  if v5 then ((Z.to_nat XFS_ATTR_VALUE_MAX - XFS_ACL_HDR_SIZE) / XFS_ACL_ENTRY_SIZE)%nat else 25.

(** [bytes.chunks_exact(n)] *)
Definition chunks_exact (n : nat) (l : bytes) : list bytes := (fun i => slice (i * n) n l) <$> seq 0 (length l / n).

(** ** Attributes *)

Record Xattr := mkXattr { x_name : bytes; x_value : bytes }.
Record ParentPointer := mkParentPointer { pp_name : bytes; pp_parent : Z; pp_generation : Z }.
#[global] Instance Xattr_eq_dec : EqDecision Xattr.
Proof. solve_decision. Defined.

Definition KNOWN_FLAGS : Z := Z.lor (Z.lor attr_flags.LOCAL attr_flags.ROOT) (Z.lor attr_flags.SECURE attr_flags.INCOMPLETE).
Definition PARENT_PREFIX : bytes := x00 :: bstr "parent.".

Definition corrupt (ino : Z) (what : string) (a : list arg) : Error := bad ("inode {}: attribute fork: " ++ what) (AZ ino :: a).

Definition full_name (ino entry_flags : Z) (name : bytes) : res (option bytes) :=
  if negb (Z.land entry_flags attr_flags.INCOMPLETE =? 0) then Ok None
  else if Z.land entry_flags (unot 8 attr_flags.LOCAL) =? attr_flags.PARENT then Ok (Some (PARENT_PREFIX ++ name))
  else if negb (Z.land entry_flags (unot 8 KNOWN_FLAGS) =? 0) then Ok None
  else
    prefix ← ok_or (namespace_prefix entry_flags) (corrupt ino "an entry claims two namespaces" []);
    Ok (Some (prefix ++ name)).

(** [out.push(..)], for an entry that is reported. *)
Definition reported (name : option bytes) (value : bytes) : list Xattr :=
  match name with Some name => [mkXattr name value] | None => [] end.

(** [buf.get(off..off + n)] *)
Definition get_range (off n : nat) (buf : bytes) : option bytes := if (off + n <=? length buf)%nat then Some (slice off n buf) else None.

(** ** Short form *)

Fixpoint shortform_loop (ino : Z) (fork : bytes) (totsize n at_ : nat) : res (list Xattr) :=
  match n with
  | O => Ok []
  | S n =>
      hdr ← ok_or (h ← get_range at_ XFS_ATTR_SF_ENTRY_HDR_SIZE fork; if (at_ + XFS_ATTR_SF_ENTRY_HDR_SIZE <=? totsize)%nat then Some h else None)
              (corrupt ino "short-form entry past totsize" []);
      namelen ← byte_at hdr attr_sf_entry.NAMELEN;
      valuelen ← byte_at hdr attr_sf_entry.VALUELEN;
      entry_flags ← byte_at hdr attr_sf_entry.FLAGS;
      let namelen := Z.to_nat namelen in
      let nameval_at := (at_ + attr_sf_entry.NAMEVAL)%nat in
      let end_ := (nameval_at + namelen + Z.to_nat valuelen)%nat in
      fail_if (totsize <? end_)%nat (corrupt ino "short-form entry past totsize" []);;
      name ← get_slice nameval_at namelen fork;
      name ← full_name ino (Z.land entry_flags (unot 8 attr_flags.LOCAL)) name;
      value ← get_slice (nameval_at + namelen) (end_ - (nameval_at + namelen)) fork;
      rest ← shortform_loop ino fork totsize n end_;
      Ok (reported name value ++ rest)
  end.

Definition shortform (ino : Z) (fork : bytes) : res (list Xattr) :=
  fail_if (length fork <? XFS_ATTR_SF_HDR_SIZE)%nat (corrupt ino "short-form header past the fork" []);;
  totsize ← be16 fork attr_sf_hdr.TOTSIZE;
  count ← byte_at fork attr_sf_hdr.COUNT;
  fail_if (Z.of_nat (length fork) <? totsize) (corrupt ino "short-form attributes run past the fork" []);;
  shortform_loop ino fork (Z.to_nat totsize) (Z.to_nat count) XFS_ATTR_SF_HDR_SIZE.

(** ** The VFS's view of an ACL *)

Section views.
Context (ino : Z) (v5 : bool).

Fixpoint vfs_entries (chunks : list bytes) : res bytes :=
  match chunks with
  | [] => Ok []
  | e :: chunks =>
      entry_tag ← be32 e acl_entry.TAG;
      id ← (if (entry_tag =? tag.USER) || (entry_tag =? tag.GROUP) then be32 e acl_entry.ID
            else if (entry_tag =? tag.USER_OBJ) || (entry_tag =? tag.GROUP_OBJ) || (entry_tag =? tag.MASK) || (entry_tag =? tag.OTHER) then Ok ACL_UNDEFINED_ID
            else Err (corrupt ino "a stored ACL with the tag {}" [AZ entry_tag]));
      perm ← be16 e acl_entry.PERM;
      rest ← vfs_entries chunks;
      Ok (to_le_bytes 2 (wrap 16 entry_tag) ++ to_le_bytes 2 perm ++ to_le_bytes 4 id ++ rest)
  end.

Definition vfs_acl (stored : bytes) : res bytes :=
  let len := length stored in
  fail_if (len <? XFS_ACL_HDR_SIZE)%nat (corrupt ino "a stored ACL of {} bytes" [AZ (Z.of_nat len)]);;
  count ← be32 stored 0;
  let max := xfs_acl_max_entries v5 in
  fail_if (Z.of_nat max <? count) (corrupt ino "a stored ACL of {} entries, past the {} allowed" [AZ count; AZ (Z.of_nat max)]);;
  fail_if (negb (Z.of_nat len =? Z.of_nat XFS_ACL_HDR_SIZE + count * Z.of_nat XFS_ACL_ENTRY_SIZE))
    (corrupt ino "a stored ACL of {} entries in {} bytes" [AZ count; AZ (Z.of_nat len)]);;
  out ← vfs_entries (chunks_exact XFS_ACL_ENTRY_SIZE (drop XFS_ACL_HDR_SIZE stored));
  Ok (to_le_bytes 4 POSIX_ACL_XATTR_VERSION ++ out).

Definition acl_view (name : bytes) : option bytes :=
  name ← strip_prefix (bstr "trusted.") name;
  if bool_decide (name = SGI_ACL_FILE) then Some POSIX_ACL_ACCESS
  else if bool_decide (name = SGI_ACL_DEFAULT) then Some POSIX_ACL_DEFAULT
  else None.

Fixpoint with_acl_views (stored : list Xattr) : res (list Xattr) :=
  match stored with
  | [] => Ok []
  | attr :: stored =>
      view ← (match acl_view (x_name attr) with
              | Some view => value ← vfs_acl (x_value attr); Ok [mkXattr view value]
              | None => Ok []
              end);
      rest ← with_acl_views stored;
      Ok (view ++ attr :: rest)
  end.
End views.

(** ** Blocks of the fork *)

Section blocks.
Context `{Crc : Crc32c} (sb : Superblock) (read : Z -> nat -> res bytes).

Definition read_block_at (fsblock : Z) : res bytes := read (fsblock_offset sb fsblock) (Z.to_nat (sb_blocksize sb)).

Definition verify_attr_block (ino physical : Z) (block : bytes) : res unit :=
  m ← be32 block 0;
  let remote := m =? XFS_ATTR3_RMT_MAGIC in
  magic ← be16 block 8;
  fail_if (negb remote && negb ((magic =? XFS_ATTR3_LEAF_MAGIC) || (magic =? XFS_DA3_NODE_MAGIC)))
    (corrupt ino "unrecognized v5 attribute block" []);;
  crc ← le32 block 12;
  computed ← crc32c_with_zeroed_crc block 12;
  fail_if (negb (computed =? crc)) (ChecksumMismatch "attribute block" physical);;
  let '(uuid, owner, address) := if remote then (16, 32, 40)%nat else (32, 48, 16)%nat in
  u ← get_slice uuid 16 block;
  fail_if (negb (bool_decide (u = sb_meta_uuid sb))) (corrupt ino "attribute UUID differs from the superblock" []);;
  found_owner ← be64 block owner;
  found_address ← be64 block address;
  fail_if (negb (ino =? found_owner)) (BlockIdentityMismatch "attribute block" ino found_owner);;
  let expected := fsblock_offset sb physical / 512 in
  fail_if (negb (expected =? found_address)) (BlockIdentityMismatch "attribute block" expected found_address).

Section fork.
Context (ino : Z) (extents : list Extent).

Definition attr_block (dablk : Z) : res bytes :=
  e ← ok_or (Extent.lookup extents dablk) (corrupt ino "block {} is a hole" [AZ dablk]);
  phys ← expect (Extent.map e dablk);
  block ← read_block_at phys;
  (if is_v5 sb then verify_attr_block ino phys block else Ok tt);;
  Ok block.

Section value.
Context (valueblk : Z) (valuelen : nat).

Fixpoint remote_loop (blocks : list nat) (value : bytes) : res bytes :=
  match blocks with
  | [] => Ok value
  | n :: blocks =>
      let v5 := is_v5 sb in
      let bs := Z.to_nat (sb_blocksize sb) in
      let header := if v5 then XFS_ATTR3_RMT_HDR_SIZE else 0%nat in
      block ← attr_block (wadd 64 valueblk (Z.of_nat n));
      let take := Nat.min (valuelen - length value) (bs - header) in
      (if v5 then
         offset ← be32 block 4;
         if negb (offset =? Z.of_nat (length value)) then Err (corrupt ino "remote value offset or byte count disagrees with its extent" [])
         else
           count ← be32 block 8;
           fail_if (negb (count =? Z.of_nat take)) (corrupt ino "remote value offset or byte count disagrees with its extent" [])
       else Ok tt);;
      piece ← get_slice header take block;
      remote_loop blocks (value ++ piece)
  end.
End value.

Definition remote_value (valueblk valuelen : Z) : res bytes :=
  fail_if (XFS_ATTR_VALUE_MAX <? valuelen) (corrupt ino "a {}-byte value" [AZ valuelen]);;
  let bs := Z.to_nat (sb_blocksize sb) in
  let len := Z.to_nat valuelen in
  value ← remote_loop valueblk len (seq 0 (rmt_blocks len bs (is_v5 sb))) [];
  fail_if (negb (length value =? len)%nat) (corrupt ino "a remote value shorter than it claims" []);;
  Ok value.

Definition local_entry (leaf : bytes) (entry_flags : Z) (nameidx : nat) : res (list Xattr) :=
  let hdr := leaf_name_local.NAMEVAL in
  rec ← ok_or (get_range nameidx hdr leaf) (corrupt ino "local name record past the block" []);
  valuelen ← be16 rec leaf_name_local.VALUELEN;
  namelen ← byte_at rec leaf_name_local.NAMELEN;
  let namelen := Z.to_nat namelen in
  nameval ← ok_or (get_range (nameidx + hdr) (namelen + Z.to_nat valuelen) leaf) (corrupt ino "local name and value past the block" []);
  name ← get_slice 0 namelen nameval;
  name ← full_name ino entry_flags name;
  Ok (reported name (drop namelen nameval)).

Definition remote_entry (leaf : bytes) (entry_flags : Z) (nameidx : nat) : res (list Xattr) :=
  let hdr := leaf_name_remote.NAME in
  rec ← ok_or (get_range nameidx hdr leaf) (corrupt ino "remote name record past the block" []);
  valueblk ← be32 rec leaf_name_remote.VALUEBLK;
  valuelen ← be32 rec leaf_name_remote.VALUELEN;
  namelen ← byte_at rec leaf_name_remote.NAMELEN;
  name ← ok_or (get_range (nameidx + hdr) (Z.to_nat namelen) leaf) (corrupt ino "remote name past the block" []);
  name ← full_name ino entry_flags name;
  match name with
  | None => Ok []
  | Some name => value ← remote_value valueblk valuelen; Ok [mkXattr name value]
  end.

Fixpoint leaf_entries_from (leaf : bytes) (base : nat) (entries : list nat) : res (list Xattr) :=
  match entries with
  | [] => Ok []
  | i :: entries =>
      let e := (base + i * XFS_ATTR_LEAF_ENTRY_SIZE)%nat in
      nameidx ← be16 leaf (e + attr_leaf_entry.NAMEIDX);
      entry_flags ← byte_at leaf (e + attr_leaf_entry.FLAGS);
      here ← (if negb (Z.land entry_flags attr_flags.LOCAL =? 0) then local_entry leaf entry_flags (Z.to_nat nameidx)
              else remote_entry leaf entry_flags (Z.to_nat nameidx));
      rest ← leaf_entries_from leaf base entries;
      Ok (here ++ rest)
  end.

Definition leaf_entries (leaf : bytes) : res (list Xattr) :=
  let v5 := is_v5 sb in
  count ← be16 leaf (if v5 then leaf_hdr_v5.COUNT else leaf_hdr_v4.COUNT);
  let count := Z.to_nat count in
  let base := leaf_hdr_size v5 in
  fail_if (length leaf <? base + count * XFS_ATTR_LEAF_ENTRY_SIZE)%nat (corrupt ino "leaf entries run past the block" []);;
  leaf_entries_from leaf base (seq 0 count).

(** Down the leftmost edge of the tree: [n] more turns of the loop. *)
Fixpoint leftmost (n : nat) (at_ : Z) (block : bytes) : res (Z * bytes) :=
  match n with
  | O => Ok (at_, block)
  | S n =>
      magic ← be16 block da_blkinfo.MAGIC;
      if negb (magic =? XFS_DA3_NODE_MAGIC) && negb (magic =? XFS_DA_NODE_MAGIC) then Ok (at_, block)
      else
        let v5 := is_v5 sb in
        count ← be16 block (if v5 then node_hdr_v5.COUNT else node_hdr_v4.COUNT);
        fail_if (count =? 0) (corrupt ino "a node with no children" []);;
        before ← ok_or (get_range (node_hdr_size v5 + attr_node_entry.BEFORE) 4 block) (corrupt ino "node entry past the block" []);
        let at_ := from_be_bytes before in
        block ← attr_block at_;
        leftmost n at_ block
  end.

(** Along the chain: [n] more leaves. *)
Fixpoint leaf_chain (n : nat) (at_ : Z) (block : bytes) : res (list Xattr) :=
  match n with
  | O => Err (corrupt ino "the leaf chain loops" [])
  | S n =>
      magic ← be16 block da_blkinfo.MAGIC;
      fail_if (negb (magic =? XFS_ATTR3_LEAF_MAGIC) && negb (magic =? XFS_ATTR_LEAF_MAGIC))
        (corrupt ino "block {} has magic {}, not an attribute leaf" [AZ at_; AZ magic]);;
      here ← leaf_entries block;
      forw ← be32 block da_blkinfo.FORW;
      if forw =? 0 then Ok here
      else
        block ← attr_block forw;
        rest ← leaf_chain n forw block;
        Ok (here ++ rest)
  end.

Definition fork_blocks : Z := fold_left (fun n e => wadd 64 n (blockcount e)) extents 0.

Definition leaf_attrs : res (list Xattr) :=
  block ← attr_block 0;
  '(at_, block) ← leftmost (Z.to_nat XFS_DA_NODE_MAXDEPTH + 1) 0 block;
  leaf_chain (Z.to_nat fork_blocks + 1) at_ block.
End fork.

(** ** An inode's attributes *)

Definition attr_extents (inode : Inode) (fork : bytes) : res (list Extent) :=
  match i_aformat inode with
  | Format.Extents => Extent.parse_list fork (i_anextents inode)
  | _ => Bmbt.walk sb (i_ino inode) read_block_at fork (i_anextents inode)
  end.

Definition stored_xattrs (inode : Inode) (raw : bytes) : res (list Xattr) :=
  match attr_fork_range inode (Z.to_nat (sb_inodesize sb)) with
  | None => Ok []
  | Some (start, end_) =>
      fork ← ok_or (get_range start (end_ - start) raw) (corrupt (i_ino inode) "fork past the inode record" []);
      let from_blocks :=
        extents ← attr_extents inode fork;
        if bool_decide (extents = []) then Ok [] else leaf_attrs (i_ino inode) extents in
      match i_aformat inode with
      | Format.Local => shortform (i_ino inode) fork
      | Format.Extents => if i_anextents inode =? 0 then Ok [] else from_blocks
      | Format.Btree => from_blocks
      | other => Err (corrupt (i_ino inode) ("a " ++ format_name other ++ "-format attribute fork") [])
      end
  end.

Definition list_xattrs (inode : Inode) (raw : bytes) : res (list Xattr) :=
  stored ← stored_xattrs inode raw;
  with_acl_views (i_ino inode) (is_v5 sb) (List.filter (fun a => negb (starts_with_bytes (x_name a) PARENT_PREFIX)) stored).

Definition get_xattr (inode : Inode) (raw name : bytes) : res (option bytes) :=
  attrs ← list_xattrs inode raw;
  Ok (x_value <$> find (fun a => bool_decide (x_name a = name)) attrs).

Definition parent_pointer (ino : Z) (name value : bytes) : res ParentPointer :=
  fail_if (negb (length value =? 12)%nat) (corrupt ino "a parent pointer whose value is {} bytes" [AZ (Z.of_nat (length value))]);;
  parent ← be64 value 0;
  generation ← be32 value 8;
  Ok (mkParentPointer name parent generation).

Definition parent_pointers (inode : Inode) (raw : bytes) : res (list ParentPointer) :=
  stored ← stored_xattrs inode raw;
  res_map (fun p => parent_pointer (i_ino inode) p.1 p.2)
    (omap (fun a => name ← strip_prefix PARENT_PREFIX (x_name a); Some (name, x_value a)) stored).
End blocks.

(** ** A listing ends, whatever is on the device *)

Lemma get_range_Some off n (b s : bytes) : get_range off n b = Some s -> (off + n <= length b)%nat /\ s = slice off n b /\ length s = n.
Proof. unfold get_range. destruct (Nat.leb_spec (off + n) (length b)); [|done]. intros [= <-]. by rewrite length_slice. Qed.
Lemma get_range_in off n (b : bytes) : (off + n <= length b)%nat -> get_range off n b = Some (slice off n b).
Proof. intros. unfold get_range. by rewrite (proj2 (Nat.leb_le _ _)). Qed.

Lemma ok_or_not_Panic {A} (o : option A) e : ok_or o e <> Panic.
Proof. by destruct o. Qed.

Lemma full_name_total ino fl name : full_name ino fl name <> Panic.
Proof. unfold full_name. repeat case_match; try done. apply bind_not_Panic; [apply ok_or_not_Panic|done]. Qed.

Lemma shortform_loop_total ino fork totsize n : forall at_, (totsize <= length fork)%nat -> shortform_loop ino fork totsize n at_ <> Panic.
Proof.
  induction n as [|n IH]; intros at_ Hl; cbn [shortform_loop]; [done|]. apply bind_not_Panic; [apply ok_or_not_Panic|]. intros hdr Hh%ok_or_Ok.
  destruct (get_range at_ XFS_ATTR_SF_ENTRY_HDR_SIZE fork) as [h|] eqn:Eh; cbn [mbind option_bind] in Hh; [|done].
  apply get_range_Some in Eh as (_ & _ & Hlen). destruct (_ <=? totsize)%nat; [|done]. injection Hh as ->. unfold XFS_ATTR_SF_ENTRY_HDR_SIZE in Hlen.
  rewrite !byte_at_Ok by (unfold attr_sf_entry.NAMELEN, attr_sf_entry.VALUELEN, attr_sf_entry.FLAGS; lia). cbn [mbind res_bind].
  destruct (Nat.ltb_spec totsize (at_ + attr_sf_entry.NAMEVAL + Z.to_nat (rd 1 attr_sf_entry.NAMELEN hdr) + Z.to_nat (rd 1 attr_sf_entry.VALUELEN hdr))); cbn [fail_if mbind res_bind]; [done|].
  rewrite !get_slice_Ok by lia. cbn [mbind res_bind]. apply bind_not_Panic; [apply full_name_total|]. intros name _. apply bind_not_Panic; [by apply IH|done].
Qed.

Lemma shortform_total ino fork : shortform ino fork <> Panic.
Proof.
  unfold shortform. destruct (Nat.ltb_spec (length fork) XFS_ATTR_SF_HDR_SIZE) as [|Hl]; cbn [fail_if mbind res_bind]; [done|]. unfold XFS_ATTR_SF_HDR_SIZE in Hl.
  rewrite be16_Ok, byte_at_Ok by (unfold attr_sf_hdr.TOTSIZE, attr_sf_hdr.COUNT; lia). cbn [mbind res_bind].
  destruct (Z.ltb_spec (Z.of_nat (length fork)) (rd 2 attr_sf_hdr.TOTSIZE fork)); cbn [fail_if mbind res_bind]; [done|]. apply shortform_loop_total. lia.
Qed.

Lemma chunks_exact_lengths n l : (0 < n)%nat -> Forall (fun c => length c = n) (chunks_exact n l).
Proof.
  intros Hn. apply Forall_fmap, Forall_forall. intros i Hi%elem_of_seq. cbn. apply length_slice.
  pose proof (Nat.Div0.mul_div_le (length l) n). nia.
Qed.

Lemma vfs_entries_total ino chunks : Forall (fun c => length c = 12%nat) chunks -> vfs_entries ino chunks <> Panic.
Proof.
  induction 1 as [|e chunks He Hc IH]; cbn [vfs_entries]; [done|]. rewrite (be32_Ok e acl_entry.TAG) by (unfold acl_entry.TAG; lia). cbn [mbind res_bind].
  apply bind_not_Panic; [|intros id _; rewrite be16_Ok by (unfold acl_entry.PERM; lia); cbn [mbind res_bind]; by apply bind_not_Panic].
  destruct (_ || _); [by rewrite be32_Ok by (unfold acl_entry.ID; lia)|]. by destruct (_ || _ || _ || _).
Qed.

Lemma vfs_acl_total ino v5 stored : vfs_acl ino v5 stored <> Panic.
Proof.
  unfold vfs_acl. destruct (Nat.ltb_spec (length stored) XFS_ACL_HDR_SIZE) as [|Hl]; cbn [fail_if mbind res_bind]; [done|]. unfold XFS_ACL_HDR_SIZE in Hl.
  rewrite be32_Ok by lia. cbn [mbind res_bind]. apply bind_not_Panic; [apply fail_if_not_Panic|intros _ _]. apply bind_not_Panic; [apply fail_if_not_Panic|intros _ _].
  apply bind_not_Panic; [|done]. apply vfs_entries_total. change 12%nat with XFS_ACL_ENTRY_SIZE. apply chunks_exact_lengths. unfold XFS_ACL_ENTRY_SIZE. lia.
Qed.

Lemma with_acl_views_total ino v5 stored : with_acl_views ino v5 stored <> Panic.
Proof.
  induction stored as [|a l IH]; cbn [with_acl_views]; [done|]. apply bind_not_Panic; [|intros view _; by apply bind_not_Panic].
  destruct (acl_view (x_name a)); [|done]. apply bind_not_Panic; [apply vfs_acl_total|done].
Qed.

Section total.
Context `{Crc : Crc32c} (sb : Superblock) (read : Z -> nat -> res bytes).
Context (Hty : sb_typed sb) (Hgeo : sb_geometry sb) (Hread : reads read).
Let bs := Z.to_nat (sb_blocksize sb).

Lemma blocksize_512 : (512 <= bs)%nat.
Proof. destruct Hgeo as [[Hb Hbs] _ _ _ _]. unfold bs. assert (2 ^ 9 <= sb_blocksize sb) by (rewrite Hbs; apply Z.pow_le_mono_r; lia). lia. Qed.

Section one_fork.
Context (ino : Z) (extents : list Extent) (Hok : Forall extent_ok extents).

Lemma verify_attr_block_total physical block : length block = bs -> verify_attr_block sb ino physical block <> Panic.
Proof.
  intros Hl. pose proof blocksize_512. unfold verify_attr_block. rewrite be32_Ok, be16_Ok by lia. cbn [mbind res_bind].
  apply bind_not_Panic; [apply fail_if_not_Panic|intros _ _]. rewrite le32_Ok, crc32c_with_zeroed_crc_Ok by lia. cbn [mbind res_bind].
  apply bind_not_Panic; [apply fail_if_not_Panic|intros _ _].
  destruct (_ =? XFS_ATTR3_RMT_MAGIC); rewrite get_slice_Ok by lia; cbn [mbind res_bind]; (apply bind_not_Panic; [apply fail_if_not_Panic|intros _ _]);
    rewrite !be64_Ok by lia; cbn [mbind res_bind]; (apply bind_not_Panic; [apply fail_if_not_Panic|intros _ _; apply fail_if_not_Panic]).
Qed.

Lemma attr_block_spec dablk : attr_block sb read ino extents dablk <> Panic /\ forall block, attr_block sb read ino extents dablk = Ok block -> length block = bs.
Proof.
  unfold attr_block. destruct (Extent.lookup extents dablk) as [e|] eqn:El; cbn [ok_or mbind res_bind]; [|split; [done|by intros]].
  destruct (lookup_mapped_at _ _ _ Hok El) as (_ & _ & phys & ->). cbn [expect mbind res_bind]. unfold read_block_at. fold bs.
  destruct (read _ bs) as [block|er|] eqn:Er; cbn [mbind res_bind]; [|split; [done|by intros]|by destruct (rs_total _ Hread _ _ Er)].
  pose proof (rs_length _ Hread _ _ _ Er) as Hl. assert (Hv : (if is_v5 sb then verify_attr_block sb ino phys block else Ok tt) <> Panic)
    by (destruct (is_v5 sb); [by apply verify_attr_block_total|done]).
  destruct (if is_v5 sb then _ else _) as [[]|er|]; cbn [mbind res_bind]; [|split; [done|by intros]|done]. split; [done|]. by intros b [= <-].
Qed.

Lemma remote_loop_total valueblk valuelen blocks : forall value, remote_loop sb read ino extents valueblk valuelen blocks value <> Panic.
Proof.
  induction blocks as [|n blocks IH]; intros value; cbn [remote_loop]; [done|]. pose proof blocksize_512.
  destruct (attr_block_spec (wadd 64 valueblk (Z.of_nat n))) as [Hp Hl]. destruct (attr_block _ _ _ _ _) as [block|e|]; cbn [mbind res_bind]; [|done|done].
  specialize (Hl block eq_refl). fold bs. apply bind_not_Panic.
  - destruct (is_v5 sb); [|done]. rewrite (be32_Ok block 4) by lia. cbn [mbind res_bind]. destruct (negb _); [done|]. rewrite (be32_Ok block 8) by lia. cbn [mbind res_bind]. apply fail_if_not_Panic.
  - intros _ _. rewrite get_slice_Ok by (unfold XFS_ATTR3_RMT_HDR_SIZE in *; destruct (is_v5 sb); lia). cbn [mbind res_bind]. apply IH.
Qed.

Lemma leaf_entries_from_total leaf base is_ : Forall (fun i => (base + i * 8 + 8 <= length leaf)%nat) is_ ->
  leaf_entries_from sb read ino extents leaf base is_ <> Panic.
Proof.
  induction 1 as [|i is_ Hi His IH]; cbn [leaf_entries_from]; [done|]. unfold XFS_ATTR_LEAF_ENTRY_SIZE, attr_leaf_entry.NAMEIDX, attr_leaf_entry.FLAGS.
  rewrite be16_Ok, byte_at_Ok by lia. cbn [mbind res_bind]. apply bind_not_Panic; [|intros; by apply bind_not_Panic]. destruct (negb _).
  - unfold local_entry. apply bind_not_Panic; [apply ok_or_not_Panic|]. intros rec (_ & _ & Hr)%ok_or_Ok%get_range_Some. unfold leaf_name_local.NAMEVAL in *.
    rewrite be16_Ok, byte_at_Ok by (unfold leaf_name_local.VALUELEN, leaf_name_local.NAMELEN; lia). cbn [mbind res_bind].
    apply bind_not_Panic; [apply ok_or_not_Panic|]. intros nv (_ & _ & Hn)%ok_or_Ok%get_range_Some. rewrite get_slice_Ok by lia. cbn [mbind res_bind].
    apply bind_not_Panic; [apply full_name_total|done].
  - unfold remote_entry. apply bind_not_Panic; [apply ok_or_not_Panic|]. intros rec (_ & _ & Hr)%ok_or_Ok%get_range_Some. unfold leaf_name_remote.NAME in *.
    rewrite !be32_Ok, byte_at_Ok by (unfold leaf_name_remote.VALUEBLK, leaf_name_remote.VALUELEN, leaf_name_remote.NAMELEN; lia). cbn [mbind res_bind].
    apply bind_not_Panic; [apply ok_or_not_Panic|]. intros name _. apply bind_not_Panic; [apply full_name_total|]. intros [nm|] _; [|done].
    apply bind_not_Panic; [|done]. unfold remote_value. apply bind_not_Panic; [apply fail_if_not_Panic|intros _ _].
    apply bind_not_Panic; [apply remote_loop_total|]. intros v _. apply bind_not_Panic; [apply fail_if_not_Panic|done].
Qed.

Lemma leaf_entries_total leaf : length leaf = bs -> leaf_entries sb read ino extents leaf <> Panic.
Proof.
  intros Hl. pose proof blocksize_512. unfold leaf_entries. rewrite be16_Ok by (unfold leaf_hdr_v5.COUNT, leaf_hdr_v4.COUNT; destruct (is_v5 sb); lia). cbn [mbind res_bind].
  set (count := Z.to_nat _). destruct (Nat.ltb_spec (length leaf) (leaf_hdr_size (is_v5 sb) + count * XFS_ATTR_LEAF_ENTRY_SIZE)) as [|Hc]; cbn [fail_if mbind res_bind]; [done|].
  apply leaf_entries_from_total, Forall_forall. intros i Hi%elem_of_seq. unfold XFS_ATTR_LEAF_ENTRY_SIZE in Hc. lia.
Qed.

Lemma leftmost_spec n : forall at_ block, length block = bs -> leftmost sb read ino extents n at_ block <> Panic /\
  forall at' block', leftmost sb read ino extents n at_ block = Ok (at', block') -> length block' = bs.
Proof.
  pose proof blocksize_512. induction n as [|n IH]; intros at_ block Hl; cbn [leftmost]; [split; [done|]; by intros at' block' [= <- <-]|].
  rewrite (be16_Ok _ da_blkinfo.MAGIC) by (unfold da_blkinfo.MAGIC; lia). cbn [mbind res_bind]. destruct (_ && _); [split; [done|]; by intros at' block' [= <- <-]|].
  rewrite be16_Ok by (unfold node_hdr_v5.COUNT, node_hdr_v4.COUNT; destruct (is_v5 sb); lia). cbn [mbind res_bind].
  destruct (_ =? 0); cbn [fail_if mbind res_bind]; [split; [done|by intros]|]. destruct (get_range _ _ _) as [before|]; cbn [ok_or mbind res_bind]; [|split; [done|by intros]].
  destruct (attr_block_spec (from_be_bytes before)) as [Hp Hb]. destruct (attr_block _ _ _ _ _) as [b|e|]; cbn [mbind res_bind]; [|split; [done|by intros]|done].
  apply IH. by apply Hb.
Qed.

Lemma leaf_chain_total n : forall at_ block, length block = bs -> leaf_chain sb read ino extents n at_ block <> Panic.
Proof.
  pose proof blocksize_512. induction n as [|n IH]; intros at_ block Hl; cbn [leaf_chain]; [done|].
  rewrite (be16_Ok _ da_blkinfo.MAGIC) by (unfold da_blkinfo.MAGIC; lia). cbn [mbind res_bind]. apply bind_not_Panic; [apply fail_if_not_Panic|intros _ _].
  apply bind_not_Panic; [by apply leaf_entries_total|]. intros here _. rewrite be32_Ok by (unfold da_blkinfo.FORW; lia). cbn [mbind res_bind].
  destruct (_ =? 0); [done|]. destruct (attr_block_spec (rd 4 da_blkinfo.FORW block)) as [Hp Hb]. destruct (attr_block _ _ _ _ _) as [b|e|]; cbn [mbind res_bind]; [|done|done].
  apply bind_not_Panic; [|done]. apply IH. by apply Hb.
Qed.

Lemma leaf_attrs_total : leaf_attrs sb read ino extents <> Panic.
Proof.
  unfold leaf_attrs. destruct (attr_block_spec 0) as [Hp Hb]. destruct (attr_block sb read ino extents 0) as [b|e|]; cbn [mbind res_bind]; [|done|done].
  destruct (leftmost_spec (Z.to_nat XFS_DA_NODE_MAXDEPTH + 1) 0 b (Hb b eq_refl)) as [Hlp Hls].
  destruct (leftmost _ _ _ _ _ _ _) as [[at' b']|e|]; cbn [mbind res_bind]; [|done|done]. apply leaf_chain_total. by eapply Hls.
Qed.
End one_fork.

Lemma attr_extents_spec inode fork : attr_extents sb read inode fork <> Panic /\ forall es, attr_extents sb read inode fork = Ok es -> Forall extent_ok es.
Proof.
  unfold attr_extents.
  assert (Hw : Bmbt.walk sb (i_ino inode) (read_block_at sb read) fork (i_anextents inode) <> Panic /\
    forall es, Bmbt.walk sb (i_ino inode) (read_block_at sb read) fork (i_anextents inode) = Ok es -> Forall extent_ok es).
  { split.
    - unfold Bmbt.walk. apply bind_not_Panic; [|done]. apply bmbt_walk_total. intros b. apply (rs_total _ Hread).
    - intros es H. by eapply walk_ok. }
  destruct (i_aformat inode); try exact Hw. split; [apply parse_list_total|apply parse_list_ok].
Qed.

Lemma stored_xattrs_total inode raw : stored_xattrs sb read inode raw <> Panic.
Proof.
  unfold stored_xattrs. destruct (attr_fork_range inode _) as [[start end_]|]; [|done]. apply bind_not_Panic; [apply ok_or_not_Panic|]. intros fork _.
  assert (Hb : (extents ← attr_extents sb read inode fork; if bool_decide (extents = []) then Ok [] else leaf_attrs sb read (i_ino inode) extents) <> Panic).
  { destruct (attr_extents_spec inode fork) as [Hp Hs]. apply bind_not_Panic; [done|]. intros es He. destruct (bool_decide _); [done|]. by apply leaf_attrs_total, Hs. }
  destruct (i_aformat inode); try done; [apply shortform_total|]. by destruct (_ =? 0).
Qed.

(** C25: Whatever a volume holds, listing the attributes of any inode, looking one
    up and listing its parent pointers end without a panic: however the fork maps
    its blocks, whatever its nodes and leaves point at, and whatever loop their
    chain makes. *)
Theorem attr_reads_total inode raw name :
  list_xattrs sb read inode raw <> Panic /\ get_xattr sb read inode raw name <> Panic /\ parent_pointers sb read inode raw <> Panic.
Proof.
  assert (Hl : list_xattrs sb read inode raw <> Panic) by (unfold list_xattrs; apply bind_not_Panic; [apply stored_xattrs_total|intros; apply with_acl_views_total]).
  split; [done|]. split; [unfold get_xattr; by apply bind_not_Panic|]. unfold parent_pointers. apply bind_not_Panic; [apply stored_xattrs_total|]. intros stored _.
  apply res_map_not_Panic. intros [nm v]. cbn [fst snd]. unfold parent_pointer. destruct (Nat.eqb_spec (length v) 12) as [E|]; cbn [negb fail_if mbind res_bind]; [|done].
  by rewrite be64_Ok, be32_Ok by lia.
Qed.
End total.

Lemma attr_reads_total_witness : exists inode, Inode_parse sample_inode sample_sb 129 = Ok inode /\
  list_xattrs sample_sb (sample_read []) inode sample_inode <> Panic.
Proof.
  destruct (Inode_parse sample_inode sample_sb 129) as [inode| |] eqn:E; [|vm_compute in E; discriminate..]. exists inode. split; [done|].
  by destruct (attr_reads_total sample_sb (sample_read []) sample_geometry (sample_reads []) inode sample_inode []).
Defined.
