(* ===== verification/AttrWrite.v ===== *)
(** * Attribute forks laid out ([src/src/attr_write.rs])

    A changed attribute fork is built whole from the list of attributes: short
    form where it fits, otherwise one leaf, or leaves under a hash tree, with
    the values too big for a leaf in blocks after them, all in one run of fresh
    blocks.

    The theorems: the fork laid out reads back as exactly the attributes given,
    its index is in hash order and the names of one hash are in one leaf; and a
    short-form fork reads back as given, in order. *)

From Stdlib Require Import ZArith Lia Strings.String Strings.Byte Bool Sorted.
From stdpp Require Import base list sorting strings.
From S2P Require Import Prelude Error Endian Crc32c Superblock Sample FreeSpace Extent Inode Bmbt BufWrite Dir DirShort DirBlock DirLookup Attr.

Definition unsupported (message : string) : Error := UnsupportedFeature (fmt message []).

(** ** Names *)

(** The namespace of a name and what is stored of it. *)
Definition name_parts (name : bytes) : res (Z * bytes) :=
  match strip_prefix PARENT_PREFIX name with
  | Some short =>
      fail_if (bool_decide (short = []) || (255 <? length short)%nat) (unsupported "a parent pointer's name must be 1..255 bytes");;
      Ok (attr_flags.PARENT, short)
  | None =>
      '(namespace, short) ←
        (match strip_prefix (bstr "user.") name with
         | Some short => Ok (0, short)
         | None =>
             match strip_prefix (bstr "trusted.") name with
             | Some short => Ok (attr_flags.ROOT, short)
             | None =>
                 match strip_prefix (bstr "security.") name with
                 | Some short => Ok (attr_flags.SECURE, short)
                 | None => Err (unsupported "supported attribute namespaces are user, trusted and security")
                 end
             end
         end);
      fail_if (bool_decide (short = []) || (255 <? length name)%nat || bool_decide (x00 ∈ name))
        (unsupported "attribute names must contain 1..255 non-NUL bytes including the namespace");;
      Ok (namespace, short)
  end.

Definition align4 (n : nat) : nat := (div_ceil n 4 * 4)%nat.

(** ** The layout, before it has blocks *)

Record AttrEntry := mkAttrEntry {
  ae_namespace : Z; ae_name : bytes; ae_value : bytes; ae_hash : Z; ae_local : bool; ae_record_size : nat; ae_remote : Z;
}.
Inductive AttrBlock :=
  | Leaf (entries : list nat)
  | Node (children : list nat) (level : Z).
Record Layout := mkAttrLayout { lay_entries : list AttrEntry; lay_blocks : list AttrBlock; lay_total : Z }.

Definition parent_hash (case_insensitive : bool) (name value : bytes) : res Z :=
  fail_if (negb (length value =? 12)%nat)
    (UnsupportedFeature (fmt "a parent pointer's value is twelve bytes, not {}" [AZ (Z.of_nat (length value))]));;
  parent ← be64 value 0;
  Ok (Z.lxor (Z.lxor (hash_folded case_insensitive name) (wrap 32 (wshr 64 parent 32))) (wrap 32 parent)).

Section layout.
Context (bs : nat) (case_insensitive : bool).

Definition new_entry (attr : Xattr) : res AttrEntry :=
  '(namespace, name) ← name_parts (x_name attr);
  let parent := namespace =? attr_flags.PARENT in
  hash ← (if parent then parent_hash case_insensitive name (x_value attr) else Ok (hashname name));
  let local_size := align4 (3 + length name + length (x_value attr)) in
  let local := (local_size <? bs / 2 - 16)%nat in
  fail_if (parent && negb local) (unsupported "a parent pointer is always stored in its leaf");;
  Ok (mkAttrEntry namespace name (x_value attr) hash local (if local then local_size else align4 (11 + length name)) 0).

(** [entries.sort_by_key(|e| (e.hash, e.namespace, e.name))] *)
Fixpoint bytes_leb (a b : bytes) : bool :=
  match a, b with
  | [], _ => true
  | _ :: _, [] => false
  | x :: a, y :: b => (b2z x <? b2z y) || ((b2z x =? b2z y) && bytes_leb a b)
  end.
Definition entry_leb (x y : AttrEntry) : bool :=
  (ae_hash x <? ae_hash y) || ((ae_hash x =? ae_hash y) &&
    ((ae_namespace x <? ae_namespace y) || ((ae_namespace x =? ae_namespace y) && bytes_leb (ae_name x) (ae_name y)))).

Definition group_need (group : list AttrEntry) : nat := sum_list_with (fun e => 8 + ae_record_size e)%nat group.
(** A value moved out of its leaf. *)
Definition force_remote (e : AttrEntry) : AttrEntry :=
  if negb (bool_decide (ae_value e = [])) && negb (ae_namespace e =? attr_flags.PARENT)
  then mkAttrEntry (ae_namespace e) (ae_name e) (ae_value e) (ae_hash e) false (align4 (11 + length (ae_name e))) (ae_remote e)
  else e.

(** Leaves filled one after another, the entries of one hash together; [rest]
    starts at the entry [at_]. *)
Fixpoint fill_leaves (fuel at_ used : nat) (indices : list nat) (leaves : list (list nat)) (rest : list AttrEntry) : res (list AttrEntry * list (list nat)) :=
  match rest, fuel with
  | [], _ => Ok ([], leaves ++ [indices])
  | _ :: _, O => Panic
  | e :: _, S fuel =>
      let n := partition_point (fun x => ae_hash x =? ae_hash e) rest in
      let group := take n rest in
      group ← (if (bs - 80 <? group_need group)%nat then
                 let group := force_remote <$> group in
                 fail_if (bs - 80 <? group_need group)%nat (unsupported "attribute hash collision group exceeds one leaf");;
                 Ok group
               else Ok group);
      let need := group_need group in
      let full := (bs <? used + need)%nat in
      let leaves := if full then leaves ++ [indices] else leaves in
      let indices := if full then [] else indices in
      let used := if full then 80%nat else used in
      '(entries, leaves) ← fill_leaves fuel (at_ + n) (used + need) (indices ++ seq at_ n) leaves (drop n rest);
      Ok (group ++ entries, leaves)
  end.

(** [slice.chunks(n)] *)
Fixpoint chunks_fuel {A} (fuel n : nat) (l : list A) : list (list A) :=
  match fuel, l with
  | S fuel, _ :: _ => take n l :: chunks_fuel fuel n (drop n l)
  | _, _ => []
  end.
Definition chunks {A} (n : nat) (l : list A) : list (list A) := chunks_fuel (length l) n l.

(** Levels of nodes, until one node holds the children. *)
Fixpoint raise_levels (fuel : nat) (children : list nat) (level : Z) (blocks : list AttrBlock) : res (list nat * Z * list AttrBlock) :=
  let capacity := ((bs - 64) / 8)%nat in
  if (length children <=? capacity)%nat then Ok (children, level, blocks)
  else
    match fuel with
    | O => Panic
    | S fuel =>
        let parts := chunks capacity children in
        let parents := seq (length blocks) (length parts) in
        let blocks := blocks ++ ((fun chunk => Node chunk level) <$> parts) in
        let level := wadd 16 level 1 in
        fail_if (XFS_DA_NODE_MAXDEPTH <? level) (unsupported "attribute hash tree exceeds the supported depth");;
        raise_levels fuel parents level blocks
    end.

Definition tree_of (leaves : list (list nat)) : res (list AttrBlock) :=
  let leaves := Leaf <$> leaves in
  if (length leaves =? 1)%nat then Ok leaves
  else
    let blocks := Node [] 0 :: leaves in
    '(children, level, blocks) ← raise_levels (Z.to_nat XFS_DA_NODE_MAXDEPTH) (seq 1 (length blocks - 1)) 1 blocks;
    Ok (<[0%nat := Node children level]> blocks).

(** The blocks of the values that are not in a leaf, one value after another. *)
Fixpoint assign_remote (total : Z) (entries : list AttrEntry) : res (list AttrEntry * Z) :=
  match entries with
  | [] => Ok ([], total)
  | e :: entries =>
      if ae_local e then '(rest, total) ← assign_remote total entries; Ok (e :: rest, total)
      else
        let blocks := wrap 32 (Z.of_nat (rmt_blocks (Z.to_nat (wrap 32 (Z.of_nat (length (ae_value e))))) bs true)) in
        after ← ok_or (checked_add 32 total blocks) (unsupported "attribute fork too large");
        '(rest, total') ← assign_remote after entries;
        Ok (mkAttrEntry (ae_namespace e) (ae_name e) (ae_value e) (ae_hash e) (ae_local e) (ae_record_size e) total :: rest, total')
  end.

Definition Layout_new (attrs : list Xattr) : res Layout :=
  entries ← res_map new_entry attrs;
  let entries := sort_by entry_leb entries in
  '(entries, leaves) ← fill_leaves (length entries) 0 80 [] [] entries;
  blocks ← tree_of leaves;
  total ← ok_or (try_u32 (Z.of_nat (length blocks))) (unsupported "attribute fork too large");
  '(entries, total) ← assign_remote total entries;
  Extent.to_bytes (mkExtent 0 0 total false);;
  Ok (mkAttrLayout entries blocks total).
End layout.

(** ** The layout's blocks *)

Section metadata.
Context (sb : Superblock) (layout : Layout).
Let bs := Z.to_nat (sb_blocksize sb).

Fixpoint highest_hash (fuel block : nat) : res Z :=
  match fuel with
  | O => Panic
  | S fuel =>
      b ← expect (lay_blocks layout !! block);
      match b with
      | Leaf entries => i ← expect (list.last entries); e ← expect (lay_entries layout !! i); Ok (ae_hash e)
      | Node children _ => child ← expect (list.last children); highest_hash fuel child
      end
  end.

Definition same_level (block candidate : AttrBlock) : bool :=
  match block, candidate with
  | Leaf _, Leaf _ => true
  | Node _ a, Node _ b => a =? b
  | _, _ => false
  end.
Definition sibling (block : AttrBlock) (candidates : list nat) : nat :=
  default 0%nat (find (fun i => match lay_blocks layout !! i with Some b => same_level block b | None => false end) candidates).

(** The record of one entry, from [first] on. *)
Definition place_record (buf : bytes) (first : nat) (e : AttrEntry) : res bytes :=
  let namelen := length (ae_name e) in
  if ae_local e then
    buf ← copy_at first (to_be_bytes 2 (wrap 16 (Z.of_nat (length (ae_value e))))) buf;
    buf ← copy_at (first + 2) (to_be_bytes 1 (wrap 8 (Z.of_nat namelen))) buf;
    let name_at := (first + 3)%nat in
    buf ← copy_at name_at (ae_name e) buf;
    copy_at (name_at + namelen) (ae_value e) buf
  else
    buf ← copy_at first (to_be_bytes 4 (ae_remote e)) buf;
    buf ← copy_at (first + 4) (to_be_bytes 4 (wrap 32 (Z.of_nat (length (ae_value e))))) buf;
    buf ← copy_at (first + 8) (to_be_bytes 1 (wrap 8 (Z.of_nat namelen))) buf;
    copy_at (first + 9) (ae_name e) buf.

(** The entries of a leaf, from the [i]th on; [first] is where the records
    placed so far begin. *)
Fixpoint place_leaf (buf : bytes) (i first : nat) (indices : list nat) : res (bytes * nat) :=
  match indices with
  | [] => Ok (buf, first)
  | entry :: indices =>
      e ← expect (lay_entries layout !! entry);
      assert (ae_record_size e <=? first)%nat;;
      let first := (first - ae_record_size e)%nat in
      let index := (80 + i * 8)%nat in
      buf ← copy_at index (to_be_bytes 4 (ae_hash e)) buf;
      buf ← copy_at (index + 4) (to_be_bytes 2 (wrap 16 (Z.of_nat first))) buf;
      buf ← copy_at (index + 6) (to_be_bytes 1 (Z.lor (ae_namespace e) (if ae_local e then attr_flags.LOCAL else 0))) buf;
      buf ← place_record buf first e;
      place_leaf buf (S i) first indices
  end.

Fixpoint place_children (buf : bytes) (i : nat) (children : list nat) : res bytes :=
  match children with
  | [] => Ok buf
  | child :: children =>
      let at_ := (64 + i * 8)%nat in
      hash ← highest_hash (S (length (lay_blocks layout))) child;
      buf ← copy_at at_ (to_be_bytes 4 hash) buf;
      buf ← copy_at (at_ + 4) (to_be_bytes 4 (wrap 32 (Z.of_nat child))) buf;
      place_children buf (S i) children
  end.

(** The header a leaf and a node share. *)
Definition place_blkinfo (ino disk_block : Z) (number : nat) (block : AttrBlock) (buf : bytes) : res bytes :=
  let magic := match block with Leaf _ => XFS_ATTR3_LEAF_MAGIC | Node _ _ => XFS_DA3_NODE_MAGIC end in
  buf ← copy_at 8 (to_be_bytes 2 magic) buf;
  buf ← copy_at 16 (to_be_bytes 8 disk_block) buf;
  buf ← copy_at 32 (sb_meta_uuid sb) buf;
  buf ← copy_at 48 (to_be_bytes 8 ino) buf;
  let previous := sibling block (rev (seq 0 number)) in
  let next := sibling block (seq (S number) (length (lay_blocks layout) - S number)) in
  buf ← copy_at 0 (to_be_bytes 4 (wrap 32 (Z.of_nat next))) buf;
  copy_at 4 (to_be_bytes 4 (wrap 32 (Z.of_nat previous))) buf.

Definition place_block (block : AttrBlock) (buf : bytes) : res bytes :=
  match block with
  | Leaf indices =>
      buf ← copy_at 56 (to_be_bytes 2 (wrap 16 (Z.of_nat (length indices)))) buf;
      '(buf, first) ← place_leaf buf 0 bs indices;
      buf ← copy_at 58 (to_be_bytes 2 (wrap 16 (Z.of_nat (bs - first)))) buf;
      buf ← copy_at 60 (to_be_bytes 2 (wrap 16 (Z.of_nat first))) buf;
      let free_base := (80 + length indices * 8)%nat in
      buf ← copy_at 64 (to_be_bytes 2 (wrap 16 (Z.of_nat free_base))) buf;
      copy_at 66 (to_be_bytes 2 (wrap 16 (Z.of_nat first - Z.of_nat free_base))) buf
  | Node children level =>
      buf ← copy_at 56 (to_be_bytes 2 (wrap 16 (Z.of_nat (length children)))) buf;
      buf ← copy_at 58 (to_be_bytes 2 level) buf;
      place_children buf 0 children
  end.

(** Block [number] of the fork, as a log item. *)
Definition metadata_item (ino start : Z) (number : nat) (block : AttrBlock) : res BufferItem :=
  let disk_block := fsblock_offset sb (wadd 64 start (Z.of_nat number)) / 512 in
  buf ← place_blkinfo ino disk_block number block (replicate bs x00);
  buf ← place_block block buf;
  item ← new disk_block buf (match block with Leaf _ => BLFT_ATTR_LEAF | Node _ _ => BLFT_DA_NODE end) 0;
  mark item 0 bs.

Definition metadata (ino start : Z) : res (list BufferItem) :=
  res_map (fun p => metadata_item ino start p.1 p.2) (imap pair (lay_blocks layout)).

Context `{Crc : Crc32c}.

(** One block of a value: [n] blocks of it are before this one. *)
Definition remote_block (ino start remote : Z) (n : nat) (payload : bytes) : res (Z * bytes) :=
  let buf := replicate bs x00 in
  let address := fsblock_offset sb (wadd 64 (wadd 64 start remote) (Z.of_nat n)) in
  buf ← copy_at 0 (to_be_bytes 4 XFS_ATTR3_RMT_MAGIC) buf;
  buf ← copy_at 4 (to_be_bytes 4 (wrap 32 (Z.of_nat (n * (bs - 56))))) buf;
  buf ← copy_at 8 (to_be_bytes 4 (wrap 32 (Z.of_nat (length payload)))) buf;
  buf ← copy_at 16 (sb_meta_uuid sb) buf;
  buf ← copy_at 32 (to_be_bytes 8 ino) buf;
  buf ← copy_at 40 (to_be_bytes 8 (address / 512)) buf;
  buf ← copy_at 48 (to_be_bytes 8 (umax 64)) buf;
  buf ← copy_at 56 payload buf;
  crc ← crc32c_with_zeroed_crc buf 12;
  buf ← copy_at 12 (to_le_bytes 4 crc) buf;
  Ok (address, buf).

Definition remote_blocks (ino start : Z) : res (list (Z * bytes)) :=
  res_map (fun x : AttrEntry * (nat * bytes) => remote_block ino start (ae_remote x.1) x.2.1 x.2.2)
    (e ← List.filter (fun e => negb (ae_local e)) (lay_entries layout); (fun p => (e, p)) <$> imap pair (chunks (bs - 56) (ae_value e))).
End metadata.

Definition extent_record (start total : Z) : res bytes := Extent.to_bytes (mkExtent 0 start total false).

(** ** Short form *)

Fixpoint shortform_entries (capacity : Z) (out : bytes) (attrs : list Xattr) : res (option bytes) :=
  match attrs with
  | [] => Ok (Some out)
  | attr :: attrs =>
      '(namespace, name) ← name_parts (x_name attr);
      let value := x_value attr in
      if (255 <? length value)%nat || (capacity <? Z.of_nat (length out + 3 + length name + length value)) then Ok None
      else
        let out := out ++ to_be_bytes 1 (wrap 8 (Z.of_nat (length name))) ++ to_be_bytes 1 (wrap 8 (Z.of_nat (length value))) ++ to_be_bytes 1 namespace in
        shortform_entries capacity (out ++ name ++ value) attrs
  end.

Definition encode_shortform (attrs : list Xattr) (capacity : Z) : res (option bytes) :=
  if bool_decide (attrs = []) then Ok (Some [])
  else if (255 <? length attrs)%nat then Ok None
  else
    r ← shortform_entries capacity (replicate 2 x00 ++ to_be_bytes 1 (wrap 8 (Z.of_nat (length attrs))) ++ [x00]) attrs;
    match r with
    | None => Ok None
    | Some out => out ← copy_at 0 (to_be_bytes 2 (wrap 16 (Z.of_nat (length out)))) out; Ok (Some out)
    end.

(** ** Where a short-form fork goes *)

Definition shortform_forkoff (litino data_required fork_len : nat) : option nat :=
  let data_required := (div_ceil (Nat.max data_required 8) 8 * 8)%nat in
  let min_data := Nat.max data_required 56 in
  if (litino <? fork_len)%nat then None else
  let offset := ((litino - fork_len) / 8 * 8)%nat in
  if (litino <? 36)%nat then None else
  let max := ((litino - 36) / 8 * 8)%nat in
  let forkoff := Nat.max (Nat.min offset max) min_data in
  if (forkoff + fork_len <=? litino)%nat then Some forkoff else None.

Definition parent_fork (name : bytes) (parent generation : Z) : res bytes :=
  r ← encode_shortform [mkXattr (PARENT_PREFIX ++ name) (to_be_bytes 8 parent ++ to_be_bytes 4 generation)] (umax 64);
  ok_or r (unsupported "a parent pointer does not fit a short-form attribute fork").

(** ** Names, there and back *)

(** The namespace flags a stored entry can have. *)
Definition a_namespace (ns : Z) : Prop := ns = 0 \/ ns = attr_flags.ROOT \/ ns = attr_flags.SECURE \/ ns = attr_flags.PARENT.
Definition prefix_of (ns : Z) : bytes := if ns =? attr_flags.PARENT then PARENT_PREFIX else default [] (namespace_prefix ns).

Lemma strip_prefix_Some p : forall l r, strip_prefix p l = Some r <-> l = p ++ r.
Proof.
  induction p as [|x p IH]; intros l r; cbn [strip_prefix]; [split; [by intros [= ->]|by intros ->]|].
  destruct l as [|y l]; [done|]. destruct (bool_decide_reflect (x = y)) as [->|Hne]; [rewrite IH|]; split; intros; simplify_eq/=; done.
Qed.

Lemma name_parts_spec name ns short : name_parts name = Ok (ns, short) ->
  a_namespace ns /\ name = prefix_of ns ++ short /\ (1 <= length short <= 255)%nat.
Proof.
  unfold name_parts, a_namespace. destruct (strip_prefix PARENT_PREFIX name) as [s|] eqn:Ep.
  { intros (Hc & [= <- <-])%guard_Ok. apply strip_prefix_Some in Ep. apply orb_false_iff in Hc as [Hn Hl%Nat.ltb_ge].
    apply bool_decide_eq_false in Hn. split; [tauto|]. split; [done|]. destruct s; [done|]. cbn in *. lia. }
  intros H. apply bind_Ok in H as ([n s] & Hs & H). apply guard_Ok in H as (Hc & [= -> ->]).
  apply orb_false_iff in Hc as [Hc _]. apply orb_false_iff in Hc as [Hn Hl%Nat.ltb_ge]. apply bool_decide_eq_false in Hn.
  assert (Hp : a_namespace ns /\ name = prefix_of ns ++ short).
  { unfold a_namespace. destruct (strip_prefix (bstr "user.") name) eqn:Eu; [injection Hs as <- <-; apply strip_prefix_Some in Eu; tauto|].
    destruct (strip_prefix (bstr "trusted.") name) eqn:Et; [injection Hs as <- <-; apply strip_prefix_Some in Et; tauto|].
    destruct (strip_prefix (bstr "security.") name) eqn:Es; [injection Hs as <- <-; apply strip_prefix_Some in Es; tauto|done]. }
  destruct Hp as [Hns ->]. split; [done|]. split; [done|]. rewrite length_app in Hl. destruct short; [done|]. cbn in *. lia.
Qed.

(** A reader gives the name back whether the value is in the leaf or not. *)
Lemma full_name_stored ino ns short fl : a_namespace ns -> fl = ns \/ fl = Z.lor ns attr_flags.LOCAL ->
  full_name ino fl short = Ok (Some (prefix_of ns ++ short)).
Proof. intros [-> | [-> | [-> | ->]]] [-> | ->]; reflexivity. Qed.

(** ** Short form, read back *)

Section short_read.
Context (ino : Z).

(** The bytes of one entry. *)
Definition sf_bytes (ns : Z) (name value : bytes) : bytes :=
  to_be_bytes 1 (wrap 8 (Z.of_nat (length name))) ++ to_be_bytes 1 (wrap 8 (Z.of_nat (length value))) ++ to_be_bytes 1 ns ++ name ++ value.

Lemma shortform_entry_read pre ns name value post totsize n : a_namespace ns -> (length name <= 255)%nat -> (length value <= 255)%nat ->
  (length pre + length (sf_bytes ns name value) <= totsize)%nat ->
  let fork := pre ++ sf_bytes ns name value ++ post in
  shortform_loop ino fork totsize (S n) (length pre) =
  (rest ← shortform_loop ino fork totsize n (length pre + length (sf_bytes ns name value)); Ok (mkXattr (prefix_of ns ++ name) value :: rest)).
Proof.
  intros Hns Hn Hv Ht fork. assert (Hl : length (sf_bytes ns name value) = (3 + length name + length value)%nat) by (unfold sf_bytes; rewrite !length_app, !length_to_be_bytes; lia).
  assert (Hfl : (length pre + (3 + length name + length value) <= length fork)%nat) by (unfold fork; rewrite !length_app; lia).
  assert (Hs : forall off m, slice (length pre + off) m fork = slice off m (sf_bytes ns name value ++ post)).
  { intros off m. unfold fork, slice. rewrite <- drop_drop, drop_app_length. done. }
  cbn [shortform_loop]. rewrite get_range_in by (unfold XFS_ATTR_SF_ENTRY_HDR_SIZE; lia). cbn [mbind option_bind].
  rewrite (proj2 (Nat.leb_le _ _)) by (unfold XFS_ATTR_SF_ENTRY_HDR_SIZE; lia). cbn [ok_or mbind res_bind].
  assert (Hh : slice (length pre) XFS_ATTR_SF_ENTRY_HDR_SIZE fork = [z2b (Z.of_nat (length name)); z2b (Z.of_nat (length value)); z2b ns]).
  { rewrite <- (Nat.add_0_r (length pre)), Hs. unfold sf_bytes. rewrite !wrap_small by (unfold in_u; lia). unfold slice. cbn. by rewrite !Z.div_1_r. }
  assert (Hb : forall a b c, byte_at [a; b; c] 0 = Ok (b2z a) /\ byte_at [a; b; c] 1 = Ok (b2z b) /\ byte_at [a; b; c] 2 = Ok (b2z c)) by done.
  rewrite Hh. unfold attr_sf_entry.NAMELEN, attr_sf_entry.VALUELEN, attr_sf_entry.FLAGS, attr_sf_entry.NAMEVAL.
  destruct (Hb (z2b (Z.of_nat (length name))) (z2b (Z.of_nat (length value))) (z2b ns)) as (-> & -> & ->). cbn [mbind res_bind].
  rewrite !b2z_z2b, !Z.mod_small by (destruct Hns as [-> | [-> | [-> | ->]]]; cbn; lia). rewrite !Nat2Z.id.
  rewrite (proj2 (Nat.ltb_ge _ _)) by lia. cbn [fail_if mbind res_bind]. rewrite !get_slice_Ok by lia. cbn [mbind res_bind].
  rewrite (full_name_stored ino ns) by (done || (left; by destruct Hns as [-> | [-> | [-> | ->]]])). cbn [mbind res_bind reported].
  replace (length pre + 3 + length name + length value)%nat with (length pre + length (sf_bytes ns name value))%nat by lia.
  assert (slice (length pre + 3) (length name) fork = name) as ->.
  { rewrite Hs. unfold sf_bytes. rewrite <- !app_assoc. rewrite !(app_assoc (to_be_bytes 1 _)). rewrite <- !app_assoc, !app_assoc.
    rewrite <- (app_assoc _ value), <- (app_assoc _ name). apply slice_between; [by rewrite !length_app, !length_to_be_bytes|done]. }
  assert (slice (length pre + 3 + length name) (length pre + length (sf_bytes ns name value) - (length pre + 3 + length name)) fork = value) as ->.
  { rewrite Hl. replace (length pre + (3 + length name + length value) - (length pre + 3 + length name))%nat with (length value) by lia.
    rewrite <- Nat.add_assoc, Hs. unfold sf_bytes. rewrite !app_assoc, <- (app_assoc _ value). apply slice_between; [rewrite !length_app, !length_to_be_bytes; lia|done]. }
  done.
Qed.

Definition stored_as (a : Xattr) (b : bytes) : Prop := exists ns short,
  name_parts (x_name a) = Ok (ns, short) /\ (length (x_value a) <= 255)%nat /\ b = sf_bytes ns short (x_value a).

Lemma shortform_list_read attrs parts : Forall2 stored_as attrs parts -> forall pre post totsize, (length pre + length (concat parts) <= totsize)%nat ->
  shortform_loop ino (pre ++ concat parts ++ post) totsize (length attrs) (length pre) = Ok attrs.
Proof.
  induction 1 as [|a b attrs parts (ns & short & Hp & Hv & ->) Hl IH]; intros pre post totsize Ht; [done|]. cbn [concat length] in *. rewrite length_app in Ht.
  destruct (name_parts_spec _ _ _ Hp) as (Hns & Hname & Hs). rewrite <- app_assoc.
  rewrite shortform_entry_read by (done || lia). rewrite app_assoc, <- length_app. rewrite IH by (rewrite length_app; lia). cbn [mbind res_bind]. rewrite <- Hname. by destruct a.
Qed.

Lemma shortform_entries_spec capacity attrs : forall out r, shortform_entries capacity out attrs = Ok r ->
  match r with
  | Some out' => exists parts, Forall2 stored_as attrs parts /\ out' = out ++ concat parts /\ (attrs <> [] -> Z.of_nat (length out') <= capacity)
  | None => True
  end.
Proof.
  induction attrs as [|a attrs IH]; intros out r H; cbn [shortform_entries] in H.
  - injection H as <-. exists []. cbn. by rewrite app_nil_r.
  - apply bind_Ok in H as ([ns short] & Hp & H). destruct (_ || _) eqn:Ec; [by injection H as <-|]. apply orb_false_iff in Ec as [Hv%Nat.ltb_ge Hc%Z.ltb_ge].
    destruct (name_parts_spec _ _ _ Hp) as (_ & _ & Hs). apply IH in H. destruct r as [out'|]; [|done]. destruct H as (parts & Hf & -> & Hl).
    exists (sf_bytes ns short (x_value a) :: parts). split; [constructor; [by exists ns, short|done]|]. cbn [concat]. unfold sf_bytes. rewrite <- !app_assoc. split; [done|]. intros _.
    destruct attrs as [|a2 attrs]; [|rewrite <- !app_assoc in Hl; by apply Hl]. inversion Hf; subst. cbn [concat]. rewrite !length_app, !length_to_be_bytes. cbn [length]. lia.
Qed.
End short_read.

(** C28: A short-form fork that is built keeps to its capacity and reads back as
    exactly the attributes it was built from, in their order, whatever follows it
    in the inode; and building one never panics. *)
Theorem short_fork_written_read ino attrs capacity post : 4 <= capacity < 2 ^ 16 ->
  match encode_shortform attrs capacity with
  | Ok (Some fork) => Z.of_nat (length fork) <= capacity /\ (attrs <> [] -> shortform ino (fork ++ post) = Ok attrs)
  | Ok None => attrs <> []
  | Err _ => Exists (fun a => exists e, name_parts (x_name a) = Err e) attrs
  | Panic => False
  end.
Proof.
  intros Hc. unfold encode_shortform. destruct (bool_decide_reflect (attrs = [])) as [->|Hne]; [split; [cbn; lia|done]|].
  destruct (Nat.ltb_spec 255 (length attrs)) as [|Hn]; [done|].
  assert (Hr : match shortform_entries capacity (replicate 2 x00 ++ to_be_bytes 1 (wrap 8 (Z.of_nat (length attrs))) ++ [x00]) attrs with
    | Panic => False | Err _ => Exists (fun a => exists e, name_parts (x_name a) = Err e) attrs | Ok _ => True end).
  { clear. generalize (replicate 2 x00 ++ to_be_bytes 1 (wrap 8 (Z.of_nat (length attrs))) ++ [x00]). induction attrs as [|a attrs IH]; intros out; cbn [shortform_entries]; [done|].
    assert (Hp : name_parts (x_name a) <> Panic).
    { unfold name_parts. destruct (strip_prefix PARENT_PREFIX (x_name a)); [apply bind_not_Panic; [apply fail_if_not_Panic|done]|].
      apply bind_not_Panic; [by repeat case_match|]. intros [n s'] _. apply bind_not_Panic; [apply fail_if_not_Panic|done]. }
    destruct (name_parts (x_name a)) as [[ns short]|e|] eqn:En; cbn [mbind res_bind]; [|left; by exists e|done]. destruct (_ || _); [done|].
    match goal with |- match shortform_entries _ ?o _ with _ => _ end => specialize (IH o) end. destruct (shortform_entries _ _ _); [done|by right|done]. }
  destruct (shortform_entries _ _ attrs) as [r|e|] eqn:Es; cbn [mbind res_bind]; [|done|done]. apply (shortform_entries_spec capacity) in Es. destruct r as [out|]; [|done].
  destruct Es as (parts & Hf & -> & Hl). specialize (Hl Hne).
  rewrite copy_at_Ok by (rewrite !length_app, !length_to_be_bytes, length_replicate; lia). cbn [mbind res_bind]. split; [by rewrite length_splice by (rewrite !length_app, !length_to_be_bytes, length_replicate; lia)|].
  intros _. set (n := length attrs) in *. match goal with |- context [wrap 16 (Z.of_nat ?t)] => set (total := t) in * end.
  assert (E : splice 0 (to_be_bytes 2 (wrap 16 (Z.of_nat total))) ((replicate 2 x00 ++ to_be_bytes 1 (wrap 8 (Z.of_nat n)) ++ [x00]) ++ concat parts) =
    (to_be_bytes 2 (Z.of_nat total) ++ to_be_bytes 1 (Z.of_nat n) ++ [x00]) ++ concat parts).
  { rewrite !wrap_small by (unfold in_u; lia). unfold splice. rewrite length_to_be_bytes. cbn. done. }
  rewrite E. set (head := _ ++ _ ++ [x00]). assert (Hh : length head = 4%nat) by (unfold head; by rewrite !length_app, !length_to_be_bytes).
  assert (Htot : total = (4 + length (concat parts))%nat) by (unfold total; rewrite !length_app, !length_to_be_bytes, length_replicate; cbn [length]; lia).
  unfold shortform. rewrite <- app_assoc. rewrite (proj2 (Nat.ltb_ge _ _)) by (rewrite !length_app, Hh; unfold XFS_ATTR_SF_HDR_SIZE; lia). cbn [fail_if mbind res_bind].
  unfold attr_sf_hdr.TOTSIZE, attr_sf_hdr.COUNT. rewrite be16_Ok, byte_at_Ok by (rewrite !length_app, Hh; lia). cbn [mbind res_bind].
  assert (rd 2 0 (head ++ concat parts ++ post) = Z.of_nat total) as ->.
  { unfold rd, head. rewrite <- !app_assoc, slice_head by (by rewrite length_to_be_bytes). apply from_to_be_bytes_small. change (256 ^ Z.of_nat 2) with (2 ^ 16). lia. }
  assert (rd 1 2 (head ++ concat parts ++ post) = Z.of_nat n) as ->.
  { unfold rd, head. rewrite <- !app_assoc, slice_between by (by rewrite length_to_be_bytes). apply from_to_be_bytes_small. change (256 ^ Z.of_nat 1) with 256. lia. }
  rewrite (proj2 (Z.ltb_ge _ _)) by (rewrite !length_app, Hh; lia). cbn [fail_if mbind res_bind]. rewrite !Nat2Z.id. unfold XFS_ATTR_SF_HDR_SIZE. rewrite <- Hh.
  apply shortform_list_read; [done|lia].
Qed.

(** ** The layout: every attribute once, and leaves that fit *)

Definition attr_of (e : AttrEntry) : Xattr := mkXattr (prefix_of (ae_namespace e) ++ ae_name e) (ae_value e).

Section layout_spec.
Context (bs : nat) (ci : bool) (Hbs : 512 <= Z.of_nat bs <= 65536).

(** What holds of an entry however it is stored. *)
Record entry_good (e : AttrEntry) : Prop := {
  eg_namespace : a_namespace (ae_namespace e);
  eg_name : (1 <= length (ae_name e) <= 255)%nat;
  eg_value : Z.of_nat (length (ae_value e)) <= XFS_ATTR_VALUE_MAX;
  eg_hash : in_u 32 (ae_hash e);
  eg_record : if ae_local e then (3 + length (ae_name e) + length (ae_value e) <= ae_record_size e)%nat else (9 + length (ae_name e) <= ae_record_size e)%nat;
  eg_small : ae_local e = true -> (length (ae_value e) < bs / 2)%nat;
}.

Lemma align4_le n : (n <= align4 n < n + 4)%nat.
Proof. unfold align4. apply div_ceil_bounds. lia. Qed.

Lemma name_parts_total name : name_parts name <> Panic.
Proof.
  unfold name_parts. destruct (strip_prefix PARENT_PREFIX name); [apply bind_not_Panic; [apply fail_if_not_Panic|done]|].
  apply bind_not_Panic; [by repeat case_match|]. intros [n s'] _. apply bind_not_Panic; [apply fail_if_not_Panic|done].
Qed.

Lemma new_entry_spec a : Z.of_nat (length (x_value a)) <= XFS_ATTR_VALUE_MAX ->
  new_entry bs ci a <> Panic /\ forall e, new_entry bs ci a = Ok e -> entry_good e /\ attr_of e = a.
Proof.
  intros Hv. unfold new_entry. pose proof (name_parts_total (x_name a)) as Hnp. destruct (name_parts (x_name a)) as [[ns name]|er|] eqn:Ep; cbn [mbind res_bind]; [|split; [done|by intros]|done].
  destruct (name_parts_spec _ _ _ Ep) as (Hns & Hname & Hl). set (size := align4 (3 + length name + length (x_value a))).
  assert (Hh : (if ns =? attr_flags.PARENT then parent_hash ci name (x_value a) else Ok (hashname name)) <> Panic /\
    forall h, (if ns =? attr_flags.PARENT then parent_hash ci name (x_value a) else Ok (hashname name)) = Ok h -> in_u 32 h).
  { destruct (ns =? attr_flags.PARENT); [|split; [done|]; intros h [= <-]; apply hashname_u32]. unfold parent_hash.
    destruct (Nat.eqb_spec (length (x_value a)) 12) as [E|]; cbn [negb fail_if mbind res_bind]; [|split; [done|by intros]]. rewrite be64_Ok by lia. cbn [mbind res_bind].
    split; [done|]. intros h [= <-]. repeat (apply lxor_u32; [|by apply wrap_range]). apply hash_folded_u32. }
  destruct Hh as [Hhp Hh]. destruct (if ns =? attr_flags.PARENT then _ else _) as [h|er|]; cbn [mbind res_bind]; [|split; [done|by intros]|done].
  destruct (_ && _); cbn [fail_if mbind res_bind]; [split; [done|by intros]|]. split; [done|]. intros e <-%Ok_inj.
  pose proof (align4_le (3 + length name + length (x_value a))). pose proof (align4_le (11 + length name)).
  split; [|unfold attr_of; cbn; rewrite <- Hname; by destruct a].
  constructor; cbv beta iota delta [ae_namespace ae_name ae_value ae_hash ae_local ae_record_size]; [done|done|done|by apply Hh| |].
  - destruct (_ <? _)%nat; unfold size; lia.
  - intros Hs%Nat.ltb_lt. unfold size in *. lia.
Qed.

Lemma force_remote_spec e : entry_good e -> entry_good (force_remote e) /\ attr_of (force_remote e) = attr_of e /\ ae_hash (force_remote e) = ae_hash e.
Proof.
  intros Hg. pose proof Hg as [Hns Hn Hv Hh Hr Hs]. unfold force_remote. destruct (_ && _); [|done]. split; [|done]. pose proof (align4_le (11 + length (ae_name e))).
  constructor; cbv beta iota delta [ae_namespace ae_name ae_value ae_hash ae_local ae_record_size]; [done|done|done|done|change (9 + length (ae_name e) <= align4 (11 + length (ae_name e)))%nat; lia|done].
Qed.

(** Entries that stand for the same attributes. *)
Definition same_attr (e e' : AttrEntry) : Prop := entry_good e' /\ attr_of e' = attr_of e /\ ae_hash e' = ae_hash e.

Lemma same_attr_refl es : Forall entry_good es -> Forall2 same_attr es es.
Proof. induction 1; constructor; by split_and?. Qed.

(** The room the entries of a leaf take, by the sizes of the final entries. *)
Definition need_of (size : nat -> nat) (indices : list nat) : nat := sum_list_with (fun i => 8 + size i)%nat indices.

Lemma need_of_app size a b : need_of size (a ++ b) = (need_of size a + need_of size b)%nat.
Proof. unfold need_of. by rewrite sum_list_with_app. Qed.

Lemma need_of_group size group at_ : (forall k e, group !! k = Some e -> size (at_ + k)%nat = ae_record_size e) ->
  need_of size (seq at_ (length group)) = group_need group.
Proof.
  revert at_. induction group as [|e group IH]; intros at_ Hs; [done|]. cbn [length seq]. unfold need_of, group_need in *. cbn [sum_list_with].
  rewrite <- (IH (S at_)). 2:{ intros k x Hk. rewrite <- (Hs (S k) x Hk). f_equal. lia. }
  specialize (Hs 0%nat e eq_refl). rewrite Nat.add_0_r in Hs. by rewrite Hs.
Qed.

(** Entries in hash order. *)
Definition hash_sorted : list AttrEntry -> Prop := StronglySorted (fun x y => ae_hash x <= ae_hash y).

Lemma bytes_leb_total : forall a b, bytes_leb a b = false -> bytes_leb b a = true.
Proof.
  induction a as [|x a IH]; intros [|y b] H; cbn [bytes_leb] in *; try done. apply orb_false_iff in H as [H1%Z.ltb_ge H2]. apply orb_true_iff.
  destruct (Z.eqb_spec (b2z x) (b2z y)) as [E|]; [right; rewrite E, Z.eqb_refl; by apply IH|left; apply Z.ltb_lt; lia].
Qed.
Lemma entry_leb_total x y : entry_leb x y = false -> entry_leb y x = true.
Proof.
  unfold entry_leb. intros [H1%Z.ltb_ge H2]%orb_false_iff. apply orb_true_iff. destruct (Z.eqb_spec (ae_hash x) (ae_hash y)) as [E|]; [|left; apply Z.ltb_lt; lia].
  right. rewrite E, Z.eqb_refl. apply orb_false_iff in H2 as [H2%Z.ltb_ge H3]. apply orb_true_iff.
  destruct (Z.eqb_spec (ae_namespace x) (ae_namespace y)) as [E2|]; [right; rewrite E2, Z.eqb_refl; by apply bytes_leb_total|left; apply Z.ltb_lt; lia].
Qed.

Lemma sorted_entries es : hash_sorted (sort_by entry_leb es).
Proof.
  pose proof (sort_by_Sorted entry_leb es entry_leb_total) as Hs. apply Sorted_StronglySorted; [intros x y z; lia|].
  induction Hs as [|x l Hl IH Hx]; constructor; [done|]. destruct Hx as [|y l Hxy]; constructor. unfold entry_leb in Hxy.
  apply orb_true_iff in Hxy as [Hxy%Z.ltb_lt|[Hxy%Z.eqb_eq _]%andb_true_iff]; lia.
Qed.

Lemma strongly_sorted_lookup {A} (R : A -> A -> Prop) l i j x y : StronglySorted R l -> (i < j)%nat -> l !! i = Some x -> l !! j = Some y -> R x y.
Proof.
  intros Hs Hij Hx Hy. rewrite <- (take_drop j l) in Hs. apply (StronglySorted_app_1_elem_of _ _ _ x y Hs).
  - eapply list_elem_of_lookup_2. rewrite lookup_take_lt by exact Hij. exact Hx.
  - apply (list_elem_of_lookup_2 _ 0). rewrite lookup_drop, Nat.add_0_r. exact Hy.
Qed.

(** The entries of the first one's hash. *)
Lemma hash_group e rest : hash_sorted (e :: rest) -> exists group after,
  e :: rest = group ++ after /\ partition_point (fun x => ae_hash x =? ae_hash e) (e :: rest) = length group /\ group <> [] /\
  Forall (fun x => ae_hash x = ae_hash e) group /\ Forall (fun x => ae_hash e < ae_hash x) after /\ hash_sorted after.
Proof.
  intros Hs. set (f := fun x => ae_hash x =? ae_hash e).
  assert (Hmin : Forall (fun x => ae_hash e <= ae_hash x) (e :: rest)) by (apply StronglySorted_inv in Hs as [_ Hs]; constructor; [lia|done]).
  assert (Hp : partitioned f (e :: rest)).
  { intros i j x y Hij Hx Hy Hf%Z.eqb_eq. apply Z.eqb_eq. pose proof (proj1 (Forall_lookup _ _) Hmin i x Hx). cbn beta in *.
    destruct (decide (i = j)) as [->|]; [congruence|]. assert (ae_hash x <= ae_hash y); [|lia].
    apply (strongly_sorted_lookup _ _ i j x y Hs); [lia|done|done]. }
  destruct (partition_point_split f (e :: rest) Hp) as (group & after & E & Hn & Hg & Ha). exists group, after. split; [done|]. split; [done|].
  split; [intros ->; cbn [app] in E; subst after; apply Forall_cons in Ha as [Ha _]; unfold f in Ha; by rewrite Z.eqb_refl in Ha|].
  split; [eapply Forall_impl; [exact Hg|]; intros x Hx; by apply Z.eqb_eq|].
  rewrite E in Hmin, Hs. apply Forall_app in Hmin as [_ Hmin]. apply StronglySorted_app_1_r in Hs. split; [|done].
  apply Forall_forall. intros x Hx. rewrite Forall_forall in Ha, Hmin. specialize (Ha x Hx). specialize (Hmin x Hx). cbn beta in *. unfold f in Ha. apply Z.eqb_neq in Ha. lia.
Qed.

(** Leaves in hash order, no hash in two of them. *)
Definition leaves_apart (hash : nat -> Z) (leaves : list (list nat)) : Prop :=
  StronglySorted (fun l1 l2 => forall i j, i ∈ l1 -> j ∈ l2 -> hash i < hash j) leaves.

(** What filling leaves makes of the entries still to place. *)
Record filled (at_ used : nat) (indices : list nat) (rest es : list AttrEntry) (new : list (list nat)) : Prop := {
  fl_same : Forall2 same_attr rest es;
  fl_some : new <> [];
  fl_indices : concat new = indices ++ seq at_ (length rest);
  fl_full : indices <> [] \/ rest <> [] -> Forall (fun l => l <> []) new;
  fl_fit size : (forall k e, es !! k = Some e -> size (at_ + k)%nat = ae_record_size e) -> used = (80 + need_of size indices)%nat ->
    Forall (fun l => (80 + need_of size l <= bs)%nat) new;
  fl_apart hash : (forall k e, es !! k = Some e -> hash (at_ + k)%nat = ae_hash e) -> (forall i e, i ∈ indices -> e ∈ rest -> hash i < ae_hash e) ->
    leaves_apart hash new;
}.

(** Whatever is said of the entries from [at_] on is said of the ones after a
    group of them. *)
Lemma after_group {A} (f : nat -> A) (g : AttrEntry -> A) at_ group es :
  (forall k e, (group ++ es) !! k = Some e -> f (at_ + k)%nat = g e) ->
  (forall k e, group !! k = Some e -> f (at_ + k)%nat = g e) /\ (forall k e, es !! k = Some e -> f (at_ + length group + k)%nat = g e).
Proof.
  intros H. split; intros k e Hk.
  - apply H. by apply lookup_app_l_Some.
  - rewrite <- Nat.add_assoc. apply H. rewrite lookup_app_r by lia. by replace (length group + k - length group)%nat with k by lia.
Qed.

Lemma same_hashes rest es : Forall2 same_attr rest es -> ae_hash <$> es = ae_hash <$> rest.
Proof. induction 1 as [|e e' l l' (_ & _ & Hh) Hl IH]; [done|]. by rewrite !fmap_cons, IH, Hh. Qed.

Lemma filled_group at_ used indices group group' after es new : Forall2 same_attr group group' -> group <> [] ->
  Forall (fun x => Forall (fun y => ae_hash x < ae_hash y) after) group ->
  (used + group_need group' <= bs)%nat ->
  filled (at_ + length group) (used + group_need group') (indices ++ seq at_ (length group)) after es new ->
  filled at_ used indices (group ++ after) (group' ++ es) new.
Proof.
  intros Hg Hne Hlt Hfit [Hs Hnn Hi Hf Hsz Hap]. pose proof (Forall2_length _ _ _ Hg) as Hlen. constructor.
  - by apply Forall2_app.
  - done.
  - by rewrite Hi, length_app, seq_app, app_assoc.
  - intros _. apply Hf. left. destruct group; [done|]. cbn [length seq]. by destruct indices.
  - intros size [H1 H2]%after_group Hu. apply Hsz; [by rewrite Hlen|]. rewrite need_of_app, Hlen, (need_of_group size group') by done. lia.
  - intros hash [H1 H2]%after_group Hlow. apply Hap; [by rewrite Hlen|]. intros i e [Hin|Hin]%elem_of_app He; [apply Hlow; [done|by apply elem_of_app; right]|].
    apply elem_of_seq in Hin. destruct (lookup_lt_is_Some_2 group (i - at_)) as [x Hx]; [lia|].
    destruct (Forall2_lookup_l _ _ _ _ _ Hg Hx) as (x' & Hx' & _ & _ & Hh). specialize (H1 _ _ Hx'). replace (at_ + (i - at_))%nat with i in H1 by lia. rewrite H1, Hh.
    rewrite Forall_lookup in Hlt. specialize (Hlt _ _ Hx). rewrite Forall_forall in Hlt. by apply Hlt.
Qed.

(** A leaf that is full, closed. *)
Lemma filled_closed at_ used indices rest es new : indices <> [] -> (used <= bs)%nat ->
  filled at_ 80 [] rest es new -> rest <> [] -> filled at_ used indices rest es (indices :: new).
Proof.
  intros Hne Hu [Hs Hnn Hi Hf Hsz Hap] Hr. constructor; [done|done|cbn [concat]; by rewrite Hi| | |].
  - intros _. constructor; [done|]. apply Hf. by right.
  - intros size H1 H2. constructor; [lia|]. by apply Hsz.
  - intros hash H1 H2. unfold leaves_apart. constructor; [apply Hap; [done|]; by intros ? ? ?%elem_of_nil|].
    apply Forall_forall. intros l Hl i j Hin Hj. assert (Hjc : j ∈ concat new) by (apply list_elem_of_In, in_concat; exists l; split; by apply list_elem_of_In).
    rewrite Hi in Hjc. cbn [app] in Hjc. apply elem_of_seq in Hjc. destruct (lookup_lt_is_Some_2 es (j - at_)) as [x' Hx']; [rewrite <- (Forall2_length _ _ _ Hs); lia|].
    destruct (Forall2_lookup_r _ _ _ _ _ Hs Hx') as (x & Hx & _ & _ & Hh). specialize (H1 _ _ Hx'). replace (at_ + (j - at_))%nat with j in H1 by lia. rewrite H1, Hh.
    apply H2; [done|by eapply list_elem_of_lookup_2].
Qed.

Lemma fill_leaves_spec fuel : forall at_ used indices leaves rest, (length rest <= fuel)%nat -> hash_sorted rest -> Forall entry_good rest ->
  (80 <= used <= bs)%nat -> (indices = [] -> used = 80%nat) ->
  fill_leaves bs fuel at_ used indices leaves rest <> Panic /\
  forall es ls, fill_leaves bs fuel at_ used indices leaves rest = Ok (es, ls) -> exists new, ls = leaves ++ new /\ filled at_ used indices rest es new.
Proof.
  induction fuel as [|fuel IH]; intros at_ used indices leaves rest Hf Hs Hg Hu Hi.
  { destruct rest; [|cbn in Hf; lia]. split; [done|]. intros es ls [= <- <-]. exists [indices]. split; [done|].
    constructor; [done|done|cbn; by rewrite !app_nil_r|intros [?|?]; [by repeat constructor|done]|intros; constructor; [lia|done]|intros; by repeat constructor]. }
  destruct rest as [|e rest].
  { split; [done|]. intros es ls [= <- <-]. exists [indices]. split; [done|].
    constructor; [done|done|cbn; by rewrite !app_nil_r|intros [?|?]; [by repeat constructor|done]|intros; constructor; [lia|done]|intros; by repeat constructor]. }
  cbn [fill_leaves]. destruct (hash_group e rest Hs) as (group & after & E & Hn & Hgne & Hge & Hga & Hsa). rewrite Hn, E, take_app_length, drop_app_length.
  rewrite E in Hg, Hf. apply Forall_app in Hg as [Hgg Hgafter]. rewrite length_app in Hf.
  assert (Hlt : Forall (fun x => Forall (fun y => ae_hash x < ae_hash y) after) group) by (eapply Forall_impl; [exact Hge|]; cbn; intros x ->; done).
  destruct (if (bs - 80 <? group_need group)%nat then _ else _) as [group'|er|] eqn:Egr; cbn [mbind res_bind].
  2: split; [done|by intros].
  2: { destruct (_ <? _)%nat; [|done]. by destruct (_ <? _)%nat. }
  assert (Hg' : Forall2 same_attr group group' /\ (group_need group' <= bs - 80)%nat).
  { destruct (Nat.ltb_spec (bs - 80) (group_need group)) as [|Hle].
    - apply guard_Ok in Egr as [Hle%Nat.ltb_ge [= <-]]. split; [|done]. clear -Hgg. induction Hgg as [|x l Hx Hl IH]; [constructor|]. rewrite fmap_cons. constructor; [by apply force_remote_spec|done].
    - injection Egr as <-. split; [by apply same_attr_refl|done]. }
  destruct Hg' as [Hgs Hgn]. assert (length group <> 0%nat) by (by destruct group).
  set (full := (bs <? used + group_need group')%nat).
  assert (Hcall : (80 <= (if full then 80%nat else used) + group_need group' <= bs)%nat) by (unfold full; destruct (Nat.ltb_spec bs (used + group_need group')); lia).
  specialize (IH (at_ + length group)%nat ((if full then 80%nat else used) + group_need group')%nat ((if full then [] else indices) ++ seq at_ (length group)) (if full then leaves ++ [indices] else leaves) after ltac:(lia) Hsa Hgafter Hcall).
  destruct IH as [IHp IHs]. { intros Habs%app_eq_nil. destruct Habs as [_ Habs]. by destruct group. }
  destruct (fill_leaves bs fuel _ _ _ _ after) as [[es ls]|er|]; cbn [mbind res_bind]; [|split; [done|by intros]|done]. split; [done|]. intros es' ls' [= <- <-].
  destruct (IHs es ls eq_refl) as (new & -> & Hnew).
  destruct full eqn:Efull; unfold full in Efull.
  - apply Nat.ltb_lt in Efull. exists (indices :: new). split; [by rewrite <- app_assoc|]. apply filled_closed; [|lia| |by destruct group].
    + intros ->. specialize (Hi eq_refl). lia.
    + apply filled_group; [done|done|done|lia|done].
  - apply Nat.ltb_ge in Efull. exists new. split; [done|]. apply filled_group; [done|done|done|lia|done].
Qed.
End layout_spec.

(** ** The hash tree's shape *)

Section chunk.
Context {A : Type}.
Implicit Types l : list A.

Lemma chunks_fuel_spec n fuel l : (0 < n)%nat -> (length l <= fuel)%nat ->
  concat (chunks_fuel fuel n l) = l /\ Forall (fun c => c <> [] /\ (length c <= n)%nat) (chunks_fuel fuel n l) /\
  forall k c, chunks_fuel fuel n l !! k = Some c -> c = slice (k * n) (Nat.min n (length l - k * n)) l /\ (k * n < length l)%nat.
Proof.
  intros Hn. revert l. induction fuel as [|fuel IH]; intros l Hl; [destruct l; [done|cbn in Hl; lia]|]. destruct l as [|x l]; [done|]. cbn [chunks_fuel].
  destruct (IH (drop n (x :: l))) as (Hc & Hf & Hk); [rewrite length_drop; cbn [length] in *; lia|]. cbn [concat]. rewrite Hc, take_drop. split; [done|]. split.
  - constructor; [|done]. rewrite length_take. split; [destruct n; [lia|done]|lia].
  - intros [|k] c Hkc; cbn [lookup list_lookup] in Hkc.
    + injection Hkc as <-. cbn [Nat.mul]. split; [|cbn; lia]. unfold slice. rewrite drop_0, Nat.sub_0_r.
      destruct (Nat.le_gt_cases n (length (x :: l))); [by rewrite Nat.min_l|]. rewrite Nat.min_r by lia. rewrite !take_ge by (cbn in *; lia). done.
    + destruct (Hk k c Hkc) as [-> Hlt]. rewrite length_drop in *. split; [|lia]. unfold slice. rewrite drop_drop.
      replace (S k * n)%nat with (n + k * n)%nat by lia. by rewrite Nat.sub_add_distr.
Qed.

Lemma chunks_spec n l : (0 < n)%nat -> concat (chunks n l) = l /\ Forall (fun c => c <> [] /\ (length c <= n)%nat) (chunks n l) /\
  forall k c, chunks n l !! k = Some c -> c = slice (k * n) (Nat.min n (length l - k * n)) l /\ (k * n < length l)%nat.
Proof. intros. by apply chunks_fuel_spec. Qed.

Lemma length_chunks n l : (0 < n)%nat -> length (chunks n l) = div_ceil (length l) n.
Proof.
  intros Hn. unfold chunks. assert (H : forall fuel l, (length l <= fuel)%nat -> length (chunks_fuel fuel n l) = div_ceil (length l) n).
  { clear l. induction fuel as [|fuel IH]; intros l Hl.
    - destruct l; [|cbn in Hl; lia]. cbn. unfold div_ceil. cbn [length]. rewrite Nat.div_small; lia.
    - destruct l as [|x l]; [cbn; unfold div_ceil; cbn [length]; rewrite Nat.div_small; lia|]. cbn [chunks_fuel length]. rewrite IH by (rewrite length_drop; cbn in *; lia).
      rewrite length_drop. unfold div_ceil. change (S (length l)) with (length (x :: l)). assert (1 <= length (x :: l))%nat by (cbn; lia). generalize dependent (length (x :: l)). intros m Hl H.
      destruct (Nat.le_gt_cases n m).
      + replace (m + n - 1)%nat with (m - n + n - 1 + 1 * n)%nat by lia. rewrite Nat.div_add by lia. lia.
      + replace (m - n + n - 1)%nat with (n - 1)%nat by lia. rewrite (Nat.div_small (n - 1)) by lia. apply (Nat.div_unique _ _ _ (m - 1)); lia. }
  by apply H.
Qed.
End chunk.

(** [k] steps down along first children. *)
Fixpoint goes_down (blocks : list AttrBlock) (k a b : nat) : Prop :=
  match k with
  | O => a = b
  | S k => exists c cs level, blocks !! a = Some (Node (c :: cs) level) /\ goes_down blocks k c b
  end.

Lemma goes_down_app blocks extra k : forall a b, goes_down blocks k a b -> goes_down (blocks ++ extra) k a b.
Proof.
  induction k as [|k IH]; intros a b H; [done|]. destruct H as (c & cs & level & Hl & H). exists c, cs, level. split; [by apply lookup_app_l_Some|by apply IH].
Qed.

Section tree.
Context (bs : nat) (Hbs : 512 <= Z.of_nat bs <= 65536).
Let capacity := ((bs - 64) / 8)%nat.

Lemma capacity_big : (56 <= capacity)%nat.
Proof. unfold capacity. apply Nat.div_le_lower_bound; lia. Qed.

(** The nodes but the root: children before them, as many as fit. *)
Definition nodes_below (blocks : list AttrBlock) : Prop := forall i children level, (0 < i)%nat -> blocks !! i = Some (Node children level) ->
  children <> [] /\ 1 <= level <= 5 /\ (length children <= capacity)%nat /\ Forall (fun c => 0 < c < i)%nat children.

Lemma goes_down_root blocks root k : forall a b, nodes_below blocks -> (0 < a)%nat -> goes_down blocks k a b -> goes_down (<[0%nat := root]> blocks) k a b.
Proof.
  induction k as [|k IH]; intros a b Hn Ha H; [done|]. destruct H as (c & cs & level & Hl & H). exists c, cs, level. rewrite list_lookup_insert_ne by lia.
  split; [done|]. apply IH; [done| |done]. destruct (Hn a _ _ Ha Hl) as (_ & _ & _ & Hc). apply Forall_cons in Hc as [? _]. lia.
Qed.

(** A level of children on the way up. *)
Record risen (children : list nat) (level : Z) (blocks : list AttrBlock) : Prop := {
  rn_level : 1 <= level <= 5;
  rn_in : Forall (fun c => 0 < c < length blocks)%nat children;
  rn_first : exists c cs, children = c :: cs /\ goes_down blocks (Z.to_nat level - 1) c 1;
  rn_nodes : nodes_below blocks;
}.

Definition is_node (b : AttrBlock) : Prop := match b with Node _ _ => True | Leaf _ => False end.

Lemma risen_step children level blocks : risen children level blocks -> level < 5 ->
  risen (seq (length blocks) (length (chunks capacity children))) (level + 1) (blocks ++ ((fun chunk => Node chunk level) <$> chunks capacity children)).
Proof.
  intros [Hl Hin (c & cs & E & Hd) Hn] Hlt. pose proof capacity_big as Hcap. destruct (chunks_spec capacity children ltac:(lia)) as (Hcat & Hch & _).
  set (parts := chunks capacity children) in *. assert (Hne : exists p ps, parts = p :: ps /\ exists t, p = c :: t).
  { destruct parts as [|p ps]; [cbn in Hcat; by rewrite E in Hcat|]. apply Forall_cons in Hch as [[Hp _] _]. exists p, ps. split; [done|]. destruct p as [|x t]; [done|].
    exists t. cbn in Hcat. rewrite E in Hcat. congruence. }
  destruct Hne as (p & ps & Ep & t & Et). constructor.
  - lia.
  - apply Forall_forall. intros x Hx%elem_of_seq. rewrite length_app, length_fmap. assert (0 < length blocks)%nat; [|lia].
    rewrite E in Hin. apply Forall_cons in Hin as [Hin _]. lia.
  - rewrite Ep. cbn [length seq]. eexists _, _. split; [done|]. replace (Z.to_nat (level + 1) - 1)%nat with (S (Z.to_nat level - 1)) by lia.
    cbn [goes_down]. exists c, t, level. split; [|by apply goes_down_app]. rewrite fmap_cons. rewrite lookup_app_r by lia. rewrite Nat.sub_diag. by rewrite Et.
  - intros i ch lv Hi Hlk. apply lookup_app_Some in Hlk as [Hlk|[Hge Hlk]]; [by apply Hn|]. apply list_lookup_fmap_Some in Hlk as (chunk & [= -> ->] & Hck).
    pose proof (list_elem_of_lookup_2 _ _ _ Hck) as Hel. pose proof (proj1 (Forall_forall _ _) Hch _ Hel) as [? ?]. split; [done|]. split; [lia|]. split; [done|].
    apply Forall_forall. intros x Hx. assert (x ∈ children) as Hxc by (rewrite <- Hcat; apply list_elem_of_In, in_concat; exists chunk; split; by apply list_elem_of_In).
    pose proof (proj1 (Forall_forall _ _) Hin x Hxc). cbn beta in *. lia.
Qed.

Lemma raise_levels_spec fuel : forall children level blocks, (Z.to_nat (6 - level) <= fuel)%nat -> risen children level blocks ->
  raise_levels bs fuel children level blocks <> Panic /\
  forall children' level' blocks', raise_levels bs fuel children level blocks = Ok (children', level', blocks') ->
    risen children' level' blocks' /\ (length children' <= capacity)%nat /\ exists extra, blocks' = blocks ++ extra /\ Forall is_node extra.
Proof.
  induction fuel as [|fuel IH]; intros children level blocks Hf Hr; cbn [raise_levels]; fold capacity; pose proof (rn_level _ _ _ Hr) as Hl; [lia|].
  destruct (Nat.leb_spec (length children) capacity) as [Hle|].
  { split; [done|]. intros ch lv bl [= <- <- <-]. split; [done|]. split; [done|]. exists []. by rewrite app_nil_r. }
  rewrite wadd_small by lia. destruct (Z.ltb_spec XFS_DA_NODE_MAXDEPTH (level + 1)) as [|Hd]; cbn [fail_if mbind res_bind]; [split; [done|by intros]|]. unfold XFS_DA_NODE_MAXDEPTH in Hd.
  assert (Hf' : (Z.to_nat (6 - (level + 1)) <= fuel)%nat) by lia. assert (Hlt : level < 5) by lia.
  destruct (IH _ _ _ Hf' (risen_step _ _ _ Hr Hlt)) as [Hp Hs]. split; [done|]. intros ch lv bl Hch. destruct (Hs _ _ _ Hch) as (Hr' & Hc & extra & -> & He).
  split; [done|]. split; [done|]. eexists. rewrite <- app_assoc. split; [done|]. apply Forall_app. split; [|done]. apply Forall_fmap, Forall_forall. done.
Qed.

(** The blocks of a tree over these leaves: they follow one another, are what
    the leftmost edge leads to, and are all its leaves. *)
Record tree (leaves : list (list nat)) (blocks : list AttrBlock) (first steps : nat) : Prop := {
  tr_steps : (steps <= 5)%nat;
  tr_down : goes_down blocks steps 0 first;
  tr_leaf i l : leaves !! i = Some l -> blocks !! (first + i)%nat = Some (Leaf l);
  tr_leaves i l : blocks !! i = Some (Leaf l) -> (first <= i < first + length leaves)%nat;
  tr_node i children level : blocks !! i = Some (Node children level) -> children <> [] /\ 1 <= level <= 5 /\ (length children <= capacity)%nat /\
    Forall (fun c => (c < length blocks)%nat /\ (0 < c)%nat /\ (i = 0 \/ (c < i))%nat) children;
}.

Lemma tree_of_spec leaves : leaves <> [] ->
  tree_of bs leaves <> Panic /\ forall blocks, tree_of bs leaves = Ok blocks -> (length leaves <= length blocks)%nat /\ exists first steps, tree leaves blocks first steps.
Proof.
  intros Hne. unfold tree_of. rewrite length_fmap. destruct (Nat.eqb_spec (length leaves) 1) as [E1|Hn1].
  { split; [done|]. intros blocks [= <-]. rewrite length_fmap. split; [done|]. exists 0%nat, 0%nat. constructor; [lia|done| | |].
    - intros i l Hl. cbn. by rewrite list_lookup_fmap, Hl.
    - intros i l Hl. apply lookup_lt_Some in Hl. rewrite length_fmap in Hl. lia.
    - intros i ch lv Hl. apply list_lookup_fmap_Some in Hl as (? & ? & _). done. }
  set (blocks0 := Node [] 0 :: (Leaf <$> leaves)). assert (Hlb : length blocks0 = S (length leaves)) by (unfold blocks0; cbn [length]; by rewrite length_fmap).
  assert (Hr : risen (seq 1 (length blocks0 - 1)) 1 blocks0).
  { rewrite Hlb. cbn [Nat.sub]. rewrite Nat.sub_0_r. constructor; [lia| | |].
    - apply Forall_forall. intros x Hx%elem_of_seq. lia.
    - destruct leaves as [|l ls]; [done|]. cbn [length seq]. by eexists _, _.
    - intros i ch lv Hi Hl. destruct i as [|i]; [lia|]. cbn in Hl. apply list_lookup_fmap_Some in Hl as (? & ? & _). done. }
  destruct (raise_levels_spec (Z.to_nat XFS_DA_NODE_MAXDEPTH) (seq 1 (length blocks0 - 1)) 1 blocks0 ltac:(unfold XFS_DA_NODE_MAXDEPTH; lia) Hr) as [Hp Hs].
  destruct (raise_levels _ _ _ _ _) as [[[children level] blocks]|er|]; cbn [mbind res_bind]; [|split; [done|by intros]|done]. split; [done|]. intros bl [= <-].
  destruct (Hs _ _ _ eq_refl) as ([Hl Hin (c & cs & Ec & Hd) Hn] & Hcap & extra & Eb & He). rewrite length_insert.
  assert (Hlen : (S (length leaves) <= length blocks)%nat) by (rewrite Eb, length_app; lia). split; [lia|]. exists 1%nat, (S (Z.to_nat level - 1)). constructor.
  - lia.
  - cbn [goes_down]. exists c, cs, level. rewrite list_lookup_insert_eq by lia. rewrite Ec. split; [done|]. apply goes_down_root; [done| |done].
    rewrite Ec in Hin. apply Forall_cons in Hin as [? _]. lia.
  - intros i l Hi. rewrite list_lookup_insert_ne by lia. rewrite Eb. apply lookup_app_l_Some. change ((Leaf <$> leaves) !! i = Some (Leaf l)). by rewrite list_lookup_fmap, Hi.
  - intros i l Hi. destruct i as [|i]; [rewrite list_lookup_insert_eq in Hi by lia; done|]. rewrite list_lookup_insert_ne in Hi by lia. rewrite Eb in Hi.
    apply lookup_app_Some in Hi as [Hi|[_ Hi]].
    + apply lookup_lt_Some in Hi. lia.
    + apply list_elem_of_lookup_2 in Hi. by apply (proj1 (Forall_forall _ _) He) in Hi.
  - intros i ch lv Hi. rewrite length_insert. destruct i as [|i].
    + rewrite list_lookup_insert_eq in Hi by lia. injection Hi as <- <-. split; [by rewrite Ec|]. split; [done|]. split; [done|]. eapply Forall_impl; [exact Hin|]. cbn. lia.
    + rewrite list_lookup_insert_ne in Hi by lia. destruct (Hn (S i) ch lv ltac:(lia) Hi) as (? & ? & ? & Hc). split; [done|]. split; [done|]. split; [done|].
      apply lookup_lt_Some in Hi. eapply Forall_impl; [exact Hc|]. cbn. lia.
Qed.
End tree.

(** ** The whole layout *)

Section whole_layout.
Context (bs : nat) (ci : bool) (Hbs : 512 <= Z.of_nat bs <= 65536).

(** The same entry, but for where its value goes. *)
Definition placed_as (e e' : AttrEntry) : Prop :=
  e' = mkAttrEntry (ae_namespace e) (ae_name e) (ae_value e) (ae_hash e) (ae_local e) (ae_record_size e) (ae_remote e').

Definition value_blocks (e : AttrEntry) : Z := Z.of_nat (rmt_blocks (length (ae_value e)) bs true).

Lemma assign_remote_spec entries : forall total, Forall (entry_good bs) entries -> 0 <= total ->
  assign_remote bs total entries <> Panic /\
  forall es t, assign_remote bs total entries = Ok (es, t) -> Forall2 placed_as entries es /\ total <= t /\
    Forall (fun e => ae_local e = false -> total <= ae_remote e /\ ae_remote e + value_blocks e <= t) es.
Proof.
  induction entries as [|e entries IH]; intros total Hg Ht; cbn [assign_remote].
  { split; [done|]. intros es t [= <- <-]. by split_and!. }
  apply Forall_cons in Hg as [He Hg]. destruct (ae_local e) eqn:El.
  - destruct (IH total Hg Ht) as [Hp Hs]. destruct (assign_remote bs total entries) as [[es t]|er|]; cbn [mbind res_bind]; [|split; [done|by intros]|done].
    split; [done|]. intros es' t' [= <- <-]. destruct (Hs _ _ eq_refl) as (Hf & Hle & Hr). split; [constructor; [|done]; unfold placed_as; by destruct e|]. split; [done|].
    constructor; [congruence|done].
  - pose proof (eg_value _ _ He) as Hv. unfold XFS_ATTR_VALUE_MAX in Hv. rewrite (wrap_small 32 (Z.of_nat (length (ae_value e)))), Nat2Z.id by (unfold in_u; lia). set (n := rmt_blocks (length (ae_value e)) bs true).
    assert (Hn : Z.of_nat n < 2 ^ 32).
    { unfold n, rmt_blocks, rmt_buf_space, XFS_ATTR3_RMT_HDR_SIZE. pose proof (div_ceil_bounds (length (ae_value e)) (bs - 56) ltac:(lia)). nia. }
    rewrite wrap_small by (unfold in_u; lia). unfold checked_add. destruct (Z.ltb_spec (total + Z.of_nat n) (2 ^ 32)); cbn [ok_or mbind res_bind]; [|split; [done|by intros]].
    destruct (IH (total + Z.of_nat n) Hg ltac:(lia)) as [Hp Hs]. destruct (assign_remote bs _ entries) as [[es t]|er|]; cbn [mbind res_bind]; [|split; [done|by intros]|done].
    split; [done|]. intros es' t' Heq. destruct (Hs _ _ eq_refl) as (Hf & Hle & Hr). assert (es' = mkAttrEntry (ae_namespace e) (ae_name e) (ae_value e) (ae_hash e) (ae_local e) (ae_record_size e) total :: es /\ t' = t) as [-> ->] by (rewrite El in *; by injection Heq as <- <-).
    split; [constructor; [|done]; done|]. split; [lia|]. constructor; [intros _; change (total <= total /\ total + Z.of_nat n <= t); lia|].
    eapply Forall_impl; [exact Hr|]. intros x Hx Hxl. specialize (Hx Hxl). lia.
Qed.

Lemma placed_as_good e e' : placed_as e e' -> entry_good bs e -> entry_good bs e' /\ attr_of e' = attr_of e /\ ae_hash e' = ae_hash e /\ ae_record_size e' = ae_record_size e.
Proof. intros -> []. done. Qed.

(** What is laid out, of these attributes over these leaves. *)
Record laid_out (attrs : list Xattr) (layout : Layout) (leaves : list (list nat)) (first steps : nat) : Prop := {
  lg_entries : Forall (entry_good bs) (lay_entries layout);
  lg_attrs : attr_of <$> lay_entries layout ≡ₚ attrs;
  lg_sorted : hash_sorted (lay_entries layout);
  lg_leaves : concat leaves = seq 0 (length (lay_entries layout));
  lg_full : Forall (fun l => l <> []) leaves;
  lg_fit : Forall (fun l => (80 + need_of (fun i => default 0%nat (ae_record_size <$> lay_entries layout !! i)) l <= bs)%nat) leaves;
  lg_apart : leaves_apart (fun i => default 0 (ae_hash <$> lay_entries layout !! i)) leaves;
  lg_tree : tree bs leaves (lay_blocks layout) first steps;
  lg_total : Z.of_nat (length (lay_blocks layout)) <= lay_total layout <= BLOCKCOUNT_MAX;
  lg_blocks : leaves <> [] /\ (length leaves <= length (lay_blocks layout))%nat;
  lg_remote : Forall (fun e => ae_local e = false -> Z.of_nat (length (lay_blocks layout)) <= ae_remote e /\ ae_remote e + value_blocks e <= lay_total layout) (lay_entries layout);
}.

Lemma res_map_new attrs : Forall (fun a => Z.of_nat (length (x_value a)) <= XFS_ATTR_VALUE_MAX) attrs ->
  res_map (new_entry bs ci) attrs <> Panic /\ forall es, res_map (new_entry bs ci) attrs = Ok es -> Forall (entry_good bs) es /\ attr_of <$> es = attrs.
Proof.
  induction 1 as [|a attrs Ha Hf IH]; cbn [res_map]; [split; [done|]; by intros es [= <-]|]. destruct (new_entry_spec bs ci a Ha) as [Hp Hs].
  destruct (new_entry bs ci a) as [e|er|]; cbn [mbind res_bind]; [|split; [done|by intros]|done]. destruct IH as [IHp IHs].
  destruct (res_map _ attrs) as [es|er|]; cbn [mbind res_bind]; [|split; [done|by intros]|done]. split; [done|]. intros es' [= <-].
  destruct (Hs e eq_refl) as [? <-], (IHs es eq_refl) as [? <-]. split; [by constructor|done].
Qed.

Lemma Forall2_placed es es' : Forall2 placed_as es es' -> Forall (entry_good bs) es ->
  Forall (entry_good bs) es' /\ attr_of <$> es' = attr_of <$> es /\ forall k e', es' !! k = Some e' -> exists e, es !! k = Some e /\ ae_hash e' = ae_hash e /\ ae_record_size e' = ae_record_size e.
Proof.
  intros Hf Hg. induction Hf as [|e e' l l' He Hl IH]; [done|]. apply Forall_cons in Hg as [Hge Hg]. destruct (placed_as_good _ _ He Hge) as (Hge' & Ha & Hh & Hs).
  destruct (IH Hg) as (? & Hat & Hk). split; [by constructor|]. split; [by rewrite !fmap_cons, Hat, Ha|]. intros [|k] x Hx; [injection Hx as <-; by exists e|]. by apply Hk.
Qed.

Lemma Layout_new_spec attrs : attrs <> [] -> Forall (fun a => Z.of_nat (length (x_value a)) <= XFS_ATTR_VALUE_MAX) attrs ->
  Layout_new bs ci attrs <> Panic /\ forall layout, Layout_new bs ci attrs = Ok layout -> exists leaves first steps, laid_out attrs layout leaves first steps.
Proof.
  intros Hne Hv. unfold Layout_new. destruct (res_map_new attrs Hv) as [Hp Hs]. destruct (res_map (new_entry bs ci) attrs) as [es0|er|]; cbn [mbind res_bind]; [|split; [done|by intros]|done].
  destruct (Hs es0 eq_refl) as [Hg0 Ha0]. pose proof (sort_by_Permutation entry_leb es0) as Hperm. pose proof (sorted_entries bs es0) as Hsort.
  set (es := sort_by entry_leb es0) in *. assert (Hg : Forall (entry_good bs) es) by (by rewrite Hperm).
  assert (Hesne : es <> []) by (intros E; rewrite E in Hperm; apply Permutation_nil_l in Hperm; subst es0; by rewrite fmap_nil in Ha0).
  destruct (fill_leaves_spec bs Hbs (length es) 0 80 [] [] es ltac:(lia) Hsort Hg ltac:(lia) ltac:(done)) as [Hfp Hfs].
  destruct (fill_leaves _ _ _ _ _ _ es) as [[es1 leaves]|er|]; cbn [mbind res_bind]; [|split; [done|by intros]|done].
  destruct (Hfs _ _ eq_refl) as (new & En & [Hsame Hsome Hidx Hfull Hfit Hapart]). cbn [app] in En, Hidx. subst new.
  destruct (tree_of_spec bs Hbs leaves Hsome) as [Htp Hts]. destruct (tree_of bs leaves) as [blocks|er|]; cbn [mbind res_bind]; [|split; [done|by intros]|done].
  destruct (Hts _ eq_refl) as (Hlb & first & steps & Htree). unfold try_u32. destruct (Z.ltb_spec (Z.of_nat (length blocks)) (2 ^ 32)); cbn [ok_or mbind res_bind]; [|split; [done|by intros]].
  assert (Hg1 : Forall (entry_good bs) es1 /\ attr_of <$> es1 = attr_of <$> es).
  { clear -Hsame. induction Hsame as [|e e' l l' (? & Ha & _) Hl IH]; [done|]. destruct IH as [? IH]. split; [by constructor|]. by rewrite !fmap_cons, IH, Ha. }
  destruct Hg1 as [Hg1 Ha1]. destruct (assign_remote_spec es1 (Z.of_nat (length blocks)) Hg1 ltac:(lia)) as [Hrp Hrs].
  destruct (assign_remote _ _ _) as [[es2 total]|er|]; cbn [mbind res_bind]; [|split; [done|by intros]|done]. destruct (Hrs _ _ eq_refl) as (Hpl & Hle & Hrem).
  destruct (Forall2_placed _ _ Hpl Hg1) as (Hg2 & Ha2 & Hk2).
  assert (Htb : Extent.to_bytes (mkExtent 0 0 total false) <> Panic) by (unfold Extent.to_bytes; repeat (apply bind_not_Panic; [apply fail_if_not_Panic|intros _ _]); done).
  destruct (Extent.to_bytes _) as [b|er|] eqn:Eb; cbn [mbind res_bind]; [|split; [done|by intros]|done]. split; [done|]. intros layout [= <-].
  assert (Htot : total <= BLOCKCOUNT_MAX).
  { unfold Extent.to_bytes in Eb. apply guard_Ok in Eb as [_ Eb]. apply guard_Ok in Eb as [_ Eb]. apply guard_Ok in Eb as [Eb _]. cbn [blockcount] in Eb. apply orb_false_iff in Eb as [_ Eb%Z.ltb_ge]. done. }
  assert (Hl12 : length es2 = length es1) by (symmetry; by eapply Forall2_length). assert (Hl1 : length es1 = length es) by (symmetry; by eapply Forall2_length).
  exists leaves, first, steps. constructor; cbn [lay_entries lay_blocks lay_total]; [done| | |by rewrite Hl12, Hl1|apply Hfull; by right| | |done|lia|done|done].
  - rewrite Ha2, Ha1. rewrite <- Ha0. by rewrite Hperm.
  - assert (Hh : ae_hash <$> es2 = ae_hash <$> es).
    { rewrite <- (same_hashes bs _ _ Hsame). clear -Hpl. induction Hpl as [|e e' l l' He Hl IH]; [done|]. rewrite !fmap_cons, IH. by rewrite He. }
    clear -Hh Hsort. revert es2 Hh. induction Hsort as [|e l Hl IH Hx]; intros [|e2 es2] Hh; [constructor|done|done|]. rewrite !fmap_cons in Hh. injection Hh as He Hh. constructor; [by apply IH|].
    rewrite He. clear -Hx Hh. revert es2 Hh. induction Hx as [|x l Hx Hl IH]; intros [|y es2] Hh; [constructor|done|done|]. rewrite !fmap_cons in Hh. injection Hh as Hy Hh. constructor; [congruence|by apply IH].
  - apply (Hfit (fun i => default 0%nat (ae_record_size <$> es2 !! i))); [|done]. intros k e Hk. cbn [Nat.add].
    destruct (lookup_lt_is_Some_2 es2 k) as [e2 He2]; [rewrite Hl12; by eapply lookup_lt_Some|]. destruct (Hk2 _ _ He2) as (e1 & He1 & _ & Hsz). rewrite He2. cbn. congruence.
  - apply (Hapart (fun i => default 0 (ae_hash <$> es2 !! i))); [|by intros ? ? ?%elem_of_nil]. intros k e Hk. cbn [Nat.add].
    destruct (lookup_lt_is_Some_2 es2 k) as [e2 He2]; [rewrite Hl12; by eapply lookup_lt_Some|]. destruct (Hk2 _ _ He2) as (e1 & He1 & Hh & _). rewrite He2. cbn. congruence.
Qed.

(** C18: Laying out attributes never panics, and a layout holds each attribute given
    exactly once, in hash order.  The leaves divide the entries in order, none of
    them empty, each with room for its records and its index, and no hash is in two
    of them; each node has children, as many as a block has room for, all below it;
    and every value kept outside its leaf has its blocks after the tree's and
    inside the fork. *)
Theorem attr_layout_sound attrs : attrs <> [] -> Forall (fun a => Z.of_nat (length (x_value a)) <= XFS_ATTR_VALUE_MAX) attrs ->
  match Layout_new bs ci attrs with
  | Ok layout =>
      let entries := lay_entries layout in
      let blocks := lay_blocks layout in
      attr_of <$> entries ≡ₚ attrs /\ StronglySorted (fun x y => ae_hash x <= ae_hash y) entries /\
      (exists leaves first, (forall i l, blocks !! i = Some (Leaf l) <-> exists j, i = (first + j)%nat /\ leaves !! j = Some l) /\
        concat leaves = seq 0 (length entries) /\ Forall (fun l => l <> []) leaves /\
        Forall (fun l => (80 + sum_list_with (fun i => 8 + default 0 (ae_record_size <$> entries !! i)) l <= bs)%nat) leaves /\
        StronglySorted (fun l l' => forall i j, i ∈ l -> j ∈ l' -> default 0 (ae_hash <$> entries !! i) < default 0 (ae_hash <$> entries !! j)) leaves) /\
      (forall i children level, blocks !! i = Some (Node children level) ->
        children <> [] /\ (length children <= (bs - 64) / 8)%nat /\ Forall (fun c => (c < length blocks)%nat /\ (0 < c)%nat /\ (i = 0 \/ (c < i))%nat) children) /\
      Forall (fun e => ae_local e = false -> Z.of_nat (length blocks) <= ae_remote e /\ ae_remote e + value_blocks e <= lay_total layout) entries
  | Err _ => True
  | Panic => False
  end.
Proof.
  intros Hne Hv. destruct (Layout_new_spec attrs Hne Hv) as [Hp Hs]. destruct (Layout_new bs ci attrs) as [layout|e|]; [|done|done]. destruct (Hs layout eq_refl) as (leaves & first & steps & Hl).
  pose proof (lg_tree _ _ _ _ _ Hl) as Ht. split; [apply (lg_attrs _ _ _ _ _ Hl)|]. split; [apply (lg_sorted _ _ _ _ _ Hl)|]. split; [|split; [|apply (lg_remote _ _ _ _ _ Hl)]].
  - exists leaves, first. split; [|split_and!; [apply (lg_leaves _ _ _ _ _ Hl)|apply (lg_full _ _ _ _ _ Hl)|apply (lg_fit _ _ _ _ _ Hl)|apply (lg_apart _ _ _ _ _ Hl)]].
    intros i l. split; [|intros (j & -> & Hj); by apply (tr_leaf _ _ _ _ _ Ht)]. intros Hi. pose proof (tr_leaves _ _ _ _ _ Ht _ _ Hi) as Hr. destruct (lookup_lt_is_Some_2 leaves (i - first)) as [l' Hl']; [lia|].
    exists (i - first)%nat. split; [lia|]. pose proof (tr_leaf _ _ _ _ _ Ht _ _ Hl') as Hb. replace (first + (i - first))%nat with i in Hb by lia. congruence.
  - intros i children level Hi. destruct (tr_node _ _ _ _ _ Ht _ _ _ Hi) as (? & _ & ? & ?). done.
Qed.
End whole_layout.

(** ** Witnesses *)

Lemma short_fork_written_read_witness : shortform 128 ([x00; x0b; x01; x00; x01; x03; x00; "a"; "x"; "y"; "z"]%byte ++ [x00]) = Ok [mkXattr (bstr "user.a") (bstr "xyz")].
Proof.
  pose proof (short_fork_written_read 128 [mkXattr (bstr "user.a") (bstr "xyz")] 100 [x00] ltac:(lia)) as H.
  assert (E : encode_shortform [mkXattr (bstr "user.a") (bstr "xyz")] 100 = Ok (Some [x00; x0b; x01; x00; x01; x03; x00; "a"; "x"; "y"; "z"]%byte)) by (vm_compute; reflexivity).
  rewrite E in H. destruct H as [_ H]. by apply H.
Defined.

Lemma attr_layout_sound_witness : exists layout, Layout_new 512 false [mkXattr (bstr "user.a") (bstr "x"); mkXattr (bstr "trusted.b") []] = Ok layout /\
  attr_of <$> lay_entries layout ≡ₚ [mkXattr (bstr "user.a") (bstr "x"); mkXattr (bstr "trusted.b") []].
Proof.
  pose proof (attr_layout_sound 512 false ltac:(lia) [mkXattr (bstr "user.a") (bstr "x"); mkXattr (bstr "trusted.b") []] ltac:(done) ltac:(repeat constructor; by vm_compute)) as H.
  destruct (Layout_new 512 false _) as [layout| |] eqn:E; [|vm_compute in E; discriminate|vm_compute in E; discriminate]. exists layout. split; [done|]. apply H.
Defined.
