(* ===== verification/AttrImage.v ===== *)
(** * The blocks of an attribute fork, read back ([src/src/attr_write.rs] against
      [src/src/attr.rs])

    What the layout of [AttrWrite] puts in each block, and that the reader of
    [Attr] gets every attribute back from it: the header the checks of a v5 block
    compare, the records of a leaf, the tree down to the first leaf, the chain of
    leaves, and the blocks of the values outside the leaves. *)

From Stdlib Require Import ZArith Lia Strings.String Strings.Byte Bool Sorted.
From stdpp Require Import base list sorting strings.
From S2P Require Import Prelude Error Endian Crc32c Fields Superblock Sample FreeSpace Extent Inode Bmbt BufWrite Dir DirShort DirBlock DirLookup Attr AttrWrite.

(** ** The blocks' bytes *)

(** The record of an entry, and its place in the index. *)
Definition rec_bytes (e : AttrEntry) : bytes :=
  if ae_local e then to_be_bytes 2 (Z.of_nat (length (ae_value e))) ++ to_be_bytes 1 (Z.of_nat (length (ae_name e))) ++ ae_name e ++ ae_value e
  else to_be_bytes 4 (ae_remote e) ++ to_be_bytes 4 (Z.of_nat (length (ae_value e))) ++ to_be_bytes 1 (Z.of_nat (length (ae_name e))) ++ ae_name e.
Definition flags_of (e : AttrEntry) : Z := Z.lor (ae_namespace e) (if ae_local e then attr_flags.LOCAL else 0).
Definition idx_bytes (e : AttrEntry) (pos : nat) : bytes := to_be_bytes 4 (ae_hash e) ++ to_be_bytes 2 (Z.of_nat pos) ++ to_be_bytes 1 (flags_of e).

(** An entry placed: its index slot, and its record. *)
Definition entry_placed (buf : bytes) (slot : nat) (e : AttrEntry) (pos : nat) : Prop :=
  slice (80 + slot * 8) 7 buf = idx_bytes e pos /\ slice pos (length (rec_bytes e)) buf = rec_bytes e.

Lemma entry_placed_frame buf buf' slot e pos : (forall off n, (80 + slot * 8 <= off /\ off + n <= 80 + slot * 8 + 7 \/ pos <= off /\ off + n <= pos + length (rec_bytes e))%nat -> slice off n buf' = slice off n buf) ->
  entry_placed buf slot e pos -> entry_placed buf' slot e pos.
Proof. intros Hf [H1 H2]. split; [rewrite Hf by lia|rewrite Hf by lia]; done. Qed.

Section leaf_bytes.
Context (bs : nat) (Hbs : 512 <= Z.of_nat bs <= 65536).

Lemma length_record_bytes e : entry_good bs e -> (length (rec_bytes e) <= ae_record_size e)%nat.
Proof.
  intros [_ _ _ _ Hr _]. unfold rec_bytes. destruct (ae_local e); rewrite !length_app, !length_to_be_bytes; lia.
Qed.

Lemma place_record_ok e first buf : entry_good bs e -> (first + ae_record_size e <= length buf)%nat ->
  place_record buf first e = Ok (splice first (rec_bytes e) buf).
Proof.
  intros Hg Hl. pose proof (length_record_bytes e Hg) as Hlr. destruct Hg as [_ Hn Hv _ Hr Hs]. unfold XFS_ATTR_VALUE_MAX in Hv. unfold place_record, rec_bytes in *. destruct (ae_local e) eqn:El.
  - specialize (Hs eq_refl). assert (Z.of_nat (length (ae_value e)) < 2 ^ 16) by (pose proof (Nat.Div0.mul_div_le bs 2); lia). rewrite !length_app, !length_to_be_bytes in Hlr.
    rewrite !wrap_small by (unfold in_u; lia). rewrite copy_at_Ok by (rewrite length_to_be_bytes; lia). cbn [mbind res_bind].
    rewrite (copy_at_after first) by (rewrite ?length_to_be_bytes; lia). cbn [mbind res_bind].
    rewrite (copy_at_after first) by (rewrite ?length_app, ?length_to_be_bytes; lia). cbn [mbind res_bind].
    rewrite (copy_at_after first) by (rewrite ?length_app, ?length_to_be_bytes; lia). by rewrite <- !app_assoc.
  - rewrite !length_app, !length_to_be_bytes in Hlr. rewrite !wrap_small by (unfold in_u; lia). rewrite copy_at_Ok by (rewrite length_to_be_bytes; lia). cbn [mbind res_bind].
    rewrite (copy_at_after first) by (rewrite ?length_to_be_bytes; lia). cbn [mbind res_bind].
    rewrite (copy_at_after first) by (rewrite ?length_app, ?length_to_be_bytes; lia). cbn [mbind res_bind].
    rewrite (copy_at_after first) by (rewrite ?length_app, ?length_to_be_bytes; lia). by rewrite <- !app_assoc.
Qed.

Section one_layout.
Context (layout : Layout) (Hgood : Forall (entry_good bs) (lay_entries layout)).
Let size (i : nat) : nat := default 0%nat (ae_record_size <$> lay_entries layout !! i).

Lemma place_leaf_ok indices : forall buf i first, Forall (fun x => (x < length (lay_entries layout))%nat) indices ->
  (80 + (i + length indices) * 8 + sum_list_with size indices <= first)%nat -> (first <= length buf)%nat -> length buf = bs ->
  exists buf' first', place_leaf layout buf i first indices = Ok (buf', first') /\ length buf' = length buf /\ (first' + sum_list_with size indices = first)%nat /\
    (forall off n, (off + n <= 80 + i * 8 \/ first <= off)%nat -> slice off n buf' = slice off n buf) /\
    forall k x e, indices !! k = Some x -> lay_entries layout !! x = Some e -> exists pos, (first' <= pos /\ pos + ae_record_size e <= first)%nat /\ entry_placed buf' (i + k) e pos.
Proof.
  induction indices as [|x indices IH]; intros buf i first Hin Hfit Hfl Hb; cbn [place_leaf].
  { exists buf, first. split; [done|]. split; [done|]. split; [cbn; lia|]. split; [done|]. by intros. }
  apply Forall_cons in Hin as [Hx Hin]. cbn [length sum_list_with] in *. destruct (lookup_lt_is_Some_2 _ _ Hx) as [e He]. rewrite He. cbn [expect mbind res_bind].
  assert (Hsz : size x = ae_record_size e) by (unfold size; by rewrite He). rewrite Hsz in *. pose proof (proj1 (Forall_lookup _ _) Hgood _ _ He) as Hg.
  rewrite (proj2 (Nat.leb_le _ _)) by lia. cbn [assert mbind res_bind]. set (pos := (first - ae_record_size e)%nat). pose proof (length_record_bytes e Hg) as Hlr.
  assert (Hhash : in_u 32 (ae_hash e)) by apply Hg. assert (Hfl16 : (0 < ae_record_size e)%nat) by (destruct Hg as [_ _ _ _ Hr _]; destruct (ae_local e); lia).
  assert (Hfx : 0 <= flags_of e < 256) by (unfold flags_of; destruct (eg_namespace _ _ Hg) as [-> | [-> | [-> | ->]]]; destruct (ae_local e); split; by vm_compute).
  rewrite wrap_small by (unfold in_u, pos; lia). fold (flags_of e).
  rewrite copy_at_Ok by (rewrite length_to_be_bytes; lia). cbn [mbind res_bind]. rewrite (copy_at_after (80 + i * 8)) by (rewrite ?length_to_be_bytes; lia). cbn [mbind res_bind].
  rewrite (copy_at_after (80 + i * 8)) by (rewrite ?length_app, ?length_to_be_bytes; lia). cbn [mbind res_bind]. rewrite <- app_assoc. fold (idx_bytes e pos).
  assert (Hli : length (idx_bytes e pos) = 7%nat) by (unfold idx_bytes; by rewrite !length_app, !length_to_be_bytes).
  set (buf1 := splice (80 + i * 8) (idx_bytes e pos) buf). assert (Hl1 : length buf1 = length buf) by (apply length_splice; lia).
  rewrite place_record_ok by (done || (unfold pos; lia)). cbn [mbind res_bind]. set (buf2 := splice pos (rec_bytes e) buf1).
  assert (Hl2 : length buf2 = length buf) by (rewrite <- Hl1; apply length_splice; unfold pos; lia).
  destruct (IH buf2 (S i) pos Hin ltac:(unfold pos; lia) ltac:(unfold pos; lia) ltac:(lia)) as (buf' & first' & -> & Hlb & Hf' & Hframe & Hents).
  exists buf', first'. split; [done|]. split; [lia|]. split; [unfold pos in Hf'; lia|]. split.
  - intros off n Ho. rewrite Hframe by (unfold pos; lia). unfold buf2. rewrite slice_splice_disjoint by (unfold pos; lia). unfold buf1. by rewrite slice_splice_disjoint by lia.
  - intros [|k] y ey Hk Hy; cbn [lookup list_lookup] in Hk.
    + injection Hk as <-. assert (ey = e) as -> by congruence. exists pos. split; [unfold pos; lia|]. apply (entry_placed_frame buf2).
      * intros off n Ho. apply Hframe. unfold pos in *. lia.
      * rewrite Nat.add_0_r. split.
        -- unfold buf2. rewrite slice_splice_disjoint by (unfold pos; lia). by apply slice_splice_same; lia.
        -- unfold buf2. apply slice_splice_same; [unfold pos; lia|done].
    + destruct (Hents k y ey Hk Hy) as (p & Hp & Hpl). exists p. split; [unfold pos in Hp; lia|]. by replace (i + S k)%nat with (S i + k)%nat by lia.
Qed.
End one_layout.
End leaf_bytes.

Lemma res_map_total_Ok {A B} (f : A -> res B) l : Forall (fun x => exists y, f x = Ok y) l -> exists ys, res_map f l = Ok ys.
Proof. induction 1 as [|x l [y Hy] Hl [ys Hys]]; cbn [res_map]; [by exists []|]. rewrite Hy, Hys. by eexists. Qed.

Section images.
Context `{Crc : Crc32c} {Laws : Crc32cLaws}.
Context (sb : Superblock) (Hty : sb_typed sb) (Hgeo : sb_geometry sb).
Let bs := Z.to_nat (sb_blocksize sb).
Context (attrs : list Xattr) (layout : Layout) (leaves : list (list nat)) (first steps : nat).
Context (Hlay : laid_out bs attrs layout leaves first steps).
Let entries := lay_entries layout.
Let blocks := lay_blocks layout.

Lemma bs_facts : 512 <= Z.of_nat bs <= 65536 /\ (bs mod 512 = 0)%nat /\ Z.of_nat bs = sb_blocksize sb.
Proof.
  destruct Hgeo as [[Hb Hs] _ _ _ _]. assert (E : sb_blocksize sb = 512 * 2 ^ (sb_blocklog sb - 9)) by (rewrite Hs; change 512 with (2 ^ 9); rewrite <- Z.pow_add_r by lia; f_equal; lia).
  assert (1 <= 2 ^ (sb_blocklog sb - 9) <= 128) by (change 1 with (2 ^ 0); change 128 with (2 ^ 7); split; apply Z.pow_le_mono_r; lia).
  assert (Eb : Z.of_nat bs = sb_blocksize sb) by (unfold bs; lia). split; [lia|]. split; [|done].
  apply Nat2Z.inj. rewrite Nat2Z.inj_mod, Eb, E. rewrite Z.mul_comm. apply Z.mod_mul. lia.
Qed.

(** A leaf's indices are entries, and fit. *)
Lemma leaf_indices l : l ∈ leaves -> Forall (fun x => (x < length entries)%nat) l /\ l <> [] /\
  (80 + length l * 8 + sum_list_with (fun i => default 0%nat (ae_record_size <$> entries !! i)) l <= bs)%nat.
Proof.
  intros Hl. split; [|split].
  - apply Forall_forall. intros x Hx. assert (x ∈ concat leaves) as Hc by (apply list_elem_of_In, in_concat; exists l; split; by apply list_elem_of_In).
    rewrite (lg_leaves _ _ _ _ _ _ Hlay) in Hc. apply elem_of_seq in Hc. unfold entries. lia.
  - pose proof (lg_full _ _ _ _ _ _ Hlay) as Hf. rewrite Forall_forall in Hf. by apply Hf.
  - pose proof (lg_fit _ _ _ _ _ _ Hlay) as Hf. rewrite Forall_forall in Hf. specialize (Hf l Hl). fold entries in Hf. unfold need_of in Hf.
    assert (E : sum_list_with (fun i => 8 + default 0 (ae_record_size <$> entries !! i))%nat l = (length l * 8 + sum_list_with (fun i => default 0 (ae_record_size <$> entries !! i)) l)%nat)
      by (clear; induction l as [|x l IH]; cbn [sum_list_with length]; lia). lia.
Qed.

Lemma leaf_block i l : blocks !! i = Some (Leaf l) -> l ∈ leaves.
Proof.
  intros Hi. destruct (lg_tree _ _ _ _ _ _ Hlay) as [_ _ Hleaf Hls _]. pose proof (Hls _ _ Hi) as Hr. destruct (lookup_lt_is_Some_2 leaves (i - first)) as [l' Hl']; [lia|].
  pose proof (Hleaf _ _ Hl') as Hb. replace (first + (i - first))%nat with i in Hb by lia. fold blocks in Hb. assert (l = l') as -> by congruence. by eapply list_elem_of_lookup_2.
Qed.

Lemma highest_hash_ok fuel : forall b, (b < fuel)%nat -> (0 < b < length blocks)%nat -> exists h, highest_hash layout fuel b = Ok h /\ in_u 32 h.
Proof.
  induction fuel as [|fuel IH]; intros b Hf Hb; [lia|]. cbn [highest_hash]. fold blocks. destruct (lookup_lt_is_Some_2 blocks b) as [blk Hblk]; [lia|]. rewrite Hblk. cbn [expect mbind res_bind].
  destruct blk as [l|children level].
  - destruct (leaf_indices l (leaf_block _ _ Hblk)) as (Hin & Hne & _). destruct (list.last l) as [x|] eqn:El; [|by apply last_None in El].
    cbn [expect mbind res_bind]. apply last_Some_elem_of in El. rewrite Forall_forall in Hin. specialize (Hin x El). destruct (lookup_lt_is_Some_2 _ _ Hin) as [e He]. fold entries. rewrite He. cbn [expect mbind res_bind].
    exists (ae_hash e). split; [done|]. pose proof (lg_entries _ _ _ _ _ _ Hlay) as Hg. rewrite Forall_lookup in Hg. apply (Hg _ _ He).
  - destruct (tr_node _ _ _ _ _ (lg_tree _ _ _ _ _ _ Hlay) _ _ _ Hblk) as (Hne & _ & _ & Hc). destruct (list.last children) as [c|] eqn:El; [|by apply last_None in El].
    cbn [expect mbind res_bind]. apply last_Some_elem_of in El. rewrite Forall_forall in Hc. specialize (Hc c El). cbn beta in Hc. apply IH; [lia|]. fold blocks in Hc. lia.
Qed.

Section one_block.
Context (ino start : Z) (Hino : in_u 64 ino).
Let magic_of (b : AttrBlock) : Z := match b with Leaf _ => XFS_ATTR3_LEAF_MAGIC | Node _ _ => XFS_DA3_NODE_MAGIC end.

Lemma place_blkinfo_ok disk_block number block buf : length buf = bs -> exists buf', place_blkinfo sb layout ino disk_block number block buf = Ok buf' /\ length buf' = bs /\
  (forall off m, (56 <= off)%nat -> slice off m buf' = slice off m buf) /\
  slice 0 4 buf' = to_be_bytes 4 (wrap 32 (Z.of_nat (sibling layout block (seq (S number) (length blocks - S number))))) /\
  slice 8 2 buf' = to_be_bytes 2 (magic_of block) /\ slice 16 8 buf' = to_be_bytes 8 disk_block /\ slice 32 16 buf' = sb_meta_uuid sb /\ slice 48 8 buf' = to_be_bytes 8 ino.
Proof.
  intros Hl. pose proof bs_facts as (Hbs & _). pose proof (ty_meta_uuid sb Hty) as Hu. unfold place_blkinfo. fold (magic_of block).
  copied 8%nat 2%nat b1 Hl1 Hs1 Hf1. copied 16%nat 8%nat b2 Hl2 Hs2 Hf2. copied 32%nat 16%nat b3 Hl3 Hs3 Hf3. copied 48%nat 8%nat b4 Hl4 Hs4 Hf4. copied 0%nat 4%nat b5 Hl5 Hs5 Hf5. copied 4%nat 4%nat b6 Hl6 Hs6 Hf6.
  exists b6. split; [done|]. split; [lia|]. split; [intros; by rewrite Hf6, Hf5, Hf4, Hf3, Hf2, Hf1 by lia|].
  split; [by rewrite Hf6, Hs5 by lia|]. split; [by rewrite Hf6, Hf5, Hf4, Hf3, Hf2, Hs1 by lia|]. split; [by rewrite Hf6, Hf5, Hf4, Hf3, Hs2 by lia|].
  split; [by rewrite Hf6, Hf5, Hf4, Hs3 by lia|by rewrite Hf6, Hf5, Hs4 by lia].
Qed.

(** What a leaf or a node says past its header. *)
Definition body_reads (block : AttrBlock) (buf : bytes) : Prop :=
  match block with
  | Leaf l => rd 2 56 buf = Z.of_nat (length l) /\
      forall k x e, l !! k = Some x -> entries !! x = Some e -> exists pos, (80 <= pos /\ pos + ae_record_size e <= bs)%nat /\ entry_placed buf k e pos
  | Node children _ => rd 2 56 buf = Z.of_nat (length children) /\ forall c, head children = Some c -> rd 4 68 buf = Z.of_nat c
  end.

Lemma place_children_ok children : forall buf i, Forall (fun c => 0 < c < length blocks)%nat children -> (64 + (i + length children) * 8 <= length buf)%nat ->
  exists buf', place_children layout buf i children = Ok buf' /\ length buf' = length buf /\ (forall off m, (off + m <= 64 + i * 8)%nat -> slice off m buf' = slice off m buf) /\
    forall c, head children = Some c -> slice (64 + i * 8 + 4) 4 buf' = to_be_bytes 4 (wrap 32 (Z.of_nat c)).
Proof.
  induction children as [|c children IH]; intros buf i Hc Hl; cbn [place_children]; [by exists buf|]. apply Forall_cons in Hc as [Hc Hcs]. cbn [length] in Hl.
  destruct (highest_hash_ok (S (length blocks)) c ltac:(lia) Hc) as (h & Hh & _). fold blocks. rewrite Hh. cbn [mbind res_bind].
  copied (64 + i * 8)%nat 4%nat b1 Hl1 Hs1 Hf1. copied (64 + i * 8 + 4)%nat 4%nat b2 Hl2 Hs2 Hf2.
  destruct (IH b2 (S i) Hcs ltac:(lia)) as (buf' & -> & Hl' & Hf' & _). exists buf'. split; [done|]. split; [lia|]. split.
  - intros off m Ho. by rewrite Hf', Hf2, Hf1 by lia.
  - intros c' [= <-]. by rewrite Hf', Hs2 by lia.
Qed.

Lemma place_block_ok i block buf : blocks !! i = Some block -> length buf = bs -> exists buf', place_block sb layout block buf = Ok buf' /\ length buf' = bs /\
  (forall off m, (off + m <= 56)%nat -> slice off m buf' = slice off m buf) /\ body_reads block buf'.
Proof.
  intros Hi Hl. pose proof bs_facts as (Hbs & _). destruct block as [l|children level]; unfold place_block; fold bs.
  - destruct (leaf_indices l (leaf_block _ _ Hi)) as (Hin & Hne & Hfit). copied 56%nat 2%nat b1 Hl1 Hs1 Hf1.
    assert (Hfit' : (80 + (0 + length l) * 8 + sum_list_with (fun i => default 0%nat (ae_record_size <$> lay_entries layout !! i)) l <= bs)%nat) by exact Hfit.
    assert (Hlb1 : length b1 = bs) by lia. assert (Hbl : (bs <= length b1)%nat) by lia.
    destruct (place_leaf_ok bs Hbs layout (lg_entries _ _ _ _ _ _ Hlay) l b1 0 bs Hin Hfit' Hbl Hlb1) as (b2 & f2 & -> & Hl2 & Hff & Hf2 & Hents). fold entries in Hff.
    cbn [mbind res_bind]. copied 58%nat 2%nat b3 Hl3 Hs3 Hf3. copied 60%nat 2%nat b4 Hl4 Hs4 Hf4. copied 64%nat 2%nat b5 Hl5 Hs5 Hf5. copied 66%nat 2%nat b6 Hl6 Hs6 Hf6.
    exists b6. split; [done|]. split; [lia|]. split; [intros; by rewrite Hf6, Hf5, Hf4, Hf3, Hf2, Hf1 by lia|]. cbn [body_reads]. split.
    + apply rd_of_slice; [|change (256 ^ Z.of_nat 2) with 65536; lia]. rewrite Hf6, Hf5, Hf4, Hf3, Hf2, Hs1 by lia. by rewrite wrap_small by (unfold in_u; lia).
    + intros k x e Hk He. destruct (Hents k x e Hk He) as (pos & Hpos & Hpl). exists pos. split; [lia|]. apply (entry_placed_frame b2); [|exact Hpl]. intros off n Ho. by rewrite Hf6, Hf5, Hf4, Hf3 by lia.
  - destruct (tr_node _ _ _ _ _ (lg_tree _ _ _ _ _ _ Hlay) _ _ _ Hi) as (Hne & Hlv & Hcap & Hc). fold bs in Hcap. pose proof (Nat.Div0.mul_div_le (bs - 64) 8).
    copied 56%nat 2%nat b1 Hl1 Hs1 Hf1. copied 58%nat 2%nat b2 Hl2 Hs2 Hf2.
    destruct (place_children_ok children b2 0) as (b3 & -> & Hl3 & Hf3 & Hfirst); [eapply Forall_impl; [exact Hc|]; fold blocks; cbn beta; lia|lia|].
    exists b3. split; [done|]. split; [lia|]. split; [intros; by rewrite Hf3, Hf2, Hf1 by lia|]. cbn [body_reads]. split.
    + apply rd_of_slice; [|change (256 ^ Z.of_nat 2) with 65536; lia]. rewrite Hf3, Hf2, Hs1 by lia. by rewrite wrap_small by (unfold in_u; lia).
    + intros c Hh. assert (Hcb : (c < length blocks)%nat).
      { destruct children as [|c' cs]; [done|]. injection Hh as ->. apply Forall_cons in Hc as [Hc _]. fold blocks in Hc. lia. }
      pose proof (lg_total _ _ _ _ _ _ Hlay) as Ht. fold blocks in Ht. change BLOCKCOUNT_MAX with (2 ^ 21 - 1) in Ht.
      apply rd_of_slice; [|change (256 ^ Z.of_nat 4) with (2 ^ 32); lia]. etrans; [exact (Hfirst c Hh)|]. by rewrite wrap_small by (unfold in_u; lia).
Qed.

(** The log item of a block, and what recovery leaves of it. *)
Definition good_image (number : nat) (block : AttrBlock) (image : bytes) : Prop :=
  length image = bs /\ body_reads block image /\ rd 2 8 image = magic_of block /\
  rd 4 0 image = Z.of_nat (sibling layout block (seq (S number) (length blocks - S number))) /\
  verify_attr_block sb ino (wadd 64 start (Z.of_nat number)) image = Ok tt.

Lemma sibling_small block candidates : Forall (fun c => (c < length blocks)%nat) candidates -> Z.of_nat (sibling layout block candidates) < 2 ^ 21.
Proof.
  intros Hc. pose proof (lg_total _ _ _ _ _ _ Hlay) as Ht. fold blocks in Ht. change BLOCKCOUNT_MAX with (2 ^ 21 - 1) in Ht. unfold sibling.
  destruct (find _ candidates) as [c|] eqn:E; cbn; [|lia]. apply find_some in E as [E _]. apply list_elem_of_In in E. rewrite Forall_forall in Hc. specialize (Hc c E). lia.
Qed.

Lemma metadata_item_ok number block : blocks !! number = Some block ->
  exists item image, metadata_item sb layout ino start number block = Ok item /\ image_as_written item = Ok image /\ good_image number block image.
Proof.
  intros Hb. pose proof bs_facts as (Hbs & Hm & _). unfold metadata_item. set (disk_block := _ / 512). fold bs.
  destruct (place_blkinfo_ok disk_block number block (replicate bs x00) ltac:(by rewrite length_replicate)) as (h & -> & Hlh & _ & Hnext & Hmag & Hdb & Hu & Hown). cbn [mbind res_bind].
  destruct (place_block_ok number block h Hb Hlh) as (buf & -> & Hl & Hf & Hbody). cbn [mbind res_bind].
  destruct (new_spec disk_block buf (match block with Leaf _ => BLFT_ATTR_LEAF | Node _ _ => BLFT_DA_NODE end) 0) as (item & -> & Hok & Hd & _ & Ht & _); [by rewrite Hl|lia|]. cbn [mbind res_bind].
  destruct (mark_spec item 0 bs Hok ltac:(rewrite Hd, Hl; lia)) as (item' & -> & _ & Hd' & _ & Ht' & _). exists item', (stamped 12 buf). split; [done|]. split.
  { unfold image_as_written. assert (crc_offset item' = Some 12%nat) as -> by (unfold crc_offset; rewrite Ht', Ht; by destruct block). rewrite Hd', Hd. apply (restamp_stamped sb). lia. }
  pose proof (length_dir_stamped 12 buf ltac:(lia)) as Hls.
  assert (Hfr : forall off m, (off + m <= 12 \/ 16 <= off)%nat -> slice off m (stamped 12 buf) = slice off m buf).
  { intros off m Ho. unfold stamped. apply slice_splice_disjoint; rewrite length_to_le_bytes; lia. }
  assert (Hnx : rd 4 0 (stamped 12 buf) = Z.of_nat (sibling layout block (seq (S number) (length blocks - S number))) /\ Z.of_nat (sibling layout block (seq (S number) (length blocks - S number))) < 2 ^ 21).
  { assert (Hsm : Z.of_nat (sibling layout block (seq (S number) (length blocks - S number))) < 2 ^ 21) by (apply sibling_small, Forall_forall; intros c Hc%elem_of_seq; lia).
    split; [|done]. apply rd_of_slice; [|change (256 ^ Z.of_nat 4) with (2 ^ 32); lia]. rewrite Hfr, Hf, Hnext by lia. by rewrite wrap_small by (unfold in_u; lia). }
  destruct Hnx as [Hnx Hsm]. assert (Hmg : rd 2 8 (stamped 12 buf) = magic_of block).
  { apply rd_of_slice; [|by destruct block]. by rewrite Hfr, Hf, Hmag by lia. }
  split; [lia|]. split; [|split; [done|split; [done|]]].
  - destruct block as [l|children level]; cbn [body_reads] in *.
    + destruct Hbody as [Hc He]. split; [unfold rd; rewrite Hfr by lia; done|]. intros k x e Hk Hx. destruct (He k x e Hk Hx) as (pos & Hpos & Hpl). exists pos. split; [done|].
      apply (entry_placed_frame buf); [|done]. intros off n Ho. apply Hfr. lia.
    + destruct Hbody as [Hc He]. split; [unfold rd; rewrite Hfr by lia; done|]. intros c Hh. unfold rd. rewrite Hfr by lia. by apply He.
  - unfold verify_attr_block. rewrite be32_Ok, (be16_Ok _ 8) by lia. cbn [mbind res_bind]. rewrite Hnx, Hmg. rewrite (proj2 (Z.eqb_neq _ XFS_ATTR3_RMT_MAGIC)) by (unfold XFS_ATTR3_RMT_MAGIC; lia).
    assert ((magic_of block =? XFS_ATTR3_LEAF_MAGIC) || (magic_of block =? XFS_DA3_NODE_MAGIC) = true) as -> by (by destruct block). cbn [negb andb fail_if mbind res_bind].
    rewrite le32_Ok, crc32c_with_zeroed_crc_Ok by lia. cbn [mbind res_bind].
    assert (rd_le 4 12 (stamped 12 buf) = zeroed_crc (stamped 12 buf) 12) as ->.
    { unfold stamped. rewrite zeroed_crc_splice by (by rewrite ?length_to_le_bytes; lia). apply rd_le_splice_same; [lia|]. apply zeroed_crc_range. }
    rewrite Z.eqb_refl. cbn [negb fail_if mbind res_bind]. rewrite get_slice_Ok by lia. cbn [mbind res_bind]. rewrite Hfr, Hf, Hu by lia. rewrite bool_decide_eq_true_2 by done. cbn [negb fail_if mbind res_bind].
    rewrite !be64_Ok by lia. cbn [mbind res_bind]. unfold in_u in Hino. rewrite (rd_of_slice 8 48 _ ino) by (rewrite ?Hfr, ?Hf by lia; done || lia). rewrite Z.eqb_refl. cbn [negb fail_if mbind res_bind].
    assert (Hdbr : in_u 64 disk_block) by (apply (blkno_u64 sb Hty)). rewrite (rd_of_slice 8 16 _ disk_block) by (rewrite ?Hfr, ?Hf by lia; done || lia). by rewrite Z.eqb_refl.
Qed.

(** A block of a value: [n] blocks of the value are before it. *)
Definition good_remote (remote : Z) (n : nat) (payload image : bytes) : Prop :=
  length image = bs /\ rd 4 4 image = Z.of_nat (n * (bs - 56)) /\ rd 4 8 image = Z.of_nat (length payload) /\ slice 56 (length payload) image = payload /\
  verify_attr_block sb ino (wadd 64 (wadd 64 start remote) (Z.of_nat n)) image = Ok tt.

Lemma remote_block_ok remote n payload : (length payload <= bs - 56)%nat -> Z.of_nat (n * (bs - 56)) < 2 ^ 32 ->
  exists image, remote_block sb ino start remote n payload = Ok (fsblock_offset sb (wadd 64 (wadd 64 start remote) (Z.of_nat n)), image) /\ good_remote remote n payload image.
Proof.
  intros Hp Hn. pose proof bs_facts as (Hbs & _). pose proof (ty_meta_uuid sb Hty) as Hu. unfold remote_block, good_remote. fold bs. set (address := fsblock_offset sb _). generalize dependent (n * (bs - 56))%nat. intros before Hn.
  assert (Hadr : in_u 64 (address / 512)) by (apply (blkno_u64 sb Hty)). unfold in_u in Hadr, Hino. assert (Hlz : length (replicate bs x00) = bs) by apply length_replicate.
  copied 0%nat 4%nat b1 Hl1 Hs1 Hf1. copied 4%nat 4%nat b2 Hl2 Hs2 Hf2. copied 8%nat 4%nat b3 Hl3 Hs3 Hf3. copied 16%nat 16%nat b4 Hl4 Hs4 Hf4. copied 32%nat 8%nat b5 Hl5 Hs5 Hf5.
  copied 40%nat 8%nat b6 Hl6 Hs6 Hf6. copied 48%nat 8%nat b7 Hl7 Hs7 Hf7. copied 56%nat (length payload) b8 Hl8 Hs8 Hf8.
  rewrite crc32c_with_zeroed_crc_Ok by lia. cbn [mbind res_bind]. rewrite copy_at_Ok by (rewrite length_to_le_bytes; lia). cbn [mbind res_bind].
  change (splice 12 (to_le_bytes 4 (zeroed_crc b8 12)) b8) with (stamped 12 b8). exists (stamped 12 b8). split; [done|].
  pose proof (length_dir_stamped 12 b8 ltac:(lia)) as Hls.
  assert (Hfr : forall off m, (off + m <= 12 \/ 16 <= off)%nat -> slice off m (stamped 12 b8) = slice off m b8).
  { intros off m Ho. unfold stamped. apply slice_splice_disjoint; rewrite length_to_le_bytes; lia. }
  assert (H0 : rd 4 0 (stamped 12 b8) = XFS_ATTR3_RMT_MAGIC) by (apply rd_of_slice; [by rewrite Hfr, Hf8, Hf7, Hf6, Hf5, Hf4, Hf3, Hf2, Hs1 by lia|done]).
  split; [lia|]. split; [|split; [|split]].
  - apply rd_of_slice; [|change (256 ^ Z.of_nat 4) with (2 ^ 32); lia]. rewrite Hfr, Hf8, Hf7, Hf6, Hf5, Hf4, Hf3, Hs2 by lia. by rewrite wrap_small by (unfold in_u; lia).
  - apply rd_of_slice; [|change (256 ^ Z.of_nat 4) with (2 ^ 32); lia]. rewrite Hfr, Hf8, Hf7, Hf6, Hf5, Hf4, Hs3 by lia. by rewrite wrap_small by (unfold in_u; lia).
  - by rewrite Hfr, Hs8 by lia.
  - unfold verify_attr_block. rewrite be32_Ok, (be16_Ok _ 8) by lia. cbn [mbind res_bind]. rewrite H0, Z.eqb_refl. cbn [negb andb fail_if mbind res_bind].
    rewrite le32_Ok, crc32c_with_zeroed_crc_Ok by lia. cbn [mbind res_bind].
    assert (rd_le 4 12 (stamped 12 b8) = zeroed_crc (stamped 12 b8) 12) as ->.
    { unfold stamped. rewrite zeroed_crc_splice by (by rewrite ?length_to_le_bytes; lia). apply rd_le_splice_same; [lia|]. apply zeroed_crc_range. }
    rewrite Z.eqb_refl. cbn [negb fail_if mbind res_bind]. rewrite get_slice_Ok by lia. cbn [mbind res_bind].
    assert (slice 16 16 (stamped 12 b8) = sb_meta_uuid sb) as -> by (by rewrite Hfr, Hf8, Hf7, Hf6, Hf5, Hs4 by lia).
    rewrite bool_decide_eq_true_2 by done. cbn [negb fail_if mbind res_bind]. rewrite !be64_Ok by lia. cbn [mbind res_bind].
    rewrite (rd_of_slice 8 32 _ ino) by (rewrite ?Hfr, ?Hf8, ?Hf7, ?Hf6 by lia; done || lia). rewrite Z.eqb_refl. cbn [negb fail_if mbind res_bind].
    rewrite (rd_of_slice 8 40 _ (address / 512)) by (rewrite ?Hfr, ?Hf8, ?Hf7 by lia; done || lia). by rewrite Z.eqb_refl.
Qed.

(** ** The reader *)

Section read_back.
Context (Hv5 : is_v5 sb = true) (read : Z -> nat -> res bytes).
Context (Hstart : 0 <= start /\ start + lay_total layout <= 2 ^ 52).
Let extents : list Extent := [mkExtent 0 start (lay_total layout) false].

(** The device has the run's blocks as they were built. *)
Definition device_holds : Prop :=
  (forall number block item image, blocks !! number = Some block -> metadata_item sb layout ino start number block = Ok item -> image_as_written item = Ok image ->
    read (fsblock_offset sb (wadd 64 start (Z.of_nat number))) bs = Ok image) /\
  (forall written address image, remote_blocks sb layout ino start = Ok written -> (address, image) ∈ written -> read address bs = Ok image).
Context (Hdev : device_holds).

Lemma partition_point_one {A} (p : A -> bool) x : partition_point p [x] = if p x then 1%nat else 0%nat.
Proof. reflexivity. Qed.

Lemma attr_block_at dablk image : 0 <= dablk < lay_total layout -> read (fsblock_offset sb (wadd 64 start dablk)) bs = Ok image ->
  verify_attr_block sb ino (wadd 64 start dablk) image = Ok tt -> attr_block sb read ino extents dablk = Ok image.
Proof.
  intros Hd Hr Hv. pose proof (lg_total _ _ _ _ _ _ Hlay) as Ht. change BLOCKCOUNT_MAX with (2 ^ 21 - 1) in Ht.
  assert (Hend : end_offset (mkExtent 0 start (lay_total layout) false) = lay_total layout) by (unfold end_offset; cbn [startoff blockcount]; by rewrite wadd_small by (cbn; lia)).
  assert (Hc : contains (mkExtent 0 start (lay_total layout) false) dablk = true) by (unfold contains; rewrite Hend; cbn [startoff]; apply andb_true_iff; split; [apply Z.leb_le|apply Z.ltb_lt]; lia).
  assert (Hlk : Extent.lookup extents dablk = Some (mkExtent 0 start (lay_total layout) false)).
  { unfold Extent.lookup, extents. rewrite partition_point_one, Hend, (proj2 (Z.leb_gt _ _)) by lia.
    transitivity (if contains (mkExtent 0 start (lay_total layout) false) dablk then Some (mkExtent 0 start (lay_total layout) false) else None); [done|by rewrite Hc]. }
  unfold attr_block. rewrite Hlk. cbn [ok_or mbind res_bind].
  unfold Extent.map. rewrite Hc. cbn [expect mbind res_bind startblock startoff]. rewrite wsub_small, Z.sub_0_r by lia. unfold read_block_at. fold bs. rewrite Hr. cbn [mbind res_bind].
  rewrite Hv5, Hv. done.
Qed.

Lemma metadata_read number block : blocks !! number = Some block -> exists image, attr_block sb read ino extents (Z.of_nat number) = Ok image /\ good_image number block image.
Proof.
  intros Hb. destruct (metadata_item_ok number block Hb) as (item & image & Hi & Him & Hg). exists image. split; [|done].
  pose proof (lg_total _ _ _ _ _ _ Hlay) as Ht. fold blocks in Ht. apply lookup_lt_Some in Hb as Hlt. destruct Hdev as [Hm _].
  apply attr_block_at; [lia|by eapply Hm|apply Hg].
Qed.

(** Everything a value needs is among the blocks written. *)
Lemma written_ok : exists written, remote_blocks sb layout ino start = Ok written.
Proof.
  pose proof bs_facts as (Hbs & _). unfold remote_blocks. fold bs entries. apply res_map_total_Ok, Forall_forall. intros [e [n c]] Hx. apply list_elem_of_bind in Hx as (e' & Hx & He').
  apply list_elem_of_fmap in Hx as ([n' c'] & [= <- <- <-] & Hn). apply list_elem_of_lookup_1 in Hn as [k Hn]. rewrite list_lookup_imap in Hn. apply fmap_Some in Hn as (c2 & Hc & [= -> ->]).
  apply list_elem_of_In, filter_In in He' as [He%list_elem_of_In _]. pose proof (lg_entries _ _ _ _ _ _ Hlay) as Hg. rewrite Forall_forall in Hg. specialize (Hg e He).
  pose proof (eg_value _ _ Hg) as Hv. unfold XFS_ATTR_VALUE_MAX in Hv. destruct (chunks_spec (bs - 56) (ae_value e)) as (_ & Hch & Hsl); [lia|]. rewrite Forall_forall in Hch.
  destruct (Hch c2) as [_ Hcl]; [by eapply list_elem_of_lookup_2|]. destruct (Hsl _ _ Hc) as [_ Hlt]. destruct (remote_block_ok (ae_remote e) k c2 Hcl) as (image & Hb & _); [lia|]. cbn [fst snd]. by eexists.
Qed.

Lemma remote_blocks_elem written e k c address image : remote_blocks sb layout ino start = Ok written -> e ∈ entries -> ae_local e = false -> chunks (bs - 56) (ae_value e) !! k = Some c ->
  remote_block sb ino start (ae_remote e) k c = Ok (address, image) -> (address, image) ∈ written.
Proof.
  intros Hw%res_map_Ok He Hl Hc Hb. assert (Hin : (e, (k, c)) ∈ (e ← List.filter (fun e => negb (ae_local e)) (lay_entries layout); (fun p => (e, p)) <$> imap pair (chunks (bs - 56) (ae_value e)))).
  { apply list_elem_of_bind. exists e. split; [|apply list_elem_of_In, filter_In; split; [by apply list_elem_of_In|by rewrite Hl]]. apply list_elem_of_fmap. exists (k, c). split; [done|].
    apply (list_elem_of_lookup_2 _ k). by rewrite list_lookup_imap, Hc. }
  apply list_elem_of_lookup_1 in Hin as [i Hi]. destruct (Forall2_lookup_l _ _ _ _ _ Hw Hi) as (x & Hx & Hbx). cbn [fst snd] in Hbx. rewrite Hb in Hbx. apply Ok_inj in Hbx as <-. by eapply list_elem_of_lookup_2.
Qed.

(** The value of an entry that is not in its leaf. *)
Section remote.
Context (e : AttrEntry) (He : e ∈ entries) (Hnl : ae_local e = false).
Let space := (bs - 56)%nat.
Let len := length (ae_value e).

Lemma space_big : (456 <= space)%nat.
Proof. pose proof bs_facts as (Hbs & _). unfold space. lia. Qed.

Lemma remote_facts : Z.of_nat len <= 65536 /\ Z.of_nat (length blocks) <= ae_remote e /\ ae_remote e + Z.of_nat (div_ceil len space) <= lay_total layout.
Proof.
  pose proof (lg_entries _ _ _ _ _ _ Hlay) as Hg. rewrite Forall_forall in Hg. specialize (Hg e He). pose proof (eg_value _ _ Hg) as Hv.
  pose proof (lg_remote _ _ _ _ _ _ Hlay) as Hr. rewrite Forall_forall in Hr. specialize (Hr e He). cbn beta in Hr. by destruct (Hr Hnl).
Qed.

Lemma remote_written k c : chunks space (ae_value e) !! k = Some c -> exists image,
  attr_block sb read ino extents (wadd 64 (ae_remote e) (Z.of_nat k)) = Ok image /\ good_remote (ae_remote e) k c image.
Proof.
  intros Hk. pose proof space_big as Hsp. destruct remote_facts as (Hlen & Hlo & Hhi). destruct (chunks_spec space (ae_value e)) as (_ & Hch & Hsl); [lia|].
  rewrite Forall_forall in Hch. destruct (Hch c) as [_ Hcl]; [by eapply list_elem_of_lookup_2|]. destruct (Hsl _ _ Hk) as [_ Hlt]. fold len in Hlt.
  pose proof (lg_total _ _ _ _ _ _ Hlay) as Ht. change BLOCKCOUNT_MAX with (2 ^ 21 - 1) in Ht.
  assert (Hkc : (k < div_ceil len space)%nat) by (unfold len; rewrite <- length_chunks by lia; by eapply lookup_lt_Some).
  assert (Hok : forall k c, chunks space (ae_value e) !! k = Some c -> Z.of_nat (k * (bs - 56)) < 2 ^ 32) by (intros k' c' Hk'; destruct (Hsl _ _ Hk') as [_ Hx]; fold len in Hx; fold space; lia).
  destruct (remote_block_ok (ae_remote e) k c Hcl (Hok _ _ Hk)) as (image & Hb & Hg). exists image. split; [|done].
  assert (Hsum : wadd 64 start (wadd 64 (ae_remote e) (Z.of_nat k)) = wadd 64 (wadd 64 start (ae_remote e)) (Z.of_nat k)) by (rewrite !wadd_small by (rewrite ?wadd_small by lia; lia); lia).
  apply attr_block_at; [rewrite wadd_small by lia; lia|rewrite Hsum|rewrite Hsum; apply Hg].
  destruct Hdev as [_ Hr]. destruct written_ok as [written Hw]. apply (Hr written); [done|]. by eapply remote_blocks_elem.
Qed.

Lemma remote_loop_read k n value : (k + n = div_ceil len space)%nat -> value = take (k * space) (ae_value e) ->
  remote_loop sb read ino extents (ae_remote e) len (seq k n) value = Ok (ae_value e).
Proof.
  pose proof space_big as Hsp. pose proof (div_ceil_bounds len space ltac:(lia)) as Hdc. destruct remote_facts as (Hlen & _ & _). revert k value. induction n as [|n IH]; intros k value Hk ->; cbn [seq remote_loop].
  { rewrite take_ge; [done|]. fold len. nia. }
  destruct (lookup_lt_is_Some_2 (chunks space (ae_value e)) k) as [c Hc]; [rewrite length_chunks by lia; fold len; lia|]. destruct (remote_written k c Hc) as (image & -> & Hg). cbn [mbind res_bind].
  destruct (chunks_spec space (ae_value e)) as (_ & _ & Hsl); [lia|]. destruct (Hsl _ _ Hc) as [Ec Hlt]. fold len in Ec, Hlt. destruct Hg as (Hl & Hoff & Hcnt & Hpay & _).
  rewrite Hv5. fold bs. unfold XFS_ATTR3_RMT_HDR_SIZE. fold space in Hoff |- *. assert (Hlc : length c = Nat.min space (len - k * space)) by (rewrite Ec; apply length_slice; fold len; lia).
  rewrite length_take. fold len. replace (Nat.min (k * space) len) with (k * space)%nat by lia. replace (Nat.min (len - k * space) space) with (length c) by lia.
  unfold space in *. rewrite (be32_Ok image 4) by lia. cbn [mbind res_bind]. rewrite Hoff, Z.eqb_refl. cbn [negb]. rewrite (be32_Ok image 8) by lia. cbn [mbind res_bind]. rewrite Hcnt, Z.eqb_refl. cbn [negb fail_if mbind res_bind].
  rewrite get_slice_Ok by lia. cbn [mbind res_bind]. rewrite Hpay. apply IH; [lia|]. rewrite Ec.
  destruct (Nat.le_gt_cases (bs - 56) (len - k * (bs - 56))) as [Hle|Hgt].
  - rewrite Nat.min_l by lia. unfold slice. rewrite take_take_drop. f_equal. lia.
  - rewrite Nat.min_r by lia. unfold slice. rewrite take_take_drop. rewrite !take_ge; [done|fold len; lia|fold len; lia].
Qed.

Lemma remote_value_read : remote_value sb read ino extents (ae_remote e) (Z.of_nat len) = Ok (ae_value e).
Proof.
  destruct remote_facts as (Hlen & _ & _). unfold remote_value. rewrite (proj2 (Z.ltb_ge _ _)) by (unfold XFS_ATTR_VALUE_MAX; lia). cbn [fail_if mbind res_bind]. rewrite Nat2Z.id, Hv5. fold bs.
  change (rmt_blocks len bs true) with (div_ceil len space). rewrite (remote_loop_read 0) by done. cbn [mbind res_bind]. fold len. rewrite Nat.eqb_refl. done.
Qed.
End remote.

(** One entry, whether its value is beside it or not. *)
Lemma flags_local e : a_namespace (ae_namespace e) -> negb (Z.land (flags_of e) attr_flags.LOCAL =? 0) = ae_local e.
Proof. intros Hn. unfold flags_of. destruct Hn as [-> | [-> | [-> | ->]]]; by destruct (ae_local e). Qed.

Lemma flags_name e : a_namespace (ae_namespace e) -> full_name ino (flags_of e) (ae_name e) = Ok (Some (prefix_of (ae_namespace e) ++ ae_name e)).
Proof. intros Hn. unfold flags_of. destruct (ae_local e); apply full_name_stored; auto. rewrite Z.lor_0_r. by left. Qed.

Lemma entry_read image slot e pos : length image = bs -> e ∈ entries -> (pos + ae_record_size e <= bs)%nat -> entry_placed image slot e pos ->
  (if negb (Z.land (flags_of e) attr_flags.LOCAL =? 0) then local_entry ino image (flags_of e) pos else remote_entry sb read ino extents image (flags_of e) pos) = Ok [attr_of e].
Proof.
  intros Hl He Hfit [_ Hrec]. pose proof (lg_entries _ _ _ _ _ _ Hlay) as Hg. rewrite Forall_forall in Hg. specialize (Hg e He). pose proof bs_facts as (Hbs & _).
  pose proof (length_record_bytes bs e Hg) as Hlr. pose proof Hg as [Hns Hn Hv _ _ Hsm]. unfold XFS_ATTR_VALUE_MAX in Hv. rewrite flags_local by done.
  assert (Hs : forall off m, (off + m <= length (rec_bytes e))%nat -> slice (pos + off) m image = slice off m (rec_bytes e)) by (intros off m Ho; by rewrite <- Hrec, slice_slice by done).
  unfold rec_bytes in Hs, Hlr. destruct (ae_local e) eqn:El.
  - specialize (Hsm eq_refl). assert (Z.of_nat (length (ae_value e)) < 2 ^ 16) by (pose proof (Nat.Div0.mul_div_le bs 2); lia). rewrite !length_app, !length_to_be_bytes in Hs, Hlr.
    unfold local_entry, leaf_name_local.NAMEVAL. rewrite get_range_in by lia. cbn [ok_or mbind res_bind].
    assert (Hh : slice pos 3 image = to_be_bytes 2 (Z.of_nat (length (ae_value e))) ++ to_be_bytes 1 (Z.of_nat (length (ae_name e)))).
    { rewrite <- (Nat.add_0_r pos), Hs by lia. rewrite app_assoc. apply slice_head. by rewrite length_app, !length_to_be_bytes. }
    rewrite Hh. unfold leaf_name_local.VALUELEN, leaf_name_local.NAMELEN. rewrite be16_Ok, byte_at_Ok by (rewrite length_app, !length_to_be_bytes; lia). cbn [mbind res_bind].
    rewrite (rd_of_slice 2 0 _ (Z.of_nat (length (ae_value e)))) by (apply slice_head; by rewrite length_to_be_bytes) || (change (256 ^ Z.of_nat 2) with (2 ^ 16); lia).
    rewrite (rd_of_slice 1 2 _ (Z.of_nat (length (ae_name e)))) by (apply slice_app_r; by rewrite length_to_be_bytes) || (change (256 ^ Z.of_nat 1) with 256; lia).
    rewrite !Nat2Z.id, get_range_in by lia. cbn [ok_or mbind res_bind]. rewrite Hs by lia.
    assert (Hnv : slice 3 (length (ae_name e) + length (ae_value e)) (to_be_bytes 2 (Z.of_nat (length (ae_value e))) ++ to_be_bytes 1 (Z.of_nat (length (ae_name e))) ++ ae_name e ++ ae_value e) = ae_name e ++ ae_value e).
    { rewrite app_assoc. apply slice_app_r; by rewrite length_app, ?length_to_be_bytes. }
    rewrite Hnv, get_slice_Ok by (rewrite length_app; lia). cbn [mbind res_bind]. rewrite slice_app_l by done. rewrite flags_name by done. cbn [mbind res_bind reported]. by rewrite drop_app_length.
  - rewrite !length_app, !length_to_be_bytes in Hs, Hlr. pose proof (remote_facts e He El) as (_ & Hr0 & Hr1). pose proof (lg_total _ _ _ _ _ _ Hlay) as Ht. change BLOCKCOUNT_MAX with (2 ^ 21 - 1) in Ht.
    unfold remote_entry, leaf_name_remote.NAME. rewrite get_range_in by lia. cbn [ok_or mbind res_bind].
    assert (Hh : slice pos 9 image = to_be_bytes 4 (ae_remote e) ++ to_be_bytes 4 (Z.of_nat (length (ae_value e))) ++ to_be_bytes 1 (Z.of_nat (length (ae_name e)))).
    { rewrite <- (Nat.add_0_r pos), Hs by lia. rewrite (app_assoc (to_be_bytes 4 _)), (app_assoc _ (to_be_bytes 1 _)). rewrite <- (app_assoc (to_be_bytes 4 _)). apply slice_head. by rewrite !length_app, !length_to_be_bytes. }
    rewrite Hh. unfold leaf_name_remote.VALUEBLK, leaf_name_remote.VALUELEN, leaf_name_remote.NAMELEN. rewrite !be32_Ok, byte_at_Ok by (rewrite !length_app, !length_to_be_bytes; lia). cbn [mbind res_bind].
    rewrite (rd_of_slice 4 0 _ (ae_remote e)) by (apply slice_head; by rewrite length_to_be_bytes) || (change (256 ^ Z.of_nat 4) with (2 ^ 32); lia).
    rewrite (rd_of_slice 4 4 _ (Z.of_nat (length (ae_value e)))) by (apply slice_between; by rewrite length_to_be_bytes) || (change (256 ^ Z.of_nat 4) with (2 ^ 32); lia).
    rewrite (rd_of_slice 1 8 _ (Z.of_nat (length (ae_name e)))) by (rewrite app_assoc; apply slice_app_r; by rewrite ?length_app, !length_to_be_bytes) || (change (256 ^ Z.of_nat 1) with 256; lia).
    rewrite !Nat2Z.id, get_range_in by lia. cbn [ok_or mbind res_bind]. rewrite Hs by lia.
    assert (Hnv : slice 9 (length (ae_name e)) (to_be_bytes 4 (ae_remote e) ++ to_be_bytes 4 (Z.of_nat (length (ae_value e))) ++ to_be_bytes 1 (Z.of_nat (length (ae_name e))) ++ ae_name e) = ae_name e).
    { rewrite !app_assoc. apply slice_app_r; by rewrite ?length_app, ?length_to_be_bytes. }
    rewrite Hnv, flags_name by done. cbn [mbind res_bind]. rewrite remote_value_read by done. done.
Qed.

Definition attrs_at (l : list nat) : list Xattr := omap (fun i => attr_of <$> entries !! i) l.

Lemma leaf_entries_from_read image l n : length image = bs -> body_reads (Leaf l) image -> Forall (fun x => (x < length entries)%nat) l ->
  (80 + length l * 8 <= bs)%nat -> forall k, (k + n = length l)%nat -> leaf_entries_from sb read ino extents image 80 (seq k n) = Ok (attrs_at (drop k l)).
Proof.
  intros Hl [_ Hents] Hin Hfit. induction n as [|n IH]; intros k Hk; cbn [seq leaf_entries_from]; [by rewrite drop_ge by lia|].
  destruct (lookup_lt_is_Some_2 l k) as [x Hx]; [lia|]. rewrite (drop_S _ _ _ Hx). unfold attrs_at. cbn [omap list_omap]. fold (attrs_at (drop (S k) l)).
  destruct (lookup_lt_is_Some_2 entries x) as [e He]; [rewrite Forall_lookup in Hin; by apply (Hin k)|]. rewrite He. cbn [fmap option_fmap option_map].
  destruct (Hents k x e Hx He) as (pos & Hpos & Hpl). pose proof bs_facts as (Hbs & _). pose proof Hpl as [Hidx _]. unfold XFS_ATTR_LEAF_ENTRY_SIZE, attr_leaf_entry.NAMEIDX, attr_leaf_entry.FLAGS.
  rewrite be16_Ok, byte_at_Ok by lia. cbn [mbind res_bind].
  assert (Hsl : forall off m, (off + m <= 7)%nat -> slice (80 + k * 8 + off) m image = slice off m (idx_bytes e pos)) by (intros off m Ho; by rewrite <- Hidx, slice_slice by done).
  assert (He' : e ∈ entries) by (by eapply list_elem_of_lookup_2). pose proof (lg_entries _ _ _ _ _ _ Hlay) as Hg. rewrite Forall_forall in Hg. specialize (Hg e He').
  assert (Hsz : (0 < ae_record_size e)%nat) by (destruct Hg as [_ _ _ _ Hr _]; destruct (ae_local e); lia).
  rewrite (rd_of_slice 2 (80 + k * 8 + 4) image (Z.of_nat pos)) by (rewrite Hsl by lia; apply slice_between; by rewrite length_to_be_bytes) || (change (256 ^ Z.of_nat 2) with 65536; lia).
  assert (Hfx : 0 <= flags_of e < 256 ^ Z.of_nat 1) by (unfold flags_of; destruct (eg_namespace _ _ Hg) as [-> | [-> | [-> | ->]]]; destruct (ae_local e); split; by vm_compute).
  rewrite (rd_of_slice 1 (80 + k * 8 + 6) image (flags_of e)) by (rewrite ?Hsl by lia; (unfold idx_bytes; rewrite app_assoc; apply slice_app_r; by rewrite ?length_app, !length_to_be_bytes) || done).
  rewrite Nat2Z.id, (entry_read image k e pos) by (done || lia). cbn [mbind res_bind]. rewrite IH by lia. done.
Qed.

Lemma leaf_entries_read image i l : blocks !! i = Some (Leaf l) -> good_image i (Leaf l) image -> leaf_entries sb read ino extents image = Ok (attrs_at l).
Proof.
  intros Hi (Hl & Hbody & _). destruct (leaf_indices l (leaf_block _ _ Hi)) as (Hin & _ & Hfit). pose proof bs_facts as (Hbs & _). pose proof Hbody as [Hc _].
  unfold leaf_entries. rewrite Hv5. unfold leaf_hdr_v5.COUNT, leaf_hdr_size, XFS_ATTR3_LEAF_HDR_SIZE, XFS_ATTR_LEAF_ENTRY_SIZE. rewrite be16_Ok by lia. cbn [mbind res_bind]. rewrite Hc, Nat2Z.id.
  rewrite (proj2 (Nat.ltb_ge _ _)) by lia. cbn [fail_if mbind res_bind]. by rewrite (leaf_entries_from_read image l) by (done || lia).
Qed.

(** The leaf after a leaf of the chain: the next block, or none. *)
Lemma next_leaf j l : leaves !! j = Some l ->
  sibling layout (Leaf l) (seq (S (first + j)) (length blocks - S (first + j))) = (if (S j <? length leaves)%nat then S (first + j) else 0)%nat.
Proof.
  intros Hj. destruct (lg_tree _ _ _ _ _ _ Hlay) as [_ _ Hleaf Hls _]. fold blocks in Hleaf, Hls. unfold sibling. fold blocks. destruct (Nat.ltb_spec (S j) (length leaves)) as [Hlt|Hge].
  - destruct (lookup_lt_is_Some_2 leaves (S j) Hlt) as [l' Hl']. pose proof (Hleaf _ _ Hl') as Hb. apply lookup_lt_Some in Hb as Hlb.
    replace (length blocks - S (first + j))%nat with (S (length blocks - S (first + j) - 1)) by lia. cbn [seq find]. replace (first + S j)%nat with (S (first + j)) in Hb by lia. by rewrite Hb.
  - destruct (find _ _) as [c|] eqn:E; [|done]. apply find_some in E as [Hc Hs]. apply in_seq in Hc. destruct (blocks !! c) as [[l'|ch lv]|] eqn:Eb; [|done|done]. apply Hls in Eb. lia.
Qed.

Lemma leaf_chain_read n : forall j l image, leaves !! j = Some l -> (length leaves - j <= n)%nat -> good_image (first + j) (Leaf l) image ->
  leaf_chain sb read ino extents n (Z.of_nat (first + j)) image = Ok (attrs_at (concat (drop j leaves))).
Proof.
  induction n as [|n IH]; intros j l image Hj Hn Hg; apply lookup_lt_Some in Hj as Hlt; [lia|]. cbn [leaf_chain]. destruct (lg_tree _ _ _ _ _ _ Hlay) as [_ _ Hleaf _ _]. fold blocks in Hleaf.
  pose proof (leaf_entries_read image _ l (Hleaf _ _ Hj) Hg) as Hle. destruct Hg as (Hl & _ & Hmag & Hfw & _). pose proof bs_facts as (Hbs & _). rewrite (next_leaf j l Hj) in Hfw.
  rewrite (be16_Ok image da_blkinfo.MAGIC) by (unfold da_blkinfo.MAGIC; lia). cbn [mbind res_bind]. unfold da_blkinfo.MAGIC. rewrite Hmag. cbn [magic_of]. rewrite Z.eqb_refl. cbn [negb andb fail_if mbind res_bind].
  rewrite Hle. cbn [mbind res_bind]. rewrite (be32_Ok image da_blkinfo.FORW) by (unfold da_blkinfo.FORW; lia). cbn [mbind res_bind]. unfold da_blkinfo.FORW. rewrite Hfw.
  rewrite (drop_S _ _ _ Hj). cbn [concat]. unfold attrs_at. rewrite omap_app. fold (attrs_at l) (attrs_at (concat (drop (S j) leaves))). destruct (Nat.ltb_spec (S j) (length leaves)) as [Hnext|Hlast].
  - rewrite (proj2 (Z.eqb_neq _ 0)) by lia. destruct (lookup_lt_is_Some_2 leaves (S j) Hnext) as [l' Hl']. pose proof (Hleaf _ _ Hl') as Hb. replace (first + S j)%nat with (S (first + j)) in Hb by lia.
    destruct (metadata_read _ _ Hb) as (image' & Ha & Hg'). fold extents in Ha. rewrite Ha. cbn [mbind res_bind]. replace (S (first + j)) with (first + S j)%nat in * by lia. rewrite (IH (S j) l') by (done || lia). done.
  - rewrite (drop_ge leaves (S j)) by lia. cbn. by rewrite app_nil_r.
Qed.

Lemma leftmost_read k n a image block : goes_down blocks k a first -> (k < n)%nat -> blocks !! a = Some block -> good_image a block image ->
  exists image' l, leftmost sb read ino extents n (Z.of_nat a) image = Ok (Z.of_nat first, image') /\ leaves !! 0%nat = Some l /\ good_image first (Leaf l) image'.
Proof.
  pose proof bs_facts as (Hbs & _). revert n a image block. induction k as [|k IH]; intros n a image block Hd Hk Ha Hg; (destruct n as [|n]; [lia|]); cbn [leftmost].
  - cbn in Hd. subst a. destruct (lg_blocks _ _ _ _ _ _ Hlay) as [Hne _]. destruct (lookup_lt_is_Some_2 leaves 0) as [l Hl]; [destruct leaves; [done|cbn; lia]|].
    destruct (lg_tree _ _ _ _ _ _ Hlay) as [_ _ Hleaf _ _]. fold blocks in Hleaf. pose proof (Hleaf _ _ Hl) as Hb. rewrite Nat.add_0_r in Hb. assert (block = Leaf l) as -> by congruence.
    exists image, l. destruct Hg as (Hlen & ? & Hmag & ?). rewrite (be16_Ok image da_blkinfo.MAGIC) by (unfold da_blkinfo.MAGIC; lia). cbn [mbind res_bind]. unfold da_blkinfo.MAGIC. rewrite Hmag. done.
  - destruct Hd as (c & cs & level & Hb & Hd). assert (block = Node (c :: cs) level) as -> by congruence. destruct Hg as (Hlen & [Hcnt Hfst] & Hmag & _).
    destruct (tr_node _ _ _ _ _ (lg_tree _ _ _ _ _ _ Hlay) _ _ _ Hb) as (_ & _ & _ & Hc). apply Forall_cons in Hc as [[Hc _] _]. fold blocks in Hc. destruct (lookup_lt_is_Some_2 blocks c Hc) as [blk Hblk].
    rewrite (be16_Ok image da_blkinfo.MAGIC) by (unfold da_blkinfo.MAGIC; lia). cbn [mbind res_bind]. unfold da_blkinfo.MAGIC. rewrite Hmag. cbn [magic_of]. rewrite Z.eqb_refl. cbn [negb andb].
    rewrite Hv5. unfold node_hdr_v5.COUNT, node_hdr_size, XFS_DA3_NODE_HDR_SIZE, attr_node_entry.BEFORE. rewrite (be16_Ok image 56) by lia. cbn [mbind res_bind]. rewrite Hcnt. cbn [length]. rewrite (proj2 (Z.eqb_neq _ 0)) by lia.
    cbn [fail_if mbind res_bind]. rewrite get_range_in by lia. cbn [ok_or mbind res_bind]. change (from_be_bytes (slice (64 + 4) 4 image)) with (rd 4 68 image). rewrite (Hfst c eq_refl).
    destruct (metadata_read _ _ Hblk) as (image' & Hat & Hg'). fold extents in Hat. rewrite Hat. cbn [mbind res_bind]. by apply (IH n c image' blk); [|lia| |].
Qed.

Lemma attrs_at_all : attrs_at (seq 0 (length entries)) = attr_of <$> entries.
Proof.
  assert (H : forall k n, (k + n = length entries)%nat -> attrs_at (seq k n) = attr_of <$> drop k entries).
  { intros k n. revert k. induction n as [|n IH]; intros k Hk; [by rewrite drop_ge by lia|]. destruct (lookup_lt_is_Some_2 entries k) as [e He]; [lia|]. rewrite (drop_S _ _ _ He), fmap_cons, <- (IH (S k)) by lia.
    unfold attrs_at. cbn [seq omap list_omap]. by rewrite He. }
  by apply (H 0%nat).
Qed.

Lemma leaf_attrs_read : leaf_attrs sb read ino extents = Ok (attr_of <$> entries).
Proof.
  destruct (lg_blocks _ _ _ _ _ _ Hlay) as [Hne Hlen]. pose proof (lg_total _ _ _ _ _ _ Hlay) as Ht. change BLOCKCOUNT_MAX with (2 ^ 21 - 1) in Ht. fold blocks in Hlen, Ht.
  assert (Hnl : length leaves <> 0%nat) by (by destruct leaves). destruct (lookup_lt_is_Some_2 blocks 0) as [b0 Hb0]; [lia|].
  unfold leaf_attrs. destruct (metadata_read 0 b0 Hb0) as (image & Hat & Hg). fold extents in Hat. change (Z.of_nat 0) with 0 in Hat. rewrite Hat. cbn [mbind res_bind].
  destruct (lg_tree _ _ _ _ _ _ Hlay) as [Hsteps Hdown _ _ _]. fold blocks in Hdown.
  destruct (leftmost_read steps (Z.to_nat XFS_DA_NODE_MAXDEPTH + 1) 0 image b0 Hdown) as (image' & l & Hlm & Hl & Hg'); [change (Z.to_nat XFS_DA_NODE_MAXDEPTH + 1)%nat with 6%nat; lia|done|done|].
  change (Z.of_nat 0) with 0 in Hlm. rewrite Hlm. cbn [mbind res_bind]. assert (Hfb : fork_blocks extents = lay_total layout) by (unfold fork_blocks, extents; cbn [fold_left blockcount]; by rewrite wadd_small by lia).
  rewrite Hfb. rewrite <- (Nat.add_0_r first) in Hg' |- * at 1. rewrite (leaf_chain_read _ 0 l image' Hl) by (done || lia). rewrite drop_0, (lg_leaves _ _ _ _ _ _ Hlay). fold entries. by rewrite attrs_at_all.
Qed.
End read_back.
End one_block.
End images.

(** ** The fork, read back *)

(** The device has the blocks of a run, each as recovery or the write leaves it. *)
Definition run_on_device `{Crc : Crc32c} (sb : Superblock) (start : Z) (items : list BufferItem) (written : list (Z * bytes)) (read : Z -> nat -> res bytes) : Prop :=
  (forall i item image, items !! i = Some item -> image_as_written item = Ok image ->
    read (fsblock_offset sb (wadd 64 start (Z.of_nat i))) (Z.to_nat (sb_blocksize sb)) = Ok image) /\
  (forall address image, (address, image) ∈ written -> read address (Z.to_nat (sb_blocksize sb)) = Ok image).

Section rebuilt.
Context `{Crc : Crc32c} {Laws : Crc32cLaws}.
Context (sb : Superblock) (Hty : sb_typed sb) (Hgeo : sb_geometry sb) (Hv5 : is_v5 sb = true).

(** C8: An attribute fork laid out for a list of attributes is written without a
    panic, and once its blocks are on the device, listing the fork through the
    single extent the inode then records gives back exactly those attributes:
    every name and value once, whether the value is in its leaf or in blocks of
    its own, and whether the leaves are one or many under a hash tree. *)
Theorem attr_fork_rebuilt_read ci ino start attrs : in_u 64 ino -> 0 <= start < 2 ^ 51 -> attrs <> [] ->
  Forall (fun a => Z.of_nat (length (x_value a)) <= XFS_ATTR_VALUE_MAX) attrs ->
  match Layout_new (Z.to_nat (sb_blocksize sb)) ci attrs with
  | Ok layout => exists items written record,
      metadata sb layout ino start = Ok items /\ remote_blocks sb layout ino start = Ok written /\
      extent_record start (lay_total layout) = Ok record /\ Extent.parse record = Ok (mkExtent 0 start (lay_total layout) false) /\
      forall read, run_on_device sb start items written read ->
        exists out, leaf_attrs sb read ino [mkExtent 0 start (lay_total layout) false] = Ok out /\ out ≡ₚ attrs
  | Err _ => True
  | Panic => False
  end.
Proof.
  intros Hino Hstart Hne Hv. pose proof (bs_facts sb Hgeo) as (Hbs & _). destruct (Layout_new_spec _ ci Hbs attrs Hne Hv) as [Hp Hs].
  destruct (Layout_new _ ci attrs) as [layout|e|]; [|done|done]. destruct (Hs layout eq_refl) as (leaves & first & steps & Hlay).
  pose proof (lg_total _ _ _ _ _ _ Hlay) as Ht. change BLOCKCOUNT_MAX with (2 ^ 21 - 1) in Ht. destruct (lg_blocks _ _ _ _ _ _ Hlay) as [Hln Hlb].
  assert (Hpos : length leaves <> 0%nat) by (by destruct leaves).
  assert (Hm : exists items, metadata sb layout ino start = Ok items).
  { apply res_map_total_Ok, Forall_forall. intros [i b] Hi. apply list_elem_of_lookup_1 in Hi as [k Hk]. rewrite list_lookup_imap in Hk. apply fmap_Some in Hk as (b' & Hb & [= -> ->]).
    destruct (metadata_item_ok sb Hty Hgeo attrs layout leaves first steps Hlay ino start Hino k b' Hb) as (item & _ & Hi & _). by exists item. }
  destruct Hm as [items Hm]. destruct (written_ok sb Hty Hgeo attrs layout leaves first steps Hlay ino start Hino) as [written Hw].
  destruct (Extent.parse_to_bytes (mkExtent 0 start (lay_total layout) false)) as (record & Hr & _ & Hpr); [unfold extent_ok; cbn [startoff startblock blockcount]; lia|].
  exists items, written, record. split; [done|]. split; [done|]. split; [done|]. split; [done|]. intros read [Hd Hdw].
  exists (attr_of <$> lay_entries layout). split; [|by apply (lg_attrs _ _ _ _ _ _ Hlay)].
  apply (leaf_attrs_read sb Hty Hgeo attrs layout leaves first steps Hlay ino start Hino Hv5 read); [lia|]. split.
  - intros number block item image Hb Hi Him. apply (Hd number item image); [|done]. apply res_map_Ok in Hm.
    destruct (Forall2_lookup_l _ _ _ number (number, block) Hm) as (item' & Hi' & Hmi); [by rewrite list_lookup_imap, Hb|]. cbn [fst snd] in Hmi. by rewrite Hi in Hmi; apply Ok_inj in Hmi as <-.
  - intros w address image Hw' Hin. rewrite Hw in Hw'. apply Ok_inj in Hw' as <-. by apply Hdw.
Qed.
End rebuilt.

(** ** A fork with a value outside its leaf *)

Definition sample_attrs : list Xattr := [mkXattr (bstr "user.big") (replicate 600 "z"%byte); mkXattr (bstr "security.c") (bstr "cap")].
Definition sample_layout : Layout := Eval vm_compute in
  match Layout_new (Z.to_nat (sb_blocksize sample_sb)) false sample_attrs with Ok l => l | _ => mkAttrLayout [] [] 0 end.
Definition sample_attr_items : list BufferItem := Eval vm_compute in match metadata sample_sb sample_layout 128 20 with Ok l => l | _ => [] end.
Definition sample_attr_remote : list (Z * bytes) := Eval vm_compute in match remote_blocks sample_sb sample_layout 128 20 with Ok l => l | _ => [] end.
Definition sample_attr_blocks : list (Z * bytes) := Eval vm_compute in
  imap (fun i image => (20 + Z.of_nat i, image)) ((fun item => match image_as_written item with Ok b => b | _ => [] end) <$> sample_attr_items) ++
  imap (fun i p => (20 + Z.of_nat (length sample_attr_items + i), p.2)) sample_attr_remote.

Lemma attr_fork_rebuilt_read_witness : exists out,
  leaf_attrs sample_sb (sample_read sample_attr_blocks) 128 [mkExtent 0 20 (lay_total sample_layout) false] = Ok out /\ out ≡ₚ sample_attrs.
Proof.
  pose proof (attr_fork_rebuilt_read sample_sb sample_typed sample_geometry ltac:(reflexivity) false 128 20 sample_attrs ltac:(by vm_compute) ltac:(by vm_compute) ltac:(done)
    ltac:(repeat constructor; by vm_compute)) as H.
  assert (E : Layout_new (Z.to_nat (sb_blocksize sample_sb)) false sample_attrs = Ok sample_layout) by (vm_compute; reflexivity). rewrite E in H. clear E.
  destruct H as (items & written & record & Hm & Hw & _ & _ & H). apply H. clear H.
  assert (Em : metadata sample_sb sample_layout 128 20 = Ok sample_attr_items) by (vm_compute; reflexivity). rewrite Em in Hm. apply Ok_inj in Hm as <-. clear Em.
  assert (Ew : remote_blocks sample_sb sample_layout 128 20 = Ok sample_attr_remote) by (vm_compute; reflexivity). rewrite Ew in Hw. apply Ok_inj in Hw as <-. clear Ew.
  split.
  - intros [|i] item image Hi Him; [|discriminate]. apply (inj Some) in Hi as <-. rewrite <- Him. vm_compute. reflexivity.
  - intros address image Hin. apply list_elem_of_In in Hin. destruct Hin as [Hin|[Hin|[]]]; apply (f_equal fst) in Hin as Ha; apply (f_equal snd) in Hin; cbn [fst snd] in Ha, Hin; subst; vm_compute; reflexivity.
Defined.
