(* ===== verification/Acl.v ===== *)
(** * POSIX ACLs as they are stored ([src/src/acl.rs])

    An access ACL and the permission bits of the mode are one thing: setting
    either sets the other.  An operation is modelled to the single write it ends
    in ([Write]), which the attribute and inode components carry out.

    The theorems: what is accepted is exactly a POSIX ACL; what is stored is read
    back, here and in the listing; a change of mode, or a mode asked for, is in
    the ACL what it is in the mode; and a stored ACL that the readers accept makes
    [chmod] and the inheritance of a default panic. *)

From Stdlib Require Import ZArith Lia Strings.String Strings.Byte Bool Sorted.
From stdpp Require Import base list sorting strings.
From S2P Require Import Prelude Error Endian Crc32c Superblock Sample Extent Inode Dir DirShort DirLookup Attr AttrWrite.

Definition ACCESS : bytes := bstr "trusted.SGI_ACL_FILE".
Definition DEFAULT : bytes := bstr "trusted.SGI_ACL_DEFAULT".
Inductive AclKind := Access | Default_.
Definition kind_name (kind : AclKind) : bytes := match kind with Access => ACCESS | Default_ => DEFAULT end.
#[global] Instance AclKind_eq_dec : EqDecision AclKind.
Proof. solve_decision. Defined.

Record AclEntry := mkAclEntry { a_tag : Z; a_id : Z; a_perm : Z }.
#[global] Instance AclEntry_eq_dec : EqDecision AclEntry.
Proof. solve_decision. Defined.

(** What a new inode inherits: its mode, the access ACL, the default. *)
Definition Inherited : Type := Z * option bytes * option bytes.

(** ** Checking *)

Definition not_valid (why : string) (a : list arg) : Error := UnsupportedFeature (fmt ("not a valid POSIX ACL: " ++ why) a).

(** Only a named user or group has an id. *)
Definition without_id (e : AclEntry) : AclEntry :=
  mkAclEntry (a_tag e) (if (a_tag e =? tag.USER) || (a_tag e =? tag.GROUP) then a_id e else 0) (a_perm e).
Definition acl_leb (x y : AclEntry) : bool := (a_tag x <? a_tag y) || ((a_tag x =? a_tag y) && (a_id x <=? a_id y)).
Definition tagged (t : Z) (e : AclEntry) : bool := a_tag e =? t.
Definition count (t : Z) (entries : list AclEntry) : nat := length (List.filter (tagged t) entries).
Definition known_tag (t : Z) : bool :=
  (t =? tag.USER_OBJ) || (t =? tag.USER) || (t =? tag.GROUP_OBJ) || (t =? tag.GROUP) || (t =? tag.MASK) || (t =? tag.OTHER).

Fixpoint check_entries (entries : list AclEntry) : res unit :=
  match entries with
  | [] => Ok tt
  | e :: entries =>
      fail_if (negb (known_tag (a_tag e))) (not_valid "the tag {}" [AZ (a_tag e)]);;
      fail_if (7 <? a_perm e) (not_valid "permissions {}" [AZ (a_perm e)]);;
      check_entries entries
  end.

(** [sorted.windows(2).any(..)] *)
Fixpoint named_twice (entries : list AclEntry) : bool :=
  match entries with
  | [] => false
  | a :: entries => match entries with [] => false | b :: _ => (a_tag a =? a_tag b) && (a_id a =? a_id b) end || named_twice entries
  end.

Definition exactly_one (t : Z) (what : string) (entries : list AclEntry) : res unit :=
  fail_if (negb (count t entries =? 1)%nat) (not_valid ("{} " ++ what ++ " entries, not one") [AZ (Z.of_nat (count t entries))]).

Definition valid (entries : list AclEntry) (v5 : bool) : res (list AclEntry) :=
  let sorted := sort_by acl_leb (without_id <$> entries) in
  exactly_one tag.USER_OBJ "owner" sorted;;
  exactly_one tag.GROUP_OBJ "owning group" sorted;;
  exactly_one tag.OTHER "other" sorted;;
  fail_if (1 <? count tag.MASK sorted)%nat (not_valid "more than one mask" []);;
  fail_if ((0 <? count tag.USER sorted + count tag.GROUP sorted)%nat && (count tag.MASK sorted =? 0)%nat) (not_valid "named entries without a mask" []);;
  check_entries sorted;;
  fail_if (named_twice sorted) (not_valid "a user or group named twice" []);;
  fail_if (xfs_acl_max_entries v5 <? length sorted)%nat (not_valid "{} entries" [AZ (Z.of_nat (length sorted))]);;
  Ok sorted.

(** ** The stored form *)

Definition encode_entry (e : AclEntry) : bytes := to_be_bytes 4 (a_tag e) ++ to_be_bytes 4 (a_id e) ++ to_be_bytes 2 (a_perm e) ++ [x00; x00].
Definition encode (entries : list AclEntry) : bytes := to_be_bytes 4 (wrap 32 (Z.of_nat (length entries))) ++ concat (encode_entry <$> entries).

Definition decode_entry (e : bytes) : res AclEntry :=
  t ← be32 e 0;
  id ← be32 e 4;
  perm ← be16 e 8;
  Ok (mkAclEntry t id perm).
Definition decode (stored : bytes) : res (list AclEntry) :=
  fail_if (length stored <? XFS_ACL_HDR_SIZE)%nat (unsupported "a stored ACL shorter than its header");;
  n ← be32 stored 0;
  fail_if (negb (Z.of_nat (length stored) =? Z.of_nat XFS_ACL_HDR_SIZE + n * Z.of_nat XFS_ACL_ENTRY_SIZE)) (unsupported "a stored ACL whose length is not its count's");;
  res_map decode_entry (chunks_exact XFS_ACL_ENTRY_SIZE (drop XFS_ACL_HDR_SIZE stored)).

(** ** The ACL and the mode *)

Fixpoint position_of (t : Z) (entries : list AclEntry) : option nat :=
  match entries with
  | [] => None
  | e :: entries => if tagged t e then Some 0%nat else S <$> position_of t entries
  end.
(** The group-class entry, written with [f]. *)
Definition group_class (f : Z -> Z) (entries : list AclEntry) : res (list AclEntry) :=
  i ← expect (match position_of tag.MASK entries with Some i => Some i | None => position_of tag.GROUP_OBJ entries end);
  e ← expect (entries !! i);
  Ok (<[i := mkAclEntry (a_tag e) (a_id e) (f (a_perm e))]> entries).

Definition perm_of (t : Z) (entries : list AclEntry) : Z := from_option a_perm 0 (find (tagged t) entries).
Definition mode_of (entries : list AclEntry) : Z :=
  let group := if existsb (tagged tag.MASK) entries then perm_of tag.MASK entries else perm_of tag.GROUP_OBJ entries in
  Z.lor (Z.lor (wshl 16 (perm_of tag.USER_OBJ entries) 6) (wshl 16 group 3)) (perm_of tag.OTHER entries).

(** The owner's and the others' entries, written with [owner] and [other]. *)
Definition edit_ends (owner other : Z -> Z) (entries : list AclEntry) : list AclEntry :=
  (fun e => if a_tag e =? tag.USER_OBJ then mkAclEntry (a_tag e) (a_id e) (owner (a_perm e))
            else if a_tag e =? tag.OTHER then mkAclEntry (a_tag e) (a_id e) (other (a_perm e)) else e) <$> entries.

Definition narrowed (entries : list AclEntry) (mode : Z) : res (list AclEntry) :=
  let entries := edit_ends (fun p => Z.land p (Z.land (wshr 16 mode 6) 7)) (fun p => Z.land p (Z.land mode 7)) entries in
  group_class (fun p => Z.land p (Z.land (wshr 16 mode 3) 7)) entries.

(** The entries of an ACL that take new permission bits. *)
Definition chmod_entries (entries : list AclEntry) (bits : Z) : res (list AclEntry) :=
  let entries := edit_ends (fun _ => Z.land (wshr 16 bits 6) 7) (fun _ => Z.land bits 7) entries in
  group_class (fun _ => Z.land (wshr 16 bits 3) 7) entries.

(** ** The operations, to the write each ends in *)

Inductive XattrMode := Set_ | Create | Replace.
Inductive Write :=
  | WriteXattr (name : bytes) (value : option (bytes * XattrMode)) (mode : option Z)
  | SetPermissions (bits : Z).

(** The core [set_permissions] logs. *)
Definition permissions_core (raw : bytes) (bits : Z) (now : Timestamp) : res bytes :=
  old ← be16 raw 2;
  core ← copy_at 2 (to_be_bytes 2 (Z.lor (Z.land old (unot 16 0xFFF)) (Z.land bits 0xFFF))) raw;
  change ← be64 core 104;
  core ← copy_at 104 (to_be_bytes 8 (wadd 64 change 1)) core;
  stamp_change core now Status.

Section operations.
Context `{Crc : Crc32c} (sb : Superblock) (read : Z -> nat -> res bytes).

Definition acl (inode : Inode) (raw : bytes) (kind : AclKind) : res (option (list AclEntry)) :=
  attrs ← list_xattrs sb read inode raw;
  match find (fun a => bool_decide (x_name a = kind_name kind)) attrs with
  | None => Ok None
  | Some a => entries ← decode (x_value a); Ok (Some entries)
  end.

Definition keep_special (mode : Z) : Z := Z.land (Z.land mode (unot 16 0x1FF)) 0xFFF.

Definition set_acl (inode : Inode) (raw : bytes) (kind : AclKind) (entries : list AclEntry) : res Write :=
  entries ← valid entries (is_v5 sb);
  match kind with
  | Default_ =>
      fail_if (negb (is_dir inode)) NotADirectory;;
      Ok (WriteXattr DEFAULT (Some (encode entries, Set_)) None)
  | Access =>
      let bits := Z.lor (keep_special (i_mode inode)) (mode_of entries) in
      stored ← acl inode raw Access;
      if (length entries =? 3)%nat then
        match stored with
        | Some _ => Ok (WriteXattr ACCESS None (Some bits))
        | None => Ok (SetPermissions bits)
        end
      else Ok (WriteXattr ACCESS (Some (encode entries, Set_)) (Some bits))
  end.

Definition chmod (inode : Inode) (raw : bytes) (permissions : Z) : res Write :=
  let bits := Z.land permissions 0xFFF in
  stored ← acl inode raw Access;
  match stored with
  | Some entries =>
      entries ← chmod_entries entries bits;
      Ok (WriteXattr ACCESS (Some (encode entries, Replace)) (Some bits))
  | None => Ok (SetPermissions bits)
  end.

Definition inherited_acl (parent : Inode) (raw : bytes) (mode : Z) (is_directory : bool) : res (option Inherited) :=
  default ← acl parent raw Default_;
  match default with
  | None => Ok None
  | Some default =>
      access ← narrowed default mode;
      let bits := Z.lor (keep_special mode) (mode_of access) in
      Ok (Some (bits, (if (3 <? length access)%nat then Some (encode access) else None), (if is_directory : bool then Some (encode default) else None)))
  end.
End operations.

Definition remove_acl (kind : AclKind) : Write := WriteXattr (kind_name kind) None None.
Definition write_inherited_acl (access default : option bytes) : list Write :=
  (match access with Some b => [WriteXattr ACCESS (Some (b, Create)) None] | None => [] end) ++
  (match default with Some b => [WriteXattr DEFAULT (Some (b, Create)) None] | None => [] end).

(** ** What is accepted *)

Definition key_of (e : AclEntry) : Z * Z := (a_tag e, a_id e).

(** What [posix_acl_valid] asks for. *)
Record posix_acl (l : list AclEntry) : Prop := {
  pa_entries : Forall (fun e => known_tag (a_tag e) = true /\ a_perm e <= 7) l;
  pa_owner : count tag.USER_OBJ l = 1%nat;
  pa_group : count tag.GROUP_OBJ l = 1%nat;
  pa_other : count tag.OTHER l = 1%nat;
  pa_mask : (count tag.MASK l <= 1)%nat;
  pa_named : (0 < count tag.USER l + count tag.GROUP l)%nat -> count tag.MASK l = 1%nat;
  pa_keys : NoDup (key_of <$> l);
}.

Lemma count_Permutation t l l' : l ≡ₚ l' -> count t l = count t l'.
Proof.
  intros Hp. unfold count. induction Hp as [|x l l' H IH|x y l|l l' l'' H IH H' IH']; cbn [List.filter]; [done| | |congruence].
  - destruct (tagged t x); cbn [length]; congruence.
  - by destruct (tagged t x), (tagged t y).
Qed.

Lemma acl_leb_total x y : acl_leb x y = false -> acl_leb y x = true.
Proof. unfold acl_leb. intros H. apply orb_false_iff in H as [H1%Z.ltb_ge H2]. apply orb_true_iff. destruct (Z.eqb_spec (a_tag x) (a_tag y)) as [->|]; [right|left; apply Z.ltb_lt; lia]. cbn [andb] in H2. apply Z.leb_gt in H2. rewrite Z.eqb_refl. apply Z.leb_le. lia. Qed.
Lemma acl_leb_spec x y : acl_leb x y = true <-> a_tag x < a_tag y \/ a_tag x = a_tag y /\ a_id x <= a_id y.
Proof. unfold acl_leb. rewrite orb_true_iff, andb_true_iff, Z.ltb_lt, Z.eqb_eq, Z.leb_le. done. Qed.

Definition acl_sorted : list AclEntry -> Prop := StronglySorted (fun x y => acl_leb x y = true).
Lemma valid_sorted l : acl_sorted (sort_by acl_leb l).
Proof.
  apply Sorted_StronglySorted; [|apply sort_by_Sorted, acl_leb_total]. intros x y z. rewrite !acl_leb_spec. lia.
Qed.

Lemma named_twice_spec l : acl_sorted l -> named_twice l = false <-> NoDup (key_of <$> l).
Proof.
  induction 1 as [|a l Hl IH Ha]; [split; [constructor|done]|]. cbn [named_twice]. rewrite fmap_cons, NoDup_cons, orb_false_iff, IH. split; intros [H1 H2]; (split; [|done]).
  - intros (x & Hk & Hx)%list_elem_of_fmap. destruct l as [|b l]; [by apply elem_of_nil in Hx|]. unfold key_of in Hk. injection Hk as Ht Hi. rewrite Forall_forall in Ha. pose proof (Ha x Hx) as Hax. pose proof (Ha b ltac:(by left)) as Hab.
    assert (Hbx : a_tag b < a_tag x \/ a_tag b = a_tag x /\ a_id b <= a_id x).
    { apply elem_of_cons in Hx as [->|Hx]; [lia|]. apply StronglySorted_inv in Hl as [_ Hb]. rewrite Forall_forall in Hb. by apply acl_leb_spec, Hb. }
    apply acl_leb_spec in Hab. apply andb_false_iff in H1. rewrite !Z.eqb_neq in H1. lia.
  - destruct l as [|b l]; [done|]. apply andb_false_iff. rewrite !Z.eqb_neq. destruct (decide (a_tag a = a_tag b)) as [E|]; [|by left]. right. intros E'. apply H1, list_elem_of_fmap. exists b. split; [unfold key_of; congruence|by left].
Qed.

Lemma check_entries_spec l : check_entries l <> Panic /\ (check_entries l = Ok tt <-> Forall (fun e => known_tag (a_tag e) = true /\ a_perm e <= 7) l).
Proof.
  induction l as [|e l [IHp IH]]; cbn [check_entries]; [by split|]. destruct (known_tag (a_tag e)) eqn:Ek; cbn [negb fail_if mbind res_bind].
  - destruct (Z.ltb_spec 7 (a_perm e)); cbn [fail_if mbind res_bind]; [split; [done|]; split; [done|]; intros [? ?]%Forall_cons; lia|]. split; [done|]. rewrite IH, Forall_cons. naive_solver.
  - split; [done|]. split; [done|]. intros [? ?]%Forall_cons. naive_solver congruence.
Qed.

Lemma valid_spec entries v5 :
  let sorted := sort_by acl_leb (without_id <$> entries) in
  valid entries v5 <> Panic /\ forall l, valid entries v5 = Ok l <-> posix_acl sorted /\ (length sorted <= xfs_acl_max_entries v5)%nat /\ l = sorted.
Proof.
  intros sorted. unfold valid. fold sorted. unfold exactly_one. pose proof (check_entries_spec sorted) as [Hcp Hc]. pose proof (named_twice_spec sorted (valid_sorted _)) as Hn.
  destruct (Nat.eqb_spec (count tag.USER_OBJ sorted) 1) as [Ho|Ho]; cbn [negb fail_if mbind res_bind]; [|split; [done|]; intros l; split; [done|]; intros ([] & _); done].
  destruct (Nat.eqb_spec (count tag.GROUP_OBJ sorted) 1) as [Hg|Hg]; cbn [negb fail_if mbind res_bind]; [|split; [done|]; intros l; split; [done|]; intros ([] & _); done].
  destruct (Nat.eqb_spec (count tag.OTHER sorted) 1) as [Ht|Ht]; cbn [negb fail_if mbind res_bind]; [|split; [done|]; intros l; split; [done|]; intros ([] & _); done].
  destruct (Nat.ltb_spec 1 (count tag.MASK sorted)) as [Hm|Hm]; cbn [fail_if mbind res_bind]; [split; [done|]; intros l; split; [done|]; intros ([] & _); lia|].
  destruct ((0 <? count tag.USER sorted + count tag.GROUP sorted)%nat && (count tag.MASK sorted =? 0)%nat) eqn:En; cbn [fail_if mbind res_bind].
  { apply andb_true_iff in En as [En%Nat.ltb_lt Em%Nat.eqb_eq]. split; [done|]; intros l; split; [done|]; intros ([] & _). naive_solver lia. }
  destruct (check_entries sorted) as [[]|e|]; cbn [mbind res_bind]; [|split; [done|]; intros l; split; [done|]; intros ([He] & _); by apply Hc in He|done].
  destruct (named_twice sorted); cbn [fail_if mbind res_bind]; [split; [done|]; intros l; split; [done|]; intros (Hpa & _); by pose proof (proj2 Hn (pa_keys _ Hpa))|].
  destruct (Nat.ltb_spec (xfs_acl_max_entries v5) (length sorted)); cbn [fail_if mbind res_bind]; [split; [done|]; intros l; split; [done|]; intros (_ & ? & _); lia|].
  split; [done|]. intros l. split; [|intros (_ & _ & ->); done]. intros [= <-]. split; [|done]. constructor; try done; [by apply Hc| |by apply Hn].
  intros H0. apply andb_false_iff in En as [En%Nat.ltb_ge|En%Nat.eqb_neq]; lia.
Qed.

Lemma posix_acl_Permutation l l' : l ≡ₚ l' -> posix_acl l -> posix_acl l'.
Proof. intros Hp [? ? ? ? ? ? ?]. constructor; try (rewrite <- (count_Permutation _ _ _ Hp)); try done; [by rewrite <- Hp| |by rewrite <- Hp]. rewrite <- !(count_Permutation _ _ _ Hp). done. Qed.

(** ** What is stored *)

Definition entry_range (e : AclEntry) : Prop := in_u 32 (a_tag e) /\ in_u 32 (a_id e) /\ in_u 16 (a_perm e).

Lemma length_encode_entry e : length (encode_entry e) = 12%nat.
Proof. unfold encode_entry. by rewrite !length_app, !length_to_be_bytes. Qed.

Lemma decode_encode_entry e : entry_range e -> decode_entry (encode_entry e) = Ok e.
Proof.
  intros (Ht & Hi & Hp). unfold in_u in *. unfold decode_entry. rewrite !be32_Ok, be16_Ok by (rewrite length_encode_entry; lia). cbn [mbind res_bind]. unfold rd, encode_entry.
  rewrite slice_head, slice_between by (by rewrite length_to_be_bytes). rewrite (app_assoc (to_be_bytes 4 (a_tag e))), slice_between by (by rewrite ?length_app, !length_to_be_bytes).
  rewrite !from_to_be_bytes_small by (split; [lia|]; done || (cbn; lia)). by destruct e.
Qed.

Lemma chunks_exact_concat n parts : (0 < n)%nat -> Forall (fun c => length c = n) parts -> chunks_exact n (concat parts) = parts.
Proof.
  intros Hn Hf. unfold chunks_exact. assert (Hl : length (concat parts) = (length parts * n)%nat) by (induction Hf as [|c l Hc Hf IH]; cbn [concat length]; rewrite ?length_app; lia).
  rewrite Hl, Nat.div_mul by lia. apply list_eq. intros i. rewrite list_lookup_fmap. destruct (Nat.lt_ge_cases i (length parts)) as [Hi|Hi].
  - rewrite lookup_seq_lt by done. cbn. clear Hl. revert i Hi. induction Hf as [|c l Hc Hf IH]; intros i Hi; cbn [length] in Hi; [lia|]. cbn [concat]. destruct i as [|i].
    + cbn. f_equal. by apply slice_head.
    + etrans; [|apply (IH i); lia]. f_equal. unfold slice. rewrite drop_app_ge by nia. do 2 f_equal. nia.
  - rewrite lookup_seq_ge by done. symmetry. by apply lookup_ge_None_2.
Qed.

Lemma length_encode l : length (encode l) = (4 + 12 * length l)%nat.
Proof. unfold encode. rewrite length_app, length_to_be_bytes. f_equal. induction l as [|e l IH]; [done|]. rewrite fmap_cons. cbn [concat length]. rewrite length_app, length_encode_entry. lia. Qed.

Lemma encode_head l : Z.of_nat (length l) < 2 ^ 32 -> be32 (encode l) 0 = Ok (Z.of_nat (length l)) /\ chunks_exact 12 (drop 4 (encode l)) = encode_entry <$> l.
Proof.
  intros Hl. split.
  - rewrite be32_Ok by (rewrite length_encode; lia). f_equal. unfold rd, encode. rewrite slice_head by (by rewrite length_to_be_bytes). rewrite wrap_small by (unfold in_u; lia). apply from_to_be_bytes_small. change (256 ^ Z.of_nat 4) with (2 ^ 32). lia.
  - unfold encode. rewrite (drop_app_length' (to_be_bytes 4 _)) by (by rewrite length_to_be_bytes). apply chunks_exact_concat; [lia|]. apply Forall_fmap, Forall_forall. intros e _. apply length_encode_entry.
Qed.

Lemma decode_encode l : Forall entry_range l -> Z.of_nat (length l) < 2 ^ 32 -> decode (encode l) = Ok l.
Proof.
  intros Hr Hl. destruct (encode_head l Hl) as [Hh Hc]. unfold decode, XFS_ACL_HDR_SIZE, XFS_ACL_ENTRY_SIZE. rewrite length_encode. rewrite (proj2 (Nat.ltb_ge _ _)) by lia. cbn [fail_if mbind res_bind]. rewrite Hh. cbn [mbind res_bind].
  rewrite (proj2 (Z.eqb_eq _ _)) by lia. cbn [negb fail_if mbind res_bind]. rewrite Hc. apply res_map_Ok. clear -Hr. induction Hr as [|e l He Hr IH]; [constructor|]. rewrite fmap_cons. constructor; [by apply decode_encode_entry|done].
Qed.

(** An entry as the VFS has it. *)
Definition vfs_entry (e : AclEntry) : bytes :=
  to_le_bytes 2 (a_tag e) ++ to_le_bytes 2 (a_perm e) ++ to_le_bytes 4 (if (a_tag e =? tag.USER) || (a_tag e =? tag.GROUP) then a_id e else ACL_UNDEFINED_ID).
Definition vfs_bytes (l : list AclEntry) : bytes := to_le_bytes 4 POSIX_ACL_XATTR_VERSION ++ concat (vfs_entry <$> l).

Lemma known_cases t : known_tag t = true -> t = tag.USER_OBJ \/ t = tag.USER \/ t = tag.GROUP_OBJ \/ t = tag.GROUP \/ t = tag.MASK \/ t = tag.OTHER.
Proof. unfold known_tag. rewrite !orb_true_iff, !Z.eqb_eq. tauto. Qed.

Lemma vfs_entries_encoded ino l : Forall entry_range l -> Forall (fun e => known_tag (a_tag e) = true) l -> vfs_entries ino (encode_entry <$> l) = Ok (concat (vfs_entry <$> l)).
Proof.
  induction 1 as [|e l He Hr IH]; intros Hk; [done|]. apply Forall_cons in Hk as [Hke Hk]. rewrite !fmap_cons. cbn [vfs_entries concat]. pose proof (decode_encode_entry e He) as Hd. unfold decode_entry in Hd.
  unfold acl_entry.TAG, acl_entry.ID, acl_entry.PERM. destruct (be32 (encode_entry e) 0) as [t| |]; cbn [mbind res_bind] in Hd |- *; [|done..]. destruct (be32 (encode_entry e) 4) as [id| |]; cbn [mbind res_bind] in Hd |- *; [|done..].
  destruct (be16 (encode_entry e) 8) as [p| |]; cbn [mbind res_bind] in Hd |- *; [|done..]. injection Hd as <-. cbn [a_tag a_id a_perm] in *. rewrite IH by done. unfold vfs_entry. cbn [a_tag a_id a_perm].
  apply known_cases in Hke as [-> | [-> | [-> | [-> | [-> | ->]]]]]; cbn [Z.eqb orb tag.USER tag.GROUP]; cbn -[to_le_bytes]; rewrite ?wrap_small by done; by rewrite <- ?app_assoc.
Qed.

Lemma vfs_acl_encoded ino v5 l : Forall entry_range l -> Forall (fun e => known_tag (a_tag e) = true) l -> (length l <= xfs_acl_max_entries v5)%nat -> vfs_acl ino v5 (encode l) = Ok (vfs_bytes l).
Proof.
  intros Hr Hk Hl. assert (Hm : Z.of_nat (xfs_acl_max_entries v5) <= 5461) by (destruct v5; by vm_compute). destruct (encode_head l) as [Hh Hc]; [lia|].
  unfold vfs_acl, XFS_ACL_HDR_SIZE, XFS_ACL_ENTRY_SIZE. rewrite length_encode. rewrite (proj2 (Nat.ltb_ge _ _)) by lia. cbn [fail_if mbind res_bind]. rewrite Hh. cbn [mbind res_bind].
  rewrite (proj2 (Z.ltb_ge _ _)) by lia. cbn [fail_if mbind res_bind]. rewrite (proj2 (Z.eqb_eq _ _)) by lia. cbn [negb fail_if mbind res_bind]. rewrite Hc, vfs_entries_encoded by done. done.
Qed.

(** ** The ACL and the mode in step *)

(** Every entry of tag [t], written with [f]. *)
Definition set_perm (t : Z) (f : Z -> Z) (l : list AclEntry) : list AclEntry :=
  (fun e => if tagged t e then mkAclEntry (a_tag e) (a_id e) (f (a_perm e)) else e) <$> l.

Lemma count_cons t e l : count t (e :: l) = ((if tagged t e then 1 else 0) + count t l)%nat.
Proof. unfold count. cbn [List.filter]. by destruct (tagged t e). Qed.

Lemma set_perm_tags t f l : a_tag <$> set_perm t f l = a_tag <$> l /\ key_of <$> set_perm t f l = key_of <$> l.
Proof. induction l as [|e l [IH1 IH2]]; [done|]. unfold set_perm in *. rewrite !fmap_cons, IH1, IH2. by destruct (tagged t e). Qed.

Lemma count_tags t l l' : a_tag <$> l = a_tag <$> l' -> count t l = count t l'.
Proof.
  revert l'. induction l as [|e l IH]; intros [|e' l'] H; try done. rewrite !fmap_cons in H. injection H as He H. rewrite !count_cons, (IH l') by done. unfold tagged. by rewrite He.
Qed.

Lemma existsb_count t l : existsb (tagged t) l = negb (count t l =? 0)%nat.
Proof. induction l as [|e l IH]; [done|]. cbn [existsb]. rewrite count_cons, IH. by destruct (tagged t e). Qed.

Lemma perm_of_cons t e l : perm_of t (e :: l) = if tagged t e then a_perm e else perm_of t l.
Proof. unfold perm_of. cbn [find]. by destruct (tagged t e). Qed.

Lemma perm_of_set t t' f l : perm_of t (set_perm t' f l) = if (t =? t') && negb (count t l =? 0)%nat then f (perm_of t l) else perm_of t l.
Proof.
  induction l as [|e l IH]; [by rewrite andb_false_r|]. unfold set_perm in *. rewrite fmap_cons, count_cons, !perm_of_cons, IH.
  assert (E : tagged t (if tagged t' e then mkAclEntry (a_tag e) (a_id e) (f (a_perm e)) else e) = tagged t e) by (by destruct (tagged t' e)). rewrite E.
  destruct (tagged t e) eqn:Et; [|done]. cbn [Nat.add Nat.eqb negb]. rewrite andb_true_r. unfold tagged in *. apply Z.eqb_eq in Et. rewrite Et. by destruct (t =? t').
Qed.

Lemma set_perm_none t f l : count t l = 0%nat -> set_perm t f l = l.
Proof. unfold set_perm. induction l as [|y l IH]; [done|]. rewrite count_cons, fmap_cons. destruct (tagged t y); [lia|]. intros H. f_equal. apply IH. lia. Qed.

Lemma position_of_spec t l : match position_of t l with
  | Some i => (exists e, l !! i = Some e /\ tagged t e = true) /\ (count t l = 1%nat -> forall f, forall e, l !! i = Some e -> <[i := mkAclEntry (a_tag e) (a_id e) (f (a_perm e))]> l = set_perm t f l)
  | None => count t l = 0%nat
  end.
Proof.
  induction l as [|x l IH]; cbn [position_of]; [done|]. destruct (tagged t x) eqn:Ex.
  - split; [by exists x|]. rewrite count_cons, Ex. intros Hc f e [= <-]. unfold set_perm. rewrite fmap_cons, Ex. fold (set_perm t f l). rewrite set_perm_none by lia. done.
  - rewrite count_cons, Ex. destruct (position_of t l) as [i|]; [|done]. destruct IH as [(e & He & Ht) Hs]. split; [by exists e|]. intros Hc f e' He'. unfold set_perm. rewrite fmap_cons, Ex. fold (set_perm t f l). rewrite <- (Hs Hc f e' He'). done.
Qed.

Definition class_tag (l : list AclEntry) : Z := if existsb (tagged tag.MASK) l then tag.MASK else tag.GROUP_OBJ.

(** The group-class entry is found exactly when there is a mask or an owning group. *)
Lemma group_class_spec f l :
  (group_class f l = Panic <-> count tag.MASK l = 0%nat /\ count tag.GROUP_OBJ l = 0%nat) /\
  (count (class_tag l) l = 1%nat -> group_class f l = Ok (set_perm (class_tag l) f l)) /\ (forall e, group_class f l <> Err e).
Proof.
  unfold group_class, class_tag. rewrite existsb_count. pose proof (position_of_spec tag.MASK l) as Hm. pose proof (position_of_spec tag.GROUP_OBJ l) as Hg.
  assert (Hpos : forall t i, match position_of t l with Some i => (exists e, l !! i = Some e /\ tagged t e = true) /\ (count t l = 1%nat -> forall f, forall e, l !! i = Some e -> <[i := mkAclEntry (a_tag e) (a_id e) (f (a_perm e))]> l = set_perm t f l) | None => count t l = 0%nat end ->
    position_of t l = Some i -> count t l <> 0%nat).
  { intros t i H E. rewrite E in H. destruct H as [(e & He & Ht) _]. apply list_elem_of_lookup_2 in He. clear -He Ht. induction l as [|x l IH]; [by apply elem_of_nil in He|]. rewrite count_cons. apply elem_of_cons in He as [<-|He]; [rewrite Ht; lia|]. specialize (IH He). lia. }
  destruct (position_of tag.MASK l) as [i|] eqn:Em.
  - pose proof (Hpos _ _ ltac:(rewrite Em; exact Hm) Em) as Hc. destruct Hm as [(e & He & _) Hs]. cbn [expect mbind res_bind]. rewrite He. cbn [expect mbind res_bind]. rewrite (proj2 (Nat.eqb_neq _ 0)) by done. cbn [negb].
    split; [split; [done|lia]|]. split; [|done]. intros H1. f_equal. by apply Hs.
  - rewrite Hm. cbn [Nat.eqb negb]. destruct (position_of tag.GROUP_OBJ l) as [i|] eqn:Eg.
    + pose proof (Hpos _ _ ltac:(rewrite Eg; exact Hg) Eg) as Hc. destruct Hg as [(e & He & _) Hs]. cbn [expect mbind res_bind]. rewrite He. cbn [expect mbind res_bind]. split; [split; [done|lia]|]. split; [|done]. intros H1. f_equal. by apply Hs.
    + cbn [expect mbind res_bind]. rewrite Hg. split; [done|]. split; [lia|done].
Qed.

Lemma edit_ends_spec owner other l : edit_ends owner other l = set_perm tag.OTHER other (set_perm tag.USER_OBJ owner l).
Proof.
  unfold edit_ends, set_perm. rewrite <- list_fmap_compose. apply list_fmap_ext. intros i e _. unfold compose, tagged. destruct (Z.eqb_spec (a_tag e) tag.USER_OBJ) as [E|E]; cbn [a_tag a_id a_perm]; [|done]. by rewrite E.
Qed.

(** The three entries of the mode written, with [owner], [group] and [other]. *)
Definition rewritten (owner group other : Z -> Z) (l : list AclEntry) : list AclEntry :=
  set_perm (class_tag l) group (set_perm tag.OTHER other (set_perm tag.USER_OBJ owner l)).

Lemma class_tag_tags l l' : a_tag <$> l = a_tag <$> l' -> class_tag l = class_tag l'.
Proof. intros H. unfold class_tag. by rewrite !existsb_count, (count_tags tag.MASK l l' H). Qed.

Lemma class_tag_once l : posix_acl l -> count (class_tag l) l = 1%nat.
Proof. intros [_ _ Hg _ Hm _ _]. unfold class_tag. rewrite existsb_count. destruct (Nat.eqb_spec (count tag.MASK l) 0); cbn [negb]; [done|lia]. Qed.

Lemma edit_and_class owner group other l : posix_acl l -> group_class group (edit_ends owner other l) = Ok (rewritten owner group other l).
Proof.
  intros Hp. rewrite edit_ends_spec. set (l' := set_perm tag.OTHER other _). assert (Ht : a_tag <$> l' = a_tag <$> l) by (unfold l'; by rewrite (proj1 (set_perm_tags _ _ _)), (proj1 (set_perm_tags _ _ _))).
  destruct (group_class_spec group l') as (_ & H & _). rewrite (class_tag_tags l' l Ht) in H. unfold rewritten. apply H. rewrite (count_tags _ l' l Ht). by apply class_tag_once.
Qed.

Lemma rewritten_tags owner group other l : a_tag <$> rewritten owner group other l = a_tag <$> l /\ key_of <$> rewritten owner group other l = key_of <$> l.
Proof. unfold rewritten. split; rewrite ?(proj1 (set_perm_tags _ _ _)), ?(proj2 (set_perm_tags _ _ _)); done. Qed.

Lemma rewritten_perms owner group other l : posix_acl l -> let l' := rewritten owner group other l in
  perm_of tag.USER_OBJ l' = owner (perm_of tag.USER_OBJ l) /\ perm_of (class_tag l) l' = group (perm_of (class_tag l) l) /\ perm_of tag.OTHER l' = other (perm_of tag.OTHER l).
Proof.
  intros Hp l'. pose proof (class_tag_once l Hp) as Hc. pose proof Hp as [_ Ho _ Ht _ _ _]. unfold l', rewritten.
  assert (Hne : (tag.USER_OBJ =? class_tag l) = false /\ (tag.OTHER =? class_tag l) = false /\ (class_tag l =? tag.OTHER) = false /\ (class_tag l =? tag.USER_OBJ) = false) by (unfold class_tag; by destruct (existsb _ l)).
  destruct Hne as (N1 & N2 & N3 & N4). assert (Hcnt : forall t f t' l0, count t (set_perm t' f l0) = count t l0) by (intros; apply count_tags, set_perm_tags).
  rewrite !perm_of_set, !Hcnt, Ho, Ht, Hc, N1, N2, N3, N4, !Z.eqb_refl. done.
Qed.

Lemma rewritten_named owner group other l e : a_tag e = tag.USER \/ a_tag e = tag.GROUP -> e ∈ rewritten owner group other l <-> e ∈ l.
Proof.
  intros He. assert (H : forall t f l0, t <> tag.USER -> t <> tag.GROUP -> e ∈ set_perm t f l0 <-> e ∈ l0).
  { intros t f l0 H1 H2. unfold set_perm. rewrite list_elem_of_fmap. split.
    - intros (x & Hx & Hin). destruct (tagged t x) eqn:Et; [|by subst]. apply Z.eqb_eq in Et. subst e. cbn [a_tag] in He. lia.
    - intros Hin. exists e. split; [|done]. unfold tagged. destruct (Z.eqb_spec (a_tag e) t); [lia|done]. }
  unfold rewritten. rewrite !H; [done|done..| |]; unfold class_tag; by destruct (existsb _ l).
Qed.

(** Permission bits put together, masked. *)
Definition put_together (owner group other : Z) : Z := Z.lor (Z.lor (wshl 16 owner 6) (wshl 16 group 3)) other.

Lemma small_bits p i : 0 <= p <= 7 -> 3 <= i -> Z.testbit p i = false.
Proof. intros Hp Hi. destruct (Z.eq_dec p 0) as [->|]; [apply Z.bits_0|]. apply Z.bits_above_log2; [lia|]. assert (Z.log2 p < 3); [|lia]. apply Z.log2_lt_pow2; lia. Qed.

Lemma put_together_masked a b c m : 0 <= a <= 7 -> 0 <= b <= 7 -> 0 <= c <= 7 ->
  put_together (Z.land a (Z.land (wshr 16 m 6) 7)) (Z.land b (Z.land (wshr 16 m 3) 7)) (Z.land c (Z.land m 7)) = Z.land (put_together a b c) m.
Proof.
  intros Ha Hb Hc. assert (Hland : forall p q, 0 <= p <= 7 -> 0 <= Z.land p q <= 7).
  { intros p q Hp. split; [apply Z.land_nonneg; lia|]. assert (E : Z.land p q = Z.land (Z.land p q) (Z.ones 3)).
    { rewrite <- Z.land_assoc, (Z.land_comm q), Z.land_assoc, (Z.land_ones p) by lia. by rewrite Z.mod_small by (cbn; lia). }
    rewrite E, Z.land_ones by lia. pose proof (Z.mod_pos_bound (Z.land p q) (2 ^ 3) ltac:(lia)). lia. }
  assert (Hsh : forall p n, 0 <= p <= 7 -> n = 3 \/ n = 6 -> wshl 16 p n = Z.shiftl p n).
  { intros p n Hp Hn. unfold wshl. rewrite (Z.mod_small n) by lia. apply wrap_small. rewrite Z.shiftl_mul_pow2 by lia. unfold in_u. destruct Hn as [-> | ->]; lia. }
  unfold put_together. rewrite !Hsh by (auto; lia). unfold wshr. change (6 mod 16) with 6. change (3 mod 16) with 3. change 7 with (Z.ones 3). apply Z.bits_inj'. intros i Hi.
  rewrite !Z.land_spec, !Z.lor_spec, !Z.shiftl_spec, !Z.land_spec, !Z.testbit_ones by lia. change (Z.ones 3) with 7 in *.
  destruct (Z.lt_ge_cases i 3); [|destruct (Z.lt_ge_cases i 6); [|destruct (Z.lt_ge_cases i 9)]].
  - rewrite !(Z.testbit_neg_r _ (i - 6)), !(Z.testbit_neg_r _ (i - 3)) by lia. cbn [orb andb]. rewrite (proj2 (Z.leb_le 0 i)), (proj2 (Z.ltb_lt i 3)) by lia. by rewrite andb_true_r.
  - rewrite !(Z.testbit_neg_r _ (i - 6)), (small_bits c) by lia. cbn [orb andb]. rewrite !orb_false_r. rewrite Z.shiftr_spec by lia. rewrite (proj2 (Z.leb_le 0 (i - 3))), (proj2 (Z.ltb_lt (i - 3) 3)) by lia. rewrite andb_true_r. by replace (i - 3 + 3) with i by lia.
  - rewrite (small_bits b), (small_bits c) by lia. cbn [orb andb]. rewrite !orb_false_r. rewrite Z.shiftr_spec by lia. rewrite (proj2 (Z.leb_le 0 (i - 6))), (proj2 (Z.ltb_lt (i - 6) 3)) by lia. rewrite andb_true_r. by replace (i - 6 + 6) with i by lia.
  - by rewrite (small_bits a), (small_bits b), (small_bits c) by lia.
Qed.

Lemma mode_of_class l : mode_of l = put_together (perm_of tag.USER_OBJ l) (perm_of (class_tag l) l) (perm_of tag.OTHER l).
Proof. unfold mode_of, class_tag. by destruct (existsb _ l). Qed.

Lemma perm_range t l : Forall (fun e => 0 <= a_perm e <= 7) l -> 0 <= perm_of t l <= 7.
Proof. induction 1 as [|e l He Hl IH]; [done|]. rewrite perm_of_cons. by destruct (tagged t e). Qed.

Definition rwx (f : Z -> Z) : Prop := forall p, 0 <= p <= 7 -> 0 <= f p <= 7.
Lemma set_perm_perms t f l : rwx f -> Forall (fun e => 0 <= a_perm e <= 7) l -> Forall (fun e => 0 <= a_perm e <= 7) (set_perm t f l).
Proof. intros Hf Hl. apply Forall_fmap. eapply Forall_impl; [exact Hl|]. cbn. intros e He. destruct (tagged t e); [by apply Hf|done]. Qed.

Lemma Forall_tags (P : Z -> Prop) l l' : a_tag <$> l = a_tag <$> l' -> Forall (fun e => P (a_tag e)) l -> Forall (fun e => P (a_tag e)) l'.
Proof. intros H Hf. apply (Forall_fmap a_tag P). rewrite <- H. by apply Forall_fmap. Qed.

Lemma posix_perms l : posix_acl l -> Forall entry_range l -> Forall (fun e => 0 <= a_perm e <= 7) l.
Proof. intros [He _ _ _ _ _ _] Hr. rewrite Forall_forall in He, Hr. apply Forall_forall. intros e Hin. destruct (He e Hin), (Hr e Hin) as (_ & _ & ? & _). lia. Qed.

Lemma rewritten_posix owner group other l : posix_acl l -> Forall entry_range l -> rwx owner -> rwx group -> rwx other -> posix_acl (rewritten owner group other l).
Proof.
  intros Hp Hr Ho Hg Ht. pose proof (posix_perms l Hp Hr) as Hperm. destruct Hp as [He ? ? ? ? ? ?]. destruct (rewritten_tags owner group other l) as [Htag Hk].
  assert (Hc : forall t, count t (rewritten owner group other l) = count t l) by (intros; by apply count_tags). constructor; rewrite ?Hc, ?Hk; try done.
  assert (H1 : Forall (fun e => known_tag (a_tag e) = true) (rewritten owner group other l)) by (apply (Forall_tags (fun t => known_tag t = true) l); [done|]; eapply Forall_impl; [exact He|]; by intros ? [? _]).
  assert (H2 : Forall (fun e => 0 <= a_perm e <= 7) (rewritten owner group other l)) by (unfold rewritten; by repeat apply set_perm_perms).
  rewrite Forall_forall in H1, H2. apply Forall_forall. intros e Hin. split; [by apply H1|]. specialize (H2 e Hin). cbn in H2. lia.
Qed.

Lemma land_rwx p q : 0 <= q -> 0 <= Z.land p (Z.land q 7) <= 7.
Proof.
  intros Hq. change 7 with (Z.ones 3). rewrite Z.land_assoc, Z.land_ones by lia. pose proof (Z.mod_pos_bound (Z.land p q) (2 ^ 3) ltac:(lia)). change (Z.ones 3) with 7. lia.
Qed.

Lemma chmod_entries_spec l bits : posix_acl l -> Forall entry_range l -> 0 <= bits ->
  exists l', chmod_entries l bits = Ok l' /\ posix_acl l' /\ mode_of l' = Z.land 0x1FF bits /\ key_of <$> l' = key_of <$> l /\ forall e, a_tag e = tag.USER \/ a_tag e = tag.GROUP -> e ∈ l' <-> e ∈ l.
Proof.
  intros Hp Hr Hb. unfold chmod_entries. rewrite edit_and_class by done. eexists. split; [done|].
  assert (Hw : forall n, 0 <= wshr 16 bits n) by (intros n; unfold wshr; apply Z.shiftr_nonneg; lia).
  assert (H7 : forall q, 0 <= q -> Z.land q 7 = Z.land 7 (Z.land q 7)) by (intros q Hq; rewrite (Z.land_comm q), Z.land_assoc; done).
  split; [apply rewritten_posix; [done|done|intros p _; rewrite H7 by done; by apply land_rwx..]|]. split.
  - rewrite mode_of_class. rewrite (class_tag_tags _ l) by apply rewritten_tags. destruct (rewritten_perms (fun _ => Z.land (wshr 16 bits 6) 7) (fun _ => Z.land (wshr 16 bits 3) 7) (fun _ => Z.land bits 7) l Hp) as (-> & -> & ->).
    rewrite (H7 (wshr 16 bits 6)), (H7 (wshr 16 bits 3)), (H7 bits) by done. by rewrite put_together_masked by lia.
  - split; [apply rewritten_tags|]. intros e He. by apply rewritten_named.
Qed.

Lemma narrowed_spec l mode : posix_acl l -> Forall entry_range l -> 0 <= mode ->
  exists l', narrowed l mode = Ok l' /\ posix_acl l' /\ mode_of l' = Z.land (mode_of l) mode /\ key_of <$> l' = key_of <$> l /\ forall e, a_tag e = tag.USER \/ a_tag e = tag.GROUP -> e ∈ l' <-> e ∈ l.
Proof.
  intros Hp Hr Hb. unfold narrowed. rewrite edit_and_class by done. eexists. split; [done|].
  assert (Hw : forall n, 0 <= wshr 16 mode n) by (intros n; unfold wshr; apply Z.shiftr_nonneg; lia). pose proof (posix_perms l Hp Hr) as Hperm.
  split; [apply rewritten_posix; [done|done|intros p _; by apply land_rwx..]|]. split.
  - rewrite !mode_of_class. rewrite (class_tag_tags _ l) by apply rewritten_tags.
    destruct (rewritten_perms (fun p => Z.land p (Z.land (wshr 16 mode 6) 7)) (fun p => Z.land p (Z.land (wshr 16 mode 3) 7)) (fun p => Z.land p (Z.land mode 7)) l Hp) as (-> & -> & ->). by apply put_together_masked; apply perm_range.
  - split; [apply rewritten_tags|]. intros e He. by apply rewritten_named.
Qed.

(** C27: Changing the mode of an inode with an access ACL rewrites the ACL so that it
    implies exactly the bits given, and the ACL a new inode inherits implies
    exactly what the default allows of the mode asked for.  Either stays a valid
    ACL, of the same users and groups in the same order, and what it says of a
    named user or group is not changed. *)
Theorem acl_mode_in_step l mode : posix_acl l -> Forall entry_range l -> 0 <= mode ->
  (exists l', chmod_entries l mode = Ok l' /\ posix_acl l' /\ mode_of l' = Z.land 0x1FF mode /\ key_of <$> l' = key_of <$> l /\
    forall e, a_tag e = tag.USER \/ a_tag e = tag.GROUP -> e ∈ l' <-> e ∈ l) /\
  (exists l', narrowed l mode = Ok l' /\ posix_acl l' /\ mode_of l' = Z.land (mode_of l) mode /\ key_of <$> l' = key_of <$> l /\
    forall e, a_tag e = tag.USER \/ a_tag e = tag.GROUP -> e ∈ l' <-> e ∈ l).
Proof. intros. split; [by apply chmod_entries_spec|by apply narrowed_spec]. Qed.

(** ** The operations *)

Lemma decode_total stored : decode stored <> Panic.
Proof.
  unfold decode. destruct (Nat.ltb_spec (length stored) XFS_ACL_HDR_SIZE) as [|Hl]; cbn [fail_if mbind res_bind]; [done|]. unfold XFS_ACL_HDR_SIZE in Hl. rewrite be32_Ok by lia. cbn [mbind res_bind].
  apply bind_not_Panic; [apply fail_if_not_Panic|intros _ _]. pose proof (chunks_exact_lengths XFS_ACL_ENTRY_SIZE (drop XFS_ACL_HDR_SIZE stored) ltac:(unfold XFS_ACL_ENTRY_SIZE; lia)) as Hc. unfold XFS_ACL_ENTRY_SIZE in *.
  induction Hc as [|c l Hc Hl' IH]; cbn [res_map]; [done|]. apply bind_not_Panic; [unfold decode_entry; by rewrite !be32_Ok, be16_Ok by lia|]. intros y _. by apply bind_not_Panic.
Qed.

(** What the mode alone says. *)
Definition of_mode (bits : Z) : list AclEntry :=
  [mkAclEntry tag.USER_OBJ 0 (Z.land (Z.shiftr bits 6) 7); mkAclEntry tag.GROUP_OBJ 0 (Z.land (Z.shiftr bits 3) 7); mkAclEntry tag.OTHER 0 (Z.land bits 7)].

Lemma put_testbit a b c i : 0 <= a <= 7 -> 0 <= b <= 7 -> 0 <= c <= 7 -> 0 <= i ->
  Z.testbit (put_together a b c) i = Z.testbit a (i - 6) || Z.testbit b (i - 3) || Z.testbit c i.
Proof.
  intros Ha Hb Hc Hi. unfold put_together, wshl. change (6 mod 16) with 6. change (3 mod 16) with 3.
  rewrite !wrap_small by (unfold in_u; rewrite Z.shiftl_mul_pow2 by lia; lia). by rewrite !Z.lor_spec, !Z.shiftl_spec by lia.
Qed.

(** The bits of an ACL, taken apart again. *)
Lemma of_put_together k a b c : (forall i, 0 <= i < 9 -> Z.testbit k i = false) -> 0 <= a <= 7 -> 0 <= b <= 7 -> 0 <= c <= 7 ->
  let m := Z.lor k (put_together a b c) in Z.land (Z.shiftr m 6) 7 = a /\ Z.land (Z.shiftr m 3) 7 = b /\ Z.land m 7 = c.
Proof.
  intros Hk Ha Hb Hc m. assert (Hp : forall p x, 0 <= p <= 7 -> (forall i, 0 <= i < 3 -> Z.testbit x i = Z.testbit p i) -> Z.land x 7 = p).
  { intros p x Hp Hx. change 7 with (Z.ones 3). apply Z.bits_inj'. intros i Hi. rewrite Z.land_spec, Z.testbit_ones by lia. destruct (Z.lt_ge_cases i 3).
    - rewrite Hx, (proj2 (Z.leb_le 0 i)), (proj2 (Z.ltb_lt i 3)) by lia. by rewrite andb_true_r.
    - rewrite (small_bits p) by lia. rewrite (proj2 (Z.ltb_ge i 3)) by lia. by rewrite andb_false_r, andb_false_r. }
  assert (Hm : forall i, 0 <= i < 9 -> Z.testbit m i = Z.testbit a (i - 6) || Z.testbit b (i - 3) || Z.testbit c i) by (intros i Hi; unfold m; rewrite Z.lor_spec, Hk, put_testbit by lia; done).
  split; [|split]; (apply Hp; [lia|]; intros i Hi; rewrite ?Z.shiftr_spec by lia; rewrite Hm by lia).
  - rewrite (small_bits b), (small_bits c) by lia. rewrite !orb_false_r. f_equal. lia.
  - rewrite (Z.testbit_neg_r a), (small_bits c) by lia. rewrite orb_false_r. cbn [orb]. f_equal. lia.
  - rewrite (Z.testbit_neg_r a), (Z.testbit_neg_r b) by lia. done.
Qed.

Lemma keep_special_bits mode i : 0 <= i < 9 -> Z.testbit (keep_special mode) i = false.
Proof.
  intros Hi. unfold keep_special. change (unot 16 511) with (Z.shiftl 127 9). rewrite !Z.land_spec, Z.shiftl_spec by lia. rewrite (Z.testbit_neg_r _ (i - 9)) by lia. by rewrite andb_false_r.
Qed.

(** An ACL of three entries is what the mode says. *)
Lemma three_entries l mode : posix_acl l -> acl_sorted l -> Forall entry_range l -> Forall (fun e => a_tag e <> tag.USER -> a_tag e <> tag.GROUP -> a_id e = 0) l -> length l = 3%nat ->
  l = of_mode (Z.lor (keep_special mode) (mode_of l)).
Proof.
  intros Hp Hs Hr Hid Hl. pose proof (posix_perms l Hp Hr) as Hperm. destruct Hp as [He Ho Hg Ht Hm Hn _]. destruct l as [|x [|y [|z [|]]]]; try done.
  apply StronglySorted_inv in Hs as [Hs [Hxy [Hxz _]%Forall_cons]%Forall_cons]. apply StronglySorted_inv in Hs as [_ [Hyz _]%Forall_cons]. apply acl_leb_spec in Hxy, Hxz, Hyz.
  apply Forall_cons in He as [[Kx _] He]. apply Forall_cons in He as [[Ky _] He]. apply Forall_cons in He as [[Kz _] _]. rewrite !count_cons in Ho, Hg, Ht. unfold tagged in Ho, Hg, Ht. cbn [count List.filter length] in Ho, Hg, Ht.
  assert (Htags : a_tag x = tag.USER_OBJ /\ a_tag y = tag.GROUP_OBJ /\ a_tag z = tag.OTHER).
  { change (count tag.USER_OBJ []) with 0%nat in Ho. change (count tag.GROUP_OBJ []) with 0%nat in Hg. change (count tag.OTHER []) with 0%nat in Ht. unfold tag.USER_OBJ, tag.GROUP_OBJ, tag.OTHER in *.
    destruct (Z.eqb_spec (a_tag x) 1), (Z.eqb_spec (a_tag y) 1), (Z.eqb_spec (a_tag z) 1); cbn in Ho; try discriminate Ho;
      destruct (Z.eqb_spec (a_tag x) 4), (Z.eqb_spec (a_tag y) 4), (Z.eqb_spec (a_tag z) 4); cbn in Hg; try discriminate Hg;
      destruct (Z.eqb_spec (a_tag x) 32), (Z.eqb_spec (a_tag y) 32), (Z.eqb_spec (a_tag z) 32); cbn in Ht; try discriminate Ht; lia. }
  destruct Htags as (Tx & Ty & Tz). apply Forall_cons in Hid as [Ix Hid]. apply Forall_cons in Hid as [Iy Hid]. apply Forall_cons in Hid as [Iz _].
  apply Forall_cons in Hperm as [Px Hperm]. apply Forall_cons in Hperm as [Py Hperm]. apply Forall_cons in Hperm as [Pz _].
  assert (Hmode : mode_of [x; y; z] = put_together (a_perm x) (a_perm y) (a_perm z)) by (unfold mode_of, put_together; cbn [existsb]; unfold perm_of, tagged; cbn [find]; by rewrite Tx, Ty, Tz).
  rewrite Hmode. destruct (of_put_together (keep_special mode) (a_perm x) (a_perm y) (a_perm z) (keep_special_bits mode) Px Py Pz) as (E1 & E2 & E3). unfold of_mode. rewrite E1, E2, E3.
  cbn beta in *. destruct x, y, z. cbn [a_tag a_id a_perm] in *. subst. rewrite Ix, Iy, Iz by done. done.
Qed.

Section operation_specs.
Context `{Crc : Crc32c} (sb : Superblock) (read : Z -> nat -> res bytes).
Context (Hgeo : sb_geometry sb) (Hread : reads read).

Lemma acl_total inode raw kind : acl sb read inode raw kind <> Panic.
Proof.
  unfold acl. apply bind_not_Panic; [unfold list_xattrs; apply bind_not_Panic; [by apply stored_xattrs_total|intros; apply with_acl_views_total]|]. intros attrs _.
  destruct (find _ attrs); [|done]. apply bind_not_Panic; [apply decode_total|done].
Qed.

Lemma valid_stored entries l : Forall entry_range entries -> valid entries (is_v5 sb) = Ok l ->
  posix_acl l /\ l ≡ₚ (without_id <$> entries) /\ acl_sorted l /\ Forall entry_range l /\ (length l <= xfs_acl_max_entries (is_v5 sb))%nat /\
  Forall (fun e => a_tag e <> tag.USER -> a_tag e <> tag.GROUP -> a_id e = 0) l.
Proof.
  intros Hr Hv. destruct (valid_spec entries (is_v5 sb)) as [_ H]. apply H in Hv as (Hp & Hl & ->). pose proof (sort_by_Permutation acl_leb (without_id <$> entries)) as Hperm.
  split; [done|]. split; [done|]. split; [apply valid_sorted|]. split; [|split; [done|]].
  - rewrite Hperm. apply Forall_fmap. eapply Forall_impl; [exact Hr|]. intros e (H1 & H2 & H3). split; [done|]. split; [|done]. cbn [without_id a_id]. destruct (_ || _); [done|]. unfold in_u. lia.
  - rewrite Hperm. apply Forall_fmap, Forall_forall. intros e _ H1 H2. cbn [without_id a_tag a_id] in *. by rewrite (proj2 (Z.eqb_neq _ _) H1), (proj2 (Z.eqb_neq _ _) H2).
Qed.

(** C26: Setting an ACL never panics, and the entries are accepted exactly when they
    are a POSIX ACL that fits.  What is then written is read back as those entries,
    sorted, by the driver and by its listing for the VFS, together with the mode
    they imply; and where no ACL is written, the mode alone says what the entries
    said. *)
Theorem set_acl_exact inode raw kind entries : Forall entry_range entries ->
  ((exists l, valid entries (is_v5 sb) = Ok l) <-> posix_acl (without_id <$> entries) /\ (length entries <= xfs_acl_max_entries (is_v5 sb))%nat) /\
  match set_acl sb read inode raw kind entries with
  | Panic => False
  | Err _ => True
  | Ok w => exists l, posix_acl l /\ l ≡ₚ (without_id <$> entries) /\ acl_sorted l /\
      match w with
      | WriteXattr name (Some (stored, mode)) bits => name = kind_name kind /\ mode = Set_ /\ decode stored = Ok l /\
          vfs_acl (i_ino inode) (is_v5 sb) stored = Ok (vfs_bytes l) /\
          bits = match kind with Access => Some (Z.lor (keep_special (i_mode inode)) (mode_of l)) | Default_ => None end
      | WriteXattr name None bits => kind = Access /\ name = ACCESS /\ exists mode, bits = Some mode /\ l = of_mode mode
      | SetPermissions mode => kind = Access /\ l = of_mode mode /\ acl sb read inode raw Access = Ok None
      end
  end.
Proof.
  intros Hr. destruct (valid_spec entries (is_v5 sb)) as [Hvp Hv]. pose proof (sort_by_Permutation acl_leb (without_id <$> entries)) as Hperm. split.
  { split.
    - intros (l & (Hp & Hl & ->)%Hv). split; [by eapply posix_acl_Permutation|]. apply Permutation_length in Hperm. rewrite length_fmap in Hperm. lia.
    - intros [Hp Hl]. eexists. apply Hv. split; [|split; [|done]]; [eapply posix_acl_Permutation; [symmetry; exact Hperm|done]|]. apply Permutation_length in Hperm. rewrite length_fmap in Hperm. lia. }
  unfold set_acl. destruct (valid entries (is_v5 sb)) as [l|e|] eqn:El; cbn [mbind res_bind]; [|done|done]. destruct (valid_stored entries l Hr El) as (Hp & Hpl & Hs & Hrl & Hmax & Hid).
  assert (Hm : Z.of_nat (xfs_acl_max_entries (is_v5 sb)) <= 5461) by (destruct (is_v5 sb); by vm_compute).
  assert (Hdec : decode (encode l) = Ok l) by (apply decode_encode; [done|lia]).
  assert (Hvfs : vfs_acl (i_ino inode) (is_v5 sb) (encode l) = Ok (vfs_bytes l)) by (apply vfs_acl_encoded; [done| |done]; eapply Forall_impl; [apply (pa_entries _ Hp)|]; by intros ? [? _]).
  destruct kind.
  - pose proof (acl_total inode raw Access) as Ha. destruct (acl sb read inode raw Access) as [stored|e|]; cbn [mbind res_bind]; [|done|done]. destruct (Nat.eqb_spec (length l) 3) as [E3|_].
    + pose proof (three_entries l (i_mode inode) Hp Hs Hrl Hid E3) as E. destruct stored; exists l; (split; [done|]; split; [done|]; split; [done|]); [|by split].
      split; [done|]. split; [done|]. by eexists.
    + exists l. done.
  - destruct (is_dir inode); cbn [negb fail_if mbind res_bind]; [|done]. exists l. done.
Qed.

Lemma edit_class_panics f owner other l : group_class f (edit_ends owner other l) = Panic <-> count tag.MASK l = 0%nat /\ count tag.GROUP_OBJ l = 0%nat.
Proof.
  rewrite edit_ends_spec. destruct (group_class_spec f (set_perm tag.OTHER other (set_perm tag.USER_OBJ owner l))) as (-> & _ & _).
  by rewrite !(count_tags _ (set_perm _ _ (set_perm _ _ l)) l) by (rewrite !(proj1 (set_perm_tags _ _ _)); done).
Qed.

(** What reads an ACL and then writes its group class. *)
Lemma classed_panics {A} inode raw kind (f : list AclEntry -> res (list AclEntry)) (none : res A) (some : list AclEntry -> list AclEntry -> res A) :
  none <> Panic -> (forall l l', some l l' <> Panic) -> (forall l, f l = Panic <-> count tag.MASK l = 0%nat /\ count tag.GROUP_OBJ l = 0%nat) ->
  (stored ← acl sb read inode raw kind; match stored with None => none | Some l => l' ← f l; some l l' end) = Panic <->
  exists l, acl sb read inode raw kind = Ok (Some l) /\ count tag.MASK l = 0%nat /\ count tag.GROUP_OBJ l = 0%nat.
Proof.
  intros Hn Hs Hf. pose proof (acl_total inode raw kind) as Ha. destruct (acl sb read inode raw kind) as [[l|]|e|]; cbn [mbind res_bind]; try (split; [done|by intros (? & ? & _)]); [].
  specialize (Hf l). destruct (f l) as [l'|e|]; cbn [mbind res_bind].
  - split; [intros H; by apply Hs in H|]. intros (l2 & [= <-] & Hc). by apply Hf in Hc.
  - split; [done|]. intros (l2 & [= <-] & Hc). by apply Hf in Hc.
  - split; [|done]. intros _. exists l. split; [done|]. by apply Hf.
Qed.

(** C39: Changing a mode, or making an inode in a directory, panics exactly when the
    ACL it reads has neither a mask nor an owning group.  There is such a stored
    ACL: one of no entries, which both readers accept. *)
Theorem bare_acl_panics inode raw mode is_directory :
  (chmod sb read inode raw mode = Panic <-> exists l, acl sb read inode raw Access = Ok (Some l) /\ count tag.MASK l = 0%nat /\ count tag.GROUP_OBJ l = 0%nat) /\
  (inherited_acl sb read inode raw mode is_directory = Panic <-> exists l, acl sb read inode raw Default_ = Ok (Some l) /\ count tag.MASK l = 0%nat /\ count tag.GROUP_OBJ l = 0%nat) /\
  (exists stored, decode stored = Ok [] /\ vfs_acl (i_ino inode) (is_v5 sb) stored = Ok (vfs_bytes [])).
Proof.
  split; [|split].
  - unfold chmod. apply classed_panics; [done|done|]. intros l. apply edit_class_panics.
  - unfold inherited_acl. apply classed_panics; [done|done|]. intros l. apply edit_class_panics.
  - exists (encode []). split; [done|]. by destruct (is_v5 sb).
Qed.
End operation_specs.

(** ** Witnesses *)

Definition sample_acl : list AclEntry := [mkAclEntry tag.USER_OBJ 0 7; mkAclEntry tag.USER 1000 6; mkAclEntry tag.GROUP_OBJ 0 5; mkAclEntry tag.MASK 0 6; mkAclEntry tag.OTHER 0 4].
Lemma sample_acl_range : Forall entry_range sample_acl.
Proof. repeat constructor; by vm_compute. Qed.
Lemma sample_acl_posix : posix_acl sample_acl.
Proof. constructor; [by repeat constructor|done|done|done|vm_compute; lia|done|apply (bool_decide_unpack _); vm_compute; exact I]. Qed.

Lemma acl_mode_in_step_witness : exists l, chmod_entries sample_acl 0x1A0 = Ok l /\ mode_of l = 0x1A0.
Proof.
  destruct (acl_mode_in_step sample_acl 0x1A0 sample_acl_posix sample_acl_range ltac:(lia)) as [(l & Hc & _ & Hm & _) _]. exists l. split; [done|]. by rewrite Hm.
Defined.

(** An inode whose attribute fork holds an ACL of no entries. *)
Definition bare_raw : bytes := Eval vm_compute in
  let fork := match encode_shortform [mkXattr ACCESS (encode [])] 40 with Ok (Some fork) => fork | _ => [] end in
  let raw := splice 216 fork (splice di.AFORMAT [x01] sample_inode) in
  splice di.CRC (to_le_bytes 4 (zeroed_crc raw di.CRC)) raw.

Lemma bare_acl_panics_witness : exists inode, Inode_parse bare_raw sample_sb 129 = Ok inode /\ chmod sample_sb (sample_read []) inode bare_raw 0x1A4 = Panic.
Proof.
  destruct (Inode_parse bare_raw sample_sb 129) as [inode| |] eqn:E; [|vm_compute in E; discriminate..]. exists inode. split; [done|].
  destruct (bare_acl_panics sample_sb (sample_read []) sample_geometry (sample_reads []) inode bare_raw 0x1A4 false) as [H _]. refine (proj2 H _). exists [].
  refine (conj _ (conj eq_refl eq_refl)). vm_compute in E. apply Ok_inj in E as <-. vm_compute. reflexivity.
Defined.

Lemma set_acl_exact_witness : exists inode w, Inode_parse sample_inode sample_sb 129 = Ok inode /\ set_acl sample_sb (sample_read []) inode bare_raw Access sample_acl = Ok w /\
  exists l, posix_acl l /\ l ≡ₚ (without_id <$> sample_acl).
Proof.
  destruct (Inode_parse sample_inode sample_sb 129) as [inode| |] eqn:E; [|vm_compute in E; discriminate..].
  destruct (set_acl_exact sample_sb (sample_read []) sample_geometry (sample_reads []) inode bare_raw Access sample_acl sample_acl_range) as [_ H].
  assert (Hok : match set_acl sample_sb (sample_read []) inode bare_raw Access sample_acl with Ok _ => true | _ => false end = true)
    by (vm_compute in E; apply Ok_inj in E as <-; vm_compute; reflexivity).
  destruct (set_acl sample_sb (sample_read []) inode bare_raw Access sample_acl) as [w|e|] eqn:Ew; [|discriminate Hok|done].
  exists inode, w. split; [done|]. split; [done|]. destruct H as (l & Hp & Hl & _). exact (ex_intro _ l (conj Hp Hl)).
Defined.
