(* ===== verification/LogRecover.v ===== *)
(** * Log operations, and the replay of buffer items
      ([src/src/log_recover.rs], [log_write::payload])

    A record's payload is a row of operations; [read_ops] gathers them into
    the items of the transactions they belong to and hands each committed
    transaction on; [apply_buffer] writes a buffer item into the overlay.
    The theorems: reading back what [payload] wrote gives the operations it
    was given; replaying an item built by [BufWrite] leaves in the overlay the
    image the mount itself kept for it; and a block's items are replayed
    exactly when no later item cancels the block. *)

From Stdlib Require Import ZArith Lia Strings.String Strings.Byte.
From stdpp Require Import base list gmap fin_maps sets strings.
From S2P Require Import Prelude Error Endian Crc32c Superblock Sample Ag Agfl AgBtree Overlay BufWrite.

(** The byte order of the machine: [from_ne_bytes]. *)
Class Host := { host_big_endian : bool }.

(** [format::log_items::op_header] *)
Definition OP_HEADER_SIZE : nat := 12.
Module o.
Definition TID : nat := 0.
Definition LEN : nat := 4.
Definition FLAGS : nat := 9.
End o.
Definition XFS_TRANSACTION : Z := 0x69.
Definition XFS_LOG : Z := 0xaa.
Definition XLOG_START_TRANS : Z := 0x01.
Definition XLOG_COMMIT_TRANS : Z := 0x02.
Definition XLOG_OP_CONTINUATION : Z := 0x18.
Definition XLOG_UNMOUNT_TRANS : Z := 0x20.
(** [format::log_items::trans_header] *)
Definition XFS_TRANS_HEADER_MAGIC : Z := 0x5452414e.
Definition TRANS_HEADER_SIZE : nat := 16.

(** [log_write::trans_header] *)
Definition trans_header (tid kind item_ops : Z) : bytes :=
  to_le_bytes 4 XFS_TRANS_HEADER_MAGIC ++ to_le_bytes 4 kind ++ to_le_bytes 4 tid ++
  to_le_bytes 4 item_ops.

(** [log_write::payload] *)
Definition payload_op (tid : Z) (op : Op) : bytes :=
  to_be_bytes 4 tid ++ to_be_bytes 4 (wrap 32 (Z.of_nat (length (op_data op)))) ++
  [z2b (if negb (Z.land (op_flags op) XLOG_UNMOUNT_TRANS =? 0) then XFS_LOG else XFS_TRANSACTION)] ++
  [z2b (op_flags op)] ++ [x00; x00] ++ op_data op.
Definition payload (tid : Z) (ops : list Op) : bytes := concat (payload_op tid <$> ops).

Record Item := mkLogItem { regions : list bytes; total : nat }.

Section native.
Context `{H : Host}.
Definition from_ne_bytes (bs : bytes) : Z :=
  if host_big_endian then from_be_bytes bs else from_le_bytes bs.
Definition native_u16 (buf : bytes) (pos : nat) : res Z := from_ne_bytes <$> get_slice pos 2 buf.
Definition native_u32 (buf : bytes) (pos : nat) : res Z := from_ne_bytes <$> get_slice pos 4 buf.
Definition native_u64 (buf : bytes) (pos : nat) : res Z := from_ne_bytes <$> get_slice pos 8 buf.

(** [Item::kind] *)
Definition kind (item : Item) : res Z :=
  head ← expect (regions item !! 0%nat);
  if (length head <? 2)%nat then Ok 0 else native_u16 head 0.

(** [items.last_mut().and_then(|i| i.regions.last_mut())], extended *)
Definition extend_last (items : list Item) (body : bytes) : list Item :=
  match list.last items with
  | None => items
  | Some item =>
      match list.last (regions item) with
      | None => items
      | Some region =>
          removelast items ++
          [mkLogItem (removelast (regions item) ++ [region ++ body]) (total item)]
      end
  end.

Definition is_trans_header (items : list Item) (body : bytes) : bool :=
  match items with
  | [] =>
      (TRANS_HEADER_SIZE <=? length body)%nat &&
      match native_u32 body 0 with
      | Ok m => m =? XFS_TRANS_HEADER_MAGIC
      | _ => false
      end
  | _ => false
  end.

(** A new item: every format begins with its type and its count. *)
Definition new_item (body : bytes) : Item :=
  let total :=
    if (4 <=? length body)%nat
    then match native_u16 body 2 with Ok n => Z.to_nat n | _ => 1%nat end
    else 1%nat in
  mkLogItem [body] (Nat.max total 1).

Definition add_region (items : list Item) (body : bytes) (flags : Z) : list Item :=
  if negb (Z.land flags XLOG_OP_CONTINUATION =? 0) then extend_last items body
  else if (length body =? 0)%nat then items
  else if is_trans_header items body then items
  else
    match list.last items with
    | Some item =>
        if (length (regions item) <? total item)%nat
        then removelast items ++ [mkLogItem (regions item ++ [body]) (total item)]
        else items ++ [new_item body]
    | None => items ++ [new_item body]
    end.

Section read_ops.
Context {S : Type} (visit : S -> list Item -> res S).

(** What one operation does to the transactions in flight. *)
Definition take_op (in_flight : gmap Z (list Item)) (s : S) (tid flags : Z) (body : bytes) :
    res (gmap Z (list Item) * S) :=
  if negb (Z.land flags XLOG_UNMOUNT_TRANS =? 0) then Ok (in_flight, s)
  else if negb (Z.land flags XLOG_START_TRANS =? 0) then Ok (<[tid := []]> in_flight, s)
  else if negb (Z.land flags XLOG_COMMIT_TRANS =? 0) then
    match in_flight !! tid with
    | Some items =>
        let in_flight := delete tid in_flight in
        match items with
        | [] => Ok (in_flight, s)
        | _ => s ← visit s items; Ok (in_flight, s)
        end
    | None => Ok (in_flight, s)
    end
  else
    match in_flight !! tid with
    | None => Ok (in_flight, s)
    | Some items => Ok (<[tid := add_region items body flags]> in_flight, s)
    end.

Fixpoint read_ops (num_logops : nat) (data : bytes) (pos : nat)
    (in_flight : gmap Z (list Item)) (s : S) : res (gmap Z (list Item) * S) :=
  match num_logops with
  | O => Ok (in_flight, s)
  | Datatypes.S num_logops =>
      fail_if (length data <? pos + OP_HEADER_SIZE)%nat
        (CorruptLog (fmt "a log record holds fewer operations than its header counts" []));;
      tid ← be32 data (pos + o.TID);
      len ← be32 data (pos + o.LEN);
      let len := Z.to_nat len in
      flags ← b2z <$> expect (data !! (pos + o.FLAGS)%nat);
      let pos := (pos + OP_HEADER_SIZE)%nat in
      fail_if (length data <? pos + len)%nat
        (CorruptLog (fmt "a log operation claims {} bytes, which runs past the record holding it" [AZ (Z.of_nat len)]));;
      body ← get_slice pos len data;
      let pos := (pos + len)%nat in
      r ← take_op in_flight s tid flags body;
      let '(in_flight, s) := r in
      read_ops num_logops data pos in_flight s
  end.
End read_ops.

(** ** Applying a buffer item *)

Definition map_word_bit (map : list Z) (bit : nat) : bool :=
  is_some_and (map !! (bit / 32)%nat)
    (fun w => negb (Z.land w (Z.shiftl 1 (Z.of_nat (bit mod 32))) =? 0)).

Definition runs_of (map : list Z) (chunks : nat) : res (list (nat * nat)) :=
  maximal_runs (fun bit => Ok (map_word_bit map bit)) (Nat.min (length map * 32) chunks).

Section apply.
Context `{Crc : Crc32c} (sb : Superblock).

(** [log_dinode::offsets::NEXT_UNLINKED] and [inode::offsets::CRC] *)
Definition NEXT_UNLINKED : nat := 96.
Definition inode_CRC : nat := 100.

Definition run_holding (runs : list (nat * nat)) (bit : nat) : option (nat * (nat * nat)) :=
  find (fun e => let '(_, (start, count)) := e in (start <=? bit)%nat && (bit <? start + count)%nat)
    (imap pair runs).

(** One inode slot of an inode cluster: only its unlinked pointer is taken. *)
Definition apply_slot (item : Item) (runs : list (nat * nat)) (inodesize slot : nat) (buffer : bytes) :
    res bytes :=
  let field := (slot * inodesize + NEXT_UNLINKED)%nat in
  let bit := (field / BLF_CHUNK)%nat in
  match run_holding runs bit with
  | None => Ok buffer
  | Some (index, (start, _)) =>
      match regions item !! (index + 1)%nat with
      | None => Ok buffer
      | Some region =>
          let within := (field - start * BLF_CHUNK)%nat in
          if (length region <? within + 4)%nat || (length buffer <? field + 4)%nat then Ok buffer
          else
            piece ← get_slice within 4 region;
            copy_at field piece buffer
      end
  end.

Fixpoint apply_slots (item : Item) (runs : list (nat * nat)) (inodesize : nat)
    (slots : list nat) (buffer : bytes) : res bytes :=
  match slots with
  | [] => Ok buffer
  | slot :: slots =>
      buffer ← apply_slot item runs inodesize slot buffer;
      apply_slots item runs inodesize slots buffer
  end.

Definition apply_inode_buffer (buffer : bytes) (item : Item) (runs : list (nat * nat)) : res bytes :=
  let inodesize := Z.to_nat (sb_inodesize sb) in
  if (inodesize =? 0)%nat then Ok buffer
  else apply_slots item runs inodesize (seq 0 (length buffer / inodesize)) buffer.

Definition stamp_inode (inode : bytes) : res bytes :=
  if negb (is_v5 sb) then Ok inode else restamp inode_CRC inode.

Fixpoint stamp_slots (inodesize : nat) (slots : list nat) (buffer : bytes) : res bytes :=
  match slots with
  | [] => Ok buffer
  | slot :: slots =>
      let from := (slot * inodesize)%nat in
      inode ← get_slice from inodesize buffer;
      inode ← stamp_inode inode;
      buffer ← copy_at from inode buffer;
      stamp_slots inodesize slots buffer
  end.

Definition btree_is_long_form (buffer : bytes) : bool :=
  if (length buffer <? 4)%nat then false
  else
    match be32 buffer 0 with
    | Ok magic => (magic =? XFS_BMAP_CRC_MAGIC) || (magic =? XFS_BMAP_MAGIC)
    | _ => false
    end.

Definition stamp (buf_type : Z) (buffer : bytes) : res bytes :=
  if negb (is_v5 sb) then Ok buffer
  else if buf_type =? BLFT_AGF then restamp Ag.agf.CRC buffer
  else if buf_type =? BLFT_AGI then restamp Ag.agi.CRC buffer
  else if buf_type =? BLFT_AGFL then restamp Agfl.offsets.CRC buffer
  else if buf_type =? BLFT_BTREE then
    restamp (if btree_is_long_form buffer then bmbt_CRC else AgBtree.offsets.CRC) buffer
  else if buf_type =? BLFT_DINO then
    let inodesize := Z.to_nat (sb_inodesize sb) in
    stamp_slots inodesize (seq 0 (length buffer / Nat.max inodesize 1)) buffer
  else if (buf_type =? BLFT_DIR_BLOCK) || (buf_type =? BLFT_DIR_DATA) || (buf_type =? BLFT_DIR_FREE) then
    restamp dir3_blk_CRC buffer
  else if (buf_type =? BLFT_DIR_LEAF1) || (buf_type =? BLFT_DIR_LEAFN) || (buf_type =? BLFT_DA_NODE) ||
          (buf_type =? BLFT_ATTR_LEAF) then
    restamp da_blk_CRC buffer
  else if buf_type =? BLFT_SYMLINK then restamp symlink_CRC buffer
  else if buf_type =? BLFT_SB then restamp SB_CRC_OFFSET buffer
  else Ok buffer.

(** The regions of an ordinary item, each over its run. *)
Fixpoint apply_runs (runs : list (nat * nat)) (regions : list bytes) (buffer : bytes) : res bytes :=
  match runs, regions with
  | (start, count) :: runs, region :: regions =>
      let from := (start * BLF_CHUNK)%nat in
      let take := Nat.min (Nat.min (count * BLF_CHUNK) (length region)) (length buffer - from) in
      piece ← get_slice 0 take region;
      buffer ← copy_at from piece buffer;
      apply_runs runs regions buffer
  | _, _ => Ok buffer
  end.

Definition is_cancelled (cancelled : gmap (Z * Z) nat) (blkno len : Z) : bool :=
  bool_decide (is_Some (cancelled !! (blkno, len))).

(** [cancelled.get_mut(..)], counted down and removed at zero. *)
Definition consume (cancelled : gmap (Z * Z) nat) (k : Z * Z) : gmap (Z * Z) nat :=
  match cancelled !! k with
  | None => cancelled
  | Some count =>
      if (count - 1 =? 0)%nat then delete k cancelled else <[k := (count - 1)%nat]> cancelled
  end.

Record Header := mkHeader { h_flags : Z; h_blkno : Z; h_len : Z }.
Definition header_of (f : bytes) : res Header :=
  fl ← native_u16 f at_.FLAGS;
  bl ← native_u64 f at_.BLKNO;
  ln ← native_u16 f at_.LEN;
  Ok (mkHeader fl bl ln).

Context {D : Type} {dev : BlockDevice D} (d : D).

Definition apply_buffer (into : Overlay) (item : Item) (cancelled : gmap (Z * Z) nat) :
    res (bool * Overlay * gmap (Z * Z) nat) :=
  f ← expect (regions item !! 0%nat);
  fail_if (length f <? BLF_HEADER_SIZE)%nat
    (CorruptLog (fmt "a buffer log item is shorter than its own header" []));;
  h ← header_of f;
  let '(mkHeader flags blkno len) := h in
  let buf_type := Z.shiftr flags BLF_TYPE_SHIFT in
  if negb (Z.land flags BLF_CANCEL =? 0) then Ok (false, into, consume cancelled (blkno, len))
  else if is_cancelled cancelled blkno len then Ok (false, into, cancelled)
  else if len =? 0 then Ok (false, into, cancelled)
  else
    map_size ← native_u32 f at_.MAP_SIZE;
    let map_size := Z.to_nat map_size in
    fail_if (length f <? at_.DATA_MAP + 4 * map_size)%nat
      (CorruptLog (fmt "a buffer log item says its bitmap is {} words, which does not fit the {} bytes of the item"
         [AZ (Z.of_nat map_size); AZ (Z.of_nat (length f))]));;
    map ← res_map (fun i => native_u32 f (at_.DATA_MAP + 4 * i)%nat) (seq 0 map_size);
    let pos := wrap 64 (blkno * Z.of_nat BBSIZE) in
    buffer ← read_at d into pos (replicate (Z.to_nat len * BBSIZE) x00);
    rs ← runs_of map (length buffer / BLF_CHUNK);
    buffer ← (if negb (Z.land flags BLF_INODE_BUF =? 0)
              then apply_inode_buffer buffer item rs
              else apply_runs rs (drop 1 (regions item)) buffer);
    buffer ← stamp buf_type buffer;
    into ← wrote d into pos buffer;
    Ok (true, into, cancelled).

(** The first pass of [replay] over the buffer items: the cancellations. *)
Definition note_cancel (cancelled : gmap (Z * Z) nat) (item : Item) : res (gmap (Z * Z) nat) :=
  f ← expect (regions item !! 0%nat);
  if (length f <? BLF_HEADER_SIZE)%nat then Ok cancelled
  else
    fl ← native_u16 f at_.FLAGS;
    if Z.land fl BLF_CANCEL =? 0 then Ok cancelled
    else
      bl ← native_u64 f at_.BLKNO;
      ln ← native_u16 f at_.LEN;
      Ok (<[(bl, ln) := (default 0 (cancelled !! (bl, ln)) + 1)%nat]> cancelled).

Fixpoint note_cancels (cancelled : gmap (Z * Z) nat) (items : list Item) : res (gmap (Z * Z) nat) :=
  match items with
  | [] => Ok cancelled
  | item :: items =>
      k ← kind item;
      cancelled ← (if negb (k =? XFS_LI_BUF) then Ok cancelled else note_cancel cancelled item);
      note_cancels cancelled items
  end.

(** The second pass over the buffer items of the log, in order, and how many
    were applied. *)
Fixpoint apply_buffers (into : Overlay) (cancelled : gmap (Z * Z) nat) (items : list Item) (buffers : nat) :
    res (Overlay * gmap (Z * Z) nat * nat) :=
  match items with
  | [] => Ok (into, cancelled, buffers)
  | item :: items =>
      k ← kind item;
      if k =? XFS_LI_BUF then
        r ← apply_buffer into item cancelled;
        let '(applied, into, cancelled) := r in
        apply_buffers into cancelled items (if applied : bool then buffers + 1 else buffers)%nat
      else apply_buffers into cancelled items buffers
  end.
End apply.
End native.

(** ** Reading back a payload *)

Lemma slice_mid {A} (pre x post : list A) off n :
  (off + n <= length x)%nat -> slice (length pre + off) n (pre ++ x ++ post) = slice off n x.
Proof.
  intros H. unfold slice. rewrite <- drop_drop, drop_app_length, drop_app_le, take_app_le; [done| |lia].
  rewrite length_drop. lia.
Qed.

Section payload.
Context `{Hst : Host} {S : Type} (visit : S -> list Item -> res S).

Fixpoint take_ops (tid : Z) (ops : list Op) (in_flight : gmap Z (list Item)) (s : S) :
    res (gmap Z (list Item) * S) :=
  match ops with
  | [] => Ok (in_flight, s)
  | op :: ops =>
      r ← take_op visit in_flight s tid (op_flags op) (op_data op);
      take_ops tid ops r.1 r.2
  end.

Definition op_typed (op : Op) : Prop :=
  in_u 8 (op_flags op) /\ Z.of_nat (length (op_data op)) < 2 ^ 32.

Lemma length_payload_op tid op : length (payload_op tid op) = (12 + length (op_data op))%nat.
Proof. unfold payload_op. rewrite !length_app, !length_to_be_bytes. cbn [length]. lia. Qed.

Lemma read_ops_step tid op post n pre in_flight s :
  in_u 32 tid -> op_typed op ->
  read_ops visit (Datatypes.S n) (pre ++ payload_op tid op ++ post) (length pre) in_flight s =
  (r ← take_op visit in_flight s tid (op_flags op) (op_data op);
   read_ops visit n (pre ++ payload_op tid op ++ post) (length pre + length (payload_op tid op)) r.1 r.2).
Proof.
  intros Ht [Hf Hl]. pose proof (length_payload_op tid op) as Hlen.
  set (x := payload_op tid op) in *. set (data := pre ++ x ++ post).
  assert (Hd : length data = (length pre + (12 + length (op_data op)) + length post)%nat)
    by (unfold data; rewrite !length_app, Hlen; lia).
  cbn [read_ops]. unfold OP_HEADER_SIZE, o.TID, o.LEN, o.FLAGS.
  rewrite (proj2 (Nat.ltb_ge _ _)) by lia. cbn [fail_if mbind res_bind].
  rewrite !be32_Ok by lia. cbn [mbind res_bind]. unfold rd, data. rewrite !slice_mid by lia.
  change (slice 0 4 x) with (to_be_bytes 4 tid).
  change (slice 4 4 x) with (to_be_bytes 4 (wrap 32 (Z.of_nat (length (op_data op))))).
  rewrite (wrap_small 32) by (unfold in_u; lia). rewrite !from_to_be_bytes_small, Nat2Z.id by (done || (cbn; lia)).
  assert ((pre ++ x ++ post) !! (length pre + 9)%nat = Some (z2b (op_flags op))) as ->.
  { rewrite lookup_app_r, lookup_app_l by lia. replace (_ - _)%nat with 9%nat by lia. done. }
  cbn [expect fmap res_fmap mbind res_bind]. rewrite b2z_z2b, Z.mod_small by (unfold in_u in Hf; lia).
  fold data. rewrite (proj2 (Nat.ltb_ge _ _)) by lia. cbn [fail_if mbind res_bind].
  rewrite get_slice_Ok by lia. cbn [mbind res_bind].
  replace (slice (length pre + 12) (length (op_data op)) data) with (op_data op).
  2: { unfold data. rewrite slice_mid by lia.
       transitivity (slice 0 (length (op_data op)) (op_data op)); [|done].
       unfold slice. cbn [drop]. by rewrite take_ge. }
  rewrite Hlen. replace (length pre + 12 + length (op_data op))%nat with (length pre + (12 + length (op_data op)))%nat by lia.
  destruct (take_op _ _ _ _ _ _) as [[i' s']|e|]; done.
Qed.

Lemma read_ops_payload_at tid ops : forall pre in_flight s,
  in_u 32 tid -> Forall op_typed ops ->
  read_ops visit (length ops) (pre ++ payload tid ops) (length pre) in_flight s =
  take_ops tid ops in_flight s.
Proof.
  induction ops as [|op ops IH]; intros pre in_flight s Ht Ho; [done|].
  rewrite Forall_cons in Ho. destruct Ho as [Ho Hos]. cbn [length take_ops].
  change (payload tid (op :: ops)) with (payload_op tid op ++ payload tid ops).
  rewrite read_ops_step by done. destruct (take_op _ _ _ _ _ _) as [[i' s']|e|]; cbn [mbind res_bind fst snd]; [|done..].
  rewrite <- length_app, app_assoc. by apply IH.
Qed.
End payload.

(** Reading the operations of a payload gives, one by one and with nothing
    left over, the operations it was assembled from, whatever transactions are
    in flight and whatever is done with each. *)
Theorem read_ops_payload `{Hst : Host} {S : Type} (visit : S -> list Item -> res S) tid ops in_flight s :
  in_u 32 tid -> Forall op_typed ops ->
  read_ops visit (length ops) (payload tid ops) 0 in_flight s = take_ops visit tid ops in_flight s.
Proof. apply (read_ops_payload_at visit tid ops []). Qed.

(** ** A transaction of buffer items *)

#[global] Instance little_endian : Host := {| host_big_endian := false |}.

Definition log_item_of (ops : list Op) : Item := mkLogItem (op_data <$> ops) (length ops).
(** The last item has all its regions, so the next operation opens another. *)
Definition settled (items : list Item) : Prop :=
  forall item, list.last items = Some item -> (total item <= length (regions item))%nat.

Definition gather (items : list Item) (ops : list Op) : list Item :=
  foldl (fun its op => add_region its (op_data op) (op_flags op)) items ops.

Lemma gather_regions items l : forall rs n,
  Forall (fun op => op_flags op = 0 /\ op_data op <> []) l ->
  (length rs + length l <= n)%nat -> rs <> [] ->
  gather (items ++ [mkLogItem rs n]) l = items ++ [mkLogItem (rs ++ (op_data <$> l)) n].
Proof.
  induction l as [|op l IH]; intros rs n Hl Hn Hr; cbn [gather foldl fmap list_fmap].
  { by rewrite app_nil_r. }
  rewrite Forall_cons in Hl. destruct Hl as [[Hf Hd] Hl]. cbn [length] in Hn.
  assert (add_region (items ++ [mkLogItem rs n]) (op_data op) (op_flags op) =
    items ++ [mkLogItem (rs ++ [op_data op]) n]) as ->.
  { unfold add_region. rewrite Hf. cbn [Z.land Z.eqb negb].
    destruct (Nat.eqb_spec (length (op_data op)) 0) as [?%nil_length_inv|]; [done|].
    assert (is_trans_header (items ++ [mkLogItem rs n]) (op_data op) = false) as -> by by destruct items.
    rewrite last_snoc. cbn [regions total]. rewrite (proj2 (Nat.ltb_lt _ _)) by lia.
    by rewrite removelast_last. }
  change (foldl _ ?a l) with (gather a l). rewrite IH; [|done|rewrite length_app; cbn; lia|by destruct rs].
  by rewrite <- app_assoc.
Qed.

Lemma native_u16_slice f off : (off + 2 <= length f)%nat -> native_u16 f off = Ok (from_le_bytes (slice off 2 f)).
Proof. intros H. unfold native_u16. by rewrite get_slice_Ok. Qed.
Lemma native_u32_slice f off : (off + 4 <= length f)%nat -> native_u32 f off = Ok (from_le_bytes (slice off 4 f)).
Proof. intros H. unfold native_u32. by rewrite get_slice_Ok. Qed.
Lemma native_u64_slice f off : (off + 8 <= length f)%nat -> native_u64 f off = Ok (from_le_bytes (slice off 8 f)).
Proof. intros H. unfold native_u64. by rewrite get_slice_Ok. Qed.

Lemma new_item_format item n :
  Z.of_nat (1 + n) < 2 ^ 16 ->
  new_item (format_bytes item n) = mkLogItem [format_bytes item n] (1 + n).
Proof.
  intros Hn. unfold new_item. pose proof (length_format_bytes item n) as Hl. unfold BLF_HEADER_SIZE in Hl.
  rewrite (proj2 (Nat.leb_le _ _)) by lia. rewrite native_u16_slice by lia.
  change (slice 2 2 (format_bytes item n)) with (to_le_bytes 2 (Z.of_nat (1 + n))).
  rewrite from_to_le_bytes_small by (cbn; lia). rewrite Nat2Z.id. f_equal. lia.
Qed.

(** The type and the count of a buffer item's format are not the magic a
    transaction header begins with. *)
Lemma format_not_header items item n :
  Z.of_nat (1 + n) < 2 ^ 16 -> is_trans_header items (format_bytes item n) = false.
Proof.
  intros Hn. unfold is_trans_header. destruct items; [|done].
  pose proof (length_format_bytes item n) as Hl. unfold BLF_HEADER_SIZE in Hl.
  rewrite native_u32_slice by lia. apply andb_false_iff. right.
  change (slice 0 4 (format_bytes item n)) with (to_le_bytes 2 XFS_LI_BUF ++ to_le_bytes 2 (Z.of_nat (1 + n))).
  pose proof (length_to_le_bytes 2 (Z.of_nat (1 + n))) as H2.
  destruct (to_le_bytes 2 (Z.of_nat (1 + n))) as [|c [|e [|]]]; try done.
  change (to_le_bytes 2 XFS_LI_BUF) with [z2b 0x3c; z2b 0x12].
  apply Z.eqb_neq. unfold from_le_bytes, XFS_TRANS_HEADER_MAGIC. cbn [app rev from_be_bytes length].
  pose proof (b2z_range c). pose proof (b2z_range e).
  change (b2z (z2b 60)) with 60. change (b2z (z2b 18)) with 18.
  cbn. lia.
Qed.

Lemma run_bytes_nonempty item rs :
  item_ok item -> is_runs (dirty_bit (dirty item)) 0 (chunk_count (length (data item))) rs ->
  Forall (fun op => op_flags op = 0 /\ op_data op <> []) (mkOp 0 ∘ run_bytes (data item) <$> rs).
Proof.
  intros Hok Hrs. apply Forall_forall. intros op ([s n] & -> & Hin)%list_elem_of_fmap.
  destruct (is_runs_elem _ _ _ _ _ _ Hrs Hin) as (_ & Hn & He). split; [done|].
  cbn [op_data compose]. unfold run_bytes. cbn [fst snd]. intros Hnil%(f_equal length).
  rewrite length_slice in Hnil.
  - cbn in Hnil. unfold BLF_CHUNK in Hnil. lia.
  - rewrite <- (chunks_exact item Hok). nia.
Qed.

(** The operations of one item, after a settled item, are one item. *)
Lemma gather_item items item l :
  item_ok item -> Z.of_nat (length (data item)) <= 2 ^ 22 -> ops item = Ok l -> settled items ->
  gather items l = items ++ [log_item_of l] /\ settled (items ++ [log_item_of l]).
Proof.
  intros Hok Hsz Hl Hs. split.
  2: { intros it. rewrite last_snoc. intros [= <-]. cbn. by rewrite length_fmap. }
  destruct (ops_spec item Hok Hsz) as (rs & E & _ & Hrs & Hn & _).
  rewrite E in Hl. injection Hl as <-. cbn [gather foldl op_data op_flags].
  set (rest := mkOp 0 ∘ run_bytes (data item) <$> rs).
  assert (add_region items (format_bytes item (length rs)) 0 =
    items ++ [mkLogItem [format_bytes item (length rs)] (1 + length rs)]) as ->.
  { unfold add_region. cbn [Z.land Z.eqb negb].
    rewrite (proj2 (Nat.eqb_neq _ _)) by (rewrite length_format_bytes; unfold BLF_HEADER_SIZE; lia).
    rewrite format_not_header, new_item_format by done.
    destruct (list.last items) as [it|] eqn:El; [|done].
    specialize (Hs it El). by rewrite (proj2 (Nat.ltb_ge _ _)) by lia. }
  change (foldl _ ?a rest) with (gather a rest).
  rewrite gather_regions; [|by apply run_bytes_nonempty|unfold rest; rewrite length_fmap; cbn; lia|done].
  assert (Hlr : (1 + length rs)%nat = length (mkOp 0 (format_bytes item (length rs)) :: rest))
    by (cbn [length]; unfold rest; by rewrite length_fmap).
  unfold log_item_of. by rewrite Hlr.
Qed.

(** The operations of a transaction that logs buffers, as the callers of
    [payload] assemble them. *)
Definition transaction (tid kind n : Z) (opss : list (list Op)) : list Op :=
  mkOp XLOG_START_TRANS [] :: mkOp 0 (trans_header tid kind n) ::
  concat opss ++ [mkOp XLOG_COMMIT_TRANS []].

Section transaction.
Context {S : Type} (visit : S -> list Item -> res S).

Lemma take_op_start fl s tid body : take_op visit fl s tid XLOG_START_TRANS body = Ok (<[tid := []]> fl, s).
Proof. done. Qed.
Lemma take_op_region fl s tid body items :
  fl !! tid = Some items -> take_op visit fl s tid 0 body = Ok (<[tid := add_region items body 0]> fl, s).
Proof. intros Hi. unfold take_op. rewrite !Z.land_0_l. cbn [Z.eqb negb]. by rewrite Hi. Qed.
Lemma take_op_commit fl s tid body items :
  fl !! tid = Some items -> items <> [] ->
  take_op visit fl s tid XLOG_COMMIT_TRANS body = (s' ← visit s items; Ok (delete tid fl, s')).
Proof.
  intros Hi Hn. unfold take_op.
  assert (negb (Z.land XLOG_COMMIT_TRANS XLOG_UNMOUNT_TRANS =? 0) = false) as -> by done.
  assert (negb (Z.land XLOG_COMMIT_TRANS XLOG_START_TRANS =? 0) = false) as -> by done.
  assert (negb (Z.land XLOG_COMMIT_TRANS XLOG_COMMIT_TRANS =? 0) = true) as -> by done.
  rewrite Hi. by destruct items.
Qed.

Lemma take_ops_gather tid rest s ops : forall in_flight items,
  Forall (fun op => op_flags op = 0) ops -> in_flight !! tid = Some items ->
  take_ops visit tid (ops ++ rest) in_flight s =
  take_ops visit tid rest (<[tid := gather items ops]> in_flight) s.
Proof.
  induction ops as [|op ops IH]; intros fl items Hf Hi; cbn [app take_ops gather foldl].
  { by rewrite insert_id. }
  rewrite Forall_cons in Hf. destruct Hf as [Hf Hfs]. rewrite Hf, (take_op_region _ _ _ _ items Hi).
  cbn [mbind res_bind fst snd].
  rewrite (IH _ (add_region items (op_data op) 0)); [|done|by rewrite lookup_insert_eq].
  by rewrite insert_insert_eq.
Qed.

Definition loggable (item : BufferItem) : Prop :=
  item_ok item /\ Z.of_nat (length (data item)) <= 2 ^ 22.

Lemma ops_typed item l :
  loggable item -> ops item = Ok l ->
  Forall (fun op => op_flags op = 0 /\ op_typed op) l.
Proof.
  intros [Hok Hsz] Hl. destruct (ops_spec item Hok Hsz) as (rs & E & _ & Hrs & _).
  rewrite E in Hl. injection Hl as <-. unfold op_typed, in_u.
  pose proof (chunks_exact item Hok) as Hc. unfold BLF_CHUNK in Hc. apply Forall_cons_2.
  - cbn [op_flags op_data]. rewrite length_format_bytes, (io_words _ Hok). unfold BLF_HEADER_SIZE.
    pose proof (div_ceil_bounds (chunk_count (length (data item))) CHUNKS_PER_WORD ltac:(unfold CHUNKS_PER_WORD; lia)).
    unfold CHUNKS_PER_WORD in *. lia.
  - apply Forall_forall. intros op ([s n] & -> & Hin)%list_elem_of_fmap. cbn [op_flags op_data compose].
    destruct (is_runs_elem _ _ _ _ _ _ Hrs Hin) as (_ & Hn & He). unfold run_bytes. cbn [fst snd].
    rewrite length_slice by (unfold BLF_CHUNK; lia). unfold BLF_CHUNK. lia.
Qed.

Lemma gather_items items : forall opss its,
  Forall loggable items -> res_map ops items = Ok opss -> settled its ->
  gather its (concat opss) = its ++ (log_item_of <$> opss) /\
  Forall (fun op => op_flags op = 0 /\ op_typed op) (concat opss).
Proof.
  induction items as [|item items IH]; intros opss its Hl; cbn [res_map].
  { intros [= <-] _. cbn. by rewrite app_nil_r. }
  rewrite Forall_cons in Hl. destruct Hl as [Hi Hl].
  destruct (ops item) as [l|e|] eqn:E; cbn [mbind res_bind]; [|done..].
  destruct (res_map ops items) as [opss'|e|] eqn:E'; cbn [mbind res_bind]; [|done..].
  intros [= <-] Hs. destruct Hi as [Hok Hsz].
  destruct (gather_item its item l Hok Hsz E Hs) as [Hg Hs'].
  destruct (IH opss' (its ++ [log_item_of l]) Hl eq_refl Hs') as [Hg' Ht].
  cbn [concat fmap list_fmap]. split.
  - unfold gather. rewrite foldl_app. fold (gather its l). rewrite Hg.
    change (foldl _ ?a (concat opss')) with (gather a (concat opss')). rewrite Hg'. by rewrite <- app_assoc.
  - apply Forall_app. split; [|done]. by eapply ops_typed.
Qed.
End transaction.

(** A transaction logging any number of buffers is read back, once its commit
    is reached, as exactly those items, each with its own regions; nothing of
    it is left in flight, and other transactions are untouched. *)
Theorem transaction_roundtrip {S : Type} (visit : S -> list Item -> res S) tid kind n items opss in_flight s :
  in_u 32 tid -> Forall loggable items -> items <> [] -> res_map ops items = Ok opss ->
  in_flight !! tid = None ->
  read_ops visit (length (transaction tid kind n opss)) (payload tid (transaction tid kind n opss)) 0 in_flight s =
  (s' ← visit s (log_item_of <$> opss); Ok (in_flight, s')).
Proof.
  intros Ht Hl Hne Ho Hf. destruct (gather_items items opss [] Hl Ho) as [Hg Hty]; [done|].
  rewrite (read_ops_payload_at visit tid (transaction tid kind n opss) []).
  - unfold transaction. cbn [take_ops op_flags op_data]. rewrite take_op_start. cbn [mbind res_bind fst snd].
    rewrite (take_op_region visit _ _ _ _ []) by apply lookup_insert_eq. cbn [mbind res_bind fst snd].
    change (add_region [] (trans_header tid kind n) 0) with (@nil Item). rewrite insert_insert_eq.
    rewrite (take_ops_gather visit tid _ s (concat opss) _ []);
      [|eapply Forall_impl; [exact Hty|by intros ? [? _]]|by rewrite lookup_insert_eq].
    rewrite Hg, insert_insert_eq. cbn [take_ops app op_flags op_data].
    assert (log_item_of <$> opss <> []) as Hn.
    { destruct opss as [|l opss]; [|done]. destruct items; [done|]. cbn [res_map] in Ho.
      by destruct (ops b), (res_map ops items). }
    rewrite (take_op_commit visit _ _ _ _ (log_item_of <$> opss) (lookup_insert_eq _ _ _) Hn).
    rewrite delete_insert_id by done. by destruct (visit _ _).
  - done.
  - unfold transaction. repeat apply Forall_cons_2; [| |apply Forall_app; split].
    + unfold op_typed, in_u, XLOG_START_TRANS, XLOG_COMMIT_TRANS. cbn. lia.
    + unfold op_typed, in_u, XLOG_START_TRANS, XLOG_COMMIT_TRANS. cbn. lia.
    + eapply Forall_impl; [exact Hty|by intros ? [_ ?]].
    + apply Forall_singleton. unfold op_typed, in_u, XLOG_START_TRANS, XLOG_COMMIT_TRANS. cbn. lia.
Qed.

(** ** Replaying an item *)

Lemma run_end_ext p p' end_ fuel : forall k,
  (forall j, (j < end_)%nat -> p j = p' j) -> run_end p end_ fuel k = run_end p' end_ fuel k.
Proof.
  induction fuel as [|fuel IH]; intros k Hp; cbn [run_end]; [done|].
  destruct (Nat.ltb_spec k end_); [|done]. rewrite Hp by done.
  destruct (p' k) as [[]|e|]; cbn [mbind res_bind]; auto.
Qed.
Lemma scan_ext p p' end_ fuel : forall k,
  (forall j, (j < end_)%nat -> p j = p' j) -> scan p end_ fuel k = scan p' end_ fuel k.
Proof.
  induction fuel as [|fuel IH]; intros k Hp; cbn [scan]; [done|].
  destruct (Nat.ltb_spec k end_); [|done]. rewrite Hp by done.
  destruct (p' k) as [[]|e|]; cbn [mbind res_bind]; auto.
  rewrite (run_end_ext p p') by done. destruct (run_end p' end_ (end_ - k) k); cbn [mbind res_bind]; [|done..].
  by rewrite IH.
Qed.

(** The reader finds the runs the writer made. *)
Lemma runs_of_dirty item :
  item_ok item -> runs_of (dirty item) (length (data item) / BLF_CHUNK) = runs item.
Proof.
  intros Hok. unfold runs_of, runs.
  pose proof (chunks_exact item Hok) as Hc.
  assert (length (data item) / BLF_CHUNK = chunk_count (length (data item)))%nat as ->.
  { rewrite <- Hc at 1. by apply Nat.div_mul. }
  assert (Nat.min (length (dirty item) * 32) (chunk_count (length (data item))) =
          chunk_count (length (data item))) as ->.
  { rewrite (io_words _ Hok).
    pose proof (div_ceil_bounds (chunk_count (length (data item))) CHUNKS_PER_WORD ltac:(unfold CHUNKS_PER_WORD; lia)).
    unfold CHUNKS_PER_WORD in *. lia. }
  apply scan_ext. intros j Hj. rewrite is_dirty_Ok by by apply words_cover.
  f_equal. unfold map_word_bit, dirty_bit, CHUNKS_PER_WORD.
  destruct (dirty item !! (j / 32)%nat); [|done]. cbn [is_some_and]. apply land_bit. lia.
Qed.

Lemma words_of_bytes f ws : forall pre,
  length pre = 20%nat -> f = pre ++ concat (to_le_bytes 4 <$> ws) -> Forall (in_u 32) ws ->
  res_map (fun i => native_u32 f (at_.DATA_MAP + 4 * i)%nat) (seq 0 (length ws)) = Ok ws.
Proof.
  intros pre Hp -> Hw.
  assert (Hgen : forall ws2 ws1, Forall (in_u 32) ws2 ->
    res_map (fun i => native_u32 (pre ++ concat (to_le_bytes 4 <$> (ws1 ++ ws2))) (at_.DATA_MAP + 4 * i)%nat)
      (seq (length ws1) (length ws2)) = Ok ws2).
  { clear Hw. induction ws2 as [|w ws2 IH]; intros ws1 Hw; [done|]. cbn [length seq res_map].
    rewrite Forall_cons in Hw. destruct Hw as [Hw Hws].
    rewrite fmap_app, concat_app, app_assoc. cbn [fmap list_fmap concat].
    change (list_fmap _ _ (to_le_bytes 4) ws2) with (to_le_bytes 4 <$> ws2).
    set (pre' := pre ++ concat (to_le_bytes 4 <$> ws1)).
    assert (Hl : length pre' = (at_.DATA_MAP + 4 * length ws1)%nat)
      by (unfold pre'; rewrite length_app, length_concat_words, Hp; done).
    rewrite native_u32_slice by (rewrite <- Hl, !length_app, length_to_le_bytes; lia).
    rewrite <- Hl, <- (Nat.add_0_r (length pre')), slice_mid by (rewrite length_to_le_bytes; lia).
    change (slice 0 4 (to_le_bytes 4 w)) with (to_le_bytes 4 w).
    rewrite from_to_le_bytes_small by done. cbn [mbind res_bind].
    specialize (IH (ws1 ++ [w]) Hws). rewrite length_app in IH. cbn [length] in IH.
    rewrite Nat.add_1_r in IH. rewrite <- app_assoc in IH. cbn [app] in IH.
    rewrite fmap_app, concat_app, app_assoc in IH. cbn [fmap list_fmap concat] in IH.
    fold pre' in IH. by rewrite IH. }
  exact (Hgen ws [] Hw).
Qed.

(** Laying the runs of [data] over a buffer that differs from it only there
    gives [data]. *)
Lemma apply_runs_spec data rs : forall buffer,
  length buffer = length data ->
  Forall (fun r => (r.1 * BLF_CHUNK + r.2 * BLF_CHUNK <= length data)%nat) rs ->
  (forall i, buffer !! i <> data !! i ->
     exists r, r ∈ rs /\ (r.1 * BLF_CHUNK <= i < r.1 * BLF_CHUNK + r.2 * BLF_CHUNK)%nat) ->
  apply_runs rs (run_bytes data <$> rs) buffer = Ok data.
Proof.
  induction rs as [|[s n] rs IH]; intros buffer Hl Hb Hd; cbn [apply_runs fmap list_fmap].
  { f_equal. apply list_eq. intros i. destruct (decide (buffer !! i = data !! i)) as [|Hn]; [done|].
    destruct (Hd i Hn) as (r & Hr & _). by apply elem_of_nil in Hr. }
  rewrite Forall_cons in Hb. destruct Hb as [Hb Hbs]. cbn [fst snd] in Hb.
  assert (Hrl : length (run_bytes data (s, n)) = (n * BLF_CHUNK)%nat) by (apply length_slice; cbn [fst snd]; lia).
  rewrite Hrl, Nat.min_id, Nat.min_l by lia. rewrite get_slice_Ok by lia. cbn [mbind res_bind].
  replace (slice 0 (n * BLF_CHUNK) (run_bytes data (s, n))) with (run_bytes data (s, n))
    by (symmetry; apply (take_ge (run_bytes data (s, n))); lia).
  rewrite copy_at_Ok by lia. cbn [mbind res_bind].
  change (list_fmap _ _ (run_bytes data) rs) with (run_bytes data <$> rs).
  apply IH; [rewrite length_splice; lia|done|].
  intros i Hi. destruct (decide (s * BLF_CHUNK <= i < s * BLF_CHUNK + n * BLF_CHUNK)%nat) as [Hin|Hout].
  - exfalso. apply Hi. rewrite lookup_splice_in by lia. unfold run_bytes. cbn [fst snd].
    rewrite lookup_slice, decide_True by lia. f_equal. lia.
  - rewrite lookup_splice_out in Hi by lia. destruct (Hd i Hi) as (r & [->|Hr]%elem_of_cons & Hri);
      [cbn [fst snd] in Hri; lia|by exists r].
Qed.

(** The flags word: the type above, the flags below. *)
Lemma flags_word fl ty :
  0 <= ty < 32 ->
  let w := Z.lor (Z.land fl BLF_FLAG_MASK) (wrap 16 (Z.shiftl ty BLF_TYPE_SHIFT)) in
  in_u 16 w /\ Z.shiftr w BLF_TYPE_SHIFT = ty /\
  Z.land w BLF_CANCEL = Z.land fl BLF_CANCEL /\ Z.land w BLF_INODE_BUF = Z.land fl BLF_INODE_BUF.
Proof.
  intros Ht w. unfold BLF_FLAG_MASK, BLF_TYPE_SHIFT, BLF_CANCEL, BLF_INODE_BUF in *.
  assert (0 <= Z.land fl 2047 < 2 ^ 11) by (change 2047 with (2 ^ 11 - 1); rewrite land_mask by lia; apply Z.mod_pos_bound; lia).
  assert (w = ty * 2 ^ 11 + Z.land fl 2047) as Hw.
  { unfold w. rewrite wrap_small by (rewrite Z.shiftl_mul_pow2 by lia; unfold in_u; lia).
    rewrite Z.lor_comm, Z.shiftl_mul_pow2 by lia. apply lor_disjoint_add; lia. }
  assert (Hlow : forall m, 0 <= m < 2048 -> Z.land w m = Z.land fl m).
  { intros m Hm. unfold w. rewrite Z.land_lor_distr_l, <- Z.land_assoc.
    assert (Z.land 2047 m = m) as ->.
    { rewrite Z.land_comm. change 2047 with (2 ^ 11 - 1). rewrite land_mask by lia. apply Z.mod_small. lia. }
    rewrite wrap_small by (rewrite Z.shiftl_mul_pow2 by lia; unfold in_u; lia).
    assert (Z.land (Z.shiftl ty 11) m = 0) as ->; [|apply Z.lor_0_r].
    apply Z.bits_inj'. intros i Hi. rewrite Z.land_spec, Z.bits_0.
    destruct (decide (i < 11)); [by rewrite Z.shiftl_spec_low|].
    replace (Z.testbit m i) with false; [apply andb_false_r|]. symmetry.
    destruct (decide (m = 0)) as [->|]; [apply Z.bits_0|].
    apply Z.bits_above_log2; [lia|]. apply Z.lt_le_trans with 11; [|lia]. apply Z.log2_lt_pow2; lia. }
  split; [unfold in_u; lia|]. split; [|split; apply Hlow; lia].
  rewrite Hw, Z.shiftr_div_pow2, Z.add_comm, Z.div_add, Z.div_small by lia. lia.
Qed.

(** Recovery stamps a block of these kinds where the mount does. *)
Definition stamps_alike (ty : Z) (data : bytes) : Prop :=
  ty <> BLFT_DINO /\
  (ty = BLFT_BTREE -> be32 data 0 <> Ok XFS_BMAP_MAGIC) /\
  (ty = BLFT_SB -> exists v, be16 data Superblock.offsets.VERSIONNUM = Ok v /\
                   Z.land v XFS_SB_VERSION_NUMBITS = 5).

Lemma stamp_image `{Crc : Crc32c} sb item :
  is_v5 sb = true -> item_ok item -> stamps_alike (buf_type item) (data item) ->
  stamp sb (buf_type item) (data item) = image_as_written item.
Proof.
  intros Hv Hok (Hd & Hb & Hs). unfold stamp, image_as_written, crc_offset. rewrite Hv. cbn [negb].
  assert (Hl : (512 <= length (data item))%nat).
  { destruct Hok as [Hm Hp _ _]. unfold BBSIZE in Hm.
    apply Nat.Lcm0.mod_divide in Hm as [k Hk]. lia. }
  set (t := buf_type item) in *.
  destruct (Z.eqb_spec t BLFT_AGF); [done|]. destruct (Z.eqb_spec t BLFT_AGI); [done|].
  destruct (Z.eqb_spec t BLFT_AGFL); [done|]. destruct (Z.eqb_spec t BLFT_BTREE) as [Et|].
  { specialize (Hb Et). unfold btree_is_long_form.
    rewrite (proj2 (Nat.ltb_ge _ _)), (proj2 (Nat.leb_le _ _)) by lia.
    rewrite be32_Ok in * by lia. cbn [andb].
    destruct (Z.eqb_spec (rd 4 0 (data item)) XFS_BMAP_CRC_MAGIC); [done|].
    destruct (Z.eqb_spec (rd 4 0 (data item)) XFS_BMAP_MAGIC) as [E|]; [|done].
    exfalso. apply Hb. by rewrite E. }
  rewrite (proj2 (Z.eqb_neq t BLFT_DINO)) by done.
  destruct (Z.eqb_spec t BLFT_DIR_BLOCK); [done|]. destruct (Z.eqb_spec t BLFT_DIR_DATA); [done|].
  destruct (Z.eqb_spec t BLFT_DIR_FREE) as [->|]; [done|].
  destruct (Z.eqb_spec t BLFT_DIR_LEAF1); [done|]. destruct (Z.eqb_spec t BLFT_DIR_LEAFN); [done|].
  destruct (Z.eqb_spec t BLFT_DA_NODE); [done|]. destruct (Z.eqb_spec t BLFT_ATTR_LEAF); [done|].
  destruct (Z.eqb_spec t BLFT_SYMLINK); [done|]. destruct (Z.eqb_spec t BLFT_SB) as [Et|]; [|done].
  destruct (Hs Et) as (v & -> & ->). cbn [orb andb].
  by rewrite (proj2 (Nat.ltb_lt _ _)) by (unfold Superblock.offsets.VERSIONNUM; lia).
Qed.

Section replay.
Context `{Crc : Crc32c} (sb : Superblock) (Hv : is_v5 sb = true).
Context {D : Type} {dev : BlockDevice D} {laws : BlockDeviceLaws D} (d : D).

(** What the format operation of an item says. *)
Lemma header_of_format item n :
  in_u 64 (blkno item) -> in_u 16 (Z.lor (flags item) (wrap 16 (Z.shiftl (buf_type item) BLF_TYPE_SHIFT))) ->
  Z.of_nat (length (data item) / BBSIZE) < 2 ^ 16 ->
  header_of (format_bytes item n) =
  Ok (mkHeader (Z.lor (flags item) (wrap 16 (Z.shiftl (buf_type item) BLF_TYPE_SHIFT))) (blkno item)
        (Z.of_nat (length (data item) / BBSIZE))).
Proof.
  intros Hb Hf Hl. pose proof (length_format_bytes item n) as Hlen. unfold BLF_HEADER_SIZE in Hlen.
  set (w := Z.lor _ _) in *. unfold header_of, at_.FLAGS, at_.BLKNO, at_.LEN.
  rewrite !native_u16_slice, native_u64_slice by lia. cbn [mbind res_bind].
  change (slice 4 2 (format_bytes item n)) with (to_le_bytes 2 w).
  change (slice 6 2 (format_bytes item n)) with (to_le_bytes 2 (Z.of_nat (length (data item) / BBSIZE))).
  change (slice 8 8 (format_bytes item n)) with (to_le_bytes 8 (blkno item)).
  rewrite (from_to_le_bytes_small 2 w) by done. rewrite (from_to_le_bytes_small 8) by done.
  rewrite from_to_le_bytes_small; [done|]. split; [lia|done].
Qed.

(** The bitmap read out of the format operation is the item's. *)
Lemma map_of_format item n :
  item_ok item -> Z.of_nat (length (data item)) <= 2 ^ 22 ->
  native_u32 (format_bytes item n) at_.MAP_SIZE = Ok (Z.of_nat (length (dirty item))) /\
  res_map (fun i => native_u32 (format_bytes item n) (at_.DATA_MAP + 4 * i)%nat)
    (seq 0 (length (dirty item))) = Ok (dirty item).
Proof.
  intros Hok Hsz. pose proof (length_format_bytes item n) as Hlen. unfold BLF_HEADER_SIZE in Hlen.
  assert (Hd : Z.of_nat (length (dirty item)) < 2 ^ 32).
  { rewrite (io_words _ Hok). pose proof (chunks_exact item Hok) as Hc. unfold BLF_CHUNK in Hc.
    pose proof (div_ceil_bounds (chunk_count (length (data item))) CHUNKS_PER_WORD ltac:(unfold CHUNKS_PER_WORD; lia)).
    unfold CHUNKS_PER_WORD in *. lia. }
  split.
  - unfold at_.MAP_SIZE. rewrite native_u32_slice by lia.
    change (slice 16 4 (format_bytes item n)) with (to_le_bytes 4 (wrap 32 (Z.of_nat (length (dirty item))))).
    rewrite wrap_small by (unfold in_u; lia). rewrite from_to_le_bytes_small; [done|]. split; [lia|done].
  - apply (words_of_bytes _ _ (list.take 20 (format_bytes item n))).
    + rewrite length_take. lia.
    + unfold format_bytes. rewrite !app_assoc. set (pre := _ ++ to_le_bytes 4 _).
      assert (Hp : length pre = 20%nat) by (unfold pre; by rewrite !length_app, !length_to_le_bytes).
      rewrite <- Hp. by rewrite take_app_length.
    + apply Hok.
Qed.

Lemma read_block into pos base :
  overlay_ok into -> 0 <= pos -> pos + Z.of_nat (length base) < 2 ^ 64 ->
  (dev_read d pos (replicate (length base) x00)).2 = Ok tt ->
  (forall i, (i < length base)%nat -> base !! i = Some (view d into (pos + Z.of_nat i))) ->
  read_at d into pos (replicate (length base) x00) = Ok base.
Proof.
  intros Hok Hp Hb Hr Hv'. pose proof (read_at_spec d into pos (replicate (length base) x00) Hok Hp) as H.
  rewrite length_replicate in H. specialize (H Hb). rewrite Hr in H.
  destruct (read_at _ _ _ _) as [buf|e|]; [|done..]. destruct H as [Hl H]. f_equal.
  apply list_eq_same_length with (length base); [done|done|].
  intros i x y Hi Hx Hy. rewrite H in Hx by done. rewrite Hv' in Hy by done. congruence.
Qed.

Lemma image_total item : exists image, image_as_written item = Ok image.
Proof.
  unfold image_as_written. destruct (crc_offset item) as [at0|]; [|by eexists].
  unfold restamp. destruct (Nat.ltb_spec (length (data item)) (at0 + 4)); [by eexists|].
  rewrite crc32c_with_zeroed_crc_Ok by lia. cbn [mbind res_bind].
  rewrite copy_at_Ok by (rewrite length_to_le_bytes; lia). by eexists.
Qed.

(** The regions of the data operations. *)
Lemma regions_of_runs data (rs : list (nat * nat)) : op_data <$> (mkOp 0 ∘ run_bytes data <$> rs) = run_bytes data <$> rs.
Proof. by rewrite <- list_fmap_compose. Qed.

Lemma blocks_exact (base : bytes) :
  (length base mod BBSIZE = 0)%nat -> (length base / BBSIZE * BBSIZE = length base)%nat.
Proof. intros Hm. pose proof (Nat.div_mod_eq (length base) BBSIZE) as Hdm. rewrite Hm in Hdm. lia. Qed.

(** The logged chunks over the block they were made from give the item. *)
Lemma apply_runs_item item (base : bytes) rs :
  item_ok item -> length (data item) = length base ->
  (forall i, data item !! i <> base !! i -> dirty_bit (dirty item) (i / BLF_CHUNK) = true) ->
  is_runs (dirty_bit (dirty item)) 0 (chunk_count (length (data item))) rs ->
  apply_runs rs (run_bytes (data item) <$> rs) base = Ok (data item).
Proof.
  intros Hitem L1 C1 Hrs. apply apply_runs_spec.
  - by rewrite L1.
  - apply Forall_forall. intros [s n] Hin. destruct (is_runs_elem _ _ _ _ _ _ Hrs Hin) as (_ & _ & He).
    cbn [fst snd]. rewrite <- (chunks_exact item Hitem). nia.
  - intros i Hi. assert (Hd : dirty_bit (dirty item) (i / BLF_CHUNK) = true) by (apply C1; congruence).
    assert (Hil : (i < length (data item))%nat).
    { destruct (decide (i < length (data item))%nat); [done|]. exfalso. apply Hi.
      rewrite !lookup_ge_None_2 by lia. done. }
    pose proof (chunks_exact item Hitem) as Hc. pose proof (Nat.div_mod_eq i BLF_CHUNK) as Hdm.
    pose proof (Nat.mod_upper_bound i BLF_CHUNK ltac:(done)).
    apply (is_runs_cover _ _ _ _ _ Hrs) in Hd as (s & n & Hin & Hsn); [|nia].
    exists (s, n). split; [done|]. cbn [fst snd]. nia.
Qed.

(** Recovery's reading of an item that is neither cancelled nor a cancel. *)
Lemma apply_buffer_item into cancelled item (base : bytes) rs n :
  item_ok item -> length (data item) = length base -> Z.of_nat (length base) <= 2 ^ 22 ->
  (forall i, data item !! i <> base !! i -> dirty_bit (dirty item) (i / BLF_CHUNK) = true) ->
  runs item = Ok rs -> is_runs (dirty_bit (dirty item)) 0 (chunk_count (length (data item))) rs ->
  Z.of_nat (length (data item) / BBSIZE) < 2 ^ 16 ->
  0 <= buf_type item < 32 -> (exists fl, flags item = Z.land fl BLF_FLAG_MASK /\
    Z.land fl BLF_CANCEL = 0 /\ Z.land fl BLF_INODE_BUF = 0) ->
  0 <= blkno item -> blkno item * 512 + Z.of_nat (length base) < 2 ^ 64 ->
  read_at d into (blkno item * 512) (replicate (length base) x00) = Ok base ->
  cancelled !! (blkno item, Z.of_nat (length base / BBSIZE)) = None ->
  apply_buffer sb d into
    (mkLogItem (format_bytes item (length rs) :: (run_bytes (data item) <$> rs)) n) cancelled =
  (image ← stamp sb (buf_type item) (data item);
   into ← wrote d into (blkno item * 512) image; Ok (true, into, cancelled)).
Proof.
  intros Hitem L1 Hsz C1 Er Hrs Hbl Hty (fl & F1 & Hcf & Hif) Hb Hb2 Hrd Hcan.
  destruct (flags_word fl (buf_type item) Hty) as (W1 & W2 & W3 & W4).
  unfold apply_buffer. cbn [regions lookup list_lookup expect mbind res_bind].
  set (f := format_bytes item (length rs)).
  pose proof (length_format_bytes item (length rs)) as Hlen. fold f in Hlen.
  rewrite (proj2 (Nat.ltb_ge _ _)) by lia. cbn [fail_if mbind res_bind].
  unfold f. rewrite header_of_format; [|unfold in_u; lia|by rewrite F1|done]. fold f.
  rewrite F1, L1. cbn [mbind res_bind]. rewrite W3, Hcf, W4, Hif, W2. cbn [Z.eqb negb].
  unfold is_cancelled. rewrite Hcan, bool_decide_false by by intros [? ?].
  pose proof (blocks_exact base ltac:(rewrite <- L1; apply Hitem)) as Hbk.
  pose proof (io_some _ Hitem) as Hpos. rewrite L1 in Hpos.
  rewrite (proj2 (Z.eqb_neq _ 0)) by (intros H0; unfold BBSIZE in *; lia).
  destruct (map_of_format item (length rs) Hitem) as [Hms Hmap]; [by rewrite L1|]. fold f in Hms, Hmap.
  rewrite Hms. cbn [mbind res_bind]. rewrite !Nat2Z.id.
  rewrite (proj2 (Nat.ltb_ge _ _)) by (rewrite Hlen; unfold at_.DATA_MAP, BLF_HEADER_SIZE; lia).
  cbn [fail_if mbind res_bind]. rewrite Hmap. cbn [mbind res_bind].
  rewrite Hbk. change (Z.of_nat BBSIZE) with 512. rewrite wrap_small by (unfold in_u; lia).
  rewrite Hrd. cbn [mbind res_bind]. rewrite <- L1, runs_of_dirty, Er by done. cbn [mbind res_bind drop regions].
  by rewrite drop_0, apply_runs_item.
Qed.

(** C6: replay arrives at what the mount kept: for a block read as [base], an
    item built on it by any edits, and its operations as recovery receives
    them, [apply_buffer] leaves in the overlay exactly what logging
    [image_as_written] there leaves, checksum included. *)
Theorem replay_matches_image into cancelled blk base ty fl edits item l :
  (length base mod BBSIZE = 0)%nat -> (0 < length base)%nat -> Z.of_nat (length base) <= 2 ^ 22 ->
  Forall (in_bounds base) edits ->
  (new blk base ty fl ≫= fun i => edit_all i edits) = Ok item -> ops item = Ok l ->
  0 <= ty < 32 -> Z.land fl BLF_CANCEL = 0 -> Z.land fl BLF_INODE_BUF = 0 ->
  stamps_alike ty (data item) ->
  0 <= blk -> blk * 512 + Z.of_nat (length base) < 2 ^ 64 ->
  overlay_ok into -> (dev_read d (blk * 512) (replicate (length base) x00)).2 = Ok tt ->
  (forall i, (i < length base)%nat -> base !! i = Some (view d into (blk * 512 + Z.of_nat i))) ->
  cancelled !! (blk, Z.of_nat (length base / BBSIZE)) = None ->
  exists image into', image_as_written item = Ok image /\
    wrote d into (blk * 512) image = Ok into' /\
    apply_buffer sb d into (log_item_of l) cancelled = Ok (true, into', cancelled).
Proof.
  intros Hm Hp Hsz Hed Hit Hops Hty Hcf Hif Hst Hb Hb2 Hok Hdr Hbase Hcan.
  destruct (new_spec blk base ty fl Hm Hp) as (i0 & E0 & Hok0 & D0 & B0 & T0 & F0 & X0).
  rewrite E0 in Hit. cbn [mbind res_bind] in Hit.
  destruct (edit_all_spec edits i0 Hok0) as (i1 & E1 & Hok1 & _ & L1 & B1 & T1 & F1 & _ & C1); [by rewrite D0|].
  rewrite E1 in Hit. injection Hit as ->. rewrite D0 in *.
  rewrite B0 in B1. rewrite T0 in T1. rewrite F0 in F1.
  destruct (ops_spec item Hok1) as (rs & E & Er & Hrs & Hn & Hbl); [by rewrite L1|].
  rewrite E in Hops. injection Hops as <-.
  destruct (image_total item) as [image Himg]. exists image.
  assert (Hw : exists into', wrote d into (blk * 512) image = Ok into').
  { unfold wrote. rewrite (proj2 (Z.eqb_eq _ 0)) by (change (Z.of_nat BBSIZE) with 512; apply Z.mod_mul; lia).
    by eexists. }
  destruct Hw as [into' Hw]. exists into'. split; [done|]. split; [done|].
  unfold log_item_of. rewrite fmap_cons, regions_of_runs. cbn [op_data length]. rewrite length_fmap.
  rewrite (apply_buffer_item into cancelled item base rs _); rewrite ?B1, ?T1; try done.
  - assert (stamp sb ty (data item) = image_as_written item) as ->.
    { rewrite <- T1. apply stamp_image; [done|done|by rewrite T1]. }
    rewrite Himg. cbn [mbind res_bind]. by rewrite Hw.
  - exists fl. split; [exact F1|]. split; [exact Hcf|exact Hif].
  - apply read_block; done || lia.
Qed.
End replay.

(** ** Cancelled blocks *)

(** The header of a buffer item recovery looks at, and what it cancels. *)
Definition buf_header (item : Item) : option Header :=
  match regions item !! 0%nat, kind item with
  | Some f, Ok k =>
      if (k =? XFS_LI_BUF) && (BLF_HEADER_SIZE <=? length f)%nat then
        match header_of f with Ok h => Some h | _ => None end
      else None
  | _, _ => None
  end.
Definition key_of (h : Header) : Z * Z := (h_blkno h, h_len h).
Definition cancels_block (k : Z * Z) (item : Item) : Prop :=
  exists h, buf_header item = Some h /\ Z.land (h_flags h) BLF_CANCEL <> 0 /\ key_of h = k.
#[global] Instance cancels_block_dec k item : Decision (cancels_block k item).
Proof.
  refine (match buf_header item as o return buf_header item = o -> _ with
    | Some h => fun E => cast_if (decide (Z.land (h_flags h) BLF_CANCEL <> 0 /\ key_of h = k))
    | None => fun E => right _
    end eq_refl); unfold cancels_block; rewrite E; naive_solver.
Defined.
Definition cancels (k : Z * Z) (items : list Item) : nat := length (filter (cancels_block k) items).

Definition count (m : gmap (Z * Z) nat) (k : Z * Z) : nat := default 0%nat (m !! k).
(** No entry counts down to nothing and stays. *)
Definition counted (m : gmap (Z * Z) nat) : Prop := map_Forall (fun _ n => (0 < n)%nat) m.

Lemma count_pos m k : counted m -> is_Some (m !! k) <-> (0 < count m k)%nat.
Proof.
  intros H. unfold count. destruct (m !! k) as [n|] eqn:E; cbn.
  - specialize (H k n E). cbn in H. split; [done|by eexists].
  - split; [by intros [? ?]|lia].
Qed.

Lemma consume_spec m k k' :
  counted m -> counted (consume m k') /\
  count (consume m k') k = (count m k - (if decide (k' = k) then 1 else 0))%nat.
Proof.
  intros H. unfold consume, count. destruct (m !! k') as [n|] eqn:E.
  - destruct (Nat.eqb_spec (n - 1) 0); split.
    + by apply map_Forall_delete.
    + destruct (decide (k' = k)) as [->|].
      * rewrite lookup_delete_eq, E. cbn. lia.
      * rewrite lookup_delete_ne by done. lia.
    + apply map_Forall_insert_2; [lia|done].
    + destruct (decide (k' = k)) as [->|].
      * rewrite lookup_insert_eq, E. cbn. lia.
      * rewrite lookup_insert_ne by done. lia.
  - split; [done|]. destruct (decide (k' = k)) as [->|]; [rewrite E; cbn; lia|lia].
Qed.

Lemma header_of_Ok f : (BLF_HEADER_SIZE <= length f)%nat -> exists h, header_of f = Ok h /\
  native_u16 f at_.FLAGS = Ok (h_flags h) /\ native_u64 f at_.BLKNO = Ok (h_blkno h) /\
  native_u16 f at_.LEN = Ok (h_len h).
Proof.
  unfold BLF_HEADER_SIZE. intros H. unfold header_of, at_.FLAGS, at_.BLKNO, at_.LEN.
  rewrite !native_u16_slice, native_u64_slice by lia. by eexists.
Qed.

Lemma cancels_cons k item items :
  cancels k (item :: items) = ((if decide (cancels_block k item) then 1 else 0) + cancels k items)%nat.
Proof. unfold cancels. rewrite filter_cons. by destruct (decide _). Qed.

(** What a header says of the block it names. *)
Lemma cancels_block_header item h k :
  buf_header item = Some h ->
  cancels_block k item <-> Z.land (h_flags h) BLF_CANCEL <> 0 /\ key_of h = k.
Proof. intros E. unfold cancels_block. rewrite E. naive_solver. Qed.
Lemma cancels_block_none item k : buf_header item = None -> ~ cancels_block k item.
Proof. intros E (h & Hh & _). congruence. Qed.

Lemma note_cancels_spec k items : forall m m',
  counted m -> note_cancels m items = Ok m' ->
  counted m' /\ count m' k = (count m k + cancels k items)%nat.
Proof.
  induction items as [|item items IH]; intros m m' Hm; cbn [note_cancels].
  { intros [= <-]. split; [done|]. unfold cancels. cbn. lia. }
  destruct (kind item) as [kd|e|] eqn:Ek; cbn [mbind res_bind]; [|done..].
  rewrite cancels_cons.
  assert (Hstep : forall m1, counted m1 -> count m1 k = (count m k + (if decide (cancels_block k item) then 1 else 0))%nat ->
    note_cancels m1 items = Ok m' -> counted m' /\
      count m' k = (count m k + ((if decide (cancels_block k item) then 1 else 0) + cancels k items))%nat).
  { intros m1 H1 Hc Hn. destruct (IH m1 m' H1 Hn) as [? Hc']. split; [done|]. lia. }
  assert (Hskip : ~ cancels_block k item -> note_cancels m items = Ok m' -> counted m' /\
    count m' k = (count m k + ((if decide (cancels_block k item) then 1 else 0) + cancels k items))%nat).
  { intros Hn. apply Hstep; [done|]. rewrite decide_False by done. lia. }
  destruct (Z.eqb_spec kd XFS_LI_BUF) as [->|Hk]; cbn [negb].
  2: { cbn [mbind res_bind]. apply Hskip, cancels_block_none. unfold buf_header. rewrite Ek.
       rewrite (proj2 (Z.eqb_neq _ _)) by done. by destruct (regions item !! 0%nat). }
  unfold note_cancel. destruct (regions item !! 0%nat) as [f|] eqn:Ef; cbn [expect mbind res_bind]; [|done].
  destruct (Nat.ltb_spec (length f) BLF_HEADER_SIZE).
  { cbn [mbind res_bind]. apply Hskip, cancels_block_none. unfold buf_header. rewrite Ef, Ek.
    by rewrite (proj2 (Nat.leb_gt _ _)), andb_false_r by done. }
  destruct (header_of_Ok f ltac:(done)) as (h & Hh & Hf1 & Hf2 & Hf3).
  assert (Hbh : buf_header item = Some h).
  { unfold buf_header. by rewrite Ef, Ek, Z.eqb_refl, (proj2 (Nat.leb_le _ _)), Hh by done. }
  pose proof (cancels_block_header item h k Hbh) as Hcb.
  rewrite Hf1. cbn [mbind res_bind]. destruct (Z.eqb_spec (Z.land (h_flags h) BLF_CANCEL) 0) as [Ez|Ez].
  { cbn [mbind res_bind]. apply Hskip. tauto. }
  rewrite Hf2, Hf3. cbn [mbind res_bind]. apply Hstep.
  - apply map_Forall_insert_2; [lia|done].
  - unfold count. change (h_blkno h, h_len h) with (key_of h).
    destruct (decide (cancels_block k item)) as [Hc|Hc].
    + apply Hcb in Hc as [_ ->]. rewrite lookup_insert_eq. cbn. lia.
    + rewrite lookup_insert_ne by tauto. lia.
Qed.

Section passes.
Context `{Crc : Crc32c} (sb : Superblock).
Context {D : Type} {dev : BlockDevice D} (d : D).

Lemma apply_buffer_cancelled into item m b into' m' h :
  buf_header item = Some h -> apply_buffer sb d into item m = Ok (b, into', m') ->
  m' = if decide (Z.land (h_flags h) BLF_CANCEL = 0) then m else consume m (key_of h).
Proof.
  intros Hh. unfold buf_header in Hh. unfold apply_buffer.
  destruct (regions item !! 0%nat) as [f|]; [|done]. destruct (kind item) as [kd| |]; [|done..].
  destruct (Nat.leb_spec BLF_HEADER_SIZE (length f)); [|by rewrite andb_false_r in Hh].
  destruct (kd =? XFS_LI_BUF); [|done]. cbn [andb] in Hh.
  cbn [expect mbind res_bind]. rewrite (proj2 (Nat.ltb_ge _ _)) by done. cbn [fail_if mbind res_bind].
  destruct (header_of f) as [h'| |]; [|done..]. injection Hh as ->. cbn [mbind res_bind].
  destruct h as [fl bl ln]. cbn [h_flags key_of h_blkno h_len].
  destruct (Z.eqb_spec (Z.land fl BLF_CANCEL) 0) as [E|E]; cbn [negb].
  2: { intros [= _ _ <-]. by rewrite decide_False. }
  rewrite decide_True by done. destruct (is_cancelled m bl ln); [by intros [= _ _ <-]|].
  destruct (ln =? 0); [by intros [= _ _ <-]|].
  repeat match goal with
  | |- (?x ≫= _) = Ok _ -> _ => destruct x; cbn [mbind res_bind]; [|done..]
  | |- (fail_if ?c _;; _) = Ok _ -> _ => destruct c; cbn [fail_if mbind res_bind]; [done|]
  end. by intros [= _ _ <-].
Qed.

Lemma apply_buffers_count k items : forall into m n into' m' n',
  counted m -> (cancels k items <= count m k)%nat ->
  apply_buffers sb d into m items n = Ok (into', m', n') ->
  counted m' /\ count m' k = (count m k - cancels k items)%nat.
Proof.
  induction items as [|item items IH]; intros into m n into' m' n' Hm Hle; cbn [apply_buffers].
  { intros [= _ <- _]. split; [done|]. unfold cancels. cbn. lia. }
  rewrite cancels_cons in *. destruct (kind item) as [kd|e|] eqn:Ek; cbn [mbind res_bind]; [|done..].
  destruct (Z.eqb_spec kd XFS_LI_BUF) as [->|Hk].
  2: { intros Ha. assert (~ cancels_block k item) as Hn.
       { apply cancels_block_none. unfold buf_header. rewrite Ek.
         rewrite (proj2 (Z.eqb_neq _ _)) by done. by destruct (regions item !! 0%nat). }
       rewrite decide_False in * by done. by eapply IH. }
  destruct (apply_buffer sb d into item m) as [[[b into1] m1]|e|] eqn:Ea; cbn [mbind res_bind]; [|done..].
  intros Hr. destruct (buf_header item) as [h|] eqn:Eh.
  - pose proof (apply_buffer_cancelled _ _ _ _ _ _ _ Eh Ea) as ->.
    pose proof (cancels_block_header item h k Eh) as Hcb.
    destruct (decide (Z.land (h_flags h) BLF_CANCEL = 0)).
    + rewrite (decide_False (P := cancels_block k item)) in * by tauto. by eapply IH.
    + destruct (consume_spec m k (key_of h) Hm) as [Hm1 Hc1].
      assert ((if decide (cancels_block k item) then 1 else 0) = (if decide (key_of h = k) then 1 else 0))%nat as Heq
        by (repeat destruct (decide _); tauto).
      rewrite Heq in *. destruct (IH _ _ _ _ _ _ Hm1 ltac:(lia) Hr) as [? Hc2]. split; [done|]. lia.
  - exfalso. unfold buf_header in Eh. unfold apply_buffer in Ea.
    destruct (regions item !! 0%nat) as [f|]; [|done]. rewrite Ek, Z.eqb_refl in Eh. cbn [andb] in Eh.
    cbn [expect mbind res_bind] in Ea.
    destruct (Nat.ltb_spec (length f) BLF_HEADER_SIZE); [done|].
    rewrite (proj2 (Nat.leb_le _ _)) in Eh by done.
    destruct (header_of_Ok f ltac:(done)) as (h & Hh & _). by rewrite Hh in Eh.
Qed.

(** Which items a cancellation suppresses: when the second pass reaches a
    buffer item that is not itself a cancel, its block is held cancelled
    exactly if some later item of the log cancels the same block; then the
    item is skipped and nothing changes. *)
Theorem replay_skips_cancelled pre item post h m into n into' m' n' :
  note_cancels ∅ (pre ++ item :: post) = Ok m ->
  apply_buffers sb d into m pre n = Ok (into', m', n') ->
  buf_header item = Some h -> Z.land (h_flags h) BLF_CANCEL = 0 ->
  (is_cancelled m' (h_blkno h) (h_len h) = true <-> exists later, later ∈ post /\ cancels_block (key_of h) later) /\
  ((exists later, later ∈ post /\ cancels_block (key_of h) later) ->
   apply_buffer sb d into' item m' = Ok (false, into', m')).
Proof.
  intros Hn Ha Hh Hc. set (k := key_of h).
  destruct (note_cancels_spec k _ ∅ m (map_Forall_empty _) Hn) as [Hm Hcm].
  assert (Hsplit : cancels k (pre ++ item :: post) = (cancels k pre + cancels k post)%nat).
  { unfold cancels. rewrite filter_app, filter_cons_False, length_app; [done|].
    rewrite (cancels_block_header item h k Hh). tauto. }
  assert (Hcm' : count m k = (cancels k pre + cancels k post)%nat)
    by (rewrite Hcm, Hsplit; unfold count; by rewrite lookup_empty).
  destruct (apply_buffers_count k pre into m n into' m' n' Hm ltac:(lia) Ha) as [Hm' Hcount].
  assert (Hiff : is_cancelled m' (h_blkno h) (h_len h) = true <->
    exists later, later ∈ post /\ cancels_block k later).
  { unfold is_cancelled. rewrite bool_decide_eq_true. change (h_blkno h, h_len h) with k.
    rewrite count_pos, Hcount, Hcm' by done.
    assert ((cancels k pre + cancels k post - cancels k pre)%nat = cancels k post) as -> by lia.
    unfold cancels. split.
    - intros Hlen. destruct (filter (cancels_block k) post) as [|x l] eqn:El; [cbn in Hlen; lia|].
      exists x. assert (x ∈ filter (cancels_block k) post) as Hx by (rewrite El; set_solver).
      apply list_elem_of_filter in Hx. tauto.
    - intros (x & Hx & Hcx). assert (x ∈ filter (cancels_block k) post) as Hf by by apply list_elem_of_filter.
      destruct (filter (cancels_block k) post); [by apply elem_of_nil in Hf|cbn; lia]. }
  split; [exact Hiff|]. intros Hl. apply Hiff in Hl. unfold buf_header in Hh. unfold apply_buffer.
  destruct (regions item !! 0%nat) as [f|]; [|done]. destruct (kind item) as [kd| |]; [|done..].
  destruct (kd =? XFS_LI_BUF); [|done]. cbn [andb] in Hh.
  destruct (Nat.leb_spec BLF_HEADER_SIZE (length f)); [|done].
  cbn [expect mbind res_bind]. rewrite (proj2 (Nat.ltb_ge _ _)) by done. cbn [fail_if mbind res_bind].
  destruct (header_of f) as [h'| |]; [|done..]. injection Hh as ->. cbn [mbind res_bind].
  destruct h as [fl bl ln]. cbn [h_flags h_blkno h_len] in *. rewrite Hc. cbn [Z.eqb negb]. by rewrite Hl.
Qed.
End passes.

(** ** A transaction of one buffer *)

Definition sample_ops : list Op := match ops sample_item with Ok l => l | _ => [] end.
(** A visitor that keeps what it is shown. *)
Definition collect (s : list (list Item)) (items : list Item) : res (list (list Item)) := Ok (s ++ [items]).

Lemma read_ops_payload_witness :
  read_ops collect 1 (payload 7 [mkOp XLOG_START_TRANS []]) 0 ∅ [] = Ok (<[7 := []]> ∅, []).
Proof.
  rewrite (read_ops_payload collect 7 [mkOp XLOG_START_TRANS []] ∅ []).
  - reflexivity.
  - unfold in_u. lia.
  - apply Forall_singleton. unfold op_typed, in_u, XLOG_START_TRANS. cbn. lia.
Defined.

Lemma sample_item_loggable : loggable sample_item.
Proof. split; [apply sample_item_ok|]. vm_compute. congruence. Qed.

Lemma transaction_roundtrip_witness :
  read_ops collect (length (transaction 7 40 3 [sample_ops])) (payload 7 (transaction 7 40 3 [sample_ops])) 0 ∅ [] =
  Ok (∅, [[log_item_of sample_ops]]).
Proof.
  rewrite (transaction_roundtrip collect 7 40 3 [sample_item] [sample_ops] ∅ []).
  - reflexivity.
  - unfold in_u. lia.
  - apply Forall_singleton, sample_item_loggable.
  - done.
  - vm_compute. reflexivity.
  - done.
Defined.

Definition sample_image : bytes := match image_as_written sample_item with Ok b => b | _ => [] end.

(** The block at basic block 2 of a device of one repeated byte. *)
Definition sample_item2 : BufferItem :=
  match new 2 sample_base BLFT_AGF 0 ≫= fun i => edit_all i sample_edits with
  | Ok item => item
  | _ => mkItem 0 0 0 [] []
  end.
Definition sample_ops2 : list Op := match ops sample_item2 with Ok l => l | _ => [] end.

Lemma replay_matches_image_witness :
  exists image into', image_as_written sample_item2 = Ok image /\
    wrote sample_device ∅ (2 * 512) image = Ok into' /\
    apply_buffer sample_sb sample_device ∅ (log_item_of sample_ops2) ∅ = Ok (true, into', ∅).
Proof.
  assert (Hitem : (new 2 sample_base BLFT_AGF 0 ≫= fun i => edit_all i sample_edits) = Ok sample_item2)
    by (vm_compute; reflexivity).
  assert (Hops : ops sample_item2 = Ok sample_ops2) by (vm_compute; reflexivity).
  assert (Hlen : length sample_base = 1024%nat) by apply length_replicate.
  apply (replay_matches_image sample_sb eq_refl sample_device ∅ ∅ 2 sample_base BLFT_AGF 0 sample_edits
    sample_item2 sample_ops2); rewrite ?Hlen.
  - reflexivity.
  - lia.
  - lia.
  - unfold in_bounds. repeat constructor; rewrite Hlen; cbn; lia.
  - exact Hitem.
  - exact Hops.
  - unfold BLFT_AGF. lia.
  - reflexivity.
  - reflexivity.
  - split; [discriminate|]. split; discriminate.
  - lia.
  - lia.
  - apply map_Forall_empty.
  - vm_compute. reflexivity.
  - intros i Hi. unfold view. rewrite lookup_empty. unfold sample_base.
    rewrite lookup_replicate_2 by done. cbn [dev_byte mem_device_laws]. 
    rewrite (proj2 (Z.ltb_ge _ _)) by lia. unfold byte_at, sample_device. cbn [mem_bytes].
    rewrite lookup_replicate_2 by lia. reflexivity.
  - apply lookup_empty.
Defined.

(** A logged buffer and the cancel of its block after it. *)
Definition sample_cancel : list Op :=
  match cancel 2 2 ≫= ops with Ok l => l | _ => [] end.

Lemma replay_skips_cancelled_witness :
  apply_buffer sample_sb sample_device ∅ (log_item_of sample_ops2) {[(2, 2) := 1%nat]} =
  Ok (false, ∅, {[(2, 2) := 1%nat]}).
Proof.
  apply (replay_skips_cancelled sample_sb sample_device [] (log_item_of sample_ops2) [log_item_of sample_cancel]
    (mkHeader 0x2800 2 2) {[(2, 2) := 1%nat]} ∅ 0 ∅ {[(2, 2) := 1%nat]} 0).
  - vm_compute. reflexivity.
  - reflexivity.
  - vm_compute. reflexivity.
  - reflexivity.
  - exists (log_item_of sample_cancel). split; [set_solver|].
    exists (mkHeader 2 2 2). split; [vm_compute; reflexivity|]. split; [done|done].
Defined.
