(* ===== verification/InodeLog.v ===== *)
(** * Inodes in the log ([src/src/log_write.rs], [src/src/log_recover.rs])

    How an inode's change is written as log operations, and how recovery
    applies an inode item, an inode-creation item and a dquot item.  The
    logged core is the disk core with each field in the host's byte order and
    its checksum zeroed.

    The theorems: the two conversions are inverse; an inode item replays to the
    logged core and attribute fork over the inode it finds, whose unlinked
    pointer it leaves alone, with a fresh checksum; an inode smaller than a
    basic block, which a v4 volume has, panics recovery when its slot is odd;
    an icreate item makes exactly the inodes it names. *)

From Stdlib Require Import ZArith Lia Strings.String Strings.Byte Bool.
From stdpp Require Import base list strings gmap sets.
From S2P Require Import Prelude Error Endian Crc32c Superblock Sample Overlay Inode Bmbt BufWrite LogRecover.

Definition XFS_LI_INODE : Z := 0x123b.
Definition XFS_LI_DQUOT : Z := 0x123d.
Definition XFS_LI_ICREATE : Z := 0x123f.
Definition INODE_LOG_FORMAT_SIZE : nat := 56.
Module ilf.
Definition TYPE : nat := 0.
Definition SIZE : nat := 2.
Definition FIELDS : nat := 4.
Definition ASIZE : nat := 8.
Definition DSIZE : nat := 10.
Definition INO : nat := 16.
Definition BLKNO : nat := 40.
Definition LEN : nat := 48.
Definition BOFFSET : nat := 52.
End ilf.
Definition XFS_ILOG_CORE : Z := 0x01.
Definition XFS_ILOG_DBROOT : Z := 0x08.
Definition XFS_ILOG_ADATA : Z := 0x40.
Definition XFS_ILOG_AEXT : Z := 0x80.
Definition XFS_ILOG_ABROOT : Z := 0x100.
Definition FORK_FIELDS : Z := Z.lor (Z.lor 0x02 0x04) 0x08.
Definition ATTR_FORK_FIELDS : Z := Z.lor (Z.lor XFS_ILOG_ADATA XFS_ILOG_AEXT) XFS_ILOG_ABROOT.
Ltac ilf_lia :=
  cbv [ilf.TYPE ilf.SIZE ilf.FIELDS ilf.ASIZE ilf.DSIZE ilf.INO ilf.BLKNO ilf.LEN ilf.BOFFSET INODE_LOG_FORMAT_SIZE] in *; lia.

(** ** Naming an inode *)

Record InodeBuffer := mkInodeBuffer { ib_blkno : Z; ib_len : Z; ib_boffset : Z }.

Definition containing (pos cluster_bytes : Z) : res InodeBuffer :=
  if cluster_bytes =? 0 then Panic
  else
    let start := pos - pos mod cluster_bytes in
    Ok (mkInodeBuffer (start / Z.of_nat BBSIZE) (cluster_bytes / Z.of_nat BBSIZE) (wrap 32 (pos - start))).

Definition inode_log_fields (ino fields : Z) (buffer : InodeBuffer) : list (nat * bytes) :=
  [ (ilf.TYPE, to_le_bytes 2 XFS_LI_INODE); (ilf.SIZE, to_le_bytes 2 2); (ilf.FIELDS, to_le_bytes 4 fields);
    (ilf.INO, to_le_bytes 8 ino); (ilf.BLKNO, to_le_bytes 8 (ib_blkno buffer)); (ilf.LEN, to_le_bytes 4 (ib_len buffer));
    (ilf.BOFFSET, to_le_bytes 4 (ib_boffset buffer)) ].
Definition inode_log_format (ino fields : Z) (buffer : InodeBuffer) : res bytes :=
  put_all (inode_log_fields ino fields buffer) (replicate INODE_LOG_FORMAT_SIZE x00).

Definition inode_log_format_with_fork (ino fields : Z) (buffer : InodeBuffer) (dsize : Z) : res bytes :=
  v ← inode_log_format ino fields buffer;
  put_all [(ilf.SIZE, to_le_bytes 2 3); (ilf.DSIZE, to_le_bytes 2 dsize)] v.

Definition inode_log_format_with_forks (ino fields : Z) (buffer : InodeBuffer) (dsize asize : Z) : res bytes :=
  v ← inode_log_format ino fields buffer;
  let ops := 2 + (if 0 <? dsize then 1 else 0) + (if 0 <? asize then 1 else 0) in
  put_all [(ilf.SIZE, to_le_bytes 2 ops); (ilf.DSIZE, to_le_bytes 2 dsize); (ilf.ASIZE, to_le_bytes 2 asize)] v.

Definition inode_ops_with_attr (ino : Z) (buffer : InodeBuffer) (logged_core afork : bytes) (afields : Z) : res (list Op) :=
  match afork with
  | [] =>
      f ← inode_log_format ino XFS_ILOG_CORE buffer;
      Ok [mkOp 0 f; mkOp 0 logged_core]
  | _ =>
      let attr := resize (div_ceil (length afork) 4 * 4) x00 afork in
      f ← inode_log_format_with_forks ino (Z.lor XFS_ILOG_CORE afields) buffer 0 (wrap 16 (Z.of_nat (length afork)));
      Ok [mkOp 0 f; mkOp 0 logged_core; mkOp 0 attr]
  end.

(** ** The logged core *)

Definition LOG_DINODE_SIZE : nat := 176.
Definition V2_LOG_DINODE_SIZE : nat := 96.

Definition COMMON : list (nat * nat) :=
  [(0, 2); (2, 2); (6, 2); (8, 4); (12, 4); (16, 4); (20, 2); (22, 2); (56, 8); (64, 8); (72, 4); (84, 4); (88, 2); (90, 2);
   (92, 4)]%nat.
Definition V3_TAIL : list (nat * nat) := [(96, 4); (104, 8); (112, 8); (120, 8); (128, 4); (152, 8)]%nat.
Definition times (bigtime : bool) : list (nat * nat) :=
  if bigtime then [(32, 8); (40, 8); (48, 8); (144, 8)]%nat
  else [(32, 4); (36, 4); (40, 4); (44, 4); (48, 4); (52, 4); (144, 4); (148, 4)]%nat.
Definition counts (nrext64 : bool) : list (nat * nat) :=
  if nrext64 then [(24, 8); (76, 4)]%nat else [(76, 4); (80, 2)]%nat.
Definition field_layout (version : Z) (bigtime nrext64 : bool) : list (nat * nat) :=
  if 3 <=? version then COMMON ++ V3_TAIL ++ times bigtime ++ counts nrext64
  else COMMON ++ [(32, 4); (36, 4); (40, 4); (44, 4); (48, 4); (52, 4); (76, 4); (80, 2)]%nat.

(** [out[at..at + width].reverse()] *)
Definition reverse_field (size : nat) (out : bytes) (f : nat * nat) : res bytes :=
  let '(pos, width) := f in
  if (size <? pos + width)%nat then Ok out
  else piece ← get_slice pos width out; copy_at pos (rev piece) out.

(** The length of a version's core, or what is said of an unknown one. *)
Definition core_length (version : Z) : option nat :=
  if (version =? 1) || (version =? 2) then Some V2_LOG_DINODE_SIZE
  else if version =? 3 then Some LOG_DINODE_SIZE else None.

Section codec.
Context `{host : Host}.

(** Both conversions: [what] names the input, and [flags2_of] reads its flags. *)
Definition convert_core (what : string) (flags2_of : bytes -> res Z) (raw : bytes) : res (bytes + string) :=
  if (length raw <? V2_LOG_DINODE_SIZE)%nat then Ok (inr (what ++ " is shorter than a v2 core")%string)
  else
    version ← Endian.byte_at raw di.VERSION;
    match core_length version with
    | None => Ok (inr "unrecognised inode version"%string)
    | Some size =>
        if (length raw <? size)%nat then Ok (inr (what ++ " is shorter than its version's core")%string)
        else
          flags2 ← (if 3 <=? version then flags2_of raw else Ok 0);
          let bigtime := negb (Z.land flags2 flags2_BIGTIME =? 0) in
          let nrext64 := negb (Z.land flags2 DI_FLAGS2_NREXT64 =? 0) in
          out ← get_slice 0 size raw;
          out ← (if host_big_endian then Ok out
                 else res_fold (reverse_field size) out (field_layout version bigtime nrext64));
          Ok (inl out)
    end.

Definition log_dinode_from_disk (raw : bytes) : res (bytes + string) :=
  r ← convert_core "inode" (fun raw => be64 raw di.FLAGS2) raw;
  match r with
  | inr why => Ok (inr why)
  | inl out =>
      version ← Endian.byte_at raw di.VERSION;
      out ← (if 3 <=? version then copy_at di.CRC [x00; x00; x00; x00] out else Ok out);
      Ok (inl out)
  end.

Definition log_dinode_to_disk (logged : bytes) : res (bytes + string) :=
  convert_core "logged core" (fun logged => native_u64 logged di.FLAGS2) logged.

(** ** Recovery *)

Context `{Crc : Crc32c} (sb : Superblock).

Definition bad_item (why : string) : Error := CorruptLog (fmt why []).

(** The parts of an inode item, in the order its regions carry them: the
    inode, and the index of the next region. *)
Definition apply_core (fields : Z) (item : Item) (inode : bytes) : res (bytes * nat) :=
  if Z.land fields XFS_ILOG_CORE =? 0 then Ok (inode, 1%nat)
  else
    match regions item !! 1%nat with
    | None => Err (bad_item "an inode item says it logs a core and does not carry one")
    | Some core =>
        r ← log_dinode_to_disk core;
        match r with
        | inr why => Err (CorruptLog (fmt "a logged inode core: {}" [AS why]))
        | inl disk =>
            fail_if (length inode <? length disk)%nat
              (CorruptLog (fmt "a logged inode core is {} bytes against an inode of {}"
                 [AZ (Z.of_nat (length disk)); AZ (Z.of_nat (length inode))]));;
            keep ← get_slice di.NEXT_UNLINKED 4 inode;
            inode ← copy_at 0 disk inode;
            inode ← (if (di.NEXT_UNLINKED + 4 <=? length disk)%nat then copy_at di.NEXT_UNLINKED keep inode else Ok inode);
            Ok (inode, 2%nat)
        end
    end.

Definition fork_start_of (inode : bytes) : res nat :=
  version ← Endian.byte_at inode di.VERSION;
  Ok (if 3 <=? version then XFS_DINODE_V3_SIZE else XFS_DINODE_V2_SIZE).

Definition apply_data_fork (fields : Z) (dsize fork_start : nat) (item : Item) (inode : bytes) (region : nat) : res (bytes * nat) :=
  if (Z.land fields FORK_FIELDS =? 0) || (dsize =? 0)%nat then Ok (inode, region)
  else
    match regions item !! region with
    | None => Err (bad_item "an inode item says it logs a data fork and does not carry one")
    | Some fork =>
        inode ←
          (if Z.land fields FORK_FIELDS =? XFS_ILOG_DBROOT then
             forkoff ← Endian.byte_at inode di.FORKOFF;
             let forkoff := (Z.to_nat forkoff * 8)%nat in
             let end_ := if (forkoff =? 0)%nat then length inode else (fork_start + forkoff)%nat in
             fail_if (length fork <? dsize)%nat (bad_item "short logged data bmbt root");;
             logged ← get_slice 0 dsize fork;
             fail_if ((end_ <? fork_start)%nat || (length inode <? end_)%nat) (bad_item "data fork past its inode");;
             version ← Endian.byte_at inode di.VERSION;
             disk ← logged_root_to_disk logged (3 <=? version) (end_ - fork_start);
             copy_at fork_start disk inode
           else
             if (length inode <? fork_start)%nat then Panic
             else
               let take := Nat.min (Nat.min dsize (length fork)) (length inode - fork_start) in
               piece ← get_slice 0 take fork;
               copy_at fork_start piece inode);
        Ok (inode, (region + 1)%nat)
    end.

Definition apply_attr_fork (fields : Z) (asize fork_start : nat) (item : Item) (inode : bytes) (region : nat) : res bytes :=
  if (Z.land fields ATTR_FORK_FIELDS =? 0) || (asize =? 0)%nat then Ok inode
  else
    match regions item !! region with
    | None => Ok inode
    | Some fork =>
        forkoff ← Endian.byte_at inode di.FORKOFF;
        let start := (fork_start + Z.to_nat forkoff * 8)%nat in
        if (length inode <=? start)%nat then Ok inode
        else if negb (Z.land fields XFS_ILOG_ABROOT =? 0) then
          fail_if (length fork <? asize)%nat (bad_item "short logged attribute bmbt root");;
          logged ← get_slice 0 asize fork;
          root ← inode_root_from_log logged sb (length inode - start);
          copy_at start root inode
        else
          let take := Nat.min (Nat.min asize (length fork)) (length inode - start) in
          piece ← get_slice 0 take fork;
          copy_at start piece inode
    end.

(** The parts of the format operation that are read. *)
Record InodeFormat := mkInodeFormat { f_fields : Z; f_blkno : Z; f_len : Z; f_boffset : Z; f_dsize : nat; f_asize : nat }.
Definition inode_format_of (f : bytes) : res InodeFormat :=
  fields ← native_u32 f ilf.FIELDS;
  blkno ← native_u64 f ilf.BLKNO;
  len ← native_u32 f ilf.LEN;
  boffset ← native_u32 f ilf.BOFFSET;
  dsize ← native_u16 f ilf.DSIZE;
  asize ← native_u16 f ilf.ASIZE;
  Ok (mkInodeFormat fields blkno len boffset (Z.to_nat dsize) (Z.to_nat asize)).

(** What an item makes of the inode found. *)
Definition applied_inode (f : InodeFormat) (item : Item) (inode : bytes) : res bytes :=
  '(inode, region) ← apply_core (f_fields f) item inode;
  fork_start ← fork_start_of inode;
  '(inode, region) ← apply_data_fork (f_fields f) (f_dsize f) fork_start item inode region;
  inode ← apply_attr_fork (f_fields f) (f_asize f) fork_start item inode region;
  stamp_inode sb inode.

Context {D : Type} {dev : BlockDevice D} (d : D).

Definition inode_item_at (f : InodeFormat) : Z := wrap 64 (wrap 64 (f_blkno f * Z.of_nat BBSIZE) + f_boffset f).

Definition apply_inode (into : Overlay) (item : Item) (cancelled : gmap (Z * Z) nat) : res (bool * Overlay) :=
  f ← expect (regions item !! 0%nat);
  fail_if (length f <? INODE_LOG_FORMAT_SIZE)%nat (bad_item "an inode log item is shorter than its own format");;
  f ← inode_format_of f;
  if is_cancelled cancelled (f_blkno f) (f_len f) then Ok (false, into)
  else
    let pos := inode_item_at f in
    inode ← read_at d into pos (replicate (Z.to_nat (sb_inodesize sb)) x00);
    inode ← applied_inode f item inode;
    into ← wrote d into pos inode;
    Ok (true, into).

Definition XFS_ICREATE_SIZE : nat := 28.
Definition DI_NEXT_UNLINKED_NULL : Z := 0xffffffff.

(** [icreate_log_format::build] *)
Definition icreate_build (agno agbno count isize length_ gen : Z) : res bytes :=
  let ne n z := if host_big_endian then to_be_bytes n z else to_le_bytes n z in
  let out := ne 2%nat XFS_LI_ICREATE ++ ne 2%nat 1 ++ to_be_bytes 4 agno ++ to_be_bytes 4 agbno ++ to_be_bytes 4 count ++
               to_be_bytes 4 isize ++ to_be_bytes 4 length_ ++ to_be_bytes 4 gen in
  assert (length out =? XFS_ICREATE_SIZE)%nat;;
  Ok out.

Definition created_inode (ino gen : Z) : res bytes :=
  inode ← put_all
    [ (di.MAGIC, to_be_bytes 2 XFS_DINODE_MAGIC); (di.VERSION, to_be_bytes 1 3); (di.GEN, to_be_bytes 4 gen);
      (di.NEXT_UNLINKED, to_be_bytes 4 DI_NEXT_UNLINKED_NULL); (di.INO, to_be_bytes 8 ino); (di.UUID, sb_meta_uuid sb) ]
    (replicate (Z.to_nat (sb_inodesize sb)) x00);
  stamp_inode sb inode.

Fixpoint create_slots (agno agbno isize gen base : Z) (slots : list nat) (into : Overlay) : res Overlay :=
  match slots with
  | [] => Ok into
  | slot :: slots =>
      let ino := join_ino sb agno (wrap 32 (wshl 32 agbno (sb_inopblog sb) + Z.of_nat slot)) in
      inode ← created_inode ino gen;
      into ← wrote d into (wrap 64 (base + Z.of_nat slot * isize)) inode;
      create_slots agno agbno isize gen base slots into
  end.

Definition apply_icreate (into : Overlay) (item : Item) : res Overlay :=
  f ← expect (regions item !! 0%nat);
  fail_if (length f <? XFS_ICREATE_SIZE)%nat (bad_item "an icreate item is shorter than its own format");;
  agno ← be32 f 4;
  agbno ← be32 f 8;
  count ← be32 f 12;
  isize ← be32 f 16;
  length_ ← be32 f 20;
  gen ← be32 f 24;
  fail_if (sb_agcount sb <=? agno)
    (CorruptLog (fmt "an icreate item names allocation group {}, and the filesystem has {}" [AZ agno; AZ (sb_agcount sb)]));;
  fail_if (negb (isize =? sb_inodesize sb))
    (CorruptLog (fmt "an icreate item makes inodes of {} bytes on a filesystem whose inodes are {}" [AZ isize; AZ (sb_inodesize sb)]));;
  fail_if (negb (count * isize =? length_ * sb_blocksize sb))
    (CorruptLog (fmt "an icreate item makes {} inodes of {} bytes in {} blocks, which do not fill it" [AZ count; AZ isize; AZ length_]));;
  let fsblock := Z.lor (wshl 64 agno (sb_agblklog sb)) agbno in
  let base := fsblock_offset sb fsblock in
  create_slots agno agbno isize gen base (seq 0 (Z.to_nat count)) into.

(** Quota records: [quota::DQBLK_SIZE] and its neighbours. *)
Definition DQBLK_SIZE : nat := 136.
Definition DQ_MAGIC : Z := 0x4451.
Definition DQ_VERSION : Z := 1.
Definition DQ_CRC : nat := 108.

Definition apply_dquot (into : Overlay) (item : Item) : res Overlay :=
  f ← expect (regions item !! 0%nat);
  let bad_format := bad_item "a dquot log item has an invalid format or record length" in
  fail_if ((length f <? 24)%nat || negb (length (regions item) =? 2)%nat) bad_format;;
  record ← expect (regions item !! 1%nat);
  fail_if (negb (length record =? DQBLK_SIZE)%nat) bad_format;;
  size ← native_u16 f 2;
  fail_if (negb (size =? 2)) (CorruptLog (fmt "a dquot log item says it has {} operations, expected 2" [AZ size]));;
  id ← native_u32 f 4;
  blkno ← native_u64 f 8;
  len ← native_u32 f 16;
  offset ← native_u32 f 20;
  fail_if ((2 ^ 63 <=? blkno) || negb (len =? 1) || (sb_blocksize sb <? offset + Z.of_nat DQBLK_SIZE))
    (CorruptLog (fmt "dquot {} has invalid buffer address {}, length {}, or offset {}" [AZ id; AZ (if 2 ^ 63 <=? blkno then blkno - 2 ^ 64 else blkno); AZ (as_i32 len); AZ offset]));;
  magic ← be16 record 0;
  version ← Endian.byte_at record 2;
  record_id ← be32 record 4;
  fail_if (negb (magic =? DQ_MAGIC) || negb (version =? DQ_VERSION) || negb (record_id =? id))
    (CorruptLog (fmt "dquot log item {} carries a different or malformed record" [AZ id]));;
  let bb_per_block := sb_blocksize sb / 512 in
  fail_if ((bb_per_block =? 0) || negb (blkno mod bb_per_block =? 0))
    (CorruptLog (fmt "dquot {} buffer address {} is not filesystem-block aligned" [AZ id; AZ blkno]));;
  let pos := wrap 64 (blkno * 512) in
  let at_ := Z.to_nat offset in
  buffer ← read_at d into pos (replicate (Z.to_nat (sb_blocksize sb)) x00);
  buffer ← copy_at at_ record buffer;
  piece ← get_slice at_ DQBLK_SIZE buffer;
  crc ← crc32c_with_zeroed_crc piece DQ_CRC;
  buffer ← copy_at (at_ + DQ_CRC) (to_le_bytes 4 crc) buffer;
  wrote d into pos buffer.
End codec.

(** ** Byte order *)

(** One field reversed in place. *)
Definition flipped (f : nat * nat) (b : bytes) : bytes := splice f.1 (rev (slice f.1 f.2 b)) b.
Definition swapped (l : list (nat * nat)) (b : bytes) : bytes := foldl (fun b f => flipped f b) b l.
Definition in_size (n : nat) (f : nat * nat) : Prop := (f.1 + f.2 <= n)%nat.

Lemma length_flipped (f : nat * nat) (b : bytes) : in_size (length b) f -> length (flipped f b) = length b.
Proof. intros H. apply length_splice. rewrite length_rev, length_slice; done. Qed.

Lemma lookup_flipped (f : nat * nat) (b : bytes) i : in_size (length b) f ->
  flipped f b !! i = if decide (f.1 <= i < f.1 + f.2)%nat then b !! (f.1 + f.1 + f.2 - 1 - i)%nat else b !! i.
Proof.
  intros H. unfold in_size in H. assert (Hr : length (rev (slice f.1 f.2 b)) = f.2) by (rewrite length_rev; by apply length_slice).
  unfold flipped. case_decide.
  - rewrite lookup_splice_in by lia. rewrite rev_alt. fold (reverse (slice f.1 f.2 b)).
    rewrite reverse_lookup by (rewrite length_slice; lia). rewrite length_slice, lookup_slice, decide_True by lia. f_equal. lia.
  - rewrite lookup_splice_out by lia. done.
Qed.

Lemma flipped_twice (f : nat * nat) (b : bytes) : in_size (length b) f -> flipped f (flipped f b) = b.
Proof.
  intros H. apply list_eq; intros i. rewrite lookup_flipped by (unfold in_size; by rewrite length_flipped).
  case_decide; rewrite lookup_flipped by done; [rewrite decide_True by lia; f_equal; lia|by rewrite decide_False].
Qed.

Lemma flipped_splice (f : nat * nat) p (bs b : bytes) :
  in_size (length b) f -> (p + length bs <= length b)%nat -> disjoint_fields (p, length bs) f ->
  flipped f (splice p bs b) = splice p bs (flipped f b).
Proof.
  unfold disjoint_fields. cbn [fst snd]. intros Hf Hp Hd. unfold flipped. rewrite slice_splice_disjoint by lia. unfold in_size in Hf.
  assert (Hr : length (rev (slice f.1 f.2 b)) = f.2) by (rewrite length_rev; by apply length_slice).
  destruct Hd; [symmetry|]; apply splice_comm; lia.
Qed.

Lemma flipped_comm (f g : nat * nat) (b : bytes) :
  in_size (length b) f -> in_size (length b) g -> disjoint_fields f g -> flipped f (flipped g b) = flipped g (flipped f b).
Proof.
  intros Hf Hg Hd. unfold in_size, disjoint_fields in *. unfold flipped at 2 3.
  assert (Hr : length (rev (slice g.1 g.2 b)) = g.2) by (rewrite length_rev; by apply length_slice).
  rewrite flipped_splice by (rewrite ?Hr; unfold in_size, disjoint_fields; cbn [fst snd]; lia). do 2 f_equal.
  unfold flipped. assert (Hr' : length (rev (slice f.1 f.2 b)) = f.2) by (rewrite length_rev; by apply length_slice).
  rewrite slice_splice_disjoint by lia. done.
Qed.

Lemma swapped_cons f l (b : bytes) : swapped (f :: l) b = swapped l (flipped f b).
Proof. done. Qed.

Lemma length_swapped l : forall b : bytes, Forall (in_size (length b)) l -> length (swapped l b) = length b.
Proof.
  induction l as [|f l IH]; intros b Hl; [done|]. apply Forall_cons in Hl as [Hf Hl]. rewrite swapped_cons. rewrite IH; rewrite length_flipped; done.
Qed.

Lemma swapped_flipped l : forall (f : nat * nat) (b : bytes),
  in_size (length b) f -> Forall (in_size (length b)) l -> Forall (disjoint_fields f) l ->
  swapped l (flipped f b) = flipped f (swapped l b).
Proof.
  induction l as [|g l IH]; intros f b Hf Hl Hd; [done|]. apply Forall_cons in Hl as [Hg Hl]. apply Forall_cons in Hd as [Hfg Hd].
  rewrite !swapped_cons. rewrite <- flipped_comm by done.
  apply IH; unfold in_size in *; rewrite ?length_flipped; done.
Qed.

Lemma swapped_twice l : forall b : bytes,
  Forall (in_size (length b)) l -> ForallOrdPairs disjoint_fields l -> swapped l (swapped l b) = b.
Proof.
  induction l as [|f l IH]; intros b Hl Hd; [done|]. apply Forall_cons in Hl as [Hf Hl]. inversion Hd as [|? ? Hfd Hd']; subst.
  rewrite !swapped_cons. rewrite (swapped_flipped l f b) by done.
  rewrite flipped_twice by (unfold in_size; by rewrite length_swapped). by apply IH.
Qed.

Lemma swapped_splice l : forall p (bs b : bytes),
  Forall (in_size (length b)) l -> (p + length bs <= length b)%nat -> Forall (disjoint_fields (p, length bs)) l ->
  swapped l (splice p bs b) = splice p bs (swapped l b).
Proof.
  induction l as [|f l IH]; intros p bs b Hl Hp Hd; [done|]. apply Forall_cons in Hl as [Hf Hl]. apply Forall_cons in Hd as [Hpf Hd].
  rewrite !swapped_cons. rewrite flipped_splice by done. apply IH; rewrite ?length_flipped; done.
Qed.

Lemma slice_swapped_out l : forall off n (b : bytes),
  Forall (in_size (length b)) l -> Forall (disjoint_fields (off, n)) l -> slice off n (swapped l b) = slice off n b.
Proof.
  induction l as [|f l IH]; intros off n b Hl Hd; [done|]. apply Forall_cons in Hl as [Hf Hl]. apply Forall_cons in Hd as [Hpf Hd].
  rewrite !swapped_cons. rewrite IH by (rewrite ?length_flipped; done).
  unfold flipped, disjoint_fields, in_size in *. cbn [fst snd] in Hpf. apply slice_splice_disjoint; rewrite length_rev, length_slice; lia.
Qed.

Lemma slice_swapped_in l : forall (f : nat * nat) (b : bytes),
  Forall (in_size (length b)) l -> ForallOrdPairs disjoint_fields l -> f ∈ l ->
  slice f.1 f.2 (swapped l b) = rev (slice f.1 f.2 b).
Proof.
  induction l as [|g l IH]; intros f b Hl Hd Hin; [by apply elem_of_nil in Hin|].
  apply Forall_cons in Hl as [Hg Hl]. inversion Hd as [|? ? Hgd Hd']; subst.
  rewrite !swapped_cons.
  assert (Hr : length (rev (slice g.1 g.2 b)) = g.2) by (rewrite length_rev; by apply length_slice). unfold in_size in Hg.
  apply elem_of_cons in Hin as [->|Hin].
  - rewrite slice_swapped_out by (rewrite ?length_flipped; first [done|by destruct g]). unfold flipped. apply slice_splice_same; lia.
  - rewrite IH; rewrite ?length_flipped; try done. f_equal. unfold flipped.
    rewrite Forall_forall in Hgd. specialize (Hgd f Hin). unfold disjoint_fields in Hgd. apply slice_splice_disjoint; lia.
Qed.

Lemma reverse_fields_Ok size l : forall b : bytes, length b = size -> Forall (in_size size) l ->
  res_fold (reverse_field size) b l = Ok (swapped l b).
Proof.
  induction l as [|f l IH]; intros b Hb Hl; [done|]. apply Forall_cons in Hl as [Hf Hl]. cbn [res_fold].
  assert (reverse_field size b f = Ok (flipped f b)) as ->.
  { unfold reverse_field, in_size in *. destruct f as [pos w]. cbn [fst snd] in Hf. rewrite (proj2 (Nat.ltb_ge _ _)) by lia.
    rewrite get_slice_Ok by lia. cbn [mbind res_bind]. rewrite copy_at_Ok; [done|]. rewrite length_rev, length_slice; lia. }
  cbn [mbind res_bind]. rewrite IH by (rewrite ?length_flipped; subst; done). done.
Qed.

(** The tables: every field inside its core, no two overlapping, and neither
    the version nor the checksum in any. *)
Definition overlapb (f g : nat * nat) : bool := negb ((f.1 + f.2 <=? g.1)%nat || (g.1 + g.2 <=? f.1)%nat).
Fixpoint tableb (size : nat) (l : list (nat * nat)) : bool :=
  match l with
  | [] => true
  | f :: l => (f.1 + f.2 <=? size)%nat && forallb (fun g => negb (overlapb f g)) l && tableb size l
  end.
Lemma overlapb_spec f g : negb (overlapb f g) = true <-> disjoint_fields f g.
Proof. unfold overlapb, disjoint_fields. rewrite negb_involutive, orb_true_iff, !Nat.leb_le. done. Qed.
Lemma tableb_spec size l : tableb size l = true -> Forall (in_size size) l /\ ForallOrdPairs disjoint_fields l.
Proof.
  induction l as [|f l IH]; [intros _; split; constructor|]. cbn [tableb]. rewrite !andb_true_iff, Nat.leb_le, forallb_forall.
  intros [[Hf Hd] Hl]. destruct (IH Hl) as [H1 H2]. split; [by constructor|]. constructor; [|done].
  apply Forall_forall. intros g Hg. apply overlapb_spec, Hd. by apply list_elem_of_In.
Qed.

Lemma layout_ok version bigtime nrext64 size : core_length version = Some size ->
  let l := field_layout version bigtime nrext64 in
  Forall (in_size size) l /\ ForallOrdPairs disjoint_fields l /\ Forall (disjoint_fields (4, 1)%nat) l /\
  Forall (disjoint_fields (di.CRC, 4%nat)) l /\ (version = 3 -> (di.FLAGS2, 8%nat) ∈ l) /\ ((176 <= size)%nat -> version = 3).
Proof.
  unfold core_length. intros Hs. cbv zeta.
  assert (Hcase : (version = 1 \/ version = 2) /\ size = V2_LOG_DINODE_SIZE \/ version = 3 /\ size = LOG_DINODE_SIZE).
  { destruct (Z.eqb_spec version 1), (Z.eqb_spec version 2), (Z.eqb_spec version 3); cbn [orb] in Hs; naive_solver. }
  assert (Hall : forall f, forallb (fun g => negb (overlapb f g)) (field_layout version bigtime nrext64) = true ->
    Forall (disjoint_fields f) (field_layout version bigtime nrext64)).
  { intros f Hf. rewrite forallb_forall in Hf. apply Forall_forall. intros g Hg. apply overlapb_spec, Hf. by apply list_elem_of_In. }
  assert (Ht : tableb size (field_layout version bigtime nrext64) = true).
  { destruct Hcase as [[[->| ->] ->]|[-> ->]], bigtime, nrext64; vm_compute; reflexivity. }
  apply tableb_spec in Ht as [H1 H2]. split; [done|]. split; [done|].
  split; [apply Hall; destruct Hcase as [[[->| ->] ->]|[-> ->]], bigtime, nrext64; vm_compute; reflexivity|].
  split; [apply Hall; destruct Hcase as [[[->| ->] ->]|[-> ->]], bigtime, nrext64; vm_compute; reflexivity|].
  split; [|destruct Hcase as [[_ ->]|[-> _]]; [cbv; lia|done]].
  intros ->. change (field_layout 3 bigtime nrext64) with (COMMON ++ V3_TAIL ++ times bigtime ++ counts nrext64).
  apply elem_of_app. right. apply elem_of_app. left. unfold V3_TAIL, di.FLAGS2. repeat constructor.
Qed.

(** A core a record can hold, and that core with its checksum blank. *)
Definition core_of (raw : bytes) : option bytes :=
  if (length raw <? V2_LOG_DINODE_SIZE)%nat then None
  else size ← core_length (rd 1 di.VERSION raw); if (length raw <? size)%nat then None else Some (list.take size raw).
Definition blanked (core : bytes) : bytes :=
  if 3 <=? rd 1 di.VERSION core then splice di.CRC [x00; x00; x00; x00] core else core.

Lemma core_of_spec raw core : core_of raw = Some core ->
  exists size, core_length (rd 1 di.VERSION raw) = Some size /\ core = list.take size raw /\ (size <= length raw)%nat /\
    (96 <= size)%nat /\ length core = size /\ rd 1 di.VERSION core = rd 1 di.VERSION raw /\
    (3 <= rd 1 di.VERSION raw -> rd 1 di.VERSION raw = 3 /\ size = 176%nat).
Proof.
  unfold core_of. destruct (Nat.ltb_spec (length raw) V2_LOG_DINODE_SIZE); [done|].
  destruct (core_length _) as [size|] eqn:Es; cbn [mbind option_bind]; [|done].
  destruct (Nat.ltb_spec (length raw) size); [done|]. intros [= <-]. exists size.
  assert (Hs : (96 <= size)%nat /\ (3 <= rd 1 di.VERSION raw -> rd 1 di.VERSION raw = 3 /\ size = 176%nat)).
  { unfold core_length, V2_LOG_DINODE_SIZE, LOG_DINODE_SIZE in *.
    destruct (Z.eqb_spec (rd 1 di.VERSION raw) 1), (Z.eqb_spec (rd 1 di.VERSION raw) 2), (Z.eqb_spec (rd 1 di.VERSION raw) 3);
      cbn [orb] in Es; try (injection Es as <-); try done; split; lia. }
  destruct Hs as [Hs H3]. split_and!; try done.
  - rewrite length_take. lia.
  - unfold rd. f_equal. change (slice 0 size raw) with (list.take size raw). change (list.take size raw) with (slice 0 size raw).
    apply slice_slice. di_lia.
Qed.

Section codec_facts.
Context `{host : Host}.

(** The flags as the host reads them in the log. *)
Definition in_log (l : list (nat * nat)) (core : bytes) : bytes := if host_big_endian then core else swapped l core.

Lemma convert_core_Ok what flags2_of raw size :
  core_length (rd 1 di.VERSION raw) = Some size -> (size <= length raw)%nat -> (96 <= size)%nat ->
  (3 <= rd 1 di.VERSION raw -> exists f, flags2_of raw = Ok f) ->
  exists flags2, (3 <= rd 1 di.VERSION raw -> flags2_of raw = Ok flags2) /\ (rd 1 di.VERSION raw < 3 -> flags2 = 0) /\
  convert_core what flags2_of raw =
    Ok (inl (in_log (field_layout (rd 1 di.VERSION raw) (negb (Z.land flags2 flags2_BIGTIME =? 0))
                       (negb (Z.land flags2 DI_FLAGS2_NREXT64 =? 0))) (list.take size raw))).
Proof.
  intros Hc Hl Hs Hf. unfold convert_core. unfold V2_LOG_DINODE_SIZE at 1. rewrite (proj2 (Nat.ltb_ge _ _)) by lia.
  rewrite byte_at_Ok by di_lia. cbn [mbind res_bind]. rewrite Hc, (proj2 (Nat.ltb_ge _ _)) by lia.
  assert (exists flags2, (if 3 <=? rd 1 di.VERSION raw then flags2_of raw else Ok 0) = Ok flags2 /\
    (3 <= rd 1 di.VERSION raw -> flags2_of raw = Ok flags2) /\ (rd 1 di.VERSION raw < 3 -> flags2 = 0)) as (flags2 & -> & H1 & H2).
  { destruct (Z.leb_spec 3 (rd 1 di.VERSION raw)); [destruct (Hf ltac:(done)) as [f E]; exists f; split_and!; [done..|lia]|].
    exists 0. split_and!; [done|lia|done]. }
  exists flags2. split; [done|]. split; [done|]. cbn [mbind res_bind]. rewrite get_slice_Ok by lia. cbn [mbind res_bind].
  change (slice 0 size raw) with (list.take size raw). unfold in_log. destruct host_big_endian; [done|].
  rewrite reverse_fields_Ok; [done|rewrite length_take; lia|]. by apply layout_ok.
Qed.

Lemma layout_in_log version bigtime nrext64 size (core : bytes) :
  core_length version = Some size -> length core = size ->
  let logged := in_log (field_layout version bigtime nrext64) core in
  length logged = size /\ in_log (field_layout version bigtime nrext64) logged = core /\
  slice di.VERSION 1 logged = slice di.VERSION 1 core /\
  (version = 3 -> native_u64 logged di.FLAGS2 = Ok (rd 8 di.FLAGS2 core)).
Proof.
  intros Hc Hl. destruct (layout_ok version bigtime nrext64 size Hc) as (H1 & H2 & H4 & _ & H8 & _). cbv zeta in *.
  rewrite <- Hl in H1. set (l := field_layout version bigtime nrext64) in *.
  assert (H176 : version = 3 -> (176 <= length core)%nat) by (intros ->; injection Hc as <-; rewrite Hl; cbv; lia).
  unfold in_log, native_u64, from_ne_bytes. destruct host_big_endian.
  - split_and!; try done. intros H3. specialize (H176 H3). rewrite get_slice_Ok by di_lia. done.
  - rewrite length_swapped by done. split; [done|]. split; [by apply swapped_twice|]. split; [by apply slice_swapped_out|].
    intros H3. specialize (H176 H3). rewrite get_slice_Ok by (rewrite length_swapped by done; di_lia). cbn [fmap res_fmap].
    f_equal. pose proof (slice_swapped_in l (di.FLAGS2, 8%nat) core H1 H2 (H8 H3)) as Hs. cbn [fst snd] in Hs.
    unfold from_le_bytes. rewrite Hs, rev_involutive. done.
Qed.

Lemma log_dinode_spec raw core : core_of raw = Some core ->
  exists logged, log_dinode_from_disk raw = Ok (inl logged) /\ length logged = length core /\
    slice di.VERSION 1 logged = slice di.VERSION 1 core /\ log_dinode_to_disk logged = Ok (inl (blanked core)).
Proof.
  intros Hco. destruct (core_of_spec raw core Hco) as (size & Hc & -> & Hl & H96 & Hlen & Hv & H3). set (core := list.take size raw) in *.
  destruct (convert_core_Ok "inode" (fun raw => be64 raw di.FLAGS2) raw size Hc Hl H96) as (flags2 & F1 & F2 & E).
  { intros H. destruct (H3 H) as [_ ->]. rewrite be64_Ok by di_lia. by eexists. }
  fold core in E. set (l := field_layout _ _ _) in E. unfold log_dinode_from_disk. rewrite E. cbn [mbind res_bind]. rewrite byte_at_Ok by di_lia. cbn [mbind res_bind].
  destruct (layout_in_log (rd 1 di.VERSION raw) (negb (Z.land flags2 flags2_BIGTIME =? 0)) (negb (Z.land flags2 DI_FLAGS2_NREXT64 =? 0)) size core Hc Hlen)
    as (L1 & L2 & L3 & L4). fold l in L1, L2, L3, L4.
  destruct (layout_ok (rd 1 di.VERSION raw) (negb (Z.land flags2 flags2_BIGTIME =? 0)) (negb (Z.land flags2 DI_FLAGS2_NREXT64 =? 0)) size Hc)
    as (T1 & _ & _ & T4 & _). fold l in T1, T4. rewrite <- L1 in T1.
  unfold blanked. rewrite Hv.
  set (z4 := [x00; x00; x00; x00]).
  assert (exists logged, (if 3 <=? rd 1 di.VERSION raw then copy_at di.CRC z4 (in_log l core) else Ok (in_log l core)) = Ok logged /\
    length logged = size /\ slice di.VERSION 1 logged = slice di.VERSION 1 core /\
    (3 <= rd 1 di.VERSION raw -> native_u64 logged di.FLAGS2 = Ok flags2) /\
    in_log l logged = (if 3 <=? rd 1 di.VERSION raw then splice di.CRC z4 core else core)) as (logged & -> & G1 & G2 & G3 & G4).
  { destruct (Z.leb_spec 3 (rd 1 di.VERSION raw)) as [H|H].
    - destruct (H3 H) as [HV Hs]. assert (Hz : (di.CRC + length z4 <= length (in_log l core))%nat) by (rewrite L1, Hs; cbv; lia).
      rewrite copy_at_Ok by done. eexists. split; [done|]. rewrite length_splice by done. split; [done|].
      split; [rewrite slice_splice_disjoint; [done|done|left; cbv; lia]|]. split.
      + intros _. rewrite <- (F1 H). rewrite be64_Ok by di_lia. transitivity (Ok (rd 8 di.FLAGS2 core)).
        * rewrite <- L4 by done. unfold native_u64, get_slice. rewrite length_splice by done.
          rewrite slice_splice_disjoint; [done|done|right; cbv; lia].
        * unfold rd. do 2 f_equal. symmetry. change core with (slice 0 size raw). rewrite slice_slice; [done|rewrite Hs; cbv; lia].
      + revert L2 T1 Hz. unfold in_log. destruct host_big_endian; [done|]. intros L2 T1 Hz. rewrite swapped_splice by done. by rewrite L2.
    - exists (in_log l core). split_and!; done || lia. }
  cbn [mbind res_bind]. exists logged. split; [done|]. split; [congruence|]. split; [done|].
  assert (HVl : rd 1 di.VERSION logged = rd 1 di.VERSION raw) by (rewrite <- Hv; unfold rd; by rewrite G2).
  unfold log_dinode_to_disk. destruct (convert_core_Ok "logged core" (fun l => native_u64 l di.FLAGS2) logged size) as (f2 & K1 & K2 & ->);
    [by rewrite HVl|lia|done|rewrite HVl; intros H; exists flags2; by apply G3|].
  rewrite HVl in *. assert (f2 = flags2) as ->.
  { destruct (Z.leb_spec 3 (rd 1 di.VERSION raw)) as [H|H]; [specialize (G3 H); specialize (K1 H); congruence|by rewrite K2, F2]. }
  fold l. rewrite take_ge by lia. by rewrite G4.
Qed.

End codec_facts.

(** ** Where an inode's item says it is *)

Lemma containing_spec pos cluster :
  0 <= pos -> pos + 512 < 2 ^ 64 -> 0 < cluster < 2 ^ 32 -> cluster mod 512 = 0 ->
  exists b, containing pos cluster = Ok b /\ ib_blkno b * 512 + ib_boffset b = pos /\ 0 <= ib_boffset b < cluster /\
    ib_len b * 512 = cluster /\ in_u 64 (ib_blkno b) /\ in_u 32 (ib_len b) /\ in_u 32 (ib_boffset b) /\
    (ib_blkno b * 512) mod cluster = 0.
Proof.
  intros Hp Hb Hc Hm. unfold containing. rewrite (proj2 (Z.eqb_neq _ _)) by lia. eexists. split; [done|]. cbn [ib_blkno ib_len ib_boffset].
  change (Z.of_nat BBSIZE) with 512. pose proof (Z.mod_pos_bound pos cluster ltac:(lia)) as Hr.
  pose proof (Z.div_mod pos cluster ltac:(lia)) as Hd. pose proof (Z.div_mod cluster 512 ltac:(done)) as Hd'.
  assert (Hs : pos - pos mod cluster = cluster / 512 * (pos / cluster) * 512) by nia. rewrite Hs, Z.div_mul by done.
  replace (pos - cluster / 512 * (pos / cluster) * 512) with (pos mod cluster) by lia. rewrite wrap_small by (unfold in_u; lia).
  unfold in_u. assert (0 <= pos / cluster) by (apply Z.div_pos; lia). assert (0 < cluster / 512) by lia.
  split_and!; try lia; try nia. replace (cluster / 512 * (pos / cluster) * 512) with (pos / cluster * cluster) by nia. apply Z.mod_mul. lia.
Qed.

Record buffer_typed (b : InodeBuffer) : Prop := {
  bt_blkno : in_u 64 (ib_blkno b); bt_len : in_u 32 (ib_len b); bt_boffset : in_u 32 (ib_boffset b);
}.

Ltac fields_ok := repeat first [apply Forall_nil_2|apply Forall_cons_2|apply FOP_nil|apply FOP_cons];
  unfold disjoint_fields; cbn [fst snd]; rewrite ?length_replicate; ilf_lia.

(** What recovery reads of a format operation. *)
Lemma le_field n pos v (f : bytes) : slice pos n f = to_le_bytes n v -> 0 <= v < 256 ^ Z.of_nat n -> from_le_bytes (slice pos n f) = v.
Proof. intros -> Hv. by apply from_to_le_bytes_small. Qed.

Lemma format_read f fields b dsize asize :
  length f = INODE_LOG_FORMAT_SIZE -> in_u 32 fields -> buffer_typed b -> 0 <= dsize < 2 ^ 16 -> 0 <= asize < 2 ^ 16 ->
  slice ilf.FIELDS 4 f = to_le_bytes 4 fields -> slice ilf.BLKNO 8 f = to_le_bytes 8 (ib_blkno b) ->
  slice ilf.LEN 4 f = to_le_bytes 4 (ib_len b) -> slice ilf.BOFFSET 4 f = to_le_bytes 4 (ib_boffset b) ->
  slice ilf.DSIZE 2 f = to_le_bytes 2 dsize -> slice ilf.ASIZE 2 f = to_le_bytes 2 asize ->
  inode_format_of f = Ok (mkInodeFormat fields (ib_blkno b) (ib_len b) (ib_boffset b) (Z.to_nat dsize) (Z.to_nat asize)).
Proof.
  intros Hl Hf [H1 H2 H3] Hd Ha E1 E2 E3 E4 E5 E6. unfold inode_format_of, in_u in *.
  rewrite !native_u32_slice, native_u64_slice, !native_u16_slice by ilf_lia. cbn [mbind res_bind].
  by rewrite (le_field 4 _ _ _ E1), (le_field 8 _ _ _ E2), (le_field 4 _ _ _ E3), (le_field 4 _ _ _ E4), (le_field 2 _ _ _ E5),
    (le_field 2 _ _ _ E6) by done.
Qed.

Lemma inode_log_format_spec ino fields b :
  exists f, inode_log_format ino fields b = Ok f /\ length f = INODE_LOG_FORMAT_SIZE /\
    (forall e, e ∈ inode_log_fields ino fields b -> slice e.1 (length e.2) f = e.2) /\
    slice ilf.DSIZE 2 f = to_le_bytes 2 0 /\ slice ilf.ASIZE 2 f = to_le_bytes 2 0.
Proof.
  destruct (put_all_spec (inode_log_fields ino fields b) (replicate INODE_LOG_FORMAT_SIZE x00)) as (f & E & El & Hs & Ho).
  - unfold inode_log_fields, extent_of. cbn [fmap list_fmap fst snd]. rewrite !length_to_le_bytes. fields_ok.
  - unfold inode_log_fields, extent_of. cbn [fmap list_fmap fst snd]. rewrite !length_to_le_bytes. fields_ok.
  - exists f. split; [done|]. rewrite length_replicate in El. split; [done|]. split; [done|].
    split; rewrite Ho; try done; unfold inode_log_fields, extent_of; cbn [fmap list_fmap fst snd]; rewrite !length_to_le_bytes; fields_ok.
Qed.

(** The items of an inode's core, alone or with its attribute fork. *)
Lemma inode_ops_spec ino b logged afork afields :
  buffer_typed b -> afields = XFS_ILOG_ADATA \/ afields = XFS_ILOG_AEXT -> Z.of_nat (length afork) < 2 ^ 16 ->
  exists f regions, inode_ops_with_attr ino b logged afork afields = Ok (mkOp 0 f :: mkOp 0 logged :: (mkOp 0 <$> regions)) /\
    length f = INODE_LOG_FORMAT_SIZE /\ slice 0 2 f = to_le_bytes 2 XFS_LI_INODE /\
    slice 2 2 f = to_le_bytes 2 (2 + Z.of_nat (length regions)) /\
    (afork = [] /\ regions = [] \/
     afork <> [] /\ exists pad, regions = [afork ++ pad] /\ (length (afork ++ pad) < length afork + 4)%nat) /\
    inode_format_of f =
      Ok (mkInodeFormat (if afork is [] then XFS_ILOG_CORE else Z.lor XFS_ILOG_CORE afields) (ib_blkno b) (ib_len b) (ib_boffset b) 0
            (length afork)).
Proof.
  intros Hb Haf Hlen. unfold inode_ops_with_attr. destruct afork as [|x afork].
  - destruct (inode_log_format_spec ino XFS_ILOG_CORE b) as (f & -> & Hl & Hs & Hd & Ha). exists f, []. cbn [mbind res_bind].
    split; [done|]. split; [done|].
    assert (Hin : forall pos n z, (pos, to_le_bytes n z) ∈ inode_log_fields ino XFS_ILOG_CORE b -> slice pos n f = to_le_bytes n z).
    { intros pos n z Hi. rewrite <- (length_to_le_bytes n z) at 1. exact (Hs _ Hi). }
    split; [apply Hin; unfold inode_log_fields; repeat constructor|]. split; [apply Hin; unfold inode_log_fields; repeat constructor|].
    split; [by left|]. apply (format_read f XFS_ILOG_CORE b 0 0); try done; try (apply Hin; unfold inode_log_fields; repeat constructor).
  - set (af := x :: afork) in *. set (fields := Z.lor XFS_ILOG_CORE afields). unfold inode_log_format_with_forks.
    rewrite wrap_small by (unfold in_u; lia). set (asize := Z.of_nat (length af)) in *.
    assert (Hpos : 0 < asize) by (unfold asize, af; cbn [length]; lia).
    destruct (inode_log_format_spec ino fields b) as (f0 & -> & Hl & Hs & Hd & Ha). cbn [mbind res_bind].
    rewrite (proj2 (Z.ltb_lt 0 asize)) by done. change (2 + (if 0 <? 0 then 1 else 0) + 1) with 3.
    set (more := [(ilf.SIZE, to_le_bytes 2 3); (ilf.DSIZE, to_le_bytes 2 0); (ilf.ASIZE, to_le_bytes 2 asize)]).
    destruct (put_all_spec more f0) as (f & -> & El & Hs' & Ho).
    { unfold more, extent_of. cbn [fmap list_fmap fst snd]. rewrite !length_to_le_bytes, Hl. fields_ok. }
    { unfold more, extent_of. cbn [fmap list_fmap fst snd]. rewrite !length_to_le_bytes. fields_ok. }
    cbn [mbind res_bind]. set (attr := resize (div_ceil (length af) 4 * 4) x00 af).
    pose proof (div_ceil_bounds (length af) 4 ltac:(lia)) as Hdc.
    exists f, [attr]. split; [done|]. split; [congruence|].
    assert (Hin : forall pos n z, (pos, to_le_bytes n z) ∈ more -> slice pos n f = to_le_bytes n z).
    { intros pos n z Hi. rewrite <- (length_to_le_bytes n z) at 1. exact (Hs' _ Hi). }
    assert (Hold : forall pos n z, (pos, to_le_bytes n z) ∈ inode_log_fields ino fields b ->
      Forall (disjoint_fields (pos, n)) (extent_of <$> more) -> slice pos n f = to_le_bytes n z).
    { intros pos n z Hi Hdis. rewrite Ho by done. rewrite <- (length_to_le_bytes n z) at 1. exact (Hs _ Hi). }
    assert (Hdj : forall pos n, (pos + n <= 2 \/ 12 <= pos \/ pos = 4 /\ n = 4)%nat -> Forall (disjoint_fields (pos, n)) (extent_of <$> more)).
    { intros pos n Hp. unfold more, extent_of. cbn [fmap list_fmap fst snd]. rewrite !length_to_le_bytes. fields_ok. }
    split; [apply Hold; [unfold inode_log_fields; repeat constructor|apply Hdj; lia]|].
    split; [change (2 + Z.of_nat (length [attr])) with 3; apply Hin; unfold more; repeat constructor|].
    split.
    + right. split; [done|]. exists (replicate (div_ceil (length af) 4 * 4 - length af) x00).
      unfold attr. rewrite resize_ge by lia. split; [done|]. rewrite length_app, length_replicate. lia.
    + replace (length af) with (Z.to_nat asize) by (unfold asize; lia). apply (format_read f fields b 0 asize); try done; try lia;
        try (apply Hold; [unfold inode_log_fields; repeat constructor|apply Hdj; ilf_lia]); try (apply Hin; unfold more; repeat constructor).
      unfold fields. by destruct Haf as [->| ->].
Qed.

(** ** Replaying an inode *)

Definition fork_start (core : bytes) : nat :=
  if 3 <=? rd 1 di.VERSION core then XFS_DINODE_V3_SIZE else XFS_DINODE_V2_SIZE.
Definition attr_start (core : bytes) : nat := (fork_start core + Z.to_nat (rd 1 di.FORKOFF core) * 8)%nat.

Section replayed.
Context `{Crc : Crc32c} {laws : Crc32cLaws} (sb : Superblock) (Hgeo : sb_geometry sb).
Notation isize := (Z.to_nat (sb_inodesize sb)).

(** The core over the inode found, but for its unlinked pointer; the attribute
    fork where it starts; a fresh checksum. *)
Definition merged_inode (core afork base : bytes) : bytes :=
  splice (attr_start core) afork (splice di.NEXT_UNLINKED (slice di.NEXT_UNLINKED 4 base) (splice 0 (blanked core) base)).
Definition replayed_inode (core afork base : bytes) : bytes :=
  let m := merged_inode core afork base in
  if is_v5 sb then splice di.CRC (to_le_bytes 4 (zeroed_crc m di.CRC)) m else m.

Definition attr_fits (core afork : bytes) : Prop := afork = [] \/ (attr_start core + length afork <= isize)%nat.

Lemma stamp_inode_spec (m : bytes) : (256 <= length m)%nat ->
  stamp_inode sb m = Ok (if is_v5 sb then splice di.CRC (to_le_bytes 4 (zeroed_crc m di.CRC)) m else m).
Proof using Crc sb.
  intros Hm. unfold stamp_inode. destruct (is_v5 sb); cbn [negb]; [|done].
  unfold restamp. change inode_CRC with di.CRC. rewrite (proj2 (Nat.ltb_ge _ _)) by di_lia. rewrite crc32c_with_zeroed_crc_Ok by di_lia. cbn [mbind res_bind].
  by rewrite copy_at_Ok by (rewrite length_to_le_bytes; di_lia).
Qed.

Section one.
Context (raw core afork base : bytes) (Hco : core_of raw = Some core) (Hb : length base = isize) (Hfit : attr_fits core afork).

Lemma length_blanked : length (blanked core) = length core.
Proof.
  destruct (core_of_spec raw core Hco) as (size & _ & _ & _ & _ & Hl & Hv & H3). unfold blanked. rewrite Hv.
  destruct (Z.leb_spec 3 (rd 1 di.VERSION raw)) as [H|H]; [|done]. destruct (H3 H) as [_ Hs]. apply length_splice. rewrite Hl, Hs. cbv. lia.
Qed.

Lemma core_bounds : (96 <= length core <= 176)%nat /\ (length core <= isize)%nat /\ (256 <= isize)%nat /\
  (rd 1 di.VERSION core = 3 /\ length core = 176%nat \/ rd 1 di.VERSION core < 3 /\ length core = 96%nat) /\ (fork_start core <= 176)%nat.
Proof.
  destruct (core_of_spec raw core Hco) as (size & Hc & _ & _ & H96 & -> & Hv & H3). pose proof (inodesize_bounds sb Hgeo) as Hi.
  assert (Hcase : rd 1 di.VERSION core = 3 /\ size = 176%nat \/ rd 1 di.VERSION core < 3 /\ size = 96%nat).
  { rewrite Hv. unfold core_length in Hc. destruct (Z.eqb_spec (rd 1 di.VERSION raw) 1), (Z.eqb_spec (rd 1 di.VERSION raw) 2), (Z.eqb_spec (rd 1 di.VERSION raw) 3);
      cbn [orb] in Hc; try done; injection Hc as <-; cbv [V2_LOG_DINODE_SIZE LOG_DINODE_SIZE]; lia. }
  assert (Hfs : (fork_start core <= 176)%nat) by (unfold fork_start; destruct (3 <=? _); cbv; lia). lia.
Qed.

Lemma slice_blanked off n : (off + n <= 100)%nat -> (off + n <= length core)%nat -> slice off n (blanked core) = slice off n core.
Proof.
  intros H Hl. unfold blanked. destruct (Z.leb_spec 3 (rd 1 di.VERSION core)) as [H3|H3]; [|done].
  destruct core_bounds as (_ & _ & _ & [[_ E]|[? _]] & _); [|lia]. apply slice_splice_disjoint; [rewrite E; cbv; lia|left; di_lia].
Qed.

Lemma length_merged : length (merged_inode core afork base) = isize.
Proof.
  destruct core_bounds as (H1 & H2 & H3 & _). pose proof length_blanked as Hlb. unfold merged_inode, di.NEXT_UNLINKED.
  destruct Hfit as [->|Hf]; [rewrite splice_nil|]; size_lia.
Qed.

Lemma applied_inode_core `{Host} f n regs logged b afields :
  log_dinode_to_disk logged = Ok (inl (blanked core)) ->
  afields = XFS_ILOG_ADATA \/ afields = XFS_ILOG_AEXT ->
  (afork = [] /\ regs = [] \/ afork <> [] /\ exists pad, regs = [afork ++ pad] /\ (length (afork ++ pad) < length afork + 4)%nat) ->
  applied_inode sb (mkInodeFormat (if afork is [] then XFS_ILOG_CORE else Z.lor XFS_ILOG_CORE afields) (ib_blkno b) (ib_len b) (ib_boffset b) 0
                      (length afork)) (mkLogItem (f :: logged :: regs) n) base = Ok (replayed_inode core afork base).
Proof.
  intros Hdisk Haf Hregs. destruct core_bounds as (H1 & H2 & H3 & Hv & Hfs). pose proof length_blanked as Hlb.
  unfold applied_inode. cbn [f_fields f_dsize f_asize].
  set (m1 := splice di.NEXT_UNLINKED (slice di.NEXT_UNLINKED 4 base) (splice 0 (blanked core) base)).
  assert (Hl0 : length (splice 0 (blanked core) base) = isize) by size_lia.
  assert (Hl1 : length m1 = isize) by (unfold m1, di.NEXT_UNLINKED; size_lia).
  assert (Hcore : apply_core (if afork is [] then XFS_ILOG_CORE else Z.lor XFS_ILOG_CORE afields) (mkLogItem (f :: logged :: regs) n) base = Ok (m1, 2%nat)).
  { unfold apply_core. assert ((Z.land (if afork is [] then XFS_ILOG_CORE else Z.lor XFS_ILOG_CORE afields) XFS_ILOG_CORE =? 0) = false) as ->.
    { destruct afork; [done|]. by destruct Haf as [->| ->]. }
    cbn [regions lookup list_lookup]. rewrite Hdisk. cbn [mbind res_bind]. rewrite (proj2 (Nat.ltb_ge _ _)) by lia. cbn [fail_if mbind res_bind].
    rewrite get_slice_Ok by di_lia. cbn [mbind res_bind]. rewrite copy_at_Ok by lia. cbn [mbind res_bind]. rewrite Hlb.
    destruct (Nat.leb_spec (di.NEXT_UNLINKED + 4) (length core)) as [Hn|Hn].
    - rewrite copy_at_Ok by (unfold di.NEXT_UNLINKED; size_lia). done.
    - cbn [mbind res_bind]. do 2 f_equal. unfold m1. rewrite <- (splice_self di.NEXT_UNLINKED 4 (splice 0 (blanked core) base)) at 1 by di_lia.
      f_equal. apply slice_splice_disjoint; [lia|right; di_lia]. }
  rewrite Hcore. cbn [mbind res_bind].
  assert (Hm1 : forall o, (o = 4 \/ o = 82)%nat -> rd 1 o m1 = rd 1 o core).
  { intros o Ho. unfold rd. f_equal. unfold m1, di.NEXT_UNLINKED. rewrite slice_splice_disjoint by size_lia.
    rewrite slice_splice_within by lia. rewrite Nat.sub_0_r. apply slice_blanked; lia. }
  unfold fork_start_of. rewrite byte_at_Ok by di_lia. cbn [mbind res_bind]. rewrite Hm1 by (left; done). fold (fork_start core).
  unfold apply_data_fork. rewrite orb_true_r. cbn [mbind res_bind].
  assert (Hattr : apply_attr_fork sb (if afork is [] then XFS_ILOG_CORE else Z.lor XFS_ILOG_CORE afields) (length afork) (fork_start core)
    (mkLogItem (f :: logged :: regs) n) m1 2 = Ok (merged_inode core afork base)).
  { unfold merged_inode. fold m1. unfold apply_attr_fork. destruct Hregs as [[-> ->]|(Hne & pad & -> & Hpad)].
    - cbn [length Nat.eqb]. rewrite orb_true_r. by rewrite splice_nil.
    - assert ((Z.land (if afork is [] then XFS_ILOG_CORE else Z.lor XFS_ILOG_CORE afields) ATTR_FORK_FIELDS =? 0) = false) as ->.
      { destruct afork; [done|]. by destruct Haf as [->| ->]. }
      assert (Hp : (length afork <> 0)%nat) by by destruct afork.
      rewrite (proj2 (Nat.eqb_neq _ _) Hp). cbn [orb regions lookup list_lookup]. rewrite byte_at_Ok by di_lia. cbn [mbind res_bind].
      rewrite Hm1 by (right; done). fold (attr_start core). destruct Hfit as [?|Hf]; [done|]. rewrite Hl1.
      rewrite (proj2 (Nat.leb_gt _ _)) by lia.
      assert (negb (Z.land (if afork is [] then XFS_ILOG_CORE else Z.lor XFS_ILOG_CORE afields) XFS_ILOG_ABROOT =? 0) = false) as ->.
      { destruct afork; [done|]. by destruct Haf as [->| ->]. }
      rewrite length_app in Hpad |- *. replace (Nat.min _ _) with (length afork) by lia.
      rewrite get_slice_Ok by (rewrite length_app; lia). cbn [mbind res_bind]. unfold slice. rewrite drop_0, take_app_length. apply copy_at_Ok. lia. }
  rewrite Hattr. cbn [mbind res_bind]. rewrite stamp_inode_spec by (rewrite length_merged; lia). done.
Qed.

(** What that inode holds. *)
Record inode_replayed (image : bytes) : Prop := {
  ir_len : length image = isize;
  ir_core : slice 0 96 image = slice 0 96 core;
  ir_tail : rd 1 di.VERSION core = 3 -> slice 104 72 image = slice 104 72 core;
  ir_unlinked : slice di.NEXT_UNLINKED 4 image = slice di.NEXT_UNLINKED 4 base;
  ir_crc : is_v5 sb = true -> rd_le 4 di.CRC image = zeroed_crc image di.CRC;
  ir_fork : slice (attr_start core) (length afork) image = afork;
  ir_rest : forall i, (fork_start core <= i)%nat -> ~ (attr_start core <= i < attr_start core + length afork)%nat -> image !! i = base !! i;
}.

Lemma replayed_inode_holds : (is_v5 sb = true <-> rd 1 di.VERSION core = 3) -> inode_replayed (replayed_inode core afork base).
Proof.
  intros H5. destruct core_bounds as (H1 & H2 & H3 & Hv & Hfs). pose proof length_blanked as Hlb. pose proof length_merged as Hlm.
  set (m1 := splice di.NEXT_UNLINKED (slice di.NEXT_UNLINKED 4 base) (splice 0 (blanked core) base)).
  assert (Hl1 : length m1 = isize) by (unfold m1, di.NEXT_UNLINKED; size_lia).
  assert (Has : (fork_start core <= attr_start core)%nat) by (unfold attr_start; lia).
  assert (Hver : rd 1 di.VERSION core = 3 /\ fork_start core = 176%nat /\ length core = 176%nat /\ is_v5 sb = true \/
                 fork_start core = 100%nat /\ length core = 96%nat /\ is_v5 sb = false /\ rd 1 di.VERSION core <> 3).
  { unfold fork_start. destruct Hv as [[E L]|[E L]].
    - left. rewrite (proj2 (Z.leb_le _ _)) by lia. split_and!; try done. by apply H5.
    - right. rewrite (proj2 (Z.leb_gt _ _)) by lia. split_and!; try done; try lia. destruct (is_v5 sb); [|done]. rewrite (proj1 H5) in E by done. lia. }
  assert (Hm : forall i, (i < attr_start core)%nat -> merged_inode core afork base !! i = m1 !! i).
  { intros i Hi. unfold merged_inode. fold m1. destruct Hfit as [->|Hf]; [by rewrite splice_nil|]. apply lookup_splice_out; lia. }
  assert (Hms : forall off n, (off + n <= attr_start core)%nat -> slice off n (merged_inode core afork base) = slice off n m1).
  { intros off n Hon. apply list_eq. intros i. rewrite !lookup_slice. case_decide; [|done]. apply Hm. lia. }
  set (image := replayed_inode core afork base).
  assert (Hz : (di.CRC + length (to_le_bytes 4 (zeroed_crc (merged_inode core afork base) di.CRC)) <= length (merged_inode core afork base))%nat)
    by (rewrite length_to_le_bytes; di_lia).
  assert (Hi : forall off n, (off + n <= 100 \/ 104 <= off \/ is_v5 sb = false)%nat ->
    slice off n image = slice off n (merged_inode core afork base)).
  { intros off n Ho. unfold image, replayed_inode. destruct (is_v5 sb) eqn:E; [|done].
    apply slice_splice_disjoint; [exact Hz|]. rewrite length_to_le_bytes. destruct Ho as [Ho|[Ho|Ho]]; [left; di_lia|right; di_lia|done]. }
  assert (Hil : forall i, (i < 100 \/ 104 <= i \/ is_v5 sb = false)%nat -> image !! i = merged_inode core afork base !! i).
  { intros i Ho. unfold image, replayed_inode. destruct (is_v5 sb) eqn:E; [|done].
    apply lookup_splice_out; [exact Hz|]. rewrite length_to_le_bytes. destruct Ho as [Ho|[Ho|Ho]]; [left; di_lia|right; di_lia|done]. }
  assert (Hcore : forall off n, (off + n <= 96)%nat -> slice off n m1 = slice off n core).
  { intros off n Ho. unfold m1, di.NEXT_UNLINKED. rewrite slice_splice_disjoint by size_lia.
    rewrite slice_splice_within by lia. rewrite Nat.sub_0_r. apply slice_blanked; lia. }
  split.
  - unfold image, replayed_inode. destruct (is_v5 sb); [by rewrite length_splice|done].
  - rewrite Hi, Hms, Hcore by lia. done.
  - intros E3. destruct Hver as [(_ & Ef & El & _)|(_ & _ & _ & ?)]; [|done]. rewrite Hi, Hms by lia. unfold m1, di.NEXT_UNLINKED.
    rewrite slice_splice_disjoint by size_lia. rewrite slice_splice_within by lia. cbn [Nat.sub]. unfold blanked. rewrite E3. cbn [Z.leb Z.compare Pos.compare Pos.compare_cont].
    apply slice_splice_disjoint; [rewrite El; cbv; lia|right; cbv; lia].
  - rewrite Hi, Hms by di_lia. unfold m1, di.NEXT_UNLINKED. apply slice_splice_same; size_lia.
  - intros E5. unfold image, replayed_inode. rewrite E5. rewrite zeroed_crc_splice by (rewrite ?length_to_le_bytes; di_lia).
    apply rd_le_splice_same; [rewrite length_to_le_bytes in Hz; exact Hz|]. apply zeroed_crc_range.
  - rewrite Hi; [|destruct Hver as [(_ & Ef & _)|(_ & _ & ? & _)]; [right; left; lia|by right; right]].
    unfold merged_inode. destruct Hfit as [->|Hf]; [done|]. fold m1. apply slice_splice_same; [lia|done].
  - intros i Hf Hno. rewrite Hil by (destruct Hver as [(_ & Ef & _)|(_ & _ & ? & _)]; [lia|by right; right]).
    transitivity (m1 !! i).
    + unfold merged_inode. fold m1. destruct Hfit as [->|Hfi]; [by rewrite splice_nil|]. apply lookup_splice_out; lia.
    + unfold m1, di.NEXT_UNLINKED. rewrite lookup_splice_out by (destruct Hver as [(_ & Ef & El & _)|(Ef & El & _ & _)]; size_lia).
      apply lookup_splice_out; destruct Hver as [(_ & Ef & El & _)|(Ef & El & _ & _)]; lia.
Qed.
End one.
End replayed.

Section item.
Context `{Crc : Crc32c} {laws : Crc32cLaws} (sb : Superblock) (Hgeo : sb_geometry sb).
Context {D : Type} {dev : BlockDevice D} (d : D).
Notation isize := (Z.to_nat (sb_inodesize sb)).

(** An inode logged where it lives, met by recovery. *)
Record logged_at (ino pos cluster : Z) (raw core afork : bytes) (afields : Z) (ops : list Op) (b : InodeBuffer) : Prop := {
  la_pos : 0 <= pos /\ pos + 512 < 2 ^ 64;
  la_cluster : 0 < cluster < 2 ^ 32 /\ cluster mod 512 = 0;
  la_core : core_of raw = Some core;
  la_attr : afields = XFS_ILOG_ADATA \/ afields = XFS_ILOG_AEXT;
  la_short : Z.of_nat (length afork) < 2 ^ 16;
  la_fits : attr_fits sb core afork;
  la_buffer : containing pos cluster = Ok b;
  la_ops : exists logged, log_dinode_from_disk raw = Ok (inl logged) /\ inode_ops_with_attr ino b logged afork afields = Ok ops;
}.

Lemma apply_inode_spec ino pos cluster raw core afork afields ops b into cancelled base :
  logged_at ino pos cluster raw core afork afields ops b ->
  length base = isize -> read_at d into pos (replicate isize x00) = Ok base ->
  cancelled !! (ib_blkno b, ib_len b) = None ->
  apply_inode sb d into (log_item_of ops) cancelled =
    (into ← wrote d into pos (replayed_inode sb core afork base); Ok (true, into)).
Proof.
  intros [[Hp0 Hp1] [Hc0 Hc1] Hco Haf Hsh Hfit Hbuf (logged & Hlog & Hops)] Hb Hrd Hcan.
  destruct (containing_spec pos cluster Hp0 Hp1 Hc0 Hc1) as (b' & Hb' & Hat & Hbo & _ & T1 & T2 & T3 & _). rewrite Hbuf in Hb'. injection Hb' as <-.
  destruct (log_dinode_spec raw core Hco) as (logged' & E & _ & _ & Hdisk). rewrite Hlog in E. injection E as <-.
  destruct (inode_ops_spec ino b logged afork afields (Build_buffer_typed _ T1 T2 T3) Haf Hsh) as (f & regs & Eops & Hlf & _ & _ & Hregs & Hfmt).
  rewrite Hops in Eops. injection Eops as ->. unfold log_item_of, apply_inode. cbn [fmap list_fmap op_data regions lookup list_lookup expect mbind res_bind].
  rewrite Hlf. cbn [Nat.ltb Nat.leb INODE_LOG_FORMAT_SIZE fail_if mbind res_bind]. rewrite Hfmt. cbn [mbind res_bind f_blkno f_len].
  unfold is_cancelled. rewrite Hcan, bool_decide_false by by intros [? ?].
  assert (inode_item_at (mkInodeFormat (if afork is [] then XFS_ILOG_CORE else Z.lor XFS_ILOG_CORE afields) (ib_blkno b) (ib_len b) (ib_boffset b) 0 (length afork)) = pos) as ->.
  { unfold inode_item_at. cbn [f_blkno f_boffset]. change (Z.of_nat BBSIZE) with 512. unfold in_u in *.
    rewrite (wrap_small 64 (ib_blkno b * 512)) by (unfold in_u; lia). rewrite wrap_small by (unfold in_u; lia). done. }
  rewrite Hrd. cbn [mbind res_bind].
  assert (op_data <$> (mkOp 0 <$> regs) = regs) as -> by (rewrite <- list_fmap_compose; apply list_fmap_id).
  rewrite (applied_inode_core sb Hgeo raw core afork base Hco Hb Hfit f _ regs logged b afields Hdisk Haf Hregs). done.
Qed.
End item.


(** An inode that does not begin a basic block panics recovery.  A v4
    volume's inodes may be 256 bytes, two to a basic block; the overlay, whose
    writes must begin a block, is written at the inode's own address, so
    replaying the core of any inode in an odd slot is a panic, where the
    overlay's documentation says no inode's address is like that. *)
Theorem odd_inode_panics `{Crc : Crc32c} `{!Crc32cLaws} (sb : Superblock) {D} {dev : BlockDevice D} (d : D)
    ino pos cluster raw core afork afields ops b into cancelled base :
  sb_geometry sb -> logged_at sb ino pos cluster raw core afork afields ops b ->
  length base = Z.to_nat (sb_inodesize sb) -> read_at d into pos (replicate (Z.to_nat (sb_inodesize sb)) x00) = Ok base ->
  cancelled !! (ib_blkno b, ib_len b) = None -> pos mod 512 <> 0 ->
  apply_inode sb d into (log_item_of ops) cancelled = Panic.
Proof.
  intros Hgeo Hla Hb Hrd Hcan Hm. rewrite (apply_inode_spec sb Hgeo d _ _ _ _ _ _ _ _ _ _ _ base Hla Hb Hrd Hcan).
  unfold wrote. change (Z.of_nat BBSIZE) with 512. by rewrite (proj2 (Z.eqb_neq _ 0) Hm).
Qed.

(** ** Creating inodes *)

Section icreate.
Context `{Crc : Crc32c} {laws : Crc32cLaws} (sb : Superblock) (Hty : sb_typed sb) (Hgeo : sb_geometry sb) (H5 : is_v5 sb = true).
Notation isize := (Z.to_nat (sb_inodesize sb)).

Lemma created_inode_spec ino gen :
  in_u 64 ino -> in_u 32 gen ->
  exists image, created_inode sb ino gen = Ok image /\ length image = isize /\ verify_free_slot image sb ino = Ok tt /\
    rd 4 di.GEN image = gen /\ rd 4 di.NEXT_UNLINKED image = DI_NEXT_UNLINKED_NULL.
Proof.
  intros Hi Hg. pose proof (inodesize_bounds sb Hgeo) as Hb. pose proof (ty_meta_uuid _ Hty) as Hu. unfold created_inode.
  set (fields := [(di.MAGIC, to_be_bytes 2 XFS_DINODE_MAGIC); _; _; _; _; _]).
  destruct (put_all_spec fields (replicate isize x00)) as (m & E & Hl & Hs & Ho).
  { unfold fields, extent_of. cbn [fmap list_fmap fst snd]. rewrite !length_to_be_bytes, Hu, length_replicate.
    repeat first [apply Forall_nil_2|apply Forall_cons_2]; cbn [fst snd]; di_lia. }
  { unfold fields, extent_of. cbn [fmap list_fmap fst snd]. rewrite !length_to_be_bytes, Hu.
    repeat first [apply Forall_nil_2|apply Forall_cons_2|apply FOP_nil|apply FOP_cons]; unfold disjoint_fields; cbn [fst snd]; di_lia. }
  rewrite length_replicate in Hl. rewrite E. cbn [mbind res_bind]. rewrite stamp_inode_spec by lia. rewrite H5.
  assert (Hz : (di.CRC + length (to_le_bytes 4 (zeroed_crc m di.CRC)) <= length m)%nat) by (rewrite length_to_le_bytes; di_lia).
  set (image := splice di.CRC _ m). assert (Hli : length image = isize) by (unfold image; by rewrite length_splice).
  assert (Hkeep : forall pos n, (pos + n <= 100 \/ 104 <= pos)%nat -> slice pos n image = slice pos n m).
  { intros pos n Hp. unfold image. apply slice_splice_disjoint; [done|]. rewrite length_to_le_bytes. di_lia. }
  assert (Hf : forall pos n z, (pos, to_be_bytes n z) ∈ fields -> (pos + n <= 100 \/ 104 <= pos)%nat -> 0 <= z < 256 ^ Z.of_nat n ->
    rd n pos image = z).
  { intros pos n z Hin Hp Hr. unfold rd. rewrite Hkeep by done. pose proof (Hs (pos, to_be_bytes n z) Hin) as E'. cbn [fst snd] in E'.
    rewrite length_to_be_bytes in E'. rewrite E'. by apply from_to_be_bytes_small. }
  exists image. split; [done|]. split; [done|]. split; [|split].
  - apply verify_free_slot_exact; [done|]. split; [lia|].
    split; [apply Hf; [unfold fields; repeat constructor|cbv; lia|cbv; split; congruence]|].
    split; [apply Hf; [unfold fields; repeat constructor|cbv; lia|cbv; split; congruence]|].
    split; [split|].
    + rewrite take_ge by lia. unfold image at 2. rewrite zeroed_crc_splice by (rewrite ?length_to_le_bytes; di_lia).
      apply rd_le_splice_same; [rewrite length_to_le_bytes in Hz; exact Hz|]. apply zeroed_crc_range.
    + apply Hf; [unfold fields; repeat constructor|cbv; lia|exact Hi].
    + rewrite Hkeep by (cbv; lia). rewrite <- Hu. apply (Hs (di.UUID, sb_meta_uuid sb)). unfold fields. repeat constructor.
    + unfold rd. rewrite Hkeep by (cbv; lia). rewrite Ho.
      * unfold slice, di.MODE. rewrite drop_replicate, take_replicate. rewrite Nat.min_l by lia. reflexivity.
      * unfold fields, extent_of. cbn [fmap list_fmap fst snd]. rewrite !length_to_be_bytes, Hu.
        repeat first [apply Forall_nil_2|apply Forall_cons_2]; unfold disjoint_fields; cbn [fst snd]; di_lia.
  - apply Hf; [unfold fields; repeat constructor|cbv; lia|exact Hg].
  - apply Hf; [unfold fields; repeat constructor|cbv; lia|cbv; split; congruence].
Qed.

Context {D : Type} {dev : BlockDevice D} {dlaws : BlockDeviceLaws D} (d : D).

(** The number of the inode in a slot of a chunk. *)
Definition slot_ino (agno agbno : Z) (slot : nat) : Z :=
  join_ino sb agno (wrap 32 (wshl 32 agbno (sb_inopblog sb) + Z.of_nat slot)).

Lemma slot_ino_range agno agbno slot : in_u 64 (slot_ino agno agbno slot).
Proof.
  unfold slot_ino, join_ino. apply lor_range; [done|unfold wshl; by apply wrap_range|]. apply (in_u_mono 32); [done|]. by apply wrap_range.
Qed.

(** A view of [n] bytes. *)
Definition seen (into : Overlay) (pos : Z) (b : bytes) : Prop :=
  forall i, (i < length b)%nat -> b !! i = Some (view d into (pos + Z.of_nat i)).

Lemma create_slots_spec agno agbno gen base :
  in_u 32 gen -> (isize mod BBSIZE = 0)%nat -> 0 <= base -> base mod BB = 0 ->
  forall n a into, overlay_ok into -> base + Z.of_nat (a + n) * sb_inodesize sb + BB < 2 ^ 64 ->
  exists into', create_slots sb d agno agbno (sb_inodesize sb) gen base (seq a n) into = Ok into' /\ overlay_ok into' /\
    (forall slot, (a <= slot < a + n)%nat -> exists image, length image = isize /\
       seen into' (base + Z.of_nat slot * sb_inodesize sb) image /\ verify_free_slot image sb (slot_ino agno agbno slot) = Ok tt /\
       rd 4 di.GEN image = gen /\ rd 4 di.NEXT_UNLINKED image = DI_NEXT_UNLINKED_NULL) /\
    forall x, ~ (base + Z.of_nat a * sb_inodesize sb <= x < base + Z.of_nat (a + n) * sb_inodesize sb) -> view d into' x = view d into x.
Proof.
  intros Hg Hm Hb0 Hbm. pose proof (inodesize_bounds sb Hgeo) as Hi. induction n as [|n IH]; intros a into Hok Hb.
  - exists into. split_and!; try done. intros slot Hs. lia.
  - cbn [seq create_slots]. fold (slot_ino agno agbno a).
    destruct (created_inode_spec (slot_ino agno agbno a) gen (slot_ino_range _ _ _) Hg) as (image & -> & Hl & Hv & Hgen & Hnu). cbn [mbind res_bind].
    assert (Hpos : wrap 64 (base + Z.of_nat a * sb_inodesize sb) = base + Z.of_nat a * sb_inodesize sb) by (apply wrap_small; unfold in_u, BB in *; nia).
    rewrite Hpos. set (pos := base + Z.of_nat a * sb_inodesize sb) in *.
    assert (Hpm : pos mod BB = 0).
    { assert (Hz : sb_inodesize sb mod 512 = 0). { rewrite <- (Z2Nat.id (sb_inodesize sb)) by lia. unfold BBSIZE in Hm. change 512 with (Z.of_nat 512). rewrite <- Nat2Z.inj_mod, Hm. done. }
      unfold pos, BB in *. rewrite Z.add_mod, Hbm, Z.mul_mod, Hz by done. rewrite Z.mul_0_r. done. }
    pose proof (wrote_spec d into pos image Hok ltac:(unfold pos; lia) ltac:(unfold pos, BB in *; nia)
      (tail_readable_blocks d pos image ltac:(by rewrite Hl))) as Hw.
    destruct (wrote d into pos image) as [into1|e|]; [|done|done]. destruct Hw as (_ & Hok1 & V1). cbn [mbind res_bind].
    destruct (IH (S a) into1 Hok1) as (into' & E & Hok' & Hslots & Hout); [unfold BB in *; lia|].
    exists into'. split; [done|]. split; [done|]. split.
    + intros slot Hs. destruct (decide (slot = a)) as [->|Hne]; [|apply Hslots; lia]. exists image. split_and!; try done.
      intros i Hil. fold pos. rewrite Hout by (unfold pos; lia). rewrite V1. rewrite decide_True by lia.
      rewrite byte_at_lookup by done. do 2 f_equal. lia.
    + intros x Hx. rewrite Hout by (unfold pos in *; lia). rewrite V1, decide_False; [done|]. unfold pos. lia.
Qed.

Lemma fsblock_offset_aligned fsblock : fsblock_offset sb fsblock + BB < 2 ^ 64 -> fsblock_offset sb fsblock mod BB = 0 /\ 0 <= fsblock_offset sb fsblock.
Proof.
  unfold fsblock_offset. destruct (split_fsblock sb fsblock) as [ag blk] eqn:Es. unfold saturating_mul at 1 3 5, umax, BB.
  set (s := saturating_add _ _ _). intros Hlt. assert (Hs : 0 <= s).
  { assert (0 <= blk /\ 0 <= ag) as [? ?].
    { unfold split_fsblock in Es. injection Es as <- <-. split; apply wrap_range; lia. }
    pose proof (ty_agblocks _ Hty) as [? ?]. unfold s, saturating_add, saturating_mul, umax. lia. }
  destruct Hgeo as [[Hbl Hbs] _ _ _]. rewrite Hbs in *. assert (0 < 2 ^ sb_blocklog sb) by (apply Z.pow_pos_nonneg; lia).
  rewrite Z.min_l in * by lia. split; [|nia]. replace (sb_blocklog sb) with (9 + (sb_blocklog sb - 9)) by lia. rewrite Z.pow_add_r by lia.
  change (2 ^ 9) with 512. rewrite (Z.mul_comm 512), Z.mul_assoc. apply Z.mod_mul. done.
Qed.
End icreate.

(** Creating a chunk's inodes.  An inode-creation item whose inodes fill its
    blocks in a group of the volume replays, on a v5 volume whose inodes are
    whole basic blocks, to that many free inodes one after another, each of
    which the reader of free slots vouches for under its own number and each
    with the item's generation; nothing else on the volume changes. *)
Theorem icreate_makes_free_inodes `{Crc : Crc32c} `{!Crc32cLaws} (sb : Superblock) {D} {dev : BlockDevice D} {dlaws : BlockDeviceLaws D} (d : D)
    (into : Overlay) (agno agbno count length_ gen : Z) f :
  let base := fsblock_offset sb (Z.lor (wshl 64 agno (sb_agblklog sb)) agbno) in
  sb_typed sb -> sb_geometry sb -> is_v5 sb = true -> (Z.to_nat (sb_inodesize sb) mod BBSIZE = 0)%nat -> overlay_ok into ->
  0 <= agno < sb_agcount sb -> in_u 32 agbno -> in_u 32 count -> in_u 32 length_ -> in_u 32 gen ->
  count * sb_inodesize sb = length_ * sb_blocksize sb -> base + count * sb_inodesize sb + BB < 2 ^ 64 ->
  icreate_build agno agbno count (sb_inodesize sb) length_ gen = Ok f ->
  exists into', apply_icreate sb d into (log_item_of [mkOp 0 f]) = Ok into' /\ overlay_ok into' /\
    (forall slot, (slot < Z.to_nat count)%nat -> exists image, length image = Z.to_nat (sb_inodesize sb) /\
       seen d into' (base + Z.of_nat slot * sb_inodesize sb) image /\
       verify_free_slot image sb (slot_ino sb agno agbno slot) = Ok tt /\ rd 4 di.GEN image = gen /\
       rd 4 di.NEXT_UNLINKED image = DI_NEXT_UNLINKED_NULL) /\
    forall x, ~ (base <= x < base + count * sb_inodesize sb) -> view d into' x = view d into x.
Proof.
  cbv zeta. intros Hty Hgeo H5 Hm Hok Hag Hbn Hc Hl Hg Hfill Hb Hf. pose proof (inodesize_bounds sb Hgeo) as Hi.
  pose proof (ty_agcount _ Hty) as Hac. unfold icreate_build in Hf. cbn [host_big_endian little_endian] in Hf. apply bind_Ok in Hf as ([] & _ & Hf). injection Hf as Hf.
  unfold apply_icreate, log_item_of. cbn [fmap list_fmap op_data regions lookup list_lookup expect mbind res_bind].
  assert (Hlen : length f = 28%nat) by (by rewrite <- Hf). rewrite Hlen. cbn [Nat.ltb Nat.leb XFS_ICREATE_SIZE fail_if mbind res_bind].
  rewrite !be32_Ok by lia. cbn [mbind res_bind]. unfold in_u in *.
  assert (Hr : forall pos v, slice pos 4 f = to_be_bytes 4 v -> 0 <= v < 2 ^ 32 -> rd 4 pos f = v).
  { intros pos v E Hv. unfold rd. rewrite E. by apply from_to_be_bytes_small. }
  rewrite (Hr 4%nat agno), (Hr 8%nat agbno), (Hr 12%nat count), (Hr 16%nat (sb_inodesize sb)), (Hr 20%nat length_), (Hr 24%nat gen)
    by (lia || by rewrite <- Hf).
  rewrite (proj2 (Z.leb_gt _ _)) by lia. cbn [fail_if mbind res_bind]. rewrite Z.eqb_refl. cbn [negb fail_if mbind res_bind].
  rewrite (proj2 (Z.eqb_eq _ _) Hfill). cbn [negb fail_if mbind res_bind].
  set (base := fsblock_offset sb _) in *. destruct (fsblock_offset_aligned sb Hty Hgeo (Z.lor (wshl 64 agno (sb_agblklog sb)) agbno)) as [Hal H0];
    [fold base; unfold BB in *; nia|]. fold base in Hal, H0.
  destruct (create_slots_spec sb Hty Hgeo H5 d agno agbno gen base Hg Hm H0 Hal (Z.to_nat count) 0 into Hok) as (into' & E & Hok' & Hs & Ho);
    [cbn [Nat.add]; rewrite Z2Nat.id by lia; exact Hb|].
  exists into'. split; [exact E|]. split; [done|]. split; [intros slot Hsl; apply Hs; lia|].
  intros x Hx. apply Ho. cbn [Nat.add]. rewrite Z2Nat.id by lia. lia.
Qed.

(** ** On the sample volumes *)

Definition sample_afork : bytes := [x00; x07; x01].

Definition sample_core : bytes := Eval vm_compute in list.take 176 sample_inode.
Definition sample_logged : bytes := Eval vm_compute in
  match log_dinode_from_disk sample_inode with Ok (inl logged) => logged | _ => [] end.
Definition sample_inode_ops : list Op := Eval vm_compute in
  match inode_ops_with_attr 129 (mkInodeBuffer 0 16 1024) sample_logged sample_afork XFS_ILOG_ADATA with Ok l => l | _ => [] end.

Lemma sample_logged_at sb : 256 <= sb_inodesize sb ->
  logged_at sb 129 1024 8192 sample_inode sample_core sample_afork XFS_ILOG_ADATA sample_inode_ops (mkInodeBuffer 0 16 1024).
Proof.
  intros Hs. split; [lia|split; [lia|reflexivity]|vm_compute; reflexivity|by left|reflexivity| |reflexivity|].
  - right. change (attr_start sample_core) with 216%nat. change (length sample_afork) with 3%nat. lia.
  - exists sample_logged. split; vm_compute; reflexivity.
Qed.


(** A v4 volume, with two inodes to a basic block. *)
Definition v4_buf : bytes :=
  fold_left put_field [F offsets.VERSIONNUM 2 0xb4a4; F offsets.FEATURES2 4 0x8a; F offsets.BAD_FEATURES2 4 0x8a] sample_buf.
Definition v4_sb : Superblock := Eval vm_compute in match parse v4_buf with Ok sb => sb | _ => sample_sb end.
Definition v4_inode : bytes := Eval vm_compute in
  fold_left put_field
    [F di.MAGIC 2 XFS_DINODE_MAGIC; F di.MODE 2 0x81a4; F di.VERSION 1 2; F di.FORMAT 1 2; F di.AFORMAT 1 2; F di.NLINK 4 1;
     F di.NEXT_UNLINKED 4 0xffffffff] (replicate 256 x00).

Lemma v4_geometry : sb_geometry v4_sb /\ is_v5 v4_sb = false.
Proof.
  assert (E : parse v4_buf = Ok v4_sb) by (vm_compute; reflexivity).
  split; [|vm_compute; reflexivity]. destruct (parse_Ok_inv _ _ E) as (? & ? & _ & _ & _ & ? & ?). by apply validate_spec.
Qed.

Lemma odd_inode_panics_witness :
  exists ops, is_v5 v4_sb = false /\ apply_inode v4_sb sample_device ∅ (log_item_of ops) ∅ = Panic.
Proof.
  destruct (core_of v4_inode) as [core|] eqn:E; [|vm_compute in E; discriminate].
  destruct (log_dinode_spec v4_inode core E) as (logged & Hl & _).
  destruct (inode_ops_with_attr 129 (mkInodeBuffer 0 16 1280) logged [] XFS_ILOG_ADATA) as [l| |] eqn:El;
    [|exfalso; destruct (inode_ops_spec 129 (mkInodeBuffer 0 16 1280) logged [] XFS_ILOG_ADATA) as (f & regs & Eo & _);
      [split; unfold in_u; cbn; lia|by left|vm_compute; reflexivity|congruence]..].
  exists l. split; [apply v4_geometry|].
  apply (odd_inode_panics v4_sb sample_device 129 1280 8192 v4_inode core [] XFS_ILOG_ADATA l (mkInodeBuffer 0 16 1280) ∅ ∅ (replicate 256 x11)).
  - apply v4_geometry.
  - split; [lia|split; [lia|reflexivity]|exact E|by left|reflexivity|by left|reflexivity|exists logged; split; [exact Hl|exact El]].
  - reflexivity.
  - vm_compute. reflexivity.
  - apply lookup_empty.
  - discriminate.
Defined.

(** A v5 volume of one inode to a block. *)
Definition wide_inode_buf : bytes :=
  let b := fold_left put_field
    (sample_fields ++ [F offsets.INODESIZE 2 512; F offsets.INOPBLOCK 2 1; F offsets.INODELOG 1 9; F offsets.INOPBLOG 1 0])
    (replicate 512 x00) in
  splice offsets.CRC (to_le_bytes 4 (zeroed_crc b offsets.CRC)) b.
Definition wide_inode_sb : Superblock := Eval vm_compute in
  match parse wide_inode_buf with Ok sb => sb | _ => sample_sb end.

Lemma wide_inode_parsed : sb_typed wide_inode_sb /\ sb_geometry wide_inode_sb.
Proof.
  assert (E : parse wide_inode_buf = Ok wide_inode_sb) by (vm_compute; reflexivity).
  destruct (parse_Ok_inv _ _ E) as (? & ? & _ & _ & _ & Ht & ?). split; [exact Ht|]. by apply validate_spec.
Qed.

Lemma icreate_makes_free_inodes_witness :
  exists f into', icreate_build 1 3 4 512 4 77 = Ok f /\ apply_icreate wide_inode_sb sample_device ∅ (log_item_of [mkOp 0 f]) = Ok into' /\
    exists image, seen sample_device into' (1050112 + 3 * 512) image /\ verify_free_slot image wide_inode_sb (2048 + 6) = Ok tt.
Proof.
  destruct wide_inode_parsed as [Ht Hg].
  destruct (icreate_build 1 3 4 512 4 77) as [f| |] eqn:Ef; [|vm_compute in Ef; discriminate..].
  destruct (icreate_makes_free_inodes wide_inode_sb sample_device ∅ 1 3 4 4 77 f Ht Hg) as (into' & E & _ & Hs & _);
    [reflexivity|reflexivity|apply map_Forall_empty|vm_compute; split; congruence|unfold in_u; lia..|reflexivity|vm_compute; reflexivity|exact Ef|].
  exists f, into'. split; [reflexivity|]. split; [exact E|]. destruct (Hs 3%nat) as (image & _ & Hi & Hv & _); [vm_compute; lia|].
  exists image. split; [exact Hi|exact Hv].
Defined.
