(* ===== verification/GroupWrite.v ===== *)
(** * A group's free space as one operation edits it ([src/src/group_write.rs])

    A group is read once and then edited in memory by every take and give-back
    of an operation; the diff of each block it changed is logged as a buffer
    item.  The theorems: a diff marks exactly the chunks that differ, and its
    runs over the old block give the new one; a take hands out blocks that
    were free, once, with the alignment asked for, and moves them from free
    space to their owner; a settled take hands out only blocks that were free
    before the operation began; the two free-space trees are accepted exactly
    when they hold the same records. *)

From Stdlib Require Import ZArith Lia Strings.String Strings.Byte Sorted.
From stdpp Require Import base list gmap sorting strings sets.
From S2P Require Import Prelude Error Endian Crc32c Superblock Sample Ag Agfl FreeSpace AgBtree AllocBtree Refcount Rmap Overlay BufWrite LogRecover.

Section blocks.
Context `{Crc : Crc32c}.

Definition restamp_crc (buf : bytes) (crc_off : nat) : res bytes :=
  buf ← copy_at crc_off [x00; x00; x00; x00] buf;
  crc ← crc32c_with_zeroed_crc buf crc_off;
  copy_at crc_off (to_le_bytes 4 crc) buf.
End blocks.

(** Each chunk compared with the block as it was. *)
Fixpoint mark_changed (before : bytes) (item : BufferItem) (chunks : list nat) : res BufferItem :=
  match chunks with
  | [] => Ok item
  | chunk :: chunks =>
      let from := (chunk * BLF_CHUNK)%nat in
      let to := Nat.min (from + BLF_CHUNK) (length before) in
      was ← get_slice from (to - from) before;
      now ← get_slice from (to - from) (data item);
      item ← (if bool_decide (was = now) then Ok item else mark item from (to - from));
      mark_changed before item chunks
  end.

Definition changed_chunks (blkno : Z) (before after : bytes) (buf_type : Z) : res BufferItem :=
  assert (length before =? length after)%nat;;
  item ← BufWrite.new blkno after buf_type 0;
  mark_changed before item (seq 0 (div_ceil (length before) BLF_CHUNK)).

(** [group_write::btree] *)
Definition NUMRECS : nat := 6.
Definition V5_BODY : nat := 56.
Definition RECORD : nat := 8.

Definition leaf_numrecs (buf : bytes) (record_bytes : nat) : res Z :=
  numrecs ← be16 buf NUMRECS;
  let capacity := ((length buf - V5_BODY) / record_bytes)%nat in
  fail_if (Z.of_nat capacity <? numrecs)
    (corrupt "a tree root says it holds {} records, where {} fit in its {}-byte block"
       [AZ numrecs; AZ (Z.of_nat capacity); AZ (Z.of_nat (length buf))]);;
  Ok numrecs.

Definition leaf_records (buf : bytes) (numrecs : Z) : res (list FreeExtent) :=
  let fit := ((length buf - V5_BODY) / RECORD)%nat in
  res_map (fun i => decode_free_extent buf (V5_BODY + i * RECORD)%nat)
    (seq 0 (Nat.min (Z.to_nat numrecs) fit)).

Fixpoint rebuild_loop (out : bytes) (i : nat) (records : list FreeExtent) : res bytes :=
  match records with
  | [] => Ok out
  | r :: records =>
      out ← encode_free_extent out (V5_BODY + i * RECORD)%nat r; rebuild_loop out (S i) records
  end.
Definition rebuild_leaf (original : bytes) (records : list FreeExtent) : res bytes :=
  out ← copy_at NUMRECS (to_be_bytes 2 (wrap 16 (Z.of_nat (length records)))) original;
  rebuild_loop out 0 records.

Definition leaf_capacity (blocksize : Z) : nat := (usize_sub (Z.to_nat blocksize) V5_BODY / RECORD)%nat.

Definition split_fsblock (sb : Superblock) (fsblock : Z) : Z * Z :=
  (wrap 32 (wshr 64 fsblock (sb_agblklog sb)),
   wrap 32 (Z.land fsblock (wsub 64 (wshl 64 1 (sb_agblklog sb)) 1))).

(** Two lists of runs walked together; each turn drops one run. *)
Fixpoint first_common_loop (fuel : nat) (a b : list FreeExtent) (want : Z) : option Z :=
  match fuel, a, b with
  | S fuel, x :: a', y :: b' =>
      let start := Z.max (startblock x) (startblock y) in
      if start + want <=? Z.min (fe_end x) (fe_end y) then Some start
      else if fe_end x <=? fe_end y then first_common_loop fuel a' b want
      else first_common_loop fuel a b' want
  | _, _, _ => None
  end.
Definition first_common_run (a b : list FreeExtent) (want : Z) : option Z :=
  first_common_loop (length a + length b) a b want.

(** The order derived for [FreeExtent]: block, then length. *)
Definition fe_leb (x y : FreeExtent) : bool :=
  (startblock x <? startblock y) || ((startblock x =? startblock y) && (blockcount x <=? blockcount y)).

Definition same_free_space (agno : Z) (by_block by_length : list FreeExtent) : res unit :=
  let by_block := sort_by fe_leb by_block in
  let by_length := sort_by fe_leb by_length in
  if bool_decide (by_block = by_length) then Ok tt
  else
    match find (fun p => negb (bool_decide (p.1 = p.2))) (zip by_block by_length) with
    | None =>
        Err (BadSuperblock (fmt "AG {}: the two free-space trees describe different free space: the by-block tree has {} records and the by-length tree {}"
          [AZ agno; AZ (Z.of_nat (length by_block)); AZ (Z.of_nat (length by_length))]))
    | Some (a, b) =>
        Err (BadSuperblock (fmt "AG {}: the two free-space trees describe different free space: the by-block tree has {} blocks at {} where the by-length tree has {} blocks at {}"
          [AZ agno; AZ (blockcount a); AZ (startblock a); AZ (blockcount b); AZ (startblock b)]))
    end.

(** ** The group *)

Record GroupAlloc := mkGroup {
  ga_agno : Z;
  ga_ag_start : Z;
  ga_agf_raw : bytes;
  ga_before : gmap Z bytes;
  ga_bno_blocks : list Z;
  ga_cnt_blocks : list Z;
  ga_by_block : list FreeExtent;
  ga_settled : list FreeExtent;
  ga_rmap : option (list Rmap * list Z);
  ga_agfl : Agfl;
  ga_agfl_raw : bytes;
  ga_refcount : option (list Refcount * list Z);
  ga_took : bool;
}.

Definition with_by_block (g : GroupAlloc) (l : list FreeExtent) : GroupAlloc :=
  mkGroup (ga_agno g) (ga_ag_start g) (ga_agf_raw g) (ga_before g) (ga_bno_blocks g) (ga_cnt_blocks g)
    l (ga_settled g) (ga_rmap g) (ga_agfl g) (ga_agfl_raw g) (ga_refcount g) (ga_took g).
Definition with_rmap (g : GroupAlloc) (l : list Rmap) (blocks : list Z) : GroupAlloc :=
  mkGroup (ga_agno g) (ga_ag_start g) (ga_agf_raw g) (ga_before g) (ga_bno_blocks g) (ga_cnt_blocks g)
    (ga_by_block g) (ga_settled g) (Some (l, blocks)) (ga_agfl g) (ga_agfl_raw g) (ga_refcount g) (ga_took g).
Definition with_refcount (g : GroupAlloc) (l : list Refcount) (blocks : list Z) : GroupAlloc :=
  mkGroup (ga_agno g) (ga_ag_start g) (ga_agf_raw g) (ga_before g) (ga_bno_blocks g) (ga_cnt_blocks g)
    (ga_by_block g) (ga_settled g) (ga_rmap g) (ga_agfl g) (ga_agfl_raw g) (Some (l, blocks)) (ga_took g).
Definition with_agfl (g : GroupAlloc) (fl : Agfl) : GroupAlloc :=
  mkGroup (ga_agno g) (ga_ag_start g) (ga_agf_raw g) (ga_before g) (ga_bno_blocks g) (ga_cnt_blocks g)
    (ga_by_block g) (ga_settled g) (ga_rmap g) fl (ga_agfl_raw g) (ga_refcount g) (ga_took g).
Definition set_took (g : GroupAlloc) : GroupAlloc :=
  mkGroup (ga_agno g) (ga_ag_start g) (ga_agf_raw g) (ga_before g) (ga_bno_blocks g) (ga_cnt_blocks g)
    (ga_by_block g) (ga_settled g) (ga_rmap g) (ga_agfl g) (ga_agfl_raw g) (ga_refcount g) true.

(** [?] inside a method: the state as it is, the error handed on. *)
Definition return_err {A B} (g : GroupAlloc) (r : res A) : GroupAlloc * res B :=
  (g, match r with Ok _ => Panic | Err e => Err e | Panic => Panic end).

(** [rmap::insert] on the group's records, where it has the tree. *)
Definition rmap_insert (g : GroupAlloc) (rec : Rmap) : GroupAlloc * res unit :=
  match ga_rmap g with
  | None => (g, Ok tt)
  | Some (records, blocks) =>
      let '(records, r) := Rmap.insert records rec in
      (with_rmap g records blocks, r)
  end.

Definition take_at (g : GroupAlloc) (start want owner offset : Z) : GroupAlloc * res Z :=
  let taking := mkFree start want in
  let '(free, r) := alloc_extent (ga_by_block g) taking in
  let g := with_by_block g free in
  match r with
  | Ok _ =>
      match rmap_insert g (mkRmap start want owner offset) with
      | (g, Ok _) => (set_took g, Ok start)
      | (g, r) => return_err g r
      end
  | _ => return_err g r
  end.

Section group.
Context `{Crc : Crc32c} (sb : Superblock) {D : Type} {dev : BlockDevice D} (d : D).

Fixpoint volume_free_loop (agnos : list Z) (free : Z) : res Z :=
  match agnos with
  | [] => Ok free
  | agno :: agnos =>
      let ag_start := wmul 64 (wmul 64 agno (sb_agblocks sb)) (sb_blocksize sb) in
      match dev_read d (wadd 64 ag_start (sb_sectsize sb)) (replicate (Z.to_nat (sb_sectsize sb)) x00) with
      | (raw, Ok _) =>
          a ← Agf_parse raw sb agno;
          volume_free_loop agnos (wadd 64 free (agf_freeblks a))
      | (_, Err e) => Err e
      | (_, Panic) => Panic
      end
  end.
Definition volume_free_blocks : res Z := volume_free_loop (seqZ 0 (sb_agcount sb)) 0.

(** The aligned start in a run, if [want] blocks fit after it. *)
Definition aligned_fit (align want : Z) (run : FreeExtent) : option Z :=
  let start := (startblock run + align - 1) / align * align in
  if start + want <=? fe_end run then Some (wrap 32 start) else None.

(** [Iterator::find_map] *)
Fixpoint find_map {A B} (f : A -> option B) (l : list A) : option B :=
  match l with
  | [] => None
  | x :: l => match f x with Some y => Some y | None => find_map f l end
  end.

Definition take_aligned (g : GroupAlloc) (want align owner offset : Z) : GroupAlloc * res Z :=
  let align := Z.max align 1 in
  match find_map (aligned_fit align want) (ga_by_block g) with
  | None =>
      match volume_free_blocks with
      | Ok free =>
          if free <? want then
            (g, Err (NoSpace (fmt "{} blocks are wanted in allocation group {}, and the whole volume has {} free"
               [AZ want; AZ (ga_agno g); AZ free])))
          else
            (g, Err (unsupported "allocation group {} has no single free run of {} blocks starting on a multiple of {} — its longest run is {}, and splitting across extents is not implemented"
               [AZ (ga_agno g); AZ want; AZ align; AZ (longest (ga_by_block g))]))
      | r => return_err g r
      end
  | Some start => take_at g start want owner offset
  end.

Definition take (g : GroupAlloc) (want owner offset : Z) : GroupAlloc * res Z :=
  take_aligned g want 1 owner offset.

Definition take_up_to (g : GroupAlloc) (want owner offset : Z) : GroupAlloc * res (option (Z * Z)) :=
  let fits := existsb (fun run => want <=? blockcount run) (ga_by_block g) in
  let got := if fits then want else Z.min (longest (ga_by_block g)) want in
  if got =? 0 then (g, Ok None)
  else
    match take g got owner offset with
    | (g, Ok start) => (g, Ok (Some (start, got)))
    | (g, r) => return_err g r
    end.

Definition take_settled (g : GroupAlloc) (want owner offset : Z) : GroupAlloc * res Z :=
  match first_common_run (ga_settled g) (ga_by_block g) want with
  | None =>
      (g, Err (unsupported "allocation group {} has no single free run of {} blocks that was free before this record began — its longest run is {}, and blocks the record gave back are not reused before it commits"
         [AZ (ga_agno g); AZ want; AZ (longest (ga_by_block g))]))
  | Some start => take_at g start want owner offset
  end.

Definition give_back (g : GroupAlloc) (extent : FreeExtent) : GroupAlloc * res Freed :=
  let '(free, r) := free_extent (ga_by_block g) extent in
  let g := with_by_block g free in
  match r with
  | Ok freed => (set_took g, Ok freed)
  | _ => return_err g r
  end.

Definition forget_rmap (g : GroupAlloc) (record : Rmap) : GroupAlloc * res unit :=
  match ga_rmap g with
  | None => (g, Ok tt)
  | Some (records, blocks) =>
      match Rmap.remove records record with
      | (records, Ok _) => (set_took (with_rmap g records blocks), Ok tt)
      | (records, r) => (with_rmap g records blocks, r)
      end
  end.

Definition remember_rmap (g : GroupAlloc) (record : Rmap) : GroupAlloc * res unit :=
  match ga_rmap g with
  | None => (g, Ok tt)
  | Some (records, blocks) =>
      match Rmap.insert records record with
      | (records, Ok _) => (set_took (with_rmap g records blocks), Ok tt)
      | (records, r) => (with_rmap g records blocks, r)
      end
  end.

Definition remember_moved_rmap (g : GroupAlloc) (record : Rmap) : GroupAlloc * res unit :=
  match ga_refcount g with
  | None => remember_rmap g record
  | Some _ =>
      match ga_rmap g with
      | None => (g, Ok tt)
      | Some (records, blocks) =>
          match Rmap.insert_shared records record with
          | (records, Ok _) => (set_took (with_rmap g records blocks), Ok tt)
          | (records, r) => (with_rmap g records blocks, r)
          end
      end
  end.

Definition release_shared (g : GroupAlloc) (start count : Z) : GroupAlloc * res (list FreeExtent) :=
  match ga_refcount g with
  | None => (g, Ok [mkFree start count])
  | Some (records, blocks) =>
      match Refcount.release records start count with
      | (after, Ok ranges) =>
          let g := with_refcount g after blocks in
          (if bool_decide (after = records) then g else set_took g, Ok ranges)
      | (after, r) => return_err (with_refcount g after blocks) r
      end
  end.

(** How many blocks the free list should hold. *)
Definition free_list_need (g : GroupAlloc) : res Z :=
  bno ← be32 (ga_agf_raw g) (agf.LEVELS + 4 * agf_btree.BNO);
  cnt ← be32 (ga_agf_raw g) (agf.LEVELS + 4 * agf_btree.CNT);
  let need := wadd 32 (wmul 32 2 bno) (wmul 32 2 cnt) in
  need ← (match ga_rmap g with
          | None => Ok need
          | Some _ =>
              r ← be32 (ga_agf_raw g) (agf.LEVELS + 4 * agf_btree.RMAP);
              Ok (wadd 32 need (wmul 32 2 r))
          end);
  Ok (Z.min need (wrap 32 (Z.of_nat (Agfl.capacity sb)))).

(** Each turn of the loop puts one block on the list, so the count that is
    missing is fuel enough. *)
Fixpoint refill_loop (fuel : nat) (g : GroupAlloc) (need : Z) : GroupAlloc * res unit :=
  if need <=? fl_count (ga_agfl g) then (g, Ok tt)
  else
    match fuel with
    | O => (g, Ok tt)
    | S fuel =>
        match ga_by_block g with
        | [] =>
            (g, Err (unsupported "allocation group {} has no free space left to refill its free list"
               [AZ (ga_agno g)]))
        | run :: _ =>
            let block := mkFree (startblock run) 1 in
            let '(free, r) := alloc_extent (ga_by_block g) block in
            let g := with_by_block g free in
            match r with
            | Ok _ =>
                let '(fl, r) := Agfl.put (ga_agfl g) sb (ga_agno g) (startblock block) in
                let g := with_agfl g fl in
                match r with
                | Ok _ =>
                    match rmap_insert g (mkRmap (startblock block) 1 OWN_AG 0) with
                    | (g, Ok _) => refill_loop fuel g need
                    | (g, r) => (g, r)
                    end
                | _ => return_err g r
                end
            | _ => return_err g r
            end
        end
    end.

Definition refill_free_list (g : GroupAlloc) : GroupAlloc * res unit :=
  match free_list_need g with
  | Ok need => refill_loop (Z.to_nat (need - fl_count (ga_agfl g))) g need
  | r => return_err g r
  end.
End group.

(** ** Diffs *)

Lemma touches_chunk (n c c' : nat) :
  (c * BLF_CHUNK < n)%nat ->
  touches (c * BLF_CHUNK) (Nat.min (c * BLF_CHUNK + BLF_CHUNK) n - c * BLF_CHUNK) c' <-> c' = c.
Proof.
  intros Hn. unfold touches, BLF_CHUNK in *. split.
  - intros (i & Hi & ->). symmetry. apply (Nat.div_unique i 128 c (i - c * 128)); lia.
  - intros ->. exists (c * 128)%nat. split; [lia|]. by rewrite Nat.div_mul.
Qed.

Lemma mark_changed_spec before chunks : forall item,
  item_ok item -> length before = length (data item) ->
  Forall (fun c => (c * BLF_CHUNK < length before)%nat) chunks ->
  exists item', mark_changed before item chunks = Ok item' /\ item_ok item' /\ data item' = data item /\
    blkno item' = blkno item /\ buf_type item' = buf_type item /\ BufWrite.flags item' = BufWrite.flags item /\
    forall c, dirty_bit (dirty item') c = true <->
      dirty_bit (dirty item) c = true \/
      (c ∈ chunks /\ slice (c * BLF_CHUNK) BLF_CHUNK before <> slice (c * BLF_CHUNK) BLF_CHUNK (data item)).
Proof.
  induction chunks as [|c chunks IH]; intros item Hok Hl Hc; cbn [mark_changed].
  { exists item. split_and!; try done. set_solver. }
  rewrite Forall_cons in Hc. destruct Hc as [Hc Hcs].
  set (from := (c * BLF_CHUNK)%nat) in *. set (n := (Nat.min (from + BLF_CHUNK) (length before) - from)%nat).
  rewrite !get_slice_Ok by lia. cbn [mbind res_bind].
  assert (Hsl : forall l : bytes, length l = length before -> slice from n l = slice from BLF_CHUNK l).
  { intros l Hll. unfold slice, n. destruct (decide (from + BLF_CHUNK <= length before)%nat).
    - f_equal. lia.
    - rewrite !take_ge; [done|rewrite length_drop; lia..]. }
  rewrite !Hsl by done.
  destruct (bool_decide_reflect (slice from BLF_CHUNK before = slice from BLF_CHUNK (data item))) as [E|E].
  - cbn [mbind res_bind]. destruct (IH item Hok Hl Hcs) as (i' & -> & ? & ? & ? & ? & ? & X).
    exists i'. split_and!; try done. intros c'. rewrite X, elem_of_cons. split; [tauto|].
    intros [?|[[->|?] Hne]]; [by left|done|by right].
  - destruct (mark_spec item from n Hok) as (i1 & -> & Hok1 & D1 & B1 & T1 & F1 & X1); [lia|].
    cbn [mbind res_bind].
    destruct (IH i1 Hok1) as (i' & -> & Hok' & D' & B' & T' & F' & X'); [by rewrite D1|done|].
    exists i'. split_and!; try done; try congruence. intros c'. rewrite X', X1, D1, elem_of_cons.
    unfold n, from. rewrite touches_chunk by done. split.
    + intros [[?| ->]|?]; [by left|right; split; [by left|done]|right; tauto].
    + intros [?|[[->|?] ?]]; [by left; left|by left; right|right; tauto].
Qed.

Lemma changed_chunks_spec blk before after ty :
  length before = length after -> (length after mod Overlay.BBSIZE = 0)%nat -> (0 < length after)%nat ->
  exists item rs, changed_chunks blk before after ty = Ok item /\ data item = after /\ blkno item = blk /\
    (forall c, (c < chunk_count (length after))%nat ->
       dirty_bit (dirty item) c = true <->
       slice (c * BLF_CHUNK) BLF_CHUNK before <> slice (c * BLF_CHUNK) BLF_CHUNK after) /\
    BufWrite.runs item = Ok rs /\
    apply_runs rs (run_bytes after <$> rs) before = Ok after.
Proof.
  intros Hl Hm Hp. unfold changed_chunks. rewrite (proj2 (Nat.eqb_eq _ _)) by done.
  cbn [assert mbind res_bind].
  destruct (new_spec blk after ty 0 Hm Hp) as (i0 & -> & Hok & D & B & _ & _ & X). cbn [mbind res_bind].
  pose proof (div_ceil_bounds (length before) BLF_CHUNK ltac:(unfold BLF_CHUNK; lia)) as Hdc.
  destruct (mark_changed_spec before (seq 0 (div_ceil (length before) BLF_CHUNK)) i0 Hok)
    as (item & -> & Hok' & D' & B' & _ & _ & X'); [congruence| |].
  { apply Forall_forall. intros c Hc%elem_of_seq. nia. }
  rewrite D in D', X'. destruct (runs_spec item Hok') as (rs & Ers & Hrs). exists item, rs.
  assert (Hdirty : forall c, (c < chunk_count (length after))%nat ->
       dirty_bit (dirty item) c = true <->
       slice (c * BLF_CHUNK) BLF_CHUNK before <> slice (c * BLF_CHUNK) BLF_CHUNK after).
  { intros c Hc. rewrite X', X, elem_of_seq. unfold chunk_count in Hc. rewrite Hl. naive_solver lia. }
  split; [done|]. split; [done|]. split; [congruence|]. split; [done|]. split; [done|]. rewrite <- D' at 1 2.
  rewrite (apply_runs_item item before rs Hok'); [by rewrite D'|by rewrite D'| |done].
  rewrite D'. intros i Hi. apply Hdirty.
  - unfold chunk_count. rewrite <- Hl. assert (i < length before)%nat.
    { destruct (decide (i < length before)%nat); [done|]. exfalso. apply Hi.
      rewrite !lookup_ge_None_2 by lia. done. }
    apply Nat.Div0.div_lt_upper_bound. lia.
  - intros Heq. apply Hi. pose proof (Nat.div_mod_eq i BLF_CHUNK) as Hdm.
    pose proof (Nat.mod_upper_bound i BLF_CHUNK ltac:(done)) as Hmu.
    assert (Hk : forall l : bytes, slice (i / BLF_CHUNK * BLF_CHUNK) BLF_CHUNK l !! (i mod BLF_CHUNK)%nat = l !! i).
    { intros l. rewrite lookup_slice, decide_True by done. f_equal. lia. }
    by rewrite <- (Hk after), <- (Hk before), Heq.
Qed.

(** A diff of a block: the item holds the new bytes, marks exactly the chunks
    in which they differ from the old ones, and the runs it logs, laid over
    the old block, give the new one. *)
Theorem changed_chunks_exact blk before after ty :
  length before = length after -> (length after mod Overlay.BBSIZE = 0)%nat -> (0 < length after)%nat ->
  exists item rs, changed_chunks blk before after ty = Ok item /\ data item = after /\
    (forall c, (c < chunk_count (length after))%nat ->
       dirty_bit (dirty item) c = true <->
       slice (c * BLF_CHUNK) BLF_CHUNK before <> slice (c * BLF_CHUNK) BLF_CHUNK after) /\
    BufWrite.runs item = Ok rs /\
    apply_runs rs (run_bytes after <$> rs) before = Ok after.
Proof.
  intros. destruct (changed_chunks_spec blk before after ty) as (item & rs & ? & ? & _ & ? & ? & ?); try done.
  by exists item, rs.
Qed.

(** ** The two free-space trees *)

Lemma fe_leb_total x y : fe_leb x y = false -> fe_leb y x = true.
Proof.
  unfold fe_leb. rewrite orb_false_iff, andb_false_iff, orb_true_iff, andb_true_iff.
  rewrite !Z.ltb_lt, !Z.ltb_ge, !Z.leb_le, !Z.leb_gt, !Z.eqb_eq, !Z.eqb_neq. lia.
Qed.
#[local] Instance fe_le_trans : Transitive (fun x y => fe_leb x y = true).
Proof.
  intros x y z. unfold fe_leb. rewrite !orb_true_iff, !andb_true_iff, !Z.ltb_lt, !Z.leb_le, !Z.eqb_eq. lia.
Qed.
#[local] Instance fe_le_antisym : AntiSymm eq (fun x y => fe_leb x y = true).
Proof.
  intros [a b] [a' b']. unfold fe_leb. cbn [startblock blockcount].
  rewrite !orb_true_iff, !andb_true_iff, !Z.ltb_lt, !Z.leb_le, !Z.eqb_eq. intros ? ?. f_equal; lia.
Qed.

Lemma same_free_space_spec agno by_block by_length :
  match same_free_space agno by_block by_length with
  | Ok _ => by_block ≡ₚ by_length
  | Err e => ~ by_block ≡ₚ by_length /\ exists m, e = BadSuperblock m
  | Panic => False
  end.
Proof.
  unfold same_free_space.
  destruct (bool_decide_reflect (sort_by fe_leb by_block = sort_by fe_leb by_length)) as [E|E].
  - by rewrite <- (sort_by_Permutation fe_leb by_block), E, sort_by_Permutation.
  - assert (~ by_block ≡ₚ by_length).
    { intros Hp. apply E. apply (Sorted_unique (fun x y => fe_leb x y = true));
        [apply sort_by_Sorted, fe_leb_total..|]. by rewrite !sort_by_Permutation. }
    destruct (find _ _) as [[a b]|]; by eauto.
Qed.

(** The group is accepted exactly when its two free-space trees hold the same
    records, whatever order each gives them in. *)
Theorem same_free_space_exact agno by_block by_length :
  match same_free_space agno by_block by_length with
  | Ok _ => by_block ≡ₚ by_length
  | Err e => ~ by_block ≡ₚ by_length /\ exists m, e = BadSuperblock m
  | Panic => False
  end.
Proof. apply same_free_space_spec. Qed.

(** ** Runs free in two lists *)

(** [want] blocks from [s] lie in one run of each list. *)
Definition common (a b : list FreeExtent) (want s : Z) : Prop :=
  (exists x, x ∈ a /\ FreeSpace.covers x (mkFree s want)) /\
  (exists y, y ∈ b /\ FreeSpace.covers y (mkFree s want)).

Lemma first_common_loop_spec lo hi want : 0 < want -> forall fuel a b,
  (length a + length b <= fuel)%nat ->
  FreeSpace.runs 0 lo hi a -> FreeSpace.runs 0 lo hi b ->
  match first_common_loop fuel a b want with
  | Some s => common a b want s /\ forall s', common a b want s' -> s <= s'
  | None => forall s', ~ common a b want s'
  end.
Proof.
  intros Hw. assert (Hcov : forall e s, FreeSpace.covers e (mkFree s want) <-> startblock e <= s /\ s + want <= fe_end e)
    by done.
  assert (Hge : forall (x : FreeExtent) l e lo', FreeSpace.runs 0 lo' hi (x :: l) -> e ∈ l -> fe_end x <= startblock e).
  { intros x l e lo' (_ & _ & Hr) He. cbn [FreeSpace.runs] in Hr.
    apply (runs_elem 0 ltac:(lia) _ _ _ _ Hr) in He. lia. }
  induction fuel as [|fuel IH]; intros a b Hf Ha Hb.
  { destruct a; [|cbn in Hf; lia]. cbn. intros s' [(x & Hx & _) _]. by apply elem_of_nil in Hx. }
  destruct a as [|x a]; [cbn; intros s' [(? & Hx & _) _]; by apply elem_of_nil in Hx|].
  destruct b as [|y b]; [cbn; intros s' [_ (? & Hx & _)]; by apply elem_of_nil in Hx|].
  pose proof (fun e => Hge x a e _ Ha) as Hxa. pose proof (fun e => Hge y b e _ Hb) as Hyb.
  cbn [first_common_loop]. cbn [length] in Hf.
  assert (Hx0 : 0 < blockcount x) by apply Ha. assert (Hy0 : 0 < blockcount y) by apply Hb.
  destruct (Z.leb_spec (Z.max (startblock x) (startblock y) + want) (Z.min (fe_end x) (fe_end y))) as [Hfit|Hno].
  - split.
    + split; [exists x|exists y]; (split; [set_solver|]); apply Hcov; lia.
    + intros s' [(x' & Hx' & Cx) (y' & Hy' & Cy)]. rewrite Hcov in Cx, Cy. unfold fe_end in *.
      apply elem_of_cons in Hx', Hy'. destruct Hx' as [->|Hx'], Hy' as [->|Hy'];
        try apply Hxa in Hx'; try apply Hyb in Hy'; lia.
  - destruct (Z.leb_spec (fe_end x) (fe_end y)) as [Hxy|Hxy].
    + assert (Hdrop : forall s', common (x :: a) (y :: b) want s' <-> common a (y :: b) want s').
      { intros s'. split; intros [(x' & Hx' & Cx) (y' & Hy' & Cy)].
        2: { split; [exists x'; set_solver|by exists y']. }
        apply elem_of_cons in Hx' as [->|Hx']; [|by split; [exists x'|exists y']].
        exfalso. rewrite Hcov in Cx, Cy. apply elem_of_cons in Hy' as [->|Hy']; [unfold fe_end in *; lia|].
        apply Hyb in Hy'. unfold fe_end in *. lia. }
      specialize (IH a (y :: b) ltac:(cbn [length]; lia)).
      assert (Ha' : FreeSpace.runs 0 lo hi a)
        by (destruct Ha as (? & ? & Ha); eapply runs_lo; [|exact Ha]; unfold fe_end; lia).
      specialize (IH Ha' Hb). destruct (first_common_loop fuel a (y :: b) want) as [s|].
      * rewrite Hdrop. destruct IH as [? Hmin]. split; [done|]. intros s'. rewrite Hdrop. apply Hmin.
      * intros s'. rewrite Hdrop. apply IH.
    + assert (Hdrop : forall s', common (x :: a) (y :: b) want s' <-> common (x :: a) b want s').
      { intros s'. split; intros [(x' & Hx' & Cx) (y' & Hy' & Cy)].
        2: { split; [by exists x'|exists y'; set_solver]. }
        apply elem_of_cons in Hy' as [->|Hy']; [|by split; [exists x'|exists y']].
        exfalso. rewrite Hcov in Cx, Cy. apply elem_of_cons in Hx' as [->|Hx']; [unfold fe_end in *; lia|].
        apply Hxa in Hx'. unfold fe_end in *. lia. }
      specialize (IH (x :: a) b ltac:(cbn [length]; lia) Ha).
      assert (Hb' : FreeSpace.runs 0 lo hi b)
        by (destruct Hb as (? & ? & Hb); eapply runs_lo; [|exact Hb]; unfold fe_end; lia).
      specialize (IH Hb'). destruct (first_common_loop fuel (x :: a) b want) as [s|].
      * rewrite Hdrop. destruct IH as [? Hmin]. split; [done|]. intros s'. rewrite Hdrop. apply Hmin.
      * intros s'. rewrite Hdrop. apply IH.
Qed.

(** ** Taking and giving back *)

Definition in_run (start want b : Z) : Prop := start <= b < start + want.

(** What a group under edit keeps: its free runs in order inside the group,
    its ownership records in order, and no block both free and owned. *)
Record group_ok (gap lo hi : Z) (g : GroupAlloc) : Prop := {
  go_free : FreeSpace.runs gap lo hi (ga_by_block g);
  go_rmap records blocks : ga_rmap g = Some (records, blocks) ->
    Forall m_typed records /\ m_runs 0 hi records /\
    forall b, is_free (ga_by_block g) b -> ~ owned records b;
}.

(** An ownership a record can state, wherever the blocks are. *)
Definition mapping_ok (want owner offset : Z) : Prop := m_typed (mkRmap 0 want owner offset).

Lemma mapping_typed start want owner offset :
  mapping_ok want owner offset -> in_u 32 start -> m_typed (mkRmap start want owner offset).
Proof. intros [_ Hc Ho Hf Hs] Hst. by split. Qed.

(** The blocks from [start] moved from free space to [owner], and nothing else
    about free space and ownership changed. *)
Record moved (g g' : GroupAlloc) (start want owner offset : Z) : Prop := {
  mv_free b : is_free (ga_by_block g') b <-> is_free (ga_by_block g) b /\ ~ in_run start want b;
  mv_settled : ga_settled g' = ga_settled g;
  mv_took : ga_took g' = true;
  mv_owned : match ga_rmap g, ga_rmap g' with
    | None, None => True
    | Some (r, bl), Some (r', bl') =>
        bl' = bl /\ forall b o fl fo, maps r' b o fl fo <->
          maps r b o fl fo \/ maps [mkRmap start want owner offset] b o fl fo
    | _, _ => False
    end;
}.

Lemma owned_maps l b : owned l b <-> exists o fl fo, maps l b o fl fo.
Proof.
  split.
  - intros (r & Hr & Hc). exists (m_owner r), (Rmap.flags r), (file_offset r + (b - m_start r)), r.
    split_and!; try done. by right.
  - intros (o & fl & fo & r & Hr & Hc & _). by exists r.
Qed.

Section taking.
Context (gap lo hi : Z) (Hgap : 0 <= gap <= 1) (Hlo : 0 <= lo) (Hhi : hi < 2 ^ 32).

Lemma alloc_free_iff l x :
  FreeSpace.runs gap lo hi l -> 0 < blockcount x -> (exists e, e ∈ l /\ FreeSpace.covers e x) ->
  exists l' k, alloc_extent l x = (l', Ok k) /\ FreeSpace.runs gap lo hi l' /\
    forall b, is_free l' b <-> is_free l b /\ ~ in_extent x b.
Proof.
  intros H Hx (e0 & He0 & Hc0).
  destruct (alloc_extent_cases gap lo hi Hgap Hlo Hhi l x H Hx)
    as [(m & _ & Hno)|(l' & k & E & Hj & Hr & _ & Hdis)]; [by exfalso; eapply Hno|].
  exists l', k. split; [done|]. split; [done|]. intros b. rewrite (joins_is_free x l' l _ b Hj).
  - split; [|naive_solver]. intros Hf. split; [by left|]. intros Hb. by apply (Hdis b).
  - intros e. apply (runs_counts gap lo hi); [lia|done].
  - done.
Qed.

(** The ownership of blocks just taken out of free space goes in. *)
Lemma rmap_insert_spec g free start want owner offset :
  group_ok gap lo hi g -> 0 < want -> mapping_ok want owner offset ->
  lo <= start -> start + want <= hi ->
  (forall b, in_run start want b -> is_free (ga_by_block g) b) ->
  FreeSpace.runs gap lo hi free ->
  (forall b, is_free free b <-> is_free (ga_by_block g) b /\ ~ in_run start want b) ->
  exists g', rmap_insert (with_by_block g free) (mkRmap start want owner offset) = (g', Ok tt) /\
    group_ok gap lo hi (set_took g') /\ moved g (set_took g') start want owner offset /\
    ga_agfl g' = ga_agfl g /\ ga_agno g' = ga_agno g /\ ga_by_block g' = free.
Proof.
  intros [Hf Hr] Hw Hm Hst Hen Hin Hl' Hfree. unfold rmap_insert. cbn [ga_rmap with_by_block].
  destruct (ga_rmap g) as [[records blocks]|] eqn:Er.
  2: { eexists. split; [done|]. split; [|split; [|done]].
       - split; [done|]. cbn [ga_rmap set_took with_by_block]. intros ? ? E'. congruence.
       - split; try done. cbn [ga_rmap set_took with_by_block]. by rewrite Er. }
  destruct (Hr _ _ eq_refl) as (Ht & Hruns & Hown). set (rec := mkRmap start want owner offset).
  assert (Hcov : forall b, m_covers rec b <-> in_run start want b) by done.
  destruct (insert_spec 0 hi records rec) as (r' & -> & Ht' & Hr' & Hmaps); try done.
  { apply mapping_typed; [done|]. unfold in_u. lia. }
  { cbn. lia. }
  { intros b Hb. apply Hown, Hin. by apply Hcov. }
  eexists. split; [done|]. split; [|split; [|done]].
  - split; [done|]. cbn [ga_rmap set_took with_rmap ga_by_block with_by_block]. intros ? ? [= <- <-].
    split_and!; [done..|]. intros b [Hb Hnr]%Hfree [o [fl [fo [H|H]%Hmaps]]]%owned_maps.
    + apply (Hown b Hb). apply owned_maps. by eauto.
    + destruct H as (? & ->%list_elem_of_singleton & Hc & _). by apply Hnr, Hcov.
  - split; try done. cbn [ga_rmap set_took with_rmap]. by rewrite Er.
Qed.

(** Every block of a run inside one free run is free. *)
Lemma covered_free l e start want b :
  e ∈ l -> FreeSpace.covers e (mkFree start want) -> in_run start want b -> is_free l b.
Proof.
  intros He [Hc1 Hc2] [? ?]. exists e. unfold in_extent, fe_end in *. cbn in *. split; [done|lia].
Qed.

Lemma take_at_spec g start want owner offset :
  group_ok gap lo hi g -> 0 < want -> mapping_ok want owner offset ->
  (exists e, e ∈ ga_by_block g /\ FreeSpace.covers e (mkFree start want)) ->
  exists g', take_at g start want owner offset = (g', Ok start) /\
    group_ok gap lo hi g' /\ moved g g' start want owner offset /\ ga_agno g' = ga_agno g.
Proof.
  intros Hg Hw Hm Hc. pose proof Hg as [Hf _]. pose proof Hc as (e & He & Hce).
  destruct (alloc_free_iff _ (mkFree start want) Hf Hw Hc) as (l' & k & E & Hl' & Hfree).
  pose proof (runs_elem gap ltac:(lia) _ _ _ _ Hf He) as (? & ? & ?).
  pose proof (fun b => covered_free _ _ start want b He Hce) as Hin.
  destruct Hce as [Hc1 Hc2]. unfold fe_end in Hc2. cbn [startblock blockcount] in *.
  unfold take_at. rewrite E.
  destruct (rmap_insert_spec g l' start want owner offset) as (g' & -> & Hok & Hmv & _ & ? & _); try done.
  - unfold fe_end in *. lia.
  - unfold fe_end in *. lia.
  - by eexists.
Qed.
End taking.

(** [want] free blocks in one run from [s]. *)
Definition fits (l : list FreeExtent) (want s : Z) : Prop :=
  exists e, e ∈ l /\ FreeSpace.covers e (mkFree s want).

Lemma find_map_spec {A B} (f : A -> option B) l :
  match find_map f l with
  | Some y => exists l1 x l2, l = l1 ++ x :: l2 /\ f x = Some y /\ Forall (fun a => f a = None) l1
  | None => Forall (fun a => f a = None) l
  end.
Proof.
  induction l as [|x l IH]; cbn; [done|]. destruct (f x) eqn:E; [by exists [], x, l|].
  destruct (find_map f l); [|by constructor].
  destruct IH as (l1 & x' & l2 & -> & ? & ?). exists (x :: l1), x', l2. by split_and!; [| |constructor].
Qed.

(** Rounding up to a multiple of [k]: the least one that is not below. *)
Lemma round_up a k : 0 < k ->
  a <= (a + k - 1) / k * k /\ (a + k - 1) / k * k mod k = 0 /\
  forall m, a <= m -> m mod k = 0 -> (a + k - 1) / k * k <= m.
Proof.
  intros Hk. pose proof (Z.div_mod (a + k - 1) k ltac:(lia)).
  pose proof (Z.mod_pos_bound (a + k - 1) k Hk). split; [lia|]. split; [by apply Z.mod_mul; lia|].
  intros m Hm Hmk. apply Z.div_exact in Hmk; [|lia].
  generalize dependent (m / k). intros q ->.
  assert ((a + k - 1) / k <= q).
  2: { rewrite (Z.mul_comm k). apply Z.mul_le_mono_nonneg_r; lia. }
  apply Z.lt_succ_r, Z.div_lt_upper_bound; [lia|]. rewrite Z.mul_succ_r. lia.
Qed.

Section first_fit.
Context (gap lo hi : Z) (Hgap : 0 <= gap <= 1) (Hlo : 0 <= lo) (Hhi : hi < 2 ^ 32).

Lemma aligned_fit_spec align want e :
  0 < align -> 0 < want -> 0 <= startblock e -> fe_end e <= hi ->
  match aligned_fit align want e with
  | Some s => FreeSpace.covers e (mkFree s want) /\ s mod align = 0 /\
      forall s', s' mod align = 0 -> FreeSpace.covers e (mkFree s' want) -> s <= s'
  | None => forall s', s' mod align = 0 -> ~ FreeSpace.covers e (mkFree s' want)
  end.
Proof.
  intros Ha Hw H0 He. unfold aligned_fit.
  destruct (round_up (startblock e) align Ha) as (Hge & Hm & Hleast).
  set (s := (startblock e + align - 1) / align * align) in *.
  assert (Hcov : forall s, FreeSpace.covers e (mkFree s want) <-> startblock e <= s /\ s + want <= fe_end e)
    by done.
  destruct (Z.leb_spec (s + want) (fe_end e)).
  - rewrite wrap_small by (unfold in_u; lia). rewrite Hcov. split_and!; [lia..|done|].
    intros s' Hs'. rewrite Hcov. intros [? ?]. by apply Hleast.
  - intros s' Hs'. rewrite Hcov. intros [? ?]. pose proof (Hleast s' ltac:(lia) Hs'). lia.
Qed.

(** The first run with room gives the lowest aligned start there is. *)
Lemma first_aligned l align want :
  FreeSpace.runs gap lo hi l -> 0 < align -> 0 < want ->
  match find_map (aligned_fit align want) l with
  | Some s => fits l want s /\ s mod align = 0 /\ forall s', s' mod align = 0 -> fits l want s' -> s <= s'
  | None => forall s', s' mod align = 0 -> ~ fits l want s'
  end.
Proof.
  intros H Ha Hw.
  assert (Hfit : forall e, e ∈ l -> 0 <= startblock e /\ fe_end e <= hi)
    by (intros e (? & ? & ?)%(runs_elem gap ltac:(lia) _ _ _ _ H); lia).
  assert (Hnone : forall e s', e ∈ l -> aligned_fit align want e = None -> s' mod align = 0 ->
    ~ FreeSpace.covers e (mkFree s' want)).
  { intros e s' He E Hs. pose proof (aligned_fit_spec align want e Ha Hw) as X. rewrite E in X. naive_solver. }
  pose proof (find_map_spec (aligned_fit align want) l) as F.
  destruct (find_map _ l) as [s|].
  - destruct F as (l1 & x & l2 & -> & Ex & Hl1). destruct (Hfit x ltac:(set_solver)).
    pose proof (aligned_fit_spec align want x Ha Hw) as X. rewrite Ex in X.
    destruct X as (Hc & Hm & Hmin); [done..|]. split; [by exists x; set_solver|]. split; [done|].
    intros s' Hs' (e & He & Hce). apply elem_of_app in He as [He|[->|He]%elem_of_cons]; [|by apply Hmin|].
    + exfalso. rewrite Forall_forall in Hl1. eapply (Hnone e s'); [set_solver|by apply Hl1|done..].
    + apply runs_app in H as (m & _ & H). destruct H as (_ & _ & H).
      apply (runs_elem gap ltac:(lia) _ _ _ _ H) in He as (? & _).
      destruct Hc, Hce. unfold fe_end in *. cbn in *. lia.
  - intros s' Hs' (e & He & Hce). rewrite Forall_forall in F. eapply Hnone; by eauto.
Qed.

(** The longest run is a run, and none is longer. *)
Lemma longest_spec l : FreeSpace.runs gap lo hi l ->
  (l = [] /\ longest l = 0) \/
  (exists e, e ∈ l /\ blockcount e = longest l) /\ 0 < longest l /\ Forall (fun e => blockcount e <= longest l) l.
Proof.
  clear Hlo Hhi Hgap. unfold longest. intros H.
  assert (Hmax : l <> [] -> (exists e, e ∈ l /\ blockcount e = foldr Z.max 0 (blockcount <$> l)) /\
    Forall (fun e => 0 < blockcount e <= foldr Z.max 0 (blockcount <$> l)) l).
  { revert lo H. induction l as [|x l IH]; intros lo' H Hne; [done|]. cbn.
    destruct H as (_ & Hx & H). destruct (decide (l = [])) as [->|Hl].
    - split; [exists x; split; [set_solver|cbn; lia]|]. constructor; [cbn; lia|done].
    - destruct (IH _ H Hl) as [(e & He & Ee) Hall]. split.
      + destruct (decide (foldr Z.max 0 (blockcount <$> l) <= blockcount x)).
        * exists x. split; [set_solver|lia].
        * exists e. split; [set_solver|lia].
      + constructor; [lia|]. eapply Forall_impl; [exact Hall|]. cbn. lia. }
  destruct (decide (l = [])) as [->|Hl]; [by left|]. right.
  destruct (Hmax Hl) as [(e & He & Ee) Hall]. pose proof (proj1 (Forall_forall _ _) Hall e He) as He'.
  cbn in He'. split_and!; [by exists e|lia|]. eapply Forall_impl; [exact Hall|]. cbn. lia.
Qed.
End first_fit.

Section group_theorems.
Context `{Crc : Crc32c} (sb : Superblock) {D : Type} {dev : BlockDevice D} {laws : BlockDeviceLaws D}.
Context (d : D) (gap lo hi : Z) (Hgap : 0 <= gap <= 1) (Hlo : 0 <= lo) (Hhi : hi < 2 ^ 32).
Context (Hty : sb_typed sb) (Hgeo : sb_geometry sb).

Lemma volume_free_total agnos : forall free, volume_free_loop sb d agnos free <> Panic.
Proof.
  induction agnos as [|agno agnos IH]; intros free; cbn; [done|].
  set (off := wadd 64 _ _). set (buf := replicate _ _).
  pose proof (dev_read_length d off buf) as Hl. pose proof (dev_read_total d off buf) as Ht.
  destruct (dev_read d off buf) as [raw [[]|e|]]; cbn in *; try done.
  destruct (Agf_parse_spec sb Hgeo raw agno) as [Hnp _]; [by rewrite Hl; unfold buf; rewrite length_replicate|].
  destruct (Agf_parse raw sb agno); try done. apply IH.
Qed.

Lemma take_aligned_spec g want align owner offset :
  group_ok gap lo hi g -> 0 < want -> mapping_ok want owner offset ->
  match take_aligned sb d g want align owner offset with
  | (g', Ok s) =>
      fits (ga_by_block g) want s /\ s mod Z.max align 1 = 0 /\
      (forall s', s' mod Z.max align 1 = 0 -> fits (ga_by_block g) want s' -> s <= s') /\
      group_ok gap lo hi g' /\ moved g g' s want owner offset
  | (g', Err _) => g' = g /\ forall s', s' mod Z.max align 1 = 0 -> ~ fits (ga_by_block g) want s'
  | (_, Panic) => False
  end.
Proof.
  intros Hg Hw Hm. unfold take_aligned.
  pose proof (first_aligned gap lo hi Hgap Hlo Hhi (ga_by_block g) (Z.max align 1) want (go_free _ _ _ _ Hg)
    ltac:(lia) Hw) as F.
  destruct (find_map _ _) as [s|].
  - destruct F as (Hf & Hmod & Hmin).
    destruct (take_at_spec gap lo hi Hgap Hlo Hhi g s want owner offset Hg Hw Hm Hf) as (g' & -> & ? & ? & _).
    done.
  - pose proof (volume_free_total (seqZ 0 (sb_agcount sb)) 0) as Hv. unfold volume_free_blocks.
    destruct (volume_free_loop _ _ _ _) as [free|e|]; [|done|done].
    by destruct (free <? want).
Qed.

(** An aligned take succeeds exactly when some free run holds the blocks from
    an aligned start; it hands out the lowest such start, and moves exactly
    those blocks from free space to their owner, so that no second take
    can be given them.  When it fails the group is as it was. *)
Theorem take_aligned_exact g want align owner offset :
  group_ok gap lo hi g -> 0 < want -> mapping_ok want owner offset ->
  match take_aligned sb d g want align owner offset with
  | (g', Ok s) =>
      fits (ga_by_block g) want s /\ s mod Z.max align 1 = 0 /\
      (forall s', s' mod Z.max align 1 = 0 -> fits (ga_by_block g) want s' -> s <= s') /\
      group_ok gap lo hi g' /\ moved g g' s want owner offset
  | (g', Err _) => g' = g /\ forall s', s' mod Z.max align 1 = 0 -> ~ fits (ga_by_block g) want s'
  | (_, Panic) => False
  end.
Proof. apply take_aligned_spec. Qed.

(** A settled take hands out the lowest run of blocks that is free now and was
    free when the group was opened, never one given back since, and fails only
    when there is none. *)
Theorem take_settled_exact g want owner offset :
  group_ok 0 lo hi g -> FreeSpace.runs 0 lo hi (ga_settled g) -> 0 < want -> mapping_ok want owner offset ->
  match take_settled g want owner offset with
  | (g', Ok s) =>
      common (ga_settled g) (ga_by_block g) want s /\
      (forall s', common (ga_settled g) (ga_by_block g) want s' -> s <= s') /\
      group_ok 0 lo hi g' /\ moved g g' s want owner offset
  | (g', Err _) => g' = g /\ forall s', ~ common (ga_settled g) (ga_by_block g) want s'
  | (_, Panic) => False
  end.
Proof.
  intros Hg Hs Hw Hm. unfold take_settled, first_common_run.
  pose proof (first_common_loop_spec lo hi want Hw _ (ga_settled g) (ga_by_block g) (le_n _) Hs
    (go_free _ _ _ _ Hg)) as F.
  destruct (first_common_loop _ _ _ _) as [s|]; [|done].
  destruct F as ([Hc1 Hc2] & Hmin).
  destruct (take_at_spec 0 lo hi ltac:(lia) Hlo Hhi g s want owner offset Hg Hw Hm Hc2) as (g' & -> & ? & ? & _).
  done.
Qed.

(** A take of as many blocks as there are takes all that were wanted when one
    run holds them, and otherwise the whole of a longest run; it takes
    nothing only when the group has no free space. *)
Theorem take_up_to_exact g want owner offset :
  group_ok gap lo hi g -> 0 < want -> mapping_ok want owner offset ->
  match take_up_to sb d g want owner offset with
  | (g', Ok None) => g' = g /\ ga_by_block g = []
  | (g', Ok (Some (s, got))) =>
      0 < got <= want /\ fits (ga_by_block g) got s /\
      (got < want -> forall n s', got < n -> ~ fits (ga_by_block g) n s') /\
      group_ok gap lo hi g' /\ moved g g' s got owner offset
  | (g', Err _) | (g', Panic) => False
  end.
Proof.
  intros Hg Hw Hm. unfold take_up_to. pose proof (go_free _ _ _ _ Hg) as Hf.
  set (l := ga_by_block g) in *.
  set (got := if existsb (fun run => want <=? blockcount run) l then want else Z.min (longest l) want).
  assert (Hgot : (l = [] /\ got = 0) \/ (0 < got <= want /\ (exists e, e ∈ l /\ got <= blockcount e) /\
    (got < want -> Forall (fun e => blockcount e <= got) l))).
  { unfold got. destruct (existsb _ l) eqn:Ex.
    - apply existsb_exists in Ex as (e & He%list_elem_of_In & Hle%Z.leb_le). right. split; [lia|].
      split; [by exists e|lia].
    - destruct (longest_spec gap lo hi l Hf) as [[-> ->]|((e & He & Ee) & Hpos & Hall)]; [left; split; [done|lia]|].
      right. split; [lia|]. split; [exists e; split; [done|lia]|]. intros _.
      eapply Forall_impl; [exact Hall|]. cbn. intros e' He'.
      assert (blockcount e <= want); [|lia].
      destruct (decide (want <= blockcount e)) as [C|]; [|lia]. exfalso.
      rewrite <- not_true_iff_false, existsb_exists in Ex. apply Ex. exists e.
      split; [by apply list_elem_of_In|by apply Z.leb_le]. }
  destruct (Z.eqb_spec got 0) as [E0|E0]; [destruct Hgot as [[? _]|[? _]]; [done|lia]|].
  destruct Hgot as [[_ ?]|(Hr & (e & He & Hle) & Hall)]; [lia|].
  assert (Hm' : mapping_ok got owner offset).
  { destruct Hm as [? Hc ? ? Hs]. split; cbn in *; try done; [unfold in_u in *; lia|].
    intros Hd. specialize (Hs Hd). unfold file_offset in *. cbn in *. lia. }
  pose proof (take_aligned_spec g got 1 owner offset Hg ltac:(lia) Hm') as T. unfold take.
  destruct (take_aligned sb d g got 1 owner offset) as [g' [s|?|]]; cbn [return_err].
  - destruct T as (? & _ & _ & ? & ?). split_and!; try done; try lia. intros Hlt n s' Hn (x & Hx & Hc1 & Hc2).
    pose proof (proj1 (Forall_forall _ _) (Hall Hlt) x Hx) as Hbx. cbn in *. unfold fe_end in *. cbn in *. lia.
  - destruct T as [_ T]. apply (T (startblock e)); [by rewrite Z.mod_1_r|]. exists e. split; [done|].
    unfold FreeSpace.covers, fe_end. cbn. lia.
  - done.
Qed.

(** ** Refilling the free list *)

(** The blocks [bs] moved from free space onto the free list, in order, owned
    by the group. *)
Record refilled (g g' : GroupAlloc) (bs : list Z) : Prop := {
  rf_list : entries_of sb (ga_agfl g') = entries_of sb (ga_agfl g) ++ bs;
  rf_free b : is_free (ga_by_block g) b <-> is_free (ga_by_block g') b \/ b ∈ bs;
  rf_taken b : b ∈ bs -> ~ is_free (ga_by_block g') b;
  rf_nodup : NoDup bs;
  rf_owned : match ga_rmap g, ga_rmap g' with
    | None, None => True
    | Some (r, bl), Some (r', bl') =>
        bl' = bl /\ forall b o fl fo, maps r' b o fl fo <-> maps r b o fl fo \/ (b ∈ bs /\ o = OWN_AG /\ fl = 0)
    | _, _ => False
    end;
}.

Lemma refilled_nil g : refilled g g [].
Proof.
  split; [by rewrite app_nil_r|set_solver|set_solver|constructor|].
  destruct (ga_rmap g) as [[r bl]|]; [|done]. split; [done|]. set_solver.
Qed.

Lemma maps_own_ag s b o fl fo : maps [mkRmap s 1 OWN_AG 0] b o fl fo <-> b = s /\ o = OWN_AG /\ fl = 0.
Proof.
  unfold maps. split.
  - intros (r & ->%list_elem_of_singleton & Hc & <- & <- & _). unfold m_covers, m_end in Hc. cbn in Hc.
    split_and!; [lia|done..].
  - intros (-> & -> & ->). eexists. split; [by apply list_elem_of_singleton|]. split_and!; try done.
    + unfold m_covers, m_end. cbn. lia.
    + by left.
Qed.

Lemma mapping_own_ag : mapping_ok 1 OWN_AG 0.
Proof. unfold mapping_ok, OWN_AG. by split; cbn; unfold in_u; try lia. Qed.

Lemma refilled_step g g1 g' s bs :
  entries_of sb (ga_agfl g1) = entries_of sb (ga_agfl g) ++ [s] ->
  moved g g1 s 1 OWN_AG 0 -> is_free (ga_by_block g) s -> refilled g1 g' bs -> refilled g g' (s :: bs).
Proof.
  intros He [Hf _ _ Ho] Hs [Rl Rf Rt Rn Ro].
  assert (Hin : forall b, in_run s 1 b <-> b = s) by (intros b; unfold in_run; lia).
  split.
  - by rewrite Rl, He, <- app_assoc.
  - intros b. specialize (Hf b). rewrite Hin in Hf. rewrite elem_of_cons. specialize (Rf b).
    destruct (decide (b = s)) as [->|]; tauto.
  - intros b [->|Hb]%elem_of_cons; [|by apply Rt]. intros C.
    assert (is_free (ga_by_block g1) s) as [_ X]%Hf by (apply Rf; by left). by apply X, Hin.
  - constructor; [|done]. intros C. assert (is_free (ga_by_block g1) s) as [_ X]%Hf by (apply Rf; by right).
    by apply X, Hin.
  - destruct (ga_rmap g) as [[r bl]|], (ga_rmap g1) as [[r1 bl1]|], (ga_rmap g') as [[r' bl']|]; try done.
    destruct Ho as [-> Ho], Ro as [-> Ro]. split; [done|]. intros b o fl fo.
    rewrite Ro, Ho, maps_own_ag, elem_of_cons. tauto.
Qed.

Lemma refill_loop_spec need : need <= Z.of_nat (Agfl.capacity sb) -> forall fuel g,
  group_ok gap lo hi g -> fl_ok sb (ga_agfl g) -> need - fl_count (ga_agfl g) <= Z.of_nat fuel ->
  match refill_loop sb fuel g need with
  | (g', Ok _) =>
      group_ok gap lo hi g' /\ fl_ok sb (ga_agfl g') /\ fl_count (ga_agfl g') = Z.max need (fl_count (ga_agfl g)) /\
      exists bs, refilled g g' bs
  | (g', Err _) => ga_by_block g' = [] /\ fl_count (ga_agfl g') < need /\ exists bs, refilled g g' bs
  | (_, Panic) => False
  end.
Proof.
  intros Hneed. induction fuel as [|fuel IH]; intros g Hg Hfl Hfuel; cbn [refill_loop].
  { rewrite (proj2 (Z.leb_le _ _)) by lia. split_and!; [done..|lia|]. exists []. apply refilled_nil. }
  destruct (Z.leb_spec need (fl_count (ga_agfl g))) as [Hd|Hd].
  { split_and!; [done..|lia|]. exists []. apply refilled_nil. }
  pose proof (go_free _ _ _ _ Hg) as Hf.
  destruct (ga_by_block g) as [|run l] eqn:El.
  { split_and!; try done. exists []. apply refilled_nil. }
  cbn [startblock]. set (s := startblock run). rewrite <- El in *.
  destruct (runs_elem gap ltac:(lia) _ _ _ run Hf) as (Hr1 & Hr2 & Hr3); [rewrite El; set_solver|].
  assert (Hcov : fits (ga_by_block g) 1 s).
  { exists run. split; [rewrite El; set_solver|]. unfold FreeSpace.covers, fe_end. cbn. subst s. lia. }
  destruct (alloc_free_iff gap lo hi Hgap Hlo Hhi _ (mkFree s 1) Hf ltac:(done) Hcov) as (l' & k & -> & Hl' & Hfree).
  unfold fe_end in *. cbn [ga_agfl ga_agno with_by_block].
  destruct (put_queue sb Hty Hgeo (ga_agfl g) (ga_agno g) s Hfl ltac:(unfold in_u; lia))
    as [[Hfull _]|(_ & fl' & -> & Hfl' & Hent & _)]; [lia|].
  change (with_agfl (with_by_block g l') fl') with (with_by_block (with_agfl g fl') l').
  assert (Hg1 : group_ok gap lo hi (with_agfl g fl')) by (destruct Hg; by split).
  assert (Hin : forall b, in_run s 1 b -> is_free (ga_by_block (with_agfl g fl')) b).
  { intros b Hb. destruct Hcov as (e & He & Hc). by apply (covered_free _ e s 1). }
  destruct (rmap_insert_spec gap lo hi Hlo Hhi (with_agfl g fl') l' s 1 OWN_AG 0 Hg1 ltac:(lia) mapping_own_ag
    ltac:(lia) ltac:(lia) Hin Hl' Hfree) as (g1 & -> & Hok1 & Hmv & Hafl & Hano & Hbb).
  cbn [ga_agfl with_agfl] in Hafl.
  pose proof (length_entries_of sb _ Hfl') as L1. pose proof (length_entries_of sb _ Hfl) as L0.
  rewrite Hent, length_app in L1. cbn in L1.
  assert (Hok : group_ok gap lo hi g1) by (destruct Hok1; by split).
  specialize (IH g1 Hok ltac:(by rewrite Hafl) ltac:(rewrite Hafl; lia)).
  assert (Hstep : forall g' bs, refilled g1 g' bs -> refilled g g' (s :: bs)).
  { intros g' bs Hr. apply (refilled_step g (set_took g1) g' s bs).
    - cbn. by rewrite Hafl.
    - destruct Hmv as [M1 M2 M3 M4]. by split.
    - apply Hin. unfold in_run. lia.
    - destruct Hr. by split. }
  destruct (refill_loop sb fuel g1 need) as [g' [[]|e|]]; [| |done].
  - destruct IH as (? & ? & Hc & bs & Hbs). split_and!; [done..|rewrite Hc, Hafl; lia|]. eauto.
  - destruct IH as (? & ? & bs & Hbs). split_and!; [done..|]. eauto.
Qed.

Lemma free_list_need_capacity g need :
  free_list_need sb g = Ok need -> need <= Z.of_nat (Agfl.capacity sb).
Proof.
  intros Hn. unfold free_list_need in Hn. destruct (capacity_bounds sb Hty Hgeo) as (_ & Hc & _).
  assert (forall n, Z.min n (wrap 32 (Z.of_nat (Agfl.capacity sb))) <= Z.of_nat (Agfl.capacity sb)).
  { intros n. rewrite wrap_small by (unfold in_u; lia). lia. }
  res_inv. subst. done.
Qed.

(** Refilling the free list ends with the count the kernel keeps there, each
    block moved once from the head of free space to the tail of the list and
    recorded as the group's own; it fails only with free space used up, and
    never because the loop ran on. *)
Theorem refill_free_list_exact g need :
  group_ok gap lo hi g -> fl_ok sb (ga_agfl g) -> free_list_need sb g = Ok need ->
  match refill_free_list sb g with
  | (g', Ok _) =>
      group_ok gap lo hi g' /\ fl_ok sb (ga_agfl g') /\ fl_count (ga_agfl g') = Z.max need (fl_count (ga_agfl g)) /\
      exists bs, refilled g g' bs
  | (g', Err _) => ga_by_block g' = [] /\ fl_count (ga_agfl g') < need /\ exists bs, refilled g g' bs
  | (_, Panic) => False
  end.
Proof.
  intros Hg Hfl Hn. unfold refill_free_list. rewrite Hn. apply refill_loop_spec; [|done..|lia].
  by eapply free_list_need_capacity.
Qed.
End group_theorems.

(** ** A group under edit, for the witnesses *)

Definition sample_agf_raw : bytes :=
  splice agf.LEVELS (to_be_bytes 4 2 ++ to_be_bytes 4 2 ++ to_be_bytes 4 1) (replicate 512 x00).
Definition sample_free : list FreeExtent := [mkFree 200 6; mkFree 224 2; mkFree 240 60].
Definition sample_owned : list Rmap := [mkRmap 4 10 OWN_AG 0; mkRmap 206 18 130 0].
Definition sample_group : GroupAlloc :=
  mkGroup 1 1048576 sample_agf_raw ∅ [4] [5] sample_free [mkFree 224 2; mkFree 250 50]
    (Some (sample_owned, [6])) sample_fl [] None false.

Lemma sample_group_ok : group_ok 0 4 2048 sample_group.
Proof.
  split; [cbn; unfold fe_end; cbn; lia|]. cbn [ga_rmap sample_group]. intros ? ? [= <- <-].
  split; [|split].
  - repeat constructor; cbn; unfold in_u; try lia; intros; cbn in *; try done.
  - cbn. unfold m_runs. cbn. unfold fe_end. cbn. lia.
  - intros b (e & He & Hb) (r & Hr & Hc). unfold in_extent, fe_end, m_covers, m_end in *.
    cbn in He. set_unfold. destruct He as [->|[->|[->|[]]]], Hr as [->|[->|[]]]; cbn in *; lia.
Qed.
Lemma sample_mapping_ok : mapping_ok 8 131 0.
Proof. unfold mapping_ok. split; cbn; unfold in_u; try lia; done. Qed.

Lemma changed_chunks_exact_witness :
  exists item rs, changed_chunks 8 (replicate 512 x00) (replicate 300 x00 ++ replicate 212 x01) 1 = Ok item /\
    BufWrite.runs item = Ok rs /\
    apply_runs rs (run_bytes (replicate 300 x00 ++ replicate 212 x01) <$> rs) (replicate 512 x00)
      = Ok (replicate 300 x00 ++ replicate 212 x01).
Proof.
  destruct (changed_chunks_exact 8 (replicate 512 x00) (replicate 300 x00 ++ replicate 212 x01) 1)
    as (item & rs & ? & _ & _ & ? & ?); [by vm_compute..|vm_compute; lia|]. by exists item, rs.
Defined.

Lemma take_aligned_exact_witness :
  exists g', take_aligned sample_sb sample_device sample_group 8 16 131 0 = (g', Ok 240) /\
    is_free (ga_by_block sample_group) 240 /\ ~ is_free (ga_by_block g') 240.
Proof.
  pose proof (take_aligned_exact sample_sb sample_device 0 4 2048 ltac:(lia) ltac:(lia) ltac:(lia)
    sample_geometry sample_group 8 16 131 0 sample_group_ok ltac:(lia) sample_mapping_ok) as H.
  destruct (take_aligned sample_sb sample_device sample_group 8 16 131 0) as [g' r] eqn:E.
  assert (r = Ok 240) as ->. { apply (f_equal snd) in E. vm_compute in E. by rewrite <- E. }
  exists g'. split; [done|]. destruct H as ((e & He & Hc1 & Hc2) & _ & _ & _ & Hm). cbn in Hc1, Hc2.
  unfold fe_end in Hc2. cbn in Hc2. split; [exists e; split; [done|unfold in_extent, fe_end; lia]|].
  rewrite (mv_free _ _ _ _ _ _ Hm). intros [_ C]. apply C. unfold in_run. lia.
Defined.

Lemma take_settled_exact_witness :
  exists g', take_settled sample_group 8 131 0 = (g', Ok 250) /\ ~ is_free (ga_by_block g') 250 /\
    common (ga_settled sample_group) (ga_by_block sample_group) 8 250.
Proof.
  pose proof (take_settled_exact 4 2048 ltac:(lia) ltac:(lia) sample_group 8 131 0 sample_group_ok
    ltac:(cbn; unfold fe_end; cbn; lia) ltac:(lia) sample_mapping_ok) as H.
  destruct (take_settled sample_group 8 131 0) as [g' r] eqn:E.
  assert (r = Ok 250) as ->. { apply (f_equal snd) in E. vm_compute in E. by rewrite <- E. }
  exists g'. split; [done|]. destruct H as (Hc & _ & _ & Hm). split; [|done].
  rewrite (mv_free _ _ _ _ _ _ Hm). intros [_ C]. apply C. unfold in_run. lia.
Defined.

Lemma take_up_to_exact_witness :
  exists g', take_up_to sample_sb sample_device sample_group 100 131 0 = (g', Ok (Some (240, 60))) /\
    forall s', ~ fits (ga_by_block sample_group) 61 s'.
Proof.
  pose proof (take_up_to_exact sample_sb sample_device 0 4 2048 ltac:(lia) ltac:(lia) ltac:(lia)
    sample_geometry sample_group 100 131 0 sample_group_ok ltac:(lia)
    ltac:(unfold mapping_ok; split; cbn; unfold in_u; try lia; done)) as H.
  destruct (take_up_to sample_sb sample_device sample_group 100 131 0) as [g' r] eqn:E.
  assert (r = Ok (Some (240, 60))) as ->. { apply (f_equal snd) in E. vm_compute in E. by rewrite <- E. }
  exists g'. split; [done|]. destruct H as (_ & _ & H & _). intros s'. exact (H eq_refl 61 s' eq_refl).
Defined.

Lemma refill_free_list_exact_witness :
  exists g' bs, refill_free_list sample_sb sample_group = (g', Ok tt) /\
    fl_count (ga_agfl g') = 10 /\ refilled sample_sb sample_group g' bs.
Proof.
  pose proof (refill_free_list_exact sample_sb 0 4 2048 ltac:(lia) ltac:(lia) ltac:(lia)
    sample_typed sample_geometry sample_group 10 sample_group_ok sample_fl_ok ltac:(by vm_compute)) as H.
  destruct (refill_free_list sample_sb sample_group) as [g' r] eqn:E.
  assert (r = Ok tt) as ->. { apply (f_equal snd) in E. vm_compute in E. by rewrite <- E. }
  destruct H as (_ & _ & Hc & bs & Hbs). exists g', bs. split_and!; [done| |done].
  rewrite Hc. by vm_compute.
Defined.
