(* ===== verification/Relay.v ===== *)
(** * Laying a group's tree out again ([src/src/ag_btree.rs], [relay])

    A tree that changed is laid out from its records over the blocks it holds,
    taking from a block source when it grew and giving back to it when it
    shrank, and every block whose bytes changed is logged as a diff.  The
    theorem closes the loop over the layout, the diff and the log: replaying
    what was logged over the blocks as they were, and walking the result from
    the new root, reads back exactly the records and the blocks.

    Where the blocks come from is the interface [BlockSource]; the group's free
    list implements it here, as [FreeList] does in [src/src/group_write.rs]. *)

From Stdlib Require Import ZArith Lia Strings.String Strings.Byte.
From stdpp Require Import base list gmap strings sets.
From S2P Require Import Prelude Error Endian Crc32c Superblock Sample Ag Agfl FreeSpace AgBtree AllocBtree Refcount Rmap Overlay BufWrite LogRecover GroupWrite.

(** Where a tree gets the blocks it grows by and puts the ones it shrinks by. *)
Class BlockSource (S : Type) := {
  src_take : S -> S * res Z;
  src_put : S -> Z -> S * res unit;
}.

(** The group's free list as a source ([impl BlockSource for FreeList]). *)
Definition free_list_source (sb : Superblock) (agno : Z) : BlockSource Agfl := {|
  src_take fl := Agfl.take fl sb agno;
  src_put fl agblock := Agfl.put fl sb agno agblock;
|}.

Section source.
Context {S : Type} {src : BlockSource S}.

(** [while blocks.len() < wanted], with [n] blocks still wanted. *)
Fixpoint grow (n : nat) (s : S) (blocks : list Z) : S * res (list Z) :=
  match n with
  | O => (s, Ok blocks)
  | Datatypes.S n =>
      match src_take s with
      | (s, Ok b) => grow n s (blocks ++ [b])
      | (s, Err e) => (s, Err e)
      | (s, Panic) => (s, Panic)
      end
  end.

(** [while blocks.len() > wanted], with [n] blocks to give back. *)
Fixpoint shrink (n : nat) (s : S) (blocks : list Z) : S * res (list Z) :=
  match n with
  | O => (s, Ok blocks)
  | Datatypes.S n =>
      match list.last blocks with
      | None => (s, Panic)
      | Some spare =>
          match src_put s spare with
          | (s, Ok _) => shrink n s (removelast blocks)
          | (s, Err e) => (s, Err e)
          | (s, Panic) => (s, Panic)
          end
      end
  end.
End source.

Section relay.
Context `{Crc : Crc32c} (sb : Superblock) {D : Type} {dev : BlockDevice D} (d : D) (ag_start : Z)
  (shape : Shape) (agno : Z) (before : gmap Z bytes).

(** A block of the group as the device holds it. *)
Definition read_block (agblock : Z) : res bytes :=
  match dev_read d (wadd 64 ag_start (wmul 64 agblock (sb_blocksize sb)))
          (replicate (Z.to_nat (sb_blocksize sb)) x00) with
  | (raw, Ok _) => Ok raw
  | (_, Err e) => Err e
  | (_, Panic) => Panic
  end.

(** The items of the blocks laid out, pushed one by one. *)
Fixpoint log_built (built : list Built) (items : list BufferItem) : list BufferItem * res unit :=
  match built with
  | [] => (items, Ok tt)
  | block :: built =>
      match (match before !! built_agblock block with
             | Some raw => Ok raw
             | None => read_block (built_agblock block)
             end) with
      | Ok was =>
          if bool_decide (was = built_bytes block) then log_built built items
          else
            match changed_chunks (expected_blkno sb agno (built_agblock block)) was (built_bytes block) BLFT_BTREE with
            | Ok item => log_built built (items ++ [item])
            | Err e => (items, Err e)
            | Panic => (items, Panic)
            end
      | Err e => (items, Err e)
      | Panic => (items, Panic)
      end
  end.

Context {S : Type} {src : BlockSource S} {T : Type} (encode_record : bytes -> nat -> T -> res bytes)
  (write_keys : bytes -> nat -> list T -> res bytes).

Definition relay (records : list T) (held : list Z) (s : S) (items : list BufferItem)
    : S * list BufferItem * res (list Z) :=
  match plan shape (sb_blocksize sb) (is_v5 sb) (length records) with
  | Ok levels =>
      let wanted := sum_list levels in
      match grow (wanted - length held) s held with
      | (s, Ok blocks) =>
          match shrink (length blocks - wanted) s blocks with
          | (s, Ok blocks) =>
              match build sb shape agno encode_record write_keys records blocks with
              | Ok built =>
                  match log_built built items with
                  | (items, Ok _) => (s, items, Ok blocks)
                  | (items, Err e) => (s, items, Err e)
                  | (items, Panic) => (s, items, Panic)
                  end
              | Err e => (s, items, Err e)
              | Panic => (s, items, Panic)
              end
          | (s, r) => (s, items, r)
          end
      | (s, r) => (s, items, r)
      end
  | Err e => (s, items, Err e)
  | Panic => (s, items, Panic)
  end.
End relay.

(** ** The blocks a layout writes are whole blocks *)

Section lengths.
Context `{Crc : Crc32c} {T} `{codec : RecordCodec T} {good : T -> Prop} `{!RecordCodecLaws T good}
  (sb : Superblock) (agno : Z) (records : list T) (blocks : list Z).

Definition whole (b : Built) : Prop := length (built_bytes b) = Z.to_nat (sb_blocksize sb).

Lemma stamp_length buf buf' shape agblock level numrecs :
  AgBtree.stamp buf sb shape agno agblock level numrecs = Ok buf' -> length buf' = length buf.
Proof.
  unfold AgBtree.stamp. destruct (is_v5 sb); cbn [negb].
  - keeps_length.
  - keeps_length.
Qed.

Lemma encode_records_length rs : forall buf j buf',
  encode_records sb (rc_shape T) rc_encode buf j rs = Ok buf' -> length buf' = length buf.
Proof.
  induction rs as [|r rs IH]; cbn; intros buf j buf' H; [by injection H as <-|].
  apply bind_Ok in H as (b1 & E1%rc_encode_length & E2%IH). congruence.
Qed.

Lemma node_entries_length spans bs n : forall taken j buf buf',
  node_entries sb (rc_shape T) rc_keys records spans bs taken j n buf = Ok buf' -> length buf' = length buf.
Proof.
  induction n as [|n IH]; cbn; intros taken j buf buf' H; [by injection H as <-|].
  apply bind_Ok in H as (sp & _ & H). apply bind_Ok in H as (rs & _ & H).
  apply bind_Ok in H as (b1 & E1%rc_keys_length & H). apply bind_Ok in H as (bl & _ & H).
  apply bind_Ok in H as (b2 & E2%copy_at_length & H%IH). congruence.
Qed.

Lemma build_leaves_whole counts : forall i taken out,
  build_leaves sb (rc_shape T) agno rc_encode records blocks i taken counts = Ok out -> Forall whole out.1.
Proof.
  induction counts as [|c counts IH]; cbn; intros i taken out H; [injection H as <-; constructor|].
  apply bind_Ok in H as (ab & _ & H). apply bind_Ok in H as (leaf & El & H).
  apply bind_Ok in H as (rest & Er%IH & H). injection H as <-. constructor; [|done].
  unfold build_leaf in El. apply bind_Ok in El as (rs & _ & El).
  apply bind_Ok in El as (b1 & E1%encode_records_length & El).
  apply bind_Ok in El as (b2 & E2%stamp_length & El). injection El as <-.
  unfold whole. cbn. by rewrite E2, E1, length_replicate.
Qed.

Lemma build_nodes_whole up spans bs counts : forall i taken out,
  build_nodes sb (rc_shape T) agno rc_keys records blocks up spans bs i taken counts = Ok out ->
  Forall whole out.1.1.1.
Proof.
  induction counts as [|c counts IH]; cbn; intros i taken out H; [injection H as <-; constructor|].
  apply bind_Ok in H as (ab & _ & H). apply bind_Ok in H as (node & En & H).
  apply bind_Ok in H as (lo & _ & H). apply bind_Ok in H as (hi & _ & H).
  apply bind_Ok in H as ([[[o sp] b] t] & Er%IH & H). injection H as <-. constructor; [|done].
  unfold build_node in En. apply bind_Ok in En as (b1 & E1%node_entries_length & En).
  apply bind_Ok in En as (b2 & E2%stamp_length & En). injection En as <-.
  unfold whole. cbn. by rewrite E2, E1, length_replicate.
Qed.

Lemma build_levels_whole levels : forall up pos spans bs out,
  build_levels sb (rc_shape T) agno rc_keys records blocks up levels pos spans bs = Ok out -> Forall whole out.
Proof.
  induction levels as [|n levels IH]; cbn; intros up pos spans bs out H; [injection H as <-; constructor|].
  apply bind_Ok in H as ([[[o sp] b] t] & En%build_nodes_whole & H).
  apply bind_Ok in H as (_ & _ & H). apply bind_Ok in H as (rest & Er%IH & H). injection H as <-.
  by apply Forall_app.
Qed.

Lemma build_whole out :
  build sb (rc_shape T) agno rc_encode rc_keys records blocks = Ok out -> Forall whole out.
Proof.
  unfold build. intros H. apply bind_Ok in H as (levels & _ & H). apply bind_Ok in H as (_ & _ & H).
  apply bind_Ok in H as (first & _ & H). apply bind_Ok in H as (leaves & El%build_leaves_whole & H).
  apply bind_Ok in H as (_ & _ & H). apply bind_Ok in H as (below & _ & H).
  apply bind_Ok in H as (nodes & En%build_levels_whole & H). injection H as <-. by apply Forall_app.
Qed.
End lengths.

(** ** Addresses inside one group are distinct *)

Lemma blocksize_bb sb : sb_geometry sb -> sb_blocksize sb = 2 ^ (sb_blocklog sb - 9) * 512.
Proof.
  intros [[Hlog ->] _ _ _ _ _ _ _ _ _ _ _]. change 512 with (2 ^ 9).
  rewrite <- Z.pow_add_r by lia. f_equal. lia.
Qed.

(** In basic blocks, where the volume is below 2{^64} bytes. *)
Lemma expected_blkno_eq sb agno b :
  sb_typed sb -> sb_geometry sb -> in_u 32 agno -> (agno + 1) * sb_agblocks sb * sb_blocksize sb < 2 ^ 64 ->
  0 <= b < sb_agblocks sb ->
  expected_blkno sb agno b = (agno * sb_agblocks sb + b) * 2 ^ (sb_blocklog sb - 9).
Proof.
  intros Hty Hgeo [Hn _] Hfit Hx. pose proof (blocksize_bb sb Hgeo) as Hbb.
  destruct Hgeo as [[Hlog _] _ _ _ _ _ _ _ _ _ _ _].
  pose proof (pow2_pos (sb_blocklog sb - 9) ltac:(lia)) as Hp.
  unfold expected_blkno, blkno_of_linear_block.
  assert (0 <= agno * sb_agblocks sb) by nia.
  assert ((agno * sb_agblocks sb + b) * sb_blocksize sb < 2 ^ 64) by nia.
  assert (agno * sb_agblocks sb + b < 2 ^ 64) by nia.
  rewrite (wmul_small 64 agno), wadd_small, wmul_small by nia.
  change FreeSpace.BBSIZE with 512. rewrite Hbb, Z.mul_assoc. by apply Z.div_mul.
Qed.

Lemma expected_blkno_inj sb agno a b :
  sb_typed sb -> sb_geometry sb -> in_u 32 agno -> (agno + 1) * sb_agblocks sb * sb_blocksize sb < 2 ^ 64 ->
  0 <= a < sb_agblocks sb -> 0 <= b < sb_agblocks sb ->
  expected_blkno sb agno a = expected_blkno sb agno b -> a = b.
Proof.
  intros Hty Hgeo Hn Hfit Ha Hb. rewrite !expected_blkno_eq by done.
  destruct Hgeo as [[Hlog _] _ _ _ _ _ _ _ _ _ _ _].
  pose proof (pow2_pos (sb_blocklog sb - 9) ltac:(lia)) as Hp. intros H%Z.mul_reg_r; lia.
Qed.

(** ** What is logged, replayed, is what was laid out *)

(** What recovery makes of the buffer at [blk]: the runs of the item logged for
    it, where there is one, over the bytes it had. *)
Definition replayed (items : list BufferItem) (blk : Z) (raw : bytes) : res bytes :=
  match find (fun it => blkno it =? blk) items with
  | None => Ok raw
  | Some it => rs ← BufWrite.runs it; apply_runs rs (run_bytes (data it) <$> rs) raw
  end.

Lemma find_app_None {A} (p : A -> bool) l1 l2 : find p l1 = None -> find p (l1 ++ l2) = find p l2.
Proof. induction l1 as [|x l1 IH]; cbn; [done|]. destruct (p x); [done|auto]. Qed.

Section logged.
Context `{Crc : Crc32c} (sb : Superblock) {D : Type} {dev : BlockDevice D} {dlaws : BlockDeviceLaws D} (d : D)
  (ag_start agno : Z) (before : gmap Z bytes).
Context (Hty : sb_typed sb) (Hgeo : sb_geometry sb) (Hagno : in_u 32 agno)
  (Hfit : (agno + 1) * sb_agblocks sb * sb_blocksize sb < 2 ^ 64).

(** The images kept from when the group was opened are what the device holds. *)
Definition as_read : Prop := forall b raw, before !! b = Some raw -> read_block sb d ag_start b = Ok raw.
Context (Hread : as_read).

Definition in_group (b : Z) : Prop := 0 <= b < sb_agblocks sb.

Lemma read_block_total b : read_block sb d ag_start b <> Panic.
Proof.
  unfold read_block. set (buf := replicate _ _). set (off := wadd _ _ _).
  pose proof (dev_read_total d off buf). by destruct (dev_read d off buf) as [? [| |]].
Qed.
Lemma read_block_length b raw : read_block sb d ag_start b = Ok raw -> length raw = Z.to_nat (sb_blocksize sb).
Proof.
  unfold read_block. set (buf := replicate _ _). set (off := wadd _ _ _).
  pose proof (dev_read_length d off buf) as Hl. destruct (dev_read d off buf) as [? [| |]]; [|done|done].
  intros [= <-]. cbn in Hl. rewrite Hl. unfold buf. by rewrite length_replicate.
Qed.
Lemma blocksize_chunks :
  (Z.to_nat (sb_blocksize sb) mod Overlay.BBSIZE = 0)%nat /\ (0 < Z.to_nat (sb_blocksize sb))%nat.
Proof.
  destruct Hgeo as [[Hlog ->] _ _ _ _ _ _ _ _ _ _ _].
  pose proof (pow2_pos (sb_blocklog sb) ltac:(lia)). split; [|lia].
  replace (sb_blocklog sb) with ((sb_blocklog sb - 9) + 9) by lia. rewrite Z.pow_add_r by lia.
  pose proof (pow2_pos (sb_blocklog sb - 9) ltac:(lia)).
  rewrite Z2Nat.inj_mul by lia. change (Z.to_nat (2 ^ 9)) with Overlay.BBSIZE. apply Nat.Div0.mod_mul.
Qed.

(** The image a block is compared with. *)
Definition was_of (b : Z) : res bytes :=
  match before !! b with Some raw => Ok raw | None => read_block sb d ag_start b end.

Lemma was_of_read b : was_of b = read_block sb d ag_start b.
Proof. unfold was_of. destruct (before !! b) eqn:E; [|done]. by rewrite (Hread _ _ E). Qed.

Lemma log_built_spec built : forall items,
  Forall (whole sb) built -> Forall in_group (built_agblock <$> built) -> NoDup (built_agblock <$> built) ->
  match log_built sb d ag_start agno before built items with
  | (items', Ok _) => exists new, items' = items ++ new /\
      (forall x, x ∈ built -> exists raw, read_block sb d ag_start (built_agblock x) = Ok raw /\
         replayed new (expected_blkno sb agno (built_agblock x)) raw = Ok (built_bytes x)) /\
      (forall blk, blk ∉ (fun x => expected_blkno sb agno (built_agblock x)) <$> built ->
         find (fun it => blkno it =? blk) new = None)
  | (_, Err e) => exists x, x ∈ built /\ read_block sb d ag_start (built_agblock x) = Err e
  | (_, Panic) => False
  end.
Proof.
  induction built as [|x built IH]; intros items Hw Hg Hnd; cbn [log_built].
  { exists []. split_and!; [by rewrite app_nil_r|set_solver|done]. }
  apply Forall_cons in Hw as [Hx Hw]. cbn [fmap list_fmap] in Hg, Hnd. apply Forall_cons in Hg as [Hgx Hg]. apply NoDup_cons in Hnd as [Hnx Hnd].

  set (blkx := expected_blkno sb agno (built_agblock x)).
  assert (Hfresh : blkx ∉ (fun x => expected_blkno sb agno (built_agblock x)) <$> built).
  { intros (y & Hy & Hyin)%list_elem_of_fmap. apply Hnx. apply list_elem_of_fmap. exists y. split; [|done].
    rewrite Forall_fmap, Forall_forall in Hg. specialize (Hg _ Hyin).
    by apply (expected_blkno_inj sb agno). }
  fold (was_of (built_agblock x)). rewrite was_of_read.
  pose proof (read_block_total (built_agblock x)) as Hnp.
  destruct (read_block sb d ag_start (built_agblock x)) as [was|e|] eqn:Er; [|exists x; set_solver|done].
  destruct (bool_decide_reflect (was = built_bytes x)) as [E|E].
  - specialize (IH items Hw Hg Hnd). destruct (log_built _ _ _ _ _ _ _) as [items' [[]|e|]]; [| |done].
    + destruct IH as (new & -> & Hin & Hout). exists new. split_and!; [done| |].
      * intros y [->|Hy]%elem_of_cons; [|by apply Hin]. exists was. split; [done|]. unfold replayed.
        fold blkx. rewrite (Hout blkx) by done. by rewrite E.
      * intros blk Hblk. apply Hout. set_solver.
    + destruct IH as (y & ? & ?). exists y. set_solver.
  - pose proof blocksize_chunks as [Hm Hp]. pose proof (read_block_length _ _ Er) as Hl.
    destruct (changed_chunks_spec blkx was (built_bytes x) BLFT_BTREE)
      as (item & rs & -> & Hdata & Hblk & _ & Hrs & Happ); [rewrite Hl; by symmetry|by rewrite Hx..|].
    specialize (IH (items ++ [item]) Hw Hg Hnd).
    destruct (log_built _ _ _ _ _ _ _) as [items' [[]|e|]]; [| |done].
    + destruct IH as (new & -> & Hin & Hout). exists (item :: new). split_and!; [by rewrite <- app_assoc| |].
      * intros y [->|Hy]%elem_of_cons.
        -- exists was. split; [done|]. unfold replayed. cbn [find]. fold blkx.
           rewrite (proj2 (Z.eqb_eq _ _)) by done. rewrite Hrs. cbn [mbind res_bind]. by rewrite Hdata.
        -- destruct (Hin y Hy) as (raw & ? & Hr). exists raw. split; [done|]. unfold replayed. cbn [find].
           rewrite (proj2 (Z.eqb_neq _ _)); [done|]. intros C. apply Hfresh. apply list_elem_of_fmap.
           exists y. split; [congruence|done].
      * intros blk Hb. cbn [find]. rewrite (proj2 (Z.eqb_neq _ _)); [apply Hout; set_solver|].
        intros C. apply Hb. rewrite fmap_cons, elem_of_cons. left. unfold blkx in Hblk. congruence.
    + destruct IH as (y & ? & ?). exists y. set_solver.
Qed.
End logged.

Section source_lengths.
Context {S : Type} {src : BlockSource S}.

Lemma grow_Ok n : forall (s s' : S) bs out,
  grow n s bs = (s', Ok out) -> exists more, out = bs ++ more /\ length more = n.
Proof.
  induction n as [|n IH]; intros s s' bs out H; cbn in H.
  { injection H as <- <-. exists []. by rewrite app_nil_r. }
  destruct (src_take s) as [s1 [b|e|]]; [|done|done]. apply IH in H as (more & -> & <-).
  exists (b :: more). by rewrite <- app_assoc.
Qed.

Lemma shrink_Ok n : forall (s s' : S) bs out,
  shrink n s bs = (s', Ok out) -> exists spare, bs = out ++ spare /\ length spare = n.
Proof.
  induction n as [|n IH]; intros s s' bs out H; cbn in H.
  { injection H as <- <-. exists []. by rewrite app_nil_r. }
  destruct bs as [|b bs _] using rev_ind; [done|]. rewrite last_snoc, removelast_last in H.
  destruct (src_put s b) as [s1 [[]|e|]]; [|done|done]. apply IH in H as (spare & -> & <-).
  exists (spare ++ [b]). rewrite length_app. cbn. split; [by rewrite app_assoc|lia].
Qed.
End source_lengths.

(** A tree over [blocks] that, read through what [new] logs, holds [records];
    [new] logs nothing outside those blocks. *)
Record laid `{Crc : Crc32c} {T} `{codec : RecordCodec T} {D} {dev : BlockDevice D} (sb : Superblock) (d : D)
    (ag_start agno : Z) (records : list T) (blocks : list Z) (new : list BufferItem) : Prop := {
  laid_walk : exists levels,
    plan (rc_shape T) (sb_blocksize sb) (is_v5 sb) (length records) = Ok levels /\
    length blocks = sum_list levels /\
    forall read,
      (forall b, b ∈ blocks -> exists raw, read_block sb d ag_start b = Ok raw /\
         read b = replayed new (expected_blkno sb agno b) raw) ->
      walk_blocks sb (rc_shape T) agno read rc_decode (root_of blocks) (Z.of_nat (length levels)) =
        Ok (records, blocks);
  laid_outside blk : blk ∉ expected_blkno sb agno <$> blocks -> find (fun it => blkno it =? blk) new = None;
}.

Section relaid.
Context `{Crc : Crc32c, !Crc32cLaws} {T} `{codec : RecordCodec T} (good : T -> Prop)
    `{!RecordCodecLaws T good} {D} {dev : BlockDevice D} {dlaws : BlockDeviceLaws D} {S} {src : BlockSource S}.
Context (sb : Superblock) (d : D) (ag_start agno : Z) (before : gmap Z bytes).
Context (Hty : sb_typed sb) (Hgeo : sb_geometry sb) (Hsh : shape_typed sb (rc_shape T)) (Hag : in_u 32 agno)
  (Hfit : (agno + 1) * sb_agblocks sb * sb_blocksize sb < 2 ^ 64) (Hread : as_read sb d ag_start before).

Lemma in_group_u32 blocks : Forall (in_group sb) blocks -> Forall (in_u 32) blocks.
Proof.
  intros Hin. eapply Forall_impl; [exact Hin|]. intros b [? ?]. destruct Hty. unfold in_u in *. lia.
Qed.

(** A group has no more blocks than it has. *)
Lemma in_group_budget blocks :
  NoDup blocks -> Forall (in_group sb) blocks -> (length blocks <= Z.to_nat (Z.max (sb_agblocks sb) 64))%nat.
Proof.
  intros Hnd Hin. assert (length blocks <= length (seqZ 0 (sb_agblocks sb)))%nat; [|rewrite length_seqZ in *; lia].
  apply submseteq_length, NoDup_submseteq; [done|]. intros b Hb. rewrite Forall_forall in Hin.
  destruct (Hin b Hb). apply elem_of_seqZ. lia.
Qed.

Lemma grow_shrink_length (wanted : nat) (held grown blocks : list Z) (s s1 s2 : S) :
  grow (wanted - length held) s held = (s1, Ok grown) ->
  shrink (length grown - wanted) s1 grown = (s2, Ok blocks) -> length blocks = wanted.
Proof.
  intros (more & -> & Hm)%grow_Ok (spare & Heq & Hs)%shrink_Ok.
  apply (f_equal length) in Heq. rewrite !length_app in *. lia.
Qed.

(** The layout of [records] over as many blocks as the plan asks for, and what
    logging it does. *)
Lemma build_logged records blocks levels items :
  Forall good records -> plan (rc_shape T) (sb_blocksize sb) (is_v5 sb) (length records) = Ok levels ->
  length blocks = sum_list levels -> NoDup blocks -> Forall (in_group sb) blocks ->
  exists out, build sb (rc_shape T) agno rc_encode rc_keys records blocks = Ok out /\
    match log_built sb d ag_start agno before out items with
    | (items', Ok _) => exists new, items' = items ++ new /\ laid sb d ag_start agno records blocks new
    | (_, Err e) => exists b, b ∈ blocks /\ read_block sb d ag_start b = Err e
    | (_, Panic) => False
    end.
Proof.
  intros Hgood Hplan Hlen Hnd Hin.
  destruct (build_spec good sb Hty Hgeo Hsh agno Hag records Hgood blocks (in_group_u32 _ Hin) levels Hplan Hlen
    (in_group_budget _ Hnd Hin)) as (out & Hb & Hbl & Hwalk).
  exists out. split; [done|].
  pose proof (log_built_spec sb d ag_start agno before Hty Hgeo Hag Hfit Hread out items
    (build_whole sb agno records blocks out Hb) ltac:(by rewrite Hbl) ltac:(by rewrite Hbl)) as Hlog.
  destruct (log_built sb d ag_start agno before out items) as [items' [[]|e|]]; [| |done].
  - destruct Hlog as (new & -> & Hrep & Hout). exists new. split; [done|]. split.
    + exists levels. split_and!; [done..|]. intros read Hr. apply Hwalk, Forall_forall. intros x Hx.
      destruct (Hrep x Hx) as (raw & E & Hx'). destruct (Hr (built_agblock x)) as (raw' & E' & ->).
      { rewrite <- Hbl. by apply list_elem_of_fmap_2. }
      congruence.
    + intros blk Hblk. apply Hout. rewrite <- Hbl, <- list_fmap_compose in Hblk. done.
  - destruct Hlog as (x & Hx & He). exists (built_agblock x). split; [|done].
    rewrite <- Hbl. by apply list_elem_of_fmap_2.
Qed.

(** A layout that succeeded. *)
Lemma relay_laid records held (s s2 : S) items items' blocks :
  Forall good records ->
  relay sb d ag_start (rc_shape T) agno before rc_encode rc_keys records held s items = (s2, items', Ok blocks) ->
  NoDup blocks -> Forall (in_group sb) blocks ->
  exists new, items' = items ++ new /\ laid sb d ag_start agno records blocks new.
Proof.
  intros Hgood HR Hnd Hin. unfold relay in HR. destruct (plan _ _ _ _) as [levels| |] eqn:Hplan; [|done..].
  destruct (grow _ _ _) as [s1 [grown| |]] eqn:Hgrow; [|done..].
  destruct (shrink _ _ _) as [s3 [bs| |]] eqn:Hshrink; [|done..].
  pose proof (grow_shrink_length _ _ _ _ _ _ _ Hgrow Hshrink) as Hlen.
  assert (bs = blocks) as ->.
  { destruct (build _ _ _ _ _ _ _); [|done..]. by destruct (log_built _ _ _ _ _ _ _) as [? [[]| |]]; simplify_eq. }
  destruct (build_logged records blocks levels items Hgood Hplan Hlen Hnd Hin) as (out & Hb & Hlog).
  rewrite Hb in HR. destruct (log_built _ _ _ _ _ _ _) as [it [[]| |]]; simplify_eq. done.
Qed.
End relaid.

(** C5: laying a tree out again: with the blocks the source supplies or takes back,
    the layout succeeds, and what it logs, replayed over the blocks as they
    were, is a tree that reads back exactly the records, over exactly the
    blocks, from the last of them; nothing outside those blocks is logged.
    Whether the tree grew, shrank or kept its size, and whatever record format
    it has. *)
Theorem relay_replays `{Crc : Crc32c, !Crc32cLaws} {T} `{codec : RecordCodec T} (good : T -> Prop)
    `{!RecordCodecLaws T good} {D} {dev : BlockDevice D} {dlaws : BlockDeviceLaws D} {S} {src : BlockSource S}
    sb (d : D) ag_start agno before records held (s s1 s2 : S) items levels grown blocks :
  sb_typed sb -> sb_geometry sb -> shape_typed sb (rc_shape T) -> in_u 32 agno ->
  (agno + 1) * sb_agblocks sb * sb_blocksize sb < 2 ^ 64 ->
  as_read sb d ag_start before -> Forall good records ->
  plan (rc_shape T) (sb_blocksize sb) (is_v5 sb) (length records) = Ok levels ->
  grow (sum_list levels - length held) s held = (s1, Ok grown) ->
  shrink (length grown - sum_list levels) s1 grown = (s2, Ok blocks) ->
  NoDup blocks -> Forall (in_group sb) blocks ->
  (forall b, b ∈ blocks -> exists raw, read_block sb d ag_start b = Ok raw) ->
  exists new,
    relay sb d ag_start (rc_shape T) agno before rc_encode rc_keys records held s items =
      (s2, items ++ new, Ok blocks) /\
    walk_blocks sb (rc_shape T) agno
      (fun b => raw ← read_block sb d ag_start b; replayed new (expected_blkno sb agno b) raw)
      rc_decode (root_of blocks) (Z.of_nat (length levels)) = Ok (records, blocks) /\
    forall blk, blk ∉ expected_blkno sb agno <$> blocks -> find (fun it => blkno it =? blk) new = None.
Proof.
  intros Hty Hgeo Hsh Hag Hfit Hread Hgood Hplan Hgrow Hshrink Hnd Hin Hok.
  pose proof (grow_shrink_length _ _ _ _ _ _ _ Hgrow Hshrink) as Hlen.
  destruct (build_logged good sb d ag_start agno before Hty Hgeo Hsh Hag Hfit Hread records blocks levels items
    Hgood Hplan Hlen Hnd Hin) as (out & Hb & Hlog).
  unfold relay. rewrite Hplan, Hgrow, Hshrink, Hb.
  destruct (log_built sb d ag_start agno before out items) as [items' [[]|e|]]; [| |done].
  - destruct Hlog as (new & -> & (levels' & Hp & _ & Hwalk) & Hout). exists new. split; [done|]. split; [|done].
    assert (levels' = levels) as -> by congruence. apply Hwalk. intros b Hb'.
    destruct (Hok b Hb') as [raw Hraw]. exists raw. by rewrite Hraw.
  - exfalso. destruct Hlog as (b & Hb' & He). destruct (Hok b Hb') as [raw Hraw]. congruence.
Qed.

(** ** A free-space tree that outgrows its block *)

Definition relay_device : MemDevice := mkMem (replicate 53000 x11).
Definition relay_records : list FreeExtent := (fun i => mkFree (110 + 4 * i) 2) <$> seqZ 0 60.
#[local] Instance relay_source : BlockSource Agfl := free_list_source sample_sb 0.

(** The free list with two blocks taken from it. *)
Definition relay_list : Agfl := (grow 2 sample_fl [4]).1.

Lemma relay_records_good : Forall fe_typed relay_records.
Proof.
  apply Forall_fmap, Forall_forall. intros i Hi%elem_of_seqZ. split; cbn; unfold in_u; lia.
Qed.

Lemma relay_replays_witness :
  exists new,
    relay sample_sb relay_device 0 (order_shape ByBlock) 0 ∅ encode_free_extent free_extent_keys
      relay_records [4] sample_fl [] = (relay_list, new, Ok [4; 100; 101]) /\
    walk_blocks sample_sb (order_shape ByBlock) 0
      (fun b => raw ← read_block sample_sb relay_device 0 b; replayed new (expected_blkno sample_sb 0 b) raw)
      decode_free_extent 101 2 = Ok (relay_records, [4; 100; 101]).
Proof.
  destruct (relay_replays (codec := alloc_codec ByBlock) fe_typed sample_sb relay_device 0 0 ∅ relay_records [4]
    sample_fl relay_list relay_list [] [2%nat; 1%nat] [4; 100; 101] [4; 100; 101]) as (new & E & W & _);
    [exact sample_typed|exact sample_geometry|apply order_shape_typed|unfold in_u; lia|cbn; lia|
     intros ? ?; by rewrite lookup_empty|exact relay_records_good|vm_compute; reflexivity|
     vm_compute; reflexivity|vm_compute; reflexivity| | | |].
  - repeat constructor; set_solver.
  - repeat constructor; cbn; lia.
  - intros b Hb. set_unfold. destruct Hb as [->|[->|[->|[]]]]; eexists; vm_compute; reflexivity.
  - exists new. split; [exact E|exact W].
Defined.
