(* ===== verification/GroupItems.v ===== *)
(** * Opening a group and logging what was done to it ([src/src/group_write.rs])

    [open] reads a group's header, free list and trees into a [GroupAlloc];
    [into_items] lays the trees out again, brings the header and the free list
    up to date and returns the buffer items of the record; [Allocations] keeps
    one open group for each group an operation touches. *)

From Stdlib Require Import ZArith Lia Strings.String Strings.Byte.
From stdpp Require Import base list gmap strings sets.
From S2P Require Import Prelude Error Endian Crc32c Superblock Sample Ag Agfl FreeSpace AgBtree AllocBtree Refcount Rmap Overlay BufWrite LogRecover GroupWrite Relay.

Section group.
Context `{Crc : Crc32c} (sb : Superblock) {D : Type} {dev : BlockDevice D} (d : D).

Definition read_sector (off : Z) : res bytes :=
  match dev_read d off (replicate (Z.to_nat (sb_sectsize sb)) x00) with
  | (raw, Ok _) => Ok raw
  | (_, Err e) => Err e
  | (_, Panic) => Panic
  end.

(** The blocks of the trees read again, as they were. *)
Fixpoint read_before (ag_start : Z) (blocks : list Z) (before : gmap Z bytes) : res (gmap Z bytes) :=
  match blocks with
  | [] => Ok before
  | agblock :: blocks =>
      raw ← read_block sb d ag_start agblock;
      read_before ag_start blocks (<[agblock := raw]> before)
  end.

(** The blocks of a tree the group may not have. *)
Definition held_blocks {A} (tree : option (list A * list Z)) : list Z :=
  match tree with None => [] | Some (_, blocks) => blocks end.

Definition open (agno : Z) : res GroupAlloc :=
  let ag_start := wmul 64 (wmul 64 agno (sb_agblocks sb)) (sb_blocksize sb) in
  agf_raw ← read_sector (wadd 64 ag_start (sb_sectsize sb));
  a ← Agf_parse agf_raw sb agno;
  agfl_raw ← read_sector (wadd 64 ag_start (wmul 64 (sb_sectsize sb) 3));
  fl ← Agfl.parse agfl_raw sb a agno;
  let read := read_block sb d ag_start in
  bno_root ← expect (agf_roots a !! agf_btree.BNO);
  bno_level ← expect (agf_levels a !! agf_btree.BNO);
  '(by_block, bno_blocks) ← walk_blocks sb (order_shape ByBlock) agno read decode_free_extent bno_root bno_level;
  FreeSpace.check_records sb agno (agf_length a) by_block;;
  cnt_root ← expect (agf_roots a !! agf_btree.CNT);
  cnt_level ← expect (agf_levels a !! agf_btree.CNT);
  '(by_length, cnt_blocks) ← walk_blocks sb (order_shape ByCount) agno read decode_free_extent cnt_root cnt_level;
  same_free_space agno by_block by_length;;
  rmap_root ← expect (agf_roots a !! agf_btree.RMAP);
  rmap_level ← expect (agf_levels a !! agf_btree.RMAP);
  rmap ← (if has_rmapbt sb && (0 <? rmap_level)
          then Some <$> walk_blocks sb Rmap.shape agno read Rmap.decode rmap_root rmap_level
          else Ok None);
  refcount ← (if has_reflink sb && (0 <? agf_refcount_level a)
              then '(records, blocks) ← walk_blocks sb Refcount.shape agno read Refcount.decode
                     (agf_refcount_root a) (agf_refcount_level a);
                   Refcount.check_records sb agno (agf_length a) records;;
                   Ok (Some (records, blocks))
              else Ok None);
  before ← read_before ag_start (bno_blocks ++ cnt_blocks ++ held_blocks rmap ++ held_blocks refcount) ∅;
  Ok (mkGroup agno ag_start agf_raw before bno_blocks cnt_blocks by_block by_block rmap fl agfl_raw refcount false).

(** The order of the by-length tree: [(e.blockcount, e.startblock)]. *)
Definition by_count_leb (x y : FreeExtent) : bool :=
  (blockcount x <? blockcount y) || ((blockcount x =? blockcount y) && (startblock x <=? startblock y)).

(** [GroupAlloc::relay]: the shared layout, with the group's free list as the
    source of blocks. *)
Definition relay_group {T} (shape : Shape) (encode_record : bytes -> nat -> T -> res bytes)
    (write_keys : bytes -> nat -> list T -> res bytes) (g : GroupAlloc)
    (records : list T) (held : list Z) (items : list BufferItem) : res (GroupAlloc * list BufferItem * list Z) :=
  match relay (src := free_list_source sb (ga_agno g)) sb d (ga_ag_start g) shape (ga_agno g) (ga_before g)
          encode_record write_keys records held (ga_agfl g) items with
  | (fl, items, Ok blocks) => Ok (with_agfl g fl, items, blocks)
  | (_, _, Err e) => Err e
  | (_, _, Panic) => Panic
  end.

(** The depth of the tree just laid out, from a plan that must cover its blocks. *)
Definition level_of (blocks : list Z) (shape : Shape) (records : nat) : res Z :=
  levels ← plan shape (sb_blocksize sb) (is_v5 sb) records;
  fail_if (negb (sum_list levels =? length blocks)%nat)
    (Internal (fmt "a re-derived plan covers {} blocks but the tree was laid out over {}"
       [AZ (Z.of_nat (sum_list levels)); AZ (Z.of_nat (length blocks))]));;
  Ok (wrap 32 (Z.of_nat (length levels))).

Definition root_block (blocks : list Z) : res Z := expect (list.last blocks).
Definition put32 (buf : bytes) (pos : nat) (v : Z) : res bytes := copy_at pos (to_be_bytes 4 v) buf.

(** The header of the group as the trees and the free list came out. *)
Definition new_agf (g : GroupAlloc) (by_block : list FreeExtent) (bno_blocks cnt_blocks : list Z)
    (rmap_blocks : list Z) (rmap_records : nat) (refcount_blocks : list Z) (refcount_records : nat)
    (by_count_len : nat) : res bytes :=
  let agno := ga_agno g in
  freeblks ← (if total_free by_block <=? umax 32 then Ok (total_free by_block)
              else Err (corrupt "allocation group {} has more free blocks than fit" [AZ agno]));
  agf ← put32 (ga_agf_raw g) agf.FREEBLKS freeblks;
  agf ← put32 agf agf.LONGEST (longest by_block);
  bno_level ← level_of bno_blocks (order_shape ByBlock) (length by_block);
  cnt_level ← level_of cnt_blocks (order_shape ByCount) by_count_len;
  bno_root ← root_block bno_blocks;
  agf ← put32 agf (agf.ROOTS + agf_btree.BNO * 4) bno_root;
  cnt_root ← root_block cnt_blocks;
  agf ← put32 agf (agf.ROOTS + agf_btree.CNT * 4) cnt_root;
  agf ← put32 agf (agf.LEVELS + agf_btree.BNO * 4) bno_level;
  agf ← put32 agf (agf.LEVELS + agf_btree.CNT * 4) cnt_level;
  let btreeblks := (usize_sub (length bno_blocks) 1 + usize_sub (length cnt_blocks) 1)%nat in
  '(agf, btreeblks) ←
    (match rmap_blocks with
     | [] => Ok (agf, btreeblks)
     | _ =>
         root ← root_block rmap_blocks;
         agf ← put32 agf (agf.ROOTS + agf_btree.RMAP * 4) root;
         level ← level_of rmap_blocks Rmap.shape rmap_records;
         agf ← put32 agf (agf.LEVELS + agf_btree.RMAP * 4) level;
         agf ← put32 agf agf.RMAP_BLOCKS (wrap 32 (Z.of_nat (length rmap_blocks)));
         Ok (agf, (btreeblks + usize_sub (length rmap_blocks) 1)%nat)
     end);
  agf ←
    (match refcount_blocks with
     | [] => Ok agf
     | _ =>
         root ← root_block refcount_blocks;
         agf ← put32 agf agf.REFCOUNT_ROOT root;
         level ← level_of refcount_blocks Refcount.shape refcount_records;
         agf ← put32 agf agf.REFCOUNT_LEVEL level;
         put32 agf agf.REFCOUNT_BLOCKS (wrap 32 (Z.of_nat (length refcount_blocks)))
     end);
  btreeblks ← (if Z.of_nat btreeblks <=? umax 32 then Ok (Z.of_nat btreeblks)
               else Err (corrupt "allocation group {}'s trees hold more blocks than fit" [AZ agno]));
  agf ← put32 agf agf.BTREEBLKS btreeblks;
  agf ← put32 agf agf.FLFIRST (fl_first (ga_agfl g));
  agf ← put32 agf agf.FLLAST (fl_last (ga_agfl g));
  put32 agf agf.FLCOUNT (fl_count (ga_agfl g)).

(** A tree the group may not have, laid out again. *)
Definition relay_opt {T} (shape : Shape) (encode_record : bytes -> nat -> T -> res bytes)
    (write_keys : bytes -> nat -> list T -> res bytes) (tree : option (list T * list Z)) (g : GroupAlloc)
    (items : list BufferItem) : res (GroupAlloc * list BufferItem * (list Z * nat)) :=
  match tree with
  | None => Ok (g, items, ([], 0%nat))
  | Some (records, held) =>
      '(g, items, blocks) ← relay_group shape encode_record write_keys g records held items;
      Ok (g, items, (blocks, length records))
  end.

Definition into_items (g : GroupAlloc) : res (list BufferItem) :=
  if negb (ga_took g) then Ok [] else
  match refill_free_list sb g with
  | (g, Ok _) =>
      let by_block := ga_by_block g in
      let by_count := sort_by by_count_leb by_block in
      '(g, items, bno_blocks) ← relay_group (order_shape ByBlock) encode_free_extent free_extent_keys
         g by_block (ga_bno_blocks g) [];
      '(g, items, cnt_blocks) ← relay_group (order_shape ByCount) encode_free_extent free_extent_keys
         g by_count (ga_cnt_blocks g) items;
      '(g, items, (rmap_blocks, rmap_records)) ← relay_opt Rmap.shape Rmap.encode Rmap.write_keys
         (ga_rmap g) g items;
      '(g, items, (refcount_blocks, refcount_records)) ← relay_opt Refcount.shape Refcount.encode refcount_keys
         (ga_refcount g) g items;
      agf ← new_agf g by_block bno_blocks cnt_blocks rmap_blocks rmap_records refcount_blocks refcount_records
              (length by_count);
      let ag_bb := ga_ag_start g / FreeSpace.BBSIZE in
      agf_item ← changed_chunks (wadd 64 ag_bb (sb_sectsize sb / FreeSpace.BBSIZE)) (ga_agf_raw g) agf BLFT_AGF;
      fl ← after (ga_agfl g) sb;
      if bool_decide (fl = ga_agfl_raw g) then Ok (agf_item :: items)
      else
        agfl_item ← changed_chunks (wadd 64 ag_bb (wmul 64 (sb_sectsize sb) 3 / FreeSpace.BBSIZE)) (ga_agfl_raw g) fl BLFT_AGFL;
        Ok (agf_item :: items ++ [agfl_item])
  | (_, Err e) => Err e
  | (_, Panic) => Panic
  end.

(** ** The groups of one operation *)

(** [Allocations::group]: the groups with [agno] open, and its index. *)
Definition group (groups : list GroupAlloc) (agno : Z) : list GroupAlloc * res nat :=
  match position (fun g => ga_agno g =? agno) groups with
  | Some i => (groups, Ok i)
  | None =>
      match open agno with
      | Ok g => (groups ++ [g], Ok (length groups))
      | Err e => (groups, Err e)
      | Panic => (groups, Panic)
      end
  end.

Fixpoint items_of_groups (groups : list GroupAlloc) : res (list BufferItem) :=
  match groups with
  | [] => Ok []
  | g :: groups => here ← into_items g; rest ← items_of_groups groups; Ok (here ++ rest)
  end.
Definition allocations_into_items (groups : list GroupAlloc) : res (list BufferItem) :=
  items_of_groups (sort_by (fun a b => ga_agno a <=? ga_agno b) groups).
End group.

(** ** Every block stays in one place: a tree or the free list *)

Section conservation.
Context (sb : Superblock) (agno : Z) (Hty : sb_typed sb) (Hgeo : sb_geometry sb).
#[local] Instance conservation_source : BlockSource Agfl := free_list_source sb agno.

Lemma grow_conserves n : forall fl bs fl' out,
  fl_ok sb fl -> grow n fl bs = (fl', Ok out) ->
  fl_ok sb fl' /\ out ++ entries_of sb fl' ≡ₚ bs ++ entries_of sb fl.
Proof.
  induction n as [|n IH]; intros fl bs fl' out Hok H; cbn in H; [by injection H as <- <-|].
  pose proof (take_queue sb Hty Hgeo fl agno Hok) as Hq.
  destruct (entries_of sb fl) as [|b rest]; [destruct Hq as [e Hq]; by rewrite Hq in H|].
  destruct Hq as [(_ & fl1 & Hq & Hok1 & He & _)|(_ & e & Hq)]; rewrite Hq in H; [|done].
  apply IH in H as [? Hp]; [|done]. split; [done|]. by rewrite Hp, He, <- app_assoc.
Qed.

Lemma shrink_conserves n : forall fl bs fl' out,
  fl_ok sb fl -> Forall (in_u 32) bs -> shrink n fl bs = (fl', Ok out) ->
  fl_ok sb fl' /\ out ++ entries_of sb fl' ≡ₚ bs ++ entries_of sb fl.
Proof.
  induction n as [|n IH]; intros fl bs fl' out Hok Hu H; cbn in H; [by injection H as <- <-|].
  destruct bs as [|b bs _] using rev_ind; [done|]. rewrite last_snoc, removelast_last in H.
  rewrite Forall_app, Forall_singleton in Hu. destruct Hu as [Hu Hb].
  destruct (put_queue sb Hty Hgeo fl agno b Hok Hb) as [(_ & e & Hq)|(_ & fl1 & Hq & Hok1 & He & _)];
    rewrite Hq in H; [done|].
  apply IH in H as [? Hp]; [|done..]. split; [done|]. rewrite Hp, He, <- app_assoc.
  apply Permutation_app_head. by rewrite Permutation_app_comm.
Qed.
End conservation.

Section conserved.
Context `{Crc : Crc32c} (sb : Superblock) (agno : Z) (Hty : sb_typed sb) (Hgeo : sb_geometry sb).
Context {D : Type} {dev : BlockDevice D} (d : D).

Lemma relay_conserves {T} shape (enc : bytes -> nat -> T -> res bytes) keys ag_start before records held fl items
    fl' items' blocks :
  fl_ok sb fl -> Forall (in_u 32) (held ++ entries_of sb fl) ->
  relay (src := free_list_source sb agno) sb d ag_start shape agno before enc keys records held fl items
    = (fl', items', Ok blocks) ->
  fl_ok sb fl' /\ blocks ++ entries_of sb fl' ≡ₚ held ++ entries_of sb fl.
Proof.
  intros Hok Hu H. unfold relay in H. destruct (plan _ _ _ _); [|done..].
  destruct (grow _ _ _) as [s1 [grown| |]] eqn:Hg; [|done..].
  destruct (shrink _ _ _) as [s2 [bs| |]] eqn:Hs; [|done..].
  apply (grow_conserves sb agno Hty Hgeo) in Hg as [Hok1 Hp1]; [|done].
  apply (shrink_conserves sb agno Hty Hgeo) in Hs as [Hok2 Hp2]; [|done|].
  2: { rewrite <- Hp1 in Hu. by apply Forall_app in Hu as [? _]. }
  destruct (build _ _ _ _ _ _ _); [|done..]. destruct (log_built _ _ _ _ _ _ _) as [? [[]| |]]; simplify_eq.
  split; [done|]. by rewrite Hp2.
Qed.
End conserved.

(** ** What the items replay to *)

(** Lists of blocks equal up to order, by counting. *)
Ltac solve_perm :=
  apply (Permutation_count_occ Z.eq_dec); let x := fresh "x" in intros x;
  repeat match goal with
  | H : @Permutation Z _ _ |- _ =>
      pose proof (proj1 (Permutation_count_occ Z.eq_dec _ _) H x); clear H
  end;
  rewrite ?count_occ_app in *; lia.

Section committed.
Context `{Crc : Crc32c, !Crc32cLaws} (sb : Superblock) {D : Type} {dev : BlockDevice D} {dlaws : BlockDeviceLaws D} (d : D).
Context (Hty : sb_typed sb) (Hgeo : sb_geometry sb).

(** A block of the group past its headers. *)
Definition past_header (b : Z) : Prop := 3 * sb_sectsize sb / sb_blocksize sb < b < sb_agblocks sb.

Lemma past_in_group b : past_header b -> in_group sb b.
Proof.
  intros [Hb ?]. unfold in_group.
  pose proof (Z.div_pos (3 * sb_sectsize sb) (sb_blocksize sb)). destruct Hgeo as [[? Hb1] [? Hs1] _ _ _ _ _ _ _ _ _ _].
  pose proof (pow2_pos (sb_blocklog sb) ltac:(lia)). pose proof (pow2_pos (sb_sectlog sb) ltac:(lia)). lia.
Qed.
Lemma past_header_in_group l : Forall past_header l -> Forall (in_group sb) l.
Proof. intros HF. eapply Forall_impl; [exact HF|]. apply past_in_group. Qed.

Definition tree_blocks (g : GroupAlloc) : list Z :=
  ga_bno_blocks g ++ ga_cnt_blocks g ++ held_blocks (ga_rmap g) ++ held_blocks (ga_refcount g).

(** The group is below 2{^64} bytes, and its images are the device's. *)
Record group_at (g : GroupAlloc) : Prop := {
  ga_in : in_u 32 (ga_agno g);
  ga_fit : (ga_agno g + 1) * sb_agblocks sb * sb_blocksize sb < 2 ^ 64;
  ga_place : ga_ag_start g = ga_agno g * sb_agblocks sb * sb_blocksize sb;
  ga_read : as_read sb d (ga_ag_start g) (ga_before g);
}.

(** A group as [open] and the edits leave it: its trees and its free list hold distinct blocks past the headers, none of
    them free, and its records can be written. *)
Record group_held (g : GroupAlloc) : Prop := {
  gh_at : group_at g;
  gh_fl : fl_ok sb (ga_agfl g);
  gh_nodup : NoDup (tree_blocks g ++ entries_of sb (ga_agfl g));
  gh_past : Forall past_header (tree_blocks g ++ entries_of sb (ga_agfl g));
  gh_unfree b : b ∈ tree_blocks g ++ entries_of sb (ga_agfl g) -> ~ is_free (ga_by_block g) b;
  gh_refcounts records blocks : ga_refcount g = Some (records, blocks) -> Forall r_encodable records;
  gh_v5 : is_v5 sb = true;
  gh_agf : length (ga_agf_raw g) = Z.to_nat (sb_sectsize sb);
  gh_agfl : length (ga_agfl_raw g) = Z.to_nat (sb_sectsize sb);
}.

Lemma relay_group_spec {T} `{codec : RecordCodec T} (good : T -> Prop) `{!RecordCodecLaws T good}
    g records held items g' items' blocks rest all :
  group_at g -> fl_ok sb (ga_agfl g) -> shape_typed sb (rc_shape T) -> Forall good records ->
  NoDup all -> Forall past_header all -> held ++ rest ++ entries_of sb (ga_agfl g) ≡ₚ all ->
  relay_group sb d (rc_shape T) rc_encode rc_keys g records held items = Ok (g', items', blocks) ->
  exists fl' new, g' = with_agfl g fl' /\ fl_ok sb fl' /\ items' = items ++ new /\
    blocks ++ rest ++ entries_of sb fl' ≡ₚ all /\
    laid sb d (ga_ag_start g) (ga_agno g) records blocks new.
Proof.
  intros Hg Hfl Hsh Hgood Hnd Hpast Hperm HR. unfold relay_group in HR.
  destruct (relay _ _ _ _ _ _ _ _ _ _ _ _) as [[fl' it] [bs|e|]] eqn:E; [|done..]. injection HR as <- <- <-.
  assert (Hu : Forall (in_u 32) (held ++ entries_of sb (ga_agfl g))).
  { apply (in_group_u32 sb Hty), past_header_in_group. rewrite <- Hperm in Hpast.
    rewrite !Forall_app in *. tauto. }
  destruct (relay_conserves sb (ga_agno g) Hty Hgeo d _ _ _ _ _ _ _ _ _ _ _ _ Hfl Hu E) as [Hfl' Hp].
  assert (Hall : bs ++ rest ++ entries_of sb fl' ≡ₚ all) by solve_perm.
  assert (NoDup bs /\ Forall (in_group sb) bs) as [Hndb Hin].
  { rewrite <- Hall in Hnd, Hpast. apply NoDup_app in Hnd as [? _]. split; [done|].
    apply past_header_in_group. rewrite Forall_app in Hpast. tauto. }
  destruct (relay_laid (src := free_list_source sb (ga_agno g)) good sb d (ga_ag_start g) (ga_agno g) (ga_before g)
    Hty Hgeo Hsh (ga_in g Hg) (ga_fit g Hg) (ga_read g Hg) records held _ _ items it bs Hgood E Hndb Hin)
    as (new & -> & Hlaid).
  by exists fl', new.
Qed.

Lemma relay_opt_spec {T} `{codec : RecordCodec T} (good : T -> Prop) `{!RecordCodecLaws T good}
    g tree items g' items' blocks n rest all :
  group_at g -> fl_ok sb (ga_agfl g) -> shape_typed sb (rc_shape T) ->
  (forall records held, tree = Some (records, held) -> Forall good records) ->
  NoDup all -> Forall past_header all -> held_blocks tree ++ rest ++ entries_of sb (ga_agfl g) ≡ₚ all ->
  relay_opt sb d (rc_shape T) rc_encode rc_keys tree g items = Ok (g', items', (blocks, n)) ->
  exists fl' new, g' = with_agfl g fl' /\ fl_ok sb fl' /\ items' = items ++ new /\
    blocks ++ rest ++ entries_of sb fl' ≡ₚ all /\
    match tree with
    | None => blocks = [] /\ new = []
    | Some (records, _) => n = length records /\ laid sb d (ga_ag_start g) (ga_agno g) records blocks new
    end.
Proof.
  intros Hg Hfl Hsh Hgood Hnd Hpast Hperm HR. unfold relay_opt in HR. destruct tree as [[records held]|].
  - apply bind_Ok in HR as ([[g1 it] bs] & HR & [= -> -> -> <-]).
    destruct (relay_group_spec good g records held items g' items' blocks rest all Hg Hfl Hsh
      (Hgood _ _ eq_refl) Hnd Hpast Hperm HR) as (fl' & new & ? & ? & ? & ? & ?).
    by exists fl', new.
  - injection HR as <- <- <- <-. exists (ga_agfl g), []. rewrite app_nil_r. by destruct g.
Qed.

(** *** Fields of the header *)

Lemma put32_length buf pos v buf' : put32 buf pos v = Ok buf' -> length buf' = length buf.
Proof. apply copy_at_length. Qed.

Lemma put32_same buf pos v buf' : put32 buf pos v = Ok buf' -> in_u 32 v -> be32 buf' pos = Ok v.
Proof.
  unfold put32. intros [Hl ->]%copy_at_inv Hv. rewrite length_to_be_bytes in Hl.
  rewrite be32_Ok by (rewrite length_splice; rewrite ?length_to_be_bytes; lia).
  by rewrite rd_splice_same.
Qed.

Lemma put32_other buf pos v buf' pos' :
  put32 buf pos v = Ok buf' -> (pos' + 4 <= pos \/ pos + 4 <= pos')%nat -> be32 buf' pos' = be32 buf pos'.
Proof.
  unfold put32. intros [Hl ->]%copy_at_inv Hd. rewrite length_to_be_bytes in Hl.
  unfold be32, get_slice. rewrite length_splice by (rewrite length_to_be_bytes; lia).
  rewrite slice_splice_disjoint by (rewrite ?length_to_be_bytes; lia). done.
Qed.

(** Read a field through the writes that came after its own. *)
Ltac header_lia :=
  unfold agf.ROOTS, agf.LEVELS, agf.FLFIRST, agf.FLLAST, agf.FLCOUNT, agf.FREEBLKS, agf.LONGEST, agf.BTREEBLKS,
    agf.RMAP_BLOCKS, agf.REFCOUNT_BLOCKS, agf.REFCOUNT_ROOT, agf.REFCOUNT_LEVEL,
    agf_btree.BNO, agf_btree.CNT, agf_btree.RMAP; lia.
Ltac header_field :=
  repeat match goal with
  | H : put32 _ _ _ = Ok ?b |- be32 ?b _ = Ok _ =>
      first [ apply (put32_same _ _ _ _ H); assumption
            | rewrite (put32_other _ _ _ _ _ H) by header_lia ]
  end.

Lemma level_of_Ok blocks shape n lvl :
  level_of sb blocks shape n = Ok lvl ->
  exists levels, plan shape (sb_blocksize sb) (is_v5 sb) n = Ok levels /\ lvl = Z.of_nat (length levels) /\
    in_u 32 lvl.
Proof.
  unfold level_of. intros (levels & Hp & HR)%bind_Ok. apply bind_Ok in HR as (_ & _ & [= <-]).
  pose proof (plan_spec sb shape n) as Hs. rewrite Hp in Hs. destruct Hs as (above & _ & _ & Hd & _).
  unfold MAX_LEVELS in Hd. exists levels. rewrite wrap_small by (unfold in_u; lia).
  split; [done|]. split; [done|]. unfold in_u. lia.
Qed.

Lemma root_block_Ok blocks root : root_block blocks = Ok root -> root = root_of blocks /\ root ∈ blocks.
Proof.
  unfold root_block, root_of. intros HR%expect_Ok. rewrite HR. split; [done|].
  apply last_Some in HR as [l ->]. set_solver.
Qed.

Ltac header_inv :=
  repeat match goal with
  | H : mbind _ _ = Ok _ |- _ => apply bind_Ok in H; destruct H as (? & ? & H)
  | H : level_of _ _ _ _ = Ok _ |- _ => apply level_of_Ok in H; destruct H as (? & ? & -> & ?)
  | H : root_block _ = Ok _ |- _ => apply root_block_Ok in H; destruct H as [-> ?]
  | H : Ok _ = Ok _ |- _ => injection H; clear H; intros; subst
  | H : Err _ = Ok _ |- _ => discriminate H
  end.

(** The tree of [n] records over [blocks] that fields [roff] and [loff] name. *)
Definition names_tree (agf : bytes) (roff loff : nat) (shape : Shape) (n : nat) (blocks : list Z) : Prop :=
  exists levels, plan shape (sb_blocksize sb) (is_v5 sb) n = Ok levels /\
    be32 agf roff = Ok (root_of blocks) /\ be32 agf loff = Ok (Z.of_nat (length levels)).

Ltac header_tree :=
  match goal with
  | H : plan ?s _ _ ?n = Ok ?l |- names_tree _ _ _ ?s ?n _ => exists l; split; [exact H|split; header_field]
  end.

Lemma new_agf_spec g by_block bno cnt rm rmn rc rcn agf :
  new_agf sb g by_block bno cnt rm rmn rc rcn (length by_block) = Ok agf ->
  Forall (in_u 32) (bno ++ cnt ++ rm ++ rc) -> 0 <= total_free by_block -> in_u 32 (longest by_block) ->
  in_u 32 (fl_first (ga_agfl g)) -> in_u 32 (fl_count (ga_agfl g)) ->
  length agf = length (ga_agf_raw g) /\
  be32 agf agf.FREEBLKS = Ok (total_free by_block) /\ be32 agf agf.LONGEST = Ok (longest by_block) /\
  be32 agf agf.FLFIRST = Ok (fl_first (ga_agfl g)) /\ be32 agf agf.FLCOUNT = Ok (fl_count (ga_agfl g)) /\
  names_tree agf agf.ROOTS agf.LEVELS (order_shape ByBlock) (length by_block) bno /\
  names_tree agf (agf.ROOTS + 4) (agf.LEVELS + 4) (order_shape ByCount) (length by_block) cnt /\
  (rm <> [] -> names_tree agf (agf.ROOTS + 8) (agf.LEVELS + 8) Rmap.shape rmn rm) /\
  (rc <> [] -> names_tree agf agf.REFCOUNT_ROOT agf.REFCOUNT_LEVEL Refcount.shape rcn rc).
Proof.
  intros HR Hu Htf Hlo Hff Hfc. rewrite !Forall_app, !Forall_forall in Hu. destruct Hu as (Hu1 & Hu2 & Hu3 & Hu4).
  unfold new_agf in HR.
  destruct (Z.leb_spec (total_free by_block) (umax 32)) as [Ht|]; cbn [mbind res_bind] in HR; [|done].
  assert (in_u 32 (total_free by_block)) by (unfold in_u, umax in *; lia).
  destruct rm as [|r0 rm], rc as [|c0 rc]; header_inv.
  all: repeat match goal with Hx : ?r ∈ ?l, Hy : forall b, b ∈ ?l -> in_u 32 b |- _ => apply Hy in Hx end.
  all: split; [repeat match goal with Hp : put32 _ _ _ = Ok _ |- _ => apply put32_length in Hp end; congruence|].
  all: do 4 (split; [header_field|]).
  all: split; [header_tree|]. all: split; [header_tree|].
  all: split; intros Hne; first [done|header_tree].
Qed.


(** *** Where the headers are *)

Definition agf_blkno (g : GroupAlloc) : Z :=
  wadd 64 (ga_ag_start g / FreeSpace.BBSIZE) (sb_sectsize sb / FreeSpace.BBSIZE).
Definition agfl_blkno (g : GroupAlloc) : Z :=
  wadd 64 (ga_ag_start g / FreeSpace.BBSIZE) (wmul 64 (sb_sectsize sb) 3 / FreeSpace.BBSIZE).

Lemma header_blknos g :
  group_at g ->
  agf_blkno g <> agfl_blkno g /\
  forall b, past_header b -> expected_blkno sb (ga_agno g) b <> agf_blkno g /\
    expected_blkno sb (ga_agno g) b <> agfl_blkno g.
Proof.
  intros Hg. pose proof (ga_fit g Hg) as Hfit. pose proof (ga_in g Hg) as Ha.
  pose proof (blocksize_bb sb Hgeo) as Hbb. pose proof Hgeo as [[Hl _] [Hs Hss] _ _ _ _ [Hab _] _ _ _ _ _].
  assert (Hss' : sb_sectsize sb = 2 ^ (sb_sectlog sb - 9) * 512).
  { rewrite Hss. change 512 with (2 ^ 9). rewrite <- Z.pow_add_r by lia. f_equal. lia. }
  pose proof (pow2_pos (sb_blocklog sb - 9) ltac:(lia)) as Hp. pose proof (pow2_pos (sb_sectlog sb - 9) ltac:(lia)) as Hq.
  assert (Hq' : 2 ^ (sb_sectlog sb - 9) <= 2 ^ 6) by (apply Z.pow_le_mono_r; lia).
  set (p := 2 ^ (sb_blocklog sb - 9)) in *. set (q := 2 ^ (sb_sectlog sb - 9)) in *.
  assert (Hbase : ga_ag_start g / FreeSpace.BBSIZE = ga_agno g * sb_agblocks sb * p).
  { rewrite (ga_place g Hg), Hbb, Z.mul_assoc. by apply Z.div_mul. }
  assert (Hsect : sb_sectsize sb / FreeSpace.BBSIZE = q) by (rewrite Hss'; by apply Z.div_mul).
  assert (Hsect3 : wmul 64 (sb_sectsize sb) 3 / FreeSpace.BBSIZE = 3 * q).
  { rewrite wmul_small by lia. rewrite Hss'. replace (q * 512 * 3) with (3 * q * 512) by lia. by apply Z.div_mul. }
  assert (0 <= ga_agno g * sb_agblocks sb * p) by (destruct Ha; nia).
  assert (ga_agno g * sb_agblocks sb * p < 2 ^ 55).
  { rewrite Hbb in Hfit. destruct Ha. assert (ga_agno g * sb_agblocks sb * p * 512 < 2 ^ 64) by nia. lia. }
  unfold agf_blkno, agfl_blkno. rewrite Hbase, Hsect, Hsect3, !wadd_small by lia. split; [lia|].
  intros b [Hb1 Hb2]. assert (Hb0 : 0 <= b).
  { pose proof (Z.div_pos (3 * sb_sectsize sb) (sb_blocksize sb) ltac:(lia) ltac:(lia)). lia. }
  rewrite expected_blkno_eq by (try done; lia). fold p.
  assert (3 * sb_sectsize sb < b * sb_blocksize sb).
  { pose proof (Z.mul_succ_div_gt (3 * sb_sectsize sb) (sb_blocksize sb) ltac:(lia)). nia. }
  assert (3 * q < b * p) by nia. lia.
Qed.

Lemma replayed_middle pre new post blk raw :
  find (fun it => blkno it =? blk) pre = None -> find (fun it => blkno it =? blk) post = None ->
  replayed (pre ++ new ++ post) blk raw = replayed new blk raw.
Proof.
  intros Hpre Hpost. unfold replayed. rewrite find_app_None by done.
  assert (Hn : find (fun it => blkno it =? blk) (new ++ post) = find (fun it => blkno it =? blk) new).
  { clear Hpre. induction new as [|x new IH]; cbn; [done|]. by destruct (blkno x =? blk). }
  by rewrite Hn.
Qed.

(** The tree the header [agf] names in fields [roff] and [loff], read through
    the items, holds [records] over [blocks]. *)
Definition tree_at {T} {codec : RecordCodec T} (g : GroupAlloc) (items : list BufferItem) (agf : bytes)
    (roff loff : nat) (records : list T) (blocks : list Z) : Prop :=
  exists root level, be32 agf roff = Ok root /\ be32 agf loff = Ok level /\
    walk_blocks sb (rc_shape T) (ga_agno g)
      (fun b => raw ← read_block sb d (ga_ag_start g) b; replayed items (expected_blkno sb (ga_agno g) b) raw)
      rc_decode root level = Ok (records, blocks).

Lemma laid_tree_at {T} {codec : RecordCodec T} g items agf roff loff (records : list T) blocks pre new post :
  laid sb d (ga_ag_start g) (ga_agno g) records blocks new -> items = pre ++ new ++ post ->
  names_tree agf roff loff (rc_shape T) (length records) blocks ->
  (forall b, b ∈ blocks -> exists raw, read_block sb d (ga_ag_start g) b = Ok raw) ->
  (forall b, b ∈ blocks -> find (fun it => blkno it =? expected_blkno sb (ga_agno g) b) pre = None /\
     find (fun it => blkno it =? expected_blkno sb (ga_agno g) b) post = None) ->
  tree_at g items agf roff loff records blocks.
Proof.
  intros [(levels & Hp & _ & Hw) _] -> (levels' & Hp' & Hr & Hl) Hread Hfind.
  assert (levels' = levels) as -> by congruence. exists (root_of blocks), (Z.of_nat (length levels)).
  split; [done|]. split; [done|]. apply Hw. intros b Hb. destruct (Hread b Hb) as [raw Eraw]. exists raw.
  split; [done|]. rewrite Eraw. cbn [mbind res_bind]. destruct (Hfind b Hb). by apply replayed_middle.
Qed.

Lemma laid_nonempty {T} {codec : RecordCodec T} ag_start agno (records : list T) blocks new :
  laid sb d ag_start agno records blocks new -> blocks <> [].
Proof.
  intros [(levels & Hp & Hl & _) _]. pose proof (plan_spec sb (rc_shape T) (length records)) as Hs.
  rewrite Hp in Hs. destruct Hs as (above & -> & _). destruct blocks; [|done]. cbn in Hl. lia.
Qed.

(** *** What refilling the free list leaves alone *)

Definition same_frame (g g' : GroupAlloc) : Prop :=
  ga_agno g' = ga_agno g /\ ga_ag_start g' = ga_ag_start g /\ ga_agf_raw g' = ga_agf_raw g /\
  ga_before g' = ga_before g /\ ga_bno_blocks g' = ga_bno_blocks g /\ ga_cnt_blocks g' = ga_cnt_blocks g /\
  ga_refcount g' = ga_refcount g /\ ga_agfl_raw g' = ga_agfl_raw g /\
  held_blocks (ga_rmap g') = held_blocks (ga_rmap g).

Lemma rmap_insert_frame g rec : same_frame g (rmap_insert g rec).1.
Proof.
  unfold rmap_insert. destruct (ga_rmap g) as [[r b]|] eqn:E; [|by unfold same_frame].
  destruct (Rmap.insert r rec). unfold same_frame. cbn. by rewrite E.
Qed.

Lemma refill_frame fuel : forall g need, same_frame g (refill_loop sb fuel g need).1.
Proof.
  induction fuel as [|fuel IH]; intros g need; cbn [refill_loop]; destruct (need <=? _); try by unfold same_frame.
  destruct (ga_by_block g) as [|run l] eqn:El; [by unfold same_frame|]. rewrite <- El.
  destruct (alloc_extent _ _) as [free [k|e|]]; try by unfold same_frame.
  destruct (Agfl.put _ _ _ _) as [fl [[]|e|]]; try by unfold same_frame.
  set (g1 := with_agfl (with_by_block g free) fl).
  pose proof (rmap_insert_frame g1 (mkRmap (startblock (mkFree (startblock run) 1)) 1 OWN_AG 0)) as F.
  destruct (rmap_insert g1 _) as [g2 [[]|e|]]; cbn [fst] in F; [|exact F..].
  specialize (IH g2 need). revert F IH. unfold same_frame. generalize (refill_loop sb fuel g2 need).1. cbn.
  intros g3 F1 F2. destruct_and!. split_and!; congruence.
Qed.

(** *** The whole commit *)

(** The free list once the refill put [bs] on it: still distinct blocks past
    the headers. *)
Lemma refilled_blocks lo hi g g1 bs :
  group_held g -> group_ok 0 lo hi g -> 3 * sb_sectsize sb / sb_blocksize sb < lo -> hi <= sb_agblocks sb ->
  refilled sb g g1 bs -> same_frame g g1 ->
  NoDup (tree_blocks g1 ++ entries_of sb (ga_agfl g1)) /\
  Forall past_header (tree_blocks g1 ++ entries_of sb (ga_agfl g1)).
Proof.
  intros Hg [Hf _] Hlo Hhi [Rl Rf _ Rn _] (_ & _ & _ & _ & E1 & E2 & E3 & _ & E4).
  assert (Ht : tree_blocks g1 = tree_blocks g) by (unfold tree_blocks; by rewrite E1, E2, E3, E4).
  rewrite Ht, Rl, app_assoc. split.
  - apply NoDup_app. split; [apply (gh_nodup g Hg)|]. split; [|done]. intros b Hb Hbs.
    apply (gh_unfree g Hg b Hb). apply Rf. by right.
  - apply Forall_app. split; [apply (gh_past g Hg)|]. apply Forall_forall. intros b Hb.
    assert (is_free (ga_by_block g) b) as (e & He & Hin) by (apply Rf; by right).
    apply (runs_elem 0 ltac:(lia) _ _ _ _ Hf) in He. unfold in_extent, past_header in *. lia.
Qed.

Lemma frame_held lo hi g g1 bs :
  group_held g -> group_ok 0 lo hi g -> 3 * sb_sectsize sb / sb_blocksize sb < lo -> hi <= sb_agblocks sb ->
  refilled sb g g1 bs -> same_frame g g1 -> fl_ok sb (ga_agfl g1) -> group_held g1.
Proof.
  intros Hg Hok Hlo Hhi Hr Hfr Hfl. destruct (refilled_blocks lo hi g g1 bs) as [Hnd Hpast]; try done.
  pose proof Hfr as (F1 & F2 & F3 & F4 & F5 & F6 & F7 & F8 & F9). destruct Hg as [[] ? ? ? ? ? ? ? ?], Hr as [Rl Rf Rt _ _].
  split; [split|..]; rewrite ?F1, ?F2, ?F3, ?F4, ?F7, ?F8; try done.
  intros b Hb. unfold tree_blocks in *. rewrite F5, F6, F7, F9, Rl, app_assoc in Hb.
  apply elem_of_app in Hb as [Hb|Hb]; [|by apply Rt]. intros C. apply (gh_unfree0 b Hb), Rf. by left.
Qed.

(** Replaying one logged header. *)
Lemma replayed_item blk before after ty item items raw :
  length before = length after -> (length after mod Overlay.BBSIZE = 0)%nat -> (0 < length after)%nat ->
  changed_chunks blk before after ty = Ok item -> raw = before ->
  replayed (item :: items) blk raw = Ok after.
Proof.
  intros Hl Hm Hp E ->. destruct (changed_chunks_spec blk before after ty Hl Hm Hp)
    as (item' & rs & E' & Hd & Hb & _ & Hr & Ha).
  assert (item' = item) as -> by congruence. unfold replayed. cbn [find].
  rewrite (proj2 (Z.eqb_eq _ _)) by done. rewrite Hr. cbn [mbind res_bind]. by rewrite Hd.
Qed.

Lemma runs_typed lo hi l : 0 <= lo -> hi < 2 ^ 32 -> FreeSpace.runs 0 lo hi l -> Forall fe_typed l.
Proof.
  intros Hlo Hhi Hr. apply Forall_forall. intros e He.
  apply (runs_elem 0 ltac:(lia) _ _ _ _ Hr) in He as (? & ? & ?). unfold fe_end in *.
  split; unfold in_u; lia.
Qed.

Definition opt_tree_at {T} {codec : RecordCodec T} (g : GroupAlloc) (items : list BufferItem) (agf : bytes)
    (roff loff : nat) (tree : option (list T * list Z)) (blocks : list Z) : Prop :=
  match tree with
  | None => blocks = []
  | Some (records, _) => tree_at g items agf roff loff records blocks
  end.

Lemma laid_other {T} {codec : RecordCodec T} g (records : list T) blocks new b :
  group_at g -> laid sb d (ga_ag_start g) (ga_agno g) records blocks new ->
  Forall past_header blocks -> past_header b -> b ∉ blocks ->
  find (fun it => blkno it =? expected_blkno sb (ga_agno g) b) new = None.
Proof.
  intros Hg [_ Hout] Hp Hb Hn. apply Hout. intros (x & Hx & Hxin)%list_elem_of_fmap. apply Hn.
  rewrite Forall_forall in Hp. destruct Hg.
  rewrite (expected_blkno_inj sb (ga_agno g) b x); try done; by apply past_in_group; auto.
Qed.

(** A header's address is in no tree's items. *)
Lemma laid_header {T} {codec : RecordCodec T} g (records : list T) blocks new blk :
  laid sb d (ga_ag_start g) (ga_agno g) records blocks new -> Forall past_header blocks ->
  (forall b, past_header b -> expected_blkno sb (ga_agno g) b <> blk) ->
  find (fun it => blkno it =? blk) new = None.
Proof.
  intros [_ Hout] Hp Hne. apply Hout. intros (x & Hx & Hxin)%list_elem_of_fmap.
  rewrite Forall_forall in Hp. by apply (Hne x (Hp x Hxin)).
Qed.

(** What the items of one tree log: its own blocks. *)
Definition logs_only (g : GroupAlloc) (blocks : list Z) (new : list BufferItem) : Prop :=
  (forall b, past_header b -> b ∉ blocks -> find (fun it => blkno it =? expected_blkno sb (ga_agno g) b) new = None) /\
  find (fun it => blkno it =? agf_blkno g) new = None /\ find (fun it => blkno it =? agfl_blkno g) new = None.

Lemma laid_logs_only {T} {codec : RecordCodec T} g (records : list T) blocks new :
  group_at g -> laid sb d (ga_ag_start g) (ga_agno g) records blocks new -> Forall past_header blocks ->
  logs_only g blocks new.
Proof.
  intros Hg Hl Hp. destruct (header_blknos g Hg) as [_ Hne].
  split; [intros; by apply (laid_other g records blocks)|].
  split; apply (laid_header g records blocks); try done; intros b Hb; by apply Hne.
Qed.

(** The four trees laid out one after another from one free list. *)
Record trees_laid (g : GroupAlloc) (fl' : Agfl) (bno cnt rm rc : list Z) (n1 n2 n3 n4 : list BufferItem) : Prop := {
  tl_fl : fl_ok sb fl';
  tl_blocks : bno ++ cnt ++ rm ++ rc ++ entries_of sb fl' ≡ₚ tree_blocks g ++ entries_of sb (ga_agfl g);
  tl_bno : laid (codec := alloc_codec ByBlock) sb d (ga_ag_start g) (ga_agno g) (ga_by_block g) bno n1;
  tl_cnt : laid (codec := alloc_codec ByCount) sb d (ga_ag_start g) (ga_agno g)
             (sort_by by_count_leb (ga_by_block g)) cnt n2;
  tl_rmap : match ga_rmap g with
    | None => rm = [] /\ n3 = []
    | Some (r, _) => laid sb d (ga_ag_start g) (ga_agno g) r rm n3
    end;
  tl_refc : match ga_refcount g with
    | None => rc = [] /\ n4 = []
    | Some (r, _) => laid sb d (ga_ag_start g) (ga_agno g) r rc n4
    end;
}.

Lemma relays_spec lo hi g g1 g2 g3 g4 i1 i2 i3 i4 bno cnt rm rmn rc rcn :
  group_held g -> group_ok 0 lo hi g -> 0 <= lo -> hi < 2 ^ 32 ->
  relay_group sb d (order_shape ByBlock) encode_free_extent free_extent_keys g (ga_by_block g) (ga_bno_blocks g) []
    = Ok (g1, i1, bno) ->
  relay_group sb d (order_shape ByCount) encode_free_extent free_extent_keys g1
    (sort_by by_count_leb (ga_by_block g)) (ga_cnt_blocks g1) i1 = Ok (g2, i2, cnt) ->
  relay_opt sb d Rmap.shape Rmap.encode Rmap.write_keys (ga_rmap g2) g2 i2 = Ok (g3, i3, (rm, rmn)) ->
  relay_opt sb d Refcount.shape Refcount.encode refcount_keys (ga_refcount g3) g3 i3 = Ok (g4, i4, (rc, rcn)) ->
  exists fl' n1 n2 n3 n4, g4 = with_agfl g fl' /\ i4 = n1 ++ n2 ++ n3 ++ n4 /\
    trees_laid g fl' bno cnt rm rc n1 n2 n3 n4 /\
    (forall r b, ga_rmap g = Some (r, b) -> rmn = length r) /\
    (forall r b, ga_refcount g = Some (r, b) -> rcn = length r).
Proof.
  intros Hg [Hf Hr] Hlo Hhi R1 R2 R3 R4. pose proof (runs_typed lo hi _ Hlo Hhi Hf) as Hfe.
  pose proof Hg as [Hat Hfl Hnd Hpast _ Hrc Hv5 _ _]. set (all := tree_blocks g ++ entries_of sb (ga_agfl g)) in *.
  assert (Hv4 : is_v5 sb = false -> False) by congruence.
  destruct (relay_group_spec (codec := alloc_codec ByBlock) fe_typed g (ga_by_block g) (ga_bno_blocks g) [] g1 i1 bno
    (ga_cnt_blocks g ++ held_blocks (ga_rmap g) ++ held_blocks (ga_refcount g)) all)
    as (fl1 & n1 & -> & Hfl1 & -> & P1 & L1); try done.
  { unfold all, tree_blocks. clear. solve_perm. }
  destruct (relay_group_spec (codec := alloc_codec ByCount) fe_typed (with_agfl g fl1)
    (sort_by by_count_leb (ga_by_block g)) (ga_cnt_blocks g) n1 g2 i2 cnt
    (bno ++ held_blocks (ga_rmap g) ++ held_blocks (ga_refcount g)) all)
    as (fl2 & n2 & -> & Hfl2 & -> & P2 & L2); try done.
  { by destruct Hat. } { by rewrite sort_by_Permutation. }
  { clear -P1. cbn [ga_agfl with_agfl]. solve_perm. }
  destruct (relay_opt_spec m_typed (with_agfl (with_agfl g fl1) fl2) (ga_rmap g) (n1 ++ n2) g3 i3 rm rmn
    (bno ++ cnt ++ held_blocks (ga_refcount g)) all)
    as (fl3 & n3 & -> & Hfl3 & -> & P3 & L3); try done.
  { by destruct Hat. } { intros r h E. by destruct (Hr r h E) as (? & _). }
  { clear -P2. cbn [ga_agfl with_agfl]. solve_perm. }
  destruct (relay_opt_spec r_encodable (with_agfl (with_agfl (with_agfl g fl1) fl2) fl3) (ga_refcount g)
    ((n1 ++ n2) ++ n3) g4 i4 rc rcn (bno ++ cnt ++ rm) all)
    as (fl4 & n4 & -> & Hfl4 & -> & P4 & L4); try done.
  { by destruct Hat. } { clear -P3. cbn [ga_agfl with_agfl]. solve_perm. }
  exists fl4, n1, n2, n3, n4. split; [done|]. split; [by rewrite <- !app_assoc|]. split; [|split].
  - split; try done.
    + clear -P4. fold all. solve_perm.
    + destruct (ga_rmap g) as [[r b]|]; [|done]. by destruct L3.
    + destruct (ga_refcount g) as [[r b]|]; [|done]. by destruct L4.
  - intros r b E. rewrite E in L3. by destruct L3.
  - intros r b E. rewrite E in L4. by destruct L4.
Qed.

Lemma find_app {A} (p : A -> bool) l1 l2 :
  find p (l1 ++ l2) = match find p l1 with Some x => Some x | None => find p l2 end.
Proof. induction l1 as [|x l1 IH]; cbn; [done|]. by destruct (p x). Qed.

Lemma find_none_app {A} (p : A -> bool) l1 l2 : find p l1 = None -> find p l2 = None -> find p (l1 ++ l2) = None.
Proof. intros. by rewrite find_app_None. Qed.

Section replay.
Context (g : GroupAlloc) (Hat : group_at g) (agf : bytes) (fl' : Agfl) (agf_item : BufferItem)
  (post : list BufferItem) (bno cnt rm rc : list Z) (n1 n2 n3 n4 : list BufferItem).
Context (Htl : trees_laid g fl' bno cnt rm rc n1 n2 n3 n4).
Context (Hnd : NoDup (bno ++ cnt ++ rm ++ rc)) (Hp : Forall past_header (bno ++ cnt ++ rm ++ rc)).
Context (Hagf : blkno agf_item = agf_blkno g) (Hpost : Forall (fun it => blkno it = agfl_blkno g) post).
Context (Hread : forall b, past_header b -> exists raw, read_block sb d (ga_ag_start g) b = Ok raw).

Lemma trees_logs_only :
  logs_only g bno n1 /\ logs_only g cnt n2 /\ logs_only g rm n3 /\ logs_only g rc n4.
Proof.
  rewrite !Forall_app in Hp. destruct Hp as (Hp1 & Hp2 & Hp3 & Hp4), Htl as [_ _ L1 L2 L3 L4].
  split; [exact (laid_logs_only g _ _ _ Hat L1 Hp1)|]. split; [exact (laid_logs_only g _ _ _ Hat L2 Hp2)|]. split.
  - destruct (ga_rmap g) as [[r b]|]; [exact (laid_logs_only g _ _ _ Hat L3 Hp3)|]. destruct L3 as [-> ->]. done.
  - destruct (ga_refcount g) as [[r b]|]; [exact (laid_logs_only g _ _ _ Hat L4 Hp4)|]. destruct L4 as [-> ->]. done.
Qed.

Lemma find_headers b : past_header b ->
  find (fun it => blkno it =? expected_blkno sb (ga_agno g) b) [agf_item] = None /\
  find (fun it => blkno it =? expected_blkno sb (ga_agno g) b) post = None.
Proof.
  intros Hb. destruct (header_blknos g Hat) as [_ Hne]. destruct (Hne b Hb) as [Hn1 Hn2]. split.
  - cbn. by rewrite (proj2 (Z.eqb_neq _ _)) by congruence.
  - revert Hpost. clear -Hn2. induction 1 as [|x l Hx _ IH]; cbn; [done|].
    by rewrite (proj2 (Z.eqb_neq _ _)) by congruence.
Qed.

(** The items before and after one tree's say nothing about its blocks. *)
Lemma tree_read {T} {codec : RecordCodec T} (records : list T) blocks pre new post' roff loff :
  laid sb d (ga_ag_start g) (ga_agno g) records blocks new ->
  (agf_item :: n1 ++ n2 ++ n3 ++ n4) ++ post = pre ++ new ++ post' ->
  names_tree agf roff loff (rc_shape T) (length records) blocks -> Forall past_header blocks ->
  (forall b, b ∈ blocks -> find (fun it => blkno it =? expected_blkno sb (ga_agno g) b) pre = None /\
     find (fun it => blkno it =? expected_blkno sb (ga_agno g) b) post' = None) ->
  tree_at g ((agf_item :: n1 ++ n2 ++ n3 ++ n4) ++ post) agf roff loff records blocks.
Proof.
  intros Hl Heq Hn Hpb Hf. rewrite Forall_forall in Hpb.
  apply (laid_tree_at g _ agf roff loff records blocks pre new post'); auto.
Qed.

Lemma trees_read :
  names_tree agf agf.ROOTS agf.LEVELS (order_shape ByBlock) (length (ga_by_block g)) bno ->
  names_tree agf (agf.ROOTS + 4) (agf.LEVELS + 4) (order_shape ByCount) (length (ga_by_block g)) cnt ->
  (rm <> [] -> forall r b, ga_rmap g = Some (r, b) ->
     names_tree agf (agf.ROOTS + 8) (agf.LEVELS + 8) Rmap.shape (length r) rm) ->
  (rc <> [] -> forall r b, ga_refcount g = Some (r, b) ->
     names_tree agf agf.REFCOUNT_ROOT agf.REFCOUNT_LEVEL Refcount.shape (length r) rc) ->
  let items := (agf_item :: n1 ++ n2 ++ n3 ++ n4) ++ post in
  tree_at (codec := alloc_codec ByBlock) g items agf agf.ROOTS agf.LEVELS (ga_by_block g) bno /\
  tree_at (codec := alloc_codec ByCount) g items agf (agf.ROOTS + 4) (agf.LEVELS + 4)
    (sort_by by_count_leb (ga_by_block g)) cnt /\
  opt_tree_at g items agf (agf.ROOTS + 8) (agf.LEVELS + 8) (ga_rmap g) rm /\
  opt_tree_at g items agf agf.REFCOUNT_ROOT agf.REFCOUNT_LEVEL (ga_refcount g) rc.
Proof.
  intros N1 N2 N3 N4 items. destruct trees_logs_only as ((O1 & _) & (O2 & _) & (O3 & _) & (O4 & _)).
  pose proof find_headers as Hh. pose proof Htl as [_ _ L1 L2 L3 L4]. pose proof Hp as Hpa.
  rewrite !Forall_app in Hpa. destruct Hpa as (Hp1 & Hp2 & Hp3 & Hp4).
  apply NoDup_app in Hnd as (_ & D1 & Hnd'). apply NoDup_app in Hnd' as (_ & D2 & Hnd').
  apply NoDup_app in Hnd' as (_ & D3 & _).
  assert (Hd : forall b, (b ∈ bno -> b ∉ cnt /\ b ∉ rm /\ b ∉ rc) /\ (b ∈ cnt -> b ∉ bno /\ b ∉ rm /\ b ∉ rc) /\
    (b ∈ rm -> b ∉ bno /\ b ∉ cnt /\ b ∉ rc) /\ (b ∈ rc -> b ∉ bno /\ b ∉ cnt /\ b ∉ rm)) by set_solver.
  pose proof (fun l (Hl : Forall past_header l) b => proj1 (Forall_forall _ _) Hl b) as Hpf.
  split_and!.
  - apply (tree_read (ga_by_block g) bno [agf_item] n1 ((n2 ++ n3 ++ n4) ++ post)); try exact L1; try exact L2; try exact L3; try exact L4; try assumption.
    { cbn [app]. rewrite <- !app_assoc. reflexivity. }
    intros b Hb. destruct (proj1 (Hd b) Hb) as (? & ? & ?). pose proof (Hpf _ Hp1 b Hb) as Hpb.
    destruct (Hh b Hpb). split; [done|]. repeat apply find_none_app; auto.
  - apply (tree_read (sort_by by_count_leb (ga_by_block g)) cnt (agf_item :: n1) n2 ((n3 ++ n4) ++ post)); try exact L1; try exact L2; try exact L3; try exact L4; try assumption.
    { cbn [app]. rewrite <- !app_assoc. reflexivity. } { by rewrite (Permutation_length (sort_by_Permutation by_count_leb _)). }
    intros b Hb. destruct (proj1 (proj2 (Hd b)) Hb) as (? & ? & ?). pose proof (Hpf _ Hp2 b Hb) as Hpb.
    destruct (Hh b Hpb). split; [apply (find_none_app _ [agf_item]); auto|]. repeat apply find_none_app; auto.
  - destruct (ga_rmap g) as [[r bl]|] eqn:Er; [|by destruct L3]. cbn.
    apply (tree_read r rm (agf_item :: n1 ++ n2) n3 (n4 ++ post)); try exact L1; try exact L2; try exact L3; try exact L4; try assumption.
    { cbn [app]. rewrite <- !app_assoc. reflexivity. } { exact (N3 (laid_nonempty _ _ _ _ _ L3) r bl eq_refl). }
    intros b Hb. destruct (proj1 (proj2 (proj2 (Hd b))) Hb) as (? & ? & ?). pose proof (Hpf _ Hp3 b Hb) as Hpb.
    destruct (Hh b Hpb). split; [apply (find_none_app _ [agf_item]); auto|]; repeat apply find_none_app; auto.
  - destruct (ga_refcount g) as [[r bl]|] eqn:Er; [|by destruct L4]. cbn.
    apply (tree_read r rc (agf_item :: n1 ++ n2 ++ n3) n4 post); try exact L1; try exact L2; try exact L3; try exact L4; try assumption.
    { cbn [app]. rewrite <- !app_assoc. reflexivity. } { exact (N4 (laid_nonempty _ _ _ _ _ L4) r bl eq_refl). }
    intros b Hb. destruct (proj2 (proj2 (proj2 (Hd b))) Hb) as (? & ? & ?). pose proof (Hpf _ Hp4 b Hb) as Hpb.
    destruct (Hh b Hpb). split; [apply (find_none_app _ [agf_item]); auto|done]; repeat apply find_none_app; auto.
Qed.
End replay.

Lemma sectsize_chunks :
  (Z.to_nat (sb_sectsize sb) mod Overlay.BBSIZE = 0)%nat /\ (0 < Z.to_nat (sb_sectsize sb))%nat.
Proof.
  destruct Hgeo as [_ [Hl ->] _ _ _ _ _ _ _ _ _ _].
  pose proof (pow2_pos (sb_sectlog sb) ltac:(lia)). split; [|lia].
  replace (sb_sectlog sb) with ((sb_sectlog sb - 9) + 9) by lia. rewrite Z.pow_add_r by lia.
  pose proof (pow2_pos (sb_sectlog sb - 9) ltac:(lia)).
  rewrite Z2Nat.inj_mul by lia. change (Z.to_nat (2 ^ 9)) with Overlay.BBSIZE. apply Nat.Div0.mod_mul.
Qed.

Lemma after_length fl out : fl_ok sb fl -> after fl sb = Ok out -> length out = Z.to_nat (sb_sectsize sb).
Proof.
  intros Hok HR. rewrite <- (ok_raw sb fl Hok). unfold after in HR. destruct (is_v5 sb); [|by injection HR as <-].
  apply bind_Ok in HR as (crc & _ & HR). by apply copy_at_length in HR.
Qed.

(** What the record of a group's changes says, once it is replayed. *)
Record committed (g g1 : GroupAlloc) (bs : list Z) (items : list BufferItem) (agf : bytes) (fl' : Agfl)
    (bno cnt rm rc : list Z) : Prop := {
  cm_refilled : refilled sb g g1 bs;
  cm_agf : replayed items (agf_blkno g) (ga_agf_raw g) = Ok agf;
  cm_bno : tree_at (codec := alloc_codec ByBlock) g items agf agf.ROOTS agf.LEVELS (ga_by_block g1) bno;
  cm_cnt : tree_at (codec := alloc_codec ByCount) g items agf (agf.ROOTS + 4) (agf.LEVELS + 4)
             (sort_by by_count_leb (ga_by_block g1)) cnt;
  cm_rmap : opt_tree_at g items agf (agf.ROOTS + 8) (agf.LEVELS + 8) (ga_rmap g1) rm;
  cm_refc : opt_tree_at g items agf agf.REFCOUNT_ROOT agf.REFCOUNT_LEVEL (ga_refcount g) rc;
  cm_free : be32 agf agf.FREEBLKS = Ok (FreeSpace.total (ga_by_block g1)) /\ be32 agf agf.LONGEST = Ok (longest (ga_by_block g1));
  cm_agfl : replayed items (agfl_blkno g) (ga_agfl_raw g) = after fl' sb /\ fl_ok sb fl' /\
    be32 agf agf.FLFIRST = Ok (fl_first fl') /\ be32 agf agf.FLCOUNT = Ok (fl_count fl');
  cm_blocks : bno ++ cnt ++ rm ++ rc ++ entries_of sb fl' ≡ₚ tree_blocks g ++ entries_of sb (ga_agfl g) ++ bs;
}.

(** The header and the free list as logged before and after the trees. *)
Lemma headers_replayed g agf flb agf_item ns items :
  group_held g -> length agf = length (ga_agf_raw g) -> length flb = length (ga_agfl_raw g) ->
  find (fun it => blkno it =? agfl_blkno g) ns = None ->
  changed_chunks (agf_blkno g) (ga_agf_raw g) agf BLFT_AGF = Ok agf_item ->
  (if bool_decide (flb = ga_agfl_raw g) then Ok (agf_item :: ns)
   else agfl_item ← changed_chunks (agfl_blkno g) (ga_agfl_raw g) flb BLFT_AGFL; Ok (agf_item :: ns ++ [agfl_item]))
    = Ok items ->
  blkno agf_item = agf_blkno g /\
  exists post, items = (agf_item :: ns) ++ post /\ Forall (fun it => blkno it = agfl_blkno g) post /\
    replayed items (agf_blkno g) (ga_agf_raw g) = Ok agf /\ replayed items (agfl_blkno g) (ga_agfl_raw g) = Ok flb.
Proof.
  intros Hg Ha Hf Hns Eitem HR. destruct sectsize_chunks as [Hm Hp].
  destruct (header_blknos g (gh_at g Hg)) as [Hne _]. pose proof (gh_agf g Hg) as La. pose proof (gh_agfl g Hg) as Ll.
  destruct (changed_chunks_spec (agf_blkno g) (ga_agf_raw g) agf BLFT_AGF) as (it & _ & E & _ & Hb & _);
    [by symmetry|by rewrite Ha, La..|]. assert (it = agf_item) as -> by congruence. split; [done|].
  assert (Hagf : forall rest, replayed (agf_item :: rest) (agf_blkno g) (ga_agf_raw g) = Ok agf).
  { intros rest. apply (replayed_item _ (ga_agf_raw g) agf BLFT_AGF); try done; by rewrite Ha, La. }
  assert (Hskip : find (fun it => blkno it =? agfl_blkno g) (agf_item :: ns) = None).
  { cbn. by rewrite (proj2 (Z.eqb_neq _ _)) by congruence. }
  destruct (bool_decide_reflect (flb = ga_agfl_raw g)) as [->|_].
  - injection HR as <-. exists []. rewrite app_nil_r. split_and!; try done. unfold replayed. by rewrite Hskip.
  - apply bind_Ok in HR as (agfl_item & El & [= <-]). exists [agfl_item]. split; [done|].
    destruct (changed_chunks_spec (agfl_blkno g) (ga_agfl_raw g) flb BLFT_AGFL) as (it & _ & E' & _ & Hb' & _);
      [by symmetry|by rewrite Hf, Ll..|]. assert (it = agfl_item) as -> by congruence.
    split; [by constructor|]. split; [apply Hagf|].
    assert (replayed ([agfl_item] ++ []) (agfl_blkno g) (ga_agfl_raw g) = Ok flb) as <-.
    { apply (replayed_item _ (ga_agfl_raw g) flb BLFT_AGFL); try done; by rewrite Hf, Ll. }
    change (agf_item :: ns ++ [agfl_item]) with ((agf_item :: ns) ++ [agfl_item] ++ []).
    by apply replayed_middle.
Qed.

Lemma total_nonneg lo hi l : FreeSpace.runs 0 lo hi l -> 0 <= FreeSpace.total l.
Proof.
  revert lo. induction l as [|e l IH]; intros lo Hr; cbn; [done|]. destruct Hr as (_ & He & Hr).
  apply IH in Hr. unfold FreeSpace.total in *. cbn. lia.
Qed.

Lemma frame_tree_at {T} {codec : RecordCodec T} g g1 items agf roff loff (records : list T) blocks :
  same_frame g g1 -> tree_at g1 items agf roff loff records blocks -> tree_at g items agf roff loff records blocks.
Proof. intros (E1 & E2 & _). unfold tree_at. by rewrite E1, E2. Qed.

Lemma into_items_spec lo hi g items :
  group_held g -> group_ok 0 lo hi g -> 3 * sb_sectsize sb / sb_blocksize sb < lo -> hi <= sb_agblocks sb ->
  0 <= lo -> hi < 2 ^ 32 ->
  (forall b, past_header b -> exists raw, read_block sb d (ga_ag_start g) b = Ok raw) ->
  ga_took g = true -> into_items sb d g = Ok items ->
  exists g1 bs agf fl' bno cnt rm rc, committed g g1 bs items agf fl' bno cnt rm rc.
Proof.
  intros Hg Hok Hlo Hhi Hlo0 Hhi0 Hread Htook HR. unfold into_items in HR. rewrite Htook in HR. cbn [negb] in HR.
  destruct (refill_free_list sb g) as [g1 [[]|e|]] eqn:Erefill; [|done..].
  unfold refill_free_list in Erefill. destruct (free_list_need sb g) as [need| |] eqn:En; [|done..].
  pose proof (refill_frame (Z.to_nat (need - fl_count (ga_agfl g))) g need) as Hfr. rewrite Erefill in Hfr. cbn [fst] in Hfr.
  pose proof (refill_loop_spec sb 0 lo hi ltac:(lia) Hlo0 Hhi0 Hty Hgeo need
    (free_list_need_capacity sb Hty Hgeo g need En) (Z.to_nat (need - fl_count (ga_agfl g))) g Hok (gh_fl g Hg) ltac:(lia)) as Hrf.
  rewrite Erefill in Hrf. destruct Hrf as (Hok1 & Hfl1 & _ & bs & Hbs).
  pose proof (frame_held lo hi g g1 bs Hg Hok Hlo Hhi Hbs Hfr Hfl1) as Hg1.
  apply bind_Ok in HR as ([[g2 i2] bno] & R1 & HR). apply bind_Ok in HR as ([[g3 i3] cnt] & R2 & HR).
  apply bind_Ok in HR as ([[g4 i4] [rm rmn]] & R3 & HR). apply bind_Ok in HR as ([[g5 i5] [rc rcn]] & R4 & HR).
  destruct (relays_spec lo hi g1 g2 g3 g4 g5 i2 i3 i4 i5 bno cnt rm rmn rc rcn Hg1 Hok1 Hlo0 Hhi0 R1 R2 R3 R4)
    as (fl' & n1 & n2 & n3 & n4 & -> & -> & Htl & Hrmn & Hrcn).
  apply bind_Ok in HR as (agf & Ragf & HR). apply bind_Ok in HR as (agf_item & Ritem & HR).
  apply bind_Ok in HR as (flb & Rfl & HR).
  cbn [ga_ag_start ga_agf_raw ga_agfl ga_agfl_raw with_agfl] in *.
  rewrite (Permutation_length (sort_by_Permutation by_count_leb _)) in Ragf.
  pose proof (tl_fl _ _ _ _ _ _ _ _ _ _ Htl) as Hfl'. pose proof (tl_blocks _ _ _ _ _ _ _ _ _ _ Htl) as Hbl.
  pose proof (gh_at g1 Hg1) as Hat1. pose proof Hfr as (F1 & F2 & F3 & _ & _ & _ & F7 & F8 & _).
  assert (Hnp : NoDup (bno ++ cnt ++ rm ++ rc) /\ Forall past_header (bno ++ cnt ++ rm ++ rc)).
  { pose proof (gh_nodup g1 Hg1) as X. pose proof (gh_past g1 Hg1) as Y. rewrite <- Hbl in X, Y.
    rewrite !app_assoc in X, Y. apply NoDup_app in X as [X _]. apply Forall_app in Y as [Y _].
    rewrite <- !app_assoc in X, Y. done. }
  destruct Hnp as [Hnd Hpast].
  pose proof (go_free _ _ _ _ Hok1) as Hruns.
  destruct (new_agf_spec (with_agfl g1 fl') (ga_by_block g1) bno cnt rm rmn rc rcn agf Ragf)
    as (Hlen & Hfree & Hlong & Hff & Hfc & N1 & N2 & N3 & N4).
  { by apply (in_group_u32 sb Hty), past_header_in_group. }
  { rewrite (total_free_spec 0 lo hi) by (try done; lia). by eapply total_nonneg. }
  { destruct (longest_spec 0 lo hi (ga_by_block g1) Hruns) as [[_ ->]|((e & He & <-) & _)];
      [unfold in_u; lia|]. by apply (proj1 (Forall_forall _ _) (runs_typed lo hi _ Hlo0 Hhi0 Hruns) e He). }
  { destruct Hfl', (capacity_bounds sb Hty Hgeo) as (_ & ? & _). cbn. unfold in_u. lia. }
  { destruct Hfl', (capacity_bounds sb Hty Hgeo) as (_ & ? & _). cbn. unfold in_u. lia. }
  destruct (trees_logs_only g1 Hat1 fl' bno cnt rm rc n1 n2 n3 n4 Htl Hnd Hpast) as (O1 & O2 & O3 & O4).
  destruct (headers_replayed g1 agf flb agf_item (n1 ++ n2 ++ n3 ++ n4) items Hg1 Hlen) as (Hblk & post & -> & Hpost & Hr1 & Hr2).
  { rewrite (after_length fl' flb Hfl' Rfl). symmetry. apply (gh_agfl g1 Hg1). }
  { repeat apply find_none_app; [apply O1|apply O2|apply O3|apply O4]. }
  { exact Ritem. } { exact HR. }
  destruct (trees_read g1 Hat1 agf fl' agf_item post bno cnt rm rc n1 n2 n3 n4 Htl Hnd Hpast Hblk Hpost)
    as (T1 & T2 & T3 & T4); try done.
  { by rewrite F2. } { intros Hne r b E. rewrite <- (Hrmn r b E). by apply N3. }
  { intros Hne r b E. rewrite <- (Hrcn r b E). by apply N4. }
  exists g1, bs, agf, fl', bno, cnt, rm, rc. split; try done.
  - by rewrite <- F3; unfold agf_blkno in *; rewrite <- F2.
  - by eapply frame_tree_at.
  - by eapply frame_tree_at.
  - unfold opt_tree_at in *. destruct (ga_rmap g1) as [[r b]|]; [|done]. by eapply frame_tree_at.
  - rewrite F7 in T4. unfold opt_tree_at in *. destruct (ga_refcount g) as [[r b]|]; [|done]. by eapply frame_tree_at.
  - by rewrite <- (total_free_spec 0 lo hi) by (try done; lia).
  - rewrite <- F8. unfold agfl_blkno in *. rewrite <- F2, Rfl. done.
  - rewrite Hbl, (rf_list _ _ _ _ Hbs). destruct Hfr as (_ & _ & _ & _ & E1 & E2 & E3 & _ & E4).
    unfold tree_blocks. by rewrite E1, E2, E3, E4.
Qed.
End committed.

(** C2: the record of a group's changes, replayed, is the group: read through the
    items, the header names four trees that hold the group's free space in
    block order, the same in length order, its ownership records and its
    reference counts; its counts are the free space's; the free list it
    describes is the one logged; and every block is where it was or moved, so
    that the trees and the list together hold exactly the blocks they held and
    those the refill took out of free space.  Growing or shrinking any tree by
    any amount. *)
Theorem into_items_replays `{Crc : Crc32c, !Crc32cLaws} {D} {dev : BlockDevice D} {dlaws : BlockDeviceLaws D}
    sb (d : D) lo hi g items :
  sb_typed sb -> sb_geometry sb -> group_held sb d g -> group_ok 0 lo hi g ->
  3 * sb_sectsize sb / sb_blocksize sb < lo -> hi <= sb_agblocks sb -> 0 <= lo -> hi < 2 ^ 32 ->
  (forall b, past_header sb b -> exists raw, read_block sb d (ga_ag_start g) b = Ok raw) ->
  ga_took g = true -> into_items sb d g = Ok items ->
  exists g1 bs agf fl' bno cnt rm rc, committed sb d g g1 bs items agf fl' bno cnt rm rc.
Proof. intros. by eapply into_items_spec. Qed.

(** ** A group whose two free-space trees, reverse map and free list are logged *)

(** A device that holds the same byte everywhere and refuses every write. *)
Inductive BlankDevice := blank_device.
#[local] Instance blank_dev : BlockDevice BlankDevice := {|
  dev_read _ _ buf := (replicate (length buf) x11, Ok tt);
  dev_write d _ _ := (d, Err NotFound);
  dev_flush d := (d, Ok tt);
  dev_size _ := 2 ^ 40;
|}.
#[local] Instance blank_laws : BlockDeviceLaws BlankDevice.
Proof.
  unshelve esplit; [exact (fun _ _ => x11)|..]; cbn; try done.
  - intros. apply length_replicate.
  - intros d off buf buf' [= <-] i Hi. by apply lookup_replicate_2.
Qed.

Definition commit_group : GroupAlloc :=
  mkGroup 0 0 sample_agf_raw ∅ [4] [5] GroupWrite.sample_free [] (Some (sample_owned, [6])) sample_fl sample_sector
    None true.

Lemma commit_held : group_held sample_sb blank_device commit_group.
Proof.
  assert (Hall : tree_blocks commit_group ++ entries_of sample_sb (ga_agfl commit_group) = [4; 5; 6; 100; 101; 102])
    by (vm_compute; reflexivity).
  split; rewrite ?Hall.
  - split; [unfold in_u; cbn; lia|vm_compute; reflexivity|vm_compute; reflexivity|].
    intros b raw. cbn [ga_before commit_group]. by rewrite lookup_empty.
  - exact sample_fl_ok.
  - repeat (apply NoDup_cons; split; [rewrite ?elem_of_cons, elem_of_nil; lia|]). apply NoDup_nil_2.
  - repeat (constructor; [split; vm_compute; reflexivity|]). constructor.
  - intros b Hb (e & He & Hin). unfold in_extent, fe_end in Hin. cbn in He. set_unfold.
    destruct He as [->|[->|[->|[]]]]; cbn in Hin; lia.
  - done.
  - vm_compute. reflexivity.
  - vm_compute. reflexivity.
  - vm_compute. reflexivity.
Qed.

Lemma into_items_replays_witness :
  exists items g1 bs agf fl' bno cnt rm rc, into_items sample_sb blank_device commit_group = Ok items /\
    committed sample_sb blank_device commit_group g1 bs items agf fl' bno cnt rm rc.
Proof.
  destruct (into_items sample_sb blank_device commit_group) as [items|e|] eqn:E.
  2: { exfalso. vm_compute in E. discriminate E. } 2: { exfalso. vm_compute in E. discriminate E. }
  destruct (into_items_replays sample_sb blank_device 4 2048 commit_group items sample_typed sample_geometry
    commit_held ltac:(destruct sample_group_ok as [X Y]; split; [exact X|exact Y]) ltac:(vm_compute; reflexivity)
    ltac:(vm_compute; discriminate) ltac:(lia) ltac:(lia) ltac:(intros b _; eexists; reflexivity) eq_refl E)
    as (g1 & bs & agf & fl' & bno & cnt & rm & rc & Hc).
  clear E. exists items, g1, bs, agf, fl', bno, cnt, rm, rc. split; [reflexivity|exact Hc].
Defined.
