(* ===== verification/GroupOpen.v ===== *)
(** * What opening a group establishes ([src/src/group_write.rs], [GroupAlloc::open])

    Whatever the device holds, opening a group ends without a panic; a group
    it returns has images that are the device's own bytes, free space that
    passed every check of its records, two free-space trees with the same
    records, and a free list whose indices agree with its count. *)

From Stdlib Require Import ZArith Lia Strings.String Strings.Byte.
From stdpp Require Import base list gmap strings sets.
From S2P Require Import Prelude Error Endian Crc32c Superblock Sample Ag Agfl FreeSpace AgBtree AllocBtree Refcount Rmap Overlay BufWrite LogRecover GroupWrite Relay GroupItems.

Lemma be32_in_u buf off z : be32 buf off = Ok z -> in_u 32 z.
Proof.
  unfold be32. destruct (get_slice off 4 buf) as [l| |] eqn:E; [|done..]. cbn. intros [= <-].
  apply get_slice_inv in E as [Hl ->]. exact (rd_range 4 off buf Hl).
Qed.

(** Every record of a walk came out of the decoder. *)
Lemma walk_loop_records `{Crc : Crc32c} {T} sb shape agno read (decode : bytes -> nat -> res T) (P : T -> Prop) :
  (forall buf pos r, decode buf pos = Ok r -> P r) -> forall budget stack out seen rs bs,
  Forall P out -> walk_loop sb shape agno read decode budget stack out seen = Ok (rs, bs) -> Forall P rs.
Proof.
  intros HP. induction budget as [|budget IH]; intros stack out seen rs bs Hout H;
    (destruct stack as [|[b lv] stack]; cbn [walk_loop] in H; [by injection H as <- _|]); [done|].
  apply bind_Ok in H as (buf & _ & H). apply bind_Ok in H as (node & _ & H). apply bind_Ok in H as (old & _ & H).
  destruct (node_level node =? 0).
  - apply bind_Ok in H as (_ & _ & H). apply bind_Ok in H as (records & Hr & H). eapply IH; [|exact H].
    apply Forall_app. split; [done|]. unfold AgBtree.leaf_records in Hr. apply res_map_Ok in Hr.
    apply Forall_forall. intros r (i & Hi)%list_elem_of_lookup.
    destruct (Forall2_lookup_r _ _ _ _ _ Hr Hi) as (j & _ & Hd). by eapply HP.
  - apply bind_Ok in H as (_ & _ & H). apply bind_Ok in H as (ch & _ & H). by eapply IH.
Qed.

Lemma free_walk_typed `{Crc : Crc32c} sb shape agno read root levels rs bs :
  walk_blocks sb shape agno read decode_free_extent root levels = Ok (rs, bs) -> Forall fe_typed rs.
Proof.
  unfold walk_blocks. intros (_ & _ & H)%bind_Ok. eapply (walk_loop_records sb shape agno read decode_free_extent fe_typed);
    [|by constructor|exact H].
  unfold decode_free_extent. intros buf pos r (s & Hs%be32_in_u & H')%bind_Ok.
  apply bind_Ok in H' as (c & Hc%be32_in_u & [= <-]). done.
Qed.

Lemma Agf_parse_ranges `{Crc : Crc32c} sb buf ag a :
  Agf_parse buf sb ag = Ok a ->
  Forall (in_u 32) (agf_levels a) /\ in_u 32 (agf_refcount_level a) /\ agf_describes a.
Proof.
  unfold Agf_parse. intros H.
  repeat match goal with H : mbind _ _ = Ok _ |- _ => apply bind_Ok in H; destruct H as (? & ? & H) end.
  injection H as <-. cbn.
  repeat match goal with H : be32 _ _ = Ok _ |- _ => apply be32_in_u in H end.
  split; [repeat (apply Forall_cons; split; [done|]); by apply Forall_nil|]. split; [done|].
  unfold agf_describes. cbn. done.
Qed.

Section opening.
Context `{Crc : Crc32c} (sb : Superblock) {D : Type} {dev : BlockDevice D} {dlaws : BlockDeviceLaws D} (d : D).
Context (Hty : sb_typed sb) (Hgeo : sb_geometry sb).

Lemma read_sector_spec off :
  read_sector sb d off <> Panic /\
  forall raw, read_sector sb d off = Ok raw -> length raw = Z.to_nat (sb_sectsize sb).
Proof.
  unfold read_sector. set (buf := replicate _ _).
  pose proof (dev_read_total d off buf) as Ht. pose proof (dev_read_length d off buf) as Hl.
  destruct (dev_read d off buf) as [raw [[]|e|]]; cbn in *; [|done..].
  split; [done|]. intros ? [= <-]. rewrite Hl. apply length_replicate.
Qed.

Lemma agfl_parse_total buf a agno :
  length buf = Z.to_nat (sb_sectsize sb) -> Agfl.parse buf sb a agno <> Panic.
Proof.
  intros Hl. pose proof Hgeo as [_ [Hs Hss] _ _ _ _ _ _ _ _ _ _].
  assert (512 <= sb_sectsize sb) by (rewrite Hss; change 512 with (2 ^ 9); apply Z.pow_le_mono_r; lia).
  unfold Agfl.parse. apply bind_not_Panic; [apply fail_if_not_Panic|intros _ _].
  apply bind_not_Panic; [|intros _ _].
  - destruct (is_v5 sb); [|done]. rewrite !be32_Ok by (cbn; lia). cbn [mbind res_bind].
    rewrite crc32c_with_zeroed_crc_Ok, uuid_at_Ok by (cbn; lia). cbn [mbind res_bind].
    repeat (apply bind_not_Panic; [apply fail_if_not_Panic|intros _ _]). apply fail_if_not_Panic.
  - repeat (apply bind_not_Panic; [apply fail_if_not_Panic|intros _ _]).
    rewrite get_slice_Ok by lia. done.
Qed.

Lemma read_before_spec ag_start blocks : forall before,
  as_read sb d ag_start before ->
  read_before sb d ag_start blocks before <> Panic /\
  forall after, read_before sb d ag_start blocks before = Ok after ->
    as_read sb d ag_start after /\ (forall b, b ∈ blocks -> is_Some (after !! b)) /\
    forall b, is_Some (before !! b) -> is_Some (after !! b).
Proof.
  induction blocks as [|b blocks IH]; intros before Hb; cbn [read_before].
  { split; [done|]. intros ? [= <-]. split_and!; [done|set_solver|done]. }
  pose proof (read_block_total sb d ag_start b) as Ht.
  destruct (read_block sb d ag_start b) as [raw|e|] eqn:Er; cbn [mbind res_bind]; [|done..].
  destruct (IH (<[b := raw]> before)) as [Hp Hok].
  { intros b' raw'. destruct (decide (b' = b)) as [->|]; [rewrite lookup_insert_eq|rewrite lookup_insert_ne by done].
    - by intros [= <-]. - apply Hb. }
  split; [done|]. intros after E. destruct (Hok after E) as (H1 & H2 & H3). split; [done|]. split.
  - intros b' [->|]%elem_of_cons; [|by apply H2]. apply H3. rewrite lookup_insert_eq. by eexists.
  - intros b' Hs. apply H3. destruct (decide (b' = b)) as [->|]; [rewrite lookup_insert_eq; by eexists|].
    by rewrite lookup_insert_ne.
Qed.

Lemma checked_free agno len l :
  Forall fe_typed l -> FreeSpace.check_records sb agno len l = Ok tt ->
  l = [] \/ FreeSpace.runs 0 (3 * sb_sectsize sb / sb_blocksize sb + 1) len l.
Proof.
  intros Ht E. destruct l as [|e l]; [by left|right].
  apply (check_records_spec sb agno len); [|done|done].
  assert (0 <= 3 * sb_sectsize sb / sb_blocksize sb).
  { destruct Hgeo as [[? ->] [? ->] _ _ _ _ _ _ _ _ _ _]. pose proof (pow2_pos (sb_blocklog sb) ltac:(lia)).
    pose proof (pow2_pos (sb_sectlog sb) ltac:(lia)). apply Z.div_pos; lia. }
  unfold FreeSpace.check_records, FreeSpace.check_runs in E. cbn [FreeSpace.check_runs_loop] in E.
  unfold run_complaint in E. apply Forall_cons in Ht as [[[? _] [? _]] _].
  destruct (Z.eqb_spec (blockcount e) 0), (Z.leb_spec (startblock e) (3 * sb_sectsize sb / sb_blocksize sb)),
    (Z.ltb_spec len (startblock e + blockcount e)); try done. lia.
Qed.

(** What is known of a group just opened. *)
Record opened (agno : Z) (g : GroupAlloc) (a : Agf) (by_length : list FreeExtent) : Prop := {
  op_agno : ga_agno g = agno;
  op_fresh : ga_took g = false /\ ga_settled g = ga_by_block g;
  op_agf : Agf_parse (ga_agf_raw g) sb agno = Ok a /\ length (ga_agf_raw g) = Z.to_nat (sb_sectsize sb);
  op_free : ga_by_block g = [] \/
    FreeSpace.runs 0 (3 * sb_sectsize sb / sb_blocksize sb + 1) (agf_length a) (ga_by_block g);
  op_same : ga_by_block g ≡ₚ by_length;
  op_before : as_read sb d (ga_ag_start g) (ga_before g) /\
    forall b, b ∈ tree_blocks g -> is_Some (ga_before g !! b);
  op_list : 0 < fl_count (ga_agfl g) -> fl_ok sb (ga_agfl g);
}.

Lemma check_runs_total agno len h l : forall prev i, FreeSpace.check_runs_loop agno len h prev i l <> Panic.
Proof. induction l as [|e l IH]; intros prev i; cbn; [done|]. by destruct (run_complaint _ _ _ _). Qed.

Lemma refcount_check_total agno len l : Refcount.check_records sb agno len l <> Panic.
Proof.
  unfold Refcount.check_records, Refcount.check_runs, check_order. apply bind_not_Panic; [|intros _ _].
  - generalize 0 at 1. induction l as [|r l IH]; intros i; cbn; [done|].
    destruct (_ <=? _); [done|]. by destruct (_ <? _).
  - generalize 0 at 1. generalize (@None Refcount).
    induction l as [|r l IH]; intros prev i; cbn; [done|]. by destruct (order_complaint prev r).
Qed.

Lemma tree_walk_total {T} shape agno ag_start (decode : bytes -> nat -> res T) root levels :
  (forall buf pos, (pos + record_len shape <= length buf)%nat -> exists r, decode buf pos = Ok r) ->
  0 <= levels -> walk_blocks sb shape agno (read_block sb d ag_start) decode root levels <> Panic.
Proof.
  intros Hdec Hl E. pose proof (walk_blocks_total sb shape agno (read_block sb d ag_start) decode root levels
    (read_block_total sb d ag_start) Hdec Hl) as X. by rewrite E in X.
Qed.

Lemma free_decode_total buf pos : (pos + 8 <= length buf)%nat -> exists r, decode_free_extent buf pos = Ok r.
Proof. intros. unfold decode_free_extent. rewrite !be32_Ok by lia. by eexists. Qed.
Lemma rmap_decode_total buf pos : (pos + 24 <= length buf)%nat -> exists r, Rmap.decode buf pos = Ok r.
Proof. intros. unfold Rmap.decode. rewrite !be32_Ok, !be64_Ok by lia. by eexists. Qed.
Lemma refcount_decode_total buf pos : (pos + 12 <= length buf)%nat -> exists r, Refcount.decode buf pos = Ok r.
Proof. intros. unfold Refcount.decode. rewrite !be32_Ok by lia. by eexists. Qed.

Lemma same_free_space_total agno l1 l2 : same_free_space agno l1 l2 <> Panic.
Proof. pose proof (same_free_space_spec agno l1 l2) as X. by destruct (same_free_space agno l1 l2). Qed.

Ltac no_panic := apply bind_not_Panic.

Lemma open_total agno : open sb d agno <> Panic.
Proof.
  unfold open. set (st := wmul 64 _ _).
  no_panic; [apply read_sector_spec|intros raw Er]. apply (proj2 (read_sector_spec _)) in Er.
  destruct (Agf_parse_spec sb Hgeo raw agno) as [Hp Hspec]; [lia|].
  no_panic; [done|intros a Ea]. destruct (Agf_parse_ranges sb raw agno a Ea) as (Hlv & Hrl & _).
  destruct (Hspec a Ea) as (_ & _ & _ & Hlr & Hll & _).
  no_panic; [apply read_sector_spec|intros flr Efl]. apply (proj2 (read_sector_spec _)) in Efl.
  no_panic; [by apply agfl_parse_total|intros fl _].
  destruct (agf_roots a) as [|r0 [|r1 [|r2 [|]]]]; try done. destruct (agf_levels a) as [|l0 [|l1 [|l2 [|]]]]; try done.
  rewrite !Forall_cons in Hlv. destruct Hlv as ([? _] & [? _] & [? _] & _). destruct Hrl as [? _].
  cbn [lookup list_lookup expect agf_btree.BNO agf_btree.CNT agf_btree.RMAP mbind res_bind].
  no_panic; [apply tree_walk_total; [apply free_decode_total|done]|intros [bb bbl] _].
  no_panic; [apply check_runs_total|intros _ _].
  no_panic; [apply tree_walk_total; [apply free_decode_total|done]|intros [bl cbl] _].
  no_panic; [apply same_free_space_total|intros _ _].
  no_panic; [|intros rm _].
  { destruct (_ && _); [|done]. pose proof (tree_walk_total Rmap.shape agno st Rmap.decode r2 l2) as X.
    destruct (walk_blocks _ _ _ _ _ _ _); [done..|]. intros _. by apply X; [apply rmap_decode_total|..]. }
  no_panic; [|intros rc _].
  { destruct (_ && _); [|done]. no_panic; [apply tree_walk_total; [apply refcount_decode_total|done]|intros [rr rb] _].
    no_panic; [apply refcount_check_total|done]. }
  no_panic; [|done]. apply read_before_spec. intros b raw'. by rewrite lookup_empty.
Qed.

Lemma open_Ok agno g : open sb d agno = Ok g -> exists a by_length, opened agno g a by_length.
Proof.
  unfold open. set (st := wmul 64 _ _). intros H. apply bind_Ok in H as (raw & Er & H).
  apply (proj2 (read_sector_spec _)) in Er. apply bind_Ok in H as (a & Ea & H).
  apply bind_Ok in H as (flr & Efl & H). apply bind_Ok in H as (fl & Ef & H).
  do 2 apply bind_Ok in H as (? & _ & H). apply bind_Ok in H as ([bb bbl] & Hbb%free_walk_typed & H).
  apply bind_Ok in H as ([] & Hck & H). do 2 apply bind_Ok in H as (? & _ & H).
  apply bind_Ok in H as ([bl cbl] & _ & H). apply bind_Ok in H as ([] & Hsame & H).
  do 2 apply bind_Ok in H as (? & _ & H). apply bind_Ok in H as (rm & _ & H). apply bind_Ok in H as (rc & _ & H).
  apply bind_Ok in H as (before & Hbef & [= <-]). exists a, bl. split; try done.
  - by apply (checked_free agno).
  - pose proof (same_free_space_spec agno bb bl) as X. by rewrite Hsame in X.
  - destruct (read_before_spec st (bbl ++ cbl ++ held_blocks rm ++ held_blocks rc) ∅) as [_ X].
    { intros b raw'. by rewrite lookup_empty. } destruct (X before Hbef) as (? & ? & _). done.
  - cbn [ga_agfl]. intros Hc. destruct (Agf_parse_ranges sb raw agno a Ea) as (_ & _ & Hd).
    destruct (parse_fl_count sb flr a agno fl Hd Ef) as [E _].
    destruct (parse_fl_ok sb Hty Hgeo flr a agno fl Hd Ef) as (? & _); [left; lia|done].
Qed.
End opening.

(** Opening a group ends without a panic whatever the device holds; a group it
    returns is the one asked for, untouched: its header is a checked AGF, its
    free space is ordered non-overlapping runs past the group's headers that
    the by-length tree holds too, the images its trees will be compared with
    are the device's own bytes, for every block of every tree, and the ring of
    its free list agrees with its count. *)
Theorem open_sound `{Crc : Crc32c} {D} {dev : BlockDevice D} {dlaws : BlockDeviceLaws D} sb (d : D) agno :
  sb_typed sb -> sb_geometry sb ->
  match open sb d agno with
  | Ok g => exists a by_length, opened sb d agno g a by_length
  | Err _ => True
  | Panic => False
  end.
Proof.
  intros Hty Hgeo. pose proof (open_total sb d Hty Hgeo agno) as Hp.
  destruct (open sb d agno) as [g|e|] eqn:E; [|done..]. by eapply open_Ok.
Qed.

(** ** The first group of the sample volume, with both free-space trees on it *)

Definition open_free : list FreeExtent := [mkFree 200 6; mkFree 224 2; mkFree 240 60].
Definition open_agf : bytes :=
  Ag.summed agf.CRC (splice agf.UUID (sb_meta_uuid sample_sb)
    (fold_left put_field
       [F common.MAGIC 4 XFS_AGF_MAGIC; F common.VERSIONNUM 4 1; F common.LENGTH 4 2048;
        F agf.ROOTS 4 4; F (agf.ROOTS + 4) 4 5; F agf.LEVELS 4 1; F (agf.LEVELS + 4) 4 1;
        F agf.FLLAST 4 2; F agf.FLCOUNT 4 3; F agf.FREEBLKS 4 68; F agf.LONGEST 4 60]
       (replicate 512 x00))).
Definition open_agfl : bytes :=
  Ag.summed Agfl.offsets.CRC (splice Agfl.offsets.SEQNO (to_be_bytes 4 0) sample_raw).
Definition built_block (o : Order) (b : Z) (l : list FreeExtent) : bytes :=
  match build sample_sb (order_shape o) 0 encode_free_extent free_extent_keys l [b] with
  | Ok [x] => built_bytes x
  | _ => []
  end.
Definition open_device : MemDevice :=
  mkMem (replicate 512 x00 ++ open_agf ++ replicate 512 x00 ++ open_agfl ++
    built_block ByBlock 4 open_free ++ built_block ByCount 5 (sort_by by_count_leb open_free) ++ replicate 512 x00).

Lemma open_sound_witness :
  exists g a by_length, open sample_sb open_device 0 = Ok g /\ opened sample_sb open_device 0 g a by_length /\
    ga_by_block g = open_free.
Proof.
  pose proof (open_sound sample_sb open_device 0 sample_typed sample_geometry) as H.
  destruct (open sample_sb open_device 0) as [g|e|] eqn:E.
  2, 3: exfalso; vm_compute in E; discriminate E.
  assert (ga_by_block g = open_free) as Eg.
  { apply (f_equal (fun r => match r with Ok g => ga_by_block g | _ => [] end)) in E.
    cbn beta iota in E. rewrite <- E. vm_compute. reflexivity. }
  clear E. destruct H as (a & bl & Ho). exists g, a, bl. split; [reflexivity|]. split; [exact Ho|exact Eg].
Defined.
