(* ===== verification/Log.v ===== *)
(** * The log's ring ([src/src/log.rs])

    A ring of basic blocks, each beginning with the cycle it was written in.
    The newest record decides whether there is anything to replay and where
    the next record goes.  It is found by a binary search for the place where
    the cycle changes, or by reading the whole ring when the search cannot
    account for what it sees.

    The theorems: the scan returns the header with the greatest sequence
    number; on a ring the kernel wrote, the search, where it answers, gives
    the record the scan would; the search takes logarithmically many reads;
    the head that is computed is a place in the ring whose sequence number is
    past the newest record's, with exactly the blocks to the end of the ring
    free; the default buffer size is the greatest power of two that fits. *)

From Stdlib Require Import ZArith Lia Strings.String Strings.Byte Bool.
From stdpp Require Import base list strings sets.
From S2P Require Import Prelude Error Endian Crc32c Superblock Sample Ag FreeSpace AgBtree Overlay LogRecover.

Definition XLOG_HEADER_MAGIC : Z := 0xFEEDBABE.
(** [log::format] *)
Definition UNKNOWN : Z := 0.
Definition LINUX_LE : Z := 1.
Definition LINUX_BE : Z := 2.
Definition IRIX_BE : Z := 3.
Definition native `{Host} : Z := if host_big_endian then LINUX_BE else LINUX_LE.

Definition XLOG_VERSION_2 : Z := 2.
Definition XLOG_HEADER_CYCLE_SIZE : Z := 32 * 1024.

Module h.
Definition MAGICNO : nat := 0.
Definition CYCLE : nat := 4.
Definition VERSION : nat := 8.
Definition LEN : nat := 12.
Definition LSN : nat := 16.
Definition CRC : nat := 32.
Definition NUM_LOGOPS : nat := 40.
Definition FMT : nat := 300.
Definition FS_UUID : nat := 304.
Definition SIZE : nat := 320.
End h.
Definition op_FLAGS : nat := 9.
Definition XLOG_REC_HEADER_SIZE : nat := 328.
Definition SCAN_CHUNK : Z := 1048576.
Definition BB : Z := 512.

Inductive LogState := Empty | CleanlyUnmounted | NeedsReplay.

Record LogRec := mkRec {
  rec_bb : Z;
  rec_lsn : Z;
  rec_num_logops : Z;
  rec_len : Z;
  rec_header_blocks : Z;
  rec_header : bytes;
}.

Record Head := mkHead {
  head_block : Z;
  head_cycle : Z;
  head_prev_block : Z;
  head_free_blocks : Z;
  head_iclog_size : Z;
}.

(** [u64::div_ceil] *)
Definition zdiv_ceil (a b : Z) : Z := (a + b - 1) / b.

Section checksum.
Context `{Crc : Crc32c}.

(** The extended headers the payload needs, one 260-byte struct each. *)
Fixpoint extended (header : bytes) (blocks : list nat) (buf : bytes) : res bytes :=
  match blocks with
  | [] => Ok buf
  | block :: blocks =>
      e ← get_slice (block * Overlay.BBSIZE)%nat 260 header;
      extended header blocks (buf ++ e)
  end.

Definition record_checksum (header data : bytes) : res Z :=
  buf ← copy_at h.CRC [x00; x00; x00; x00] (list.take XLOG_REC_HEADER_SIZE header);
  version ← be32 header h.VERSION;
  buf ← (if negb (Z.land version XLOG_VERSION_2 =? 0)
         then extended header (seq 1 (div_ceil (length data) (Z.to_nat XLOG_HEADER_CYCLE_SIZE) - 1)) buf
         else Ok buf);
  Ok (crc32c (buf ++ data)).
End checksum.

Definition header_blocks (header : bytes) : res Z :=
  version ← be32 header h.VERSION;
  if Z.land version XLOG_VERSION_2 =? 0 then Ok 1 else
  size ← be32 header h.SIZE;
  if size <=? XLOG_HEADER_CYCLE_SIZE then Ok 1
  else Ok (zdiv_ceil size XLOG_HEADER_CYCLE_SIZE).

Definition cycle_of (block : bytes) : res Z :=
  magic ← be32 block h.MAGICNO;
  if magic =? XLOG_HEADER_MAGIC then be32 block h.CYCLE else be32 block 0.

Definition extent (sb : Superblock) : res (Z * Z) :=
  if negb (has_internal_log sb) then
    Err (unsupported "the log is on a separate device, so this driver cannot address it" [])
  else
  let bytes := wmul 64 (sb_logblocks sb) (sb_blocksize sb) in
  if bytes =? 0 then Err (bad "superblock places an internal log of zero length" [])
  else Ok (fsblock_offset sb (sb_logstart sb), bytes).

Definition DEFAULT_ICLOG_SIZE : Z := 32 * 1024.

Definition iclog_size_fits (iclog_size log_bytes : Z) : bool :=
  is_power_of_two iclog_size && (BB <=? iclog_size) && (iclog_size <=? log_bytes).

Definition default_iclog_size (log_bytes : Z) : res Z :=
  let capped := Z.min DEFAULT_ICLOG_SIZE log_bytes in
  let floor := if capped =? 0 then 0 else wshl 64 1 (wsub 32 (wsub 32 64 1) (leading_zeros 64 capped)) in
  let size := wrap 32 floor in
  if negb (iclog_size_fits size log_bytes) then
    Err (bad "the log is {} bytes, which cannot hold an in-core buffer of even the {} bytes one basic block requires"
           [AZ log_bytes; AZ BB])
  else Ok size.

(** ** Finding the newest record *)

Section ring.
Context `{host : Host} (sb : Superblock) {D : Type} {dev : BlockDevice D} (d : D).

Definition read_at (off : Z) (n : nat) : res bytes :=
  match dev_read d off (replicate n x00) with
  | (raw, Ok _) => Ok raw
  | (_, Err e) => Err e
  | (_, Panic) => Panic
  end.

(** [chunks_exact(BBSIZE)] *)
Definition basic_blocks (buf : bytes) : list bytes :=
  (fun i => slice (i * Overlay.BBSIZE)%nat Overlay.BBSIZE buf) <$> seq 0 (length buf / Overlay.BBSIZE).

(** A header of this filesystem's log. *)
Definition is_header (block : bytes) : res bool :=
  magic ← be32 block h.MAGICNO;
  if negb (magic =? XLOG_HEADER_MAGIC) then Ok false else
  uuid ← uuid_at block h.FS_UUID;
  Ok (bool_decide (uuid = sb_uuid sb)).

Definition record_at (bb : Z) (header : bytes) : res LogRec :=
  lsn ← be64 header h.LSN;
  ops ← be32 header h.NUM_LOGOPS;
  len ← be32 header h.LEN;
  hb ← header_blocks header;
  Ok (mkRec bb lsn ops len hb header).

(** One chunk of the scan, from basic block [bb]. *)
Fixpoint scan_blocks (bb : Z) (blocks : list bytes) (newest : option LogRec) : res (option LogRec) :=
  match blocks with
  | [] => Ok newest
  | block :: blocks =>
      hdr ← is_header block;
      newest ← (if negb hdr then Ok newest else
        lsn ← be64 block h.LSN;
        if match newest with Some n => lsn <=? rec_lsn n | None => false end then Ok newest
        else Some <$> record_at bb block);
      scan_blocks (bb + 1) blocks newest
  end.

(** The chunks of the ring in turn; each covers [SCAN_CHUNK] bytes, so their
    number is fuel enough. *)
Fixpoint scan_loop (fuel : nat) (log_start log_bytes at_ : Z) (newest : option LogRec) : res (option LogRec) :=
  if log_bytes <=? at_ then Ok newest
  else
    match fuel with
    | O => Panic
    | S fuel =>
        let want := Z.min SCAN_CHUNK (log_bytes - at_) in
        chunk ← read_at (wadd 64 log_start at_) (Z.to_nat want);
        newest ← scan_blocks (at_ / BB) (basic_blocks chunk) newest;
        scan_loop fuel log_start log_bytes (at_ + want) newest
    end.
Definition scan_whole_ring (log_start log_bytes : Z) : res (option LogRec) :=
  scan_loop (Z.to_nat (zdiv_ceil log_bytes SCAN_CHUNK)) log_start log_bytes 0 None.

Definition HEAD_WINDOW_BLOCKS : Z := 8 * 256 * 1024 / 512.

Definition cycle_at (log_start bb : Z) : res Z :=
  b ← read_at (wadd 64 log_start (wmul 64 bb BB)) Overlay.BBSIZE; cycle_of b.

(** The binary search: each turn halves the gap. *)
Fixpoint change_loop (fuel : nat) (log_start first last lo hi : Z) : res (option Z) :=
  if hi - lo <=? 1 then Ok (Some hi)
  else
    match fuel with
    | O => Panic
    | S fuel =>
        let mid := lo + (hi - lo) / 2 in
        c ← cycle_at log_start mid;
        if c =? last then change_loop fuel log_start first last lo mid
        else if c =? first then change_loop fuel log_start first last mid hi
        else Ok None
    end.

(** The blocks of one run of the window, if all of them carry [expect]. *)
Fixpoint confirm (bb : Z) (blocks : list bytes) (expect : Z) (acc : list (Z * bytes)) : res (option (list (Z * bytes))) :=
  match blocks with
  | [] => Ok (Some acc)
  | block :: blocks =>
      c ← cycle_of block;
      if negb (c =? expect) then Ok None else confirm (bb + 1) blocks expect (acc ++ [(bb, block)])
  end.
Definition read_run (log_start from count expect : Z) (acc : list (Z * bytes)) : res (option (list (Z * bytes))) :=
  buf ← read_at (wadd 64 log_start (wmul 64 from BB)) (Z.to_nat (count * BB));
  confirm from (basic_blocks buf) expect acc.

(** [iter().rev().find(..)] *)
Fixpoint last_header (blocks : list (Z * bytes)) : res (option (Z * bytes)) :=
  match blocks with
  | [] => Ok None
  | b :: blocks =>
      r ← last_header blocks;
      match r with
      | Some x => Ok (Some x)
      | None => hdr ← is_header b.2; Ok (if (hdr : bool) then Some b else None)
      end
  end.

(** Where the cycle changes, and the cycle of the blocks past it. *)
Definition find_change (log_start total first last : Z) : res (option (Z * option Z)) :=
  if last =? first then Ok (Some (total, None))
  else if (last =? 0) || opt_is (checked_sub first 1) last then
    r ← change_loop (Z.to_nat (Z.log2_up total)) log_start first last 0 (total - 1);
    Ok (match r with
        | Some hi => Some (hi, if negb (last =? 0) then Some last else None)
        | None => None
        end)
  else Ok None.

Definition read_window (log_start total first head : Z) (older : option Z) : res (option (list (Z * bytes))) :=
  let window := Z.min HEAD_WINDOW_BLOCKS total in
  if head <? window then
    start ← (match older with
             | Some older => read_run log_start (total - (window - head)) (window - head) older []
             | None => Ok (Some [])
             end);
    match start with
    | None => Ok None
    | Some acc => read_run log_start 0 head first acc
    end
  else read_run log_start (head - window) window first [].

(** The last header of the window, if its record ends exactly at the head. *)
Definition ending_at (total head : Z) (blocks : list (Z * bytes)) : res (option LogRec) :=
  r ← last_header blocks;
  match r with
  | None => Ok None
  | Some (bb, header) =>
      hb ← header_blocks header;
      len ← be32 header h.LEN;
      let end_ := bb + hb + zdiv_ceil len BB in
      let end_ := if total <? end_ then end_ - total else end_ in
      if negb (end_ =? head) then Ok None else Some <$> record_at bb header
  end.

Definition newest_record_by_cycle (log_start log_bytes : Z) : res (option LogRec) :=
  let total := log_bytes / BB in
  if total <? 2 then Ok None else
  first ← cycle_at log_start 0;
  if first =? 0 then Ok None else
  last ← cycle_at log_start (total - 1);
  change ← find_change log_start total first last;
  match change with
  | None => Ok None
  | Some (head, older) =>
      window ← read_window log_start total first head older;
      match window with
      | None => Ok None
      | Some blocks => ending_at total head blocks
      end
  end.

Definition scan_for_newest_record (log_start log_bytes : Z) : res (option LogRec) :=
  found ← newest_record_by_cycle log_start log_bytes;
  match found with
  | Some r => Ok (Some r)
  | None => scan_whole_ring log_start log_bytes
  end.

(** ** What the log says *)

Definition inspect : res LogState :=
  if negb (has_internal_log sb) then
    Err (unsupported "the log is on a separate device, so whether it needs replaying cannot be established from this one" [])
  else
  '(log_start, log_bytes) ← extent sb;
  found ← scan_for_newest_record log_start log_bytes;
  match found with
  | None => Ok Empty
  | Some newest =>
      fmt_ ← be32 (rec_header newest) h.FMT;
      if negb (fmt_ =? native) then
        Err (unsupported "the log was written in format {}, and this machine writes {}; a log holding unapplied records can only be read by a machine of matching byte order"
               [AZ fmt_; AZ native])
      else if negb (rec_num_logops newest =? 1) then Ok NeedsReplay
      else
        let op_at := wadd 64 log_start (wmul 64 (wadd 64 (rec_bb newest) (rec_header_blocks newest)) BB) in
        if wadd 64 log_start log_bytes <? wadd 64 op_at BB then Ok NeedsReplay
        else
          op ← read_at op_at Overlay.BBSIZE;
          flags ← expect (op !! op_FLAGS);
          Ok (if negb (Z.land (b2z flags) XLOG_UNMOUNT_TRANS =? 0) then CleanlyUnmounted else NeedsReplay)
  end.

(** Where the record after [newest] goes in a ring of [total] blocks. *)
Definition head_after (total log_bytes : Z) (newest : LogRec) : res Head :=
  let cycle := wrap 32 (wshr 64 (rec_lsn newest) 32) in
  iclog_size ← be32 (rec_header newest) h.SIZE;
  if negb (iclog_size_fits iclog_size log_bytes) then
    Err (corrupt "the newest log record says its in-core buffers are {} bytes, which              is not a power of two between {} and the log's own {}"
           [AZ iclog_size; AZ BB; AZ log_bytes])
  else
  let data_blocks := zdiv_ceil (rec_len newest) BB in
  let next := wadd 64 (wadd 64 (rec_bb newest) (rec_header_blocks newest)) data_blocks in
  if total <? next then
    Err (corrupt "the newest log record starts at block {} and claims {} header blocks and {} bytes, which ends past the {}-block ring"
           [AZ (rec_bb newest); AZ (rec_header_blocks newest); AZ (rec_len newest); AZ total])
  else if next =? total then
    match checked_add 32 cycle 1 with
    | None =>
        Err (corrupt "the newest log record is in cycle {}, and the next record would wrap                  to a cycle this log cannot express"
               [AZ cycle])
    | Some next_cycle => Ok (mkHead 0 next_cycle (wrap 32 (rec_bb newest)) total iclog_size)
    end
  else Ok (mkHead (wrap 32 next) cycle (wrap 32 (rec_bb newest)) (wsub 32 total (wrap 32 next)) iclog_size).

Definition head : res Head :=
  '(log_start, log_bytes) ← extent sb;
  let total := wrap 32 (log_bytes / BB) in
  found ← scan_for_newest_record log_start log_bytes;
  match found with
  | None =>
      size ← default_iclog_size log_bytes;
      Ok (mkHead 0 1 (umax 32) total size)
  | Some newest => head_after total log_bytes newest
  end.
End ring.

(** ** The ring as the device holds it *)

Lemma zdiv_ceil_bounds a b : 0 < b -> zdiv_ceil a b * b < a + b /\ a <= zdiv_ceil a b * b.
Proof.
  intros Hb. unfold zdiv_ceil. pose proof (Z.div_mod (a + b - 1) b ltac:(lia)).
  pose proof (Z.mod_pos_bound (a + b - 1) b Hb). lia.
Qed.

Section bytes_of.
Context {D : Type} {dev : BlockDevice D} {dlaws : BlockDeviceLaws D} (d : D).

Definition dev_bytes (off : Z) (n : nat) : bytes := (fun i => dev_byte d (off + Z.of_nat i)) <$> seq 0 n.

Lemma length_dev_bytes off n : length (dev_bytes off n) = n.
Proof. unfold dev_bytes. by rewrite length_fmap, length_seq. Qed.

Lemma lookup_dev_bytes off n i : (i < n)%nat -> dev_bytes off n !! i = Some (dev_byte d (off + Z.of_nat i)).
Proof.
  intros Hi. unfold dev_bytes. rewrite list_lookup_fmap, lookup_seq_lt by done. done.
Qed.

Lemma slice_dev_bytes off n a k :
  (a + k <= n)%nat -> slice a k (dev_bytes off n) = dev_bytes (off + Z.of_nat a) k.
Proof.
  intros Hl. apply list_eq. intros i. destruct (decide (i < k)%nat) as [Hi|Hi].
  - rewrite lookup_slice, decide_True by done. rewrite !lookup_dev_bytes by lia. do 2 f_equal. lia.
  - rewrite !lookup_ge_None_2; [done|rewrite length_dev_bytes; lia|].
    rewrite length_slice by (rewrite length_dev_bytes; lia). lia.
Qed.

(** The device fails to read some bytes between [lo] and [hi]. *)
Definition read_fails (lo hi : Z) (e : Error) : Prop :=
  exists off n, lo <= off /\ off + Z.of_nat n <= hi /\ read_at d off n = Err e.
(** A computation that ends, and whose only errors are such failures. *)
Definition clean (lo hi : Z) {A} (r : res A) : Prop :=
  match r with Ok _ => True | Err e => read_fails lo hi e | Panic => False end.

Lemma clean_bind {A B} lo hi (r : res A) (k : A -> res B) :
  clean lo hi r -> (forall a, r = Ok a -> clean lo hi (k a)) -> clean lo hi (r ≫= k).
Proof. destruct r as [a|e|]; cbn [mbind res_bind clean]; intros Hr Hk; [by apply Hk|exact Hr|exact Hr]. Qed.

Lemma log_read_at_spec off n :
  match read_at d off n with Ok raw => raw = dev_bytes off n | Err _ => True | Panic => False end.
Proof.
  unfold read_at. pose proof (dev_read_total d off (replicate n x00)) as Ht.
  pose proof (dev_read_length d off (replicate n x00)) as Hl. pose proof (dev_read_Ok d off (replicate n x00)) as Ho.
  destruct (dev_read d off (replicate n x00)) as [raw [[]|e|]]; cbn in *; [|done|done].
  rewrite length_replicate in Hl. apply list_eq. intros i. destruct (decide (i < n)%nat) as [Hi|Hi].
  - rewrite (Ho raw eq_refl) by (by rewrite length_replicate). by rewrite lookup_dev_bytes.
  - rewrite !lookup_ge_None_2; [done|rewrite length_dev_bytes; lia|lia].
Qed.

Lemma clean_read lo hi off n : lo <= off -> off + Z.of_nat n <= hi -> clean lo hi (read_at d off n).
Proof.
  intros Hlo Hhi. pose proof (log_read_at_spec off n) as Hr. destruct (read_at d off n) eqn:E; cbn [clean]; [done| |done].
  by exists off, n.
Qed.
End bytes_of.

(** What the readers make of a whole basic block. *)
Section blocks.
Context (sb : Superblock).
Implicit Types b : bytes.

Definition hdr (b : bytes) : bool :=
  (rd 4 h.MAGICNO b =? XLOG_HEADER_MAGIC) && bool_decide (slice h.FS_UUID 16 b = sb_uuid sb).
Definition cyc (b : bytes) : Z :=
  if rd 4 h.MAGICNO b =? XLOG_HEADER_MAGIC then rd 4 h.CYCLE b else rd 4 0 b.
Definition lsn (b : bytes) : Z := rd 8 h.LSN b.
Definition hblocks (b : bytes) : Z :=
  if Z.land (rd 4 h.VERSION b) XLOG_VERSION_2 =? 0 then 1
  else if rd 4 h.SIZE b <=? XLOG_HEADER_CYCLE_SIZE then 1
  else zdiv_ceil (rd 4 h.SIZE b) XLOG_HEADER_CYCLE_SIZE.
Definition rec_of (bb : Z) (b : bytes) : LogRec :=
  mkRec bb (lsn b) (rd 4 h.NUM_LOGOPS b) (rd 4 h.LEN b) (hblocks b) b.

Ltac h_lia := unfold h.MAGICNO, h.CYCLE, h.VERSION, h.LEN, h.LSN, h.NUM_LOGOPS, h.FMT, h.FS_UUID, h.SIZE; lia.

Lemma is_header_Ok b : length b = 512%nat -> is_header sb b = Ok (hdr b).
Proof.
  intros Hl. unfold is_header, hdr. rewrite be32_Ok by h_lia. cbn [mbind res_bind].
  destruct (rd 4 h.MAGICNO b =? XLOG_HEADER_MAGIC); cbn [negb andb]; [|done].
  by rewrite uuid_at_Ok by h_lia.
Qed.
Lemma cycle_of_Ok b : length b = 512%nat -> cycle_of b = Ok (cyc b).
Proof.
  intros Hl. unfold cycle_of, cyc. rewrite (be32_Ok b h.MAGICNO) by h_lia. cbn [mbind res_bind].
  destruct (rd 4 h.MAGICNO b =? XLOG_HEADER_MAGIC); apply be32_Ok; h_lia.
Qed.
Lemma header_blocks_Ok b : length b = 512%nat -> header_blocks b = Ok (hblocks b).
Proof.
  intros Hl. unfold header_blocks, hblocks. rewrite (be32_Ok b h.VERSION) by h_lia. cbn [mbind res_bind].
  destruct (_ =? 0); [done|]. rewrite be32_Ok by h_lia. cbn [mbind res_bind]. by destruct (_ <=? _).
Qed.
Lemma record_at_Ok bb b : length b = 512%nat -> record_at bb b = Ok (rec_of bb b).
Proof.
  intros Hl. unfold record_at. rewrite be64_Ok, !be32_Ok by h_lia. cbn [mbind res_bind].
  by rewrite header_blocks_Ok.
Qed.
Lemma lsn_range b : in_u 64 (lsn b).
Proof. exact (rd_range_any 8 h.LSN b). Qed.
Lemma cyc_range b : in_u 32 (cyc b).
Proof. unfold cyc. destruct (_ =? _); [exact (rd_range_any 4 h.CYCLE b)|exact (rd_range_any 4 0 b)]. Qed.

(** ** The newest of a list of numbered blocks *)

Definition newer (newest : option LogRec) (x : Z * bytes) : option LogRec :=
  if hdr x.2 && negb (match newest with Some n => lsn x.2 <=? rec_lsn n | None => false end)
  then Some (rec_of x.1 x.2) else newest.

Lemma scan_blocks_Ok blocks : forall bb newest,
  Forall (fun b => length b = 512%nat) blocks ->
  scan_blocks sb bb blocks newest = Ok (foldl newer newest (zip (seqZ bb (Z.of_nat (length blocks))) blocks)).
Proof.
  induction blocks as [|b blocks IH]; intros bb newest Hf; [done|]. cbn [scan_blocks].
  apply Forall_cons in Hf as [Hb Hf]. rewrite is_header_Ok by done. cbn [mbind res_bind].
  replace (seqZ bb (Z.of_nat (length (b :: blocks)))) with (bb :: seqZ (bb + 1) (Z.of_nat (length blocks)))
    by (cbn [length]; rewrite (seqZ_cons bb) by lia; f_equal; f_equal; lia).
  cbn [zip zip_with foldl]. unfold newer at 2. cbn [fst snd].
  destruct (hdr b); cbn [negb andb mbind res_bind]; [|by apply IH].
  rewrite be64_Ok by h_lia. cbn [mbind res_bind]. fold (lsn b).
  destruct (match newest with Some n => lsn b <=? rec_lsn n | None => false end); cbn [negb mbind res_bind]; [by apply IH|].
  rewrite record_at_Ok by done. cbn. by apply IH.
Qed.

(** The first of the headers with the greatest sequence number. *)
Definition is_newest (l : list (Z * bytes)) (r : option LogRec) : Prop :=
  match r with
  | None => forall x, x ∈ l -> hdr x.2 = false
  | Some r => exists l1 x l2, l = l1 ++ x :: l2 /\ r = rec_of x.1 x.2 /\ hdr x.2 = true /\
      (forall y, y ∈ l1 -> hdr y.2 = true -> lsn y.2 < lsn x.2) /\
      (forall y, y ∈ l2 -> hdr y.2 = true -> lsn y.2 <= lsn x.2)
  end.

Lemma foldl_newer l : is_newest l (foldl newer None l).
Proof.
  induction l as [|x l IH] using rev_ind; [by intros ? ?%elem_of_nil|].
  rewrite foldl_snoc. unfold newer at 1. destruct (foldl newer None l) as [n|]; cbn [is_newest] in *.
  - destruct IH as (l1 & m & l2 & -> & -> & Hm & H1 & H2). cbn [rec_lsn rec_of].
    destruct (hdr x.2) eqn:Ex; cbn [andb].
    + destruct (Z.leb_spec (lsn x.2) (lsn m.2)) as [Hle|Hlt]; cbn [negb is_newest].
      * exists l1, m, (l2 ++ [x]). split_and!; try done; [by rewrite <- app_assoc|].
        intros y [Hy| ->%list_elem_of_singleton]%elem_of_app Hh; [by apply H2|done].
      * exists (l1 ++ m :: l2), x, []. split_and!; try done; [|by intros ? ?%elem_of_nil].
        intros y [Hy|[->|Hy]%elem_of_cons]%elem_of_app Hh; [pose proof (H1 y Hy Hh)|..|pose proof (H2 y Hy Hh)]; lia.
    + exists l1, m, (l2 ++ [x]). split_and!; try done; [by rewrite <- app_assoc|].
      intros y [Hy| ->%list_elem_of_singleton]%elem_of_app Hh; [by apply H2|congruence].
  - rewrite andb_true_r. destruct (hdr x.2) eqn:Ex; cbn [is_newest].
    + exists l, x, []. split_and!; try done; [|by intros ? ?%elem_of_nil].
      intros y Hy Hh. rewrite (IH y Hy) in Hh. done.
    + intros y [Hy| ->%list_elem_of_singleton]%elem_of_app; [by apply IH|done].
Qed.
End blocks.

Section ring_of.
Context (sb : Superblock) {D : Type} {dev : BlockDevice D} {dlaws : BlockDeviceLaws D} (d : D) (log_start total : Z).
Context (Htot : 0 <= total) (Hstart : 0 <= log_start) (Hfit : log_start + total * BB < 2 ^ 64).

Definition ring_block (i : Z) : bytes := dev_bytes d (log_start + i * BB) Overlay.BBSIZE.
(** The blocks of the ring in a run, numbered. *)
Definition numbered (from count : Z) : list (Z * bytes) := (fun i => (i, ring_block i)) <$> seqZ from count.
Definition ring : list (Z * bytes) := numbered 0 total.

Lemma length_ring_block i : length (ring_block i) = 512%nat.
Proof. apply length_dev_bytes. Qed.

Lemma basic_blocks_ring from count :
  0 <= count -> basic_blocks (dev_bytes d (log_start + from * BB) (Z.to_nat (count * BB))) =
    ring_block <$> seqZ from count.
Proof.
  intros Hc. unfold basic_blocks. rewrite length_dev_bytes.
  replace (Z.to_nat (count * BB)) with (Z.to_nat count * 512)%nat by (unfold BB; lia).
  unfold Overlay.BBSIZE at 3. rewrite Nat.div_mul by done. unfold seqZ. rewrite <- list_fmap_compose.
  apply list_fmap_ext. intros k i [-> Hi]%lookup_seq. cbn [compose]. unfold ring_block.
  rewrite slice_dev_bytes by (unfold Overlay.BBSIZE; lia). f_equal. unfold BB, Overlay.BBSIZE. lia.
Qed.

Lemma numbered_zip from count :
  0 <= count -> zip (seqZ from (Z.of_nat (length (ring_block <$> seqZ from count)))) (ring_block <$> seqZ from count)
    = numbered from count.
Proof.
  intros Hc. rewrite length_fmap, length_seqZ, Z2Nat.id by lia. unfold numbered.
  generalize (seqZ from count). induction l as [|i l IH]; [reflexivity|].
  cbn [fmap list_fmap zip zip_with]. f_equal. exact IH.
Qed.

Lemma numbered_app from n m : 0 <= n -> 0 <= m -> numbered from (n + m) = numbered from n ++ numbered (from + n) m.
Proof. intros. unfold numbered. rewrite seqZ_app by lia. by rewrite fmap_app. Qed.

Lemma ring_blocks_length from count : Forall (fun b => length b = 512%nat) (ring_block <$> seqZ from count).
Proof. apply Forall_fmap, Forall_forall. intros i _. apply length_ring_block. Qed.

Lemma elem_of_numbered from count x : x ∈ numbered from count <-> from <= x.1 < from + count /\ x.2 = ring_block x.1.
Proof.
  unfold numbered. rewrite list_elem_of_fmap. setoid_rewrite elem_of_seqZ. destruct x as [i b]. cbn [fst snd]. split.
  - intros (j & Hj & ?). injection Hj as -> ->. split; [assumption|reflexivity].
  - intros [? ->]. exists i. split; [reflexivity|assumption].
Qed.

(** Reading a run of the ring. *)
Lemma read_run_ring from count :
  0 <= from -> 0 <= count -> from + count <= total ->
  match read_at d (wadd 64 log_start (wmul 64 from BB)) (Z.to_nat (count * BB)) with
  | Ok raw => basic_blocks raw = ring_block <$> seqZ from count
  | Err _ => True
  | Panic => False
  end.
Proof.
  intros Hf Hc Hle. unfold BB in *. rewrite wmul_small, wadd_small by lia.
  pose proof (log_read_at_spec d (log_start + from * 512) (Z.to_nat (count * 512))) as Hr.
  destruct (read_at _ _ _); [|done..]. subst. by apply basic_blocks_ring.
Qed.

Lemma scan_loop_spec fuel : forall at_ newest,
  0 <= at_ <= total -> newest = foldl (newer sb) None (numbered 0 at_) ->
  total * BB - at_ * BB <= Z.of_nat fuel * SCAN_CHUNK ->
  clean d log_start (log_start + total * BB) (scan_loop sb d fuel log_start (total * BB) (at_ * BB) newest) /\
  forall n, scan_loop sb d fuel log_start (total * BB) (at_ * BB) newest = Ok n -> n = foldl (newer sb) None ring.
Proof.
  induction fuel as [|fuel IH]; intros at_ newest Hat -> Hfuel; cbn [scan_loop];
    (destruct (Z.leb_spec (total * BB) (at_ * BB)) as [Hd|Hd]; [|unfold BB, SCAN_CHUNK in *; try lia]).
  - assert (at_ = total) as -> by (unfold BB in *; lia). split; [done|by intros n [= <-]].
  - assert (at_ = total) as -> by (unfold BB in *; lia). split; [done|by intros n [= <-]].
  - set (n := Z.min 2048 (total - at_)).
    assert (Hmin : Z.min 1048576 (total * 512 - at_ * 512) = n * 512) by lia. rewrite Hmin.
    pose proof (read_run_ring at_ n ltac:(lia) ltac:(lia) ltac:(lia)) as Hr. unfold BB in Hr.
    rewrite wmul_small, wadd_small in Hr by (unfold BB in *; lia). rewrite wadd_small by (unfold BB in *; lia).
    pose proof (clean_read d log_start (log_start + total * 512) (log_start + at_ * 512) (Z.to_nat (n * 512)) ltac:(lia) ltac:(lia)) as Hcl.
    destruct (read_at d _ _) as [raw|e|]; cbn [mbind res_bind]; [|split; [exact Hcl|done]|done]. rewrite Hr.
    rewrite Z.div_mul by done. rewrite scan_blocks_Ok by apply ring_blocks_length. cbn [mbind res_bind].
    rewrite numbered_zip by lia. rewrite <- foldl_app.
    replace (at_ * 512 + n * 512) with ((at_ + n) * 512) by lia. apply IH; [lia| |lia].
    by rewrite numbered_app by lia.
Qed.

(** Every chunk is read, and the loop ends. *)
Lemma scan_whole_ring_spec :
  clean d log_start (log_start + total * BB) (scan_whole_ring sb d log_start (total * BB)) /\
  forall n, scan_whole_ring sb d log_start (total * BB) = Ok n -> is_newest sb ring n.
Proof.
  unfold scan_whole_ring.
  pose proof (scan_loop_spec (Z.to_nat (zdiv_ceil (total * BB) SCAN_CHUNK)) 0 None ltac:(lia)) as Hs.
  pose proof (zdiv_ceil_bounds (total * BB) SCAN_CHUNK ltac:(done)) as Hz.
  assert (0 <= zdiv_ceil (total * BB) SCAN_CHUNK) by (unfold BB, SCAN_CHUNK in *; lia).
  change (0 * BB) with 0 in Hs. rewrite Z2Nat.id in Hs by done. specialize (Hs eq_refl ltac:(unfold BB, SCAN_CHUNK in *; lia)).
  destruct Hs as [Hc Hn]. split; [exact Hc|]. intros n ->%Hn. apply foldl_newer.
Qed.


(** ** The search *)

Lemma cycle_at_spec i :
  0 <= i < total ->
  match cycle_at d log_start i with Ok c => c = cyc (ring_block i) | Err _ => True | Panic => False end.
Proof.
  intros Hi. unfold cycle_at, BB in *. rewrite wmul_small, wadd_small by lia.
  pose proof (log_read_at_spec d (log_start + i * 512) Overlay.BBSIZE) as Hr.
  destruct (read_at _ _ _) as [b|e|]; cbn [mbind res_bind]; [|done..]. subst.
  rewrite cycle_of_Ok by apply length_dev_bytes. reflexivity.
Qed.
Lemma clean_cycle_at i : 0 <= i < total -> clean d log_start (log_start + total * BB) (cycle_at d log_start i).
Proof.
  intros Hi. unfold cycle_at. apply clean_bind.
  { unfold BB in *. rewrite wmul_small, wadd_small by lia. apply clean_read; unfold Overlay.BBSIZE; lia. } intros raw E.
  pose proof (log_read_at_spec d (wadd 64 log_start (wmul 64 i BB)) Overlay.BBSIZE) as Hr. rewrite E in Hr. subst.
  by rewrite cycle_of_Ok by apply length_dev_bytes.
Qed.

(** One run of the current cycle, then one of the cycle before it or of blocks
    never written: what the kernel leaves. *)
Record kernel_ring (head c older : Z) : Prop := {
  kr_head : 0 < head <= total;
  kr_size : total <= 2 ^ 32;
  kr_cycle : 0 < c;
  kr_older : older = 0 \/ older = c - 1;
  kr_new i : 0 <= i < head -> cyc (ring_block i) = c;
  kr_old i : head <= i < total -> cyc (ring_block i) = older;
  kr_lsn i : 0 <= i < total -> hdr sb (ring_block i) = true ->
    lsn (ring_block i) = cyc (ring_block i) * 2 ^ 32 + i;
}.

(** The gap halves, so [n] turns are enough for a gap of 2{^n}. *)
Lemma change_loop_total first last fuel : forall lo hi,
  0 <= lo < hi -> hi < total -> hi - lo <= 2 ^ Z.of_nat fuel ->
  clean d log_start (log_start + total * BB) (change_loop d fuel log_start first last lo hi).
Proof.
  induction fuel as [|fuel IH]; intros lo hi Hlo Hhi Hgap; cbn [change_loop];
    destruct (Z.leb_spec (hi - lo) 1) as [|Hg]; try done; [cbn in Hgap; lia|].
  rewrite Nat2Z.inj_succ, Z.pow_succ_r in Hgap by lia.
  set (mid := lo + (hi - lo) / 2).
  assert (lo < mid < hi /\ mid - lo <= 2 ^ Z.of_nat fuel /\ hi - mid <= 2 ^ Z.of_nat fuel).
  { unfold mid. pose proof (Z.div_mod (hi - lo) 2 ltac:(lia)). pose proof (Z.mod_pos_bound (hi - lo) 2 ltac:(lia)). lia. }
  apply clean_bind; [apply clean_cycle_at; lia|]. intros c _.
  destruct (c =? last); [apply IH; lia|]. destruct (c =? first); [apply IH; lia|done].
Qed.

Lemma change_loop_head head c older fuel : forall lo hi r,
  kernel_ring head c older -> 0 <= lo < head -> head <= hi < total ->
  change_loop d fuel log_start c older lo hi = Ok (Some r) -> r = head.
Proof.
  induction fuel as [|fuel IH]; intros lo hi r Hk Hlo Hhi E; cbn [change_loop] in E;
    destruct (Z.leb_spec (hi - lo) 1) as [|Hg]; try (injection E as <-; lia); [done|].
  set (mid := lo + (hi - lo) / 2) in *.
  assert (lo < mid < hi).
  { unfold mid. pose proof (Z.div_mod (hi - lo) 2 ltac:(lia)). pose proof (Z.mod_pos_bound (hi - lo) 2 ltac:(lia)). lia. }
  pose proof (cycle_at_spec mid ltac:(lia)) as Hc.
  destruct (cycle_at d log_start mid) as [x|e|]; cbn [mbind res_bind] in E; [|done..].
  pose proof Hk as [? ? ? Ho Hn Hold _]. destruct (decide (mid < head)) as [Hm|Hm].
  - rewrite (Hn mid) in Hc by lia. subst x. rewrite (proj2 (Z.eqb_neq c older)) in E by lia.
    rewrite Z.eqb_refl in E. apply (IH mid hi r); try done; lia.
  - rewrite (Hold mid) in Hc by lia. subst x. rewrite Z.eqb_refl in E. apply (IH lo mid r); try done; lia.
Qed.

Lemma find_change_head head c older first last r o :
  kernel_ring head c older -> 2 <= total -> first = c -> last = cyc (ring_block (total - 1)) ->
  find_change d log_start total first last = Ok (Some (r, o)) ->
  r = head /\ (o = None /\ (head = total \/ older = 0) \/ o = Some older).
Proof.
  intros Hk Ht -> Hl E. unfold find_change in E. pose proof Hk as [Hh ? ? Ho Hn Hold _].
  destruct (decide (head = total)) as [->|Hne].
  - rewrite Hn in Hl by lia. subst last. rewrite Z.eqb_refl in E. injection E as <- <-. split; [done|].
    left. split; [done|by left].
  - rewrite Hold in Hl by lia. subst last. rewrite (proj2 (Z.eqb_neq older c)) in E by lia.
    assert ((older =? 0) || opt_is (checked_sub c 1) older = true) as Et.
    { unfold opt_is, checked_sub. rewrite (proj2 (Z.leb_le 1 c)) by lia.
      rewrite orb_true_iff, !Z.eqb_eq. destruct Ho; [by left|right; lia]. }
    rewrite Et in E. apply bind_Ok in E as (x & Ex & E). destruct x as [x|]; [|done]. injection E as <- <-.
    split; [by eapply (change_loop_head head c older _ 0 (total - 1)); try done; lia|].
    destruct (Z.eqb_spec older 0); cbn [negb]; [left; split; [done|by right]|by right].
Qed.

(** The blocks a run of the window confirms. *)
Lemma confirm_Ok expect acc blocks : forall bb,
  Forall (fun b => length b = 512%nat) blocks -> clean d log_start (log_start + total * BB) (confirm bb blocks expect acc).
Proof.
  revert acc. induction blocks as [|b blocks IH]; intros acc bb Hf; cbn [confirm]; [done|].
  apply Forall_cons in Hf as [Hb Hf]. rewrite cycle_of_Ok by done. cbn [mbind res_bind].
  destruct (negb _); [done|by apply IH].
Qed.

Lemma confirm_Some expect blocks : forall bb acc out,
  Forall (fun b => length b = 512%nat) blocks ->
  confirm bb blocks expect acc = Ok (Some out) ->
  out = acc ++ zip (seqZ bb (Z.of_nat (length blocks))) blocks.
Proof.
  induction blocks as [|b blocks IH]; intros bb acc out Hf E; cbn [confirm] in E.
  { injection E as <-. symmetry. apply app_nil_r. }
  apply Forall_cons in Hf as [Hb Hf]. rewrite cycle_of_Ok in E by done. cbn [mbind res_bind] in E.
  destruct (negb _); [done|]. apply IH in E as ->; [|done]. rewrite <- app_assoc. f_equal.
  cbn [length]. rewrite (seqZ_cons bb) by lia. cbn [zip zip_with app]. do 3 f_equal; lia.
Qed.

Lemma read_run_Some from count expect acc out :
  0 <= from -> 0 <= count -> from + count <= total ->
  read_run d log_start from count expect acc = Ok (Some out) -> out = acc ++ numbered from count.
Proof.
  intros Hf Hc Hle E. unfold read_run in E. pose proof (read_run_ring from count Hf Hc Hle) as Hr.
  destruct (read_at d _ _) as [raw|e|]; cbn [mbind res_bind] in E; [|done..]. rewrite Hr in E.
  apply confirm_Some in E; [|apply ring_blocks_length]. by rewrite numbered_zip in E.
Qed.

Lemma read_run_total from count expect acc :
  0 <= from -> 0 <= count -> from + count <= total -> clean d log_start (log_start + total * BB) (read_run d log_start from count expect acc).
Proof.
  intros Hf Hc Hle. unfold read_run. pose proof (read_run_ring from count Hf Hc Hle) as Hr.
  apply clean_bind.
  { unfold BB in *. rewrite wmul_small, wadd_small by lia. apply clean_read; lia. }
  intros raw E. rewrite E in Hr. rewrite Hr. apply confirm_Ok, ring_blocks_length.
Qed.

(** The window, in the order it was written. *)
Lemma read_window_Some head c older first o out :
  kernel_ring head c older -> o = None /\ (head = total \/ older = 0) \/ o = Some older ->
  read_window d log_start total first head o = Ok (Some out) ->
  exists w, 0 <= w <= head /\
    ((w < head \/ o = None) /\ out = numbered w (head - w) \/
     w = 0 /\ exists v, head <= v <= total /\ out = numbered v (total - v) ++ numbered 0 head).
Proof.
  intros [Hh _ _ _ _ _ _] Ho E. unfold read_window in E.
  assert (Hw : 0 < Z.min HEAD_WINDOW_BLOCKS total <= total) by (change HEAD_WINDOW_BLOCKS with 4096; lia).
  set (w := Z.min HEAD_WINDOW_BLOCKS total) in *.
  destruct (Z.ltb_spec head w) as [Hlt|Hge].
  - exists 0. split; [lia|]. destruct o as [o|].
    + right. split; [done|]. apply bind_Ok in E as (st & E1 & E2). destruct st as [acc|]; [|done].
      apply read_run_Some in E1; [|lia..]. apply read_run_Some in E2; [|lia..].
      exists (total - (w - head)). split; [lia|]. subst. cbn [app]. f_equal. f_equal. lia.
    + left. split; [by right|]. cbn [mbind res_bind] in E. apply read_run_Some in E; [|lia..].
      subst. by rewrite Z.sub_0_r.
  - exists (head - w). split; [lia|]. left. split; [left; lia|]. apply read_run_Some in E; [|lia..].
    subst. cbn [app]. f_equal. lia.
Qed.

(** Splitting a numbered run at one of its blocks. *)
Lemma split_numbered from count l1 bb b l2 :
  l1 ++ (bb, b) :: l2 = numbered from count ->
  from <= bb < from + count /\ b = ring_block bb /\
  (forall x, bb < x.1 < from + count -> x.2 = ring_block x.1 -> x ∈ l2) /\ l1 = numbered from (bb - from).
Proof.
  revert from count. induction l1 as [|x l1 IH]; intros from count E.
  - destruct (decide (0 < count)) as [Hc|Hc].
    + unfold numbered in E. rewrite seqZ_cons in E by lia. cbn [fmap list_fmap app] in E. injection E as -> -> ->.
      split; [lia|]. split; [reflexivity|]. split.
      * intros x Hx Hx2. apply (elem_of_numbered (Z.succ from) (Z.pred count) x). split; [lia|exact Hx2].
      * by rewrite Z.sub_diag.
    + unfold numbered in E. rewrite seqZ_nil in E by lia. discriminate E.
  - destruct (decide (0 < count)) as [Hc|Hc].
    + unfold numbered in E. rewrite seqZ_cons in E by lia. cbn [fmap list_fmap app] in E. injection E as -> E.
      destruct (IH (Z.succ from) (Z.pred count) E) as (Hb & -> & Hr & ->). split; [lia|]. split; [reflexivity|]. split.
      * intros x Hx. apply Hr. lia.
      * unfold numbered. rewrite (seqZ_cons from (bb - from)) by lia. cbn [fmap list_fmap]. do 3 f_equal. lia.
    + unfold numbered in E. rewrite seqZ_nil in E by lia. discriminate E.
Qed.

Lemma app_eq_split {A} (a b l1 : list A) x l2 :
  a ++ b = l1 ++ x :: l2 ->
  (exists l2', a = l1 ++ x :: l2' /\ l2 = l2' ++ b) \/ (exists l1', b = l1' ++ x :: l2).
Proof.
  revert l1. induction a as [|y a IH]; intros l1 E; cbn in E; [by right; exists l1|].
  destruct l1 as [|z l1]; cbn in E; injection E as -> E; [left; by exists a|].
  destruct (IH l1 E) as [(l2' & -> & ->)|(l1' & ->)]; [left; by exists l2'|right; by exists l1'].
Qed.

Lemma change_loop_range first last fuel : forall lo hi r,
  lo < hi -> change_loop d fuel log_start first last lo hi = Ok (Some r) -> lo < r <= hi.
Proof.
  induction fuel as [|fuel IH]; intros lo hi r Hlo E; cbn [change_loop] in E;
    destruct (Z.leb_spec (hi - lo) 1) as [|Hg]; try (injection E as <-; lia); [done|].
  set (mid := lo + (hi - lo) / 2) in *.
  assert (lo < mid < hi).
  { unfold mid. pose proof (Z.div_mod (hi - lo) 2 ltac:(lia)). pose proof (Z.mod_pos_bound (hi - lo) 2 ltac:(lia)). lia. }
  destruct (cycle_at d log_start mid) as [c|e|]; cbn [mbind res_bind] in E; [|done..].
  destruct (c =? last); [apply IH in E; lia|]. destruct (c =? first); [apply IH in E; lia|done].
Qed.

Lemma last_header_spec (l : list (Z * bytes)) :
  Forall (fun x => length x.2 = 512%nat) l ->
  match last_header sb l with
  | Ok (Some x) => exists l1 l2, l = l1 ++ x :: l2 /\ hdr sb x.2 = true /\ (forall y, y ∈ l2 -> hdr sb y.2 = false)
  | Ok None => forall y, y ∈ l -> hdr sb y.2 = false
  | _ => False
  end.
Proof.
  induction 1 as [|x l Hx _ IH]; cbn [last_header]; [by intros ? ?%elem_of_nil|].
  destruct (last_header sb l) as [[y|]|e|]; cbn [mbind res_bind]; try done.
  - destruct IH as (l1 & l2 & -> & ? & ?). by exists (x :: l1), l2.
  - rewrite is_header_Ok by done. cbn [mbind res_bind]. destruct (hdr sb x.2) eqn:Eh.
    + by exists [], l.
    + intros y [->|Hy]%elem_of_cons; [done|by apply IH].
Qed.

Lemma numbered_length from count : Forall (fun x : Z * bytes => length x.2 = 512%nat) (numbered from count).
Proof. apply Forall_forall. intros x [_ ->]%elem_of_numbered. apply length_ring_block. Qed.

(** No header is newer than one that has none after it in the window. *)
Lemma newest_at bb :
  0 <= bb < total -> hdr sb (ring_block bb) = true ->
  (forall j, 0 <= j < total -> hdr sb (ring_block j) = true -> j <> bb -> lsn (ring_block j) < lsn (ring_block bb)) ->
  is_newest sb ring (Some (rec_of bb (ring_block bb))).
Proof.
  intros Hbb Hh Hmax. exists (numbered 0 bb), (bb, ring_block bb), (numbered (bb + 1) (total - bb - 1)).
  split_and!; [|reflexivity|exact Hh|..].
  - unfold ring. replace total with (bb + (1 + (total - bb - 1))) at 1 by lia.
    rewrite !numbered_app by lia. rewrite Z.add_0_l. reflexivity.
  - intros [j b] [Hj ->]%elem_of_numbered Hhj. cbn [fst snd] in *. apply Hmax; [lia|exact Hhj|lia].
  - intros [j b] [Hj ->]%elem_of_numbered Hhj. cbn [fst snd] in *. apply Z.lt_le_incl, Hmax; [lia|exact Hhj|lia].
Qed.

Lemma window_newest head c older first o out bb b l1 l2 :
  kernel_ring head c older -> o = None /\ (head = total \/ older = 0) \/ o = Some older ->
  read_window d log_start total first head o = Ok (Some out) ->
  out = l1 ++ (bb, b) :: l2 -> hdr sb b = true -> (forall y, y ∈ l2 -> hdr sb y.2 = false) ->
  b = ring_block bb /\ is_newest sb ring (Some (rec_of bb b)).
Proof.
  intros Hk Ho Ew Eout Hh Hl2. pose proof Hk as [Hhd Hsz Hc Hold Hnew Hol Hlsn].
  destruct (read_window_Some _ _ _ _ _ _ Hk Ho Ew) as (w & Hw & Hcase).
  (* the blocks after [bb] in the window hold no header *)
  assert (Hkey : exists lim, 0 <= bb < total /\ b = ring_block bb /\
    ((bb < head /\ lim = head) \/ (head <= bb /\ lim = total /\ forall j, 0 <= j < head -> hdr sb (ring_block j) = false)) /\
    forall j, bb < j < lim -> hdr sb (ring_block j) = false).
  { destruct Hcase as [[_ ->]|(-> & v & Hv & ->)].
    - symmetry in Eout. pose proof (split_numbered _ _ _ _ _ _ Eout) as (Hb & -> & Hr & _).
      exists head. split; [lia|]. split; [reflexivity|]. split; [left; lia|]. intros j Hj.
      apply (Hl2 (j, ring_block j)), Hr; cbn [fst snd]; [lia|reflexivity].
    - destruct (app_eq_split _ _ _ _ _ Eout) as [(l2' & E1 & E2)|(l1' & E1)].
      + symmetry in E1. pose proof (split_numbered _ _ _ _ _ _ E1) as (Hb & -> & Hr & _).
        exists total. split; [lia|]. split; [reflexivity|]. split.
        * right. split; [lia|]. split; [reflexivity|]. intros j Hj.
          apply (Hl2 (j, ring_block j)). rewrite E2. apply elem_of_app. right. apply elem_of_numbered. cbn. split; [lia|reflexivity].
        * intros j Hj. apply (Hl2 (j, ring_block j)). rewrite E2. apply elem_of_app. left. apply Hr; cbn [fst snd]; [lia|reflexivity].
      + symmetry in E1. pose proof (split_numbered _ _ _ _ _ _ E1) as (Hb & -> & Hr & _).
        exists head. split; [lia|]. split; [reflexivity|]. split; [left; lia|]. intros j Hj.
        apply (Hl2 (j, ring_block j)), Hr; cbn [fst snd]; [lia|reflexivity]. }
  destruct Hkey as (lim & Hbb & -> & Hlim & Hafter). split; [reflexivity|]. apply newest_at; [done|done|].
  intros j Hj Hhj Hne. rewrite !Hlsn by done.
  destruct Hlim as [(Hlt & ->)|(Hge & -> & Hnone)].
  - rewrite (Hnew bb) by lia. destruct (decide (j < head)).
    + rewrite (Hnew j) by lia. destruct (decide (j < bb)); [lia|]. rewrite (Hafter j) in Hhj by lia. done.
    + rewrite (Hol j) by lia. lia.
  - rewrite (Hol bb) by lia. destruct (decide (j < head)); [rewrite (Hnone j) in Hhj by lia; done|].
    rewrite (Hol j) by lia. destruct (decide (j < bb)); [lia|]. rewrite (Hafter j) in Hhj by lia. done.
Qed.

Lemma ending_at_newest head c older first o out r :
  kernel_ring head c older -> o = None /\ (head = total \/ older = 0) \/ o = Some older ->
  read_window d log_start total first head o = Ok (Some out) -> ending_at sb total head out = Ok (Some r) ->
  is_newest sb ring (Some r) /\
  (let e := rec_bb r + rec_header_blocks r + zdiv_ceil (rec_len r) BB in
   (if total <? e then e - total else e) = head).
Proof.
  intros Hk Ho Ew E. unfold ending_at in E.
  assert (Hlen : Forall (fun x : Z * bytes => length x.2 = 512%nat) out).
  { destruct (read_window_Some _ _ _ _ _ _ Hk Ho Ew) as (w & _ & [[_ ->]|(_ & v & _ & ->)]).
    - apply numbered_length. - apply Forall_app. split; apply numbered_length. }
  pose proof (last_header_spec out Hlen) as Hl. destruct (last_header sb out) as [[[bb b]|]|e|]; try done.
  destruct Hl as (l1 & l2 & Eout & Hh & Hl2). cbn [mbind res_bind snd] in *.
  destruct (window_newest _ _ _ _ _ _ _ _ _ _ Hk Ho Ew Eout Hh Hl2) as [-> Hn].
  rewrite header_blocks_Ok in E by apply length_ring_block. cbn [mbind res_bind] in E.
  rewrite be32_Ok in E by (rewrite length_ring_block; unfold h.LEN; lia). cbn [mbind res_bind] in E.
  destruct (Z.eqb_spec (if total <? bb + hblocks (ring_block bb) + zdiv_ceil (rd 4 h.LEN (ring_block bb)) BB
    then bb + hblocks (ring_block bb) + zdiv_ceil (rd 4 h.LEN (ring_block bb)) BB - total
    else bb + hblocks (ring_block bb) + zdiv_ceil (rd 4 h.LEN (ring_block bb)) BB) head) as [He|]; cbn [negb] in E; [|done].
  rewrite record_at_Ok in E by apply length_ring_block. injection E as <-. split; [exact Hn|exact He].
Qed.

Lemma log_bytes_total : total * BB / BB = total.
Proof. by apply Z.div_mul. Qed.

Lemma search_newest head c older r :
  kernel_ring head c older -> newest_record_by_cycle sb d log_start (total * BB) = Ok (Some r) ->
  is_newest sb ring (Some r) /\
  (let e := rec_bb r + rec_header_blocks r + zdiv_ceil (rec_len r) BB in
   (if total <? e then e - total else e) = head).
Proof.
  intros Hk E. unfold newest_record_by_cycle in E. rewrite log_bytes_total in E.
  destruct (Z.ltb_spec total 2) as [|Ht]; [done|].
  pose proof (cycle_at_spec 0 ltac:(lia)) as Hc0. apply bind_Ok in E as (first & E1 & E). rewrite E1 in Hc0.
  destruct (first =? 0); [done|]. pose proof (cycle_at_spec (total - 1) ltac:(lia)) as Hcl.
  apply bind_Ok in E as (last & E2 & E). rewrite E2 in Hcl.
  assert (first = c) as ->. { destruct Hk as [? _ _ _ Hn _ _]. rewrite Hc0. apply Hn. lia. }
  apply bind_Ok in E as (ch & E3 & E). destruct ch as [[hd o]|]; [|done].
  destruct (find_change_head head c older c last hd o Hk Ht eq_refl Hcl E3) as [-> Ho].
  apply bind_Ok in E as (win & E4 & E). destruct win as [out|]; [|done].
  by eapply ending_at_newest.
Qed.

(** Whatever the ring holds, the search ends, in logarithmically many turns. *)
Lemma search_total : total < 2 ^ 55 -> clean d log_start (log_start + total * BB) (newest_record_by_cycle sb d log_start (total * BB)).
Proof.
  intros Hbig. unfold newest_record_by_cycle. rewrite log_bytes_total. destruct (Z.ltb_spec total 2) as [|Ht]; [done|].
  apply clean_bind; [apply clean_cycle_at; lia|]. intros first _. destruct (first =? 0); [done|].
  apply clean_bind; [apply clean_cycle_at; lia|]. intros last _.
  apply clean_bind.
  { unfold find_change. destruct (last =? first); [done|]. destruct (_ || _); [|done].
    apply clean_bind; [|done]. apply change_loop_total; [lia..|].
    rewrite Z2Nat.id by apply Z.log2_up_nonneg. pose proof (Z.log2_up_spec total ltac:(lia)). lia. }
  intros [[hd o]|] Ech; [|done].
  assert (Hhd : 0 <= hd <= total).
  { unfold find_change in Ech. destruct (last =? first); [injection Ech as <- _; lia|]. destruct (_ || _); [|done].
    apply bind_Ok in Ech as (x & Ex & Ech). destruct x as [x|]; [|done]. injection Ech as <- _.
    apply change_loop_range in Ex; lia. }
  set (w := Z.min HEAD_WINDOW_BLOCKS total). assert (0 < w <= total) by (unfold w; change HEAD_WINDOW_BLOCKS with 4096; lia).
  apply clean_bind.
  { unfold read_window. fold w. destruct (Z.ltb_spec hd w); [|apply read_run_total; lia].
    apply clean_bind; [destruct o; [apply read_run_total; lia|done]|].
    intros [acc|] _; [apply read_run_total; lia|done]. }
  intros [out|] Ew; [|done]. unfold ending_at.
  assert (Hlen : Forall (fun x : Z * bytes => length x.2 = 512%nat) out).
  { unfold read_window in Ew. fold w in Ew. destruct (Z.ltb_spec hd w).
    - apply bind_Ok in Ew as (st & E1 & E2). destruct st as [acc|]; [|done]. apply read_run_Some in E2; [|lia..].
      subst out. apply Forall_app. split; [|apply numbered_length]. destruct o as [o|]; [|injection E1 as <-; constructor].
      apply read_run_Some in E1; [|lia..]. subst acc. apply numbered_length.
    - apply read_run_Some in Ew; [|lia..]. subst out. apply numbered_length. }
  pose proof (last_header_spec out Hlen) as Hl. destruct (last_header sb out) as [[[bb b]|]|e|] eqn:El; try done.
  destruct Hl as (l1 & l2 & -> & _). rewrite Forall_app, Forall_cons in Hlen. destruct Hlen as (_ & Hb & _). cbn [snd] in Hb.
  cbn [mbind res_bind]. rewrite header_blocks_Ok by done. cbn [mbind res_bind].
  rewrite be32_Ok by (rewrite Hb; unfold h.LEN; lia). cbn [mbind res_bind]. destruct (negb _); [done|].
  by rewrite record_at_Ok.
Qed.

Lemma is_newest_unique l r1 r2 : is_newest sb l r1 -> is_newest sb l r2 -> r1 = r2.
Proof.
  clear Htot Hstart Hfit. intros H1 H2. destruct r1 as [r1|], r2 as [r2|]; cbn [is_newest] in *; [| | |done].
  - destruct H1 as (a1 & x & b1 & -> & -> & Hx & Ha1 & Hb1), H2 as (a2 & y & b2 & E & -> & Hy & Ha2 & Hb2).
    destruct (app_eq_split _ _ _ _ _ E) as [(c & -> & _)|([|z c] & E2)].
    + pose proof (Ha1 y ltac:(set_solver) Hy). destruct (app_eq_split a2 (y :: b2) (a2 ++ y :: c) x b1) as [(?&?&_)|(?&?)]; [by rewrite <- E, <- app_assoc|..].
      * assert (x ∈ a2) as Hin. { rewrite H0. set_solver. } pose proof (Ha2 x Hin Hx). lia.
      * assert (x ∈ y :: b2) as [->|Hin]%elem_of_cons by (rewrite H0; set_solver); [lia|]. pose proof (Hb2 x Hin Hx). lia.
    + cbn [app] in E2. injection E2 as -> ->. reflexivity.
    + cbn [app] in E2. injection E2 as -> ->. pose proof (Hb1 y ltac:(set_solver) Hy).
      assert (a2 = a1 ++ z :: c) as ->.
      { rewrite app_comm_cons, app_assoc in E. by apply app_inv_tail in E. }
      pose proof (Ha2 z ltac:(set_solver) Hx). lia.
  - destruct H1 as (a1 & x & b1 & -> & -> & Hx & _). rewrite (H2 x) in Hx by set_solver. done.
  - destruct H2 as (a1 & x & b1 & -> & -> & Hx & _). rewrite (H1 x) in Hx by set_solver. done.
Qed.

Lemma newest_record_spec head c older :
  kernel_ring head c older ->
  clean d log_start (log_start + total * BB) (scan_for_newest_record sb d log_start (total * BB)) /\
  forall n, scan_for_newest_record sb d log_start (total * BB) = Ok n -> is_newest sb ring n.
Proof.
  intros Hk. pose proof scan_whole_ring_spec as [Hsc Hs]. unfold scan_for_newest_record. split.
  - apply clean_bind; [apply search_total; destruct Hk; lia|]. by intros [r|] _.
  - intros n E. apply bind_Ok in E as (x & Ex & E). destruct x as [r|]; [|by apply Hs].
    injection E as <-. by apply (search_newest head c older).
Qed.
End ring_of.

(** ** Buffer sizes *)

Lemma default_iclog_size_spec log_bytes :
  in_u 64 log_bytes ->
  match default_iclog_size log_bytes with
  | Ok s => (exists k, 9 <= k <= 15 /\ s = 2 ^ k) /\ s <= log_bytes /\ (log_bytes < 2 * s \/ s = DEFAULT_ICLOG_SIZE)
  | Err _ => log_bytes < BB
  | Panic => False
  end.
Proof.
  intros [H0 H1]. unfold default_iclog_size. change DEFAULT_ICLOG_SIZE with 32768.
  remember (Z.min 32768 log_bytes) as capped eqn:Hcap. destruct (Z.eqb_spec capped 0) as [Hz|Hz].
  { assert (iclog_size_fits (wrap 32 0) log_bytes = false) as -> by reflexivity. cbn [negb]. unfold BB. lia. }
  assert (Hlog : 0 <= Z.log2 capped <= 15).
  { split; [apply Z.log2_nonneg|]. change 15 with (Z.log2 32768). apply Z.log2_le_mono. lia. }
  unfold leading_zeros. rewrite (proj2 (Z.eqb_neq capped 0)) by done. change (wsub 32 64 1) with 63.
  rewrite wsub_small by lia. replace (63 - (64 - 1 - Z.log2 capped)) with (Z.log2 capped) by lia.
  pose proof (Z.log2_spec capped ltac:(lia)) as [Hlo Hhi]. rewrite Z.pow_succ_r in Hhi by lia.
  set (k := Z.log2 capped) in *.
  assert (Hp : 1 <= 2 ^ k <= 32768).
  { split; [change 1 with (2 ^ 0); apply Z.pow_le_mono_r; lia|change 32768 with (2 ^ 15); apply Z.pow_le_mono_r; lia]. }
  rewrite wshl_small, Z.mul_1_l by lia. rewrite wrap_small by (unfold in_u; lia).
  assert (Hpow : is_power_of_two (2 ^ k) = true).
  { assert (k ∈ seqZ 0 16) as Hk by (apply elem_of_seqZ; lia). revert Hk.
    generalize k. apply Forall_forall. repeat (constructor; [reflexivity|]). constructor. }
  unfold iclog_size_fits. rewrite Hpow. cbn [andb]. unfold BB.
  destruct (Z.leb_spec 512 (2 ^ k)) as [H5|H5]; cbn [andb negb].
  2:{ change 512 with (2 ^ 9) in H5. apply Z.pow_lt_mono_r_iff in H5; [|lia..].
    pose proof (Z.pow_le_mono_r 2 k 8 ltac:(lia) ltac:(lia)). lia. }
  rewrite (proj2 (Z.leb_le _ _)) by lia. cbn [negb]. split_and!; [exists k; split; [|done]|lia|].
  - split; [|lia]. change 512 with (2 ^ 9) in H5. apply Z.pow_le_mono_r_iff in H5; lia.
  - destruct (decide (log_bytes < 32768)); [left; lia|right]. assert (Hc : capped = 32768) by lia. unfold k. by rewrite Hc.
Qed.

(** ** The head *)

(** The place of the record after [r]: where [r] ends, with the ring's last
    blocks free and a sequence number past [r]'s own. *)
Record head_follows (total : Z) (r : LogRec) (hd : Head) : Prop := {
  hf_end : head_block hd = (rec_bb r + rec_header_blocks r + zdiv_ceil (rec_len r) BB) mod total;
  hf_free : head_block hd + head_free_blocks hd = total /\ 0 < head_free_blocks hd;
  hf_prev : head_prev_block hd = rec_bb r;
  hf_newer : rec_lsn r < head_cycle hd * 2 ^ 32 + head_block hd;
  hf_cycle : in_u 32 (head_cycle hd);
  hf_lap : head_cycle hd = rec_lsn r / 2 ^ 32 +
    (if rec_bb r + rec_header_blocks r + zdiv_ceil (rec_len r) BB =? total then 1 else 0);
  hf_size : head_iclog_size hd = rd 4 h.SIZE (rec_header r) /\ iclog_size_fits (head_iclog_size hd) (total * BB) = true;
}.

(** What makes the newest record one that nothing can follow. *)
Definition head_refused (total : Z) (r : LogRec) : Prop :=
  let e := rec_bb r + rec_header_blocks r + zdiv_ceil (rec_len r) BB in
  iclog_size_fits (rd 4 h.SIZE (rec_header r)) (total * BB) = false \/
  total < e \/ (e = total /\ rec_lsn r / 2 ^ 32 = umax 32).

Record rec_typed (total : Z) (r : LogRec) : Prop := {
  rt_bb : 0 <= rec_bb r < total;
  rt_lsn : in_u 64 (rec_lsn r);
  rt_place : rec_lsn r mod 2 ^ 32 = rec_bb r;
  rt_len : in_u 32 (rec_len r);
  rt_blocks : 1 <= rec_header_blocks r <= 2 ^ 17;
  rt_header : length (rec_header r) = 512%nat;
}.

Lemma head_after_spec total r :
  0 < total < 2 ^ 32 -> rec_typed total r ->
  match head_after total (total * BB) r with
  | Ok hd => head_follows total r hd
  | Err _ => head_refused total r
  | Panic => False
  end.
Proof.
  intros Ht [Hbb [Hl0 Hl] Hpl [Hn0 Hn] Hhb Hh]. unfold head_after, head_refused.
  rewrite wshr_div by lia. rewrite wrap_small.
  2:{ split; [apply Z.div_pos; lia|apply Z.div_lt_upper_bound; [lia|]]. change (2 ^ 32 * 2 ^ 32) with (2 ^ 64). done. }
  rewrite be32_Ok by (rewrite Hh; unfold h.SIZE; lia). cbn [mbind res_bind].
  set (size := rd 4 h.SIZE (rec_header r)). destruct (iclog_size_fits size (total * BB)) eqn:Ef; cbn [negb]; [|by left].
  pose proof (zdiv_ceil_bounds (rec_len r) BB ltac:(done)) as Hz. set (db := zdiv_ceil (rec_len r) BB) in *.
  assert (0 <= db <= 2 ^ 23) by (unfold BB in *; lia).
  rewrite (wadd_small _ (rec_bb r)) by lia. rewrite wadd_small by lia.
  set (e := rec_bb r + rec_header_blocks r + db). assert (rec_bb r < e) by lia.
  pose proof (Z.div_mod (rec_lsn r) (2 ^ 32) ltac:(lia)) as Hdm. rewrite Hpl in Hdm.
  pose proof (Z.div_pos (rec_lsn r) (2 ^ 32) ltac:(lia) ltac:(lia)) as Hc0.
  assert (Hc1 : rec_lsn r / 2 ^ 32 < 2 ^ 32).
  { apply Z.div_lt_upper_bound; [lia|]. change (2 ^ 32 * 2 ^ 32) with (2 ^ 64). done. }
  set (cy := rec_lsn r / 2 ^ 32) in *. rewrite (wrap_small 32 (rec_bb r)) by (unfold in_u; lia).
  destruct (Z.ltb_spec total e) as [Hp|Hp]; [right; by left|]. destruct (Z.eqb_spec e total) as [He|He].
  - unfold checked_add. destruct (Z.ltb_spec (cy + 1) (2 ^ 32)) as [Hc|Hc].
    + split; cbn [head_block head_cycle head_prev_block head_free_blocks head_iclog_size]; fold db; fold e; try done; unfold in_u; try lia.
      * rewrite He, Z_mod_same_full. done.
      * by rewrite (proj2 (Z.eqb_eq e total)).
    + right. right. split; [done|]. unfold umax. lia.
  - rewrite (wrap_small 32 e) by (unfold in_u; lia). rewrite wsub_small by lia.
    split; cbn [head_block head_cycle head_prev_block head_free_blocks head_iclog_size]; fold db; fold e; try done; unfold in_u; try lia.
    + symmetry. apply Z.mod_small. lia.
    + rewrite (proj2 (Z.eqb_neq e total)) by done. lia.
Qed.

Lemma hblocks_range b : 1 <= hblocks b <= 2 ^ 17.
Proof.
  unfold hblocks. destruct (_ =? 0); [lia|]. pose proof (rd_range_any 4 h.SIZE b) as [Hs0 Hs].
  change (256 ^ Z.of_nat 4) with (2 ^ 32) in Hs.
  destruct (Z.leb_spec (rd 4 h.SIZE b) XLOG_HEADER_CYCLE_SIZE) as [|Hg]; [lia|].
  pose proof (zdiv_ceil_bounds (rd 4 h.SIZE b) XLOG_HEADER_CYCLE_SIZE ltac:(done)) as Hz.
  change XLOG_HEADER_CYCLE_SIZE with 32768 in *. lia.
Qed.

Section head_of.
Context (sb : Superblock) {D : Type} {dev : BlockDevice D} {dlaws : BlockDeviceLaws D} (d : D) (log_start total : Z).
Context (Htot : 0 < total < 2 ^ 32) (Hstart : 0 <= log_start) (Hfit : log_start + total * BB < 2 ^ 64).

Lemma newest_typed hd c older r :
  kernel_ring sb d log_start total hd c older -> is_newest sb (ring d log_start total) (Some r) -> rec_typed total r.
Proof.
  intros Hk (l1 & [bb b] & l2 & E & -> & Hh & _). cbn [fst snd] in *.
  assert (Hin : (bb, b) ∈ ring d log_start total) by (rewrite E; set_solver).
  apply elem_of_numbered in Hin as [Hbb Hb]. cbn [fst snd] in *. rewrite Z.add_0_l in Hbb.
  rewrite Hb in Hh. pose proof (kr_lsn _ _ _ _ _ _ _ Hk bb Hbb Hh) as Hl. rewrite <- Hb in Hl.
  split; cbn [rec_of rec_bb rec_lsn rec_len rec_header_blocks rec_header].
  - done.
  - apply lsn_range.
  - rewrite Hl, Z.add_comm, Z_mod_plus_full. apply Z.mod_small. lia.
  - exact (rd_range_any 4 h.LEN b).
  - apply hblocks_range.
  - rewrite Hb. apply length_ring_block.
Qed.

(** The place [head] gives in a ring whose newest record is [n]. *)
Definition head_of (n : option LogRec) (place : Head) : Prop :=
  match n with
  | None => exists size, default_iclog_size (total * BB) = Ok size /\ place = mkHead 0 1 (umax 32) total size
  | Some r => head_follows total r place
  end.

Lemma head_spec hd c older :
  kernel_ring sb d log_start total hd c older -> extent sb = Ok (log_start, total * BB) ->
  match head sb d with
  | Ok place => exists n, is_newest sb (ring d log_start total) n /\ head_of n place
  | Err e => read_fails d log_start (log_start + total * BB) e \/
      exists r, is_newest sb (ring d log_start total) (Some r) /\ head_refused total r
  | Panic => False
  end.
Proof.
  intros Hk He. unfold head. rewrite He. cbn [mbind res_bind]. rewrite log_bytes_total.
  rewrite wrap_small by (unfold in_u; lia).
  destruct (newest_record_spec sb d log_start total ltac:(lia) ltac:(lia) Hfit hd c older Hk) as [Hcl Hn].
  destruct (scan_for_newest_record sb d log_start (total * BB)) as [[r|]|e|]; cbn [mbind res_bind clean] in *; [..|done].
  - specialize (Hn _ eq_refl). pose proof (head_after_spec total r Htot (newest_typed _ _ _ _ Hk Hn)) as Ha.
    destruct (head_after total (total * BB) r); [by exists (Some r)|right; by exists r|done].
  - specialize (Hn _ eq_refl). pose proof (default_iclog_size_spec (total * BB)) as Hd.
    unfold in_u, BB in *. specialize (Hd ltac:(lia)).
    destruct (default_iclog_size (total * 512)) as [s|e|] eqn:Es; cbn [mbind res_bind]; [|lia|done].
    exists None. split; [done|]. by exists s.
  - by left.
Qed.
End head_of.

(** C35: The search for the newest record is equivalent to the scan of the whole
    ring.  On a ring as the kernel leaves it (a run of one cycle, then blocks of
    the cycle before or never written) the record returned is the header with
    the greatest sequence number; it is the record the exhaustive scan returns;
    the search and the scan both end; and an error is one the device gave. *)
Theorem newest_record_exact (sb : Superblock) {D} {dev : BlockDevice D} {dlaws : BlockDeviceLaws D}
    (d : D) (log_start total hd c older : Z) :
  0 <= log_start -> log_start + total * BB < 2 ^ 64 -> kernel_ring sb d log_start total hd c older ->
  match scan_for_newest_record sb d log_start (total * BB) with
  | Ok n => is_newest sb (ring d log_start total) n /\
      (forall m, scan_whole_ring sb d log_start (total * BB) = Ok m -> m = n)
  | Err e => read_fails d log_start (log_start + total * BB) e
  | Panic => False
  end.
Proof.
  intros Hs Hf Hk. assert (Ht : 0 <= total) by (destruct Hk; lia).
  destruct (newest_record_spec sb d log_start total Ht Hs Hf hd c older Hk) as [Hcl Hn].
  destruct (scan_for_newest_record sb d log_start (total * BB)) as [n|e|]; [|exact Hcl|exact Hcl].
  split; [by apply Hn|]. intros m Hm. destruct (scan_whole_ring_spec sb d log_start total Ht Hs Hf) as [_ Hw].
  exact (is_newest_unique sb _ _ _ (Hw m Hm) (Hn n eq_refl)).
Qed.

(** The head of the log is where the newest record ends.  In a ring with no
    record it is block 0 of cycle 1 with the default buffer size.  Otherwise it
    is the block after the newest record (block 0 of the next cycle when that
    record fills the ring); everything from it to the end of the ring is free;
    its sequence number is past the newest record's; the buffer size is a power
    of two that fits.  An error comes from the device, or from a newest record
    that nothing can follow: its size is no such power, it ends past the ring,
    or its cycle is the last one a log can express. *)
Theorem head_exact (sb : Superblock) {D} {dev : BlockDevice D} {dlaws : BlockDeviceLaws D}
    (d : D) (log_start total hd c older : Z) :
  0 < total < 2 ^ 32 -> 0 <= log_start -> log_start + total * BB < 2 ^ 64 ->
  kernel_ring sb d log_start total hd c older -> extent sb = Ok (log_start, total * BB) ->
  match head sb d with
  | Ok place => exists n, is_newest sb (ring d log_start total) n /\ head_of total n place
  | Err e => read_fails d log_start (log_start + total * BB) e \/
      exists r, is_newest sb (ring d log_start total) (Some r) /\ head_refused total r
  | Panic => False
  end.
Proof. intros Ht Hs Hf. by apply head_spec. Qed.

(** The buffer size of a log with no record in it is the greatest power of
    two that is at most 32 KiB and fits in the log, and the only log refused is
    one smaller than a basic block. *)
Theorem default_iclog_size_exact log_bytes :
  in_u 64 log_bytes ->
  match default_iclog_size log_bytes with
  | Ok s => (exists k, 9 <= k <= 15 /\ s = 2 ^ k) /\ s <= log_bytes /\ (log_bytes < 2 * s \/ s = DEFAULT_ICLOG_SIZE)
  | Err _ => log_bytes < BB
  | Panic => False
  end.
Proof. apply default_iclog_size_spec. Qed.

Lemma default_iclog_size_exact_witness : default_iclog_size 20000 = Ok 16384 /\ 16384 <= 20000.
Proof.
  pose proof (default_iclog_size_exact 20000 ltac:(unfold in_u; lia)) as H.
  assert (default_iclog_size 20000 = Ok 16384) as E by (vm_compute; reflexivity). rewrite E in H.
  split; [exact E|apply H].
Defined.

(** ** A ring of sixty-four blocks

    The small volume's log: in cycle 5 a record of one header and three blocks
    of data, then blocks of cycle 4. *)

Inductive RingDevice := ring_device (byte : Z -> Z -> u8).
Definition device_byte (d : RingDevice) (off : Z) : u8 :=
  let '(ring_device byte) := d in byte (off / 512) (off mod 512).
Fixpoint device_bytes (d : RingDevice) (off : Z) (buf : bytes) : bytes :=
  match buf with [] => [] | _ :: buf => device_byte d off :: device_bytes d (off + 1) buf end.
#[local] Instance ring_dev : BlockDevice RingDevice := {|
  dev_read d off buf := (device_bytes d off buf, Ok tt);
  dev_write d _ _ := (d, Err NotFound);
  dev_flush d := (d, Ok tt);
  dev_size _ := 2 ^ 40;
|}.
#[local] Instance ring_laws : BlockDeviceLaws RingDevice.
Proof.
  unshelve esplit; [exact device_byte|..]; cbn; try done.
  - intros d off buf. revert off. induction buf as [|x buf IH]; intros off; cbn; [done|by rewrite IH].
  - intros d off buf buf' [= <-]. revert off. induction buf as [|x buf IH]; intros off [|i] Hi; cbn in *; try lia.
    + by rewrite Z.add_0_r.
    + rewrite IH by lia. do 2 f_equal. lia.
Defined.

Definition sample_record : bytes := Eval vm_compute in
  fold_left put_field
    [ F h.MAGICNO 4 XLOG_HEADER_MAGIC; F h.CYCLE 4 5; F h.VERSION 4 XLOG_VERSION_2; F h.LEN 4 1500;
      F h.LSN 8 (5 * 2 ^ 32 + 1); F h.NUM_LOGOPS 4 7; F h.FS_UUID 8 0x0123456789abcdef; F h.SIZE 4 2048 ]
    (replicate 512 x00).
Definition sample_start : Z := 2064.
Definition sample_log : RingDevice :=
  ring_device (fun b at_ => let i := b - sample_start in
    if i =? 1 then nth (Z.to_nat at_) sample_record x00
    else if at_ <? 3 then x00 else if 3 <? at_ then x77 else if i <? 5 then x05 else x04).

Lemma sample_kernel_ring : kernel_ring sample_sb sample_log (sample_start * 512) 64 5 5 4.
Proof.
  split; try lia.
  - intros i Hi. assert (i ∈ seqZ 0 5) as Hin by (apply elem_of_seqZ; lia). clear Hi. revert i Hin.
    apply Forall_forall. repeat (constructor; [vm_compute; reflexivity|]). constructor.
  - intros i Hi. assert (i ∈ seqZ 5 59) as Hin by (apply elem_of_seqZ; lia). clear Hi. revert i Hin.
    apply Forall_forall. repeat (constructor; [vm_compute; reflexivity|]). constructor.
  - assert (Hf : Forall (fun i => hdr sample_sb (ring_block sample_log (sample_start * 512) i) = true ->
      lsn (ring_block sample_log (sample_start * 512) i) =
      cyc (ring_block sample_log (sample_start * 512) i) * 2 ^ 32 + i) (seqZ 0 64)).
    { repeat (constructor; [vm_compute; first [discriminate|reflexivity]|]). constructor. }
    intros i Hi. apply (proj1 (Forall_forall _ _) Hf). apply elem_of_seqZ. lia.
Qed.

(** The record found is the one at block 1. *)
Lemma newest_record_exact_witness :
  exists r, scan_for_newest_record sample_sb sample_log (sample_start * 512) (64 * BB) = Ok (Some r) /\ rec_bb r = 1 /\
    is_newest sample_sb (ring sample_log (sample_start * 512) 64) (Some r).
Proof.
  pose proof (newest_record_exact sample_sb sample_log (sample_start * 512) 64 5 5 4
    ltac:(unfold sample_start; lia) ltac:(unfold sample_start, BB; lia) sample_kernel_ring) as H.
  exists (rec_of 1 sample_record).
  assert (scan_for_newest_record sample_sb sample_log (sample_start * 512) (64 * BB) = Ok (Some (rec_of 1 sample_record))) as E
    by (vm_compute; reflexivity).
  rewrite E in H. split; [exact E|]. split; [reflexivity|apply H].
Defined.

(** The head is block 5, with the 59 blocks after it free. *)
Lemma head_exact_witness :
  head sample_sb sample_log = Ok (mkHead 5 5 1 59 2048) /\
  exists n, is_newest sample_sb (ring sample_log (sample_start * 512) 64) n /\ head_of 64 n (mkHead 5 5 1 59 2048).
Proof.
  pose proof (head_exact sample_sb sample_log (sample_start * 512) 64 5 5 4
    ltac:(lia) ltac:(unfold sample_start; lia) ltac:(unfold sample_start, BB; lia) sample_kernel_ring
    ltac:(vm_compute; reflexivity)) as H.
  assert (head sample_sb sample_log = Ok (mkHead 5 5 1 59 2048)) as E by (vm_compute; reflexivity).
  rewrite E in H. split; [exact E|exact H].
Defined.
