(* ===== verification/LogWrite.v ===== *)
(** * Writing log records ([src/src/log_write.rs])

    One checkpoint is a row of operations; its payload is laid after a header
    block, the first word of every basic block is replaced by the cycle number
    and kept in the header, and the checksum is taken over the stamped form.

    The theorems: a checkpoint divided into records is the same operations in
    the same order, each record within the buffer; a record is refused or laid
    down whole between the head and the end of the ring, touching nothing else;
    a checkpoint is never placed so that the gap it leaves cannot be filled;
    filling a gap of more blocks than one header describes is a panic. *)

From Stdlib Require Import ZArith Lia Strings.String Strings.Byte Bool.
From stdpp Require Import base list strings sets.
From S2P Require Import Prelude Error Endian Crc32c Superblock Sample Ag FreeSpace AgBtree Overlay BufWrite LogRecover Log.

#[local] Open Scope width_scope.

(** [format::log_items::rec_header] *)
Definition XLOG_CYCLE_DATA_ENTRIES : nat := 64.
Definition rec_CYCLE_DATA : nat := 44.
Definition rec_TAIL_LSN : nat := 24.
Definition rec_PREV_BLOCK : nat := 36.
Definition XLOG_UNMOUNT_TYPE : Z := 0x556e.
Definition XFS_TRANS_CHECKPOINT : Z := 0x28.

Record Placement := mkPlacement {
  p_block : Z;
  p_cycle : Z;
  p_prev_block : Z;
  p_tail_lsn : Z;
  p_uuid : bytes;
  p_iclog_size : Z;
}.

Definition lsn_at (cycle block : Z) : Z := Z.lor (wshl 64 cycle 32) block.
Definition lsn_of (head : Head) : Z := lsn_at (head_cycle head) (head_block head).

Section encode.
Context `{host : Host} `{Crc : Crc32c}.

Definition to_ne_bytes (n : nat) (z : Z) : bytes :=
  if host_big_endian then to_be_bytes n z else to_le_bytes n z.

Definition unmount_op : Op :=
  mkOp XLOG_UNMOUNT_TRANS (splice 0 (to_ne_bytes 2 XLOG_UNMOUNT_TYPE) (replicate 8 x00)).

(** The cycle over the first word of each block, the word into the header. *)
Fixpoint stamp_blocks (cycle : Z) (ks : list nat) (header data : bytes) : res (bytes * bytes) :=
  match ks with
  | [] => Ok (header, data)
  | k :: ks =>
      original ← get_slice (k * BBSIZE) 4 data;
      header ← copy_at (rec_CYCLE_DATA + k * 4) original header;
      data ← copy_at (k * BBSIZE) (to_be_bytes 4 cycle) data;
      stamp_blocks cycle ks header data
  end.

Definition header_fields (p : Placement) (num_logops : Z) (payload : bytes) : list (nat * bytes) :=
  [ (0%nat, to_be_bytes 4 XLOG_HEADER_MAGIC); (4%nat, to_be_bytes 4 (p_cycle p));
    (8%nat, to_be_bytes 4 XLOG_VERSION_2); (12%nat, to_be_bytes 4 (wrap 32 (Z.of_nat (length payload))));
    (16%nat, to_be_bytes 8 (lsn_at (p_cycle p) (p_block p))); (24%nat, to_be_bytes 8 (p_tail_lsn p));
    (36%nat, to_be_bytes 4 (p_prev_block p)); (40%nat, to_be_bytes 4 num_logops);
    (300%nat, to_be_bytes 4 native); (304%nat, p_uuid p); (320%nat, to_be_bytes 4 (p_iclog_size p)) ].

Definition encode_record (p : Placement) (num_logops : Z) (payload : bytes) : res bytes :=
  let padded := (div_ceil (length payload) BBSIZE * BBSIZE)%nat in
  data ← copy_at 0 payload (replicate padded x00);
  header ← put_all (header_fields p num_logops payload) (replicate BBSIZE x00);
  let blocks := (padded / BBSIZE)%nat in
  assert (blocks <=? XLOG_CYCLE_DATA_ENTRIES)%nat;;
  '(header, data) ← stamp_blocks (p_cycle p) (seq 0 blocks) header data;
  covered ← get_slice 0 (length payload) data;
  crc ← record_checksum header covered;
  header ← copy_at 32 (to_le_bytes 4 crc) header;
  let out := header ++ data in
  assert (XLOG_REC_HEADER_SIZE <=? length out)%nat;;
  Ok out.
End encode.

Definition max_payload (iclog_size : Z) : res nat :=
  if XLOG_HEADER_CYCLE_SIZE <? iclog_size then
    Err (unsupported "the log's records are {} bytes, so their headers span more than one basic block; writing a multi-block record header is not implemented"
           [AZ iclog_size])
  else
    match checked_sub iclog_size 512 with
    | Some n => Ok (Z.to_nat n)
    | None =>
        Err (CorruptLog (fmt "the log's records are {} bytes, which cannot hold even the {}-byte header block"
               [AZ iclog_size; AZ 512]))
    end.

Definition pad_ops (tid : Z) : list Op :=
  [ mkOp XLOG_START_TRANS []; mkOp 0 (trans_header tid XFS_TRANS_CHECKPOINT 0); mkOp XLOG_COMMIT_TRANS [] ].

(** [1 + n.div_ceil(BBSIZE) as u32] *)
Definition blocks_of (payload_len : nat) : Z := 1 ⊞{32} wrap 32 (Z.of_nat (div_ceil payload_len BBSIZE)).

Definition wraps_first (needed free tid : Z) : bool :=
  let pad := blocks_of (length (payload tid (pad_ops tid))) in
  (free <? needed) || ((needed <? free) && (free - needed <? pad)).

Definition too_big (len max : nat) : Error :=
  unsupported "the checkpoint is {} bytes and the log's records hold at most {}; splitting one across records is not implemented"
    [AZ (Z.of_nat len); AZ (Z.of_nat max)].

Definition record_blocks (tid : Z) (ops : list Op) (iclog_size : Z) : res Z :=
  let payload := payload tid ops in
  max ← max_payload iclog_size;
  fail_if (max <? length payload)%nat (too_big (length payload) max);;
  Ok (blocks_of (length payload)).

Definition record_blocks_for_log (tid : Z) (ops : list Op) (iclog_size logsunit : Z) : res Z :=
  let alignment := Z.max logsunit 512 in
  fail_if (negb (alignment mod 512 =? 0))
    (unsupported "log stripe unit {} is not a whole basic block" [AZ logsunit]);;
  blocks ← record_blocks tid ops iclog_size;
  let aligned := zdiv_ceil (blocks ⊠{64} 512) alignment ⊠{64} alignment in
  fail_if (iclog_size <? aligned)
    (unsupported "stripe-aligned log record needs {} bytes but the log buffer holds {}" [AZ aligned; AZ iclog_size]);;
  Ok (wrap 32 (aligned / 512)).

(** The loop of [split_into_records] over the operations that are left. *)
Fixpoint split_loop (max : nat) (ops : list Op) (out : list (list Op)) (current : list Op) (used : nat) :
    res (list (list Op)) :=
  match ops with
  | [] =>
      let out := match current with [] => out | _ => out ++ [current] end in
      Ok (match out with [] => [[]] | _ => out end)
  | op :: ops =>
      let cost := (OP_HEADER_SIZE + length (op_data op))%nat in
      fail_if (max <? cost)%nat
        (unsupported "one operation of this checkpoint is {} bytes and the log's records hold at most {}; splitting a single operation across records is not implemented"
           [AZ (Z.of_nat cost); AZ (Z.of_nat max)]);;
      if (max <? used + cost)%nat
      then split_loop max ops (out ++ [current]) [op] cost
      else split_loop max ops out (current ++ [op]) (used + cost)
  end.
Definition split_into_records (ops : list Op) (iclog_size : Z) : res (list (list Op)) :=
  max ← max_payload iclog_size;
  split_loop max ops [] [] 0.

Definition blocks_for_records (tid : Z) (groups : list (list Op)) : nat :=
  sum_list ((fun ops => (1 + div_ceil (length (payload tid ops)) BBSIZE)%nat) <$> groups).

Definition rotate_left32 (z n : Z) : Z := Z.lor (wrap 32 (Z.shiftl z n)) (Z.shiftr z (32 - n)).
Definition transaction_id (head : Head) : Z :=
  Z.lor 0x80000000 (Z.land (Z.lxor (rotate_left32 (head_cycle head) 16) (head_block head)) 0x7fffffff).

(** ** Appending to the log of a device *)

Section append.
Context `{host : Host} `{Crc : Crc32c} (sb : Superblock) {D : Type} {dev : BlockDevice D}.

Definition placement_of (head : Head) (tail_lsn : Z) : Placement :=
  mkPlacement (head_block head) (head_cycle head) (head_prev_block head) tail_lsn (sb_uuid sb) (head_iclog_size head).

(** [Vec::resize] to a length a vector may have. *)
Definition resized (n : Z) (b : bytes) : res bytes :=
  if 2 ^ 63 <=? n then Panic else Ok (resize (Z.to_nat n) x00 b).

(** A whole record at the head: [write_at], then [flush]. *)
Definition write_record (d : D) (head : Head) (tail_lsn : Z) (num_logops : nat) (body : bytes) : D * res Z :=
  match encode_record (placement_of head tail_lsn) (wrap 32 (Z.of_nat num_logops)) body with
  | Ok rec =>
      let pos := fsblock_offset sb (sb_logstart sb) ⊞{64} (head_block head ⊠{64} 512) in
      match dev_write d pos rec with
      | (d, Ok _) =>
          match dev_flush d with
          | (d, Ok _) => (d, Ok (lsn_of head))
          | (d, Err e) => (d, Err e)
          | (d, Panic) => (d, Panic)
          end
      | (d, Err e) => (d, Err e)
      | (d, Panic) => (d, Panic)
      end
  | Err e => (d, Err e)
  | Panic => (d, Panic)
  end.

Definition append_pad (d : D) (head : Head) (tid tail_lsn : Z) : D * res Z :=
  let ops := pad_ops tid in
  let payload := payload tid ops in
  let want := (head_free_blocks head ⊟{64} 1) ⊠{64} 512 in
  if want <? Z.of_nat (length payload) then
    (d, Err (unsupported "the gap at the end of the log is {} bytes and an empty record needs {}"
               [AZ want; AZ (Z.of_nat (length payload))]))
  else
    match resized want payload with
    | Ok padded => write_record d head tail_lsn (length ops) padded
    | Err e => (d, Err e)
    | Panic => (d, Panic)
    end.

(** The checks of [append_at_with_tail], and the padded payload. *)
Definition padded_payload (head : Head) (tid : Z) (ops : list Op) : res bytes :=
  let payload := payload tid ops in
  max ← max_payload (head_iclog_size head);
  fail_if (max <? length payload)%nat (too_big (length payload) max);;
  blocks ← record_blocks_for_log tid ops (head_iclog_size head) (sb_logsunit sb);
  let alignment_blocks := Z.max (sb_logsunit sb) 512 / 512 in
  fail_if (negb (head_block head mod alignment_blocks =? 0))
    (unsupported "log head block {} is not aligned to the {}-byte log stripe unit" [AZ (head_block head); AZ (sb_logsunit sb)]);;
  fail_if (head_free_blocks head <? blocks)
    (unsupported "the checkpoint needs {} basic blocks and only {} remain before the log wraps; writing across the wrap is not implemented"
       [AZ blocks; AZ (head_free_blocks head)]);;
  resized ((blocks ⊟{64} 1) ⊠{64} 512) payload.

Definition append_at_with_tail (d : D) (head : Head) (tid : Z) (ops : list Op) (tail_lsn : Z) : D * res Z :=
  match padded_payload head tid ops with
  | Ok padded => write_record d head tail_lsn (length ops) padded
  | Err e => (d, Err e)
  | Panic => (d, Panic)
  end.

Definition append_at (d : D) (head : Head) (tid : Z) (ops : list Op) : D * res Z :=
  append_at_with_tail d head tid ops (lsn_of head).

Definition append (d : D) (build : Z -> list Op) : D * res Z :=
  match Log.head sb d with
  | Ok head => let tid := transaction_id head in append_at d head tid (build tid)
  | Err e => (d, Err e)
  | Panic => (d, Panic)
  end.
End append.

(** ** The stamped record *)

Section stamped.
Context (cycle : Z).

Lemma stamp_blocks_spec m : forall a header data,
  length header = 512%nat -> (length data = 512 * (a + m))%nat \/ (512 * (a + m) <= length data)%nat -> (a + m <= 64)%nat ->
  exists h d, stamp_blocks cycle (seq a m) header data = Ok (h, d) /\
    length h = 512%nat /\ length d = length data /\
    (forall i, (i < 44 + 4 * a \/ 44 + 4 * (a + m) <= i)%nat -> h !! i = header !! i) /\
    (forall k j, (a <= k < a + m)%nat -> (j < 4)%nat -> h !! (44 + 4 * k + j)%nat = data !! (512 * k + j)%nat) /\
    (forall k j, (j < 512)%nat -> d !! (512 * k + j)%nat =
       if decide (a <= k < a + m /\ j < 4)%nat then to_be_bytes 4 cycle !! j else data !! (512 * k + j)%nat).
Proof.
  induction m as [|m IH]; intros a header data Hh Hd Ha; cbn [seq stamp_blocks].
  { exists header, data. split_and!; try done; [intros; lia|]. intros k j Hj. by rewrite decide_False by lia. }
  unfold BBSIZE, rec_CYCLE_DATA.
  rewrite get_slice_Ok by lia. cbn [mbind res_bind].
  assert (Hw : length (slice (a * 512) 4 data) = 4%nat) by (apply length_slice; lia).
  rewrite (copy_at_Ok (44 + a * 4)) by lia. cbn [mbind res_bind].
  rewrite copy_at_Ok by (rewrite length_to_be_bytes; lia). cbn [mbind res_bind].
  set (h1 := splice (44 + a * 4) (slice (a * 512) 4 data) header).
  set (d1 := splice (a * 512) (to_be_bytes 4 cycle) data).
  assert (Hh1 : length h1 = 512%nat) by (unfold h1; rewrite length_splice; lia).
  assert (Hd1 : length d1 = length data) by (unfold d1; apply length_splice; rewrite length_to_be_bytes; lia).
  destruct (IH (S a) h1 d1 Hh1) as (h & d & E & Lh & Ld & Hout & Hin & Hst); [lia|lia|].
  exists h, d. split; [exact E|]. split; [done|]. split; [congruence|]. split_and!.
  - intros i Hi. rewrite Hout by lia. unfold h1. apply lookup_splice_out; lia.
  - intros k j Hk Hj. destruct (decide (k = a)) as [->|Hne].
    + rewrite Hout by lia. unfold h1. rewrite lookup_splice_in by lia.
      rewrite lookup_slice, decide_True by lia. f_equal. lia.
    + rewrite Hin by lia. unfold d1. apply lookup_splice_out; rewrite length_to_be_bytes; lia.
  - intros k j Hj. rewrite Hst by done. destruct (decide (k = a)) as [->|Hne].
    + rewrite decide_False by lia. unfold d1. case_decide.
      * rewrite lookup_splice_in by (rewrite length_to_be_bytes; lia). f_equal. lia.
      * rewrite lookup_splice_out by (rewrite length_to_be_bytes; lia). done.
    + assert (d1 !! (512 * k + j)%nat = data !! (512 * k + j)%nat) as Hk.
      { unfold d1. apply lookup_splice_out; rewrite length_to_be_bytes; lia. }
      rewrite Hk. repeat case_decide; try done; lia.
Qed.
End stamped.

(** What a record holds: its header block [h], its stamped blocks [d]. *)
Record encoded `{Host} `{Crc32c} (p : Placement) (num_logops : Z) (body h d : bytes) : Prop := {
  en_header : length h = 512%nat;
  en_blocks : length d = (512 * div_ceil (length body) 512)%nat;
  en_magic : rd 4 h.MAGICNO h = XLOG_HEADER_MAGIC;
  en_cycle : rd 4 h.CYCLE h = p_cycle p;
  en_version : rd 4 h.VERSION h = XLOG_VERSION_2;
  en_len : rd 4 h.LEN h = Z.of_nat (length body);
  en_lsn : rd 8 h.LSN h = p_cycle p * 2 ^ 32 + p_block p;
  en_tail : rd 8 rec_TAIL_LSN h = p_tail_lsn p;
  en_num : rd 4 h.NUM_LOGOPS h = num_logops;
  en_fmt : rd 4 h.FMT h = native;
  en_uuid : slice h.FS_UUID 16 h = p_uuid p;
  en_size : rd 4 h.SIZE h = p_iclog_size p;
  en_crc : record_checksum h (take (length body) d) = Ok (rd_le 4 h.CRC h);
  en_word k j : (k < div_ceil (length body) 512)%nat -> (j < 4)%nat ->
    h !! (44 + 4 * k + j)%nat = (body ++ replicate (length d - length body) x00) !! (512 * k + j)%nat;
  en_data k j : (j < 512)%nat -> (512 * k + j < length d)%nat -> d !! (512 * k + j)%nat =
    if decide (j < 4)%nat then to_be_bytes 4 (p_cycle p) !! j
    else (body ++ replicate (length d - length body) x00) !! (512 * k + j)%nat;
}.

Record placement_typed (p : Placement) : Prop := {
  pt_block : in_u 32 (p_block p);
  pt_cycle : in_u 32 (p_cycle p);
  pt_tail : in_u 64 (p_tail_lsn p);
  pt_uuid : length (p_uuid p) = 16%nat;
  pt_size : in_u 32 (p_iclog_size p);
}.

Lemma lsn_at_sum cycle block : in_u 32 cycle -> in_u 32 block -> lsn_at cycle block = cycle * 2 ^ 32 + block.
Proof.
  intros [Hc0 Hc] [Hb0 Hb]. unfold lsn_at. rewrite wshl_small by lia. apply lor_disjoint_add; lia.
Qed.

Lemma slice_ext (b b' : bytes) off n :
  (forall i, (off <= i < off + n)%nat -> b !! i = b' !! i) -> slice off n b = slice off n b'.
Proof.
  intros H. apply list_eq. intros i. rewrite !lookup_slice. case_decide; [|done]. apply H. lia.
Qed.

Lemma one_header_block n : Z.of_nat n <= 32768 -> (div_ceil n (Z.to_nat XLOG_HEADER_CYCLE_SIZE) - 1 = 0)%nat.
Proof.
  intros Hn. assert (Z.of_nat (Z.to_nat XLOG_HEADER_CYCLE_SIZE) = 32768) as Hb by done.
  generalize dependent (Z.to_nat XLOG_HEADER_CYCLE_SIZE). intros b Hb.
  pose proof (div_ceil_bounds n b ltac:(lia)). nia.
Qed.

Section encode_ok.
Context `{host : Host} `{Crc : Crc32c} `{!Crc32cLaws}.

(** The checksum does not depend on the word it is stored in. *)
Lemma record_checksum_splice h c data :
  length h = 512%nat -> length c = 4%nat -> Z.of_nat (length data) <= 32768 ->
  record_checksum (splice h.CRC c h) data = record_checksum h data.
Proof.
  intros Hh Hc Hd. unfold record_checksum, h.CRC, XLOG_REC_HEADER_SIZE.
  assert (Hl : length (splice 32 c h) = 512%nat) by (rewrite length_splice; lia).
  rewrite !copy_at_Ok by (rewrite ?length_take; cbn [length]; lia). cbn [mbind res_bind].
  rewrite !be32_Ok by (unfold h.VERSION; lia). cbn [mbind res_bind].
  rewrite rd_splice_disjoint by (unfold h.VERSION; lia).
  assert (splice 32 [x00; x00; x00; x00] (take 328 (splice 32 c h)) = splice 32 [x00; x00; x00; x00] (take 328 h)) as ->.
  { apply list_eq. intros i. destruct (decide (32 <= i < 36)%nat).
    - rewrite !lookup_splice_in by (rewrite ?length_take; cbn [length]; lia). done.
    - rewrite !lookup_splice_out by (rewrite ?length_take; cbn [length]; lia).
      destruct (decide (i < 328)%nat); [|by rewrite !lookup_take_ge by lia].
      rewrite !lookup_take_lt by lia. apply lookup_splice_out; lia. }
  destruct (negb _); [|done].
  by rewrite one_header_block.
Qed.

Lemma record_checksum_Ok h data :
  length h = 512%nat -> Z.of_nat (length data) <= 32768 ->
  exists crc, record_checksum h data = Ok crc /\ in_u 32 crc.
Proof.
  intros Hh Hd. unfold record_checksum, h.CRC, XLOG_REC_HEADER_SIZE.
  rewrite copy_at_Ok by (rewrite length_take; cbn [length]; lia). cbn [mbind res_bind].
  rewrite be32_Ok by (unfold h.VERSION; lia). cbn [mbind res_bind].
  rewrite one_header_block by done.
  destruct (negb _); cbn [seq extended mbind res_bind]; eexists; (split; [reflexivity|apply crc32c_range]).
Qed.

(** The fields of a header, before the stamps. *)
Lemma header_fields_put p n body :
  placement_typed p -> exists h0, put_all (header_fields p n body) (replicate 512 x00) = Ok h0 /\ length h0 = 512%nat /\
    forall f, f ∈ header_fields p n body -> slice f.1 (length f.2) h0 = f.2.
Proof.
  intros [_ _ _ Hu _]. destruct (put_all_spec (header_fields p n body) (replicate 512 x00)) as (h0 & E & El & Hs & _).
  - rewrite length_replicate. unfold header_fields, extent_of. cbn [fmap list_fmap fst snd].
    rewrite !length_to_be_bytes, Hu. repeat constructor; cbn; lia.
  - unfold header_fields, extent_of. cbn [fmap list_fmap fst snd]. rewrite !length_to_be_bytes, Hu.
    repeat constructor; unfold disjoint_fields; cbn; lia.
  - exists h0. rewrite length_replicate in El. done.
Qed.

Lemma native_range : 0 <= native < 256 ^ Z.of_nat 4.
Proof. unfold native, LINUX_BE, LINUX_LE. destruct host_big_endian; cbn; lia. Qed.

Ltac in_fields := unfold header_fields; repeat (apply elem_of_cons; first [left; reflexivity | right]).
Ltac f_lia := unfold h.MAGICNO, h.CYCLE, h.VERSION, h.LEN, h.LSN, h.NUM_LOGOPS, h.FMT, h.FS_UUID, h.SIZE, rec_TAIL_LSN in *; cbn; lia.

Lemma encode_record_Ok p n body :
  placement_typed p -> in_u 32 n -> Z.of_nat (length body) <= 32768 ->
  exists h d, encode_record p n body = Ok (h ++ d) /\ encoded p n body h d.
Proof.
  intros Hp Hn Hb. pose proof (div_ceil_bounds (length body) 512 ltac:(lia)) as Hc.
  unfold encode_record, BBSIZE. set (nb := div_ceil (length body) 512) in *.
  assert (Hnb : (nb <= 64)%nat) by lia.
  rewrite (copy_at_Ok 0 body) by (rewrite length_replicate; lia). cbn [mbind res_bind].
  set (d0 := splice 0 body (replicate (nb * 512) x00)).
  assert (Hd0 : length d0 = (512 * nb)%nat) by (unfold d0; rewrite length_splice; rewrite length_replicate; lia).
  assert (Ed0 : d0 = body ++ replicate (512 * nb - length body) x00).
  { unfold d0, splice. rewrite drop_replicate. change (list.take 0 _ ++ ?x) with x. rewrite (Nat.mul_comm nb 512). reflexivity. }
  destruct (header_fields_put p n body Hp) as (h0 & E0 & L0 & F0). rewrite E0. cbn [mbind res_bind].
  rewrite Nat.div_mul by done. rewrite (proj2 (Nat.leb_le _ _)) by (unfold XLOG_CYCLE_DATA_ENTRIES; lia). cbn [assert mbind res_bind].
  destruct (stamp_blocks_spec (p_cycle p) nb 0 h0 d0 L0) as (h1 & d & E1 & L1 & Ld & Hout & Hin & Hst); [lia|lia|].
  rewrite E1. cbn [mbind res_bind]. rewrite get_slice_Ok by lia. cbn [mbind res_bind].
  change (slice 0 (length body) d) with (list.take (length body) d).
  destruct (record_checksum_Ok h1 (list.take (length body) d) L1) as (crc & Ec & Hcr); [rewrite length_take; lia|].
  rewrite Ec. cbn [mbind res_bind]. rewrite copy_at_Ok by (rewrite length_to_le_bytes; lia). cbn [mbind res_bind].
  set (h := splice 32 (to_le_bytes 4 crc) h1).
  assert (Lh : length h = 512%nat) by (unfold h; rewrite length_splice; rewrite ?length_to_le_bytes; lia).
  rewrite (proj2 (Nat.leb_le _ _)) by (rewrite length_app; unfold XLOG_REC_HEADER_SIZE; lia). cbn [assert mbind res_bind].
  exists h, d. split; [done|].
  (* a field outside the stamps and the checksum *)
  assert (Hf : forall off bs, (off, bs) ∈ header_fields p n body -> (off + length bs <= 32 \/ 36 <= off /\ (off + length bs <= 44 \/ 300 <= off))%nat ->
    slice off (length bs) h = bs).
  { intros off bs Hin' Ho. rewrite <- (F0 _ Hin') at 2. cbn [fst snd]. apply slice_ext. intros i Hi. unfold h.
    rewrite lookup_splice_out by (rewrite length_to_le_bytes; lia). apply Hout. lia. }
  destruct Hp as [Hpb Hpc Hpt Hpu Hps].
  assert (Hr : forall off w v, (off, to_be_bytes w v) ∈ header_fields p n body -> 0 <= v < 256 ^ Z.of_nat w ->
    (off + w <= 32 \/ 36 <= off /\ (off + w <= 44 \/ 300 <= off))%nat -> rd w off h = v).
  { intros off w v Hin' Hv Ho. unfold rd. pose proof (Hf off (to_be_bytes w v) Hin') as Hs.
    rewrite length_to_be_bytes in Hs. rewrite Hs by lia. by apply from_to_be_bytes_small. }
  unfold in_u in *. assert (Hwl : wrap 32 (Z.of_nat (length body)) = Z.of_nat (length body)) by (apply wrap_small; unfold in_u; lia).
  assert (Hlen : (length d - length body = 512 * nb - length body)%nat) by lia.
  split; rewrite ?Hlen, <- ?Ed0.
  - exact Lh.
  - lia.
  - apply Hr; [in_fields|done|f_lia].
  - apply Hr; [in_fields|done|f_lia].
  - apply Hr; [in_fields|done|f_lia].
  - rewrite <- Hwl. apply Hr; [in_fields|rewrite Hwl; cbn; lia|f_lia].
  - rewrite <- lsn_at_sum by done. apply Hr; [in_fields|rewrite lsn_at_sum by done; cbn; lia|f_lia].
  - apply Hr; [in_fields|done|f_lia].
  - apply Hr; [in_fields|done|f_lia].
  - apply Hr; [in_fields|apply native_range|f_lia].
  - pose proof (Hf 304%nat (p_uuid p)) as Hx. rewrite Hpu in Hx. apply Hx; [in_fields|f_lia].
  - apply Hr; [in_fields|done|f_lia].
  - unfold h. rewrite (record_checksum_splice h1) by (rewrite ?length_to_le_bytes, ?length_take; lia). rewrite Ec. f_equal.
    symmetry. apply rd_le_splice_same; [cbn; lia|f_lia].
  - intros k j Hk Hj. unfold h. rewrite lookup_splice_out by (rewrite length_to_le_bytes; lia). apply Hin; lia.
  - intros k j Hj Hk. rewrite Hst by done. destruct (decide (j < 4)%nat); [rewrite decide_True by lia|rewrite decide_False by lia]; done.
Qed.
End encode_ok.

(** ** Dividing a checkpoint *)

Definition op_cost (op : Op) : nat := (OP_HEADER_SIZE + length (op_data op))%nat.
Definition ops_cost (ops : list Op) : nat := sum_list (op_cost <$> ops).

Lemma length_payload tid ops : length (payload tid ops) = ops_cost ops.
Proof.
  unfold ops_cost. induction ops as [|op ops IH]; [done|].
  change (payload tid (op :: ops)) with (payload_op tid op ++ payload tid ops).
  rewrite length_app, length_payload_op, IH. cbn. unfold op_cost, OP_HEADER_SIZE. lia.
Qed.

Lemma payload_app tid a b : payload tid (a ++ b) = payload tid a ++ payload tid b.
Proof. unfold payload. by rewrite fmap_app, concat_app. Qed.

Lemma ops_cost_app a b : ops_cost (a ++ b) = (ops_cost a + ops_cost b)%nat.
Proof. unfold ops_cost. rewrite fmap_app. apply sum_list_with_app. Qed.

(** No two neighbouring groups could be one. *)
Definition full_before (max : nat) (groups : list (list Op)) : Prop :=
  forall i g g', groups !! i = Some g -> groups !! S i = Some g' ->
    exists op rest, g' = op :: rest /\ (max < ops_cost g + op_cost op)%nat.

Lemma full_before_snoc max out g :
  full_before max out ->
  match list.last out with
  | Some l => exists op rest, g = op :: rest /\ (max < ops_cost l + op_cost op)%nat
  | None => True
  end -> full_before max (out ++ [g]).
Proof.
  intros Hf Hl i x y Hx Hy. destruct (decide (S i < length out)%nat) as [Hi|Hi].
  - rewrite lookup_app_l in Hx, Hy by lia. by apply (Hf i).
  - rewrite lookup_app_r in Hy by lia. apply list_lookup_singleton_Some in Hy as [Hi0 <-].
    assert (Hi' : i = (length out - 1)%nat) by lia. rewrite lookup_app_l in Hx by lia.
    rewrite last_lookup in Hl. replace (Nat.pred (length out)) with i in Hl by lia. rewrite Hx in Hl. exact Hl.
Qed.

Record split_ok (max : nat) (ops : list Op) (groups : list (list Op)) : Prop := {
  so_ops : concat groups = ops;
  so_fits : Forall (fun g => (ops_cost g <= max)%nat) groups;
  so_some : groups <> [];
  so_full : full_before max groups;
}.

Lemma split_loop_spec max ops : forall out current,
  (ops_cost current <= max)%nat -> Forall (fun g => (ops_cost g <= max)%nat) out -> full_before max out ->
  (current = [] -> out = []) ->
  match list.last out with
  | Some l => exists op rest, current = op :: rest /\ (max < ops_cost l + op_cost op)%nat
  | None => True
  end ->
  match split_loop max ops out current (ops_cost current) with
  | Ok groups => split_ok max (concat out ++ current ++ ops) groups
  | Err _ => exists op, op ∈ ops /\ (max < op_cost op)%nat
  | Panic => False
  end.
Proof.
  induction ops as [|op ops IH]; intros out current Hc Ho Hf He Hl; cbn [split_loop].
  - rewrite app_nil_r. destruct current as [|op rest].
    { rewrite He by done. cbn. split; cbn; [done|repeat constructor; unfold ops_cost; cbn; lia|done|].
      intros i g g' _ Hg. by rewrite lookup_cons_ne_0 in Hg by lia. }
    set (cur := op :: rest) in *. destruct (out ++ [cur]) eqn:E; [by destruct out|]. rewrite <- E. split.
    + by rewrite concat_app, concat_cons, app_nil_r.
    + apply Forall_app. split; [done|]. by repeat constructor.
    + by rewrite E.
    + by apply full_before_snoc.
  - fold (op_cost op). destruct (Nat.ltb_spec max (op_cost op)) as [Hbig|Hsm]; cbn [fail_if mbind res_bind].
    { exists op. split; [by left|done]. }
    assert (H1 : ops_cost [op] = op_cost op) by (unfold ops_cost; cbn; lia).
    destruct (Nat.ltb_spec max (ops_cost current + op_cost op)) as [Hov|Hfit].
    + specialize (IH (out ++ [current]) [op]). rewrite H1, last_snoc in IH.
      rewrite concat_app, concat_cons, app_nil_r, <- app_assoc in IH. cbn [app] in IH.
      assert (Hall : Forall (fun g => (ops_cost g <= max)%nat) (out ++ [current]))
        by (apply Forall_app; split; [done|by repeat constructor]).
      specialize (IH Hsm Hall (full_before_snoc _ _ _ Hf Hl) ltac:(done) ltac:(by exists op, [])).
      destruct (split_loop _ _ _ _ _); [done| |done]. destruct IH as (x & Hx & ?). exists x. split; [by right|done].
    + specialize (IH out (current ++ [op])). rewrite ops_cost_app, H1 in IH. rewrite <- app_assoc in IH. cbn [app] in IH.
      assert (Hl' : match list.last out with
        | Some l => exists op0 rest, current ++ [op] = op0 :: rest /\ (max < ops_cost l + op_cost op0)%nat
        | None => True end).
      { destruct (list.last out); [|done]. destruct Hl as (x & r & -> & ?). by exists x, (r ++ [op]). }
      assert (Hne : current ++ [op] = [] -> out = []) by (by destruct current).
      specialize (IH Hfit Ho Hf Hne Hl'). destruct (split_loop _ _ _ _ _); [done| |done].
      destruct IH as (x & Hx & ?). exists x. split; [by right|done].
Qed.

Lemma max_payload_Ok iclog_size max : max_payload iclog_size = Ok max -> 512 <= iclog_size <= 32768 /\ Z.of_nat max = iclog_size - 512.
Proof.
  unfold max_payload, checked_sub. change XLOG_HEADER_CYCLE_SIZE with 32768.
  destruct (Z.ltb_spec 32768 iclog_size); [done|]. destruct (Z.leb_spec 512 iclog_size); [|done]. intros [= <-]. lia.
Qed.

Lemma max_payload_total iclog_size : max_payload iclog_size <> Panic.
Proof. unfold max_payload. destruct (_ <? _); [done|]. by destruct (checked_sub _ _). Qed.

Lemma blocks_of_small n : Z.of_nat n <= 32768 -> blocks_of n = 1 + Z.of_nat (div_ceil n 512).
Proof.
  intros Hn. unfold blocks_of, BBSIZE. pose proof (div_ceil_bounds n 512 ltac:(lia)).
  rewrite wrap_small by (unfold in_u; lia). rewrite wadd_small by lia. done.
Qed.

(** ** The blocks of a record *)

Lemma record_blocks_for_log_Ok tid ops iclog_size logsunit blocks :
  in_u 32 logsunit -> record_blocks_for_log tid ops iclog_size logsunit = Ok blocks ->
  let a := Z.max logsunit 512 / 512 in
  0 < a /\ blocks mod a = 0 /\ 1 <= blocks <= 64 /\ blocks * 512 <= iclog_size <= 32768 /\
  Z.of_nat (ops_cost ops) <= (blocks - 1) * 512 /\
  (forall b, b mod a = 0 -> Z.of_nat (ops_cost ops) <= (b - 1) * 512 -> blocks <= b).
Proof.
  intros [Hl0 Hl] E. cbv zeta. unfold record_blocks_for_log, record_blocks in E.
  apply guard_Ok in E as [Hal E]. apply negb_false_iff, Z.eqb_eq in Hal. res_inv. bool_prop.
  match goal with H : max_payload _ = Ok _ |- _ => apply max_payload_Ok in H as [Hi Hm] end.
  rewrite length_payload in *. set (n := ops_cost ops) in *.
  pose proof (div_ceil_bounds n 512 ltac:(lia)) as Hd.
  rewrite blocks_of_small in * by lia. set (nb := Z.of_nat (div_ceil n 512)) in *.
  set (al := Z.max logsunit 512) in *. assert (Hal' : al = 512 * (al / 512)) by (apply Z.div_exact; lia).
  set (a := al / 512) in *. assert (Ha : 0 < a) by lia.
  rewrite (wmul_small 64 (1 + nb) 512) in * by lia.
  pose proof (zdiv_ceil_bounds ((1 + nb) * 512) al ltac:(lia)) as Hz. set (q := zdiv_ceil ((1 + nb) * 512) al) in *.
  assert (Hq : 0 < q) by nia. rewrite wmul_small in * by nia.
  assert (Hdiv : q * al / 512 = q * a) by (rewrite Hal', (Z.mul_comm 512), Z.mul_assoc; apply Z.div_mul; lia).
  assert (Hr : q * a * 512 <= iclog_size) by (rewrite Hal' in *; lia).
  rewrite Hdiv in *. rewrite wrap_small by (unfold in_u; lia). split_and!.
  - done.
  - apply Z.mod_mul. lia.
  - nia.
  - nia.
  - rewrite Hal' in Hz. lia.
  - lia.
  - rewrite Hal' in Hz. lia.
  - intros b Hb Hn. apply Z.div_exact in Hb; [|lia]. set (t := b / a) in *.
    rewrite Hal' in Hz. assert (q < t + 1) by nia. nia.
Qed.

(** ** A record on the device *)

Lemma record_blocks_for_log_total tid ops iclog_size logsunit : record_blocks_for_log tid ops iclog_size logsunit <> Panic.
Proof.
  unfold record_blocks_for_log, record_blocks. destruct (negb _); cbn [fail_if mbind res_bind]; [done|].
  pose proof (max_payload_total iclog_size). destruct (max_payload _); cbn [mbind res_bind]; [|done..].
  destruct (_ <? _)%nat; cbn [fail_if mbind res_bind]; [done|]. by destruct (_ <? _).
Qed.

Section appended.
Context `{host : Host} `{Crc : Crc32c} `{!Crc32cLaws} (sb : Superblock) {D : Type} {dev : BlockDevice D}
  {dlaws : BlockDeviceLaws D}.

Record head_typed (head : Head) : Prop := {
  ht_block : in_u 32 (head_block head);
  ht_cycle : in_u 32 (head_cycle head);
  ht_free : 0 <= head_free_blocks head < 2 ^ 32;
  ht_size : in_u 32 (head_iclog_size head);
}.

Lemma placement_of_typed head tail :
  head_typed head -> in_u 64 tail -> length (sb_uuid sb) = 16%nat -> placement_typed (placement_of sb head tail).
Proof. intros [? ? ? ?] ? ?. by split. Qed.

(** Where block [b] of the ring is on the device. *)
Definition log_pos (b : Z) : Z := fsblock_offset sb (sb_logstart sb) + b * 512.

(** The record at [b]: the device holds it, and the rest is as it was. *)
Record laid (d d' : D) (b : Z) (rec : bytes) : Prop := {
  ld_rec : dev_bytes d' (log_pos b) (length rec) = rec;
  ld_rest x : ~ (log_pos b <= x < log_pos b + Z.of_nat (length rec)) -> dev_byte d' x = dev_byte d x;
}.

Lemma write_record_spec d head tail n body :
  head_typed head -> in_u 64 tail -> length (sb_uuid sb) = 16%nat -> Z.of_nat n < 2 ^ 32 ->
  Z.of_nat (length body) <= 32768 -> 0 <= fsblock_offset sb (sb_logstart sb) < 2 ^ 62 ->
  exists h dat, encoded (placement_of sb head tail) (Z.of_nat n) body h dat /\
  match write_record sb d head tail n body with
  | (d', Ok lsn) => lsn = head_cycle head * 2 ^ 32 + head_block head /\ laid d d' (head_block head) (h ++ dat)
  | (d', Err _) => forall x, ~ (log_pos (head_block head) <= x < log_pos (head_block head) + Z.of_nat (length (h ++ dat))) ->
      dev_byte d' x = dev_byte d x
  | (_, Panic) => False
  end.
Proof.
  intros Hh Ht Hu Hn Hb Hpos. unfold write_record. rewrite wrap_small by (unfold in_u; lia).
  destruct (encode_record_Ok (placement_of sb head tail) (Z.of_nat n) body) as (h & dat & E & Henc);
    [by apply placement_of_typed|unfold in_u; lia|done|].
  exists h, dat. split; [done|]. rewrite E. destruct Hh as [[Hb0 Hb1] [Hc0 Hc1] Hf Hs].
  rewrite (wmul_small 64 (head_block head)) by lia. rewrite wadd_small by lia. fold (log_pos (head_block head)).
  pose proof (dev_write_total d (log_pos (head_block head)) (h ++ dat)) as Hwt.
  pose proof (dev_write_Ok d (log_pos (head_block head)) (h ++ dat)) as Hwo.
  pose proof (dev_write_out d (log_pos (head_block head)) (h ++ dat)) as Hwr.
  destruct (dev_write d _ _) as [d1 [[]|e|]]; cbn [fst snd] in *; [|exact Hwr|done].
  pose proof (dev_flush_total d1) as Hft. pose proof (dev_flush_byte d1) as Hfb.
  destruct (dev_flush d1) as [d2 [u|e|]]; cbn [fst snd] in *; [| |done].
  - split; [unfold lsn_of; by rewrite lsn_at_sum|]. split; [|intros x Hx; rewrite Hfb; by apply Hwr].
    apply list_eq. intros i. destruct (decide (i < length (h ++ dat))%nat) as [Hi|Hi].
    + rewrite lookup_dev_bytes by done. destruct (lookup_lt_is_Some_2 _ _ Hi) as [x Hx]. rewrite Hx, Hfb. f_equal.
      by apply (Hwo d1 eq_refl).
    + rewrite !lookup_ge_None_2; [done|lia|rewrite length_dev_bytes; lia].
  - intros x Hx. rewrite Hfb. by apply Hwr.
Qed.

(** The payload, padded to the end of its last stripe. *)
Definition padded_to (blocks : Z) (b : bytes) : bytes := resize (Z.to_nat ((blocks - 1) * 512)) x00 b.

Lemma padded_payload_spec head tid ops :
  in_u 32 (sb_logsunit sb) ->
  match padded_payload sb head tid ops with
  | Ok body => exists blocks, record_blocks_for_log tid ops (head_iclog_size head) (sb_logsunit sb) = Ok blocks /\
      body = padded_to blocks (payload tid ops) /\ blocks <= head_free_blocks head /\
      head_block head mod (Z.max (sb_logsunit sb) 512 / 512) = 0
  | Err _ => True
  | Panic => False
  end.
Proof.
  intros Hls. unfold padded_payload. pose proof (max_payload_total (head_iclog_size head)) as Hm.
  destruct (max_payload _) as [max|e|] eqn:Em; cbn [mbind res_bind]; [|done..].
  destruct (max <? _)%nat eqn:Eb; cbn [fail_if mbind res_bind]; [done|].
  destruct (record_blocks_for_log _ _ _ _) as [blocks|e|] eqn:E; cbn [mbind res_bind]; [|done|].
  2:{ by apply record_blocks_for_log_total in E. }
  pose proof (record_blocks_for_log_Ok _ _ _ _ _ Hls E) as (Ha & _ & Hbl & _).
  destruct (Z.eqb_spec (head_block head mod (Z.max (sb_logsunit sb) 512 / 512)) 0) as [Hal|]; cbn [negb fail_if mbind res_bind]; [|done].
  destruct (Z.ltb_spec (head_free_blocks head) blocks); cbn [fail_if mbind res_bind]; [done|].
  rewrite wsub_small, wmul_small by lia. unfold resized. rewrite (proj2 (Z.leb_gt _ _)) by lia. by exists blocks.
Qed.
End appended.

Lemma split_into_records_spec ops iclog_size :
  match split_into_records ops iclog_size with
  | Ok groups => exists max, max_payload iclog_size = Ok max /\ split_ok max ops groups /\
      forall tid, Forall (fun g => (length (payload tid g) <= max)%nat) groups
  | Err e => max_payload iclog_size = Err e \/
      exists max op, max_payload iclog_size = Ok max /\ op ∈ ops /\ (max < op_cost op)%nat
  | Panic => False
  end.
Proof.
  unfold split_into_records. pose proof (max_payload_total iclog_size) as Ht.
  destruct (max_payload iclog_size) as [max|e|]; cbn [mbind res_bind]; [|by left|done].
  pose proof (split_loop_spec max ops [] [] ltac:(unfold ops_cost; cbn; lia) ltac:(constructor) ltac:(by intros ? ? ? ?) ltac:(done) I) as H.
  change (ops_cost []) with 0%nat in H. destruct (split_loop _ _ _ _ _); [|right|done].
  - exists max. split; [done|]. split; [done|]. intros tid. destruct H as [_ Hf _ _].
    eapply Forall_impl; [exact Hf|]. intros g Hg. cbn. by rewrite length_payload.
  - destruct H as (op & ? & ?). by exists max, op.
Qed.

(** A checkpoint divided into records is the same operations in the same
    order.  Each record fits the log's buffer, there is at least one, no two
    neighbours would have fitted in one, and the only checkpoint refused has an
    operation that is larger than a record by itself, or a log whose buffers
    this writer cannot describe. *)
Theorem split_into_records_exact ops iclog_size :
  match split_into_records ops iclog_size with
  | Ok groups => exists max, max_payload iclog_size = Ok max /\ split_ok max ops groups /\
      forall tid, Forall (fun g => (length (payload tid g) <= max)%nat) groups
  | Err e => max_payload iclog_size = Err e \/
      exists max op, max_payload iclog_size = Ok max /\ op ∈ ops /\ (max < op_cost op)%nat
  | Panic => False
  end.
Proof. apply split_into_records_spec. Qed.

Lemma pad_payload_length tid : length (payload tid (pad_ops tid)) = 52%nat.
Proof. rewrite length_payload. unfold ops_cost, op_cost, pad_ops, OP_HEADER_SIZE, trans_header. cbn. reflexivity. Qed.

Lemma wraps_first_spec needed free tid :
  wraps_first needed free tid = (free <? needed) || (free - needed =? 1).
Proof.
  unfold wraps_first. rewrite pad_payload_length. change (blocks_of 52) with 2.
  destruct (Z.ltb_spec free needed), (Z.ltb_spec needed free), (Z.ltb_spec (free - needed) 2), (Z.eqb_spec (free - needed) 1);
    cbn; try done; lia.
Qed.
