(* ===== verification/LogWalk.v ===== *)
(** * Reading the log's records ([log_recover::Ring], [walk], [check_record],
      [unpack])

    Recovery begins at the record the newest one names as the tail, checks
    each record against its checksum, puts the displaced words back, gathers
    its operations into transactions, and goes on to the block after it until
    it has read the newest.

    The theorems: walking any log ends after at most one turn per block of the
    ring; a record this driver wrote is read back as exactly the operations it
    was given, and records that follow one another, across the wrap or not, as
    the operations of all of them in order. *)

From Stdlib Require Import ZArith Lia Strings.String Strings.Byte Bool.
From stdpp Require Import base list gmap strings sets.
From S2P Require Import Prelude Error Endian Crc32c Superblock Sample Ag FreeSpace AgBtree Overlay BufWrite LogRecover Log LogWrite.

#[local] Open Scope width_scope.

Section ring_read.
Context {D : Type} {dev : BlockDevice D} (d : D).

(** [Ring]: the device is the section's. *)
Record Ring := mkRing { ring_start : Z; ring_blocks : Z }.

(** The first turn reads to the end of the ring or of the run, and a run is no
    longer than the ring: two turns. *)
Fixpoint read_turns (fuel : nat) (r : Ring) (block : Z) (want : nat) (out : bytes) : res bytes :=
  if (length out <? want)%nat then
    match fuel with
    | O => Panic
    | S fuel =>
        let here := Nat.min (Z.to_nat ((ring_blocks r - block) ⊠{64} 512)) (want - length out) in
        piece ← Log.read_at d (ring_start r ⊞{64} (block ⊠{64} 512)) here;
        read_turns fuel r 0 want (out ++ piece)
    end
  else Ok out.
Definition ring_read (r : Ring) (at_ count : Z) : res bytes :=
  fail_if (ring_blocks r <? count)
    (CorruptLog (fmt "a log record claims {} basic blocks, more than the {} in the whole ring" [AZ count; AZ (ring_blocks r)]));;
  assert (negb (ring_blocks r =? 0));;
  read_turns 2 r (at_ mod ring_blocks r) (Z.to_nat (count ⊠{64} 512)) [].
End ring_read.

Section check.
Context `{Crc : Crc32c}.

Definition check_record (headers : bytes) (header_blocks : nat) (data : bytes) (at_ : Z) : res unit :=
  stored ← le32 headers h.CRC;
  if stored =? 0 then Ok tt else
  version ← be32 headers 8;
  fail_if (negb (Z.land version 2 =? 0) &&
           (header_blocks <? div_ceil (length data) (Z.to_nat XLOG_HEADER_CYCLE_SIZE))%nat)
    (CorruptLog (fmt "the log record at basic block {} has too few cycle-data headers" [AZ at_]));;
  computed ← record_checksum headers data;
  fail_if (negb (computed =? stored))
    (CorruptLog (fmt "the log record at basic block {} says its checksum is {} and its contents give {}"
       [AZ at_; AZ stored; AZ computed])).
End check.

Fixpoint unpack_loop (headers : bytes) (header_blocks : nat) (is_ : list nat) (data : bytes) : res bytes :=
  match is_ with
  | [] => Ok data
  | i :: is_ =>
      let word :=
        if (i <? XLOG_CYCLE_DATA_ENTRIES)%nat then Some (rec_CYCLE_DATA + 4 * i)%nat
        else
          let block := (i / XLOG_CYCLE_DATA_ENTRIES)%nat in
          if (header_blocks <=? block)%nat then None
          else Some (block * Overlay.BBSIZE + 4 + 4 * (i mod XLOG_CYCLE_DATA_ENTRIES))%nat in
      match word with
      | None => Ok data
      | Some word =>
          w ← get_slice word 4 headers;
          data ← copy_at (i * Overlay.BBSIZE) w data;
          unpack_loop headers header_blocks is_ data
      end
  end.
Definition unpack (headers : bytes) (header_blocks : nat) (data : bytes) (len : nat) : res bytes :=
  data ← unpack_loop headers header_blocks (seq 0 (length data / Overlay.BBSIZE)) data;
  Ok (list.take len data).

Section walk.
Context `{host : Host} `{Crc : Crc32c} (sb : Superblock) {D : Type} {dev : BlockDevice D} (d : D).
Context {S : Type} (visit : S -> list Item -> res S).

(** One record: its blocks in all, its sequence number, and what its
    operations did. *)
Definition walk_record (r : Ring) (at_ : Z) (in_flight : gmap Z (list Item)) (s : S)
    : res (Z * Z * (gmap Z (list Item) * S)) :=
  header ← ring_read d r at_ 1;
  magic ← be32 header h.MAGICNO;
  uuid ← uuid_at header h.FS_UUID;
  fail_if (negb (magic =? XLOG_HEADER_MAGIC) || negb (bool_decide (uuid = sb_uuid sb)))
    (CorruptLog (fmt "no log record begins at basic block {}, where the record before it said the next one would" [AZ at_]));;
  lsn ← be64 header h.LSN;
  hb ← header_blocks header;
  len ← be32 header h.LEN;
  let data_blocks := zdiv_ceil len 512 in
  raw ← ring_read d r (at_ ⊞{64} hb) data_blocks;
  headers ← ring_read d r at_ hb;
  covered ← get_slice 0 (Z.to_nat len) raw;
  check_record headers (Z.to_nat hb) covered at_;;
  data ← unpack headers (Z.to_nat hb) raw (Z.to_nat len);
  num ← be32 header h.NUM_LOGOPS;
  x ← read_ops visit (Z.to_nat num) data 0 in_flight s;
  Ok (hb ⊞{64} data_blocks, lsn, x).

(** Record after record: the turn that brings [records] past the blocks of the
    ring is the last, so one more than those is fuel enough. *)
Fixpoint walk_loop (fuel : nat) (r : Ring) (newest_lsn at_ : Z) (in_flight : gmap Z (list Item)) (s : S)
    (records : nat) : res (nat * S) :=
  match fuel with
  | O => Panic
  | Datatypes.S fuel =>
      '(used, lsn, (in_flight, s)) ← walk_record r at_ in_flight s;
      let records := (records + 1)%nat in
      if lsn =? newest_lsn then Ok (records, s)
      else
        let at_ := (at_ ⊞{64} used) mod ring_blocks r in
        fail_if (ring_blocks r <? Z.of_nat records)
          (CorruptLog (fmt "the log's records loop without ever reaching its newest" []));;
        walk_loop fuel r newest_lsn at_ in_flight s records
  end.

Definition walk (newest : LogRec) (s : S) : res (nat * S) :=
  '(start, log_bytes) ← extent sb;
  let r := mkRing start (log_bytes / 512) in
  tail_lsn ← be64 (rec_header newest) rec_TAIL_LSN;
  fail_if (tail_lsn =? 0)
    (CorruptLog (fmt "the newest log record names no tail, so there is no telling which records still have to be applied" []));;
  let at_ := Z.land tail_lsn 0xffffffff in
  fail_if (ring_blocks r <=? at_)
    (CorruptLog (fmt "the log's tail is at block {}, past the {} blocks of the ring" [AZ at_; AZ (ring_blocks r)]));;
  walk_loop (Z.to_nat (ring_blocks r + 1)) r (rec_lsn newest) at_ ∅ s 0.
End walk.

(** ** A run of the ring *)

Section ring_run.
Context {D : Type} {dev : BlockDevice D} {dlaws : BlockDeviceLaws D} (d : D) (r : Ring).
Context (Hs : 0 <= ring_start r) (Hn : 0 < ring_blocks r) (Hfit : ring_start r + ring_blocks r * 512 < 2 ^ 64).

(** [count] blocks from [b], which is in the ring. *)
Definition run_bytes (b count : Z) : bytes :=
  if decide (b + count <= ring_blocks r) then dev_bytes d (ring_start r + b * 512) (Z.to_nat (count * 512))
  else dev_bytes d (ring_start r + b * 512) (Z.to_nat ((ring_blocks r - b) * 512)) ++
       dev_bytes d (ring_start r) (Z.to_nat ((b + count - ring_blocks r) * 512)).

Lemma length_run_bytes b count :
  0 <= b < ring_blocks r -> 0 <= count -> length (run_bytes b count) = Z.to_nat (count * 512).
Proof.
  intros Hb Hc. unfold run_bytes. case_decide; rewrite ?length_app, !length_dev_bytes; lia.
Qed.

Lemma ring_read_spec at_ count :
  0 <= at_ -> 0 <= count ->
  clean d (ring_start r) (ring_start r + ring_blocks r * 512) (ring_read d r at_ count) \/ (ring_blocks r < count /\ exists e, ring_read d r at_ count = Err e).
Proof.
  intros Ha Hc. unfold ring_read. destruct (Z.ltb_spec (ring_blocks r) count) as [Hbig|Hsm]; cbn [fail_if mbind res_bind].
  { right. split; [done|]. by eexists. }
  left. rewrite (proj2 (Z.eqb_neq (ring_blocks r) 0)) by lia. cbn [negb assert mbind res_bind].
  pose proof (Z.mod_pos_bound at_ (ring_blocks r) Hn) as Hb. set (b := at_ mod ring_blocks r) in *.
  rewrite (wmul_small 64 count) by lia. cbn [read_turns length].
  destruct (Nat.ltb_spec 0 (Z.to_nat (count * 512))); [|done].
  rewrite (wmul_small 64 (ring_blocks r - b)), (wmul_small 64 b), (wadd_small 64 (ring_start r) (b * 512)) by lia.
  apply clean_bind; [apply clean_read; lia|]. intros piece Ep.
  pose proof (log_read_at_spec d (ring_start r + b * 512) (Nat.min (Z.to_nat ((ring_blocks r - b) * 512)) (Z.to_nat (count * 512) - 0))) as Hr.
  rewrite Ep in Hr. cbn [app]. assert (length piece = Nat.min (Z.to_nat ((ring_blocks r - b) * 512)) (Z.to_nat (count * 512) - 0)) as Hl
    by (rewrite Hr; apply length_dev_bytes).
  destruct (Nat.ltb_spec (length piece) (Z.to_nat (count * 512))); [|done].
  rewrite (wmul_small 64 (ring_blocks r - 0)), (wmul_small 64 0), wadd_small by lia.
  apply clean_bind; [apply clean_read; lia|]. intros p2 Ep2.
  pose proof (log_read_at_spec d (ring_start r + 0 * 512) (Nat.min (Z.to_nat ((ring_blocks r - 0) * 512)) (Z.to_nat (count * 512) - length piece))) as Hr2.
  rewrite Ep2 in Hr2. rewrite (proj2 (Nat.ltb_ge _ _)); [done|]. rewrite length_app, Hr2, length_dev_bytes. lia.
Qed.

Lemma ring_read_Ok at_ count raw :
  0 <= at_ -> 0 <= count -> ring_read d r at_ count = Ok raw -> count <= ring_blocks r /\ raw = run_bytes (at_ mod ring_blocks r) count.
Proof.
  intros Ha Hc E. unfold ring_read in E. apply guard_Ok in E as [Hbig%Z.ltb_ge E]. split; [done|].
  rewrite (proj2 (Z.eqb_neq (ring_blocks r) 0)) in E by lia. cbn [negb assert mbind res_bind] in E.
  pose proof (Z.mod_pos_bound at_ (ring_blocks r) Hn) as Hb. set (b := at_ mod ring_blocks r) in *.
  rewrite (wmul_small 64 count) in E by lia. cbn [read_turns length] in E. unfold run_bytes.
  destruct (Nat.ltb_spec 0 (Z.to_nat (count * 512))) as [H0|H0].
  2:{ injection E as <-. replace count with 0 by lia. rewrite decide_True by lia. done. }
  rewrite (wmul_small 64 (ring_blocks r - b)) in E by lia. apply bind_Ok in E as (piece & Ep & E).
  rewrite (wmul_small 64 b), wadd_small in Ep by lia.
  match type of Ep with Log.read_at _ ?o ?n = _ => pose proof (log_read_at_spec d o n) as Hr end.
  rewrite Ep in Hr. cbn [app] in E. rewrite Nat.sub_0_r in Hr.
  case_decide as Hw.
  - rewrite Nat.min_r in Hr by lia. subst piece. rewrite length_dev_bytes, Nat.ltb_irrefl in E. by injection E as <-.
  - rewrite Nat.min_l in Hr by lia. subst piece. rewrite length_dev_bytes in E.
    rewrite (proj2 (Nat.ltb_lt _ _)) in E by lia. apply bind_Ok in E as (p2 & Ep2 & E).
    rewrite (wmul_small 64 (ring_blocks r - 0)), (wmul_small 64 0), wadd_small in Ep2 by lia.
    match type of Ep2 with Log.read_at _ ?o ?n = _ => pose proof (log_read_at_spec d o n) as Hr2 end.
    rewrite Ep2 in Hr2. rewrite Nat.min_r in Hr2 by lia. subst p2.
    rewrite length_app, !length_dev_bytes in E. rewrite (proj2 (Nat.ltb_ge _ _)) in E by lia. injection E as <-.
    do 2 f_equal; [lia|]. f_equal. lia.
Qed.
End ring_run.

(** ** Every record is read or refused *)

Lemma unpack_loop_total headers hb is_ : forall data,
  (1 <= hb)%nat -> length headers = (hb * 512)%nat -> Forall (fun i => (i * 512 + 512 <= length data)%nat) is_ ->
  unpack_loop headers hb is_ data <> Panic.
Proof.
  induction is_ as [|i is_ IH]; intros data Hh Hl Hi; cbn [unpack_loop]; [done|].
  apply Forall_cons in Hi as [Hi His]. unfold XLOG_CYCLE_DATA_ENTRIES, rec_CYCLE_DATA, Overlay.BBSIZE.
  assert (Hstep : forall w, (w + 4 <= length headers)%nat ->
    (x ← get_slice w 4 headers; data ← copy_at (i * 512) x data; unpack_loop headers hb is_ data) <> Panic).
  { intros w Hw. rewrite get_slice_Ok by lia. cbn [mbind res_bind].
    assert (length (slice w 4 headers) = 4%nat) by (apply length_slice; lia).
    rewrite copy_at_Ok by lia. cbn [mbind res_bind]. apply IH; [done|done|]. by rewrite length_splice by lia. }
  destruct (Nat.ltb_spec i 64); [apply Hstep; lia|].
  destruct (Nat.leb_spec hb (i / 64)); [done|]. apply Hstep.
  pose proof (Nat.mod_upper_bound i 64 ltac:(lia)). nia.
Qed.

Lemma unpack_total headers hb data len :
  (1 <= hb)%nat -> length headers = (hb * 512)%nat -> unpack headers hb data len <> Panic.
Proof.
  intros Hh Hl. unfold unpack. apply bind_not_Panic; [|done]. apply unpack_loop_total; [done|done|].
  apply Forall_forall. intros i [_ Hi]%elem_of_seq. unfold Overlay.BBSIZE in Hi.
  pose proof (Nat.div_mod_eq (length data) 512). nia.
Qed.

Section totals.
Context `{host : Host} `{Crc : Crc32c}.

Lemma extended_total headers hb blocks : forall buf,
  length headers = (hb * 512)%nat -> Forall (fun b => (b < hb)%nat) blocks -> extended headers blocks buf <> Panic.
Proof.
  induction blocks as [|b blocks IH]; intros buf Hl Hb; cbn [extended]; [done|].
  apply Forall_cons in Hb as [Hb Hbs]. unfold Overlay.BBSIZE. rewrite get_slice_Ok by nia. by apply IH.
Qed.

Lemma check_record_total headers hb data at_ :
  (1 <= hb)%nat -> length headers = (hb * 512)%nat -> check_record headers hb data at_ <> Panic.
Proof.
  intros Hh Hl. unfold check_record. rewrite le32_Ok by (unfold h.CRC; lia). cbn [mbind res_bind].
  destruct (_ =? 0); [done|]. rewrite be32_Ok by lia. cbn [mbind res_bind].
  destruct (_ && _) eqn:Eg; cbn [fail_if mbind res_bind]; [done|]. apply bind_not_Panic; [|intros c _; apply fail_if_not_Panic].
  unfold record_checksum, h.CRC, XLOG_REC_HEADER_SIZE. rewrite copy_at_Ok by (rewrite length_take; cbn [length]; lia).
  cbn [mbind res_bind]. rewrite be32_Ok by (unfold h.VERSION; lia). cbn [mbind res_bind].
  change h.VERSION with 8%nat. change XLOG_VERSION_2 with 2.
  apply bind_not_Panic; [|done]. destruct (negb (Z.land (rd 4 8 headers) 2 =? 0)) eqn:Ev; [|done].
  cbn [andb] in Eg. apply Nat.ltb_ge in Eg. apply (extended_total headers hb); [done|].
  apply Forall_forall. intros b [? ?]%elem_of_seq. lia.
Qed.

Context {S : Type} (visit : S -> list Item -> res S) (Hvisit : forall s items, visit s items <> Panic).

Lemma read_ops_total data n : forall pos in_flight s, read_ops visit n data pos in_flight s <> Panic.
Proof.
  induction n as [|n IH]; intros pos in_flight s; cbn [read_ops]; [done|]. unfold OP_HEADER_SIZE, o.TID, o.LEN, o.FLAGS.
  destruct (Nat.ltb_spec (length data) (pos + 12)); cbn [fail_if mbind res_bind]; [done|].
  rewrite !be32_Ok by lia. cbn [mbind res_bind].
  destruct (lookup_lt_is_Some_2 data (pos + 9)) as [x Hx]; [lia|]. rewrite Hx. cbn [expect fmap res_fmap mbind res_bind].
  destruct (Nat.ltb_spec (length data) (pos + 12 + Z.to_nat (rd 4 (pos + 4) data))); cbn [fail_if mbind res_bind]; [done|].
  rewrite get_slice_Ok by lia. cbn [mbind res_bind]. apply bind_not_Panic; [|by intros [? ?] _].
  unfold take_op. destruct (negb _); [done|]. destruct (negb _); [done|]. destruct (negb _).
  - destruct (in_flight !! _) as [[|i l]|]; [done| |done]. by apply bind_not_Panic.
  - by destruct (in_flight !! _).
Qed.

Context (sb : Superblock) {D : Type} {dev : BlockDevice D} {dlaws : BlockDeviceLaws D} (d : D) (r : Ring).
Context (Hs : 0 <= ring_start r) (Hn : 0 < ring_blocks r) (Hfit : ring_start r + ring_blocks r * 512 < 2 ^ 64).

Lemma ring_read_total at_ count : 0 <= at_ -> 0 <= count -> ring_read d r at_ count <> Panic.
Proof.
  intros Ha Hc. destruct (ring_read_spec d r Hs Hn Hfit at_ count Ha Hc) as [H|[_ [e ->]]]; [|done].
  intros E. by rewrite E in H.
Qed.

Lemma ring_read_length at_ count raw :
  0 <= at_ -> 0 <= count -> ring_read d r at_ count = Ok raw -> length raw = Z.to_nat (count * 512).
Proof.
  intros Ha Hc E. apply (ring_read_Ok d r Hs Hn Hfit) in E as [_ ->]; [|done..]. apply length_run_bytes; [|done].
  by apply Z.mod_pos_bound.
Qed.

Lemma walk_record_total at_ in_flight s :
  0 <= at_ < ring_blocks r -> walk_record sb d visit r at_ in_flight s <> Panic.
Proof.
  intros Ha. unfold walk_record. apply bind_not_Panic; [apply ring_read_total; lia|]. intros header Eh.
  apply ring_read_length in Eh; [|lia..]. change (Z.to_nat (1 * 512)) with 512%nat in Eh.
  assert (Hu : (h.FS_UUID + 16 <= length header)%nat) by (unfold h.FS_UUID; lia).
  rewrite (be32_Ok header h.MAGICNO), uuid_at_Ok, be64_Ok by (unfold h.MAGICNO, h.LSN; lia || done). cbn [mbind res_bind].
  rewrite header_blocks_Ok by done. rewrite (be32_Ok header h.LEN), (be32_Ok header h.NUM_LOGOPS) by (unfold h.LEN, h.NUM_LOGOPS; lia).
  apply bind_not_Panic; [apply fail_if_not_Panic|]. intros _ _. cbn [mbind res_bind].
  pose proof (hblocks_range header) as Hhb. pose proof (rd_range_any 4 h.LEN header) as [Hl0 Hl].
  change (256 ^ Z.of_nat 4) with (2 ^ 32) in Hl. set (len := rd 4 h.LEN header) in *.
  pose proof (zdiv_ceil_bounds len 512 ltac:(lia)) as Hz. rewrite (wadd_small 64 at_) by lia.
  apply bind_not_Panic; [apply ring_read_total; lia|]. intros raw Er. apply ring_read_length in Er; [|lia..].
  apply bind_not_Panic; [apply ring_read_total; lia|]. intros headers Ehs. apply ring_read_length in Ehs; [|lia..].
  rewrite get_slice_Ok by lia. cbn [mbind res_bind].
  apply bind_not_Panic; [apply check_record_total; lia|]. intros _ _.
  apply bind_not_Panic; [apply unpack_total; lia|]. intros data _.
  apply bind_not_Panic; [apply read_ops_total|done].
Qed.

Lemma walk_loop_total newest fuel : forall at_ in_flight s records,
  0 <= at_ < ring_blocks r -> ring_blocks r + 1 - Z.of_nat records <= Z.of_nat fuel -> Z.of_nat records <= ring_blocks r ->
  walk_loop sb d visit fuel r newest at_ in_flight s records <> Panic.
Proof.
  induction fuel as [|fuel IH]; intros at_ in_flight s records Ha Hf Hr; [lia|]. cbn [walk_loop].
  apply bind_not_Panic; [by apply walk_record_total|]. intros [[used lsn] [i' s']] _.
  destruct (_ =? _); [done|]. destruct (Z.ltb_spec (ring_blocks r) (Z.of_nat (records + 1))); cbn [fail_if mbind res_bind]; [done|].
  apply IH; [by apply Z.mod_pos_bound|lia|lia].
Qed.
End totals.

(** ** What this driver wrote, read back *)

Lemma unpack_loop_lookup headers m : forall a data,
  length headers = 512%nat -> (a + m <= 64)%nat -> (512 * (a + m) <= length data)%nat ->
  exists data', unpack_loop headers 1 (seq a m) data = Ok data' /\ length data' = length data /\
    forall k j, (j < 512)%nat -> data' !! (512 * k + j)%nat =
      if decide (a <= k < a + m /\ j < 4)%nat then headers !! (44 + 4 * k + j)%nat else data !! (512 * k + j)%nat.
Proof.
  induction m as [|m IH]; intros a data Hh Ha Hd; cbn [seq unpack_loop].
  { exists data. split_and!; try done. intros k j Hj. by rewrite decide_False by lia. }
  unfold XLOG_CYCLE_DATA_ENTRIES, rec_CYCLE_DATA, Overlay.BBSIZE. rewrite (proj2 (Nat.ltb_lt _ _)) by lia.
  rewrite get_slice_Ok by lia. cbn [mbind res_bind].
  assert (Hw : length (slice (44 + 4 * a) 4 headers) = 4%nat) by (apply length_slice; lia).
  rewrite copy_at_Ok by lia. cbn [mbind res_bind]. set (d1 := splice _ _ data).
  assert (Hd1 : length d1 = length data) by (apply length_splice; lia).
  destruct (IH (S a) d1 Hh) as (d' & E & El & Hl); [lia|lia|]. exists d'. split; [exact E|]. split; [congruence|].
  intros k j Hj. rewrite Hl by done. unfold d1. destruct (decide (k = a)) as [->|Hne].
  - rewrite decide_False by lia. case_decide.
    + rewrite lookup_splice_in by lia. rewrite lookup_slice, decide_True by lia. f_equal. lia.
    + rewrite lookup_splice_out by lia. done.
  - assert (splice (a * 512) (slice (44 + 4 * a) 4 headers) data !! (512 * k + j)%nat = data !! (512 * k + j)%nat) as ->
      by (apply lookup_splice_out; lia).
    repeat case_decide; try done; lia.
Qed.

Section read_back.
Context `{host : Host} `{Crc : Crc32c} (p : Placement) (n : Z) (body h d : bytes).
Context (Hen : encoded p n body h d) (Hb : Z.of_nat (length body) <= 32768).

Lemma unpack_encoded : unpack h 1 d (length body) = Ok body.
Proof.
  destruct Hen as [Hh Hd _ _ _ _ _ _ _ _ _ _ _ Hw Hr]. pose proof (div_ceil_bounds (length body) 512 ltac:(lia)) as Hc.
  set (nb := div_ceil (length body) 512) in *. unfold unpack, Overlay.BBSIZE.
  rewrite Hd, (Nat.mul_comm 512 nb), Nat.div_mul by done.
  destruct (unpack_loop_lookup h nb 0 d Hh) as (d' & E & El & Hl); [lia|lia|]. rewrite E. cbn [mbind res_bind]. f_equal.
  transitivity (list.take (length body) (body ++ replicate (length d - length body) x00)); [|by rewrite take_app_length].
  f_equal. apply list_eq. intros i. destruct (decide (i < length d)%nat) as [Hi|Hi].
  - pose proof (Nat.div_mod_eq i 512) as Hdm. pose proof (Nat.mod_upper_bound i 512 ltac:(lia)) as Hm.
    assert (i / 512 < nb)%nat by (apply Nat.div_lt_upper_bound; lia).
    rewrite Hdm. rewrite Hl by done. destruct (decide (i mod 512 < 4)%nat) as [H4|H4].
    + rewrite decide_True by lia. rewrite Hw by lia. done.
    + rewrite decide_False by lia. rewrite Hr by lia. by rewrite decide_False.
  - rewrite !lookup_ge_None_2; [done|rewrite length_app, length_replicate; lia|lia].
Qed.

Lemma check_encoded at_ : check_record h 1 (list.take (length body) d) at_ = Ok tt.
Proof.
  destruct Hen as [Hh Hd _ _ Hv _ _ _ _ _ _ _ Hcr _ _]. unfold check_record.
  rewrite le32_Ok by (unfold h.CRC; lia). cbn [mbind res_bind]. destruct (_ =? 0); [done|].
  rewrite be32_Ok by lia. cbn [mbind res_bind].
  assert (Hlt : (1 <? div_ceil (length (list.take (length body) d)) (Z.to_nat XLOG_HEADER_CYCLE_SIZE))%nat = false).
  { apply Nat.ltb_ge. pose proof (one_header_block (length (list.take (length body) d))) as H1.
    rewrite length_take in *. specialize (H1 ltac:(lia)). lia. }
  rewrite Hlt, andb_false_r. cbn [fail_if mbind res_bind]. rewrite Hcr. cbn [mbind res_bind]. by rewrite Z.eqb_refl.
Qed.
End read_back.

(** One record of the ring: where it is, its sequence number and the
    operations in it. *)
Record entry := mkEntry { e_at : Z; e_lsn : Z; e_blocks : Z; e_tid : Z; e_ops : list Op }.

Section replayed.
Context `{host : Host} `{Crc : Crc32c} (sb : Superblock) {D : Type} {dev : BlockDevice D} {dlaws : BlockDeviceLaws D} (d : D).
Context {S : Type} (visit : S -> list Item -> res S).
Context (r : Ring) (Hs : 0 <= ring_start r) (Hn : 0 < ring_blocks r) (Hfit : ring_start r + ring_blocks r * 512 < 2 ^ 64).

(** The ring holds the record, as the writer encodes it. *)
Record holds (e : entry) : Prop := {
  ho_fits : 0 <= e_at e /\ e_at e + e_blocks e <= ring_blocks r;
  ho_ops : in_u 32 (e_tid e) /\ Forall op_typed (e_ops e) /\ Z.of_nat (length (e_ops e)) < 2 ^ 32;
  ho_record : exists p pad h dat,
    encoded p (Z.of_nat (length (e_ops e))) (payload (e_tid e) (e_ops e) ++ pad) h dat /\
    p_uuid p = sb_uuid sb /\ p_iclog_size p <= 32768 /\ e_lsn e = p_cycle p * 2 ^ 32 + p_block p /\
    Z.of_nat (length (payload (e_tid e) (e_ops e) ++ pad)) <= 32768 /\
    e_blocks e * 512 = Z.of_nat (length (h ++ dat)) /\
    dev_bytes d (ring_start r + e_at e * 512) (length (h ++ dat)) = h ++ dat;
}.

(** The device answers every read inside the ring. *)
Definition readable : Prop :=
  forall off n, ring_start r <= off -> off + Z.of_nat n <= ring_start r + ring_blocks r * 512 -> exists raw, Log.read_at d off n = Ok raw.

Lemma read_ops_padded tid ops pad : forall pre in_flight s,
  in_u 32 tid -> Forall op_typed ops ->
  read_ops visit (length ops) (pre ++ payload tid ops ++ pad) (length pre) in_flight s = take_ops visit tid ops in_flight s.
Proof.
  induction ops as [|op ops IH]; intros pre in_flight s Ht Ho; [done|].
  apply Forall_cons in Ho as [Ho Hos]. cbn [length take_ops].
  change (payload tid (op :: ops)) with (payload_op tid op ++ payload tid ops). rewrite <- app_assoc.
  rewrite read_ops_step by done. destruct (take_op _ _ _ _ _ _) as [[i' s']|e|]; cbn [mbind res_bind fst snd]; [|done..].
  rewrite <- length_app, app_assoc. by apply IH.
Qed.

Context (Hread : readable).

Lemma ring_read_in at_ count :
  0 <= at_ -> 0 <= count -> at_ + count <= ring_blocks r -> at_ < ring_blocks r ->
  ring_read d r at_ count = Ok (dev_bytes d (ring_start r + at_ * 512) (Z.to_nat (count * 512))).
Proof.
  intros Ha Hc Hle Hlt. unfold ring_read. rewrite (proj2 (Z.ltb_ge _ _)) by lia. cbn [fail_if mbind res_bind].
  rewrite (proj2 (Z.eqb_neq (ring_blocks r) 0)) by lia. cbn [negb assert mbind res_bind].
  rewrite Z.mod_small by lia. rewrite (wmul_small 64 count) by lia. cbn [read_turns length].
  destruct (Nat.ltb_spec 0 (Z.to_nat (count * 512))) as [H0|H0].
  2:{ replace count with 0 by lia. done. }
  rewrite (wmul_small 64 (ring_blocks r - at_)), (wmul_small 64 at_), (wadd_small 64 (ring_start r) (at_ * 512)) by lia.
  rewrite Nat.min_r, Nat.sub_0_r by lia.
  destruct (Hread (ring_start r + at_ * 512) (Z.to_nat (count * 512))) as [raw E]; [lia|lia|].
  pose proof (log_read_at_spec d (ring_start r + at_ * 512) (Z.to_nat (count * 512))) as Hr. rewrite E in Hr. subst raw.
  rewrite E. cbn [mbind res_bind app]. by rewrite length_dev_bytes, Nat.ltb_irrefl.
Qed.

Lemma walk_record_holds e in_flight s :
  holds e ->
  walk_record sb d visit r (e_at e) in_flight s =
  (x ← take_ops visit (e_tid e) (e_ops e) in_flight s; Ok (e_blocks e, e_lsn e, x)).
Proof.
  intros [[Ha Hbl] (Ht & Ho & Hnum) (p & pad & h & dat & Hen & Hu & Hsz & Hl & Hlen & Hbs & Hdev)].
  set (body := payload (e_tid e) (e_ops e) ++ pad) in *.
  pose proof (en_header _ _ _ _ _ Hen) as Lh. pose proof (en_blocks _ _ _ _ _ Hen) as Ld.
  pose proof (div_ceil_bounds (length body) 512 ltac:(lia)) as Hc. set (nb := div_ceil (length body) 512) in *.
  rewrite length_app in Hbs, Hdev. assert (He : e_blocks e = 1 + Z.of_nat nb) by lia.
  assert (Hh : dev_bytes d (ring_start r + e_at e * 512) 512 = h).
  { pose proof (slice_dev_bytes d (ring_start r + e_at e * 512) (length h + length dat) 0 512 ltac:(lia)) as Hsl.
    rewrite Hdev, Z.add_0_r in Hsl. rewrite <- Hsl. unfold slice. rewrite drop_0. by apply take_app_length'. }
  assert (Hd : dev_bytes d (ring_start r + (e_at e + 1) * 512) (length dat) = dat).
  { pose proof (slice_dev_bytes d (ring_start r + e_at e * 512) (length h + length dat) 512 (length dat) ltac:(lia)) as Hsl.
    rewrite Hdev in Hsl. replace (ring_start r + (e_at e + 1) * 512) with (ring_start r + e_at e * 512 + Z.of_nat 512) by lia.
    rewrite <- Hsl. unfold slice. rewrite drop_app_length' by done. by apply take_ge. }
  unfold walk_record. rewrite (ring_read_in _ 1) by lia. change (Z.to_nat (1 * 512)) with 512%nat. rewrite Hh. cbn [mbind res_bind].
  rewrite (be32_Ok h h.MAGICNO), uuid_at_Ok, be64_Ok, (be32_Ok h h.LEN), (be32_Ok h h.NUM_LOGOPS)
    by (unfold h.MAGICNO, h.FS_UUID, h.LSN, h.LEN, h.NUM_LOGOPS; lia).
  rewrite header_blocks_Ok by done. cbn [mbind res_bind].
  rewrite (en_magic _ _ _ _ _ Hen), (en_uuid _ _ _ _ _ Hen), (en_len _ _ _ _ _ Hen), (en_num _ _ _ _ _ Hen).
  rewrite Hu, bool_decide_true by done. cbn [Z.eqb negb orb fail_if mbind res_bind].
  rewrite Z.eqb_refl. cbn [negb orb fail_if mbind res_bind].
  assert (Hb1 : hblocks h = 1).
  { unfold hblocks. rewrite (en_size _ _ _ _ _ Hen). rewrite (proj2 (Z.leb_le _ _)) by (change XLOG_HEADER_CYCLE_SIZE with 32768; lia).
    by destruct (_ =? 0). }
  rewrite Hb1. assert (Hdb : zdiv_ceil (Z.of_nat (length body)) 512 = Z.of_nat nb).
  { pose proof (zdiv_ceil_bounds (Z.of_nat (length body)) 512 ltac:(lia)). lia. }
  rewrite Hdb. rewrite (wadd_small 64 (e_at e) 1) by lia.
  assert (Er : ring_read d r (e_at e + 1) (Z.of_nat nb) = Ok dat).
  { destruct (decide (nb = 0%nat)) as [Hz|Hz].
    - assert (dat = []) as -> by (apply nil_length_inv; lia). unfold ring_read. rewrite Hz.
      rewrite (proj2 (Z.ltb_ge _ _)) by lia. cbn [fail_if mbind res_bind].
      rewrite (proj2 (Z.eqb_neq (ring_blocks r) 0)) by lia. done.
    - rewrite ring_read_in by lia. transitivity (Ok (dev_bytes d (ring_start r + (e_at e + 1) * 512) (length dat))); [do 2 f_equal; lia|by rewrite Hd]. }
  rewrite Er. cbn [mbind res_bind]. rewrite (ring_read_in _ 1) by lia. change (Z.to_nat (1 * 512)) with 512%nat. rewrite Hh. cbn [mbind res_bind].
  rewrite !Nat2Z.id. change (Z.to_nat 1) with 1%nat. rewrite get_slice_Ok by lia. cbn [mbind res_bind].
  change (slice 0 (length body) dat) with (list.take (length body) dat).
  rewrite (check_encoded p (Z.of_nat (length (e_ops e)))) by done. cbn [mbind res_bind].
  rewrite (unpack_encoded p (Z.of_nat (length (e_ops e))) body h dat) by done. cbn [mbind res_bind].
  pose proof (read_ops_padded (e_tid e) (e_ops e) pad [] in_flight s Ht Ho) as Hops.
  cbn [app length] in Hops. unfold body at 1. rewrite Hops.
  destruct (take_ops _ _ _ _ _); cbn [mbind res_bind]; [|done..].
  rewrite (en_lsn _ _ _ _ _ Hen), <- Hl. rewrite wadd_small by lia. by rewrite He.
Qed.

(** The operations of the records, one record after another. *)
Fixpoint take_entries (es : list entry) (in_flight : gmap Z (list Item)) (s : S) : res (gmap Z (list Item) * S) :=
  match es with
  | [] => Ok (in_flight, s)
  | e :: es => x ← take_ops visit (e_tid e) (e_ops e) in_flight s; take_entries es x.1 x.2
  end.

(** Each record begins where the one before it ends; only the last has the
    newest sequence number. *)
Fixpoint chained (newest : Z) (e : entry) (es : list entry) : Prop :=
  match es with
  | [] => e_lsn e = newest
  | e' :: es => e_lsn e <> newest /\ e_at e' = (e_at e + e_blocks e) mod ring_blocks r /\ chained newest e' es
  end.

Lemma walk_loop_chained newest es : forall e fuel in_flight s records,
  Forall holds (e :: es) -> chained newest e es ->
  Z.of_nat (records + length es) <= ring_blocks r -> (length es < fuel)%nat ->
  walk_loop sb d visit fuel r newest (e_at e) in_flight s records =
  (x ← take_entries (e :: es) in_flight s; Ok ((records + length (e :: es))%nat, x.2)).
Proof.
  induction es as [|e' es IH]; intros e fuel in_flight s records Hh Hc Hr Hf; (destruct fuel as [|fuel]; [lia|]);
    apply Forall_cons in Hh as [He Hes]; cbn [walk_loop take_entries]; rewrite walk_record_holds by done;
    (destruct (take_ops _ _ _ _ _) as [[i' s']|err|]; cbn [mbind res_bind fst snd]; [|done..]); cbn [chained] in Hc.
  - rewrite Hc, Z.eqb_refl. done.
  - destruct Hc as (Hne & Hat & Hc). rewrite (proj2 (Z.eqb_neq _ _)) by done. cbn [length] in *.
    rewrite (proj2 (Z.ltb_ge _ _)) by lia. cbn [fail_if mbind res_bind].
    destruct (ho_fits _ He) as [Ha Hb]. assert (0 <= e_blocks e).
    { destruct (ho_record _ He) as (p & pad & h & dat & _ & _ & _ & _ & _ & Hbs & _). lia. }
    rewrite wadd_small, <- Hat by lia. rewrite IH by (done || lia). cbn [take_entries].
    destruct (take_ops visit (e_tid e') (e_ops e') i' s') as [x|err|]; cbn [mbind res_bind]; [|done..].
    destruct (take_entries es x.1 x.2); cbn [mbind res_bind]; [|done..]. do 2 f_equal. lia.
Qed.

Lemma walk_chained newest tail e es s :
  extent sb = Ok (ring_start r, ring_blocks r * 512) -> length (rec_header newest) = 512%nat ->
  rd 8 rec_TAIL_LSN (rec_header newest) = tail -> tail <> 0 -> tail mod 2 ^ 32 = e_at e ->
  Forall holds (e :: es) -> chained (rec_lsn newest) e es -> Z.of_nat (length es) <= ring_blocks r ->
  walk sb d visit newest s = (x ← take_entries (e :: es) ∅ s; Ok (length (e :: es), x.2)).
Proof.
  intros He Hl Htl Ht0 Hat Hh Hc Hlen. unfold walk. rewrite He. cbn [mbind res_bind].
  rewrite be64_Ok by (unfold rec_TAIL_LSN; lia). cbn [mbind res_bind]. rewrite Htl.
  rewrite (proj2 (Z.eqb_neq tail 0)) by done. cbn [fail_if mbind res_bind].
  change 0xffffffff with (2 ^ 32 - 1). rewrite land_mask, Hat by lia. cbn [ring_blocks ring_start].
  rewrite Z.div_mul by done. assert (Heh : holds e) by (by apply Forall_cons in Hh as [? _]).
  destruct (ho_fits _ Heh) as [Ha Hb].
  assert (0 < e_blocks e).
  { destruct (ho_record _ Heh) as (p & pad & h & dat & Hen & _ & _ & _ & _ & Hbs & _).
    pose proof (en_header _ _ _ _ _ Hen). rewrite length_app in Hbs. lia. }
  rewrite (proj2 (Z.leb_gt _ _)) by lia. cbn [fail_if mbind res_bind].
  replace (mkRing (ring_start r) (ring_blocks r)) with r by (by destruct r).
  rewrite (walk_loop_chained (rec_lsn newest) es) by (done || lia). done.
Qed.
End replayed.

(** C36: Reading the log ends.  Whatever the ring holds, the walk from the tail
    stops after at most one record per block of the ring and one more, with
    the operations given to the visitor or an error, and never panics unless
    the visitor does. *)
Theorem walk_total `{Host} `{Crc32c} (sb : Superblock) {D} {dev : BlockDevice D} {dlaws : BlockDeviceLaws D} (d : D)
    {S} (visit : S -> list Item -> res S) (newest : LogRec) (s : S) (start blocks : Z) :
  (forall s items, visit s items <> Panic) -> length (rec_header newest) = 512%nat ->
  extent sb = Ok (start, blocks * 512) -> 0 <= start -> 0 < blocks -> start + blocks * 512 < 2 ^ 64 ->
  walk sb d visit newest s <> Panic.
Proof.
  intros Hv Hl He Hs Hn Hf. unfold walk. rewrite He. cbn [mbind res_bind].
  rewrite be64_Ok by (unfold rec_TAIL_LSN; lia). cbn [mbind res_bind ring_blocks]. rewrite Z.div_mul by done.
  destruct (_ =? 0); cbn [fail_if mbind res_bind]; [done|].
  destruct (Z.leb_spec blocks (Z.land (rd 8 rec_TAIL_LSN (rec_header newest)) 0xffffffff)); cbn [fail_if mbind res_bind]; [done|].
  pose proof (land_range_r (rd 8 rec_TAIL_LSN (rec_header newest)) 0xffffffff ltac:(lia)).
  apply walk_loop_total; cbn [ring_start ring_blocks]; try done; lia.
Qed.

(** What was written is what is replayed.  Where the ring holds records as
    the writer lays them, each beginning where the one before it ends, wrapping
    at the end of the ring, walking from the first to the newest hands the
    visitor exactly the transactions that the operations of all of them make,
    in order, whatever the records were split into: every checksum verifies and
    every displaced word is put back. *)
Theorem walk_replays `{Host} `{Crc32c} (sb : Superblock) {D} {dev : BlockDevice D} {dlaws : BlockDeviceLaws D} (d : D)
    {S} (visit : S -> list Item -> res S) (newest : LogRec) (s : S) (r : Ring) (tail : Z) (e : entry) (es : list entry) :
  0 <= ring_start r -> 0 < ring_blocks r -> ring_start r + ring_blocks r * 512 < 2 ^ 64 ->
  readable d r -> extent sb = Ok (ring_start r, ring_blocks r * 512) ->
  length (rec_header newest) = 512%nat -> rd 8 rec_TAIL_LSN (rec_header newest) = tail -> tail <> 0 ->
  tail mod 2 ^ 32 = e_at e -> Forall (holds sb d r) (e :: es) -> chained r (rec_lsn newest) e es ->
  Z.of_nat (length es) <= ring_blocks r ->
  walk sb d visit newest s = (x ← take_entries visit (e :: es) ∅ s; Ok (length (e :: es), x.2)).
Proof. intros Hs Hn Hf Hr He Hl Ht. by apply walk_chained. Qed.
