(* ===== verification/LogAppend.v ===== *)
(** * Appending to the log, and finding and replaying what was appended

    The writer ([LogWrite]), the search for the newest record ([Log]) and the
    walk over the records ([LogWalk]) on one device.

    The theorems: a record appended at the head of a ring the kernel could have
    written leaves such a ring, is the newest record that is then found, is
    replayed as the operations it was given, and the next head is the block
    after it; a pad record fills the ring to its end and replays as nothing. *)

From Stdlib Require Import ZArith Lia Strings.String Strings.Byte Bool.
From stdpp Require Import base list gmap strings sets.
From S2P Require Import Prelude Error Endian Crc32c Superblock Sample Ag FreeSpace AgBtree Overlay BufWrite LogRecover Log LogWrite LogWalk.

#[local] Open Scope width_scope.

(** A volume whose log is [total] blocks of its own device. *)
Record log_geometry (sb : Superblock) (total : Z) : Prop := {
  lg_uuid : length (sb_uuid sb) = 16%nat;
  lg_unit : in_u 32 (sb_logsunit sb);
  lg_pos : 0 <= fsblock_offset sb (sb_logstart sb) < 2 ^ 62;
  lg_tot : 0 < total < 2 ^ 32;
  lg_ext : extent sb = Ok (fsblock_offset sb (sb_logstart sb), total * 512);
}.

Section log.
Context `{host : Host} `{Crc : Crc32c} `{!Crc32cLaws} (sb : Superblock).
Context {D : Type} {dev : BlockDevice D} {dlaws : BlockDeviceLaws D} (total : Z).
Notation start := (fsblock_offset sb (sb_logstart sb)).
Context (Hlog : log_geometry sb total).
Let Huuid := lg_uuid sb total Hlog.
Let Hunit := lg_unit sb total Hlog.
Let Hpos := lg_pos sb total Hlog.
Let Htot := lg_tot sb total Hlog.
Let Hext := lg_ext sb total Hlog.

(** A ring whose next record goes to block [hb] in cycle [c]. *)
Record ready (d : D) (hb c older : Z) : Prop := {
  rdy_head : 0 <= hb <= total;
  rdy_cycle : 0 < c < 2 ^ 32 /\ c <> XLOG_HEADER_MAGIC;
  rdy_older : older = 0 \/ older = c - 1;
  rdy_new i : 0 <= i < hb -> cyc (ring_block d start i) = c;
  rdy_old i : hb <= i < total -> cyc (ring_block d start i) = older;
  rdy_lsn i : 0 <= i < total -> hdr sb (ring_block d start i) = true ->
    lsn (ring_block d start i) = cyc (ring_block d start i) * 2 ^ 32 + i;
}.

(** The head is where the cycle changes. *)
Lemma ready_kernel d hd c older :
  kernel_ring sb d start total hd c older -> c < 2 ^ 32 -> c <> XLOG_HEADER_MAGIC -> ready d hd c older.
Proof. intros [? ? ? ? ? ? ?] ? ?. split; try done; lia. Qed.

(** A full ring goes on at its first block, in the next cycle. *)
Lemma ready_wrapped d c older :
  ready d total c older -> c + 1 < 2 ^ 32 -> c + 1 <> XLOG_HEADER_MAGIC -> ready d 0 (c + 1) c.
Proof. intros [? ? ? Hn ? ?] ? ?. split; try done; try lia. Qed.

(** A log no record was ever written to. *)
Lemma ready_blank d :
  (forall i, 0 <= i < total -> cyc (ring_block d start i) = 0 /\ hdr sb (ring_block d start i) = false) -> ready d 0 1 0.
Proof.
  intros Hb. split; try done; try lia.
  - intros i Hi. by apply Hb.
  - intros i Hi Hh. destruct (Hb i Hi) as [_ Hf]. congruence.
Qed.

Section laid.
Context (d d' : D) (p : Placement) (n : Z) (body h dat : bytes).
Context (Hen : encoded p n body h dat) (Hb : Z.of_nat (length body) <= 32768).
Context (Hu : p_uuid p = sb_uuid sb) (Hla : laid sb d d' (p_block p) (h ++ dat)).

Definition nblocks : Z := 1 + Z.of_nat (div_ceil (length body) 512).

Lemma length_record : Z.of_nat (length (h ++ dat)) = nblocks * 512.
Proof.
  rewrite length_app, (en_header _ _ _ _ _ Hen), (en_blocks _ _ _ _ _ Hen). unfold nblocks. lia.
Qed.

Lemma laid_block i :
  0 <= i < nblocks -> ring_block d' start (p_block p + i) = slice (Z.to_nat i * 512) 512 (h ++ dat).
Proof.
  intros Hi. pose proof length_record as Hl. unfold ring_block, Overlay.BBSIZE.
  rewrite <- (ld_rec _ _ _ _ _ Hla). rewrite slice_dev_bytes by lia. f_equal. unfold log_pos, BB. lia.
Qed.

Lemma record_laid_header : ring_block d' start (p_block p) = h.
Proof.
  rewrite <- (Z.add_0_r (p_block p)), laid_block by (unfold nblocks; lia). unfold slice. rewrite drop_0.
  apply take_app_length'. by rewrite (en_header _ _ _ _ _ Hen).
Qed.

Lemma record_laid_other i :
  0 <= i < p_block p \/ p_block p + nblocks <= i -> ring_block d' start i = ring_block d start i.
Proof.
  intros Hi. pose proof length_record as Hl. unfold ring_block, dev_bytes. apply list_fmap_ext.
  intros j x [-> Hj]%lookup_seq. apply (ld_rest _ _ _ _ _ Hla). unfold log_pos, BB, Overlay.BBSIZE in *. lia.
Qed.

(** A stamped block carries the cycle and is no header. *)
Lemma laid_data i :
  1 <= i < nblocks -> in_u 32 (p_cycle p) -> rd 4 0 (ring_block d' start (p_block p + i)) = p_cycle p.
Proof.
  intros Hi Hc. rewrite laid_block by lia. unfold rd, nblocks in *. rewrite slice_slice by lia.
  rewrite <- (from_to_be_bytes_small 4 (p_cycle p)) by (cbn; unfold in_u in Hc; lia). f_equal.
  pose proof (en_header _ _ _ _ _ Hen) as Lh. pose proof (en_blocks _ _ _ _ _ Hen) as Ld.
  apply list_eq. intros j. rewrite lookup_slice. case_decide as Hj.
  - rewrite lookup_app_r by lia. replace (Z.to_nat i * 512 + 0 + j - length h)%nat with (512 * (Z.to_nat i - 1) + j)%nat by lia.
    rewrite (en_data _ _ _ _ _ Hen) by lia. by rewrite decide_True by lia.
  - symmetry. apply lookup_ge_None_2. rewrite length_to_be_bytes. lia.
Qed.

Lemma laid_kernel c older :
  p_cycle p = c -> ready d (p_block p) c older -> p_block p + nblocks <= total ->
  kernel_ring sb d' start total (p_block p + nblocks) c older /\
  is_newest sb (ring d' start total) (Some (rec_of (p_block p) h)).
Proof.
  intros Hpc [Hhb [Hc Hcm] Hold Hnew Holder Hlsn] Hfit.
  assert (Hc32 : in_u 32 (p_cycle p)) by (unfold in_u; lia).
  assert (Hone : 1 <= nblocks) by (unfold nblocks; lia).
  assert (Hch : cyc h = c).
  { unfold cyc. rewrite (en_magic _ _ _ _ _ Hen), Z.eqb_refl, (en_cycle _ _ _ _ _ Hen). done. }
  assert (Hhh : hdr sb h = true).
  { unfold hdr. by rewrite (en_magic _ _ _ _ _ Hen), Z.eqb_refl, (en_uuid _ _ _ _ _ Hen), Hu, bool_decide_true. }
  assert (Hlh : lsn h = c * 2 ^ 32 + p_block p) by (unfold lsn; rewrite (en_lsn _ _ _ _ _ Hen); congruence).
  assert (Hdata : forall i, p_block p < i < p_block p + nblocks ->
    cyc (ring_block d' start i) = c /\ hdr sb (ring_block d' start i) = false).
  { intros i Hi. replace i with (p_block p + (i - p_block p)) by lia.
    pose proof (laid_data (i - p_block p) ltac:(lia) Hc32) as Hr. unfold cyc, hdr, h.MAGICNO. rewrite Hr, Hpc.
    by rewrite (proj2 (Z.eqb_neq c XLOG_HEADER_MAGIC)). }
  assert (Hk : kernel_ring sb d' start total (p_block p + nblocks) c older).
  { split; try lia.
    - intros i Hi. destruct (decide (i < p_block p)); [rewrite record_laid_other by lia; apply Hnew; lia|].
      destruct (decide (i = p_block p)) as [->|]; [by rewrite record_laid_header|]. apply Hdata. lia.
    - intros i Hi. rewrite record_laid_other by lia. apply Holder. lia.
    - intros i Hi Hh. destruct (decide (i < p_block p \/ p_block p + nblocks <= i)).
      + rewrite record_laid_other in * by lia. by apply Hlsn.
      + destruct (decide (i = p_block p)) as [->|]; [rewrite record_laid_header, Hch; done|].
        destruct (Hdata i) as [_ Hf]; [lia|congruence]. }
  split; [exact Hk|]. rewrite <- record_laid_header. apply newest_at; [lia|by rewrite record_laid_header|].
  intros j Hj Hhj Hne. rewrite (kr_lsn _ _ _ _ _ _ _ Hk j) by done. rewrite record_laid_header, Hlh.
  destruct (decide (j < p_block p)).
  - rewrite (kr_new _ _ _ _ _ _ _ Hk) by lia. lia.
  - destruct (decide (j < p_block p + nblocks)); [destruct (Hdata j); [lia|congruence]|].
    rewrite (kr_old _ _ _ _ _ _ _ Hk) by lia. lia.
Qed.
End laid.

(** A record is in the ring, and it is the newest. *)
Record appended (d d' : D) (head : Head) (tid : Z) (ops : list Op) (tail blocks : Z) (older : Z) (newest : LogRec) : Prop := {
  ap_fits : 1 <= blocks /\ head_block head + blocks <= total;
  ap_ring : kernel_ring sb d' start total (head_block head + blocks) (head_cycle head) older;
  ap_newest : is_newest sb (ring d' start total) (Some newest);
  ap_place : rec_bb newest = head_block head /\ rec_lsn newest = head_cycle head * 2 ^ 32 + head_block head;
  ap_end : rec_bb newest + rec_header_blocks newest + zdiv_ceil (rec_len newest) BB = head_block head + blocks;
  ap_size : rd 4 h.SIZE (rec_header newest) = head_iclog_size head;
  ap_header : length (rec_header newest) = 512%nat;
  ap_tail : rd 8 rec_TAIL_LSN (rec_header newest) = tail;
  ap_holds : holds sb d' (mkRing start total)
    (mkEntry (head_block head) (head_cycle head * 2 ^ 32 + head_block head) blocks tid ops);
  ap_rest x : ~ (log_pos sb (head_block head) <= x < log_pos sb (head_block head + blocks)) -> dev_byte d' x = dev_byte d x;
}.

Record head_ready (d : D) (head : Head) (older : Z) : Prop := {
  hr_ready : ready d (head_block head) (head_cycle head) older;
  hr_free : head_block head + head_free_blocks head = total;
  hr_size : in_u 32 (head_iclog_size head);
}.

Lemma head_ready_typed d head older : head_ready d head older -> head_typed head.
Proof. intros [[Hh [Hc _] _ _ _ _] Hf Hs]. split; try done; unfold in_u; lia. Qed.

Lemma write_record_appended d head older tail tid ops pad blocks :
  head_ready d head older -> in_u 64 tail -> in_u 32 tid -> Forall op_typed ops -> Z.of_nat (length ops) < 2 ^ 32 ->
  head_iclog_size head <= 32768 -> Z.of_nat (length (payload tid ops ++ pad)) = (blocks - 1) * 512 -> 1 <= blocks <= 65 ->
  blocks <= head_free_blocks head ->
  match write_record sb d head tail (length ops) (payload tid ops ++ pad) with
  | (d', Ok lsn) => lsn = head_cycle head * 2 ^ 32 + head_block head /\
      exists newest, appended d d' head tid ops tail blocks older newest
  | (d', Err _) => forall x, ~ (log_pos sb (head_block head) <= x < log_pos sb (head_block head + blocks)) ->
      dev_byte d' x = dev_byte d x
  | (_, Panic) => False
  end.
Proof.
  intros Hr Ht Htid Hops Hnum Hsz Hlen Hbl Hfree. pose proof (head_ready_typed _ _ _ Hr) as Hty.
  set (body := payload tid ops ++ pad) in *. assert (Hb : Z.of_nat (length body) <= 32768) by lia.
  destruct (write_record_spec sb d head tail (length ops) body Hty Ht Huuid Hnum Hb Hpos) as (h & dat & Hen & Hw).
  pose proof (length_record _ _ _ _ _ Hen) as Hl. assert (Hnb : nblocks body = blocks).
  { unfold nblocks. pose proof (div_ceil_bounds (length body) 512 ltac:(lia)). lia. }
  rewrite Hnb in Hl. assert (Hpe : log_pos sb (head_block head + blocks) = log_pos sb (head_block head) + Z.of_nat (length (h ++ dat)))
    by (unfold log_pos; lia).
  rewrite Hpe. destruct (write_record _ _ _ _ _ _) as [d' [lsn|e|]]; [|exact Hw|exact Hw].
  destruct Hw as [-> Hla]. split; [done|]. exists (rec_of (head_block head) h).
  destruct Hr as [Hrdy Hf Hs]. pose proof (rdy_head _ _ _ _ Hrdy) as Hhb.
  destruct (laid_kernel d d' (placement_of sb head tail) (Z.of_nat (length ops)) body h dat Hen eq_refl Hla (head_cycle head) older eq_refl Hrdy)
    as [Hk Hnew]; [cbn [p_block placement_of]; lia|]. cbn [p_block placement_of] in *. rewrite Hnb in *.
  assert (Hhb1 : hblocks h = 1).
  { unfold hblocks. rewrite (en_size _ _ _ _ _ Hen). cbn [p_iclog_size placement_of].
    rewrite (proj2 (Z.leb_le _ _)) by (change XLOG_HEADER_CYCLE_SIZE with 32768; lia). by destruct (_ =? 0). }
  split; cbn [rec_bb rec_lsn rec_len rec_header_blocks rec_header rec_of].
  - lia.
  - done.
  - done.
  - split; [done|]. exact (en_lsn _ _ _ _ _ Hen).
  - rewrite Hhb1, (en_len _ _ _ _ _ Hen). pose proof (zdiv_ceil_bounds (Z.of_nat (length body)) BB ltac:(done)).
    unfold BB in *. lia.
  - exact (en_size _ _ _ _ _ Hen).
  - exact (en_header _ _ _ _ _ Hen).
  - exact (en_tail _ _ _ _ _ Hen).
  - split; cbn [e_at e_lsn e_blocks e_tid e_ops ring_start ring_blocks]; [lia|done|].
    exists (placement_of sb head tail), pad, h, dat. split_and!; try done.
    exact (ld_rec _ _ _ _ _ Hla).
  - intros x Hx. rewrite Hpe in Hx. by apply (ld_rest _ _ _ _ _ Hla).
Qed.

Lemma append_spec d head older tail tid ops :
  head_ready d head older -> in_u 64 tail -> in_u 32 tid -> Forall op_typed ops -> Z.of_nat (length ops) < 2 ^ 32 ->
  match append_at_with_tail sb d head tid ops tail with
  | (d', Ok lsn) => lsn = head_cycle head * 2 ^ 32 + head_block head /\
      exists blocks newest, record_blocks_for_log tid ops (head_iclog_size head) (sb_logsunit sb) = Ok blocks /\
        appended d d' head tid ops tail blocks older newest
  | (d', Err e) => (padded_payload sb head tid ops = Err e /\ d' = d) \/
      exists blocks, record_blocks_for_log tid ops (head_iclog_size head) (sb_logsunit sb) = Ok blocks /\
        blocks <= head_free_blocks head /\
        forall x, ~ (log_pos sb (head_block head) <= x < log_pos sb (head_block head + blocks)) -> dev_byte d' x = dev_byte d x
  | (_, Panic) => False
  end.
Proof.
  intros Hr Ht Htid Hops Hnum. unfold append_at_with_tail. pose proof (padded_payload_spec sb head tid ops Hunit) as Hp.
  destruct (padded_payload sb head tid ops) as [body|e|] eqn:Ep; [|by left|done].
  destruct Hp as (blocks & Eb & -> & Hfree & Hal).
  destruct (record_blocks_for_log_Ok _ _ _ _ _ Hunit Eb) as (_ & _ & Hbl & Hsz & Hcost & _).
  assert (Hpad : padded_to blocks (payload tid ops) =
    payload tid ops ++ replicate (Z.to_nat ((blocks - 1) * 512) - length (payload tid ops)) x00).
  { unfold padded_to. apply resize_ge. rewrite length_payload. lia. }
  rewrite Hpad. match goal with |- context[payload tid ops ++ ?q] => pose proof (write_record_appended d head older tail tid ops q blocks) as Hw end.
  rewrite length_app, length_replicate, length_payload in Hw.
  specialize (Hw Hr Ht Htid Hops Hnum ltac:(lia) ltac:(lia) ltac:(lia) Hfree). rewrite <- length_payload with (tid := tid) in Hw.
  destruct (write_record _ _ _ _ _ _) as [d' [lsn|e|]]; [| |done].
  - destruct Hw as [-> [newest Hn]]. split; [done|]. by exists blocks, newest.
  - right. by exists blocks.
Qed.

(** ** After a record *)

Lemma readable_clean {A} d (m : res A) e : readable d (mkRing start total) -> clean d start (start + total * BB) m -> m <> Err e.
Proof.
  intros Hr Hc ->. destruct Hc as (off & n & Hlo & Hhi & E). destruct (Hr off n) as [raw Hraw]; [done|exact Hhi|].
  rewrite Hraw in E. done.
Qed.

(** What is newest is found. *)
Lemma newest_found d hd c older newest :
  readable d (mkRing start total) -> kernel_ring sb d start total hd c older ->
  is_newest sb (ring d start total) (Some newest) ->
  scan_for_newest_record sb d start (total * BB) = Ok (Some newest).
Proof.
  intros Hr Hk Hn.
  destruct (newest_record_spec sb d start total ltac:(lia) ltac:(lia) ltac:(unfold BB; lia) _ _ _ Hk) as [Hc Hs].
  destruct (scan_for_newest_record sb d start (total * BB)) as [n|e|] eqn:E.
  - f_equal. exact (is_newest_unique sb _ _ _ (Hs n eq_refl) Hn).
  - by destruct (readable_clean d (Err e : res (option LogRec)) e Hr Hc).
  - done.
Qed.

(** Where the next record goes. *)
Definition next_head (head : Head) (blocks : Z) : Head :=
  mkHead (head_block head + blocks) (head_cycle head) (head_block head) (head_free_blocks head - blocks) (head_iclog_size head).

Lemma appended_head d d' head tid ops tail blocks older newest :
  readable d' (mkRing start total) -> head_ready d head older -> iclog_size_fits (head_iclog_size head) (total * BB) = true ->
  appended d d' head tid ops tail blocks older newest -> head_block head + blocks < total ->
  Log.head sb d' = Ok (next_head head blocks).
Proof.
  intros Hr [Hrdy Hfree Hsz] Hfits Hap Hlt. pose proof Hap as [Hf Hk Hn [Hbb Hls] He Hs Hh _ _ _].
  pose proof (head_spec sb d' start total Htot ltac:(lia) ltac:(unfold BB; lia) _ _ _ Hk Hext) as Hhd.
  destruct (rdy_cycle _ _ _ _ Hrdy) as [Hc _]. pose proof (rdy_head _ _ _ _ Hrdy) as Hhb.
  assert (Hdiv : rec_lsn newest / 2 ^ 32 = head_cycle head).
  { rewrite Hls, Z.div_add_l, Z.div_small by lia. lia. }
  destruct (Log.head sb d') as [place|e|] eqn:E; [| |done].
  - destruct Hhd as (n & Hn' & Hof). rewrite (is_newest_unique sb _ _ _ Hn' Hn) in Hof. cbn [head_of] in Hof.
    destruct Hof as [Hend [Hfb _] Hpv _ _ Hlap [Hsize _]]. f_equal. destruct place as [b c pb fb sz]; unfold next_head; cbn in *.
    rewrite He in *. rewrite Z.mod_small in Hend by lia. rewrite (proj2 (Z.eqb_neq _ _)) in Hlap by lia.
    f_equal; congruence || lia.
  - destruct Hhd as [(off & n & Hlo & Hhi & Er)|(r & Hn' & Href)].
    + destruct (Hr off n) as [raw Hraw]; [done|exact Hhi|]. congruence.
    + pose proof (is_newest_unique sb _ _ _ Hn' Hn) as [= ->]. unfold head_refused in Href. rewrite He, Hs in Href.
      destruct Href as [Hx|[Hx|[Hx _]]]; [congruence|lia|lia].
Qed.

Lemma appended_ready d d' head tid ops tail blocks older newest :
  head_ready d head older -> appended d d' head tid ops tail blocks older newest ->
  head_ready d' (next_head head blocks) older.
Proof.
  intros [Hrdy Hfree Hsz] [Hf Hk _ _ _ _ _ _ _ _]. destruct (rdy_cycle _ _ _ _ Hrdy) as [Hc Hm].
  split; cbn [next_head head_block head_cycle head_free_blocks head_iclog_size]; [|lia|done].
  apply ready_kernel; try done; lia.
Qed.

(** A record stays as it is when another is written elsewhere. *)
Lemma holds_preserved d d' e lo hi :
  holds sb d (mkRing start total) e ->
  (forall x, ~ (log_pos sb lo <= x < log_pos sb hi) -> dev_byte d' x = dev_byte d x) ->
  (e_at e + e_blocks e <= lo \/ hi <= e_at e) -> holds sb d' (mkRing start total) e.
Proof.
  intros [Hf Ho (p & pad & h & dat & Hen & Hu & Hs & Hl & Hlen & Hbs & Hdev)] Hx Hd. split; [done|done|].
  exists p, pad, h, dat. split_and!; try done. rewrite <- Hdev at 2. unfold dev_bytes. apply list_fmap_ext.
  intros j y [-> Hj]%lookup_seq. apply Hx. cbn [ring_start]. unfold log_pos. lia.
Qed.

Lemma appended_walk d d' head tid ops tail blocks older newest {S} (visit : S -> list Item -> res S) s :
  readable d' (mkRing start total) -> appended d d' head tid ops tail blocks older newest -> 0 < head_cycle head ->
  tail = rec_lsn newest -> in_u 32 (head_block head) ->
  walk sb d' visit newest s = (x ← take_ops visit tid ops ∅ s; Ok (1%nat, x.2)).
Proof.
  intros Hr Hap Hc Ht Hb. pose proof Hap as [Hf Hk Hn [Hbb Hls] He Hs Hh Htl Hho _]. unfold in_u in Hb.
  set (e := mkEntry (head_block head) (head_cycle head * 2 ^ 32 + head_block head) blocks tid ops) in *.
  rewrite (walk_chained sb d' visit (mkRing start total) ltac:(cbn [ring_start ring_blocks]; lia) ltac:(cbn [ring_start ring_blocks]; lia) ltac:(cbn [ring_start ring_blocks]; lia) Hr newest tail e []).
  - cbn [take_entries]. change (e_tid e) with tid. change (e_ops e) with ops.
    destruct (take_ops visit tid ops ∅ s) as [[i x]|er|]; reflexivity.
  - done.
  - done.
  - done.
  - lia.
  - rewrite Ht, Hls, Z.add_comm, Z_mod_plus_full, Z.mod_small by lia. done.
  - by constructor.
  - cbn [chained]. unfold e. cbn [e_lsn]. done.
  - cbn. lia.
Qed.

(** ** The pad record *)

(** The empty transaction leaves nothing behind. *)
Lemma take_ops_pad {S} (visit : S -> list Item -> res S) tid in_flight s :
  host_big_endian = false -> in_u 32 tid ->
  take_ops visit tid (pad_ops tid) in_flight s = Ok (delete tid in_flight, s).
Proof.
  intros He Ht.
  assert (Ha : add_region [] (trans_header tid XFS_TRANS_CHECKPOINT 0) 0 = []).
  { unfold add_region. change (Z.land 0 XLOG_OP_CONTINUATION =? 0) with true. cbn [negb].
    change (length (trans_header tid XFS_TRANS_CHECKPOINT 0)) with 16%nat. cbn [Nat.eqb].
    unfold is_trans_header. change (length (trans_header tid XFS_TRANS_CHECKPOINT 0)) with 16%nat.
    unfold native_u32, from_ne_bytes. rewrite He. rewrite get_slice_Ok by (change (length (trans_header tid XFS_TRANS_CHECKPOINT 0)) with 16%nat; lia).
    change (slice 0 4 (trans_header tid XFS_TRANS_CHECKPOINT 0)) with (to_le_bytes 4 XFS_TRANS_HEADER_MAGIC).
    cbn [fmap res_fmap]. rewrite from_to_le_bytes_small by done. done. }
  unfold pad_ops. cbn [take_ops op_flags op_data].
  change (take_op visit in_flight s tid XLOG_START_TRANS []) with (Ok (<[tid := [] : list Item]> in_flight, s)).
  cbn [mbind res_bind fst snd].
  assert (E : take_op visit (<[tid:=[]]> in_flight) s tid 0 (trans_header tid XFS_TRANS_CHECKPOINT 0) = Ok (<[tid := []]> in_flight, s)).
  { unfold take_op. rewrite !Z.land_0_l. cbn [Z.eqb negb]. by rewrite lookup_insert_eq, Ha, insert_insert_eq. }
  rewrite E. cbn [mbind res_bind fst snd].
  assert (E2 : take_op visit (<[tid:=[]]> in_flight) s tid XLOG_COMMIT_TRANS [] = Ok (delete tid in_flight, s)).
  { unfold take_op. assert (negb (Z.land XLOG_COMMIT_TRANS XLOG_UNMOUNT_TRANS =? 0) = false) as -> by done.
    assert (negb (Z.land XLOG_COMMIT_TRANS XLOG_START_TRANS =? 0) = false) as -> by done.
    assert (negb (Z.land XLOG_COMMIT_TRANS XLOG_COMMIT_TRANS =? 0) = true) as -> by done.
    by rewrite lookup_insert_eq, delete_insert_eq. }
  by rewrite E2.
Qed.

Lemma pad_ops_typed tid : Forall op_typed (pad_ops tid).
Proof. unfold pad_ops. rewrite !Forall_cons, Forall_nil. split_and!; try done; unfold in_u; cbn; lia. Qed.

(** A gap of up to 65 blocks is filled to the end of the ring. *)
Lemma append_pad_spec d head older tail tid :
  head_ready d head older -> in_u 64 tail -> in_u 32 tid -> head_iclog_size head <= 32768 ->
  2 <= head_free_blocks head <= 65 ->
  match append_pad sb d head tid tail with
  | (d', Ok lsn) => lsn = head_cycle head * 2 ^ 32 + head_block head /\
      exists newest, appended d d' head tid (pad_ops tid) tail (head_free_blocks head) older newest
  | (d', Err _) => forall x, ~ (log_pos sb (head_block head) <= x < log_pos sb total) -> dev_byte d' x = dev_byte d x
  | (_, Panic) => False
  end.
Proof.
  intros Hr Ht Htid Hs Hfree. unfold append_pad. rewrite wsub_small, wmul_small by lia. rewrite pad_payload_length.
  rewrite (proj2 (Z.ltb_ge _ _)) by lia. unfold resized. rewrite (proj2 (Z.leb_gt _ _)) by lia.
  rewrite resize_ge by (rewrite pad_payload_length; lia).
  match goal with |- context[payload tid (pad_ops tid) ++ ?q] =>
    pose proof (write_record_appended d head older tail tid (pad_ops tid) q (head_free_blocks head)) as Hw end.
  rewrite length_app, length_replicate, pad_payload_length in Hw. rewrite pad_payload_length.
  specialize (Hw Hr Ht Htid (pad_ops_typed tid) ltac:(cbn; lia) Hs ltac:(lia) ltac:(lia) ltac:(lia)).
  rewrite (hr_free _ _ _ Hr) in Hw. exact Hw.
Qed.

(** A larger one is a panic: one header block describes 64 blocks. *)
Lemma encode_record_big p n body :
  placement_typed p -> 32768 < Z.of_nat (length body) -> encode_record p n body = Panic.
Proof.
  intros Hp Hb. pose proof (div_ceil_bounds (length body) 512 ltac:(lia)) as Hc.
  unfold encode_record, Overlay.BBSIZE. set (nb := div_ceil (length body) 512) in *.
  rewrite (copy_at_Ok 0 body) by (rewrite length_replicate; lia). cbn [mbind res_bind].
  destruct (header_fields_put p n body Hp) as (h0 & E0 & _). rewrite E0. cbn [mbind res_bind].
  rewrite Nat.div_mul by done. rewrite (proj2 (Nat.leb_gt _ _)) by (unfold XLOG_CYCLE_DATA_ENTRIES; lia). done.
Qed.

Lemma append_pad_big d head older tail tid :
  head_ready d head older -> in_u 64 tail -> 66 <= head_free_blocks head -> append_pad sb d head tid tail = (d, Panic).
Proof.
  intros Hr Ht Hfree. pose proof (head_ready_typed _ _ _ Hr) as Hty. pose proof (ht_free _ Hty).
  unfold append_pad. rewrite wsub_small, wmul_small by lia. rewrite pad_payload_length.
  rewrite (proj2 (Z.ltb_ge _ _)) by lia. unfold resized. rewrite (proj2 (Z.leb_gt _ _)) by lia.
  unfold write_record. rewrite encode_record_big; [done|by apply placement_of_typed|].
  rewrite length_resize. lia.
Qed.
End log.

(** C9: What is appended is what recovery finds and replays.  On a log whose
    blocks the kernel could have left (or an empty one, or one at its wrap),
    appending a checkpoint at the head writes one record there and nothing
    else; the record is then the newest one that is found, the log is again
    such a log, walking it hands the visitor exactly the transactions the
    operations make, and the next head is the block after it in the same cycle.
    A refusal writes nothing; a failed write leaves the rest of the device as
    it was. *)
Theorem append_recovers `{Host} `{Crc : Crc32c} `{!Crc32cLaws} (sb : Superblock) {D} {dev : BlockDevice D}
    {dlaws : BlockDeviceLaws D} (d : D) (total : Z) (head : Head) (older tid : Z) (ops : list Op)
    {S} (visit : S -> list Item -> res S) (s : S) :
  let start := fsblock_offset sb (sb_logstart sb) in
  log_geometry sb total -> head_ready sb total d head older ->
  iclog_size_fits (head_iclog_size head) (total * BB) = true ->
  in_u 32 tid -> Forall op_typed ops -> Z.of_nat (length ops) < 2 ^ 32 ->
  match append_at sb d head tid ops with
  | (d', Ok lsn) => lsn = head_cycle head * 2 ^ 32 + head_block head /\
      exists blocks newest, record_blocks_for_log tid ops (head_iclog_size head) (sb_logsunit sb) = Ok blocks /\
        appended sb total d d' head tid ops lsn blocks older newest /\
        (readable d' (mkRing start total) ->
          scan_for_newest_record sb d' start (total * BB) = Ok (Some newest) /\
          walk sb d' visit newest s = (x ← take_ops visit tid ops ∅ s; Ok (1%nat, x.2)) /\
          (head_block head + blocks < total -> Log.head sb d' = Ok (next_head head blocks)))
  | (d', Err e) => (padded_payload sb head tid ops = Err e /\ d' = d) \/
      exists blocks, record_blocks_for_log tid ops (head_iclog_size head) (sb_logsunit sb) = Ok blocks /\
        blocks <= head_free_blocks head /\
        forall x, ~ (log_pos sb (head_block head) <= x < log_pos sb (head_block head + blocks)) -> dev_byte d' x = dev_byte d x
  | (_, Panic) => False
  end.
Proof.
  cbv zeta. intros Hlog Hr Hfits Htid Hops Hnum. pose proof Hr as [Hrdy Hfree Hsz]. pose proof (lg_tot _ _ Hlog) as Htot.
  pose proof (rdy_head _ _ _ _ _ _ Hrdy) as Hhb. destruct (rdy_cycle _ _ _ _ _ _ Hrdy) as [Hc _]. unfold append_at.
  assert (Hlsn : lsn_of head = head_cycle head * 2 ^ 32 + head_block head) by (unfold lsn_of; rewrite lsn_at_sum by (unfold in_u; lia); reflexivity).
  pose proof (append_spec sb total Hlog d head older (lsn_of head) tid ops Hr ltac:(rewrite Hlsn; unfold in_u; lia) Htid Hops Hnum) as Ha.
  destruct (append_at_with_tail sb d head tid ops (lsn_of head)) as [d' [lsn|e|]]; [|exact Ha|exact Ha].
  destruct Ha as [-> (blocks & newest & Hb & Hap)]. rewrite Hlsn in Hap. split; [done|]. exists blocks, newest.
  split; [done|]. split; [done|]. intros Hread. pose proof Hap as [_ _ _ [_ Hl] _ _ _ _ _ _]. split_and!.
  - exact (newest_found sb total Hlog d' _ _ _ _ Hread (ap_ring _ _ _ _ _ _ _ _ _ _ _ Hap) (ap_newest _ _ _ _ _ _ _ _ _ _ _ Hap)).
  - eapply appended_walk; [exact Hlog|exact Hread|exact Hap|lia|by symmetry|unfold in_u; lia].
  - intros Hlt. eapply (appended_head sb total); eassumption.
Qed.

(** A gap one record cannot cover is a panic.  Where the ring has 66 or more
    blocks left at its end, filling them with a pad record, which the code
    documents as refused with [UnsupportedFeature], fails the assertion of the
    record's encoder instead, with nothing written. *)
Theorem append_pad_panics `{Host} `{Crc : Crc32c} `{!Crc32cLaws} (sb : Superblock) {D} {dev : BlockDevice D}
    {dlaws : BlockDeviceLaws D} (d : D) (total : Z) (head : Head) (older tid tail : Z) :
  log_geometry sb total -> head_ready sb total d head older -> in_u 64 tail ->
  66 <= head_free_blocks head -> append_pad sb d head tid tail = (d, Panic).
Proof. intros Hlog. by apply (append_pad_big sb total Hlog). Qed.

(** ** A device as a function, with an empty log on it *)

Inductive FnDevice := fn_device (f : Z -> byte).
Definition fn_byte (d : FnDevice) (x : Z) : byte := let '(fn_device f) := d in f x.
Fixpoint fn_bytes (d : FnDevice) (off : Z) (buf : bytes) : bytes :=
  match buf with [] => [] | _ :: buf => fn_byte d off :: fn_bytes d (off + 1) buf end.
#[global] Instance fn_dev : BlockDevice FnDevice := {|
  dev_read d off buf := (fn_bytes d off buf, Ok tt);
  dev_write d off bs := (fn_device (fun x => if off <=? x then default (fn_byte d x) (bs !! Z.to_nat (x - off)) else fn_byte d x), Ok tt);
  dev_flush d := (d, Ok tt);
  dev_size _ := 2 ^ 40;
|}.
#[global] Instance fn_laws : BlockDeviceLaws FnDevice.
Proof.
  unshelve esplit; [exact fn_byte|..]; cbn; try done.
  - intros d off buf. revert off. induction buf as [|x buf IH]; intros off; cbn; [done|by rewrite IH].
  - intros d off buf buf' [= <-]. revert off. induction buf as [|x buf IH]; intros off [|i] Hi; cbn in *; try lia.
    + by rewrite Z.add_0_r.
    + rewrite IH by lia. do 2 f_equal. lia.
  - intros d off bs d' [= <-] i b Hb. cbn. rewrite (proj2 (Z.leb_le _ _)) by lia.
    replace (Z.to_nat (off + Z.of_nat i - off)) with i by lia. by rewrite Hb.
  - intros d off bs b Hb. destruct (Z.leb_spec off b); [|done]. rewrite lookup_ge_None_2 by lia. done.
Defined.

Lemma fn_readable d r : readable d r.
Proof. intros off n _ _. by eexists. Qed.

Definition empty_log : FnDevice := fn_device (fun _ => x00).
Definition empty_head : Head := mkHead 0 1 0 64 2048.
Definition sample_region : bytes := [x3c; x12; x01; x00] ++ replicate 596 x5a.
Definition sample_ops : list Op :=
  [mkOp XLOG_START_TRANS []; mkOp 0 (trans_header 77 XFS_TRANS_CHECKPOINT 1); mkOp 0 sample_region; mkOp XLOG_COMMIT_TRANS []].

Lemma sample_log_geometry : log_geometry sample_sb 64.
Proof. split; vm_compute; repeat split; congruence. Qed.

Lemma empty_log_ready sb total head :
  log_geometry sb total -> head_block head = 0 -> head_cycle head = 1 -> head_free_blocks head = total ->
  in_u 32 (head_iclog_size head) -> head_ready sb total empty_log head 0.
Proof.
  intros Hg Hb Hc Hf Hs. split; [|lia|done]. rewrite Hb, Hc. apply ready_blank; [done|]. intros i _.
  assert (E : ring_block empty_log (fsblock_offset sb (sb_logstart sb)) i = replicate 512 x00).
  { unfold ring_block, dev_bytes. apply list_eq. intros j. rewrite list_lookup_fmap.
    destruct (decide (j < 512)%nat); [rewrite lookup_seq_lt, lookup_replicate_2 by done; done|].
    rewrite lookup_seq_ge, lookup_ge_None_2 by (rewrite ?length_replicate; unfold Overlay.BBSIZE; lia). done. }
  rewrite E. split; reflexivity.
Qed.

Lemma sample_ready : head_ready sample_sb 64 empty_log empty_head 0.
Proof. apply empty_log_ready; [exact sample_log_geometry|done..|unfold in_u; cbn; lia]. Qed.

Lemma sample_ops_typed : Forall op_typed sample_ops.
Proof. unfold sample_ops. rewrite !Forall_cons, Forall_nil. split_and!; try done; unfold in_u; cbn; lia. Qed.

Definition collect (s : list (list Item)) (items : list Item) : res (list (list Item)) := Ok (s ++ [items]).

Lemma append_recovers_witness :
  exists d' newest, append_at sample_sb empty_log empty_head 77 sample_ops = (d', Ok (2 ^ 32)) /\
    scan_for_newest_record sample_sb d' 1056768 32768 = Ok (Some newest) /\
    walk sample_sb d' collect newest [] = Ok (1%nat, [[mkLogItem [sample_region] 1]]) /\
    Log.head sample_sb d' = Ok (mkHead 3 1 0 61 2048).
Proof.
  pose proof (append_recovers sample_sb empty_log 64 empty_head 0 77 sample_ops collect [] sample_log_geometry sample_ready
    ltac:(done) ltac:(unfold in_u; lia) sample_ops_typed ltac:(done)) as Ha.
  assert (Hok : (append_at sample_sb empty_log empty_head 77 sample_ops).2 = Ok (2 ^ 32)) by (vm_compute; reflexivity).
  destruct (append_at sample_sb empty_log empty_head 77 sample_ops) as [d' r]. cbn [snd] in Hok. subst r.
  destruct Ha as (_ & blocks & newest & Hb & _ & Hx). destruct (Hx (fn_readable _ _)) as (Hn & Hw & Hh). exists d', newest.
  assert (blocks = 3) as -> by (vm_compute in Hb; congruence). split; [done|]. split; [exact Hn|]. split.
  - rewrite Hw. vm_compute. reflexivity.
  - exact (Hh ltac:(done)).
Defined.

(** The same volume with a log of 128 blocks. *)
Definition wide_sb : Superblock :=
  Eval vm_compute in
    let b := put_field sample_unsummed (F Superblock.offsets.LOGBLOCKS 4 128) in
    match parse (splice Superblock.offsets.CRC (to_le_bytes 4 (zeroed_crc b Superblock.offsets.CRC)) b) with Ok sb => sb | _ => sample_sb end.

Lemma wide_log_geometry : log_geometry wide_sb 128.
Proof. split; vm_compute; repeat split; congruence. Qed.

Lemma append_pad_panics_witness : append_pad wide_sb empty_log (mkHead 0 1 0 128 2048) 77 (2 ^ 32) = (empty_log, Panic).
Proof.
  apply (append_pad_panics wide_sb empty_log 128 (mkHead 0 1 0 128 2048) 0 77 (2 ^ 32) wide_log_geometry);
    [apply empty_log_ready; [exact wide_log_geometry|done..|unfold in_u; cbn; lia]|unfold in_u; lia|cbn; lia].
Defined.

(** ** The theorems about walking the log, on it *)

Lemma walk_total_witness : walk sample_sb empty_log collect (rec_of 1 sample_record) [] <> Panic.
Proof.
  apply (walk_total sample_sb empty_log collect (rec_of 1 sample_record) [] 1056768 64); try done; lia.
Defined.

Lemma walk_replays_witness :
  exists d2 newest, walk sample_sb d2 collect newest [] = Ok (2%nat, [[mkLogItem [sample_region] 1]; [mkLogItem [sample_region] 1]]).
Proof.
  pose proof (append_spec sample_sb 64 sample_log_geometry empty_log empty_head 0 (2 ^ 32) 77 sample_ops sample_ready
    ltac:(unfold in_u; lia) ltac:(unfold in_u; lia) sample_ops_typed ltac:(done)) as H1.
  assert (E1 : (append_at_with_tail sample_sb empty_log empty_head 77 sample_ops (2 ^ 32)).2 = Ok (2 ^ 32)) by (vm_compute; reflexivity).
  destruct (append_at_with_tail sample_sb empty_log empty_head 77 sample_ops (2 ^ 32)) as [d1 r1] eqn:D1. cbn [snd] in E1. subst r1.
  destruct H1 as (_ & b1 & n1 & Hb1 & Hap1). assert (b1 = 3) as -> by (vm_compute in Hb1; congruence).
  pose proof (appended_ready _ _ sample_log_geometry _ _ _ _ _ _ _ _ _ sample_ready Hap1) as Hr1.
  pose proof (append_spec sample_sb 64 sample_log_geometry d1 _ 0 (2 ^ 32) 77 sample_ops Hr1
    ltac:(unfold in_u; lia) ltac:(unfold in_u; lia) sample_ops_typed ltac:(done)) as H2.
  assert (E2 : (append_at_with_tail sample_sb d1 (next_head empty_head 3) 77 sample_ops (2 ^ 32)).2 = Ok (2 ^ 32 + 3)).
  { replace d1 with (append_at_with_tail sample_sb empty_log empty_head 77 sample_ops (2 ^ 32)).1 by (by rewrite D1).
    vm_compute. reflexivity. }
  destruct (append_at_with_tail sample_sb d1 _ 77 sample_ops (2 ^ 32)) as [d2 r2]. cbn [snd] in E2. subst r2.
  destruct H2 as (_ & b2 & n2 & Hb2 & Hap2). assert (b2 = 3) as -> by (vm_compute in Hb2; congruence). clear D1.
  exists d2, n2.
  rewrite (walk_replays sample_sb d2 collect n2 [] (mkRing 1056768 64) (2 ^ 32) (mkEntry 0 (2 ^ 32) 3 77 sample_ops)
    [mkEntry 3 (2 ^ 32 + 3) 3 77 sample_ops]).
  - vm_compute. reflexivity.
  - cbn. lia.
  - cbn. lia.
  - cbn. lia.
  - apply fn_readable.
  - vm_compute. reflexivity.
  - exact (ap_header _ _ _ _ _ _ _ _ _ _ _ Hap2).
  - exact (ap_tail _ _ _ _ _ _ _ _ _ _ _ Hap2).
  - done.
  - done.
  - constructor; [|constructor; [exact (ap_holds _ _ _ _ _ _ _ _ _ _ _ Hap2)|constructor]].
    eapply (holds_preserved _ _ sample_log_geometry d1 d2 _ _ _ (ap_holds _ _ _ _ _ _ _ _ _ _ _ Hap1) (ap_rest _ _ _ _ _ _ _ _ _ _ _ Hap2)).
    left. cbn. lia.
  - cbn [chained e_lsn e_at e_blocks ring_blocks]. destruct (ap_place _ _ _ _ _ _ _ _ _ _ _ Hap2) as [_ ->]. split_and!; vm_compute; congruence.
  - cbn. lia.
Defined.
