(* ===== verification/Replay.v ===== *)
(** * The whole of recovery ([log_recover::replay])

    Two walks of the log from its tail: the first notes which blocks are
    cancelled, the second applies every item, each by its kind, to the overlay.

    The theorems: a transaction of items of any kinds, appended to a log, is
    what recovery of that log applies; an inode whose core was logged is the
    inode the recovered volume reads, and nothing else of the volume changes. *)

From Stdlib Require Import ZArith Lia Strings.String Strings.Byte Bool.
From stdpp Require Import base list strings gmap sets.
From S2P Require Import Prelude Error Endian Crc32c Superblock Sample Overlay Inode Bmbt BufWrite LogRecover InodeLog Log LogWrite LogWalk LogAppend.

Record Recovered := mkRecovered {
  rc_records : nat; rc_transactions : nat; rc_buffers : nat; rc_inodes : nat; rc_chunks : nat; rc_deferred : gmap Z nat;
}.
Definition nothing : Recovered := mkRecovered 0 0 0 0 0 ∅.

Section replay.
Context `{host : Host} `{Crc : Crc32c} (sb : Superblock) {D : Type} {dev : BlockDevice D} (d : D).

(** What the second pass carries: the overlay, the cancellations left, and the
    account. *)
Definition Applied : Type := Overlay * gmap (Z * Z) nat * Recovered.

Definition apply_item (s : Applied) (item : Item) : res Applied :=
  let '(into, cancelled, out) := s in
  let '(mkRecovered records transactions buffers inodes chunks deferred) := out in
  k ← kind item;
  if k =? XFS_LI_BUF then
    r ← apply_buffer sb d into item cancelled;
    let '(applied, into, cancelled) := r in
    Ok (into, cancelled, mkRecovered records transactions (if applied : bool then buffers + 1 else buffers)%nat inodes chunks deferred)
  else if k =? XFS_LI_INODE then
    r ← apply_inode sb d into item cancelled;
    let '(applied, into) := r in
    Ok (into, cancelled, mkRecovered records transactions buffers (if applied : bool then inodes + 1 else inodes)%nat chunks deferred)
  else if k =? XFS_LI_ICREATE then
    into ← apply_icreate sb d into item;
    Ok (into, cancelled, mkRecovered records transactions buffers inodes (chunks + 1)%nat deferred)
  else if k =? XFS_LI_DQUOT then
    into ← apply_dquot sb d into item;
    Ok (into, cancelled, mkRecovered records transactions (buffers + 1)%nat inodes chunks deferred)
  else
    Ok (into, cancelled, mkRecovered records transactions buffers inodes chunks (<[k := (default 0 (deferred !! k) + 1)%nat]> deferred)).

(** The visitors of the two walks. *)
Definition note_visit (cancelled : gmap (Z * Z) nat) (items : list Item) : res (gmap (Z * Z) nat) :=
  note_cancels cancelled items.
Definition apply_visit (s : Applied) (items : list Item) : res Applied :=
  let '(into, cancelled, out) := s in
  res_fold apply_item
    (into, cancelled,
     mkRecovered (rc_records out) (rc_transactions out + 1) (rc_buffers out) (rc_inodes out) (rc_chunks out) (rc_deferred out)) items.

Definition replay (into : Overlay) : res (Overlay * Recovered) :=
  '(start, log_bytes) ← extent sb;
  newest ← scan_for_newest_record sb d start log_bytes;
  match newest with
  | None => Ok (into, nothing)
  | Some newest =>
      '(_, cancelled) ← walk sb d note_visit newest ∅;
      '(records, s) ← walk sb d apply_visit newest (into, cancelled, nothing);
      let '(into, _, out) := s in
      Ok (into, mkRecovered records (rc_transactions out) (rc_buffers out) (rc_inodes out) (rc_chunks out) (rc_deferred out))
  end.
End replay.

(** ** Items of any kind *)

(** The operations of one item: its format, with its kind and its count, and
    its regions. *)
Record item_ops (ty : Z) (l : list Op) : Prop := {
  io_kind : in_u 16 ty /\ ty <> 0x414e;
  io_format : exists f rest, l = mkOp 0 f :: rest /\ (4 <= length f)%nat /\ slice 0 2 f = to_le_bytes 2 ty /\
                slice 2 2 f = to_le_bytes 2 (Z.of_nat (length l));
  io_count : Z.of_nat (length l) < 2 ^ 16;
  io_regions : Forall (fun op => op_flags op = 0 /\ op_data op <> [] /\ Z.of_nat (length (op_data op)) < 2 ^ 32) l;
}.

Lemma item_ops_not_header ty l f rest items :
  item_ops ty l -> l = mkOp 0 f :: rest -> is_trans_header items f = false.
Proof.
  intros [[Hty Hne] (f' & rest' & -> & Hl & H0 & _) _ _] [= -> ->]. unfold is_trans_header. destruct items; [|done].
  rewrite native_u32_slice by lia. apply andb_false_iff. right. apply Z.eqb_neq.
  change (slice 0 4 f) with (slice 0 (2 + 2) f). rewrite slice_app_split, H0. unfold from_le_bytes. rewrite rev_app_distr. intros E.
  assert (Hm : from_be_bytes (rev (slice (0 + 2) 2 f) ++ rev (to_le_bytes 2 ty)) mod 65536 = ty).
  { unfold to_le_bytes. rewrite rev_involutive. rewrite from_be_bytes_app, length_to_be_bytes.
    change (256 ^ Z.of_nat 2) with 65536. rewrite Z.add_comm, Z.mod_add by done. unfold in_u in Hty.
    rewrite from_to_be_bytes_small by exact Hty. apply Z.mod_small. exact Hty. }
  rewrite E in Hm. vm_compute in Hm. congruence.
Qed.

Lemma gather_item_ops items ty l :
  item_ops ty l -> settled items -> gather items l = items ++ [log_item_of l] /\ settled (items ++ [log_item_of l]).
Proof.
  intros Hio Hs. split.
  2: { intros it. rewrite last_snoc. intros [= <-]. cbn. by rewrite length_fmap. }
  pose proof Hio as [_ (f & rest & -> & Hl & H0 & H2) Hc Hr]. cbn [gather foldl op_data op_flags].
  apply Forall_cons in Hr as [[_ [Hne _]] Hr].
  assert (add_region items f 0 = items ++ [mkLogItem [f] (length (mkOp 0 f :: rest))]) as ->.
  { unfold add_region. cbn [Z.land Z.eqb negb]. rewrite (proj2 (Nat.eqb_neq _ _)) by lia.
    rewrite (item_ops_not_header ty _ f rest items Hio eq_refl).
    assert (new_item f = mkLogItem [f] (length (mkOp 0 f :: rest))) as ->.
    { unfold new_item. rewrite (proj2 (Nat.leb_le _ _)) by lia. rewrite native_u16_slice by lia. rewrite H2.
      rewrite from_to_le_bytes_small by (cbn [length] in *; lia). rewrite Nat2Z.id. f_equal. cbn [length]. lia. }
    destruct (list.last items) as [it|] eqn:El; [|done]. specialize (Hs it El). by rewrite (proj2 (Nat.ltb_ge _ _)) by lia. }
  change (foldl _ ?a rest) with (gather a rest). rewrite gather_regions; [done| |cbn [length]; lia|done].
  eapply Forall_impl; [exact Hr|]. cbn. naive_solver.
Qed.

Lemma gather_all opss : forall items, Forall (fun l => exists ty, item_ops ty l) opss -> settled items ->
  gather items (concat opss) = items ++ (log_item_of <$> opss).
Proof.
  induction opss as [|l opss IH]; intros items Hl Hs; cbn [concat fmap list_fmap]; [by rewrite app_nil_r|].
  apply Forall_cons in Hl as [[ty Hl] Hls]. destruct (gather_item_ops items ty l Hl Hs) as [Hg Hs'].
  unfold gather. rewrite foldl_app. fold (gather items l). rewrite Hg. change (foldl _ ?a (concat opss)) with (gather a (concat opss)).
  rewrite IH by done. by rewrite <- app_assoc.
Qed.

Lemma kind_of_item ty l : item_ops ty l -> kind (log_item_of l) = Ok ty.
Proof.
  intros [[Hty _] (f & rest & -> & Hl & H0 & _) _ _]. unfold kind, log_item_of. cbn [fmap list_fmap op_data regions lookup list_lookup expect mbind res_bind].
  rewrite (proj2 (Nat.ltb_ge _ _)) by lia. rewrite native_u16_slice by lia. by rewrite H0, from_to_le_bytes_small by done.
Qed.

Lemma item_ops_typed opss : Forall (fun l => exists ty, item_ops ty l) opss ->
  Forall (fun op => op_flags op = 0) (concat opss) /\ Forall op_typed (concat opss).
Proof.
  intros Hl. split; apply Forall_concat; (eapply Forall_impl; [exact Hl|]); intros l (ty & [_ _ _ Hr]); (eapply Forall_impl; [exact Hr|]).
  - by intros op (? & _).
  - intros op (E & _ & Hlen). unfold op_typed, in_u. rewrite E. split; [lia|done].
Qed.

(** A committed transaction reaches the visitor as its items. *)
Lemma take_transaction {S} (visit : S -> list Item -> res S) tid ty n opss s :
  Forall (fun l => exists ty, item_ops ty l) opss -> opss <> [] ->
  take_ops visit tid (transaction tid ty n opss) ∅ s = (s' ← visit s (log_item_of <$> opss); Ok (∅, s')).
Proof.
  intros Hl Hne. destruct (item_ops_typed opss Hl) as [Hf _].
  unfold transaction. cbn [take_ops op_flags op_data]. rewrite take_op_start. cbn [mbind res_bind fst snd].
  rewrite (take_op_region visit _ _ _ _ []) by apply lookup_insert_eq. cbn [mbind res_bind fst snd].
  change (add_region [] (trans_header tid ty n) 0) with (@nil Item). rewrite insert_insert_eq.
  rewrite (take_ops_gather visit tid _ s (concat opss) _ []) by (done || apply lookup_insert_eq).
  rewrite gather_all, insert_insert_eq by done. cbn [app take_ops op_flags op_data].
  rewrite (take_op_commit visit _ _ _ _ (log_item_of <$> opss) (lookup_insert_eq _ _ _)) by (by destruct opss).
  rewrite delete_insert_id by apply lookup_empty. by destruct (visit _ _).
Qed.

Lemma transaction_typed tid ty n opss : Forall (fun l => exists ty, item_ops ty l) opss -> Forall op_typed (transaction tid ty n opss).
Proof.
  intros Hl. unfold transaction. repeat apply Forall_cons_2; [| |apply Forall_app; split; [by apply item_ops_typed|apply Forall_singleton]];
    unfold op_typed, in_u, XLOG_START_TRANS, XLOG_COMMIT_TRANS; cbn; lia.
Qed.

Section appended.
Context `{Crc : Crc32c} {laws : Crc32cLaws} (sb : Superblock) {D : Type} {dev : BlockDevice D} {dlaws : BlockDeviceLaws D}.
Context (total : Z) (Hlog : log_geometry sb total).
Notation start := (fsblock_offset sb (sb_logstart sb)).

(** A log whose only outstanding record is one transaction, appended. *)
Lemma replay_appended d d' head older tid ty n opss blocks newest into :
  appended sb total d d' head tid (transaction tid ty n opss) (lsn_of head) blocks older newest ->
  head_ready sb total d head older -> in_u 32 tid ->
  readable d' (mkRing start total) -> Forall (fun l => exists ty, item_ops ty l) opss -> opss <> [] ->
  replay sb d' into =
    (cancelled ← note_cancels ∅ (log_item_of <$> opss);
     s ← apply_visit sb d' (into, cancelled, nothing) (log_item_of <$> opss);
     let '(into, _, out) := s in
     Ok (into, mkRecovered 1 (rc_transactions out) (rc_buffers out) (rc_inodes out) (rc_chunks out) (rc_deferred out))).
Proof.
  intros Hap Hr Htid Hread Hl Hne. destruct (rdy_cycle _ _ _ _ _ _ (hr_ready _ _ _ _ _ Hr)) as [Hc _].
  pose proof (rdy_head _ _ _ _ _ _ (hr_ready _ _ _ _ _ Hr)) as Hhb. pose proof (lg_tot _ _ Hlog) as Htot.
  assert (Hlsn : lsn_of head = head_cycle head * 2 ^ 32 + head_block head) by (unfold lsn_of; rewrite lsn_at_sum by (unfold in_u; lia); reflexivity).
  assert (Hext : extent sb = Ok (start, total * BB)) by apply (lg_ext _ _ Hlog).
  unfold replay. rewrite Hext. cbn [mbind res_bind].
  pose proof Hap as [_ _ _ [_ Hpl] _ _ _ _ _ _].
  rewrite (newest_found sb total Hlog d' _ _ _ _ Hread (ap_ring _ _ _ _ _ _ _ _ _ _ _ Hap) (ap_newest _ _ _ _ _ _ _ _ _ _ _ Hap)).
  cbn [mbind res_bind].
  assert (Hwalk : forall S (visit : S -> list Item -> res S) s,
    walk sb d' visit newest s = (x ← take_ops visit tid (transaction tid ty n opss) ∅ s; Ok (1%nat, x.2))).
  { intros S visit s. rewrite Hlsn in Hap. eapply appended_walk; [exact Hlog|exact Hread|exact Hap|lia|by symmetry|unfold in_u; lia]. }
  rewrite !Hwalk, take_transaction by done. unfold note_visit. destruct (note_cancels ∅ _) as [cancelled|e|]; cbn [mbind res_bind fst snd]; [|done..].
  rewrite Hwalk, take_transaction by done. destruct (apply_visit _ _ _ _) as [[[into' c'] out]|e|]; done.
Qed.
End appended.

(** An inode's operations are one item. *)
Lemma inode_item_ops sb ino pos cluster raw core afork afields ops b :
  logged_at sb ino pos cluster raw core afork afields ops b -> item_ops XFS_LI_INODE ops.
Proof.
  intros [[Hp0 Hp1] [Hc0 Hc1] Hco Haf Hsh _ Hbuf (logged & Hlog & Hops)].
  destruct (containing_spec pos cluster Hp0 Hp1 Hc0 Hc1) as (b' & Hb' & _ & _ & _ & T1 & T2 & T3 & _). rewrite Hbuf in Hb'. injection Hb' as <-.
  destruct (log_dinode_spec raw core Hco) as (logged' & E & Hll & _). rewrite Hlog in E. injection E as <-.
  destruct (core_of_spec raw core Hco) as (size & Hc & _ & _ & H96 & Hl & _).
  assert (Hsz : (size <= 176)%nat).
  { unfold core_length in Hc. destruct (_ || _); [injection Hc as <-; cbv; lia|]. destruct (_ =? 3); [injection Hc as <-; cbv; lia|done]. }
  destruct (inode_ops_spec ino b logged afork afields (Build_buffer_typed _ T1 T2 T3) Haf Hsh) as (f & regs & Eops & Hlf & H0 & H2 & Hregs & _).
  rewrite Hops in Eops. injection Eops as ->. unfold INODE_LOG_FORMAT_SIZE in Hlf.
  assert (Hn : (length regs <= 1)%nat) by (destruct Hregs as [[_ ->]|(_ & pad & -> & _)]; cbn; lia).
  split.
  - split; [unfold in_u, XFS_LI_INODE; lia|done].
  - exists f, (mkOp 0 logged :: (mkOp 0 <$> regs)). split; [done|]. split; [lia|]. split; [done|].
    rewrite H2. f_equal. cbn [length]. rewrite length_fmap. lia.
  - cbn [length]. rewrite length_fmap. lia.
  - assert (Hne : forall (l : bytes), (0 < length l)%nat -> l <> []) by (intros l Hl0 ->; cbn in Hl0; lia).
    apply Forall_cons_2; [cbn [op_flags op_data]; split_and!; [done|apply Hne; lia|lia]|].
    apply Forall_cons_2; [cbn [op_flags op_data]; split_and!; [done|apply Hne; lia|lia]|].
    apply Forall_forall. intros op (reg & -> & Hr)%list_elem_of_fmap. cbn [op_flags op_data].
    destruct Hregs as [[_ ->]|(Haf' & pad & -> & Hpad)]; [by apply elem_of_nil in Hr|]. apply list_elem_of_singleton in Hr as ->.
    assert (0 < length afork)%nat by (destruct afork; [done|cbn; lia]). rewrite length_app in Hpad |- *.
    split_and!; [done|apply Hne; rewrite length_app; lia|lia].
Qed.

(** An inode logged is an inode recovered.  Appending the transaction of an
    inode's core, and its attribute fork where it has one to log, to a log whose
    records are all settled, and mounting the volume again: recovery finds that
    one transaction and applies that one inode; the volume then reads, where the
    inode lives, the logged inode over the old one, unlinked pointer kept and
    checksum fresh, and reads every other byte outside the record as it was. *)
Theorem logged_inode_recovers `{Crc : Crc32c} `{!Crc32cLaws} (sb : Superblock) {D} {dev : BlockDevice D} {dlaws : BlockDeviceLaws D}
    (d : D) total head older tid ino pos cluster raw core afork afields ops b base :
  let start := fsblock_offset sb (sb_logstart sb) in
  let isize := sb_inodesize sb in
  log_geometry sb total -> head_ready sb total d head older -> iclog_size_fits (head_iclog_size head) (total * BB) = true -> in_u 32 tid ->
  sb_geometry sb -> logged_at sb ino pos cluster raw core afork afields ops b ->
  (is_v5 sb = true <-> rd 1 di.VERSION core = 3) -> pos mod BB = 0 -> (Z.to_nat isize mod BBSIZE = 0)%nat ->
  pos + isize + BB < 2 ^ 64 -> pos + isize <= start \/ start + total * BB <= pos ->
  length base = Z.to_nat isize -> (forall i, (i < length base)%nat -> base !! i = Some (dev_byte d (pos + Z.of_nat i))) ->
  match append_at sb d head tid (transaction tid XFS_TRANS_CHECKPOINT 2 [ops]) with
  | (d', Ok lsn) =>
      readable d' (mkRing start total) -> (dev_read d' pos (replicate (Z.to_nat isize) x00)).2 = Ok tt ->
      exists into image, replay sb d' ∅ = Ok (into, mkRecovered 1 1 0 1 0 ∅) /\ inode_replayed sb core afork base image /\
        seen d' into pos image /\
        forall x, ~ (pos <= x < pos + isize) -> ~ (start <= x < start + total * BB) -> view d' into x = dev_byte d x
  | _ => True
  end.
Proof.
  cbv zeta. intros Hlog Hr Hfits Htid Hgeo Hla H5 Hpm Hm Hpb Hout Hb Hbase. set (ops' := transaction _ _ _ _).
  pose proof (inode_item_ops _ _ _ _ _ _ _ _ _ _ Hla) as Hio. assert (Hall : Forall (fun l => exists ty, item_ops ty l) [ops]) by (repeat constructor; by eexists).
  destruct (append_at sb d head tid ops') as [d' [lsn|e|]] eqn:Ea; [|done|done]. intros Hread Hrd.
  destruct (rdy_cycle _ _ _ _ _ _ (hr_ready _ _ _ _ _ Hr)) as [Hc _]. pose proof (rdy_head _ _ _ _ _ _ (hr_ready _ _ _ _ _ Hr)) as Hhb. pose proof (lg_tot _ _ Hlog) as Htot.
  assert (Hlsn : lsn_of head = head_cycle head * 2 ^ 32 + head_block head) by (unfold lsn_of; rewrite lsn_at_sum by (unfold in_u; lia); reflexivity).
  pose proof (append_spec sb total Hlog d head older (lsn_of head) tid ops' Hr ltac:(rewrite Hlsn; unfold in_u; lia) Htid (transaction_typed _ _ _ _ Hall)) as Ha.
  unfold append_at in Ea. rewrite Ea in Ha. destruct Ha as [_ (blocks & newest & _ & Hap)].
  { unfold ops', transaction. cbn [length concat]. rewrite !length_app. cbn [length]. pose proof (io_count _ _ Hio). lia. }
  rewrite (replay_appended sb total Hlog d d' head older tid _ _ [ops] blocks newest ∅ Hap Hr Htid Hread Hall) by done.
  cbn [fmap list_fmap note_cancels]. rewrite (kind_of_item _ _ Hio). cbn [mbind res_bind]. change (negb (XFS_LI_INODE =? XFS_LI_BUF)) with true. cbn [mbind res_bind].
  unfold apply_visit. cbn [res_fold]. unfold apply_item, nothing. rewrite (kind_of_item _ _ Hio). cbn [mbind res_bind].
  change (XFS_LI_INODE =? XFS_LI_BUF) with false. change (XFS_LI_INODE =? XFS_LI_INODE) with true.
  pose proof (inodesize_bounds sb Hgeo) as Hi. pose proof (la_pos _ _ _ _ _ _ _ _ _ _ Hla) as [Hp0 _].
  pose proof (ap_rest _ _ _ _ _ _ _ _ _ _ _ Hap) as Hrest. pose proof (ap_fits _ _ _ _ _ _ _ _ _ _ _ Hap) as Hf.
  assert (Hdev : forall x, ~ (fsblock_offset sb (sb_logstart sb) <= x < fsblock_offset sb (sb_logstart sb) + total * BB) -> dev_byte d' x = dev_byte d x).
  { intros x Hx. apply Hrest. unfold log_pos, BB in *. lia. }
  assert (Hread_at : Overlay.read_at d' ∅ pos (replicate (Z.to_nat (sb_inodesize sb)) x00) = Ok base).
  { rewrite <- Hb. apply read_block; [apply map_Forall_empty|done|unfold BB in *; lia|by rewrite Hb|].
    intros i Hib. rewrite Hbase by done. unfold view. rewrite lookup_empty. f_equal. symmetry. apply Hdev. lia. }
  rewrite (apply_inode_spec sb Hgeo d' _ _ _ _ _ _ _ _ _ ∅ ∅ base Hla Hb Hread_at (lookup_empty _)).
  set (image := replayed_inode sb core afork base).
  assert (Himg : inode_replayed sb core afork base image) by (destruct Hla; by eapply replayed_inode_holds).
  pose proof (ir_len _ _ _ _ _ Himg) as Hli.
  pose proof (wrote_spec d' ∅ pos image ltac:(apply map_Forall_empty) Hp0 ltac:(unfold Overlay.BB, BB in *; lia) (tail_readable_blocks d' pos image ltac:(by rewrite Hli))) as Hw.
  destruct (wrote d' ∅ pos image) as [into|e|]; [|done|done]. destruct Hw as (_ & _ & V). cbn [mbind res_bind].
  exists into, image. split; [done|]. split; [done|]. split.
  - intros i Hil. rewrite V, decide_True by lia. rewrite byte_at_lookup by done. do 2 f_equal. lia.
  - intros x Hx Hlogx. rewrite V, decide_False by lia. unfold view. rewrite lookup_empty. by apply Hdev.
Qed.

(** ** A volume logged and recovered *)

Lemma wide_inode_log_geometry : log_geometry wide_inode_sb 64.
Proof. split; vm_compute; repeat split; congruence. Qed.

Lemma logged_inode_recovers_witness :
  exists d' into image, (append_at wide_inode_sb empty_log empty_head 77 (transaction 77 XFS_TRANS_CHECKPOINT 2 [sample_inode_ops])).1 = d' /\
    replay wide_inode_sb d' ∅ = Ok (into, mkRecovered 1 1 0 1 0 ∅) /\ seen d' into 1024 image /\
    slice 216 3 image = sample_afork /\ view d' into 5000 = x00.
Proof.
  pose proof (logged_inode_recovers wide_inode_sb empty_log 64 empty_head 0 77 129 1024 8192 sample_inode sample_core sample_afork XFS_ILOG_ADATA
    sample_inode_ops (mkInodeBuffer 0 16 1024) (replicate 512 x00) wide_inode_log_geometry
    (empty_log_ready wide_inode_sb 64 empty_head wide_inode_log_geometry eq_refl eq_refl eq_refl ltac:(unfold in_u; cbn; lia)) eq_refl
    ltac:(unfold in_u; lia) (proj2 wide_inode_parsed) (sample_logged_at wide_inode_sb ltac:(cbn; lia)) ltac:(done) eq_refl eq_refl ltac:(reflexivity)
    ltac:(left; vm_compute; congruence) eq_refl) as Ha.
  assert (Hok : exists lsn, (append_at wide_inode_sb empty_log empty_head 77 (transaction 77 XFS_TRANS_CHECKPOINT 2 [sample_inode_ops])).2 = Ok lsn)
    by (eexists; vm_compute; reflexivity).
  specialize (Ha ltac:(intros i Hi; rewrite length_replicate in Hi; by rewrite lookup_replicate_2)).
  destruct (append_at _ _ _ _ _) as [d' r]. destruct Hok as [lsn Hr]. cbn [snd] in Hr. subst r.
  destruct Ha as (into & image & E & Hi & Hs & Ho); [apply fn_readable|done|]. exists d', into, image. split; [done|]. split; [exact E|]. split; [exact Hs|].
  split; [exact (ir_fork _ _ _ _ _ Hi)|]. rewrite Ho; [done|cbn; lia|vm_compute; intros [H _]; congruence].
Defined.
