(* ===== verification/Commit.v ===== *)
(** * Committing a checkpoint ([Filesystem::commit_record], [sync] in
      [src/src/fs.rs])

    A mount's log state: the device, what its records carry and nothing has
    written home (the overlay), the first record recovery still needs, where
    the next record goes, and whether a write has failed.

    The theorems: every record a mount has outstanding stays in the ring, one
    after another up to the head, and recovery from the newest of them replays
    exactly the operations committed, in order, whatever number of records each
    checkpoint was divided into; a sync puts the overlay on the device before
    the tail moves; after a failed write the mount writes nothing. *)

From Stdlib Require Import ZArith Lia Strings.String Strings.Byte Bool.
From stdpp Require Import base list gmap strings sets.
From S2P Require Import Prelude Error Endian Crc32c Superblock Sample Ag FreeSpace AgBtree Overlay BufWrite LogRecover Log LogWrite LogWalk LogAppend.

#[local] Open Scope width_scope.

(** The part of [Filesystem] the log uses. *)
Record Mount (D : Type) := mkMount {
  m_dev : D;
  m_writable : bool;
  m_overlay : option Overlay;
  m_oldest : option Z;
  m_next : option Head;
  m_wraps : nat;
  m_logged : bool;
  m_failed : bool;
}.
Arguments mkMount {D} _ _ _ _ _ _ _ _.
Arguments m_dev {D} _.
Arguments m_writable {D} _.
Arguments m_overlay {D} _.
Arguments m_oldest {D} _.
Arguments m_next {D} _.
Arguments m_wraps {D} _.
Arguments m_logged {D} _.
Arguments m_failed {D} _.

(** A method: the mount it leaves, whatever it returns. *)
Definition method (D A : Type) : Type := Mount D -> Mount D * res A.
#[global] Instance method_ret D : MRet (method D) := fun A a m => (m, Ok a).
#[global] Instance method_bind D : MBind (method D) := fun A B k f m =>
  match f m with
  | (m, Ok a) => k a m
  | (m, Err e) => (m, Err e)
  | (m, Panic) => (m, Panic)
  end.
(** A computation that does not touch the mount. *)
Definition lift {D A} (r : res A) : method D A := fun m => (m, r).
Definition gets {D A} (f : Mount D -> A) : method D A := fun m => (m, Ok (f m)).
Definition modify {D} (f : Mount D -> Mount D) : method D unit := fun m => (f m, Ok tt).

Definition with_dev {D} (d : D) (m : Mount D) : Mount D :=
  mkMount d (m_writable m) (m_overlay m) (m_oldest m) (m_next m) (m_wraps m) (m_logged m) (m_failed m).
Definition with_overlay {D} (o : option Overlay) (m : Mount D) : Mount D :=
  mkMount (m_dev m) (m_writable m) o (m_oldest m) (m_next m) (m_wraps m) (m_logged m) (m_failed m).
Definition with_oldest {D} (o : option Z) (m : Mount D) : Mount D :=
  mkMount (m_dev m) (m_writable m) (m_overlay m) o (m_next m) (m_wraps m) (m_logged m) (m_failed m).
Definition with_next {D} (h : option Head) (m : Mount D) : Mount D :=
  mkMount (m_dev m) (m_writable m) (m_overlay m) (m_oldest m) h (m_wraps m) (m_logged m) (m_failed m).
Definition add_wrap {D} (m : Mount D) : Mount D :=
  mkMount (m_dev m) (m_writable m) (m_overlay m) (m_oldest m) (m_next m) (S (m_wraps m)) (m_logged m) (m_failed m).
Definition set_logged {D} (m : Mount D) : Mount D :=
  mkMount (m_dev m) (m_writable m) (m_overlay m) (m_oldest m) (m_next m) (m_wraps m) true (m_failed m).
Definition set_failed {D} (m : Mount D) : Mount D :=
  mkMount (m_dev m) (m_writable m) (m_overlay m) (m_oldest m) (m_next m) (m_wraps m) (m_logged m) true.

Definition MAX_DIRTY_BYTES : Z := 16 * 1024 * 1024.

Section commit.
Context `{host : Host} `{Crc : Crc32c} (sb : Superblock) {D : Type} {dev : BlockDevice D}.
Notation M := (method D).

Definition writable_device : M unit := fun m =>
  if m_failed m then
    (m, Err (Io (fmt "this mount stopped writing after a log write failed; mount the volume again to read what the log holds" [])))
  else if m_writable m then (m, Ok tt) else (m, Err ReadOnly).

(** A write to the device; the first that fails is the last. *)
Definition or_stop_writing {A} (write : D -> D * res A) : M A := fun m =>
  match write (m_dev m) with
  | (d, Ok a) => (with_dev d m, Ok a)
  | (d, Err e) => (set_failed (with_dev d m), Err e)
  | (d, Panic) => (with_dev d m, Panic)
  end.

Definition refuse_after_checkpoint : M unit := fun m =>
  if m_logged m then
    (m, Err (unsupported "this mount has written a checkpoint that nothing has replayed, so the disk an in-place write would read is out of date; mount again after the log has been replayed" []))
  else (m, Ok tt).

Definition dirty_bytes (m : Mount D) : nat :=
  match m_overlay m with Some o => bytes_held o | None => 0 end.

(** [overlay.push(device)], the overlay it leaves kept whatever it returns. *)
Definition push_overlay : M unit := fun m =>
  match m_overlay m with
  | None => (m, Ok tt)
  | Some o =>
      match push (m_dev m) o with
      | (d, o, Ok _) => (with_overlay (Some o) (with_dev d m), Ok tt)
      | (d, o, Err e) => (set_failed (with_overlay (Some o) (with_dev d m)), Err e)
      | (d, o, Panic) => (with_overlay (Some o) (with_dev d m), Panic)
      end
  end.

Definition sync : M unit :=
  writable_device;;
  push_overlay;;
  modify (with_oldest None).

(** Every record of a checkpoint, in place one after the other. *)
Fixpoint append_groups (tid tail : Z) (groups : list (list Op * Z)) (at_ : Head) (first : option Z) (last : Z) :
    M (Head * option Z * Z) :=
  match groups with
  | [] => mret (at_, first, last)
  | (group, used) :: groups =>
      lsn ← or_stop_writing (fun d => append_at_with_tail sb d at_ tid group tail);
      let first := match first with Some f => Some f | None => Some lsn end in
      append_groups tid tail groups
        (mkHead (head_block at_ ⊞{32} used) (head_cycle at_) (head_block at_) (head_free_blocks at_ ⊟{32} used)
           (head_iclog_size at_))
        first lsn
  end.

(** The blocks every record needs, and their sum. *)
Definition sum_checked (lens : list Z) : res Z :=
  res_fold (fun total len =>
    ok_or (checked_add 32 total len) (unsupported "checkpoint log-space reservation overflows" [])) 0 lens.

(** The ring begun again: everything pushed, the gap filled, the next cycle. *)
Definition wrap_ring (head : Head) (tid : Z) : M Head :=
  sync;;
  let total := head_block head ⊞{32} head_free_blocks head in
  previous ←
    (if 0 <? head_free_blocks head then
       oldest ← gets m_oldest;
       or_stop_writing (fun d => append_pad sb d head tid (default (lsn_of head) oldest));;
       mret (head_block head)
     else mret (head_prev_block head) : M Z);
  cycle ← lift (ok_or (checked_add 32 (head_cycle head) 1)
    (unsupported "the log is in cycle {}, and wrapping would need one this log cannot express" [AZ (head_cycle head)]));
  modify add_wrap;;
  mret (mkHead 0 cycle previous total (head_iclog_size head)).

Definition commit_record (build : Z -> list Op) : M Z :=
  writable_device;;
  known ← gets m_next;
  head ← (match known with
          | Some known => mret known
          | None => fun m => (m, Log.head sb (m_dev m))
          end : M Head);
  let tid := transaction_id head in
  let ops := build tid in
  groups ← lift (split_into_records ops (head_iclog_size head));
  lens ← lift (res_map (fun g => record_blocks_for_log tid g (head_iclog_size head) (sb_logsunit sb)) groups);
  needed ← lift (sum_checked lens);
  head ← (if wraps_first needed (head_free_blocks head) tid then wrap_ring head tid else mret head);
  lift (fail_if (head_free_blocks head <? needed)
    (unsupported "this checkpoint needs {} basic blocks and the whole log holds {}; a checkpoint larger than the log cannot be written"
       [AZ needed; AZ (head_free_blocks head)]));;
  oldest ← gets m_oldest;
  let tail := default (lsn_of head) oldest in
  '(at_, first, lsn) ← append_groups tid tail (zip groups lens) head None 0;
  first ← lift (expect first);
  modify (with_oldest (Some (default first oldest)));;
  modify set_logged;;
  modify (with_next (Some at_));;
  held ← gets (fun m => match m_overlay m with Some _ => MAX_DIRTY_BYTES <=? Z.of_nat (dirty_bytes m) | None => false end);
  (if held : bool then sync else mret tt);;
  mret lsn.

(** [logged_buffer], [logged_buffers], [cancelled_buffers]: the overlay after a
    record. *)
Definition on_overlay (f : D -> Overlay -> res Overlay) : M unit := fun m =>
  match m_overlay m with
  | None => (m, Ok tt)
  | Some o =>
      match f (m_dev m) o with
      | Ok o => (with_overlay (Some o) m, Ok tt)
      | Err e => (m, Err e)
      | Panic => (m, Panic)
      end
  end.
Definition logged_buffer (offset : Z) (bs : bytes) : M unit := on_overlay (fun d o => wrote d o offset bs).
Fixpoint logged_buffers (items : list BufferItem) : M unit :=
  match items with
  | [] => mret tt
  | item :: items =>
      image ← lift (image_as_written item);
      logged_buffer (blkno item ⊠{64} 512) image;;
      logged_buffers items
  end.
Fixpoint cancelled_buffers (cancels : list BufferItem) : M unit :=
  match cancels with
  | [] => mret tt
  | item :: cancels =>
      on_overlay (fun _ o => forget o (blkno item ⊠{64} 512) (length (data item)));;
      cancelled_buffers cancels
  end.
End commit.

(** ** What a mount keeps true *)

Definition zsum (l : list Z) : Z := fold_right Z.add 0 l.

Lemma sum_checked_Ok lens needed : sum_checked lens = Ok needed -> needed = zsum lens.
Proof.
  unfold sum_checked. replace (zsum lens) with (0 + zsum lens) by lia. generalize 0 as acc.
  induction lens as [|l lens IH]; intros acc; cbn [res_fold zsum fold_right]; [intros [= <-]; lia|].
  unfold checked_add. destruct (_ <? _); cbn [ok_or mbind res_bind]; [|done]. intros E%IH. unfold zsum in E. lia.
Qed.

Lemma sum_checked_total lens : sum_checked lens <> Panic.
Proof.
  unfold sum_checked. generalize 0 as acc. induction lens as [|l lens IH]; intros acc; cbn [res_fold]; [done|].
  unfold checked_add. by destruct (_ <? _); cbn [ok_or mbind res_bind].
Qed.

Section mount.
Context `{host : Host} `{Crc : Crc32c} `{!Crc32cLaws} (sb : Superblock).
Context {D : Type} {dev : BlockDevice D} {dlaws : BlockDeviceLaws D} (total : Z).
Notation start := (fsblock_offset sb (sb_logstart sb)).
Notation the_ring := (mkRing start total).
Context (Hlog : log_geometry sb total).
Let Hunit := lg_unit sb total Hlog.
Let Hpos := lg_pos sb total Hlog.
Let Htot := lg_tot sb total Hlog.

(** The log's blocks are the same on two devices. *)
Definition same_ring (d d' : D) : Prop :=
  forall x, start <= x < start + total * 512 -> dev_byte d' x = dev_byte d x.

Lemma same_ring_block d d' i : same_ring d d' -> 0 <= i < total -> ring_block d' start i = ring_block d start i.
Proof.
  intros Hs Hi. unfold ring_block, dev_bytes. apply list_fmap_ext. intros j x [-> Hj]%lookup_seq. apply Hs.
  unfold Log.BB, Overlay.BBSIZE in *. lia.
Qed.

Lemma ready_frame d d' hb c older : same_ring d d' -> ready sb total d hb c older -> ready sb total d' hb c older.
Proof.
  intros Hs [Hh Hc Ho Hn Hol Hl]. split; try done.
  - intros i Hi. rewrite (same_ring_block d d') by (done || lia). by apply Hn.
  - intros i Hi. rewrite (same_ring_block d d') by (done || lia). by apply Hol.
  - intros i Hi. rewrite !(same_ring_block d d') by done. by apply Hl.
Qed.

Lemma kernel_ring_frame d d' hd c older newest :
  same_ring d d' -> kernel_ring sb d start total hd c older -> is_newest sb (ring d start total) newest ->
  kernel_ring sb d' start total hd c older /\ is_newest sb (ring d' start total) newest.
Proof.
  intros Hs [Hh Hz Hc Ho Hn Hol Hl] Hnew. split.
  - split; try done.
    + intros i Hi. rewrite (same_ring_block d d') by (done || lia). by apply Hn.
    + intros i Hi. rewrite (same_ring_block d d') by (done || lia). by apply Hol.
    + intros i Hi. rewrite !(same_ring_block d d') by done. by apply Hl.
  - replace (ring d' start total) with (ring d start total); [done|]. unfold ring, numbered. apply list_fmap_ext.
    intros j i Hi%list_elem_of_lookup_2%elem_of_seqZ. by rewrite (same_ring_block d d') by (done || lia).
Qed.

Lemma head_ready_frame d d' head older :
  same_ring d d' -> head_ready sb total d head older -> head_ready sb total d' head older.
Proof. intros Hs [Hr Hf Hz]. split; try done. by eapply ready_frame. Qed.

Lemma holds_frame d d' e : same_ring d d' -> holds sb d the_ring e -> holds sb d' the_ring e.
Proof.
  intros Hs Hh. pose proof (ho_fits _ _ _ _ Hh) as [Hf1 Hf2]. cbn [ring_blocks] in Hf2.
  destruct Hh as [Hf Ho (p & pad & h & dat & Hen & Hu & Hz & Hl & Hlen & Hbs & Hdev)]. split; [done|done|].
  exists p, pad, h, dat. split_and!; try done. rewrite <- Hdev at 2. unfold dev_bytes. apply list_fmap_ext.
  intros j y [-> Hj]%lookup_seq. apply Hs. cbn [ring_start]. lia.
Qed.

(** Nothing a record carried is in the log itself. *)
Definition home (o : Overlay) : Prop :=
  overlay_ok o /\ forall k blk, o !! k = Some blk -> k + 512 <= start \/ start + total * 512 <= k.

Lemma push_ring d o : home o -> same_ring d (push d o).1.1.
Proof.
  intros [Hok Hh] x Hx.
  assert (Hall : Forall (fun e => held_ok e.1 e.2) (entries o)).
  { apply Forall_forall. intros [k blk] Hin. apply elem_of_entries in Hin. by apply Hok. }
  assert (Hkey : block_of x ∉ (entries o).*1).
  { intros ([k blk] & Heq & Hin)%list_elem_of_fmap. cbn in Heq. apply elem_of_entries in Hin.
    pose proof (Hh k blk Hin). apply Hok in Hin as (Ha & _).
    pose proof (proj1 (block_of_spec x k Ha) (eq_sym Heq)). unfold Overlay.BB in *. lia. }
  pose proof (push_loop_out x (entries o) d 0 Hall Hkey) as Hout. unfold push.
  destruct (push_loop d (entries o) 0) as [d1 [n|e|]]; cbn [fst snd] in *; [|done..].
  pose proof (dev_flush_byte d1 x) as Hfb. by destruct (dev_flush d1) as [d2 [u|e|]]; cbn [fst snd] in *; rewrite Hfb.
Qed.

(** What the mount reads at [b]. *)
Definition mview (m : Mount D) (b : Z) : byte :=
  match m_overlay m with Some o => view (m_dev m) o b | None => dev_byte (m_dev m) b end.

Definition synced (d : D) (m : Mount D) : Mount D :=
  with_oldest None (with_overlay (match m_overlay m with Some _ => Some ∅ | None => None end) (with_dev d m)).

(** A sync moves what the mount holds to the device; nothing it reads changes,
    and the log is untouched. *)
Lemma sync_spec m :
  match m_overlay m with Some o => home o | None => True end ->
  match sync m with
  | (m', Ok _) => exists d', m' = synced d' m /\ same_ring (m_dev m) d' /\ (forall b, mview m' b = mview m b) /\
      (forall b, dev_byte d' b = mview m b) /\ m_failed m = false /\ m_writable m = true
  | (m', Err _) => (m' = m /\ (m_failed m = true \/ m_writable m = false) \/ m_failed m' = true) /\ m_next m' = m_next m /\ (forall b, mview m' b = mview m b)
  | (_, Panic) => False
  end.
Proof.
  intros Hh. unfold sync, writable_device, mbind, method_bind. destruct (m_failed m) eqn:Ef; [split; [by left; auto|by split]|].
  destruct (m_writable m) eqn:Ew; [|split; [by left; auto|by split]]. unfold push_overlay, modify, synced, mview.
  destruct (m_overlay m) as [o|] eqn:Eo.
  - pose proof (push_ring (m_dev m) o Hh) as Hr. pose proof (push_exact_spec (m_dev m) o (proj1 Hh)) as Hp.
    destruct (push (m_dev m) o) as [[d' o'] [n|e|]]; cbn [fst snd] in *; [| |by destruct Hp].
    + destruct Hp as (Hv & -> & _ & Hd). exists d'. split; [by destruct m; cbn in *; subst|]. by split_and!.
    + destruct Hp as (Hv & ->). split; [by right|]. split; [done|]. exact Hv.
  - exists (m_dev m). split; [by destruct m; cbn in *; subst|]. split_and!; try done. intros b. cbn. by rewrite Eo.
Qed.

Lemma home_empty : home ∅.
Proof. split; [apply map_Forall_empty|]. intros k blk. by rewrite lookup_empty. Qed.

(** ** The records outstanding *)

(** One after another from [from], up to [to]. *)
Fixpoint consecutive (cycle from : Z) (es : list entry) (to : Z) : Prop :=
  match es with
  | [] => from = to
  | e :: es => e_at e = from /\ e_lsn e = cycle * 2 ^ 32 + from /\ 0 < e_blocks e /\ consecutive cycle (from + e_blocks e) es to
  end.

(** The head a commit begins from. *)
Definition next_of (m : Mount D) (head : Head) : Prop :=
  m_next m = Some head \/ (m_next m = None /\ Log.head sb (m_dev m) = Ok head).

Record mount_ok (m : Mount D) (es : list entry) : Prop := {
  mo_home : match m_overlay m with Some o => home o | None => True end;
  mo_oldest : m_oldest m = match es with [] => None | e :: _ => Some (e_lsn e) end;
  mo_holds : Forall (holds sb (m_dev m) the_ring) es;
  mo_head head : next_of m head -> exists older from, head_ready sb total (m_dev m) head older /\
    consecutive (head_cycle head) from es (head_block head);
}.

Lemma consecutive_app cycle es1 es2 : forall from mid to,
  consecutive cycle from es1 mid -> consecutive cycle mid es2 to -> consecutive cycle from (es1 ++ es2) to.
Proof.
  induction es1 as [|e es1 IH]; intros from mid to; cbn [consecutive app]; [by intros ->|].
  intros (? & ? & ? & Hc) Hc2. split_and!; try done. by eapply IH.
Qed.

Lemma consecutive_le cycle es : forall from to, consecutive cycle from es to -> from + Z.of_nat (length es) <= to.
Proof.
  induction es as [|e es IH]; intros from to; cbn [consecutive length]; [lia|]. intros (? & ? & ? & Hc%IH). lia.
Qed.

Lemma consecutive_in cycle es : forall from to e,
  consecutive cycle from es to -> e ∈ es ->
  from <= e_at e /\ e_at e + e_blocks e <= to /\ e_lsn e = cycle * 2 ^ 32 + e_at e.
Proof.
  induction es as [|x es IH]; intros from to e; cbn [consecutive]; [by intros _ ?%elem_of_nil|].
  intros (Hat & Hl & Hb & Hc) [->|Hin]%elem_of_cons; [pose proof (consecutive_le _ _ _ _ Hc); split_and!; congruence || lia|].
  destruct (IH _ _ _ Hc Hin) as (? & ? & ?). split_and!; congruence || lia.
Qed.

(** Records in a row are a walk from the first to the last. *)
Lemma consecutive_chained cycle es : forall e from to newest,
  0 <= from -> to <= total -> consecutive cycle from (e :: es) to ->
  list.last (e :: es) = Some newest -> chained the_ring (e_lsn newest) e es.
Proof.
  induction es as [|e' es IH]; intros e from to newest Hf Ht Hc Hl; cbn [chained].
  { cbn in Hl. by injection Hl as ->. }
  destruct Hc as (Hat & Hlsn & Hb & Hc). rewrite last_cons_cons in Hl.
  pose proof Hc as (Hat' & _ & Hb' & Hc'). pose proof (consecutive_le _ _ _ _ Hc') as Hle. split_and!.
  - destruct (consecutive_in _ _ _ _ newest Hc) as (? & _ & ->); [by apply last_Some_elem_of|lia].
  - rewrite Hat', Hat. cbn [ring_blocks]. rewrite Z.mod_small by lia. done.
  - apply (IH e' (from + e_blocks e) to); [lia|done..].
Qed.

(** One record of a checkpoint: its operations and the blocks kept for it. *)
Definition group_ok (tid iclog : Z) (g : list Op * Z) : Prop :=
  record_blocks_for_log tid g.1 iclog (sb_logsunit sb) = Ok g.2 /\ Forall op_typed g.1 /\ Z.of_nat (length g.1) < 2 ^ 32.

(** The records [new] of a checkpoint on the device [d'], the last of them the
    newest of the log. *)
Record laid_out (d d' : D) (at_ at' : Head) (older tid tail : Z) (groups : list (list Op * Z)) (new : list entry) : Prop := {
  lo_ops : e_ops <$> new = groups.*1;
  lo_tid : Forall (fun e => e_tid e = tid) new;
  lo_nil : groups = [] -> d' = d;
  lo_ready : head_ready sb total d' at' older;
  lo_same : head_cycle at' = head_cycle at_ /\ head_iclog_size at' = head_iclog_size at_;
  lo_free : head_free_blocks at' = head_free_blocks at_ - zsum groups.*2;
  lo_holds : Forall (holds sb d' the_ring) new;
  lo_row : consecutive (head_cycle at_) (head_block at_) new (head_block at');
  lo_rest x : ~ (log_pos sb (head_block at_) <= x < log_pos sb (head_block at')) -> dev_byte d' x = dev_byte d x;
  lo_newest e : list.last new = Some e -> exists dp hd blocks newest,
    appended sb total dp d' hd tid (e_ops e) tail blocks older newest /\ rec_lsn newest = e_lsn e;
}.

Lemma zsum_nonneg l : Forall (fun z => 0 <= z) l -> 0 <= zsum l.
Proof. induction 1 as [|z l Hz _ IH]; cbn; unfold zsum in *; lia. Qed.

Lemma group_ok_blocks tid iclog g : group_ok tid iclog g -> 1 <= g.2 <= 64 /\ iclog <= 32768.
Proof. intros (E & _). destruct (record_blocks_for_log_Ok _ _ _ _ _ Hunit E) as (_ & _ & ? & ? & _). lia. Qed.

Lemma groups_nonneg tid iclog groups : Forall (group_ok tid iclog) groups -> 0 <= zsum groups.*2.
Proof.
  intros Hg. apply zsum_nonneg, Forall_fmap. eapply Forall_impl; [exact Hg|]. intros g Hok.
  pose proof (group_ok_blocks _ _ _ Hok). cbn. lia.
Qed.

Lemma append_groups_spec tid tail older : forall groups m at_ first last,
  head_ready sb total (m_dev m) at_ older -> in_u 32 tid -> in_u 64 tail ->
  Forall (group_ok tid (head_iclog_size at_)) groups -> zsum groups.*2 <= head_free_blocks at_ ->
  match append_groups sb tid tail groups at_ first last m with
  | (m', Ok (at', first', last')) => exists d' new, m' = with_dev d' m /\
      laid_out (m_dev m) d' at_ at' older tid tail groups new /\
      first' = (match first with Some f => Some f | None => e_lsn <$> new !! 0%nat end) /\
      last' = default last (e_lsn <$> list.last new)
  | (m', Err _) => m_failed m' = true /\ exists d', m' = set_failed (with_dev d' m) /\
      forall x, ~ (log_pos sb (head_block at_) <= x < log_pos sb total) -> dev_byte d' x = dev_byte (m_dev m) x
  | (_, Panic) => False
  end.
Proof.
  induction groups as [|[g used] groups IH]; intros m at_ first last Hr Htid Ht Hg Hsum; cbn [append_groups].
  { exists (m_dev m), []. split; [by destruct m|]. split; [|by destruct first]. split; try done; cbn; lia. }
  apply Forall_cons in Hg as [(Eb & Hty & Hnum) Hg]. cbn [fst snd] in *. cbn [fmap list_fmap zsum fold_right snd] in Hsum.
  fold (zsum groups.*2) in Hsum. pose proof (groups_nonneg _ _ _ Hg) as Hnn.
  destruct (group_ok_blocks tid (head_iclog_size at_) (g, used)) as [Hu Hi]; [done|]. cbn [snd] in Hu.
  pose proof (append_spec sb total Hlog (m_dev m) at_ older tail tid g Hr Ht Htid Hty Hnum) as Ha.
  pose proof (head_ready_typed sb total Hlog _ _ _ Hr) as [[Hb0 Hb1] _ Hf _]. pose proof (hr_free _ _ _ _ _ Hr) as Hfree.
  unfold mbind at 1, method_bind at 1, or_stop_writing.
  destruct (append_at_with_tail sb (m_dev m) at_ tid g tail) as [d1 [lsn|e|]]; [| |done].
  2:{ split; [done|]. exists d1. split; [done|]. intros x Hx. destruct Ha as [[_ ->]|(bl & _ & Hle & Hrest)]; [done|].
      apply Hrest. unfold log_pos in *. lia. }
  destruct Ha as [-> (blocks & newest & Eb' & Hap)]. rewrite Eb in Eb'. injection Eb' as <-.
  rewrite wadd_small, wsub_small by lia. change (mkHead _ _ _ _ _) with (next_head at_ used).
  specialize (IH (with_dev d1 m) (next_head at_ used) (match first with Some f => Some f | None => Some (head_cycle at_ * 2 ^ 32 + head_block at_) end)
    (head_cycle at_ * 2 ^ 32 + head_block at_)).
  pose proof (appended_ready sb total Hlog (m_dev m) d1 at_ tid g tail used older newest Hr Hap) as Hr1.
  specialize (IH Hr1 Htid Ht Hg ltac:(cbn; lia)).
  destruct (append_groups _ _ _ _ _ _ _ _) as [m' [[[at' first'] last']|e|]]; [| |done].
  2:{ destruct IH as (Hfa & d' & -> & Hrest). split; [done|]. exists d'. split; [done|]. intros x Hx.
      rewrite Hrest by (cbn [next_head head_block]; unfold log_pos in *; lia). cbn [m_dev with_dev].
      apply (ap_rest _ _ _ _ _ _ _ _ _ _ _ Hap). pose proof (ap_fits _ _ _ _ _ _ _ _ _ _ _ Hap). unfold log_pos in *. lia. }
  destruct IH as (d' & new & -> & Hlo & -> & ->).
  set (e := mkEntry (head_block at_) (head_cycle at_ * 2 ^ 32 + head_block at_) used tid g).
  pose proof (ap_fits _ _ _ _ _ _ _ _ _ _ _ Hap) as [Hf1 Hf2].
  destruct Hlo as [Hops Htids Hnil Hrdy [Hcy Hic] Hfr Hho Hrow Hrest Hnew]. cbn [next_head head_block head_cycle head_iclog_size head_free_blocks m_dev with_dev] in *.
  pose proof (consecutive_le _ _ _ _ Hrow) as Hle. pose proof (rdy_head _ _ _ _ _ _ (hr_ready _ _ _ _ _ Hrdy)) as Hend.
  exists d', (e :: new). split; [done|]. split.
  - split; cbn [fmap list_fmap fst snd].
    + by rewrite Hops.
    + by constructor.
    + done.
    + done.
    + done.
    + rewrite Hfr. cbn [zsum fold_right]. unfold zsum. lia.
    + constructor; [|done]. eapply (holds_preserved sb total Hlog d1 d' e _ _ (ap_holds _ _ _ _ _ _ _ _ _ _ _ Hap) Hrest). left. cbn. lia.
    + cbn [consecutive e e_at e_lsn e_blocks]. split_and!; [done|done|lia|done].
    + intros x Hx. rewrite Hrest by (unfold log_pos in *; lia). apply (ap_rest _ _ _ _ _ _ _ _ _ _ _ Hap). unfold log_pos in *. lia.
    + intros x Hx. destruct new as [|e' new].
      * cbn in Hx. injection Hx as <-. cbn [consecutive] in Hrow.
        rewrite Hnil by (by destruct groups). exists (m_dev m), at_, used, newest.
        split; [exact Hap|by destruct (ap_place _ _ _ _ _ _ _ _ _ _ _ Hap)].
      * apply Hnew. by rewrite last_cons_cons in Hx.
  - split; [by destruct first|]. destruct new as [|e' new]; [done|]. rewrite last_cons_cons.
    destruct (last_is_Some (e' :: new)) as [_ Hs]. destruct (Hs ltac:(done)) as [x ->]. done.
Qed.

(** Outside the log. *)
Definition outside (x : Z) : Prop := ~ (start <= x < start + total * 512).

Lemma mview_dev m d' x : dev_byte d' x = dev_byte (m_dev m) x -> mview (with_dev d' m) x = mview m x.
Proof. intros E. unfold mview, view. cbn [m_overlay m_dev with_dev]. destruct (m_overlay m) as [o|]; [|done]. by destruct (o !! _). Qed.

Lemma append_pad_one d head tid tail : head_free_blocks head = 1 -> exists e, append_pad sb d head tid tail = (d, Err e).
Proof. intros E. unfold append_pad. rewrite E, pad_payload_length. cbn. by eexists. Qed.

Definition overlay_home (m : Mount D) : Prop := match m_overlay m with Some o => home o | None => True end.

Lemma synced_home m d : overlay_home (synced d m).
Proof. unfold overlay_home, synced. cbn. destruct (m_overlay m); [apply home_empty|done]. Qed.

Lemma wrap_ring_spec m head tid older :
  overlay_home m -> head_ready sb total (m_dev m) head older -> in_u 32 tid -> head_iclog_size head <= 32768 ->
  head_cycle head + 1 < XLOG_HEADER_MAGIC ->
  match wrap_ring sb head tid m with
  | (m', Ok head') => exists d', m' = add_wrap (synced d' m) /\ head_ready sb total d' head' (head_cycle head) /\
      head_block head' = 0 /\ head_cycle head' = head_cycle head + 1 /\ head_free_blocks head' = total /\
      head_iclog_size head' = head_iclog_size head /\ (forall x, outside x -> mview m' x = mview m x)
  | (m', Err _) => m_next m' = m_next m
  | (_, Panic) => 66 <= head_free_blocks head
  end.
Proof.
  intros Hh Hr Ht Hi Hc. unfold wrap_ring, mbind at 1, method_bind at 1. pose proof (sync_spec m Hh) as Hs.
  destruct (sync m) as [m1 [u|e|]]; [|by destruct Hs as (_ & ? & _)|done].
  destruct Hs as (d1 & -> & Hsame & Hv & _ & _ & _).
  pose proof (head_ready_frame _ _ _ _ Hsame Hr) as Hr1. pose proof (head_ready_typed sb total Hlog _ _ _ Hr1) as [Hb [Hc0 Hc1] Hf Hz].
  pose proof (hr_free _ _ _ _ _ Hr1) as Hfree. destruct (rdy_cycle _ _ _ _ _ _ (hr_ready _ _ _ _ _ Hr1)) as [Hcy Hm].
  assert (Hck : checked_add 32 (head_cycle head) 1 = Some (head_cycle head + 1)).
  { unfold checked_add. rewrite (proj2 (Z.ltb_lt _ _)); [done|]. unfold XLOG_HEADER_MAGIC in *. lia. }
  unfold in_u in Hb. rewrite (wadd_small 32 (head_block head)) by lia. rewrite Hfree.
  (* a ring written to its end goes on in the next cycle *)
  assert (Hnext : forall d2 prev, ready sb total d2 total (head_cycle head) older ->
    head_ready sb total d2 (mkHead 0 (head_cycle head + 1) prev total (head_iclog_size head)) (head_cycle head)).
  { intros d2 prev Hr2. split; cbn [head_block head_cycle head_free_blocks head_iclog_size]; [|lia|done].
    apply (ready_wrapped sb total Hlog d2 _ older); [done|unfold XLOG_HEADER_MAGIC in *; lia|lia]. }
  destruct (Z.ltb_spec 0 (head_free_blocks head)) as [H0|H0].
  - assert (Hls : lsn_of head = head_cycle head * 2 ^ 32 + head_block head)
      by (unfold lsn_of; rewrite lsn_at_sum by (unfold in_u; lia); reflexivity).
    unfold mbind, method_bind, gets, or_stop_writing, lift, modify, mret, method_ret. cbn [m_oldest synced with_oldest with_overlay with_dev default m_dev].
    destruct (decide (head_free_blocks head = 1)) as [H1|H1].
    { destruct (append_pad_one d1 head tid (lsn_of head) H1) as [e ->]. done. }
    destruct (decide (66 <= head_free_blocks head)) as [H66|H66].
    { rewrite (append_pad_big sb total Hlog d1 head older (lsn_of head) tid Hr1) by (rewrite ?Hls; unfold in_u; lia). done. }
    pose proof (append_pad_spec sb total Hlog d1 head older (lsn_of head) tid Hr1 ltac:(rewrite Hls; unfold in_u; lia) Ht Hi ltac:(lia)) as Hp.
    destruct (append_pad sb d1 head tid (lsn_of head)) as [d2 [lsn|e|]]; [|done|done].
    rewrite Hck. cbn [ok_or]. destruct Hp as [_ [newest Hap]]. exists d2. split; [done|].
    split_and!; try done.
    + apply Hnext. pose proof (appended_ready sb total Hlog _ _ _ _ _ _ _ _ _ Hr1 Hap) as [Hr2 _ _].
      cbn [next_head head_block head_cycle] in Hr2. by rewrite Hfree in Hr2.
    + intros x Hx. rewrite <- (Hv x). apply (mview_dev (synced d1 m) d2 x). apply (ap_rest _ _ _ _ _ _ _ _ _ _ _ Hap).
      rewrite Hfree. unfold outside, log_pos in *. lia.
  - unfold mbind, method_bind, gets, lift, modify, mret, method_ret. rewrite Hck. cbn [ok_or].
    exists d1. split; [done|]. split_and!; try done.
    + apply Hnext. destruct Hr1 as [Hr2 _ _]. by replace (head_block head) with total in Hr2 by lia.
    + intros x _. apply Hv.
Qed.

Lemma transaction_id_range head : in_u 32 (transaction_id head).
Proof.
  unfold transaction_id. pose proof (land_range_r (Z.lxor (rotate_left32 (head_cycle head) 16) (head_block head)) 0x7fffffff ltac:(lia)) as Hl.
  change 0x80000000 with (1 * 2 ^ 31). rewrite lor_disjoint_add by lia. unfold in_u. lia.
Qed.

(** Recovery of the device replays the operations of [es], and no others. *)
Definition recovers (d : D) (es : list entry) (lsn : Z) : Prop :=
  readable d the_ring ->
  exists newest, scan_for_newest_record sb d start (total * Log.BB) = Ok (Some newest) /\ rec_lsn newest = lsn /\
    forall S (visit : S -> list Item -> res S) s,
      walk sb d visit newest s = (x ← take_entries visit es ∅ s; Ok (length es, x.2)).

Lemma recovers_row d hd c older newest cycle from to e es last :
  kernel_ring sb d start total hd c older -> is_newest sb (ring d start total) (Some newest) ->
  length (rec_header newest) = 512%nat -> rd 8 rec_TAIL_LSN (rec_header newest) = e_lsn e ->
  Forall (holds sb d the_ring) (e :: es) -> consecutive cycle from (e :: es) to -> 0 < cycle -> 0 <= from -> to <= total ->
  list.last (e :: es) = Some last -> rec_lsn newest = e_lsn last ->
  recovers d (e :: es) (e_lsn last).
Proof.
  intros Hk Hn Hh Ht Hho Hrow Hcy Hf Hto Hl Hls Hread. exists newest.
  split; [exact (newest_found sb total Hlog d hd c older newest Hread Hk Hn)|]. split; [done|]. intros S visit s.
  pose proof (consecutive_le _ _ _ _ Hrow) as Hle. cbn [length] in Hle. pose proof Hrow as (Hat & Hel & Hbl & _).
  assert (Hrl : rec_lsn newest = e_lsn last) by done.
  apply (walk_chained sb d visit the_ring ltac:(cbn [ring_start]; lia) ltac:(cbn [ring_blocks]; lia)
    ltac:(cbn [ring_start ring_blocks]; lia) Hread newest (e_lsn e) e es); try done.
  - exact (lg_ext _ _ Hlog).
  - rewrite Hel. lia.
  - rewrite Hel, Z.add_comm, Z_mod_plus_full, Z.mod_small by lia. done.
  - rewrite Hrl. by apply (consecutive_chained cycle es e from to).
  - cbn [ring_blocks]. lia.
Qed.

(** ** A whole commit *)

Lemma method_run {A B} (f : method D A) (k : A -> method D B) m :
  (f ≫= k) m = match f m with (m, Ok a) => k a m | (m, Err e) => (m, Err e) | (m, Panic) => (m, Panic) end.
Proof. reflexivity. Qed.

(** What a commit begins to write from: [kept] are the records recovery still
    needs. *)
Record staged (m : Mount D) (head : Head) (kept : list entry) (older from : Z) : Prop := {
  st_home : overlay_home m;
  st_ready : head_ready sb total (m_dev m) head older;
  st_oldest : m_oldest m = match kept with [] => None | e :: _ => Some (e_lsn e) end;
  st_holds : Forall (holds sb (m_dev m) the_ring) kept;
  st_row : consecutive (head_cycle head) from kept (head_block head);
}.

(** The part of [commit_record] after the place is known. *)
Definition write_out (tid : Z) (groups : list (list Op * Z)) (head : Head) : method D Z :=
  oldest ← gets m_oldest;
  let tail := default (lsn_of head) oldest in
  '(at_, first, lsn) ← append_groups sb tid tail groups head None 0;
  first ← lift (expect first);
  modify (with_oldest (Some (default first oldest)));;
  modify set_logged;;
  modify (with_next (Some at_));;
  held ← gets (fun m => match m_overlay m with Some _ => MAX_DIRTY_BYTES <=? Z.of_nat (dirty_bytes m) | None => false end);
  (if held : bool then sync else mret tt);;
  mret lsn.

Record written (m m' : Mount D) (kept new : list entry) (tid cycle : Z) (groups : list (list Op)) (lsn : Z) : Prop := {
  wr_ops : e_ops <$> new = groups;
  wr_tid : Forall (fun e => e_tid e = tid) new;
  wr_lsn : e_lsn <$> list.last new = Some lsn;
  wr_mount : mount_ok m' (kept ++ new) \/ (mount_ok m' [] /\ dirty_bytes m' = 0%nat);
  wr_logged : m_logged m' = true /\ m_wraps m' = m_wraps m;
  wr_dirty : dirty_bytes m' = dirty_bytes m \/ dirty_bytes m' = 0%nat;
  wr_next : exists at_, m_next m' = Some at_ /\ head_cycle at_ = cycle;
  wr_held : MAX_DIRTY_BYTES <= Z.of_nat (dirty_bytes m) -> mount_ok m' [];
  wr_view x : outside x -> mview m' x = mview m x;
  wr_recovers : recovers (m_dev m') (kept ++ new) lsn;
}.

Lemma staged_from m head kept older from :
  staged m head kept older from -> 0 <= from <= head_block head /\ head_block head <= total /\ 0 < head_cycle head < 2 ^ 32.
Proof.
  intros [_ Hr _ Hho Hrow]. pose proof (rdy_head _ _ _ _ _ _ (hr_ready _ _ _ _ _ Hr)) as Hh.
  destruct (rdy_cycle _ _ _ _ _ _ (hr_ready _ _ _ _ _ Hr)) as [Hc _]. pose proof (consecutive_le _ _ _ _ Hrow).
  assert (0 <= from); [|lia]. destruct kept as [|e kept]; [cbn in Hrow; lia|].
  destruct Hrow as (Hat & _). apply Forall_cons in Hho as [He _]. destruct (ho_fits _ _ _ _ He) as [? _]. lia.
Qed.

(** The tail every record of the checkpoint names. *)
Definition tail_of (m : Mount D) (head : Head) : Z := default (lsn_of head) (m_oldest m).

Lemma tail_of_spec m head kept older from :
  staged m head kept older from -> in_u 64 (tail_of m head) /\
  tail_of m head = match kept with [] => head_cycle head * 2 ^ 32 + head_block head | e :: _ => e_lsn e end.
Proof.
  intros Hst. destruct (staged_from _ _ _ _ _ Hst) as (Hf & Hb & Hc). destruct Hst as [_ _ Ho _ Hrow].
  unfold tail_of. rewrite Ho.
  destruct kept as [|e kept]; cbn [from_option id].
  - unfold lsn_of. rewrite lsn_at_sum by (unfold in_u; lia). unfold in_u. lia.
  - destruct Hrow as (_ & -> & _). unfold in_u. lia.
Qed.

(** The mount after the records and before any push. *)
Definition recorded (d : D) (first : Z) (at_ : Head) (m : Mount D) : Mount D :=
  with_next (Some at_) (set_logged (with_oldest (Some (default first (m_oldest m))) (with_dev d m))).

Lemma recorded_ok m head kept older from tid groups d' at' e new :
  staged m head kept older from ->
  laid_out (m_dev m) d' head at' older tid (tail_of m head) groups (e :: new) ->
  mount_ok (recorded d' (e_lsn e) at' m) (kept ++ e :: new) /\
  exists lastn, list.last (e :: new) = Some lastn /\
    forall d2, same_ring d' d2 -> recovers d2 (kept ++ e :: new) (e_lsn lastn).
Proof.
  intros Hst Hlo. destruct (staged_from _ _ _ _ _ Hst) as (Hf & Hb & Hc).
  destruct (tail_of_spec _ _ _ _ _ Hst) as [_ Htl]. pose proof Hst as [Hh Hr Ho Hho Hrow].
  pose proof Hlo as [Hops Htids _ Hrdy [Hcy Hic] Hfr Hhn Hrn Hrest Hnew].
  assert (Hall : Forall (holds sb d' the_ring) (kept ++ e :: new)).
  { apply Forall_app. split; [|done]. apply Forall_forall. intros x Hx.
    destruct (consecutive_in _ _ _ _ x Hrow Hx) as (_ & Hend & _).
    eapply (holds_preserved sb total Hlog (m_dev m) d' x _ _ (proj1 (Forall_forall _ _) Hho x Hx) Hrest). by left. }
  pose proof (consecutive_app _ _ _ _ _ _ Hrow Hrn) as Hrows. split.
  - split; cbn [recorded with_next set_logged with_oldest with_dev m_overlay m_oldest m_dev m_next].
    + exact Hh.
    + rewrite Ho. by destruct kept.
    + done.
    + intros hd [[= <-]|[? _]]; [|done]. exists older, from. split; [done|]. by rewrite Hcy.
  - destruct (last_is_Some (e :: new)) as [_ Hl]. destruct (Hl ltac:(done)) as [lastn El]. exists lastn. split; [done|].
    intros d2 Hs2. destruct (Hnew lastn El) as (dp & hd & blocks & newest & Hap & Hls).
    destruct (kernel_ring_frame _ _ _ _ _ _ Hs2 (ap_ring _ _ _ _ _ _ _ _ _ _ _ Hap) (ap_newest _ _ _ _ _ _ _ _ _ _ _ Hap)) as [Hk2 Hn2].
    pose proof (rdy_head _ _ _ _ _ _ (hr_ready _ _ _ _ _ Hrdy)) as Hend.
    destruct (kept ++ e :: new) as [|e0 rest] eqn:Ek; [by destruct kept|].
    eapply (recovers_row d2 _ _ _ newest (head_cycle head) from (head_block at') e0 rest lastn Hk2 Hn2).
    + exact (ap_header _ _ _ _ _ _ _ _ _ _ _ Hap).
    + rewrite (ap_tail _ _ _ _ _ _ _ _ _ _ _ Hap), Htl. destruct kept as [|k kept]; cbn in Ek; injection Ek as <- <-; [|done].
      by destruct Hrn as (_ & -> & _).
    + eapply Forall_impl; [exact Hall|]. intros x. by apply holds_frame.
    + done.
    + lia.
    + lia.
    + lia.
    + rewrite <- Ek. by rewrite last_app, El.
    + done.
Qed.

Lemma write_out_spec m head kept older from tid groups :
  staged m head kept older from -> in_u 32 tid -> Forall (group_ok tid (head_iclog_size head)) groups -> groups <> [] ->
  zsum groups.*2 <= head_free_blocks head -> m_failed m = false -> m_writable m = true ->
  match write_out tid groups head m with
  | (m', Ok lsn) => exists new, written m m' kept new tid (head_cycle head) groups.*1 lsn
  | (m', Err _) => m_failed m' = true
  | (_, Panic) => False
  end.
Proof.
  intros Hst Ht Hg Hne Hsum Hnf Hw. unfold write_out. rewrite method_run. unfold gets at 1. cbn [default].
  change (default (lsn_of head) (m_oldest m)) with (tail_of m head). rewrite method_run.
  destruct (tail_of_spec _ _ _ _ _ Hst) as [Htl _].
  pose proof (append_groups_spec tid (tail_of m head) older groups m head None 0 (st_ready _ _ _ _ _ Hst) Ht Htl Hg Hsum) as Ha.
  destruct (append_groups _ _ _ _ _ _ _ _) as [m1 [[[at' first] lsn]|e|]]; [|by destruct Ha|done].
  destruct Ha as (d' & new & -> & Hlo & -> & ->).
  destruct new as [|e new]; [by destruct groups; [|destruct Hlo]|].
  destruct (recorded_ok _ _ _ _ _ _ _ _ _ _ _ Hst Hlo) as (Hm & lastn & El & Hrec).
  cbn [lookup list_lookup fmap option_fmap option_map]. unfold lift. rewrite method_run. cbn [expect].
  rewrite !method_run. unfold modify. rewrite method_run. unfold modify. rewrite method_run. unfold gets.
  change (with_next (Some at') _) with (recorded d' (e_lsn e) at' m). set (m2 := recorded d' (e_lsn e) at' m) in *.
  assert (Hv2 : forall x, outside x -> mview m2 x = mview m x).
  { intros x Hx. transitivity (mview (with_dev d' m) x); [done|]. apply mview_dev, (lo_rest _ _ _ _ _ _ _ _ _ Hlo).
    destruct (staged_from _ _ _ _ _ Hst) as (Hf & _). pose proof (rdy_head _ _ _ _ _ _ (hr_ready _ _ _ _ _ (lo_ready _ _ _ _ _ _ _ _ _ Hlo))).
    unfold outside, log_pos in *. lia. }
  assert (Hlsn : default 0 (e_lsn <$> list.last (e :: new)) = e_lsn lastn) by (by rewrite El).
  rewrite method_run. destruct (match m_overlay m2 with Some _ => _ | None => _ end) eqn:Eheld.
  - rewrite method_run. pose proof (sync_spec m2 (mo_home _ _ Hm)) as Hs. destruct (sync m2) as [m3 [u|er|]]; [| |done].
    + destruct Hs as (d3 & -> & Hsame & Hv & _ & _ & _). exists (e :: new). rewrite Hlsn.
      assert (Hm3 : mount_ok (synced d3 m2) []).
      { split; cbn [synced with_oldest with_overlay with_dev m_overlay m_oldest m_dev m_next]; [exact (synced_home m2 d3)|done|done|].
        intros hd [[= <-]|[? _]]; [|done]. exists older, (head_block at'). split; [|done].
        exact (head_ready_frame _ _ _ _ Hsame (lo_ready _ _ _ _ _ _ _ _ _ Hlo)). }
      split.
      * exact (lo_ops _ _ _ _ _ _ _ _ _ Hlo).
      * exact (lo_tid _ _ _ _ _ _ _ _ _ Hlo).
      * by rewrite El.
      * right. split; [done|unfold dirty_bytes, synced; cbn; by destruct (m_overlay m)].
      * done.
      * right. unfold dirty_bytes, synced. cbn. by destruct (m_overlay m).
      * exists at'. split; [done|]. apply (lo_same _ _ _ _ _ _ _ _ _ Hlo).
      * done.
      * intros x Hx. rewrite Hv. by apply Hv2.
      * by apply Hrec.
    + destruct Hs as [[[_ Hx]|Hx] _]; [|done]. unfold m2 in Hx. cbn in Hx. rewrite Hnf, Hw in Hx. by destruct Hx.
  - rewrite method_run. unfold mret, method_ret. exists (e :: new). rewrite Hlsn. split.
    + exact (lo_ops _ _ _ _ _ _ _ _ _ Hlo).
    + exact (lo_tid _ _ _ _ _ _ _ _ _ Hlo).
    + by rewrite El.
    + by left.
    + done.
    + by left.
    + exists at'. split; [done|]. apply (lo_same _ _ _ _ _ _ _ _ _ Hlo).
    + intros Hmax. unfold dirty_bytes in Eheld, Hmax. unfold m2, recorded in Eheld.
      cbn [with_next set_logged with_oldest with_dev m_overlay] in Eheld.
      destruct (m_overlay m); [apply Z.leb_gt in Eheld; lia|]. unfold MAX_DIRTY_BYTES in Hmax. lia.
    + exact Hv2.
    + by apply Hrec.
Qed.

Lemma groups_ok tid iclog ops groups lens max :
  split_ok max ops groups -> Forall op_typed ops -> Z.of_nat (length ops) < 2 ^ 32 ->
  res_map (fun g => record_blocks_for_log tid g iclog (sb_logsunit sb)) groups = Ok lens ->
  Forall (group_ok tid iclog) (zip groups lens) /\ (zip groups lens).*1 = groups /\ (zip groups lens).*2 = lens /\
  zip groups lens <> [].
Proof.
  intros [Hc _ Hne _] Hty Hlen Hm%res_map_Ok. pose proof (Forall2_length _ _ _ Hm) as Hl.
  assert (H1 : (zip groups lens).*1 = groups) by (apply fst_zip; lia).
  split_and!; [|done|apply snd_zip; lia|intros E; by rewrite E in H1; destruct groups].
  apply Forall_forall. intros [g n] [i Hi]%list_elem_of_lookup.
  rewrite lookup_zip_with_Some in Hi. destruct Hi as (x & y & [= <- <-] & Hg & Hn).
  rewrite Forall2_lookup in Hm. specialize (Hm i). rewrite Hg, Hn in Hm. inversion Hm as [? ? He|]; subst.
  rewrite <- (take_drop_middle groups i g Hg), concat_app, concat_cons in Hty, Hlen.
  rewrite !Forall_app in Hty. rewrite !length_app in Hlen. split_and!; [done|by destruct Hty as (_ & ? & _)|cbn [fst]; lia].
Qed.

(** What a commit leaves. *)
Definition committed (m m' : Mount D) (es : list entry) (build : Z -> list Op) (lsn : Z) : Prop :=
  exists head kept new, next_of m head /\
    (kept = es \/ (kept = [] /\ m_wraps m' = S (m_wraps m) /\ dirty_bytes m' = 0%nat)) /\
    split_into_records (build (transaction_id head)) (head_iclog_size head) = Ok (e_ops <$> new) /\
    concat (e_ops <$> new) = build (transaction_id head) /\
    Forall (fun e => e_tid e = transaction_id head) new /\ e_lsn <$> list.last new = Some lsn /\
    (mount_ok m' (kept ++ new) \/ (mount_ok m' [] /\ dirty_bytes m' = 0%nat)) /\ m_logged m' = true /\
    (m_wraps m' = m_wraps m -> MAX_DIRTY_BYTES <= Z.of_nat (dirty_bytes m) -> mount_ok m' []) /\
    (exists at_, m_next m' = Some at_ /\ head_cycle at_ <= head_cycle head + 1) /\
    (forall x, outside x -> mview m' x = mview m x) /\ recovers (m_dev m') (kept ++ new) lsn.

(** The head, found or known. *)
Definition find_head : method D Head :=
  known ← gets m_next;
  match known with
  | Some known => mret known
  | None => fun m => (m, Log.head sb (m_dev m))
  end.

Lemma find_head_spec m :
  exists r, find_head m = (m, r) /\ forall head, r = Ok head -> next_of m head.
Proof.
  unfold find_head. rewrite method_run. unfold gets. destruct (m_next m) as [h|] eqn:E.
  - exists (Ok h). split; [done|]. intros hd [= <-]. by left.
  - exists (Log.head sb (m_dev m)). split; [done|]. intros hd Hh. by right.
Qed.

(** The place of a checkpoint: here, or at the ring's first block again. *)
Definition place (head : Head) (needed tid : Z) : method D Head :=
  if wraps_first needed (head_free_blocks head) tid then wrap_ring sb head tid else mret head.

Lemma commit_place m es head needed tid :
  mount_ok m es -> next_of m head -> in_u 32 tid -> head_iclog_size head <= 32768 ->
  head_cycle head + 1 < XLOG_HEADER_MAGIC ->
  match place head needed tid m with
  | (m1, Ok head') => exists kept older from, staged m1 head' kept older from /\
      (kept = es /\ m1 = m \/ kept = [] /\ m_wraps m1 = S (m_wraps m) /\ dirty_bytes m1 = 0%nat) /\
      head_iclog_size head' = head_iclog_size head /\ head_cycle head' <= head_cycle head + 1 /\ m_next m1 = m_next m /\ m_failed m1 = m_failed m /\
      m_writable m1 = m_writable m /\ (forall x, outside x -> mview m1 x = mview m x)
  | (m1, Err _) => m_next m1 = m_next m
  | (_, Panic) => 66 <= head_free_blocks head
  end.
Proof.
  intros Hm Hn Ht Hi Hc. pose proof Hm as [Hh Ho Hho Hhd]. destruct (Hhd head Hn) as (older & from & Hr & Hrow).
  unfold place. destruct (wraps_first _ _ _); [|by exists es, older, from; split_and!; try done; [auto|lia]].
  pose proof (wrap_ring_spec m head tid older Hh Hr Ht Hi Hc) as Hw.
  destruct (wrap_ring sb head tid m) as [m1 [head'|e|]]; [|done|done].
  destruct Hw as (d' & -> & Hr' & Hb & Hcy & _ & Hic & Hv). exists [], (head_cycle head), 0.
  split_and!; try done.
  - split; try done. exact (synced_home m d').
  - right. split_and!; try done. unfold dirty_bytes. cbn. by destruct (m_overlay m).
  - lia.
Qed.

Lemma find_head_not_Panic m : (m_next m = None -> Log.head sb (m_dev m) <> Panic) -> (find_head m).2 <> Panic.
Proof. intros Hp. unfold find_head. rewrite method_run. unfold gets. destruct (m_next m); [done|by apply Hp]. Qed.

Lemma groups_iclog tid iclog groups : Forall (group_ok tid iclog) groups -> groups <> [] -> iclog <= 32768.
Proof. intros Hg Hne. destruct groups as [|g gs]; [done|]. apply Forall_cons in Hg as [Hg _]. by eapply group_ok_blocks. Qed.

Lemma commit_record_spec m es build :
  mount_ok m es -> (forall tid, in_u 32 tid -> Forall op_typed (build tid) /\ Z.of_nat (length (build tid)) < 2 ^ 32) ->
  (forall head, next_of m head -> head_cycle head + 1 < XLOG_HEADER_MAGIC) ->
  (m_next m = None -> Log.head sb (m_dev m) <> Panic) ->
  match commit_record sb build m with
  | (m', Ok lsn) => committed m m' es build lsn
  | (m', Err _) => m_failed m' = true \/ m_next m' = m_next m
  | (_, Panic) => exists head, next_of m head /\ 66 <= head_free_blocks head
  end.
Proof.
  intros Hm Hb Hcy Hnp. change (commit_record sb build) with
    (writable_device ;; head ← find_head;
     groups ← lift (split_into_records (build (transaction_id head)) (head_iclog_size head));
     lens ← lift (res_map (fun g => record_blocks_for_log (transaction_id head) g (head_iclog_size head) (sb_logsunit sb)) groups);
     needed ← lift (sum_checked lens);
     head' ← place head needed (transaction_id head);
     lift (fail_if (head_free_blocks head' <? needed)
       (unsupported "this checkpoint needs {} basic blocks and the whole log holds {}; a checkpoint larger than the log cannot be written"
         [AZ needed; AZ (head_free_blocks head')]));;
     write_out (transaction_id head) (zip groups lens) head' : method D Z).
  rewrite method_run. unfold writable_device at 1. destruct (m_failed m) eqn:Ef; [by right|].
  destruct (m_writable m) eqn:Ew; [|by right]. rewrite method_run. pose proof (find_head_not_Panic m Hnp) as Hfp.
  destruct (find_head_spec m) as (r & Efh & Hr). rewrite Efh in *. destruct r as [head|e|]; [|by right|done].
  specialize (Hr head eq_refl). pose proof (transaction_id_range head) as Ht. remember (transaction_id head) as tid eqn:Etid.
  destruct (Hb tid Ht) as [Hty Hlen]. rewrite method_run. unfold lift at 1.
  pose proof (split_into_records_spec (build tid) (head_iclog_size head)) as Hsp.
  destruct (split_into_records _ _) as [groups|e|] eqn:Egr; [|by right|done]. destruct Hsp as (max & Hmax & Hso & _).
  rewrite method_run. unfold lift at 1.
  pose proof (res_map_not_Panic (fun g => record_blocks_for_log tid g (head_iclog_size head) (sb_logsunit sb)) groups
    ltac:(intros g; apply record_blocks_for_log_total)) as Hmp.
  destruct (res_map _ groups) as [lens|e|] eqn:El; [|by right|done]. clear Hmp.
  destruct (groups_ok _ _ _ _ _ _ Hso Hty Hlen El) as (Hg & H1 & H2 & Hne).
  rewrite method_run. unfold lift at 1. pose proof (sum_checked_total lens) as Hst.
  destruct (sum_checked lens) as [needed|e|] eqn:Es; [|by right|done]. clear Hst. apply sum_checked_Ok in Es.
  rewrite method_run. pose proof (commit_place m es head needed tid Hm Hr Ht (groups_iclog _ _ _ Hg Hne) (Hcy head Hr)) as Hp.
  destruct (place head needed tid m) as [m1 [head'|e|]]; [|by right|by exists head].
  destruct Hp as (kept & older & from & Hsg & Hk & Hic & Hcy' & Enx & Ef1 & Ew1 & Hv). rewrite method_run. unfold lift at 1.
  destruct (Z.ltb_spec (head_free_blocks head') needed) as [|Hfit]; cbn [fail_if]; [by right|].
  rewrite <- Hic in Hg.
  pose proof (write_out_spec m1 head' kept older from tid (zip groups lens) Hsg Ht Hg Hne ltac:(rewrite H2; lia) ltac:(congruence) ltac:(congruence)) as Hw.
  destruct (write_out tid (zip groups lens) head' m1) as [m' [lsn|e|]]; [|by left|done].
  destruct Hw as [new [Hops Htid Hlsn Hmo [Hlg Hwr] Hd (at_ & Enx' & Ecy) Hheld Hvw Hrec]].
  exists head, kept, new. rewrite <- Etid. split_and!; try done.
  - destruct Hk as [[-> _]|(-> & Hws & Hd0)]; [by left|]. right. split_and!; [done|congruence|]. destruct Hd as [->| ->]; done.
  - by rewrite Egr, Hops, H1.
  - by rewrite Hops, H1, (so_ops _ _ _ Hso).
  - intros Hws Hmx. destruct Hk as [[_ ->]|(_ & Hs & _)]; [by apply Hheld|lia].
  - exists at_. split; [done|]. rewrite Ecy. exact Hcy'.
  - intros x Hx. by rewrite Hvw, Hv.
Qed.
End mount.

(** C3: A commit is durable and the mount goes on.  On a mount whose outstanding
    records lie one after another up to its head, committing a checkpoint
    writes its records there, or at the beginning of the ring after everything
    outstanding is on the device; what the mount reads outside the log does not
    change; finding the newest record and walking the log then replays exactly
    the operations of the outstanding records and of the checkpoint, however
    many records it was split into; the mount is again such a mount.  A failure
    either stops the mount's writing or leaves its head where it was, and the
    only panic is the pad record over a gap of 66 blocks or more. *)
Theorem commit_record_recovers `{Host} `{Crc : Crc32c} `{!Crc32cLaws} (sb : Superblock) {D} {dev : BlockDevice D}
    {dlaws : BlockDeviceLaws D} (total : Z) (m : Mount D) (es : list entry) (build : Z -> list Op) :
  log_geometry sb total -> mount_ok sb total m es ->
  (forall tid, in_u 32 tid -> Forall op_typed (build tid) /\ Z.of_nat (length (build tid)) < 2 ^ 32) ->
  (forall head, next_of sb m head -> head_cycle head + 1 < XLOG_HEADER_MAGIC) ->
  (m_next m = None -> Log.head sb (m_dev m) <> Panic) ->
  match commit_record sb build m with
  | (m', Ok lsn) => committed sb total m m' es build lsn
  | (m', Err _) => m_failed m' = true \/ m_next m' = m_next m
  | (_, Panic) => exists head, next_of sb m head /\ 66 <= head_free_blocks head
  end.
Proof. intros Hlog. by apply commit_record_spec. Qed.

(** A sync loses nothing.  It puts everything the mount holds on the device,
    block by block where the overlay has them; the mount reads every byte as
    before, the log's own blocks are untouched, and only then is the tail free
    to move; a failed write keeps what was held and stops the mount. *)
Theorem sync_exact `{Host} `{Crc : Crc32c} `{!Crc32cLaws} (sb : Superblock) {D} {dev : BlockDevice D}
    {dlaws : BlockDeviceLaws D} (total : Z) (m : Mount D) :
  match m_overlay m with Some o => home sb total o | None => True end ->
  match sync m with
  | (m', Ok _) => exists d', m' = synced d' m /\ same_ring sb total (m_dev m) d' /\ (forall b, mview m' b = mview m b) /\
      (forall b, dev_byte d' b = mview m b) /\ m_failed m = false /\ m_writable m = true
  | (m', Err _) => (m' = m /\ (m_failed m = true \/ m_writable m = false) \/ m_failed m' = true) /\
      m_next m' = m_next m /\ (forall b, mview m' b = mview m b)
  | (_, Panic) => False
  end.
Proof. intros Hh. by apply (sync_spec sb total). Qed.

(** C10: A push inside a commit leaves the commit behind.  When the mount already
    holds [MAX_DIRTY_BYTES], committing a checkpoint pushes the overlay and
    forgets the oldest record after the checkpoint's own records are written and
    before its buffers are in the overlay; whatever the caller then puts there,
    recovery after the next commit replays that next checkpoint alone, and the
    first, which was reported as committed, is on the device nowhere but in
    records recovery does not reach. *)
Theorem pushing_commit_drops_tail `{Host} `{Crc : Crc32c} `{!Crc32cLaws} (sb : Superblock) {D} {dev : BlockDevice D}
    {dlaws : BlockDeviceLaws D} (total : Z) (m : Mount D) (es : list entry) (build build' : Z -> list Op) (o' : Overlay) :
  log_geometry sb total -> mount_ok sb total m es -> home sb total o' ->
  (forall tid, in_u 32 tid -> Forall op_typed (build tid) /\ Z.of_nat (length (build tid)) < 2 ^ 32) ->
  (forall tid, in_u 32 tid -> Forall op_typed (build' tid) /\ Z.of_nat (length (build' tid)) < 2 ^ 32) ->
  (forall head, next_of sb m head -> head_cycle head + 2 < XLOG_HEADER_MAGIC) ->
  (m_next m = None -> Log.head sb (m_dev m) <> Panic) -> MAX_DIRTY_BYTES <= Z.of_nat (dirty_bytes m) ->
  forall m1 lsn m2 lsn', commit_record sb build m = (m1, Ok lsn) -> m_wraps m1 = m_wraps m ->
  commit_record sb build' (with_overlay (Some o') m1) = (m2, Ok lsn') ->
  m_oldest m1 = None /\
  exists tid new, in_u 32 tid /\ concat (e_ops <$> new) = build' tid /\ recovers sb total (m_dev m2) new lsn'.
Proof.
  intros Hlog Hm Ho Hb Hb' Hcy Hnp Hmax m1 lsn m2 lsn' E1 Hw E2.
  pose proof (commit_record_spec sb total Hlog m es build Hm Hb ltac:(intros h Hh; pose proof (Hcy h Hh); lia) Hnp) as H1.
  rewrite E1 in H1. destruct H1 as (head & _ & _ & Hn & _ & _ & _ & _ & _ & _ & _ & Hheld & (at_ & Enx & Hat) & _).
  pose proof (Hheld Hw Hmax) as Hm1. split; [exact (mo_oldest _ _ _ _ Hm1)|].
  assert (Hm1' : mount_ok sb total (with_overlay (Some o') m1) []) by (destruct Hm1; by split).
  pose proof (commit_record_spec sb total Hlog _ [] build' Hm1' Hb') as H2. rewrite E2 in H2.
  destruct H2 as (head2 & kept & new & _ & Hk & _ & Hops & _ & _ & _ & _ & _ & _ & _ & Hrec).
  - intros h [Eh|[Eh _]]; cbn [with_overlay m_next] in Eh; [|congruence]. pose proof (Hcy head Hn). replace h with at_ by congruence. lia.
  - cbn [with_overlay m_next]. congruence.
  - exists (transaction_id head2), new. split; [apply transaction_id_range; exact Hlog|]. split; [done|].
    by destruct Hk as [->|(-> & _)].
Qed.

(** ** On the empty log *)

Definition sample_build (tid : Z) : list Op :=
  [mkOp XLOG_START_TRANS []; mkOp 0 (trans_header tid XFS_TRANS_CHECKPOINT 1); mkOp 0 sample_region; mkOp XLOG_COMMIT_TRANS []].
Definition empty_mount : Mount FnDevice := mkMount empty_log true (Some ∅) None (Some empty_head) 0 false false.

Lemma empty_mount_ok : mount_ok sample_sb 64 empty_mount [].
Proof.
  split; [apply home_empty|done|done|]. intros head [[= <-]|[? _]]; [|done].
  exists 0, 0. split; [exact sample_ready|done].
Qed.

Lemma commit_record_recovers_witness :
  exists m' newest, commit_record sample_sb sample_build empty_mount = (m', Ok (2 ^ 32)) /\
    scan_for_newest_record sample_sb (m_dev m') 1056768 32768 = Ok (Some newest) /\
    walk sample_sb (m_dev m') collect newest [] = Ok (1%nat, [[mkLogItem [sample_region] 1]]).
Proof.
  pose proof (commit_record_recovers sample_sb 64 empty_mount [] sample_build sample_log_geometry empty_mount_ok) as Hc.
  assert (E : (commit_record sample_sb sample_build empty_mount).2 = Ok (2 ^ 32)) by (vm_compute; reflexivity).
  destruct (commit_record sample_sb sample_build empty_mount) as [m' r]. cbn [snd] in E. subst r.
  destruct Hc as (head & kept & new & Hn & Hk & Hops & _ & Htid & _ & _ & _ & _ & _ & _ & Hrec).
  - intros tid Ht. split; [|done]. unfold sample_build. rewrite !Forall_cons, Forall_nil. split_and!; try done; unfold in_u; cbn; lia.
  - intros head [[= <-]|[? _]]; done.
  - intros E0. discriminate E0.
  - destruct (Hrec (fn_readable _ _)) as (newest & Hs & _ & Hw). exists m', newest. split; [done|]. split; [exact Hs|].
    rewrite Hw. destruct Hn as [[= <-]|[? _]]; [|done].
    assert (kept = []) as -> by (by destruct Hk as [->|(-> & _)]).
    assert (Hg : split_into_records (sample_build (transaction_id empty_head)) (head_iclog_size empty_head) =
      Ok [sample_build (transaction_id empty_head)]) by (vm_compute; reflexivity).
    rewrite Hg in Hops. injection Hops as Hops. destruct new as [|e [|e' new]]; [done| |done]. injection Hops as Ho.
    apply Forall_cons in Htid as [Ht _]. cbn [app take_entries]. rewrite <- Ho, Ht. vm_compute. reflexivity.
Defined.

Lemma sync_exact_witness :
  exists d' o, sync (mkMount sample_device true (Some sample_logged) (Some 7) None 0 true false) =
    (mkMount d' true (Some o) None None 0 true false, Ok tt) /\ o = ∅ /\ dev_byte d' 1100 = x22.
Proof.
  set (m := mkMount sample_device true (Some sample_logged) (Some 7) None 0 true false).
  pose proof (sync_exact sample_sb 64 m) as Hs.
  assert (E : (sync m).2 = Ok tt) by (vm_compute; reflexivity).
  destruct (sync m) as [m' r]. cbn [snd] in E. subst r. destruct Hs as (d' & -> & _ & _ & Hb & _).
  - split; [exact sample_logged_ok|]. intros k blk Hk.
    assert (Hall : bool_decide (map_Forall (fun k (_ : bytes) => k + 512 <= 1056768) sample_logged) = true) by (vm_compute; reflexivity).
    apply bool_decide_eq_true in Hall. left. exact (Hall k blk Hk).
  - exists d', ∅. split; [done|]. split; [done|]. rewrite Hb. vm_compute. reflexivity.
Defined.

(** ** A mount that holds as much as it may *)

Lemma full_overlay : exists o, home sample_sb 64 o /\ MAX_DIRTY_BYTES <= Z.of_nat (bytes_held o).
Proof.
  set (kv := fun i : Z => (2 ^ 31 + i * 512, replicate 512 x00)).
  exists (list_to_map (kv <$> seqZ 0 32768)). split.
  - assert (Hk : forall k blk, (list_to_map (kv <$> seqZ 0 32768) : Overlay) !! k = Some blk ->
      exists i, 0 <= i < 32768 /\ k = 2 ^ 31 + i * 512 /\ blk = replicate 512 x00).
    { intros k blk (i & [= -> ->] & Hi%elem_of_seqZ)%elem_of_list_to_map_2%list_elem_of_fmap. exists i. split_and!; done || lia. }
    split.
    + intros k blk (i & Hi & -> & ->)%Hk. unfold held_ok, Overlay.BB, Overlay.BBSIZE. rewrite length_replicate.
      split_and!; try lia. replace (2 ^ 31 + i * 512) with ((2 ^ 22 + i) * 512) by lia. apply Z.mod_mul. lia.
    + intros k blk (i & Hi & -> & ->)%Hk. right. change (fsblock_offset sample_sb (sb_logstart sample_sb)) with 1056768. lia.
  - unfold bytes_held. rewrite map_size_list_to_map.
    + rewrite length_fmap, length_seqZ. unfold Overlay.BBSIZE, MAX_DIRTY_BYTES. lia.
    + rewrite <- list_fmap_compose. apply NoDup_fmap_2; [intros i j Hij; cbn in Hij; lia|apply NoDup_seqZ].
Qed.

Lemma fn_push_loop l : forall d n, exists d' n', push_loop (D := FnDevice) d l n = (d', Ok n').
Proof. induction l as [|[k blk] l IH]; intros d n; cbn [push_loop]; [by eexists _, _|]. apply IH. Qed.

Lemma fn_sync (m : Mount FnDevice) o :
  m_overlay m = Some o -> m_failed m = false -> m_writable m = true ->
  exists d, sync m = (synced d m, Ok tt).
Proof.
  intros Eo Ef Ew. unfold sync, writable_device, push_overlay, modify, mbind, method_bind, synced, push. rewrite Ef, Ew, Eo.
  destruct (fn_push_loop (entries o) (m_dev m) 0) as (d' & n & ->). exists d'. reflexivity.
Qed.

(** Committing the sample, whatever is held. *)
Lemma sample_commit d o head wraps logged :
  head = empty_head \/ head = next_head empty_head 3 ->
  exists d', commit_record sample_sb sample_build (mkMount d true (Some o) None (Some head) wraps logged false) =
    ((if MAX_DIRTY_BYTES <=? Z.of_nat (bytes_held o) then sync else mret tt);; mret (lsn_of head))
      (mkMount d' true (Some o) (Some (lsn_of head)) (Some (next_head head 3)) wraps true false).
Proof.
  intros Hhead. set (tid := transaction_id head). set (g := sample_build tid).
  assert (Hs : split_into_records g (head_iclog_size head) = Ok [g]) by (by destruct Hhead as [->| ->]; vm_compute).
  assert (Hl : res_map (fun g => record_blocks_for_log tid g (head_iclog_size head) (sb_logsunit sample_sb)) [g] = Ok [3])
    by (by destruct Hhead as [->| ->]; vm_compute).
  assert (Hw : wraps_first 3 (head_free_blocks head) tid = false) by (by destruct Hhead as [->| ->]; vm_compute).
  assert (Hf : (head_free_blocks head <? 3) = false) by (by destruct Hhead as [->| ->]).
  assert (Hn : mkHead (head_block head ⊞{32} 3) (head_cycle head) (head_block head) (head_free_blocks head ⊟{32} 3) (head_iclog_size head) =
    next_head head 3) by (by destruct Hhead as [->| ->]).
  assert (Ha : exists d', append_at_with_tail sample_sb d head tid g (lsn_of head) = (d', Ok (lsn_of head))).
  { assert (E : (append_at_with_tail sample_sb d head tid g (lsn_of head)).2 = Ok (lsn_of head))
      by (by destruct Hhead as [->| ->]; vm_compute).
    destruct (append_at_with_tail _ _ _ _ _ _) as [d' r]. cbn [snd] in E. subst r. by exists d'. }
  destruct Ha as [d' Ha]. exists d'. clear Hhead. unfold commit_record. rewrite !method_run. cbn [writable_device m_failed m_writable].
  rewrite method_run. unfold gets at 1. cbn [m_next]. rewrite method_run. unfold mret at 1, method_ret at 1. cbv zeta.
  fold tid. fold g. rewrite method_run. unfold lift at 1. rewrite Hs. rewrite method_run. unfold lift at 1. rewrite Hl.
  rewrite method_run. unfold lift at 1. change (sum_checked [3]) with (Ok 3). cbv beta iota.
  rewrite method_run, Hw. unfold mret at 1, method_ret at 1. rewrite method_run. unfold lift at 1. rewrite Hf. cbn [fail_if].
  rewrite method_run. unfold gets at 1. cbn [m_oldest default zip zip_with append_groups]. rewrite method_run.
  rewrite method_run. unfold or_stop_writing. cbn [m_dev]. rewrite Ha, Hn. reflexivity.
Qed.

Lemma sample_build_typed tid : Forall op_typed (sample_build tid) /\ Z.of_nat (length (sample_build tid)) < 2 ^ 32.
Proof. split; [|done]. unfold sample_build. rewrite !Forall_cons, Forall_nil. split_and!; try done; unfold in_u; cbn; lia. Qed.

Lemma pushing_commit_drops_tail_witness :
  exists o m1 m2 tid new,
    commit_record sample_sb sample_build (mkMount empty_log true (Some o) None (Some empty_head) 0 false false) = (m1, Ok (2 ^ 32)) /\
    commit_record sample_sb sample_build (with_overlay (Some ∅) m1) = (m2, Ok (2 ^ 32 + 3)) /\
    m_oldest m1 = None /\ concat (e_ops <$> new) = sample_build tid /\ recovers sample_sb 64 (m_dev m2) new (2 ^ 32 + 3).
Proof.
  destruct full_overlay as (o & Ho & Hmax). set (m := mkMount empty_log true (Some o) None (Some empty_head) 0 false false).
  destruct (sample_commit empty_log o empty_head 0 false (or_introl eq_refl)) as (d1 & E1).
  rewrite (proj2 (Z.leb_le _ _) Hmax), method_run in E1.
  match type of E1 with context[sync ?x] => destruct (fn_sync x o eq_refl eq_refl eq_refl) as [d2 Es] end. rewrite Es in E1.
  unfold synced, with_oldest, with_overlay, with_dev in E1. cbn [m_dev m_writable m_overlay m_oldest m_next m_wraps m_logged m_failed] in E1.
  set (m1 := mkMount d2 true (Some ∅) None (Some (next_head empty_head 3)) 0 true false : Mount FnDevice).
  destruct (sample_commit d2 ∅ (next_head empty_head 3) 0 true (or_intror eq_refl)) as (d3 & E2).
  change (MAX_DIRTY_BYTES <=? Z.of_nat (bytes_held ∅)) with false in E2. rewrite method_run in E2.
  destruct (pushing_commit_drops_tail sample_sb 64 m [] sample_build sample_build ∅ sample_log_geometry) with
    (m1 := m1) (lsn := 2 ^ 32) (lsn' := 2 ^ 32 + 3)
    (m2 := mkMount d3 true (Some ∅) (Some (2 ^ 32 + 3)) (Some (next_head (next_head empty_head 3) 3)) 0 true false : Mount FnDevice)
    as (Hold & tid & new & _ & Hops & Hrec).
  - split; [exact Ho|done|done|]. intros head [[= <-]|[? _]]; [|done]. exists 0, 0. split; [exact sample_ready|done].
  - apply home_empty.
  - intros tid _. apply sample_build_typed.
  - intros tid _. apply sample_build_typed.
  - intros head [[= <-]|[? _]]; done.
  - intros E0. discriminate E0.
  - exact Hmax.
  - exact E1.
  - reflexivity.
  - exact E2.
  - exists o, m1. eexists _, tid, new. split; [exact E1|]. split; [exact E2|]. split; [exact Hold|]. split; [exact Hops|exact Hrec].
Defined.
