(* ===== verification/Quota.v ===== *)
(** * Quota records ([src/src/quota.rs], [src/src/quota/record.rs])

    A dquot counts the blocks and inodes of one user, group or project.  A
    transaction that changes usage adds up its changes per dquot, rewrites each
    record and logs it as an item of its own.

    The theorems: the changes are added up exactly, one item per dquot; a record
    adjusted has the new counts and nothing else changed, and what the reader then
    makes of it; what recovery replays from an item is what the mount put in the
    overlay; and where the item's address is not that of the block it was read
    from. *)

From Stdlib Require Import ZArith Lia Strings.String Strings.Byte Bool Sorted.
From stdpp Require Import base list sorting strings gmap sets.
From S2P Require Import Prelude Error Endian Crc32c Fields Superblock Sample Overlay Extent Inode BufWrite Dir DirShort DirLookup LogRecover LogWrite InodeLog.

Definition DQ_USER : Z := 1.
Definition DQ_PROJECT : Z := 2.
Definition DQ_GROUP : Z := 4.
Definition DQ_BHARD : nat := 8.
Definition DQ_IHARD : nat := 24.
Definition DQ_BCOUNT : nat := 40.
Definition DQ_ICOUNT : nat := 48.

(** ** Reading a record ([quota/record.rs]) *)

Definition RECORD_SIZE : nat := 136.
Inductive Kind := User | Group | Project.
Definition quota_kind_name (kind : Kind) : string := match kind with User => "user" | Group => "group" | Project => "project" end.
Definition record_type (kind : Kind) : Z := match kind with User => 1 | Group => 4 | Project => 2 end.
Definition accounting (kind : Kind) : Z := match kind with User => 0x1 | Group => 0x40 | Project => 0x8 end.
Definition checked (kind : Kind) (v5 : bool) : Z :=
  match kind with
  | User => 0x4
  | Group => if v5 then 0x100 else 0x20
  | Project => if v5 then 0x400 else 0x20
  end.
Definition quota_inode (kind : Kind) (sb : Superblock) : Z :=
  match kind with
  | User => sb_uquotino sb
  | Group => if negb (is_v5 sb) && negb (Z.land (sb_qflags sb) 0x8 =? 0) then umax 64 else sb_gquotino sb
  | Project =>
      if is_v5 sb then sb_pquotino sb
      else if negb (Z.land (sb_qflags sb) 0x8 =? 0) then sb_gquotino sb else umax 64
  end.

Record Resource := mkResource { r_count : Z; r_soft_limit : Z; r_hard_limit : Z; r_timer : Z }.
Record QuotaRecord := mkQuotaRecord { q_id : Z; q_kind : Kind; q_blocks : Resource; q_inodes : Resource; q_realtime : Resource; q_bigtime : bool }.

Section parse.
Context `{Crc : Crc32c}.

Definition bad_record (kind : Kind) (id : Z) (reason : string) : Error := bad ("{} quota record {}: " ++ reason) [AS (quota_kind_name kind); AZ id].

(** A resource whose four fields are at these offsets. *)
Definition resource_at (bytes : bytes) (hard soft count timer : nat) : res Resource :=
  h ← be64 bytes hard;
  s ← be64 bytes soft;
  c ← be64 bytes count;
  t ← be32 bytes timer;
  Ok (mkResource c s h t).

Definition check_resource (kind : Kind) (id : Z) (name : string) (r : Resource) : res unit :=
  fail_if (negb (r_hard_limit r =? 0) && (r_hard_limit r <? r_soft_limit r)) (bad_record kind id (name ++ " soft limit exceeds hard limit"));;
  fail_if (negb (id =? 0) && negb (r_soft_limit r =? 0) && (r_soft_limit r <? r_count r) && (r_timer r =? 0))
    (bad_record kind id (name ++ " exceeds soft limit without a grace timer")).

Definition Record_parse (buf : bytes) (kind : Kind) (id : Z) (metadata_uuid : option bytes) (bigtime : bool) : res QuotaRecord :=
  fail_if (length buf <? RECORD_SIZE)%nat (bad_record kind id "truncated record");;
  let buf := take RECORD_SIZE buf in
  (match metadata_uuid with
   | Some uuid =>
       stored ← le32 buf 108;
       computed ← crc32c_with_zeroed_crc buf 108;
       fail_if (negb (stored =? computed)) (bad_record kind id "checksum mismatch");;
       u ← get_slice 120 16 buf;
       fail_if (negb (bool_decide (u = uuid))) (bad_record kind id "metadata UUID mismatch")
   | None => Ok tt
   end : res unit);;
  magic ← be16 buf 0;
  fail_if (negb (magic =? 0x4451)) (bad_record kind id "bad magic");;
  version ← Endian.byte_at buf 2;
  fail_if (negb (version =? 1)) (bad_record kind id "bad version");;
  type ← Endian.byte_at buf 3;
  fail_if (negb (Z.land type (unot 8 0x80) =? record_type kind)) (bad_record kind id "wrong quota type");;
  stored_id ← be32 buf 4;
  fail_if (negb (stored_id =? id)) (bad_record kind id "ID does not match its logical block and slot");;
  let has_bigtime := negb (Z.land type 0x80 =? 0) in
  fail_if (has_bigtime && (bool_decide (metadata_uuid = None) || negb bigtime || (id =? 0))) (bad_record kind id "invalid bigtime flag");;
  blocks ← resource_at buf 8 16 40 60;
  inodes ← resource_at buf 24 32 48 56;
  realtime ← resource_at buf 72 80 88 96;
  check_resource kind id "blocks" blocks;;
  check_resource kind id "inodes" inodes;;
  check_resource kind id "realtime blocks" realtime;;
  Ok (mkQuotaRecord id kind blocks inodes realtime has_bigtime).

(** ** Adjusting a record *)

Definition usage_after (current delta : Z) (what : string) : res Z :=
  let next := current + delta in
  ok_or (if (0 <=? next) && (next <? 2 ^ 64) then Some next else None)
    (UnsupportedFeature (fmt ("quota " ++ what ++ " usage {} cannot be adjusted by {}") [AZ current; AZ delta])).

(** The record as it stands, or one begun in an empty slot. *)
Definition begin_record (record : bytes) (kind id : Z) : res bytes :=
  if forallb (fun b => b2z b =? 0) record then
    record ← copy_at 0 (to_be_bytes 2 DQ_MAGIC) record;
    record ← copy_at 2 (to_be_bytes 1 DQ_VERSION) record;
    record ← copy_at 3 (to_be_bytes 1 kind) record;
    copy_at 4 (to_be_bytes 4 id) record
  else
    let malformed := UnsupportedFeature (fmt "quota record for {} id {} is absent or malformed" [AZ kind; AZ id]) in
    magic ← be16 record 0;
    version ← Endian.byte_at record 2;
    type ← Endian.byte_at record 3;
    stored_id ← be32 record 4;
    fail_if (negb (magic =? DQ_MAGIC) || negb (version =? DQ_VERSION) || negb (Z.land type 0x07 =? kind) || negb (stored_id =? id)) malformed;;
    stored ← le32 record DQ_CRC;
    computed ← crc32c_with_zeroed_crc record DQ_CRC;
    fail_if (negb (stored =? computed)) (UnsupportedFeature (fmt "quota record for {} id {} has a bad CRC" [AZ kind; AZ id]));;
    Ok record.

Definition finish_record (record : bytes) (kind id blocks_fs inodes : Z) (enforce : bool) : res bytes :=
  old_blocks ← be64 record DQ_BCOUNT;
  old_inodes ← be64 record DQ_ICOUNT;
  next_blocks ← usage_after old_blocks blocks_fs "block";
  next_inodes ← usage_after old_inodes inodes "inode";
  block_limit ← be64 record DQ_BHARD;
  inode_limit ← be64 record DQ_IHARD;
  fail_if (enforce && negb (block_limit =? 0) && (block_limit <? next_blocks))
    (UnsupportedFeature (fmt "quota {} id {} block hard limit {} would be exceeded by {}" [AZ kind; AZ id; AZ block_limit; AZ next_blocks]));;
  fail_if (enforce && negb (inode_limit =? 0) && (inode_limit <? next_inodes))
    (UnsupportedFeature (fmt "quota {} id {} inode hard limit {} would be exceeded by {}" [AZ kind; AZ id; AZ inode_limit; AZ next_inodes]));;
  record ← copy_at DQ_BCOUNT (to_be_bytes 8 next_blocks) record;
  record ← copy_at DQ_ICOUNT (to_be_bytes 8 next_inodes) record;
  crc ← crc32c_with_zeroed_crc record DQ_CRC;
  copy_at DQ_CRC (to_le_bytes 4 crc) record.

(** The record is changed in place: what it then holds, and the result. *)
Definition adjust_record (record : bytes) (kind id blocks_fs inodes : Z) (enforce : bool) : bytes * res unit :=
  if negb (length record =? DQBLK_SIZE)%nat then
    (record, Err (UnsupportedFeature (fmt "XFS dquot record is {} bytes; expected {}" [AZ (Z.of_nat (length record)); AZ (Z.of_nat DQBLK_SIZE)])))
  else
    match begin_record record kind id with
    | Ok begun =>
        match finish_record begun kind id blocks_fs inodes enforce with
        | Ok record => (record, Ok tt)
        | Err e => (begun, Err e)
        | Panic => (begun, Panic)
        end
    | Err e => (record, Err e)
    | Panic => (record, Panic)
    end.
End parse.

(** ** Changes added up *)

Record QuotaChange := mkQuotaChange { qc_uid : Z; qc_gid : Z; qc_project_id : Z; qc_blocks_fs : Z; qc_inodes : Z }.

Definition PROJID_LO : nat := 20.
Definition PROJID_HI : nat := 22.
Definition project_id (raw : bytes) : res Z :=
  hi ← be16 raw PROJID_HI;
  lo ← be16 raw PROJID_LO;
  Ok (Z.lor (wshl 32 hi 16) lo).

(** [i64::checked_add] *)
Definition checked_add_i64 (a b : Z) : option Z := let s := a + b in if (- 2 ^ 63 <=? s) && (s <? 2 ^ 63) then Some s else None.

(** The key of a dquot's changes, in its order. *)
Definition QuotaKey : Type := Z * Z * Z * bool.
Definition key_ltb (a b : QuotaKey) : bool :=
  let '(q, i, k, e) := a in
  let '(q', i', k', e') := b in
  (q <? q') || ((q =? q') && ((i <? i') || ((i =? i') && ((k <? k') || ((k =? k') && (negb e && e')))))).
Definition Deltas : Type := list (QuotaKey * (Z * Z)).

Definition add_delta (delta : Z * Z) (change : QuotaChange) : res (Z * Z) :=
  blocks ← ok_or (checked_add_i64 delta.1 (qc_blocks_fs change)) (UnsupportedFeature (fmt "quota block delta overflowed" []));
  inodes ← ok_or (checked_add_i64 delta.2 (qc_inodes change)) (UnsupportedFeature (fmt "quota inode delta overflowed" []));
  Ok (blocks, inodes).

(** [deltas.entry(key).or_default()], added to. *)
Fixpoint add_change (key : QuotaKey) (change : QuotaChange) (deltas : Deltas) : res Deltas :=
  match deltas with
  | [] => d ← add_delta (0, 0) change; Ok [(key, d)]
  | (k, d) :: rest =>
      if bool_decide (k = key) then d ← add_delta d change; Ok ((key, d) :: rest)
      else if key_ltb key k then d' ← add_delta (0, 0) change; Ok ((key, d') :: (k, d) :: rest)
      else rest ← add_change key change rest; Ok ((k, d) :: rest)
  end.

Section accounting.
Context (sb : Superblock).
Definition UACCT : Z := 0x1.
Definition UENFD : Z := 0x2.
Definition PACCT : Z := 0x8.
Definition PENFD : Z := 0x200.
Definition GACCT : Z := 0x40.
Definition GENFD : Z := 0x80.

(** The dquots a change counts in. *)
Definition owners (change : QuotaChange) : list (Z * Z * Z * Z * Z) :=
  [(UACCT, UENFD, sb_uquotino sb, qc_uid change, DQ_USER);
   (GACCT, GENFD, sb_gquotino sb, qc_gid change, DQ_GROUP);
   (PACCT, PENFD, sb_pquotino sb, qc_project_id change, DQ_PROJECT)].

Fixpoint add_owners (change : QuotaChange) (os : list (Z * Z * Z * Z * Z)) (deltas : Deltas) : res Deltas :=
  match os with
  | [] => Ok deltas
  | (acct, enfd, qino, id, kind) :: os =>
      if Z.land (sb_qflags sb) acct =? 0 then add_owners change os deltas
      else
        fail_if (qino =? 0) (bad "quota accounting flag {} is set without a quota inode" [AZ acct]);;
        let enforce := negb (Z.land (sb_qflags sb) enfd =? 0) && negb (id =? 0) in
        deltas ← add_change (qino, id, kind, enforce) change deltas;
        add_owners change os deltas
  end.

Fixpoint collect_deltas (changes : list QuotaChange) (deltas : Deltas) : res Deltas :=
  match changes with
  | [] => Ok deltas
  | change :: changes =>
      if (qc_blocks_fs change =? 0) && (qc_inodes change =? 0) then collect_deltas changes deltas
      else deltas ← add_owners change (owners change) deltas; collect_deltas changes deltas
  end.
End accounting.

(** ** The items *)

Record QuotaLogItem := mkQuotaLogItem { ql_blkno : Z; ql_offset : Z; ql_id : Z; ql_record : bytes }.

Definition record_address (blocksize id : Z) : res (Z * nat) :=
  let per_block := blocksize / Z.of_nat DQBLK_SIZE in
  fail_if (per_block =? 0) (UnsupportedFeature (fmt "filesystem block is too small for an XFS dquot" []));;
  Ok (id / per_block, (Z.to_nat (id mod per_block) * DQBLK_SIZE)%nat).

Section items.
Context `{Crc : Crc32c} (sb : Superblock) (read : Z -> nat -> res bytes).

Definition ag_offset (ag : Z) : Z := wmul 64 (wmul 64 ag (sb_agblocks sb)) (sb_blocksize sb).
Definition inode_offset (ino : Z) : res Z :=
  let '(ag, ag_block, offset) := split_ino sb ino in
  fail_if (sb_agcount sb <=? ag) (bad "inode {} names allocation group {}, but there are only {}" [AZ ino; AZ ag; AZ (sb_agcount sb)]);;
  Ok (wadd 64 (wadd 64 (ag_offset ag) (wmul 64 ag_block (sb_blocksize sb))) (wmul 64 offset (sb_inodesize sb))).
Definition read_inode_raw (ino : Z) : res (Inode * bytes) :=
  pos ← inode_offset ino;
  buf ← read pos (Z.to_nat (sb_inodesize sb));
  inode ← Inode_parse buf sb ino;
  Ok (inode, buf).

Definition update_dquot (qino id kind blocks_fs inodes : Z) (enforce : bool) : res QuotaLogItem :=
  '(qfile, qraw) ← read_inode_raw qino;
  '(logical, within) ← record_address (sb_blocksize sb) id;
  extents ← data_extents sb read qfile qraw;
  extent ← ok_or (Extent.lookup extents logical) (UnsupportedFeature (fmt "quota record {} is not allocated in quota inode {}" [AZ id; AZ qino]));
  fsblock ← ok_or (Extent.map extent logical) (Internal (fmt "quota extent lookup lost its mapping" []));
  block ← read_fsblock sb read fsblock;
  old ← get_slice within DQBLK_SIZE block;
  let '(record, result) := adjust_record old kind id blocks_fs inodes enforce in
  result;;
  blkno ← ok_or (checked_mul 64 fsblock (sb_blocksize sb / 512)) (UnsupportedFeature (fmt "quota buffer address overflowed" []));
  Ok (mkQuotaLogItem blkno (wrap 32 (Z.of_nat within)) id record).

Definition accounting_items (changes : list QuotaChange) : res (list QuotaLogItem) :=
  deltas ← collect_deltas sb changes [];
  res_map (fun p : QuotaKey * (Z * Z) => let '((qino, id, kind, enforce), (blocks_fs, inodes)) := p in update_dquot qino id kind blocks_fs inodes enforce) deltas.
End items.

Section log.
Context `{host : Host}.
Definition op_count (item : QuotaLogItem) : nat := 2.
Definition ops (item : QuotaLogItem) : res (list Op) :=
  format ← copy_at 0 (to_ne_bytes 2 XFS_LI_DQUOT) (replicate 24 x00);
  format ← copy_at 2 (to_ne_bytes 2 2) format;
  format ← copy_at 4 (to_ne_bytes 4 (ql_id item)) format;
  format ← copy_at 8 (to_ne_bytes 8 (ql_blkno item)) format;
  format ← copy_at 16 (to_ne_bytes 4 1) format;
  format ← copy_at 20 (to_ne_bytes 4 (ql_offset item)) format;
  Ok [mkOp 0 format; mkOp 0 (ql_record item)].
End log.

Section overlay.
Context {D : Type} {dev : BlockDevice D} (d : D) (sb : Superblock).
Definition apply_overlay (item : QuotaLogItem) (into : Overlay) : res Overlay :=
  let pos := wmul 64 (ql_blkno item) 512 in
  block ← read_at d into pos (replicate (Z.to_nat (sb_blocksize sb)) x00);
  block ← copy_at (Z.to_nat (ql_offset item)) (ql_record item) block;
  wrote d into pos block.
End overlay.

(** ** A record adjusted *)

Definition empty_record (record : bytes) : Prop := record = replicate DQBLK_SIZE x00.
Definition record_header (kind id : Z) : bytes := to_be_bytes 2 DQ_MAGIC ++ to_be_bytes 1 DQ_VERSION ++ to_be_bytes 1 kind ++ to_be_bytes 4 id.

Section adjust.
Context `{Crc : Crc32c} {Laws : Crc32cLaws}.

(** A record in use, of this kind and number. *)
Definition record_of (record : bytes) (kind id : Z) : Prop :=
  rd 2 0 record = DQ_MAGIC /\ rd 1 2 record = DQ_VERSION /\ Z.land (rd 1 3 record) 7 = kind /\ rd 4 4 record = id /\ rd_le 4 DQ_CRC record = zeroed_crc record DQ_CRC.

(** The usage fits: in 64 bits, and under the limits where they are enforced. *)
Definition usage_fits (record : bytes) (blocks_fs inodes : Z) (enforce : bool) : Prop :=
  in_u 64 (rd 8 DQ_BCOUNT record + blocks_fs) /\ in_u 64 (rd 8 DQ_ICOUNT record + inodes) /\
  (enforce = true -> (rd 8 DQ_BHARD record = 0 \/ rd 8 DQ_BCOUNT record + blocks_fs <= rd 8 DQ_BHARD record) /\
                     (rd 8 DQ_IHARD record = 0 \/ rd 8 DQ_ICOUNT record + inodes <= rd 8 DQ_IHARD record)).

(** The record with the new counts and its checksum. *)
Definition with_counts (record : bytes) (blocks inodes : Z) : bytes :=
  stamped_at DQ_CRC (splice DQ_ICOUNT (to_be_bytes 8 inodes) (splice DQ_BCOUNT (to_be_bytes 8 blocks) record)).

Lemma all_zero (l : bytes) : forallb (fun b => b2z b =? 0) l = true <-> l = replicate (length l) x00.
Proof.
  induction l as [|x l IH]; cbn [forallb length replicate]; [done|]. rewrite andb_true_iff, IH, Z.eqb_eq. split.
  - intros [Hx Hl]. rewrite <- Hl. f_equal. rewrite <- (z2b_b2z x), Hx. done.
  - intros [= -> Hl]. split; [done|]. by rewrite <- Hl.
Qed.

Lemma begin_record_spec record kind id : length record = DQBLK_SIZE -> begin_record record kind id <> Panic /\
  forall b, begin_record record kind id = Ok b <->
    (empty_record record /\ b = splice 0 (record_header kind id) record) \/ (~ empty_record record /\ record_of record kind id /\ b = record).
Proof.
  intros Hl. unfold begin_record, empty_record, DQBLK_SIZE in *. pose proof (all_zero record) as Hz. rewrite Hl in Hz. destruct (forallb _ record).
  - pose proof (proj1 Hz eq_refl) as Hrec. rewrite copy_at_Ok by (rewrite length_to_be_bytes; lia). cbn [mbind res_bind]. rewrite (copy_at_after 0) by (rewrite ?length_to_be_bytes; lia). cbn [mbind res_bind].
    rewrite (copy_at_after 0) by (rewrite ?length_app, ?length_to_be_bytes; lia). cbn [mbind res_bind]. rewrite (copy_at_after 0) by (rewrite ?length_app, ?length_to_be_bytes; lia). rewrite <- !app_assoc. fold (record_header kind id).
    split; [done|]. intros b. split; [intros <-%Ok_inj; by left|]. intros [[_ ->]|[H _]]; [done|by destruct H].
  - assert (Hne : record <> replicate 136 x00) by (intros E; by apply Hz in E). rewrite be16_Ok, !byte_at_Ok, be32_Ok, le32_Ok by (unfold DQ_CRC; lia). cbn [mbind res_bind]. unfold record_of.
    destruct (Z.eqb_spec (rd 2 0 record) DQ_MAGIC) as [H1|H1]; cbn [negb orb]; [|split; [done|]; intros b; split; [done|]; naive_solver].
    destruct (Z.eqb_spec (rd 1 2 record) DQ_VERSION) as [H2|H2]; cbn [negb orb]; [|split; [done|]; intros b; split; [done|]; naive_solver].
    destruct (Z.eqb_spec (Z.land (rd 1 3 record) 7) kind) as [H3|H3]; cbn [negb orb]; [|split; [done|]; intros b; split; [done|]; naive_solver].
    destruct (Z.eqb_spec (rd 4 4 record) id) as [H4|H4]; cbn [negb fail_if mbind res_bind]; [|split; [done|]; intros b; split; [done|]; naive_solver].
    rewrite crc32c_with_zeroed_crc_Ok by (unfold DQ_CRC; lia). cbn [mbind res_bind].
    destruct (Z.eqb_spec (rd_le 4 DQ_CRC record) (zeroed_crc record DQ_CRC)) as [H5|H5]; cbn [negb fail_if mbind res_bind]; [|split; [done|]; intros b; split; [done|]; naive_solver].
    split; [done|]. intros b. split; [intros <-%Ok_inj; right; done|]. intros [[? _]|(_ & _ & ->)]; done.
Qed.

Lemma usage_after_spec current delta what : usage_after current delta what <> Panic /\ forall n, usage_after current delta what = Ok n <-> in_u 64 (current + delta) /\ n = current + delta.
Proof.
  unfold usage_after, in_u. destruct (Z.leb_spec 0 (current + delta)), (Z.ltb_spec (current + delta) (2 ^ 64)); cbn [andb ok_or]; (split; [done|]); intros n; (split; [intros Hn; try discriminate Hn; injection Hn as <-|intros [? ->]]); try done; lia.
Qed.

Lemma limit_check (enforce : bool) limit next : (enforce && negb (limit =? 0) && (limit <? next)) = false <-> (enforce = true -> limit = 0 \/ next <= limit).
Proof. destruct enforce; cbn [andb]; [|naive_solver]. rewrite andb_false_iff, negb_false_iff, Z.eqb_eq, Z.ltb_ge. naive_solver. Qed.

Lemma finish_record_spec record kind id blocks_fs inodes enforce : length record = DQBLK_SIZE -> finish_record record kind id blocks_fs inodes enforce <> Panic /\
  forall r, finish_record record kind id blocks_fs inodes enforce = Ok r <->
    usage_fits record blocks_fs inodes enforce /\ r = with_counts record (rd 8 DQ_BCOUNT record + blocks_fs) (rd 8 DQ_ICOUNT record + inodes).
Proof.
  intros Hl. unfold DQBLK_SIZE in Hl. unfold finish_record, usage_fits. rewrite !be64_Ok by (unfold DQ_BCOUNT, DQ_ICOUNT, DQ_BHARD, DQ_IHARD; lia). cbn [mbind res_bind].
  destruct (usage_after_spec (rd 8 DQ_BCOUNT record) blocks_fs "block") as [Hbp Hb]. destruct (usage_after _ _ "block") as [nb|e|]; cbn [mbind res_bind]; [|split; [done|]; intros r; split; [done|]; intros [[H _] _]; specialize (Hb (rd 8 DQ_BCOUNT record + blocks_fs)); naive_solver|done].
  destruct (usage_after_spec (rd 8 DQ_ICOUNT record) inodes "inode") as [Hip Hi]. destruct (usage_after _ _ "inode") as [ni|e|]; cbn [mbind res_bind]; [|split; [done|]; intros r; split; [done|]; intros [(_ & H & _) _]; specialize (Hi (rd 8 DQ_ICOUNT record + inodes)); naive_solver|done].
  destruct (proj1 (Hb nb) eq_refl) as [Hbr ->]. destruct (proj1 (Hi ni) eq_refl) as [Hir ->].
  pose proof (limit_check enforce (rd 8 DQ_BHARD record) (rd 8 DQ_BCOUNT record + blocks_fs)) as L1. destruct (enforce && _ && _); cbn [fail_if mbind res_bind].
  { split; [done|]. intros r. split; [done|]. intros [(_ & _ & H) _]. assert (true = false); [|done]. apply L1. naive_solver. }
  pose proof (limit_check enforce (rd 8 DQ_IHARD record) (rd 8 DQ_ICOUNT record + inodes)) as L2. destruct (enforce && _ && _); cbn [fail_if mbind res_bind].
  { split; [done|]. intros r. split; [done|]. intros [(_ & _ & H) _]. assert (true = false); [|done]. apply L2. naive_solver. }
  rewrite copy_at_Ok by (rewrite length_to_be_bytes; unfold DQ_BCOUNT; lia). cbn [mbind res_bind]. set (r1 := splice DQ_BCOUNT _ record). assert (Hl1 : length r1 = 136%nat) by (unfold r1; rewrite length_splice; rewrite ?length_to_be_bytes; unfold DQ_BCOUNT; lia).
  rewrite copy_at_Ok by (rewrite length_to_be_bytes; unfold DQ_ICOUNT; lia). cbn [mbind res_bind]. set (r2 := splice DQ_ICOUNT _ r1). assert (Hl2 : length r2 = 136%nat) by (unfold r2; rewrite length_splice; rewrite ?length_to_be_bytes; unfold DQ_ICOUNT; lia).
  rewrite crc32c_with_zeroed_crc_Ok by (unfold DQ_CRC; lia). cbn [mbind res_bind]. rewrite copy_at_Ok by (rewrite length_to_le_bytes; unfold DQ_CRC; lia). split; [done|]. intros r.
  split; [intros <-%Ok_inj|intros [_ ->]; done]. split; [|done]. split; [done|]. split; [done|]. naive_solver.
Qed.

(** C32: A record is adjusted exactly when it is empty or the record of that dquot
    with its checksum, the new counts fit their width, and enforced limits are
    kept.  Then only the counts and the checksum change, and an empty record gets
    its header; when it is refused nothing changes but the header of an empty one.
    It never panics. *)
Theorem adjust_record_exact record kind id blocks_fs inodes enforce : length record = DQBLK_SIZE ->
  let base := if bool_decide (empty_record record) then splice 0 (record_header kind id) record else record in
  match adjust_record record kind id blocks_fs inodes enforce with
  | (after, Ok _) => (empty_record record \/ record_of record kind id) /\ usage_fits base blocks_fs inodes enforce /\
      after = with_counts base (rd 8 DQ_BCOUNT base + blocks_fs) (rd 8 DQ_ICOUNT base + inodes)
  | (after, Err _) => (after = record \/ (empty_record record /\ after = base)) /\ ((empty_record record \/ record_of record kind id) -> ~ usage_fits base blocks_fs inodes enforce)
  | (_, Panic) => False
  end.
Proof.
  intros Hl base. unfold adjust_record. rewrite Hl, Nat.eqb_refl. cbn [negb]. destruct (begin_record_spec record kind id Hl) as [Hbp Hb].
  assert (Hbase : forall b, begin_record record kind id = Ok b -> b = base /\ (empty_record record \/ record_of record kind id)).
  { intros b [[He ->]|(He & Hr & ->)]%Hb; unfold base; [rewrite bool_decide_eq_true_2 by done|rewrite bool_decide_eq_false_2 by done]; tauto. }
  assert (Hlb : length base = DQBLK_SIZE).
  { unfold base. case_bool_decide; [|done]. rewrite length_splice; [done|]. unfold record_header, DQBLK_SIZE in *. rewrite !length_app, !length_to_be_bytes. lia. }
  destruct (begin_record record kind id) as [b|e|] eqn:Eb; [|split; [by left|]|done].
  - destruct (Hbase b eq_refl) as [-> Hok]. destruct (finish_record_spec base kind id blocks_fs inodes enforce Hlb) as [Hfp Hf].
    destruct (finish_record base kind id blocks_fs inodes enforce) as [r|e|] eqn:Ef; [|split|done].
    + split; [done|]. by apply Hf.
    + destruct (proj1 (Hb base) eq_refl) as [[He _]|(_ & _ & E)]; [right|left]; done.
    + intros _ Hfits. assert (E : Err e = Ok (with_counts base (rd 8 DQ_BCOUNT base + blocks_fs) (rd 8 DQ_ICOUNT base + inodes))) by (by apply Hf). done.
  - intros Hok _. destruct (decide (empty_record record)) as [He|He]; [by discriminate (proj2 (Hb _) (or_introl (conj He eq_refl)))|].
    destruct Hok as [?|Hr]; [done|]. by discriminate (proj2 (Hb _) (or_intror (conj He (conj Hr eq_refl)))).
Qed.
End adjust.

(** ** What the reader makes of it *)

Section read_back.
Context `{Crc : Crc32c} {Laws : Crc32cLaws}.

Definition resource_of (b : bytes) (hard soft count timer : nat) : Resource := mkResource (rd 8 count b) (rd 8 soft b) (rd 8 hard b) (rd 4 timer b).
(** The three checks on a record's resources. *)
Definition check_resources (kind : Kind) (id : Z) (blocks inodes realtime : Resource) : res unit :=
  check_resource kind id "blocks" blocks;;
  check_resource kind id "inodes" inodes;;
  check_resource kind id "realtime blocks" realtime.

Lemma resource_at_Ok b hard soft count timer : (hard + 8 <= length b)%nat -> (soft + 8 <= length b)%nat -> (count + 8 <= length b)%nat -> (timer + 4 <= length b)%nat ->
  resource_at b hard soft count timer = Ok (resource_of b hard soft count timer).
Proof. intros. unfold resource_at. by rewrite !be64_Ok, be32_Ok by lia. Qed.

(** A record that parses, on a v5 volume. *)
Lemma Record_parse_Ok b kind id uuid bigtime rec : length b = RECORD_SIZE -> Record_parse b kind id (Some uuid) bigtime = Ok rec <->
  rd_le 4 108 b = zeroed_crc b 108 /\ slice 120 16 b = uuid /\ rd 2 0 b = 0x4451 /\ rd 1 2 b = 1 /\ Z.land (rd 1 3 b) 0x7F = record_type kind /\ rd 4 4 b = id /\
  (Z.land (rd 1 3 b) 0x80 <> 0 -> bigtime = true /\ id <> 0) /\
  check_resources kind id (resource_of b 8 16 40 60) (resource_of b 24 32 48 56) (resource_of b 72 80 88 96) = Ok tt /\
  rec = mkQuotaRecord id kind (resource_of b 8 16 40 60) (resource_of b 24 32 48 56) (resource_of b 72 80 88 96) (negb (Z.land (rd 1 3 b) 0x80 =? 0)).
Proof.
  intros Hl. unfold Record_parse. rewrite Hl, Nat.ltb_irrefl. cbn [fail_if mbind res_bind]. rewrite take_ge by lia. unfold RECORD_SIZE in Hl. rewrite le32_Ok, crc32c_with_zeroed_crc_Ok by lia. cbn [mbind res_bind].
  rewrite be16_Ok, !byte_at_Ok, be32_Ok, !resource_at_Ok by lia. cbn [mbind res_bind]. change (unot 8 128) with 127.
  destruct (Z.eqb_spec (rd_le 4 108 b) (zeroed_crc b 108)); cbn [negb fail_if mbind res_bind]; [|split; [done|tauto]].
  rewrite get_slice_Ok by lia. cbn [mbind res_bind]. destruct (bool_decide_reflect (slice 120 16 b = uuid)); cbn [negb fail_if mbind res_bind]; [|split; [done|tauto]].
  destruct (Z.eqb_spec (rd 2 0 b) 0x4451); cbn [negb fail_if mbind res_bind]; [|split; [done|tauto]].
  destruct (Z.eqb_spec (rd 1 2 b) 1); cbn [negb fail_if mbind res_bind]; [|split; [done|tauto]].
  destruct (Z.eqb_spec (Z.land (rd 1 3 b) 127) (record_type kind)); cbn [negb fail_if mbind res_bind]; [|split; [done|tauto]].
  destruct (Z.eqb_spec (rd 4 4 b) id); cbn [negb fail_if mbind res_bind]; [|split; [done|tauto]].
  rewrite bool_decide_eq_false_2 by done. cbn [orb].
  assert (Hbt : negb (Z.land (rd 1 3 b) 128 =? 0) && (negb bigtime || (id =? 0)) = false <-> (Z.land (rd 1 3 b) 0x80 <> 0 -> bigtime = true /\ id <> 0)).
  { destruct (Z.eqb_spec (Z.land (rd 1 3 b) 128) 0); cbn [negb andb]; [naive_solver|]. rewrite orb_false_iff, negb_false_iff, Z.eqb_neq. naive_solver. }
  destruct (negb _ && _); cbn [fail_if mbind res_bind]; [split; [done|]; intros (_ & _ & _ & _ & _ & _ & H & _); by apply Hbt in H|].
  unfold check_resources. destruct (check_resource kind id "blocks" _) as [[]|er|]; cbn [mbind res_bind]; [|split; [done|]; intros (_ & _ & _ & _ & _ & _ & _ & H & _); done..].
  destruct (check_resource kind id "inodes" _) as [[]|er|]; cbn [mbind res_bind]; [|split; [done|]; intros (_ & _ & _ & _ & _ & _ & _ & H & _); done..].
  destruct (check_resource kind id "realtime blocks" _) as [[]|er|]; cbn [mbind res_bind]; [|split; [done|]; intros (_ & _ & _ & _ & _ & _ & _ & H & _); done..].
  split; [intros <-%Ok_inj; repeat (split; [done|]); split; [by apply Hbt|done]|]. by intros (_ & _ & _ & _ & _ & _ & _ & _ & ->).
Qed.

Section counted.
Context (record : bytes) (nb ni : Z) (Hl : length record = DQBLK_SIZE) (Hnb : in_u 64 nb) (Hni : in_u 64 ni).
Let after := with_counts record nb ni.

Lemma with_counts_length : length after = DQBLK_SIZE.
Proof using Hl. unfold DQBLK_SIZE, after, with_counts, DQ_CRC, DQ_ICOUNT, DQ_BCOUNT in *. rewrite length_stamped_at; rewrite !length_splice; rewrite ?length_splice; rewrite ?length_to_be_bytes; lia. Qed.

Lemma with_counts_frame off m : (off + m <= 40 \/ (56 <= off /\ off + m <= 108) \/ 112 <= off)%nat -> slice off m after = slice off m record.
Proof using Hl.
  intros Ho. unfold DQBLK_SIZE, after, with_counts, DQ_CRC, DQ_ICOUNT, DQ_BCOUNT in *. rewrite stamped_at_frame by (rewrite ?length_splice; rewrite ?length_splice; rewrite ?length_to_be_bytes; lia).
  rewrite slice_splice_disjoint by (rewrite ?length_splice; rewrite ?length_to_be_bytes; lia). by rewrite slice_splice_disjoint by (rewrite ?length_to_be_bytes; lia).
Qed.

Lemma with_counts_reads : rd 8 40 after = nb /\ rd 8 48 after = ni /\ rd_le 4 108 after = zeroed_crc after 108.
Proof using Hl Hnb Hni Laws.
  assert (Hlb : length (splice 40 (to_be_bytes 8 nb) record) = 136%nat) by (unfold DQBLK_SIZE in Hl; rewrite length_splice; rewrite ?length_to_be_bytes; lia).
  assert (Hli : length (splice 48 (to_be_bytes 8 ni) (splice 40 (to_be_bytes 8 nb) record)) = 136%nat) by (rewrite length_splice; rewrite ?length_to_be_bytes; lia).
  unfold DQBLK_SIZE in Hl. unfold after, with_counts, DQ_CRC, DQ_ICOUNT, DQ_BCOUNT. unfold in_u in *. split; [|split; [|by apply stamped_at_sum; lia]].
  - apply rd_of_slice; [|done]. rewrite stamped_at_frame by lia. rewrite slice_splice_disjoint by (rewrite ?length_to_be_bytes; lia). apply slice_splice_same; rewrite length_to_be_bytes; lia.
  - apply rd_of_slice; [|done]. rewrite stamped_at_frame by lia. apply slice_splice_same; rewrite length_to_be_bytes; lia.
Qed.
End counted.

(** The resource with another count. *)
Definition with_count (r : Resource) (count : Z) : Resource := mkResource count (r_soft_limit r) (r_hard_limit r) (r_timer r).

Lemma land_types t k : Z.land t 0x7F = record_type k -> Z.land t 7 = record_type k.
Proof. intros H. change 7 with (Z.land 127 7). rewrite Z.land_assoc, H. by destruct k. Qed.

Lemma record_not_empty record kind id uuid bigtime rec : length record = DQBLK_SIZE -> Record_parse record kind id (Some uuid) bigtime = Ok rec ->
  ~ empty_record record /\ record_of record (record_type kind) id.
Proof.
  intros Hl Hp. apply Record_parse_Ok in Hp as (Hc & _ & Hm & Hv & Ht & Hi & _); [|done]. split; [|split_and!; try done; by apply land_types].
  unfold empty_record. intros ->. done.
Qed.

(** C34: A record of a v5 volume that the reader accepts, once adjusted, is read as
    the same record with the new counts, provided its limits still stand: a count
    now past a soft limit whose grace timer does not run is refused.  A record
    begun in an empty slot carries no UUID, and the reader refuses it. *)
Theorem adjusted_record_read record kind id uuid bigtime blocks_fs inodes enforce after : length record = DQBLK_SIZE ->
  adjust_record record (record_type kind) id blocks_fs inodes enforce = (after, Ok tt) ->
  (forall rec, Record_parse record kind id (Some uuid) bigtime = Ok rec ->
    let blocks := with_count (q_blocks rec) (r_count (q_blocks rec) + blocks_fs) in
    let inodes := with_count (q_inodes rec) (r_count (q_inodes rec) + inodes) in
    forall rec', Record_parse after kind id (Some uuid) bigtime = Ok rec' <->
      check_resources kind id blocks inodes (q_realtime rec) = Ok tt /\ rec' = mkQuotaRecord id kind blocks inodes (q_realtime rec) (q_bigtime rec)) /\
  (empty_record record -> uuid <> replicate 16 x00 -> Record_parse after kind id (Some uuid) bigtime = Err (bad_record kind id "metadata UUID mismatch")).
Proof.
  intros Hl Ha. unfold adjust_record in Ha. rewrite Hl, Nat.eqb_refl in Ha. cbn [negb] in Ha. destruct (begin_record_spec record (record_type kind) id Hl) as [_ Hb].
  destruct (begin_record record (record_type kind) id) as [base|e|] eqn:Eb; [|done|done].
  destruct (finish_record base (record_type kind) id blocks_fs inodes enforce) as [r|e|] eqn:Ef; [|done|done]. injection Ha as ->. pose proof (proj1 (Hb base) eq_refl) as Hbase. split.
  - intros rec Hp blocks ino rec'. destruct (record_not_empty _ _ _ _ _ _ Hl Hp) as [Hne _]. destruct Hbase as [[? _]|(_ & _ & ->)]; [done|].
    destruct (finish_record_spec record (record_type kind) id blocks_fs inodes enforce Hl) as [_ Hf]. apply Hf in Ef as ((Hnb & Hni & _) & ->).
    pose proof (with_counts_length record (rd 8 DQ_BCOUNT record + blocks_fs) (rd 8 DQ_ICOUNT record + inodes) Hl) as Hla.
    pose proof (with_counts_frame record (rd 8 DQ_BCOUNT record + blocks_fs) (rd 8 DQ_ICOUNT record + inodes) Hl) as Hfr.
    pose proof (with_counts_reads record _ _ Hl Hnb Hni) as (Hrb & Hri & Hcrc). set (after := with_counts record _ _) in *.
    rewrite Record_parse_Ok by done. apply Record_parse_Ok in Hp as (Hc & Hu & Hm & Hv & Ht & Hi & Hbt & Hck & ->); [|done]. cbn [q_blocks q_inodes q_realtime q_bigtime] in *.
    assert (E1 : rd 2 0 after = rd 2 0 record) by (apply rd_slice, Hfr; lia). assert (E2 : rd 1 2 after = rd 1 2 record) by (apply rd_slice, Hfr; lia).
    assert (E3 : rd 1 3 after = rd 1 3 record) by (apply rd_slice, Hfr; lia). assert (E4 : rd 4 4 after = rd 4 4 record) by (apply rd_slice, Hfr; lia).
    assert (E5 : resource_of after 8 16 40 60 = blocks) by (unfold resource_of, blocks, with_count; cbn [r_count r_soft_limit r_hard_limit r_timer]; rewrite Hrb, (rd_slice 8 16 record), (rd_slice 8 8 record), (rd_slice 4 60 record) by (apply Hfr; lia); done).
    assert (E6 : resource_of after 24 32 48 56 = ino) by (unfold resource_of, ino, with_count; cbn [r_count r_soft_limit r_hard_limit r_timer]; rewrite Hri, (rd_slice 8 32 record), (rd_slice 8 24 record), (rd_slice 4 56 record) by (apply Hfr; lia); done).
    assert (E7 : resource_of after 72 80 88 96 = resource_of record 72 80 88 96) by (unfold resource_of; rewrite (rd_slice 8 88 record), (rd_slice 8 80 record), (rd_slice 8 72 record), (rd_slice 4 96 record) by (apply Hfr; lia); done).
    rewrite E1, E2, E3, E4, E5, E6, E7, (Hfr 120%nat 16%nat) by lia. tauto.
  - intros He Hu. destruct Hbase as [[_ ->]|(? & _)]; [|done]. set (base := splice 0 _ record) in *. assert (Hlh : length (record_header (record_type kind) id) = 8%nat) by (unfold record_header; by rewrite !length_app, !length_to_be_bytes).
    assert (Hlb : length base = DQBLK_SIZE) by (unfold base, DQBLK_SIZE in *; rewrite length_splice; [done|lia]).
    destruct (finish_record_spec base (record_type kind) id blocks_fs inodes enforce Hlb) as [_ Hf]. apply Hf in Ef as ((Hnb & Hni & _) & ->).
    pose proof (with_counts_length base (rd 8 DQ_BCOUNT base + blocks_fs) (rd 8 DQ_ICOUNT base + inodes) Hlb) as Hla.
    pose proof (with_counts_frame base (rd 8 DQ_BCOUNT base + blocks_fs) (rd 8 DQ_ICOUNT base + inodes) Hlb) as Hfr.
    pose proof (with_counts_reads base _ _ Hlb Hnb Hni) as (_ & _ & Hcrc). set (after := with_counts base _ _) in *.
    unfold Record_parse. rewrite Hla. unfold DQBLK_SIZE, RECORD_SIZE in *. change (136 <? 136)%nat with false. cbn [fail_if mbind res_bind]. rewrite take_ge by lia.
    rewrite le32_Ok, crc32c_with_zeroed_crc_Ok by lia. cbn [mbind res_bind]. rewrite Hcrc, Z.eqb_refl. cbn [negb fail_if mbind res_bind]. rewrite get_slice_Ok by lia. cbn [mbind res_bind].
    rewrite Hfr by lia. unfold base. rewrite slice_splice_disjoint by lia. unfold empty_record, DQBLK_SIZE in He. rewrite He. change (slice 120 16 (replicate 136 x00)) with (replicate 16 x00).
    rewrite (bool_decide_eq_false_2 (replicate 16 x00 = uuid)) by congruence. reflexivity.
Qed.
End read_back.

(** ** Changes added up exactly *)

Definition key_lt (a b : QuotaKey) : Prop := key_ltb a b = true.
Lemma key_lt_spec q i k e q' i' k' e' : key_lt (q, i, k, e) (q', i', k', e') <->
  q < q' \/ (q = q' /\ (i < i' \/ (i = i' /\ (k < k' \/ (k = k' /\ e = false /\ e' = true))))).
Proof. unfold key_lt, key_ltb. rewrite !orb_true_iff, !andb_true_iff, !orb_true_iff, !andb_true_iff, !orb_true_iff, !andb_true_iff, !Z.ltb_lt, !Z.eqb_eq, negb_true_iff. done. Qed.

Lemma key_lt_trans a b c : key_lt a b -> key_lt b c -> key_lt a c.
Proof. destruct a as [[[q i] k] e], b as [[[q' i'] k'] e'], c as [[[q2 i2] k2] e2]. rewrite !key_lt_spec. intros H1 H2. destruct e, e', e2; intuition (subst; try discriminate; try lia). Qed.
Lemma key_lt_irrefl a : ~ key_lt a a.
Proof. destruct a as [[[q i] k] e]. rewrite key_lt_spec. destruct e; intuition (try discriminate; lia). Qed.
Lemma key_lt_total a b : a <> b -> key_ltb a b = false -> key_lt b a.
Proof.
  intros Hne H. assert (Hn : ~ key_lt a b) by (unfold key_lt; congruence). destruct a as [[[q i] k] e], b as [[[q' i'] k'] e']. rewrite key_lt_spec in *.
  destruct (Z.lt_trichotomy q q') as [|[->|]]; [tauto| |tauto]. destruct (Z.lt_trichotomy i i') as [|[->|]]; [tauto| |tauto]. destruct (Z.lt_trichotomy k k') as [|[->|]]; [tauto| |tauto].
  destruct e, e'; try done; tauto.
Qed.

Definition lookup_delta (key : QuotaKey) (deltas : Deltas) : option (Z * Z) := snd <$> find (fun p => bool_decide (p.1 = key)) deltas.
Lemma lookup_delta_cons key k d deltas : lookup_delta key ((k, d) :: deltas) = if bool_decide (k = key) then Some d else lookup_delta key deltas.
Proof. unfold lookup_delta. cbn [find fst]. by case_bool_decide. Qed.
Definition deltas_sorted (deltas : Deltas) : Prop := StronglySorted (fun p p' => key_lt p.1 p'.1) deltas.

Lemma lookup_delta_below key deltas : deltas_sorted deltas -> Forall (fun p => key_lt key p.1) deltas -> lookup_delta key deltas = None.
Proof.
  intros _ Hf. induction Hf as [|[k d] l Hk Hl IH]; [done|]. rewrite lookup_delta_cons, IH. case_bool_decide as E; [|done]. cbn in Hk. subst k. by apply key_lt_irrefl in Hk.
Qed.

Definition delta_plus (d : option (Z * Z)) (change : QuotaChange) : Z * Z := ((default (0, 0) d).1 + qc_blocks_fs change, (default (0, 0) d).2 + qc_inodes change).
Lemma add_delta_Ok d change d' : add_delta d change = Ok d' -> d' = delta_plus (Some d) change.
Proof.
  unfold add_delta, checked_add_i64. intros H. apply bind_Ok in H as (b & Hb%ok_or_Ok & H). apply bind_Ok in H as (i & Hi%ok_or_Ok & [= <-]). destruct d as [x y]. cbn in *.
  destruct (_ && _) in Hb; [|done]. destruct (_ && _) in Hi; [|done]. by simplify_eq.
Qed.

Lemma add_change_spec key change deltas : forall deltas', deltas_sorted deltas -> add_change key change deltas = Ok deltas' ->
  deltas_sorted deltas' /\ lookup_delta key deltas' = Some (delta_plus (lookup_delta key deltas) change) /\
  (forall key', key' <> key -> lookup_delta key' deltas' = lookup_delta key' deltas) /\
  (forall k, Forall (fun p => key_lt k p.1) deltas -> key_lt k key -> Forall (fun p => key_lt k p.1) deltas').
Proof.
  induction deltas as [|[k d] deltas IH]; intros deltas' Hs H; cbn [add_change] in H.
  - apply bind_Ok in H as (d & Hd%add_delta_Ok & [= <-]). split; [by repeat constructor|]. rewrite !lookup_delta_cons, bool_decide_eq_true_2 by done. split; [by rewrite Hd|].
    split; [intros key' Hne; rewrite lookup_delta_cons, bool_decide_eq_false_2 by congruence; done|]. intros k' _ Hk'. by repeat constructor.
  - apply StronglySorted_inv in Hs as [Hs Hk]. rewrite !lookup_delta_cons. destruct (bool_decide_reflect (k = key)) as [->|Hne].
    + apply bind_Ok in H as (d' & Hd%add_delta_Ok & [= <-]). split; [by constructor|]. rewrite lookup_delta_cons, bool_decide_eq_true_2 by done. split; [by rewrite Hd|].
      split; [intros key' Hne; by rewrite !lookup_delta_cons, bool_decide_eq_false_2 by congruence|]. intros k' [? ?]%Forall_cons _. by constructor.
    + destruct (key_ltb key k) eqn:Elt.
      * apply bind_Ok in H as (d' & Hd%add_delta_Ok & [= <-]). assert (Hall : Forall (fun p => key_lt key p.1) deltas) by (eapply Forall_impl; [exact Hk|]; intros p Hp; by eapply key_lt_trans).
        split; [constructor; [by constructor|]; by constructor|]. rewrite lookup_delta_cons, bool_decide_eq_true_2 by done. rewrite (lookup_delta_below key deltas) by done. split; [by rewrite Hd|].
        split; [intros key' Hne'; by rewrite !lookup_delta_cons, (bool_decide_eq_false_2 (key = key')) by congruence|]. intros k' Hf Hk'. by constructor.
      * apply bind_Ok in H as (rest & Hr & [= <-]). destruct (IH rest Hs Hr) as (Hs' & Hl & Ho & Hb). assert (Hkk : key_lt k key) by (by apply key_lt_total).
        split; [constructor; [done|by apply Hb]|]. rewrite !lookup_delta_cons, bool_decide_eq_false_2 by done. split; [done|].
        split; [intros key' Hne'; rewrite !lookup_delta_cons, Ho by done; done|]. intros k' [? ?]%Forall_cons Hk'. constructor; [done|by apply Hb].
Qed.

Section sums.
Context (sb : Superblock).

(** The dquots a change counts in, by their keys. *)
Definition contribution (change : QuotaChange) (o : Z * Z * Z * Z * Z) : option (QuotaKey * QuotaChange) :=
  let '(acct, enfd, qino, id, kind) := o in
  if Z.land (sb_qflags sb) acct =? 0 then None
  else Some ((qino, id, kind, negb (Z.land (sb_qflags sb) enfd =? 0) && negb (id =? 0)), change).
Definition contributions (change : QuotaChange) : list (QuotaKey * QuotaChange) :=
  if (qc_blocks_fs change =? 0) && (qc_inodes change =? 0) then [] else omap (contribution change) (owners sb change).

(** What a list of contributions comes to for one dquot. *)
Definition total_for (key : QuotaKey) (l : list (QuotaKey * QuotaChange)) : option (Z * Z) :=
  fold_left (fun d p => if bool_decide (p.1 = key) then Some (delta_plus d p.2) else d) l None.

Definition adds_up (l : list (QuotaKey * QuotaChange)) (deltas : Deltas) : Prop := deltas_sorted deltas /\ forall key, lookup_delta key deltas = total_for key l.

Lemma add_change_adds_up l key change deltas deltas' : adds_up l deltas -> add_change key change deltas = Ok deltas' -> adds_up (l ++ [(key, change)]) deltas'.
Proof.
  intros [Hs Hl] H. destruct (add_change_spec key change deltas deltas' Hs H) as (Hs' & Hk & Ho & _). split; [done|]. intros key'. unfold total_for. rewrite fold_left_app. cbn [fold_left fst snd].
  fold (total_for key' l). case_bool_decide as E; [subst key'; by rewrite Hk, Hl|]. rewrite Ho by congruence. apply Hl.
Qed.

Lemma add_owners_adds_up change os : forall l deltas deltas', adds_up l deltas -> add_owners sb change os deltas = Ok deltas' -> adds_up (l ++ omap (contribution change) os) deltas'.
Proof.
  induction os as [|[[[[acct enfd] qino] id] kind] os IH]; intros l deltas deltas' Hu H; cbn [add_owners omap list_omap] in *; [apply Ok_inj in H as <-; by rewrite app_nil_r|].
  cbn [contribution]. destruct (_ =? 0); [by apply IH with deltas|]. apply guard_Ok in H as [_ H]. apply bind_Ok in H as (d & Hd & H). rewrite cons_middle, app_assoc. eapply IH; [|exact H]. by eapply add_change_adds_up.
Qed.

Lemma collect_adds_up changes : forall l deltas deltas', adds_up l deltas -> collect_deltas sb changes deltas = Ok deltas' -> adds_up (l ++ (changes ≫= contributions)) deltas'.
Proof.
  induction changes as [|c changes IH]; intros l deltas deltas' Hu H; cbn [collect_deltas] in H; [apply Ok_inj in H as <-; by rewrite app_nil_r|].
  rewrite bind_cons. unfold contributions at 1. destruct (_ && _); [by apply IH with deltas|]. apply bind_Ok in H as (d & Hd & H). rewrite app_assoc. eapply IH; [|exact H]. by eapply add_owners_adds_up.
Qed.

(** The changes of a transaction are added up exactly: there is one entry for
    each dquot that is changed, in their order, and it holds the sum of the
    changes of every owner counted in it; adding them up never panics. *)
Theorem changes_added_up changes :
  collect_deltas sb changes [] <> Panic /\
  forall deltas, collect_deltas sb changes [] = Ok deltas ->
    StronglySorted (fun p p' => key_lt p.1 p'.1) deltas /\ forall key, lookup_delta key deltas = total_for key (changes ≫= contributions).
Proof.
  split.
  - assert (Ha : forall key c deltas, add_change key c deltas <> Panic).
    { assert (Hd : forall d c, add_delta d c <> Panic) by (intros d c; unfold add_delta; repeat (apply bind_not_Panic; [by destruct (checked_add_i64 _ _)|intros ? _]); done).
      intros key c deltas. induction deltas as [|[k d] deltas IH]; cbn [add_change]; [by apply bind_not_Panic|]. case_bool_decide; [by apply bind_not_Panic|]. destruct (key_ltb key k); by apply bind_not_Panic. }
    assert (Ho : forall c os deltas, add_owners sb c os deltas <> Panic).
    { intros c os. induction os as [|[[[[acct enfd] qino] id] kind] os IH]; intros deltas; cbn [add_owners]; [done|]. destruct (_ =? 0); [apply IH|]. apply bind_not_Panic; [apply fail_if_not_Panic|intros _ _]. by apply bind_not_Panic. }
    generalize (@nil (QuotaKey * (Z * Z))). induction changes as [|c changes IH]; intros deltas; cbn [collect_deltas]; [done|]. destruct (_ && _); [apply IH|]. by apply bind_not_Panic.
  - intros deltas H. apply (collect_adds_up changes [] []) in H; [done|]. split; [constructor|done].
Qed.
End sums.

(** ** An item replayed *)

Section replay.
Context `{host : Host} `{Crc : Crc32c} {Laws : Crc32cLaws}.

Lemma from_to_ne n z : 0 <= z < 256 ^ Z.of_nat n -> from_ne_bytes (to_ne_bytes n z) = z.
Proof. intros Hz. unfold from_ne_bytes, to_ne_bytes. destruct host_big_endian; [by apply from_to_be_bytes_small|by apply from_to_le_bytes_small]. Qed.
Lemma length_to_ne_bytes n z : length (to_ne_bytes n z) = n.
Proof. unfold to_ne_bytes. destruct host_big_endian; by rewrite ?length_to_be_bytes, ?length_to_le_bytes. Qed.

(** The format region of an item. *)
Definition dquot_format (item : QuotaLogItem) : bytes :=
  to_ne_bytes 2 XFS_LI_DQUOT ++ to_ne_bytes 2 2 ++ to_ne_bytes 4 (ql_id item) ++ to_ne_bytes 8 (ql_blkno item) ++ to_ne_bytes 4 1 ++ to_ne_bytes 4 (ql_offset item).

Lemma ops_Ok item : ops item = Ok [mkOp 0 (dquot_format item); mkOp 0 (ql_record item)].
Proof.
  unfold ops. rewrite copy_at_Ok by (rewrite length_to_ne_bytes, length_replicate; lia). cbn [mbind res_bind].
  do 5 (rewrite (copy_at_after 0) by (rewrite ?length_app, ?length_to_ne_bytes, ?length_replicate; lia); cbn [mbind res_bind]). rewrite <- !app_assoc. fold (dquot_format item).
  rewrite splice_all_bytes; [done|]. unfold dquot_format. by rewrite !length_app, !length_to_ne_bytes, length_replicate.
Qed.

Lemma format_fields item : in_u 32 (ql_id item) -> in_u 64 (ql_blkno item) -> in_u 32 (ql_offset item) ->
  let f := dquot_format item in
  length f = 24%nat /\ native_u16 f 2 = Ok 2 /\ native_u32 f 4 = Ok (ql_id item) /\ native_u64 f 8 = Ok (ql_blkno item) /\ native_u32 f 16 = Ok 1 /\ native_u32 f 20 = Ok (ql_offset item).
Proof.
  intros Hi Hb Ho f. unfold in_u in *. assert (Hl : length f = 24%nat) by (unfold f, dquot_format; by rewrite !length_app, !length_to_ne_bytes). split; [done|].
  assert (Hr : forall n off z pre post, f = pre ++ to_ne_bytes n z ++ post -> length pre = off -> (off + n <= 24)%nat -> 0 <= z < 256 ^ Z.of_nat n -> from_ne_bytes <$> get_slice off n f = Ok z).
  { intros n off z pre post E Hp Hn Hz. rewrite get_slice_Ok by lia. cbn. f_equal. rewrite E, slice_between by (by rewrite ?length_to_ne_bytes). by apply from_to_ne. }
  unfold native_u16, native_u32, native_u64. split_and!.
  - apply (Hr 2%nat 2%nat 2 (to_ne_bytes 2 XFS_LI_DQUOT) (to_ne_bytes 4 (ql_id item) ++ to_ne_bytes 8 (ql_blkno item) ++ to_ne_bytes 4 1 ++ to_ne_bytes 4 (ql_offset item))); [done|apply length_to_ne_bytes|lia|done].
  - eapply (Hr 4%nat 4%nat _ (to_ne_bytes 2 XFS_LI_DQUOT ++ to_ne_bytes 2 2)); [unfold f, dquot_format; by rewrite <- !app_assoc|by rewrite !length_app, !length_to_ne_bytes|lia|done].
  - eapply (Hr 8%nat 8%nat _ (to_ne_bytes 2 XFS_LI_DQUOT ++ to_ne_bytes 2 2 ++ to_ne_bytes 4 (ql_id item))); [unfold f, dquot_format; by rewrite <- !app_assoc|by rewrite !length_app, !length_to_ne_bytes|lia|done].
  - eapply (Hr 4%nat 16%nat _ (to_ne_bytes 2 XFS_LI_DQUOT ++ to_ne_bytes 2 2 ++ to_ne_bytes 4 (ql_id item) ++ to_ne_bytes 8 (ql_blkno item))); [unfold f, dquot_format; by rewrite <- !app_assoc|by rewrite !length_app, !length_to_ne_bytes|lia|done].
  - eapply (Hr 4%nat 20%nat _ (to_ne_bytes 2 XFS_LI_DQUOT ++ to_ne_bytes 2 2 ++ to_ne_bytes 4 (ql_id item) ++ to_ne_bytes 8 (ql_blkno item) ++ to_ne_bytes 4 1) []); [unfold f, dquot_format; by rewrite <- !app_assoc, app_nil_r|by rewrite !length_app, !length_to_ne_bytes|lia|done].
Qed.

(** What makes an item one that recovery accepts. *)
Record item_good (sb : Superblock) (item : QuotaLogItem) : Prop := {
  ig_length : length (ql_record item) = DQBLK_SIZE;
  ig_record : exists kind, record_of (ql_record item) kind (ql_id item);
  ig_id : in_u 32 (ql_id item);
  ig_offset : 0 <= ql_offset item /\ ql_offset item + Z.of_nat DQBLK_SIZE <= sb_blocksize sb;
  ig_blkno : 0 <= ql_blkno item < 2 ^ 63 /\ ql_blkno item mod (sb_blocksize sb / 512) = 0;
}.

Section replayed.
Context (sb : Superblock) (Hty : sb_typed sb) (Hgeo : sb_geometry sb) {D : Type} {dev : BlockDevice D} (d : D).

Lemma dquot_replay item into l : item_good sb item -> ops item = Ok l -> apply_dquot sb d into (mkLogItem (op_data <$> l) (length l)) = apply_overlay d sb item into.
Proof.
  intros [Hl (kind & Hm & Hv & _ & Hrid & Hcrc) Hid [Ho Hob] [Hb Hal]] E. rewrite ops_Ok in E. apply Ok_inj in E as <-. rewrite !fmap_cons, fmap_nil. cbn [op_data]. pose proof (ty_blocksize sb Hty) as Hbs. unfold in_u, DQBLK_SIZE in *.
  destruct (format_fields item) as (Hfl & F2 & F4 & F8 & F16 & F20); [unfold in_u; lia..|]. unfold apply_dquot. cbn [regions]. change (expect ([dquot_format item; ql_record item] !! 0%nat)) with (Ok (dquot_format item)). change (expect ([dquot_format item; ql_record item] !! 1%nat)) with (Ok (ql_record item)). cbn [mbind res_bind]. rewrite Hfl.
  change (24 <? 24)%nat with false. change (length [dquot_format item; ql_record item] =? 2)%nat with true. cbn [negb orb fail_if mbind res_bind]. unfold DQBLK_SIZE. rewrite Hl. change (136 =? 136)%nat with true. cbn [negb fail_if mbind res_bind].
  rewrite F2, F4, F8, F16, F20. cbn [mbind res_bind]. change (2 =? 2) with true. cbn [negb fail_if mbind res_bind]. rewrite (proj2 (Z.leb_gt _ _)) by lia. change (1 =? 1) with true. cbn [negb orb].
  rewrite (proj2 (Z.ltb_ge _ _)) by lia. cbn [fail_if mbind res_bind]. rewrite be16_Ok, byte_at_Ok, be32_Ok by lia. cbn [mbind res_bind]. rewrite Hm, Hv, Hrid, !Z.eqb_refl. cbn [negb orb fail_if mbind res_bind].
  destruct Hgeo as [[Hlog Hpow] _ _ _ _]. assert (Hbb : sb_blocksize sb / 512 <> 0).
  { assert (2 ^ 9 <= sb_blocksize sb) by (rewrite Hpow; apply Z.pow_le_mono_r; lia). assert (1 <= sb_blocksize sb / 512) by (apply Z.div_le_lower_bound; lia). lia. }
  rewrite (proj2 (Z.eqb_neq _ _) Hbb), Hal. cbn [Z.eqb negb orb fail_if mbind res_bind]. unfold apply_overlay, wmul. destruct (read_at d into _ _) as [buf|e|]; cbn [mbind res_bind]; [|done|done].
  destruct (copy_at (Z.to_nat (ql_offset item)) (ql_record item) buf) as [b|e|] eqn:Ec; cbn [mbind res_bind]; [|done|done]. apply copy_at_inv in Ec as [Hfit ->]. rewrite Hl in Hfit.
  set (at_ := Z.to_nat (ql_offset item)) in *. assert (Hlb : length (splice at_ (ql_record item) buf) = length buf) by (apply length_splice; lia). rewrite get_slice_Ok by lia. cbn [mbind res_bind].
  rewrite slice_splice_same by (rewrite ?Hl; lia). rewrite crc32c_with_zeroed_crc_Ok by (unfold DQ_CRC; lia). cbn [mbind res_bind]. rewrite <- Hcrc.
  assert (Hself : to_le_bytes 4 (rd_le 4 DQ_CRC (ql_record item)) = slice (at_ + DQ_CRC) 4 (splice at_ (ql_record item) buf)).
  { unfold rd_le, to_le_bytes, from_le_bytes. rewrite to_from_be_bytes', rev_involutive by (rewrite length_rev; apply length_slice; unfold DQ_CRC; lia). symmetry. rewrite slice_splice_within by (unfold DQ_CRC; lia). f_equal. lia. }
  rewrite Hself, copy_at_Ok by (rewrite length_slice; unfold DQ_CRC; lia). cbn [mbind res_bind]. rewrite splice_self by (unfold DQ_CRC; lia). done.
Qed.
End replayed.
End replay.

(** ** The dquot an item is made from *)

Definition a_quota_kind (kind : Z) : Prop := kind = DQ_USER \/ kind = DQ_PROJECT \/ kind = DQ_GROUP.

Section updated.
Context `{Crc : Crc32c} {Laws : Crc32cLaws}.
Context (sb : Superblock) (Hty : sb_typed sb) (Hgeo : sb_geometry sb) (read : Z -> nat -> res bytes).

Lemma check_extents_ok ino extents : forall i, check_extents_loop sb ino i extents = Ok tt -> Forall (fun e => extent_in_bounds sb (startblock e) (blockcount e) = true) extents.
Proof.
  induction extents as [|e es IH]; intros i H; cbn [check_extents_loop] in H; [constructor|]. apply guard_Ok in H as [Hb H]. apply negb_false_iff in Hb. constructor; [done|by eapply IH].
Qed.

Lemma data_extents_ok inode raw es : data_extents sb read inode raw = Ok es -> Forall extent_ok es /\ Forall (fun e => extent_in_bounds sb (startblock e) (blockcount e) = true) es.
Proof.
  intros H. unfold data_extents in H. apply guard_Ok in H as [_ H]. apply bind_Ok in H as (es' & Hf & H). apply bind_Ok in H as ([] & Hc & <-%Ok_inj). split; [|by eapply check_extents_ok].
  unfold fork_extents in Hf. destruct (data_fork_range _ _) as [start end_]. destruct (i_format inode); try done; apply bind_Ok in Hf as (fork & _ & Hf); [by eapply parse_list_ok|by eapply walk_ok].
Qed.

(** A block a file maps, by its group. *)
Lemma mapped_block es logical e fsblock : Forall extent_ok es -> Forall (fun e => extent_in_bounds sb (startblock e) (blockcount e) = true) es ->
  Extent.lookup es logical = Some e -> Extent.map e logical = Some fsblock ->
  fsblock < 2 ^ 53 /\ exists agno agbno, fsblock = agno * 2 ^ sb_agblklog sb + agbno /\ ag_extent sb agno agbno 1.
Proof.
  intros Hok Hb Hl Hm. destruct (lookup_mapped_at es logical e Hok Hl) as (Hin & [Hlo Hhi] & _). rewrite Forall_forall in Hok, Hb. pose proof (Hok e Hin) as (Ho & Hs & Hc). specialize (Hb e Hin). cbn beta in Hb.
  unfold Extent.map in Hm. destruct (contains e logical); [|done]. rewrite wsub_small in Hm by lia. rewrite wadd_small in Hm by lia. apply (inj Some) in Hm as <-.
  split; [lia|]. apply extent_in_bounds_spec in Hb as (agno & agbno & E & Ha); [|done|done|unfold in_u; lia|unfold in_u; lia]. exists agno, (agbno + (logical - startoff e)). split; [lia|].
  destruct Ha as (Ha1 & Ha2 & Ha3 & Ha4). unfold ag_extent. lia.
Qed.

Lemma adjusted_record_of record kind id blocks_fs inodes enforce after : length record = DQBLK_SIZE -> a_quota_kind kind -> in_u 32 id ->
  adjust_record record kind id blocks_fs inodes enforce = (after, Ok tt) -> length after = DQBLK_SIZE /\ record_of after kind id.
Proof.
  intros Hl Hk Hid Ha. unfold adjust_record in Ha. rewrite Hl, Nat.eqb_refl in Ha. cbn [negb] in Ha. destruct (begin_record_spec record kind id Hl) as [_ Hb].
  destruct (begin_record record kind id) as [base|e|]; [|done|done]. pose proof (proj1 (Hb base) eq_refl) as Hbase.
  assert (Hlb : length base = DQBLK_SIZE /\ rd 2 0 base = DQ_MAGIC /\ rd 1 2 base = DQ_VERSION /\ Z.land (rd 1 3 base) 7 = kind /\ rd 4 4 base = id).
  { destruct Hbase as [[He ->]|(_ & (H1 & H2 & H3 & H4 & _) & ->)]; [|done]. unfold DQBLK_SIZE, in_u in *. assert (Hlh : length (record_header kind id) = 8%nat) by (unfold record_header; by rewrite !length_app, !length_to_be_bytes).
    assert (Hs : forall off m, (off + m <= 8)%nat -> slice off m (splice 0 (record_header kind id) record) = slice off m (record_header kind id)).
    { intros off m Ho. rewrite slice_splice_within by lia. f_equal. lia. }
    split; [rewrite length_splice; [done|lia]|]. unfold record_header in Hs. split_and!.
    - apply rd_of_slice; [|done]. rewrite Hs by lia. apply slice_head. by rewrite length_to_be_bytes.
    - apply rd_of_slice; [|done]. rewrite Hs by lia. apply slice_between; by rewrite length_to_be_bytes.
    - rewrite (rd_of_slice 1 3 _ kind); [by destruct Hk as [-> | [-> | ->]]| |by destruct Hk as [-> | [-> | ->]]]. rewrite Hs by lia. rewrite app_assoc. apply slice_between; by rewrite ?length_app, !length_to_be_bytes.
    - apply rd_of_slice; [|done]. rewrite Hs by lia. rewrite !app_assoc. apply slice_app_r; by rewrite ?length_app, !length_to_be_bytes. }
  destruct Hlb as (Hlb & H1 & H2 & H3 & H4). destruct (finish_record_spec base kind id blocks_fs inodes enforce Hlb) as [_ Hf]. destruct (finish_record base kind id blocks_fs inodes enforce) as [r|e|]; [|done|done].
  injection Ha as ->. destruct (proj1 (Hf after) eq_refl) as [(Hnb & Hni & _) ->].
  pose proof (with_counts_frame base (rd 8 DQ_BCOUNT base + blocks_fs) (rd 8 DQ_ICOUNT base + inodes) Hlb) as Hfr. pose proof (with_counts_reads base _ _ Hlb Hnb Hni) as (_ & _ & Hcrc).
  split; [by apply with_counts_length|]. unfold record_of. rewrite (rd_slice 2 0 base), (rd_slice 1 2 base), (rd_slice 1 3 base), (rd_slice 4 4 base) by (apply Hfr; lia). done.
Qed.

Lemma quota_blocksize_bounds : 512 <= sb_blocksize sb <= 65536 /\ 1 <= sb_blocksize sb / 512 <= 128 /\ sb_blocksize sb = sb_blocksize sb / 512 * 512.
Proof.
  destruct Hgeo as [[Hlog Hpow] _ _ _ _]. assert (E : sb_blocksize sb = 512 * 2 ^ (sb_blocklog sb - 9)) by (rewrite Hpow; change 512 with (2 ^ 9); rewrite <- Z.pow_add_r by lia; f_equal; lia).
  assert (1 <= 2 ^ (sb_blocklog sb - 9) <= 128) by (change 1 with (2 ^ 0); change 128 with (2 ^ 7); split; apply Z.pow_le_mono_r; lia). rewrite E. rewrite (Z.mul_comm 512), Z.div_mul by lia. lia.
Qed.

Lemma update_dquot_spec qino id kind blocks_fs inodes enforce item : a_quota_kind kind -> in_u 32 id ->
  update_dquot sb read qino id kind blocks_fs inodes enforce = Ok item ->
  item_good sb item /\ exists fsblock agno agbno block, read_fsblock sb read fsblock = Ok block /\ fsblock = agno * 2 ^ sb_agblklog sb + agbno /\ ag_extent sb agno agbno 1 /\
    ql_blkno item = fsblock * (sb_blocksize sb / 512) /\ adjust_record (slice (Z.to_nat (ql_offset item)) DQBLK_SIZE block) kind id blocks_fs inodes enforce = (ql_record item, Ok tt).
Proof.
  intros Hk Hid H. unfold update_dquot in H. apply bind_Ok in H as ([qfile qraw] & _ & H). apply bind_Ok in H as ([logical within] & Ha & H). apply bind_Ok in H as (es & He & H).
  apply bind_Ok in H as (e & Hl%ok_or_Ok & H). apply bind_Ok in H as (fsblock & Hm%ok_or_Ok & H). apply bind_Ok in H as (block & Hr & H). apply bind_Ok in H as (old & [Hfit Hold]%get_slice_inv & H).
  destruct (data_extents_ok _ _ _ He) as [Hok Hin]. destruct (mapped_block es logical e fsblock Hok Hin Hl Hm) as (Hfs & agno & agbno & Efs & Hag).
  destruct (adjust_record old kind id blocks_fs inodes enforce) as [record result] eqn:Eadj. apply bind_Ok in H as ([] & -> & H). apply bind_Ok in H as (blkno & Hmul%ok_or_Ok & <-%Ok_inj).
  assert (Hlo : length old = DQBLK_SIZE) by (rewrite Hold; by apply length_slice). destruct (adjusted_record_of old kind id blocks_fs inodes enforce record Hlo Hk Hid Eadj) as [Hlr Hrec].
  pose proof quota_blocksize_bounds as (Hbs & Hbb & Hbm). unfold record_address in Ha. apply guard_Ok in Ha as [Hper%Z.eqb_neq [= <- <-]]. unfold checked_mul in Hmul. destruct (Z.ltb_spec (fsblock * (sb_blocksize sb / 512)) (2 ^ 64)) in Hmul; [|done]. apply (inj Some) in Hmul as <-.
  set (per := sb_blocksize sb / Z.of_nat DQBLK_SIZE) in *. assert (Hp : 0 < per /\ per * 136 <= sb_blocksize sb).
  { unfold per, DQBLK_SIZE in *. change (Z.of_nat 136) with 136 in *. pose proof (Z.mul_div_le (sb_blocksize sb) 136 ltac:(lia)). pose proof (Z.div_pos (sb_blocksize sb) 136). lia. }
  unfold in_u in Hid. pose proof (Z.mod_pos_bound id per ltac:(lia)) as Hmod. assert (Hw : Z.of_nat (Z.to_nat (id mod per) * DQBLK_SIZE) = id mod per * 136) by (unfold DQBLK_SIZE; lia).
  assert (Hws : wrap 32 (Z.of_nat (Z.to_nat (id mod per) * DQBLK_SIZE)) = id mod per * 136) by (rewrite Hw; apply wrap_small; unfold in_u; nia).
  assert (Hnn : 0 <= fsblock). { destruct Hag as (Hg1 & Hg2 & _). pose proof (agfl_block_nonneg sb Hgeo). pose proof (pow2_pos (sb_agblklog sb) ltac:(apply (agblklog_range sb Hty Hgeo))). nia. }
  split.
  - constructor; cbn [ql_record ql_id ql_offset ql_blkno]; [done|by exists kind|done| |].
    + rewrite Hws. unfold DQBLK_SIZE. nia.
    + split; [nia|]. apply Z.mod_mul. lia.
  - exists fsblock, agno, agbno, block. cbn [ql_record ql_offset ql_blkno]. split; [done|]. split; [done|]. split; [done|]. split; [done|]. rewrite Hws.
    replace (Z.to_nat (id mod per * 136)) with (Z.to_nat (id mod per) * DQBLK_SIZE)%nat by (unfold DQBLK_SIZE; lia). by rewrite <- Hold.
Qed.

(** C31: The item a change of usage is logged as is accepted by recovery, which
    leaves in the overlay exactly what the mount puts there itself. *)
Theorem quota_item_replays `{host : Host} {D : Type} {dev : BlockDevice D} (d : D) qino id kind blocks_fs inodes enforce item : a_quota_kind kind -> in_u 32 id ->
  update_dquot sb read qino id kind blocks_fs inodes enforce = Ok item ->
  exists l, ops item = Ok l /\ length l = op_count item /\ forall into, apply_dquot sb d into (mkLogItem (op_data <$> l) (length l)) = apply_overlay d sb item into.
Proof.
  intros Hk Hid H. apply update_dquot_spec in H as [Hg _]; [|done|done]. eexists. split; [apply ops_Ok|]. split; [done|]. intros into. apply dquot_replay; [done|done|done|apply ops_Ok].
Qed.

(** C33: The address an item is logged and put in the overlay at is that of the block
    the record was read from only in the first group, or where groups are a power
    of two of blocks; in every other group of another volume it is not. *)
Theorem quota_item_misplaced qino id kind blocks_fs inodes enforce item : sb_dblocks sb * sb_blocksize sb < 2 ^ 64 -> a_quota_kind kind -> in_u 32 id ->
  update_dquot sb read qino id kind blocks_fs inodes enforce = Ok item ->
  exists agno agbno block, ag_extent sb agno agbno 1 /\ read_fsblock sb read (agno * 2 ^ sb_agblklog sb + agbno) = Ok block /\
    adjust_record (slice (Z.to_nat (ql_offset item)) DQBLK_SIZE block) kind id blocks_fs inodes enforce = (ql_record item, Ok tt) /\
    (ql_blkno item * 512 = fsblock_offset sb (agno * 2 ^ sb_agblklog sb + agbno) <-> agno = 0 \/ sb_agblocks sb = 2 ^ sb_agblklog sb).
Proof.
  intros Hd Hk Hid H. apply update_dquot_spec in H as (_ & fsblock & agno & agbno & block & Hr & -> & Hag & Hb & Ha); [|done|done]. exists agno, agbno, block. split; [done|]. split; [done|]. split; [done|].
  rewrite (fsblock_offset_packed sb agno agbno Hty Hgeo Hd Hag), Hb. pose proof quota_blocksize_bounds as (Hbs & Hbb & Hbm). destruct Hag as (Hg1 & _).
  rewrite <- Z.mul_assoc, <- Hbm. split.
  - intros E. apply Z.mul_reg_r in E; [|lia]. destruct (Z.eq_dec agno 0) as [|Hne]; [by left|right]. apply (Z.mul_reg_l _ _ agno); lia.
  - intros [-> | ->]; [done|done].
Qed.
End updated.

(** ** Witnesses *)

(** A volume whose groups are not a power of two of blocks, and a quota inode
    whose block is in its second group. *)
Definition odd_buf : bytes := Eval vm_compute in
  let b := put_field (put_field sample_unsummed (F offsets.AGBLOCKS 4 2000)) (F offsets.DBLOCKS 8 4000) in
  splice offsets.CRC (to_le_bytes 4 (zeroed_crc b offsets.CRC)) b.
Definition odd_sb : Superblock := Eval vm_compute in match Superblock.parse odd_buf with Ok sb => sb | _ => sample_sb end.
Lemma odd_parse : Superblock.parse odd_buf = Ok odd_sb.
Proof. vm_compute. reflexivity. Qed.
Lemma odd_typed : sb_typed odd_sb.
Proof. by destruct (parse_Ok_inv _ _ odd_parse) as (? & ? & _ & _ & _ & ? & _). Qed.
Lemma odd_geometry : sb_geometry odd_sb.
Proof. destruct (parse_Ok_inv _ _ odd_parse) as (? & ? & _ & _ & _ & ? & ?). by apply validate_spec. Qed.

Definition quota_raw : bytes := Eval vm_compute in
  let b := fold_left put_field [F di.NEXTENTS 4 1; F di.INO 8 130] sample_inode_unsummed in
  let b := splice 176 (match Extent.to_bytes (mkExtent 0 (2048 + 100) 1 false) with Ok b => b | _ => [] end) b in
  splice di.CRC (to_le_bytes 4 (zeroed_crc b di.CRC)) b.
Definition quota_read (off : Z) (n : nat) : res bytes := if off =? 130 * 256 then Ok quota_raw else Ok (replicate n x00).
Definition sample_item : QuotaLogItem := Eval vm_compute in
  match update_dquot odd_sb quota_read 130 2 DQ_USER 5 1 true with Ok item => item | _ => mkQuotaLogItem 0 0 0 [] end.
Lemma sample_update : update_dquot odd_sb quota_read 130 2 DQ_USER 5 1 true = Ok sample_item.
Proof. vm_compute. reflexivity. Qed.

Lemma quota_item_misplaced_witness : exists agno agbno block, read_fsblock odd_sb quota_read (agno * 2 ^ 11 + agbno) = Ok block /\
  ql_blkno sample_item = 2148 /\ (ql_blkno sample_item * 512 = fsblock_offset odd_sb (agno * 2 ^ 11 + agbno) <-> agno = 0 \/ 2000 = 2 ^ 11).
Proof.
  destruct (quota_item_misplaced odd_sb odd_typed odd_geometry quota_read 130 2 DQ_USER 5 1 true sample_item ltac:(by vm_compute) ltac:(by left) ltac:(by vm_compute) sample_update) as (agno & agbno & block & _ & Hr & _ & H).
  exists agno, agbno, block. split; [exact Hr|]. split; [reflexivity|exact H].
Defined.

Lemma quota_item_replays_witness : let host := Build_Host true in exists l, ops sample_item = Ok l /\
  apply_dquot odd_sb (mkMem (replicate 2048 x00)) ∅ (mkLogItem (op_data <$> l) (length l)) = apply_overlay (mkMem (replicate 2048 x00)) odd_sb sample_item ∅.
Proof.
  intros host. destruct (quota_item_replays odd_sb odd_typed odd_geometry quota_read (mkMem (replicate 2048 x00)) 130 2 DQ_USER 5 1 true sample_item ltac:(by left) ltac:(by vm_compute) sample_update) as (l & Hl & _ & H).
  exact (ex_intro _ l (conj Hl (H ∅))).
Defined.

Definition sample_record : bytes := Eval vm_compute in stamped_at DQ_CRC (splice 120 (sb_meta_uuid sample_sb) (splice 0 (record_header DQ_USER 7) (replicate DQBLK_SIZE x00))).
Definition sample_after : bytes := Eval vm_compute in fst (adjust_record sample_record DQ_USER 7 5 1 true).

Lemma adjust_record_exact_witness : match adjust_record sample_record DQ_USER 7 5 1 true with (after, Ok _) => after = with_counts sample_record 5 1 | _ => False end.
Proof.
  pose proof (adjust_record_exact sample_record DQ_USER 7 5 1 true ltac:(reflexivity)) as H.
  assert (E : adjust_record sample_record DQ_USER 7 5 1 true = (sample_after, Ok tt)) by (vm_compute; reflexivity). rewrite E in H |- *. destruct H as (_ & _ & ->). vm_compute. reflexivity.
Defined.

Definition sample_rec : QuotaRecord := Eval vm_compute in
  match Record_parse sample_record User 7 (Some (sb_meta_uuid sample_sb)) false with Ok rec => rec | _ => mkQuotaRecord 0 User (mkResource 0 0 0 0) (mkResource 0 0 0 0) (mkResource 0 0 0 0) false end.
Lemma sample_record_parse : Record_parse sample_record User 7 (Some (sb_meta_uuid sample_sb)) false = Ok sample_rec.
Proof. vm_compute. reflexivity. Qed.
Lemma sample_record_adjusted : adjust_record sample_record (record_type User) 7 5 1 true = (sample_after, Ok tt).
Proof. vm_compute. reflexivity. Qed.
Lemma sample_record_checked : check_resources User 7 (with_count (q_blocks sample_rec) (r_count (q_blocks sample_rec) + 5)) (with_count (q_inodes sample_rec) (r_count (q_inodes sample_rec) + 1)) (q_realtime sample_rec) = Ok tt.
Proof. vm_compute. reflexivity. Qed.

Lemma adjusted_record_read_witness : Record_parse sample_after User 7 (Some (sb_meta_uuid sample_sb)) false =
  Ok (mkQuotaRecord 7 User (with_count (q_blocks sample_rec) (r_count (q_blocks sample_rec) + 5)) (with_count (q_inodes sample_rec) (r_count (q_inodes sample_rec) + 1)) (q_realtime sample_rec) (q_bigtime sample_rec)).
Proof.
  pose proof (adjusted_record_read sample_record User 7 (sb_meta_uuid sample_sb) false 5 1 true sample_after eq_refl sample_record_adjusted) as H.
  exact (proj2 (proj1 H sample_rec sample_record_parse _) (conj sample_record_checked eq_refl)).
Defined.

Lemma changes_added_up_witness : exists deltas, collect_deltas sample_sb [mkQuotaChange 1 1 0 5 1] [] = Ok deltas /\
  forall key, lookup_delta key deltas = total_for key ([mkQuotaChange 1 1 0 5 1] ≫= contributions sample_sb).
Proof.
  destruct (changes_added_up sample_sb [mkQuotaChange 1 1 0 5 1]) as [_ H]. destruct (collect_deltas sample_sb [mkQuotaChange 1 1 0 5 1] []) as [deltas| |] eqn:E; [|discriminate..].
  exists deltas. split; [done|]. by apply H.
Defined.
